(* ===== verification/_CoqProject ===== *)
-Q . S2P
Prelude.v
Bytes.v
Store.v
BbnTypes.v
BtcStaking.v
Delegations.v
FinalityTypes.v
PowerTable.v
FinalityStore.v
Tally.v
Liveness.v
Sha256.v
Curve.v
Eots.v
AdaptorSig.v
PubRand.v
FinalityGenesis.v
PowerDist.v
EndBlock.v
Gov.v
FinalityMsgs.v
Slashing.v
TxFormatter.v
Coins.v
Mint.v
RewardTracker.v
RewardLedger.v
Incentive.v
IncentiveSafety.v
IncentiveGenesis.v
LightClient.v
LightChain.v
Spv.v
SpvProofs.v
StakingTx.v
Pop.v
StakingParams.v
StakingMsgs.v
StakingProofs.v
SlashingPath.v
StakingEdges.v
StakingExample.v
IdentifiableStaking.v
StakingGenesis.v
Epochs.v
EpochTiling.v
Costaking.v
CostakingLedger.v
Checkpoints.v
Monitor.v
EpochMsgs.v
EpochFunds.v
BlsLaws.v
BtcCheckpoint.v
BtcCheckpointProofs.v
Proposal.v
CheckpointSafety.v
ProposalProofs.v
