(* ===== verification/Prelude.v ===== *)
(** * Babylon: a verification of the protocol modules

    Babylon is a Cosmos SDK chain whose blocks are finalised by providers that holders of
    bitcoin delegate to, and whose epochs are checkpointed on Bitcoin. This library
    models the modules under src/x, with the cryptography and the Bitcoin code under
    src/crypto, src/btcstaking, src/btctxformatter and src/types, as functions on records
    of their stores, and proves what the protocol promises.

    ** How the code is modelled

    A handler is a function from the state of its module to an [outcome]: [Ok] with the
    new state, [Err] where the Go code returns an error, [Panic] where it panics, a nil
    pointer or an index out of range included. Stores are stdpp maps, iterated in the
    order of their keys (Store.v); machine integers are numbers with their wrap-around
    written out; SDK decimals are integers scaled by [DecOne]; lists of bytes are keys,
    hashes and transactions. Loops over heights and periods recurse on a list of the
    range or on fuel, and the fuel is the number of entries or the distance to the bound,
    which the termination lemmas show to be enough. Events, logs, metrics and gas of the
    SDK are left out unless a claim is about them. Code outside the repository (btcd, the
    SDK's staking, bank and codec, the BLS library, double SHA-256) enters as a class of
    operations with its documented behaviour as laws; each file that uses such a class
    ends with an instance that satisfies the laws, and the theorems are applied to it.

    ** Parts and files

    - Shared: errors, the result monad and machine integers in this file; Bytes.v, Store.v;
      BbnTypes.v (src/types); Coins.v (SDK coins, bank, addresses; src/types/sdk_math.go).
    - Finality (src/x/finality): FinalityTypes.v and FinalityStore.v (data and stores),
      PowerTable.v (the voting power distribution cache), PowerDist.v (power
      distribution events), Tally.v (tallying.go), Liveness.v, PubRand.v, FinalityMsgs.v
      and Slashing.v (the message server), EndBlock.v (abci.go, rewarding.go), Gov.v,
      FinalityGenesis.v.
    - Signatures: Sha256.v, Curve.v (the group), Eots.v (src/crypto/eots), AdaptorSig.v
      (src/crypto/schnorr-adaptor-signature).
    - BTC staking (src/x/btcstaking, src/btcstaking): BtcStaking.v (finality providers and
      power events), Delegations.v (delegations and their status), StakingTx.v (scripts,
      transactions, signatures and witnesses), Pop.v (proofs of possession,
      src/crypto/bip322 and ecdsa), StakingParams.v (versioned parameters), StakingMsgs.v
      (messages, validation and all handlers), StakingProofs.v, SlashingPath.v and
      StakingEdges.v (theorems), StakingExample.v (an instance), IdentifiableStaking.v (the
      transactions of the first phase), StakingGenesis.v.
    - Incentives (src/x/incentive): RewardTracker.v and Incentive.v (the module),
      RewardLedger.v and IncentiveSafety.v (theorems), IncentiveGenesis.v.
    - Co-staking and minting (src/x/costaking, src/x/mint): Costaking.v (the module with
      all its hooks, in a monad that keeps the state where an error is only logged),
      CostakingLedger.v (theorems); Mint.v.
    - Bitcoin light client (src/x/btclightclient): LightClient.v (the module),
      LightChain.v (theorems).
    - Epochs and checkpoints (src/x/epoching, src/x/checkpointing, src/x/btccheckpoint,
      src/btctxformatter, src/crypto/bls12381): Epochs.v, EpochTiling.v, EpochMsgs.v (the
      message server and genesis), EpochFunds.v (theorems); Checkpoints.v,
      BlsLaws.v, CheckpointSafety.v; Proposal.v, ProposalProofs.v; Spv.v, SpvProofs.v;
      BtcCheckpoint.v, BtcCheckpointProofs.v; TxFormatter.v. Monitor.v (src/x/monitor)
      listens to epochs and checkpoints.

    ** What the theorems show

    - Accountability: a provider that votes for two blocks at a height reveals its secret
      key and is slashed, nobody else is, and slashing is permanent (Slashing.v, Eots.v,
      BtcStaking.v). Every stored delegation, after any history of messages, has slashing
      transactions that pay the penalty and valid signatures (StakingProofs.v), and the
      revealed key completes them with a witness that the scripts accept
      (SlashingPath.v, AdaptorSig.v). The parser of first-phase transactions inverts the
      builder and accepts only transactions with one such stake (IdentifiableStaking.v).
    - Finality: tallying finalises exactly the blocks with a quorum, in order, and catches
      up, unless the reward keeper refuses a payment (Tally.v, EndBlock.v); the power
      distribution equals the sum of active
      delegations of the chosen providers, and slashed providers have none (PowerDist.v,
      PowerTable.v). The keeper's import of an exported state restores it, with the chunks
      of a missed-block bitmap compacted to the front and apart from the validation in
      between (FinalityGenesis.v).
    - Rewards: the incentive module's account covers all it owes, and each delegation gets
      its share up to the truncation (IncentiveSafety.v). With the hooks of co-staking in
      place both modules' accounts cover what they owe, and a co-staker gets its share
      of the pool (CostakingLedger.v). Over any run of blocks the tokens minted are the
      annual provisions in proportion to the time, up to a unit a block (Mint.v).
      A reward that truncates to nothing in one denomination is not credited in any.
    - Bitcoin: the light client's stores are one chain of maximal work among those offered
      (LightChain.v); SPV proofs are sound and complete (SpvProofs.v).
    - Checkpoints: epochs tile the heights (EpochTiling.v); the delegate pool holds the
      funds of every queued delegation, taken from its delegator and returned to the
      same account before the delegation is executed (EpochFunds.v); conflicting checkpoints expose
      signers with a third of the power (CheckpointSafety.v); accepted proposals seal the
      checkpoint, honest ones are accepted (ProposalProofs.v); epochs are finalised on
      Bitcoin in order (BtcCheckpointProofs.v); the encoding in transactions is inverted
      by the decoder (TxFormatter.v); the heights the monitor answers are those of its
      history (Monitor.v).
    - Flaws: behaviours that contradict the stated intent of the code are theorems too,
      among them [late_quorum_activates] and [coinbase_check_bypassed] of StakingEdges.v,
      [finality_export_rejected] of FinalityGenesis.v, [exported_genesis_rejected] of
      EpochFunds.v, [incentive_export_panics] of IncentiveGenesis.v,
      [slashed_export_rejected] of StakingGenesis.v and [minted_in_proportion] of Mint.v.

    ** Not modelled

    Generated protobuf code beyond the records, gRPC queries and command line clients;
    the wiring of the application, ante handlers, upgrades and wasm bindings; key files
    and remote signers: these format, configure or move data and have no protocol logic
    of their own. The validation of the BTC staking genesis, which repeats the checks of the
    handlers on every record. *)

From stdpp Require Export base gmap list sorting strings.
From Stdlib Require Export ZArith Lia.
From Stdlib Require Import Permutation.

#[global] Open Scope Z_scope.

(** ** Errors

    The registered sentinel errors of the modelled modules, under their Go
    names, and [Errorf] for an error built in place with [fmt.Errorf] or
    [errors.New] (its string names the site). Wrapping ([Wrap], [Wrapf]) adds
    text and keeps the error's identity, so a wrapped error is the sentinel
    itself. *)
Inductive error :=
  (* x/finality/types/errors.go *)
  | ErrBlockNotFound | ErrVoteNotFound | ErrHeightTooHigh | ErrPubRandNotFound
  | ErrNoPubRandYet | ErrTooFewPubRand | ErrInvalidPubRand | ErrEvidenceNotFound
  | ErrInvalidFinalitySig | ErrDuplicatedFinalitySig | ErrNoSlashableEvidence
  | ErrPubRandCommitNotBTCTimestamped | ErrJailingPeriodNotPassed
  | ErrBTCStakingNotActivated | ErrFinalityNotActivated | ErrSigHeightOutdated
  | ErrOverflowInBlockHeight | ErrInvalidPubRandCommit | ErrInvalidResumeFinality
  | ErrFinalityProviderIsDeleted | ErrInvalidSats | ErrVotingPowerTableNotUpdated
  | ErrVotingPowerTableNotFound
  (* x/btcstaking/types/errors.go *)
  | ErrFpNotFound | ErrBTCDelegationNotFound | ErrFpRegistered | ErrFpAlreadySlashed
  | ErrCommissionLTMinRate | ErrCommissionGTMaxRate | ErrFpAlreadyJailed | ErrFpNotJailed
  | ErrParamsNotFound | ErrEmptyFpList | ErrReusedStakingTx | ErrInvalidStakingTx
  | ErrInvalidCovenantPK | ErrInvalidCovenantSig | ErrDuplicatedCovenantSig
  | ErrInvalidDelegationState | ErrInvalidUnbondingTx | ErrInvalidSlashingTx
  | ErrDuplicatedFp | ErrEmptyCommissionRates | ErrInvalidStakeExpansion
  | ErrInvalidBTCUndelegateReq | ErrStakingTxIncludedTooEarly | ErrTooManyFpKeys
  | ErrInvalidProofOfPossession
  (* btcstaking/errors.go and types/errors.go *)
  | ErrDuplicatedKeyInScript | ErrInvalidSlashingRate | ErrInsufficientSlashingAmount
  | ErrInsufficientChangeAmount | ErrDustOutputFound | ErrInvalidUnbondingFee
  | ErrOutputNotFound | ErrMultipleOutputsMatch
  (* cosmos-sdk sentinels the code returns *)
  | ErrInvalidAddress | ErrInvalidSigner | ErrInvalidProposalMsg
  | ErrCommissionNegative | ErrCommissionHuge | ErrCommissionChangeRateNegative
  | ErrCommissionChangeRateGTMaxRate | ErrCommissionUpdateTime
  | ErrCommissionGTMaxChangeRate | ErrStkCommissionGTMaxRate | ErrCollectionsNotFound
  | ErrUnauthorized
  (* x/incentive/types/errors.go *)
  | ErrFPCurrentRewardsNotFound | ErrFPHistoricalRewardsNotFound
  | ErrBTCDelegationRewardsTrackerNotFound
  | ErrBTCDelegationRewardsTrackerNegativeAmount
  | ErrFPCurrentRewardsTrackerNegativeAmount
  | ErrRewardGaugeNotFound | ErrNoWithdrawableCoins | ErrBTCStakingGaugeNotFound | ErrInvalidAmount
  (* x/btclightclient/types/errors.go; [ErrInvalidHeader] also of x/btccheckpoint *)
  | ErrHeaderDoesNotExist | ErrHeaderParentDoesNotExist | ErrEmptyMessage | ErrInvalidProofOfWOrk
  | ErrInvalidHeader | ErrChainWithNotEnoughWork | ErrUnauthorizedReporter | ErrInvalidMessageFormat
  | ErrForkStartWithKnownHeader
  (* x/btccheckpoint/types/errors.go *)
  | ErrInvalidCheckpointProof | ErrDuplicatedSubmission | ErrNoCheckpointsForPreviousEpoch
  | ErrProvidedHeaderDoesNotHaveAncestor | ErrEpochAlreadyFinalized
  (* x/checkpointing/types/errors.go *)
  | ErrCkptDoesNotExist | ErrCkptAlreadyExist | ErrCkptHashNotEqual | ErrCkptNotAccumulating
  | ErrCkptAlreadyVoted | ErrInvalidRawCheckpoint | ErrInvalidCkptStatus | ErrInvalidPoP
  | ErrBlsKeyDoesNotExist | ErrBlsKeyAlreadyExist | ErrInvalidBlsSignature | ErrConflictingCheckpoint
  | ErrInvalidAppHash | ErrInsufficientVotingPower | ErrValAddrDoesNotExist | ErrNilCkpt | ErrVoteExt
  (* x/epoching/types/errors.go *)
  | ErrUnwrappedMsgType | ErrInvalidQueuedMessageType | ErrUnknownEpochNumber
  | ErrUnknownSlashedVotingPower | ErrUnknownValidator | ErrUnknownTotalVotingPower
  | ErrNoWrappedMsg | ErrZeroEpochMsg | ErrInvalidEpoch | ErrInvalidHeight | ErrInsufficientBalance
  (* x/costaking/types/errors.go *)
  | ErrInvalidScoreRatioBtcByBaby | ErrScoreRatioTooLow | ErrInvalidCurrentRewards
  | ErrPercentageTooHigh | ErrInvalidPercentage | ErrInvalidPeriod | ErrNegativeRewards
  | ErrInvalidCostakerRwdTracker
  (* x/monitor/types/errors.go *)
  | ErrEpochNotEnded | ErrCheckpointNotReported
  | Errorf (site : string).

(** ** Outcomes

    A Go call either returns a value, returns an error, or panics. *)
Inductive outcome (A : Type) :=
  | Ok (a : A)
  | Err (e : error)
  | Panic (e : error).
Arguments Ok {A} a.
Arguments Err {A} e.
Arguments Panic {A} e.

#[global] Instance outcome_ret : MRet outcome := @Ok.
#[global] Instance outcome_bind : MBind outcome := λ A B f m,
  match m with Ok a => f a | Err e => Err e | Panic e => Panic e end.
#[global] Instance outcome_fmap : FMap outcome := λ A B f m,
  match m with Ok a => Ok (f a) | Err e => Err e | Panic e => Panic e end.

Definition is_ok {A} (m : outcome A) : bool :=
  match m with Ok _ => true | _ => false end.

(** [if err != nil { panic(err) }] *)
Definition must {A} (m : outcome A) : outcome A :=
  match m with Ok a => Ok a | Err e => Panic e | Panic e => Panic e end.

(** [if err != nil { return fmt.Errorf("site ...", err) }] *)
Definition wrapf {A} (site : string) (m : outcome A) : outcome A :=
  match m with Ok a => Ok a | Err _ => Err (Errorf site) | Panic e => Panic e end.

(** [if err != nil { return ErrX.Wrap(err.Error()) }] *)
Definition wrap_as {A} (e : error) (m : outcome A) : outcome A :=
  match m with Ok a => Ok a | Err _ => Err e | Panic e' => Panic e' end.

(** A sequential loop over a slice whose body may return early with an error. *)
Fixpoint foldM {A S} (f : S → A → outcome S) (s : S) (l : list A) : outcome S :=
  match l with
  | [] => Ok s
  | x :: l => s' ← f s x; foldM f s' l
  end.

Lemma bind_Ok {A B} (m : outcome A) (f : A → outcome B) b :
  (m ≫= f) = Ok b ↔ ∃ a, m = Ok a ∧ f a = Ok b.
Proof.
  destruct m as [a|e|e]; simpl; split; try done.
  - by exists a.
  - by intros (a' & [= <-] & ?).
  - by intros (a' & ? & ?).
  - by intros (a' & ? & ?).
Qed.

Lemma bind_Err {A B} (m : outcome A) (f : A → outcome B) e :
  (m ≫= f) = Err e ↔ m = Err e ∨ ∃ a, m = Ok a ∧ f a = Err e.
Proof.
  destruct m as [a|x|x]; simpl; split.
  - intros H. right. by exists a.
  - by intros [?|(a' & [= <-] & ?)].
  - intros [= ->]. by left.
  - by intros [[= ->]|(a' & ? & ?)].
  - done.
  - by intros [?|(a' & ? & ?)].
Qed.

Lemma must_Ok {A} (m : outcome A) a : must m = Ok a ↔ m = Ok a.
Proof. destruct m; simpl; split; first [done | congruence | by intros [? ?] | by eauto]. Qed.

Lemma wrapf_Ok {A} s (m : outcome A) a : wrapf s m = Ok a ↔ m = Ok a.
Proof. destruct m; simpl; split; first [done | congruence | by intros [? ?] | by eauto]. Qed.

Lemma wrap_as_Ok {A} e (m : outcome A) a : wrap_as e m = Ok a ↔ m = Ok a.
Proof. destruct m; simpl; split; first [done | congruence | by intros [? ?] | by eauto]. Qed.

Lemma is_ok_spec {A} (m : outcome A) : is_ok m = true ↔ ∃ a, m = Ok a.
Proof. destruct m; simpl; split; first [done | congruence | by intros [? ?] | by eauto]. Qed.

(** The wrappers that add text to an error or turn it into a panic do not change
    success. *)
Create HintDb outcome.
#[export] Hint Rewrite @must_Ok @wrapf_Ok @wrap_as_Ok : outcome.

(** The value of a call known to succeed. *)
Definition get_ok {A} (d : A) (m : outcome A) : A := match m with Ok a => a | _ => d end.
Lemma is_ok_get {A} (d : A) (m : outcome A) : is_ok m = true → m = Ok (get_ok d m).
Proof. by destruct m. Qed.

Lemma foldM_app {A S} (f : S → A → outcome S) s l1 l2 :
  foldM f s (l1 ++ l2) = (s' ← foldM f s l1; foldM f s' l2).
Proof. revert s; induction l1 as [|x l1 IH]; intros s; simpl; [done|]. destruct (f s x); simpl; auto. Qed.

(** [inv_ok H] inverts the evaluation [H : m = Ok b] along the control flow of
    [m]: the scrutinee of each match in head position is split and the branches
    that do not return [Ok] are closed, each bind gives its intermediate
    result. *)
Ltac inv_ok H :=
  repeat first
    [ progress simpl in H
    | discriminate H
    | match type of H with
      | (_ ≫= _) = Ok _ =>
        let a := fresh "r" in let Ha := fresh "Hr" in
        apply bind_Ok in H as (a & Ha & H)
      | (match ?x with _ => _ end) = Ok _ =>
        let E := fresh "E" in destruct x eqn:E; try discriminate H
      end ].

(** Loops with the same body on the elements they visit. *)
Lemma foldM_ext {A S} (f g : S → A → outcome S) s l :
  (∀ s x, x ∈ l → f s x = g s x) → foldM f s l = foldM g s l.
Proof.
  revert s. induction l as [|x l IH]; intros s Hfg; [done|]. simpl. rewrite Hfg by left.
  destruct (g s x) as [s'| |]; [|done..]. simpl. apply IH. intros s0 y Hy. apply Hfg. by right.
Qed.

(** A loop that meets an element its body fails on. *)
Lemma foldM_fails {A S} (f : S → A → outcome S) l x s :
  x ∈ l → (∀ s, is_ok (f s x) = false) → is_ok (foldM f s l) = false.
Proof.
  intros Hin Hx. revert s. induction l as [|y l IH]; intros s; [set_solver|]. cbn.
  apply elem_of_cons in Hin as [->|Hin].
  - specialize (Hx s). by destruct (f s y).
  - destruct (f s y); [by apply IH|done|done].
Qed.

(** Two computations that fail in the same way. *)
Definition same_failure {A B} (x : outcome A) (y : outcome B) : Prop :=
  match x, y with
  | Err e, Err e' | Panic e, Panic e' => e = e'
  | _, _ => False
  end.

(** A loop that fails does so in one of its steps. *)
Lemma foldM_failure {A S B} (f : S → A → outcome S) l s (y : outcome B) :
  same_failure (foldM f s l) y →
  ∃ l1 x l2 s0, l = l1 ++ x :: l2 ∧ foldM f s l1 = Ok s0 ∧ same_failure (f s0 x) y.
Proof.
  revert s. induction l as [|x l IH]; intros s H; [done|]. cbn [foldM] in H.
  destruct (f s x) as [s1|e|e] eqn:E; cbn [mbind outcome_bind] in H; [|by exists [], x, l, s; rewrite E..].
  destruct (IH s1 H) as (l1 & x0 & l2 & s0 & -> & Hl1 & Hx). exists (x :: l1), x0, l2, s0.
  split_and!; [done| |done]. cbn [foldM]. by rewrite E.
Qed.

(** Induction for a loop that succeeds: an invariant of every iteration holds
    at the end. *)
Lemma foldM_invariant {A S} (P : S → Prop) (f : S → A → outcome S) l s s' :
  (∀ s x s', x ∈ l → P s → f s x = Ok s' → P s') →
  P s → foldM f s l = Ok s' → P s'.
Proof.
  revert s. induction l as [|x l IH]; intros s Hstep HP; simpl.
  - by intros [= <-].
  - rewrite bind_Ok. intros (s1 & Hf & Hrest).
    eapply IH; [|eapply Hstep; eauto; set_solver|done].
    intros; eapply Hstep; eauto; set_solver.
Qed.

(** ** Machine integers *)

Definition u64 (z : Z) : Z := z `mod` 2 ^ 64.
Definition u32 (z : Z) : Z := z `mod` 2 ^ 32.
Definition u8 (z : Z) : Z := z `mod` 2 ^ 8.
Definition i32 (z : Z) : Z := (z + 2 ^ 31) `mod` 2 ^ 32 - 2 ^ 31.
Definition i64 (z : Z) : Z := (z + 2 ^ 63) `mod` 2 ^ 64 - 2 ^ 63.

Definition in_u64 (z : Z) : Prop := 0 ≤ z < 2 ^ 64.
Definition in_u32 (z : Z) : Prop := 0 ≤ z < 2 ^ 32.
Definition in_i64 (z : Z) : Prop := - 2 ^ 63 ≤ z < 2 ^ 63.

Lemma u64_small z : in_u64 z → u64 z = z.
Proof. intros. by apply Z.mod_small. Qed.
Lemma u32_small z : in_u32 z → u32 z = z.
Proof. intros. by apply Z.mod_small. Qed.
Lemma u64_range z : in_u64 (u64 z).
Proof. by apply Z.mod_pos_bound. Qed.
Lemma u32_range z : in_u32 (u32 z).
Proof. by apply Z.mod_pos_bound. Qed.
Lemma i64_small z : in_i64 z → i64 z = z.
Proof. unfold i64, in_i64. intros. rewrite Z.mod_small; lia. Qed.
Lemma i64_range z : in_i64 (i64 z).
Proof. unfold i64, in_i64. pose proof (Z.mod_pos_bound (z + 2 ^ 63) (2 ^ 64)). lia. Qed.
Lemma u64_add_l a b : u64 (u64 a + b) = u64 (a + b).
Proof. apply Zplus_mod_idemp_l. Qed.
Lemma u64_add_r a b : u64 (a + u64 b) = u64 (a + b).
Proof. apply Zplus_mod_idemp_r. Qed.

Lemma i32_small z : - 2 ^ 31 ≤ z < 2 ^ 31 → i32 z = z.
Proof. intros Hz. unfold i32. rewrite Z.mod_small by lia. lia. Qed.
Lemma i64_add_l a b : i64 (i64 a + b) = i64 (a + b).
Proof.
  unfold i64. f_equal. replace ((a + 2 ^ 63) `mod` 2 ^ 64 - 2 ^ 63 + b + 2 ^ 63)
    with ((a + 2 ^ 63) `mod` 2 ^ 64 + b) by lia.
  rewrite Zplus_mod_idemp_l. f_equal. lia.
Qed.

(** Nested reductions of a sum. *)
Create HintDb machine.
#[export] Hint Rewrite u64_add_l u64_add_r i64_add_l : machine.
#[export] Hint Resolve u64_range u32_range i64_range : machine.

(** ** Sums *)

Definition sumZ (l : list Z) : Z := foldr Z.add 0 l.

Lemma sumZ_app l1 l2 : sumZ (l1 ++ l2) = sumZ l1 + sumZ l2.
Proof. induction l1; simpl; lia. Qed.
Lemma sumZ_perm l1 l2 : l1 ≡ₚ l2 → sumZ l1 = sumZ l2.
Proof. induction 1; simpl; lia. Qed.
#[global] Instance sumZ_proper : Proper ((≡ₚ) ==> (=)) sumZ.
Proof. intros l1 l2. apply sumZ_perm. Qed.
Lemma sumZ_nonneg l : Forall (λ z, 0 ≤ z) l → 0 ≤ sumZ l.
Proof. induction 1; simpl; lia. Qed.

(** ** Stable sorting

    [sort.SliceStable(l, less)] of the Go standard library: the unique
    permutation of [l] that is sorted by [less] and keeps the order of elements
    neither of which is less than the other. *)
Section sort_stable.
Context {A : Type} (less : A → A → bool).

Fixpoint insert_stable (x : A) (l : list A) : list A :=
  match l with
  | [] => [x]
  | y :: l' => if less y x then y :: insert_stable x l' else x :: l
  end.

Fixpoint sort_stable (l : list A) : list A :=
  match l with
  | [] => []
  | x :: l => insert_stable x (sort_stable l)
  end.

(** [x] may stand before [y] in a sorted slice. *)
Definition may_precede (x y : A) : Prop := less y x = false.

Lemma insert_stable_perm x l : insert_stable x l ≡ₚ x :: l.
Proof.
  induction l as [|y l IH]; simpl; [done|].
  destruct (less y x); [|done]. rewrite IH. apply Permutation_swap.
Qed.

Lemma sort_stable_perm l : sort_stable l ≡ₚ l.
Proof. induction l as [|x l IH]; simpl; [done|]. by rewrite insert_stable_perm, IH. Qed.

Lemma sort_stable_length l : length (sort_stable l) = length l.
Proof. by rewrite sort_stable_perm. Qed.

(** The comparison is a strict weak order, what [sort] asks of [less]. *)
Context (less_asym : ∀ x y, less x y = true → less y x = false).
Context (less_trans : ∀ x y z, may_precede x y → may_precede y z → may_precede x z).

Lemma insert_stable_sorted x l :
  StronglySorted may_precede l → StronglySorted may_precede (insert_stable x l).
Proof using less_asym less_trans.
  induction 1 as [|y l Hl IH Hy]; simpl; [by repeat constructor|].
  destruct (less y x) eqn:E.
  - constructor; [done|]. rewrite insert_stable_perm.
    constructor; [|done]. by apply less_asym.
  - constructor; [by constructor|]. constructor; [done|].
    eapply Forall_impl; [exact Hy|]. intros z. by apply less_trans.
Qed.

Lemma sort_stable_sorted l : StronglySorted may_precede (sort_stable l).
Proof using less_asym less_trans.
  induction l; simpl; [constructor|]. by apply insert_stable_sorted.
Qed.

(** Where [less] tells any two elements of the slice apart, the result does
    not depend on the order the slice was filled in (the order Go ranges over
    a map). *)
Lemma sort_stable_perm_invariant l1 l2 :
  (∀ x y, x ∈ l1 → y ∈ l1 → may_precede x y → may_precede y x → x = y) →
  l1 ≡ₚ l2 → sort_stable l1 = sort_stable l2.
Proof using less_asym less_trans.
  intros Hanti Hp. eapply StronglySorted_unique_strong.
  - intros x y Hx Hy. rewrite sort_stable_perm in Hx. rewrite sort_stable_perm, <- Hp in Hy.
    by apply Hanti.
  - apply sort_stable_sorted.
  - apply sort_stable_sorted.
  - by rewrite !sort_stable_perm.
Qed.
End sort_stable.

(** ** Lexicographic order

    The order of [bytes.Compare] and of Go's [<] on strings, on the codes of
    the bytes. *)
Fixpoint lex_less (l1 l2 : list Z) : bool :=
  match l1, l2 with
  | [], [] => false
  | [], _ :: _ => true
  | _ :: _, [] => false
  | x :: l1, y :: l2 => (x <? y) || ((x =? y) && lex_less l1 l2)
  end.

Lemma lex_less_asym l1 l2 : lex_less l1 l2 = true → lex_less l2 l1 = false.
Proof.
  revert l2. induction l1 as [|x l1 IH]; intros [|y l2]; simpl; try done.
  destruct (Z.ltb_spec x y), (Z.eqb_spec x y), (Z.ltb_spec y x), (Z.eqb_spec y x);
    simpl; try lia; try done; auto.
Qed.

Lemma lex_less_irrefl l : lex_less l l = false.
Proof. induction l as [|x l IH]; simpl; [done|]. by rewrite Z.ltb_irrefl, Z.eqb_refl. Qed.

Lemma lex_less_trans l1 l2 l3 :
  lex_less l1 l2 = true → lex_less l2 l3 = true → lex_less l1 l3 = true.
Proof.
  revert l2 l3. induction l1 as [|x l1 IH]; intros [|y l2] [|z l3]; simpl; try done.
  destruct (Z.ltb_spec x y), (Z.eqb_spec x y), (Z.ltb_spec y z), (Z.eqb_spec y z),
    (Z.ltb_spec x z), (Z.eqb_spec x z); simpl; try lia; try done; eauto.
Qed.

Lemma lex_less_total l1 l2 : lex_less l1 l2 = false → lex_less l2 l1 = false → l1 = l2.
Proof.
  revert l2. induction l1 as [|x l1 IH]; intros [|y l2]; simpl; try done.
  destruct (Z.ltb_spec x y), (Z.eqb_spec x y), (Z.ltb_spec y x), (Z.eqb_spec y x);
    simpl; try lia; try done.
  intros; subst; f_equal; auto.
Qed.

Lemma lex_less_neg_trans l1 l2 l3 :
  lex_less l2 l1 = false → lex_less l3 l2 = false → lex_less l3 l1 = false.
Proof.
  intros H1 H2. destruct (lex_less l3 l1) eqn:E; [|done].
  destruct (lex_less l1 l2) eqn:E2.
  - by rewrite (lex_less_trans _ _ _ E E2) in H2.
  - rewrite (lex_less_total l1 l2 E2 H1) in E. by rewrite E in H2.
Qed.

Lemma StronglySorted_filter {A} (R : A → A → Prop) (P : A → Prop) `{∀ x, Decision (P x)} l :
  StronglySorted R l → StronglySorted R (filter P l).
Proof.
  induction 1 as [|x l Hs IH Hx]; [constructor|]. rewrite filter_cons. case_decide; [|done].
  constructor; [done|]. rewrite Forall_forall in *. intros y [_ Hy]%list_elem_of_filter. auto.
Qed.

Lemma StronglySorted_seqZ i n : StronglySorted Z.lt (seqZ i n).
Proof.
  destruct (Z.le_gt_cases n 0) as [Hn|Hn]; [rewrite seqZ_nil by lia; constructor|].
  rewrite <- (Z2Nat.id n) by lia. clear Hn. generalize (Z.to_nat n) as k. intros k. revert i.
  induction k as [|k IH]; intros i; [constructor|]. rewrite seqZ_cons by lia.
  replace (Z.pred (Z.of_nat (S k))) with (Z.of_nat k) by lia. constructor; [apply IH|].
  apply Forall_forall. intros j Hj%elem_of_seqZ. lia.
Qed.

(** In a list where no element with property [P] follows one without it, the
    elements with [P] are a prefix. *)
Lemma sorted_prefix {A} (P : A → Prop) `{∀ x, Decision (P x)} (l : list A) :
  StronglySorted (λ x y, P y → P x) l →
  filter P l = take (length (filter P l)) l ∧
  Forall (λ x, ¬ P x) (drop (length (filter P l)) l).
Proof.
  induction 1 as [|x l Hs IH Hx]; [done|]. destruct (decide (P x)) as [HP|HP].
  - rewrite filter_cons_True by done. simpl. destruct IH as [IH1 IH2].
    split; [by rewrite <- IH1|done].
  - assert (Forall (λ y, ¬ P y) l) as Hn by (eapply Forall_impl; [exact Hx|simpl; auto]).
    assert (filter P l = []) as E.
    { clear -Hn. induction Hn; [done|]. by rewrite filter_cons_False. }
    rewrite filter_cons_False by done. rewrite E. simpl. split; [done|]. by constructor.
Qed.
