(* ===== verification/Bytes.v ===== *)
(** * Byte strings

    Bytes, the big-endian 64-bit encoding the KV stores use for heights
    ([sdk.Uint64ToBigEndian], [encoding/binary]), and the hexadecimal encoding
    of [encoding/hex] that names public keys. *)

From S2P Require Import Prelude.
From Stdlib Require Export Strings.Byte.
From Stdlib Require Import Strings.Ascii.

Abbreviation bytes := (list byte).

#[global] Instance byte_eq_dec : EqDecision byte := Byte.byte_eq_dec.
#[global] Instance byte_countable : Countable byte.
Proof.
  refine (inj_countable Byte.to_N Byte.of_N _).
  intros b. apply Byte.of_to_N.
Defined.

(** ** Codes and order *)

Definition byte_code (b : byte) : Z := Z.of_N (Byte.to_N b).

(** The byte [byte(z)] of an integer: its low eight bits. *)
Definition byte_of_Z (z : Z) : byte :=
  match Byte.of_N (Z.to_N (u8 z)) with Some b => b | None => x00 end.

Lemma byte_code_range b : 0 ≤ byte_code b < 256.
Proof. unfold byte_code. pose proof (Byte.to_N_bounded b). lia. Qed.

Lemma byte_of_code b : byte_of_Z (byte_code b) = b.
Proof.
  unfold byte_of_Z, u8. rewrite Z.mod_small by (pose proof (byte_code_range b); lia).
  unfold byte_code. rewrite N2Z.id. by rewrite Byte.of_to_N.
Qed.

Lemma byte_code_of_Z z : byte_code (byte_of_Z z) = u8 z.
Proof.
  unfold byte_of_Z, byte_code, u8.
  pose proof (Z.mod_pos_bound z (2 ^ 8)) as Hb.
  destruct (Byte.of_N (Z.to_N (z `mod` 2 ^ 8))) as [b|] eqn:E.
  - apply Byte.to_of_N in E. rewrite E. rewrite Z2N.id; lia.
  - apply Byte.of_N_None_iff in E. lia.
Qed.

Lemma byte_code_inj a b : byte_code a = byte_code b → a = b.
Proof. intros H. by rewrite <- (byte_of_code a), H, byte_of_code. Qed.

Lemma map_byte_code_inj (l1 l2 : bytes) : byte_code <$> l1 = byte_code <$> l2 → l1 = l2.
Proof. apply (list_fmap_eq_inj byte_code). intros a b. apply byte_code_inj. Qed.

(** [bytes.Compare(a, b) < 0], also the key order of the KV stores. *)
Definition bytes_less (a b : bytes) : bool := lex_less (byte_code <$> a) (byte_code <$> b).

Lemma bytes_less_asym a b : bytes_less a b = true → bytes_less b a = false.
Proof. apply lex_less_asym. Qed.
Lemma bytes_less_neg_trans a b c :
  bytes_less b a = false → bytes_less c b = false → bytes_less c a = false.
Proof. apply lex_less_neg_trans. Qed.
Lemma bytes_less_total a b : bytes_less a b = false → bytes_less b a = false → a = b.
Proof. intros H1 H2. by apply map_byte_code_inj, lex_less_total. Qed.

(** Go's [<] on strings. *)
Definition string_codes (s : string) : list Z :=
  (λ c, Z.of_N (N_of_ascii c)) <$> String.list_ascii_of_string s.
Definition string_less (a b : string) : bool := lex_less (string_codes a) (string_codes b).

Lemma string_codes_inj a b : string_codes a = string_codes b → a = b.
Proof.
  intros H. rewrite <- (String.string_of_list_ascii_of_string a),
    <- (String.string_of_list_ascii_of_string b). f_equal.
  eapply (list_fmap_eq_inj _); [|exact H].
  intros x y Hxy. apply N2Z.inj in Hxy.
  by rewrite <- (ascii_N_embedding x), Hxy, ascii_N_embedding.
Qed.

Lemma string_less_asym a b : string_less a b = true → string_less b a = false.
Proof. apply lex_less_asym. Qed.
Lemma string_less_irrefl a : string_less a a = false.
Proof. apply lex_less_irrefl. Qed.
Lemma string_less_trans a b c :
  string_less a b = true → string_less b c = true → string_less a c = true.
Proof. apply lex_less_trans. Qed.
Lemma string_less_neg_trans a b c :
  string_less b a = false → string_less c b = false → string_less c a = false.
Proof. apply lex_less_neg_trans. Qed.
Lemma string_less_total a b : string_less a b = false → string_less b a = false → a = b.
Proof. intros H1 H2. by apply string_codes_inj, lex_less_total. Qed.

(** ** Big-endian integers *)

(** [PutUint64] of [binary.BigEndian] on [n] bytes, [n = 8] for a uint64. *)
Fixpoint be_bytes (n : nat) (z : Z) : bytes :=
  match n with
  | O => []
  | S n => byte_of_Z (Z.shiftr z (8 * Z.of_nat n)) :: be_bytes n z
  end.

Definition be_value (b : bytes) : Z := foldl (λ acc x, acc * 256 + byte_code x) 0 b.

Definition Uint64ToBigEndian (z : Z) : bytes := be_bytes 8 z.

(** [sdk.BigEndianToUint64] reads the first eight bytes (and gives 0 on an
    empty slice). *)
Definition BigEndianToUint64 (b : bytes) : Z := be_value (take 8 b).

Lemma be_bytes_length n z : length (be_bytes n z) = n.
Proof. induction n; simpl; auto. Qed.

Lemma be_value_acc b acc :
  foldl (λ acc x, acc * 256 + byte_code x) acc b = acc * 256 ^ Z.of_nat (length b) + be_value b.
Proof.
  unfold be_value. revert acc. induction b as [|x b IH]; intros acc; [simpl; lia|].
  cbn [foldl length]. rewrite IH, (IH (0 * 256 + byte_code x)), Nat2Z.inj_succ, Z.pow_succ_r by lia.
  lia.
Qed.

Lemma be_value_cons x b :
  be_value (x :: b) = byte_code x * 256 ^ Z.of_nat (length b) + be_value b.
Proof. unfold be_value at 1. cbn [foldl]. rewrite be_value_acc. lia. Qed.

Lemma be_value_be_bytes n z : be_value (be_bytes n z) = z `mod` 256 ^ Z.of_nat n.
Proof.
  induction n as [|n IH]; [by rewrite Z.mod_1_r|].
  change (be_bytes (S n) z) with (byte_of_Z (Z.shiftr z (8 * Z.of_nat n)) :: be_bytes n z).
  rewrite be_value_cons, be_bytes_length, IH, byte_code_of_Z.
  unfold u8. rewrite Z.shiftr_div_pow2 by lia.
  replace (2 ^ (8 * Z.of_nat n)) with (256 ^ Z.of_nat n)
    by (rewrite Z.pow_mul_r by lia; done).
  rewrite Nat2Z.inj_succ, Z.pow_succ_r by lia.
  rewrite (Z.mul_comm 256), Z.rem_mul_r by lia. change (2 ^ 8) with 256. lia.
Qed.

Lemma be_value_range b : 0 ≤ be_value b < 256 ^ Z.of_nat (length b).
Proof.
  induction b as [|x b IH]; [done|]. rewrite be_value_cons. cbn [length]. rewrite Nat2Z.inj_succ, Z.pow_succ_r by lia.
  pose proof (byte_code_range x). nia.
Qed.

Lemma be_bytes_add n z k : be_bytes n (z + k * 256 ^ Z.of_nat n) = be_bytes n z.
Proof.
  revert z k. induction n as [|n IH]; intros z k; [done|].
  cbn [be_bytes]. f_equal.
  - unfold byte_of_Z. do 2 f_equal. unfold u8. rewrite !Z.shiftr_div_pow2 by lia.
    replace (2 ^ (8 * Z.of_nat n)) with (256 ^ Z.of_nat n) by (rewrite Z.pow_mul_r by lia; done).
    rewrite Nat2Z.inj_succ, Z.pow_succ_r by lia.
    replace (k * (256 * 256 ^ Z.of_nat n)) with (k * 256 * 256 ^ Z.of_nat n) by lia.
    rewrite Z.div_add by lia. rewrite Z.add_mod, Z.mul_mod by lia. change (2 ^ 8) with 256.
    rewrite Z.mod_same, Z.mul_0_r, Z.mod_0_l, Z.add_0_r, Z.mod_mod by lia. done.
  - rewrite Nat2Z.inj_succ, Z.pow_succ_r by lia.
    replace (k * (256 * 256 ^ Z.of_nat n)) with (k * 256 * 256 ^ Z.of_nat n) by lia. apply IH.
Qed.

Lemma be_bytes_be_value b : be_bytes (length b) (be_value b) = b.
Proof.
  induction b as [|x b IH]; [done|]. rewrite be_value_cons. cbn [length be_bytes]. f_equal.
  - unfold byte_of_Z. rewrite Z.shiftr_div_pow2 by lia.
    replace (2 ^ (8 * Z.of_nat (length b))) with (256 ^ Z.of_nat (length b)) by (rewrite Z.pow_mul_r by lia; done).
    pose proof (be_value_range b). rewrite Z.add_comm, Z.div_add, Z.div_small, Z.add_0_l by lia. apply byte_of_code.
  - rewrite Z.add_comm, be_bytes_add. exact IH.
Qed.

Lemma BigEndianToUint64_Uint64ToBigEndian z :
  in_u64 z → BigEndianToUint64 (Uint64ToBigEndian z) = z.
Proof.
  intros Hz. unfold BigEndianToUint64, Uint64ToBigEndian.
  rewrite take_ge by (rewrite be_bytes_length; lia).
  rewrite be_value_be_bytes. apply Z.mod_small. exact Hz.
Qed.

Lemma Uint64ToBigEndian_inj a b :
  in_u64 a → in_u64 b → Uint64ToBigEndian a = Uint64ToBigEndian b → a = b.
Proof.
  intros Ha Hb H. rewrite <- (BigEndianToUint64_Uint64ToBigEndian a Ha), H.
  by apply BigEndianToUint64_Uint64ToBigEndian.
Qed.

(** ** Hexadecimal *)

Definition hex_digit (n : N) : ascii :=
  ascii_of_N (if (n <? 10)%N then 48 + n else 87 + n)%N.

Definition unhex_digit (c : ascii) : option N :=
  let n := N_of_ascii c in
  if (48 <=? n)%N && (n <=? 57)%N then Some (n - 48)%N
  else if (97 <=? n)%N && (n <=? 102)%N then Some (n - 87)%N
  else if (65 <=? n)%N && (n <=? 70)%N then Some (n - 55)%N
  else None.

(** [hex.EncodeToString]: two lower-case digits per byte. *)
Fixpoint hex_encode (b : bytes) : string :=
  match b with
  | [] => EmptyString
  | x :: b =>
      String (hex_digit (Byte.to_N x / 16))
        (String (hex_digit (Byte.to_N x mod 16)) (hex_encode b))
  end.

(** [hex.DecodeString]: digits of either case, an even number of them. *)
Fixpoint hex_decode (s : string) : option bytes :=
  match s with
  | EmptyString => Some []
  | String _ EmptyString => None
  | String h (String l s) =>
      a ← unhex_digit h; b ← unhex_digit l;
      x ← Byte.of_N (16 * a + b); r ← hex_decode s; Some (x :: r)
  end.

Lemma hex_byte_roundtrip (x : byte) :
  unhex_digit (hex_digit (Byte.to_N x / 16)) = Some (Byte.to_N x / 16)%N ∧
  unhex_digit (hex_digit (Byte.to_N x mod 16)) = Some (Byte.to_N x mod 16)%N ∧
  Byte.of_N (16 * (Byte.to_N x / 16) + Byte.to_N x mod 16) = Some x.
Proof. by destruct x; vm_compute. Qed.

Lemma hex_decode_encode b : hex_decode (hex_encode b) = Some b.
Proof.
  induction b as [|x b IH]; [done|]. simpl.
  destruct (hex_byte_roundtrip x) as (H1 & H2 & H3). by rewrite H1, H2; simpl; rewrite H3, IH.
Qed.

#[global] Instance hex_encode_inj : Inj (=) (=) hex_encode.
Proof. intros a b H. apply (inj Some). by rewrite <- (hex_decode_encode a), H, hex_decode_encode. Qed.

Lemma be_value_nonneg b : 0 ≤ be_value b.
Proof.
  induction b as [|x b IH]; [done|]. rewrite be_value_cons.
  pose proof (byte_code_range x). assert (0 ≤ 256 ^ Z.of_nat (length b)) by lia. nia.
Qed.
