(* ===== verification/Store.v ===== *)
(** * KV stores

    A KV store of the chain is a finite map; its iterator yields the entries in
    ascending key order. Keys are heights and indices (their big-endian
    encodings compare like the numbers) or byte strings. *)

From S2P Require Import Prelude Bytes.

Section iterators.
Context {K V : Type} `{Countable K} (key_less : K → K → bool).
Context (key_asym : ∀ x y, key_less x y = true → key_less y x = false).
Context (key_neg_trans : ∀ x y z,
  key_less y x = false → key_less z y = false → key_less z x = false).
Context (key_total : ∀ x y, key_less x y = false → key_less y x = false → x = y).

(** The entries an [Iterator(nil, nil)] visits, in order. *)
Definition iterator (m : gmap K V) : list (K * V) :=
  sort_stable (λ a b : K * V, key_less a.1 b.1) (map_to_list m).

Lemma iterator_perm m : iterator m ≡ₚ map_to_list m.
Proof using. apply sort_stable_perm. Qed.

Lemma elem_of_iterator m k v : (k, v) ∈ iterator m ↔ m !! k = Some v.
Proof using. by rewrite iterator_perm, elem_of_map_to_list. Qed.

Lemma iterator_nil m : iterator m = [] ↔ m = ∅.
Proof using.
  split; intros E.
  - apply map_to_list_empty_iff, Permutation_nil_r. by rewrite <- iterator_perm, E.
  - subst. unfold iterator. by rewrite map_to_list_empty.
Qed.

Lemma iterator_NoDup m : NoDup (iterator m).*1.
Proof using. rewrite iterator_perm. apply NoDup_fst_map_to_list. Qed.

Lemma iterator_sorted m :
  StronglySorted (λ a b : K * V, key_less b.1 a.1 = false) (iterator m).
Proof using key_asym key_neg_trans.
  apply sort_stable_sorted; unfold may_precede; eauto.
Qed.

Lemma iterator_unique (m : gmap K V) l :
  l ≡ₚ map_to_list m → StronglySorted (λ a b : K * V, key_less b.1 a.1 = false) l →
  iterator m = l.
Proof using key_asym key_neg_trans key_total.
  intros Hp Hs. eapply StronglySorted_unique_strong;
    [|apply iterator_sorted|exact Hs|by rewrite iterator_perm].
  intros [k1 v1] [k2 v2] H1 H2 E1 E2. simpl in *.
  assert (k1 = k2) as -> by eauto.
  rewrite elem_of_iterator in H1. rewrite Hp, elem_of_map_to_list in H2. congruence.
Qed.

(** Inserting above every key appends to the iteration. *)
Lemma iterator_insert_last (m : gmap K V) k v :
  (∀ k', is_Some (m !! k') → key_less k k' = false ∧ k ≠ k') →
  iterator (<[k:=v]> m) = iterator m ++ [(k, v)].
Proof using key_asym key_neg_trans key_total.
  intros Hk. assert (m !! k = None) as Hn.
  { destruct (m !! k) eqn:E; [|done]. destruct (Hk k) as [_ []]; eauto. }
  apply iterator_unique.
  - rewrite map_to_list_insert, iterator_perm by done. by rewrite Permutation_app_comm.
  - apply StronglySorted_app_2; [|apply iterator_sorted|repeat constructor].
    intros [k1 v1] [k2 v2]. rewrite elem_of_iterator, list_elem_of_singleton.
    intros H1 [= -> ->]. simpl. apply Hk. eauto.
Qed.

Lemma iterator_head_least m k v :
  head (iterator m) = Some (k, v) →
  m !! k = Some v ∧ ∀ k', is_Some (m !! k') → key_less k' k = false.
Proof using key_asym key_neg_trans.
  intros E. pose proof (iterator_sorted m) as Hs.
  destruct (iterator m) as [|[k0 v0] l] eqn:El; [done|]. injection E as -> ->.
  assert (m !! k = Some v) as Hkv by (rewrite <- elem_of_iterator, El; left).
  split; [done|]. intros k' [v' H'].
  rewrite <- elem_of_iterator, El in H'. apply elem_of_cons in H' as [[= -> ->]|H'].
  - destruct (key_less k k) eqn:E2; [|done]. by rewrite key_asym in E2.
  - apply StronglySorted_cons in Hs as [Hs _]. rewrite Forall_forall in Hs.
    by apply (Hs _ H').
Qed.

Lemma iterator_last_greatest m k v :
  last (iterator m) = Some (k, v) →
  m !! k = Some v ∧ ∀ k', is_Some (m !! k') → key_less k k' = false.
Proof using key_asym key_neg_trans.
  intros (l & E)%last_Some. pose proof (iterator_sorted m) as Hs. rewrite E in Hs.
  assert (m !! k = Some v) as Hkv.
  { rewrite <- elem_of_iterator, E. apply elem_of_app. right. by left. }
  split; [done|]. intros k' [v' H'].
  rewrite <- elem_of_iterator, E in H'. apply elem_of_app in H' as [H'|H'].
  - apply (StronglySorted_app_1_elem_of _ _ _ (k', v') (k, v) Hs H'). by left.
  - apply list_elem_of_singleton in H' as [= -> ->].
    destruct (key_less k k) eqn:E2; [|done]. by rewrite key_asym in E2.
Qed.
End iterators.

(** Stores keyed by heights, versions and indices. *)
Definition iterZ {V} (m : gmap Z V) : list (Z * V) := iterator Z.ltb m.

(** Stores keyed by byte strings. *)
Definition iterB {V} (m : gmap bytes V) : list (bytes * V) := iterator bytes_less m.

Lemma ltb_asym x y : (x <? y) = true → (y <? x) = false.
Proof. lia. Qed.
Lemma ltb_neg_trans x y z : (y <? x) = false → (z <? y) = false → (z <? x) = false.
Proof. lia. Qed.
Lemma ltb_total x y : (x <? y) = false → (y <? x) = false → x = y.
Proof. lia. Qed.

Lemma elem_of_iterZ {V} (m : gmap Z V) k v : (k, v) ∈ iterZ m ↔ m !! k = Some v.
Proof. apply elem_of_iterator. Qed.
Lemma elem_of_iterB {V} (m : gmap bytes V) k v : (k, v) ∈ iterB m ↔ m !! k = Some v.
Proof. apply elem_of_iterator. Qed.
Lemma iterZ_nil {V} (m : gmap Z V) : iterZ m = [] ↔ m = ∅.
Proof. apply iterator_nil. Qed.
Lemma iterB_nil {V} (m : gmap bytes V) : iterB m = [] ↔ m = ∅.
Proof. apply iterator_nil. Qed.

Lemma iterZ_sorted {V} (m : gmap Z V) : StronglySorted Z.lt (iterZ m).*1.
Proof.
  pose proof (iterator_NoDup Z.ltb m) as Hnd. fold (iterZ m) in Hnd.
  assert (Hs : StronglySorted (λ a b : Z * V, (b.1 <? a.1) = false) (iterZ m))
    by (apply iterator_sorted; [exact ltb_asym|exact ltb_neg_trans]).
  induction (iterZ m) as [|[k v] l IH]; [constructor|]. apply StronglySorted_inv in Hs as [Hs Hk].
  cbn in *. apply NoDup_cons in Hnd as [Hn Hnd]. constructor; [by apply IH|].
  apply Forall_forall. intros x ([k' v'] & -> & Hin)%list_elem_of_fmap. cbn.
  rewrite Forall_forall in Hk. specialize (Hk _ Hin). cbn in Hk.
  assert (k' ≠ k) by (intros ->; apply Hn, list_elem_of_fmap; by exists (k, v')). lia.
Qed.

Lemma iterZ_insert_last {V} (m : gmap Z V) k v :
  (∀ k', is_Some (m !! k') → k' < k) → iterZ (<[k:=v]> m) = iterZ m ++ [(k, v)].
Proof.
  intros Hk. apply iterator_insert_last; try exact ltb_asym; try exact ltb_neg_trans;
    try exact ltb_total.
  intros k' H. apply Hk in H. lia.
Qed.

Lemma iterZ_head {V} (m : gmap Z V) k v :
  head (iterZ m) = Some (k, v) → m !! k = Some v ∧ ∀ k', is_Some (m !! k') → k ≤ k'.
Proof.
  intros E. apply iterator_head_least in E as [E1 E2]; try exact ltb_asym; try exact ltb_neg_trans.
  split; [done|]. intros k' H. apply E2 in H. lia.
Qed.

Lemma iterZ_last {V} (m : gmap Z V) k v :
  last (iterZ m) = Some (k, v) → m !! k = Some v ∧ ∀ k', is_Some (m !! k') → k' ≤ k.
Proof.
  intros E. apply iterator_last_greatest in E as [E1 E2]; try exact ltb_asym; try exact ltb_neg_trans.
  split; [done|]. intros k' H. apply E2 in H. lia.
Qed.

Lemma iterZ_last_None {V} (m : gmap Z V) : last (iterZ m) = None ↔ m = ∅.
Proof. rewrite last_None. apply iterZ_nil. Qed.

(** ** Two-level stores

    A store prefixed by a first key component: the inner store of an unused
    prefix is empty. *)
Definition substore {K W} `{Countable K} `{Empty W} (m : gmap K W) (k : K) : W :=
  default ∅ (m !! k).

Definition set2 {K1 K2 V} `{Countable K1} `{Countable K2}
    (k1 : K1) (k2 : K2) (v : V) (m : gmap K1 (gmap K2 V)) : gmap K1 (gmap K2 V) :=
  <[k1 := <[k2 := v]> (default ∅ (m !! k1))]> m.

Definition get2 {K1 K2 V} `{Countable K1} `{Countable K2}
    (k1 : K1) (k2 : K2) (m : gmap K1 (gmap K2 V)) : option V :=
  default ∅ (m !! k1) !! k2.

Section two_level.
Context {K1 K2 V : Type} `{Countable K1} `{Countable K2}.
Implicit Type m : gmap K1 (gmap K2 V).

Lemma get2_set2_eq k1 k2 v m : get2 k1 k2 (set2 k1 k2 v m) = Some v.
Proof. unfold get2, set2. by rewrite lookup_insert_eq; simpl; rewrite lookup_insert_eq. Qed.

Lemma get2_set2_ne k1 k2 k1' k2' v m :
  (k1, k2) ≠ (k1', k2') → get2 k1' k2' (set2 k1 k2 v m) = get2 k1' k2' m.
Proof.
  intros Hne. unfold get2, set2. destruct (decide (k1 = k1')) as [->|Hk].
  - rewrite lookup_insert_eq; simpl. rewrite lookup_insert_ne; [done|congruence].
  - by rewrite lookup_insert_ne.
Qed.

Lemma get2_set2 k1 k2 k1' k2' v m :
  get2 k1' k2' (set2 k1 k2 v m) =
  if decide ((k1, k2) = (k1', k2')) then Some v else get2 k1' k2' m.
Proof.
  case_decide as E; [injection E as -> ->; apply get2_set2_eq|by apply get2_set2_ne].
Qed.
End two_level.

(** ** Sums over the entries of a store *)

Definition sum_map {K V} `{Countable K} (f : K → V → Z) (m : gmap K V) : Z :=
  map_fold (λ k v acc, f k v + acc) 0 m.

Definition sum2 {K1 K2 V} `{Countable K1} `{Countable K2} (f : K1 → K2 → V → Z)
    (m : gmap K1 (gmap K2 V)) : Z := sum_map (λ k1, sum_map (f k1)) m.

Section sums.
Context {K V : Type} `{Countable K}.
Implicit Types (f g : K → V → Z) (m : gmap K V).

Lemma sum_map_empty f : sum_map f ∅ = 0.
Proof. apply map_fold_empty. Qed.

Lemma sum_map_insert_new f m k v : m !! k = None → sum_map f (<[k:=v]> m) = f k v + sum_map f m.
Proof. intros Hk. unfold sum_map. rewrite map_fold_insert_L; [done|intros; lia|done]. Qed.

Lemma sum_map_delete f m k v : m !! k = Some v → sum_map f m = f k v + sum_map f (delete k m).
Proof.
  intros Hk. rewrite <- (sum_map_insert_new f (delete k m) k v) by apply lookup_delete_eq.
  by rewrite insert_delete_id.
Qed.

(** What the entry of a key contributes. *)
Definition part f m k : Z := default 0 (f k <$> m !! k).

Lemma sum_map_delete_part f m k : sum_map f (delete k m) = sum_map f m - part f m k.
Proof.
  unfold part. destruct (m !! k) as [v|] eqn:Hk; simpl.
  - rewrite (sum_map_delete f m k v Hk). lia.
  - rewrite delete_id by done. lia.
Qed.

Lemma sum_map_insert f m k v : sum_map f (<[k:=v]> m) = sum_map f m - part f m k + f k v.
Proof.
  rewrite <- insert_delete_eq, sum_map_insert_new by apply lookup_delete_eq.
  rewrite sum_map_delete_part. lia.
Qed.

Lemma sum_map_ext f g m : (∀ k v, m !! k = Some v → f k v = g k v) → sum_map f m = sum_map g m.
Proof.
  induction m as [|k v m Hk IH] using map_ind; intros Hfg; [by rewrite !sum_map_empty|].
  rewrite !sum_map_insert_new by done. rewrite (Hfg k v) by apply lookup_insert_eq. rewrite IH; [done|].
  intros k' v' Hk'. apply Hfg. rewrite lookup_insert_ne; [done|congruence].
Qed.

Lemma sum_map_add f g m : sum_map (λ k v, f k v + g k v) m = sum_map f m + sum_map g m.
Proof.
  induction m as [|k v m Hk IH] using map_ind; [by rewrite !sum_map_empty|].
  rewrite !sum_map_insert_new by done. lia.
Qed.

Lemma sum_map_scale f m c : sum_map (λ k v, f k v * c) m = sum_map f m * c.
Proof.
  induction m as [|k v m Hk IH] using map_ind; [by rewrite !sum_map_empty|].
  rewrite !sum_map_insert_new by done. lia.
Qed.

Lemma sum_map_nonneg f m : (∀ k v, m !! k = Some v → 0 ≤ f k v) → 0 ≤ sum_map f m.
Proof.
  induction m as [|k v m Hk IH] using map_ind; intros Hf; [by rewrite sum_map_empty|].
  rewrite sum_map_insert_new by done. pose proof (Hf k v (lookup_insert_eq m k v)).
  assert (0 ≤ sum_map f m); [|lia]. apply IH. intros k' v' Hk'. apply Hf.
  rewrite lookup_insert_ne; [done|congruence].
Qed.

Lemma sum_map_part_le f m k : (∀ k v, m !! k = Some v → 0 ≤ f k v) → 0 ≤ part f m k ≤ sum_map f m.
Proof.
  intros Hf. unfold part. destruct (m !! k) as [v|] eqn:Hk; simpl; [|split; [done|by apply sum_map_nonneg]].
  rewrite (sum_map_delete f m k v Hk). pose proof (Hf _ _ Hk).
  assert (0 ≤ sum_map f (delete k m)); [|lia]. apply sum_map_nonneg.
  intros k' v' [_ ?]%lookup_delete_Some. by apply Hf.
Qed.

(** The sum along any enumeration of the keys. *)
Lemma sum_map_keys (keys : list K) f m : keys ≡ₚ (map_to_list m).*1 →
  sum_map f m = sumZ (part f m <$> keys).
Proof.
  intros ->. unfold sum_map. rewrite map_fold_foldr.
  assert (∀ k v, (k, v) ∈ map_to_list m → part f m k = f k v) as Hp.
  { intros k v Hk%elem_of_map_to_list. unfold part. by rewrite Hk. }
  induction (map_to_list m) as [|[k v] l IH]; [done|]. simpl.
  rewrite IH by (intros; apply Hp; by right). rewrite (Hp k v) by left. done.
Qed.

End sums.

Lemma sum2_set2 {K1 K2 V} `{Countable K1} `{Countable K2} (f : K1 → K2 → V → Z)
    (m : gmap K1 (gmap K2 V)) k1 k2 v :
  sum2 f (set2 k1 k2 v m) = sum2 f m - default 0 (f k1 k2 <$> get2 k1 k2 m) + f k1 k2 v.
Proof.
  unfold sum2, set2. rewrite sum_map_insert, sum_map_insert. unfold part, get2.
  destruct (m !! k1) as [m1|]; simpl; [lia|]. rewrite sum_map_empty, lookup_empty. simpl. lia.
Qed.
