(* ===== verification/BbnTypes.v ===== *)
(** * Shared Babylon types ([types/])

    BIP-340 public keys, EOTS signatures and public randomness are byte slices
    whose constructors check the length; the block header context; the generic
    genesis entry validator of [types/validate.go]. *)

From S2P Require Import Prelude Bytes Store.

(** ** Byte-slice types *)

Definition BIP340PubKeyLen : nat := 32.
Definition SchnorrEOTSSigLen : nat := 32.
Definition SchnorrPubRandLen : nat := 32.

Definition NewBIP340PubKey (data : bytes) : outcome bytes :=
  if bool_decide (length data = BIP340PubKeyLen) then Ok data
  else Err (Errorf "malformed data for BIP340 public key").

Definition NewBIP340PubKeyFromHex (hexStr : string) : outcome bytes :=
  match hex_decode hexStr with
  | None => Err (Errorf "hex.DecodeString")
  | Some decoded => NewBIP340PubKey decoded
  end.

Definition MarshalHex (pk : bytes) : string := hex_encode pk.

Definition NewSchnorrEOTSSig (data : bytes) : outcome bytes :=
  if bool_decide (length data = SchnorrEOTSSigLen) then Ok data
  else Err (Errorf "invalid data length").

Definition NewSchnorrPubRand (data : bytes) : outcome bytes :=
  if bool_decide (length data = SchnorrPubRandLen) then Ok data
  else Err (Errorf "invalid data length").

(** [bytes.Compare(a, b) == 1] orders the keys in reverse. *)
Definition SortBIP340PKs (keys : list bytes) : list bytes :=
  sort_stable (λ ki kj, bytes_less kj ki) keys.

(** ** Entry validation

    [validate] is the entry's [Validate] or [ValidateBasic] method. *)
Fixpoint ValidateEntries_from {T K} `{Countable K}
    (keyFunc : T → K) (validate : T → outcome unit) (keyMap : gset K)
    (entries : list T) : outcome unit :=
  match entries with
  | [] => Ok tt
  | entry :: entries =>
    if bool_decide (keyFunc entry ∈ keyMap) then Err (Errorf "duplicate entry for key")
    else _ ← validate entry;
         ValidateEntries_from keyFunc validate ({[keyFunc entry]} ∪ keyMap) entries
  end.

Definition ValidateEntries {T K} `{Countable K}
    (keyFunc : T → K) (validate : T → outcome unit) (entries : list T) : outcome unit :=
  ValidateEntries_from keyFunc validate ∅ entries.

(** ** The block context

    The header fields the keepers read through [sdk.UnwrapSDKContext(ctx)]. *)
Record Ctx := mkCtx {
  HeaderHeight : Z;    (* HeaderInfo().Height, an int64 *)
  HeaderAppHash : bytes;
  HeaderTime : Z       (* block time, nanoseconds since the Unix epoch *)
}.

(** [uint64(HeaderInfo().Height)] *)
Definition CtxHeight (ctx : Ctx) : Z := u64 (HeaderHeight ctx).

(** ** Lemmas *)

Lemma MarshalHex_inj pk1 pk2 : MarshalHex pk1 = MarshalHex pk2 → pk1 = pk2.
Proof. apply hex_encode_inj. Qed.

#[global] Instance MarshalHex_Inj : Inj (=) (=) MarshalHex.
Proof. intros ??. apply MarshalHex_inj. Qed.

Lemma NewBIP340PubKey_Ok data pk :
  NewBIP340PubKey data = Ok pk ↔ pk = data ∧ length data = 32%nat.
Proof.
  unfold NewBIP340PubKey, BIP340PubKeyLen. case_bool_decide; split;
    [by intros [= <-]|by intros [-> _]|done|by intros [_ ?]].
Qed.

Lemma NewBIP340PubKeyFromHex_MarshalHex pk :
  length pk = 32%nat → NewBIP340PubKeyFromHex (MarshalHex pk) = Ok pk.
Proof.
  intros Hl. unfold NewBIP340PubKeyFromHex, MarshalHex. rewrite hex_decode_encode.
  by apply NewBIP340PubKey_Ok.
Qed.

Lemma SortBIP340PKs_perm keys : SortBIP340PKs keys ≡ₚ keys.
Proof. apply sort_stable_perm. Qed.

(** The sorted list of covenant keys does not depend on the order given. *)
Lemma SortBIP340PKs_canonical keys1 keys2 :
  keys1 ≡ₚ keys2 → SortBIP340PKs keys1 = SortBIP340PKs keys2.
Proof.
  intros Hp. apply sort_stable_perm_invariant; [| | |done]; unfold may_precede.
  - intros x y. apply bytes_less_asym.
  - intros x y z ? ?. eapply bytes_less_neg_trans; eauto.
  - intros x y _ _ ? ?. by apply bytes_less_total.
Qed.

Lemma ValidateEntries_from_Ok {T K} `{Countable K} (keyFunc : T → K) validate seen entries :
  ValidateEntries_from keyFunc validate seen entries = Ok tt ↔
  NoDup (keyFunc <$> entries) ∧ Forall (λ e, validate e = Ok tt) entries ∧
  Forall (λ e, keyFunc e ∉ seen) entries.
Proof.
  revert seen. induction entries as [|e es IH]; intros seen; simpl.
  { split; [|done]. intros _. split; [constructor|split; constructor]. }
  rewrite NoDup_cons, !Forall_cons. case_bool_decide as Hin.
  { split; [done|]. by intros (_ & _ & [? _]). }
  rewrite bind_Ok. setoid_rewrite IH. rewrite list_elem_of_fmap. split.
  - intros ([] & Hv & Hnd & Hf & Hs). rewrite Forall_forall in Hs.
    split_and!; auto.
    + intros (x & Hx & Hxin). apply Hs in Hxin. set_solver.
    + apply Forall_forall. intros x Hx. apply Hs in Hx. set_solver.
  - intros ([Hni Hnd] & [Hv Hf] & [_ Hs]). exists tt. split_and!; auto.
    rewrite Forall_forall in Hs |- *. intros x Hx. apply Hs in Hx as Hx'.
    rewrite elem_of_union, elem_of_singleton. intros [E|E]; [|done].
    apply Hni. eauto.
Qed.

(** Entry validation accepts exactly the lists of valid entries with distinct
    keys. *)
Lemma ValidateEntries_Ok {T K} `{Countable K} (keyFunc : T → K) validate entries :
  ValidateEntries keyFunc validate entries = Ok tt ↔
  NoDup (keyFunc <$> entries) ∧ Forall (λ e, validate e = Ok tt) entries.
Proof.
  unfold ValidateEntries. rewrite ValidateEntries_from_Ok.
  split; [naive_solver|]. intros [? ?]. split_and!; auto.
  apply Forall_true. set_solver.
Qed.
