(* ===== verification/BtcStaking.v ===== *)
(** * x/btcstaking: data, finality providers, voting power events

    The store of the BTC staking module, the finality provider registry with
    its slash / jail / unjail state machine, the queue of voting power
    distribution events indexed by BTC height, the index of BTC heights by
    Babylon height, and the record of the largest BTC reorganisation. *)

From S2P Require Import Prelude Bytes Store BbnTypes.

(** ** Data *)

(** [LegacyDec] values are scaled by [10^18]. *)
Definition DecOne : Z := 10 ^ 18.

Record CommissionInfo := mkCommissionInfo {
  ci_MaxRate : Z;
  ci_MaxChangeRate : Z;
  ci_UpdateTime : Z
}.

(** [ProofOfPossessionBTC]: the kind of the Bitcoin signature and its bytes. *)
Inductive BTCSigType := BIP340 | BIP322 | ECDSA.
Record ProofOfPossessionBTC := mkPopBTC { pop_BtcSigType : BTCSigType; pop_BtcSig : bytes }.

(** The description is carried as opaque bytes. *)
Record FinalityProvider := mkFP {
  fp_Addr : string;
  fp_Description : bytes;
  fp_Commission : option Z;
  fp_BtcPk : bytes;
  fp_Pop : ProofOfPossessionBTC;
  fp_SlashedBabylonHeight : Z;
  fp_SlashedBtcHeight : Z;
  fp_Jailed : bool;
  fp_HighestVotedHeight : Z;
  fp_CommissionInfo : option CommissionInfo
}.

Inductive BTCDelegationStatus := PENDING | VERIFIED | ACTIVE | UNBONDED | EXPIRED.

#[global] Instance BTCDelegationStatus_eq_dec : EqDecision BTCDelegationStatus.
Proof. solve_decision. Defined.

(** The voting power distribution events, [EventPowerDistUpdate.Ev]. *)
Inductive EventPowerDistUpdate :=
  | SlashedFp (pk : bytes)
  | JailedFp (pk : bytes)
  | UnjailedFp (pk : bytes)
  | BtcDelStateUpdate (StakingTxHash : string) (NewState : BTCDelegationStatus).

#[global] Instance EventPowerDistUpdate_eq_dec : EqDecision EventPowerDistUpdate.
Proof. solve_decision. Defined.

Record SignatureInfo := mkSigInfo { si_Pk : bytes; si_Sig : bytes }.
Record CovenantAdaptorSignatures := mkCovSigs { cas_CovPk : bytes; cas_AdaptorSigs : list bytes }.

Record BTCUndelegation := mkUndel {
  ud_UnbondingTx : bytes;
  ud_SlashingTx : bytes;
  ud_DelegatorSlashingSig : bytes;
  ud_CovenantSlashingSigs : list CovenantAdaptorSignatures;
  ud_CovenantUnbondingSigList : list SignatureInfo;
  ud_DelegatorUnbondingInfo : option bytes   (* SpendStakeTx *)
}.

Record StakeExpansion := mkStkExp {
  se_PreviousStakingTxHash : bytes;
  se_OtherFundingTxOut : bytes;
  se_PreviousStkCovenantSigs : list SignatureInfo
}.

Record BTCDelegation := mkDel {
  d_StakerAddr : string;
  d_BtcPk : bytes;
  d_Pop : ProofOfPossessionBTC;
  d_FpBtcPkList : list bytes;
  d_StakingTime : Z;
  d_StartHeight : Z;
  d_EndHeight : Z;
  d_TotalSat : Z;
  d_StakingTx : bytes;
  d_StakingOutputIdx : Z;
  d_SlashingTx : bytes;
  d_DelegatorSig : bytes;
  d_CovenantSigs : list CovenantAdaptorSignatures;
  d_UnbondingTime : Z;
  d_BtcUndelegation : BTCUndelegation;
  d_ParamsVersion : Z;
  d_BtcTipHeight : Z;
  d_StkExp : option StakeExpansion
}.

(** The versioned [Params]; rates are decimals scaled by [DecOne]. *)
Record StakingParams := mkStakingParams {
  sp_CovenantPks : list bytes;
  sp_CovenantQuorum : Z;
  sp_MinStakingValueSat : Z;
  sp_MaxStakingValueSat : Z;
  sp_MinStakingTimeBlocks : Z;
  sp_MaxStakingTimeBlocks : Z;
  sp_SlashingPkScript : bytes;
  sp_MinSlashingTxFeeSat : Z;
  sp_SlashingRate : Z;
  sp_UnbondingTimeBlocks : Z;
  sp_UnbondingFeeSat : Z;
  sp_MinCommissionRate : Z;
  sp_DelegationCreationBaseGasFee : Z;
  sp_AllowListExpirationHeight : Z;
  sp_BtcActivationHeight : Z
}.

Record BTCHeaderInfo := mkHeaderInfo { hi_Hash : bytes; hi_Height : Z }.

Record LargestBtcReOrg := mkReorg {
  lbr_BlockDiff : Z;
  lbr_RollbackFrom : option BTCHeaderInfo;
  lbr_RollbackTo : option BTCHeaderInfo
}.

(** The stores of the module. Delegations are keyed by staking tx hash, events
    by BTC height and index, BTC heights by Babylon height, parameters by
    version; the hashes of a delegator's staking transactions by finality
    provider and delegator. *)
Record StakingState := mkStaking {
  finalityProviders : gmap bytes FinalityProvider;
  fpBbnAddr : gset bytes;
  finalityProvidersDeleted : gset bytes;
  powerDistUpdateEvents : gmap Z (gmap Z EventPowerDistUpdate);
  btcHeights : gmap Z Z;
  btcDelegations : gmap bytes BTCDelegation;
  stakingParams : gmap Z StakingParams;
  largestBtcReorg : option LargestBtcReOrg;
  heightToVersionMap : option (list (Z * Z));
  btcDelegators : gmap bytes (gmap bytes (list bytes));
  allowedStakingTxHashes : gset bytes
}.

Definition empty_staking : StakingState := mkStaking ∅ ∅ ∅ ∅ ∅ ∅ ∅ None None ∅ ∅.

Definition set_finalityProviders (s : StakingState) (m : gmap bytes FinalityProvider) : StakingState :=
  mkStaking m (fpBbnAddr s) (finalityProvidersDeleted s) (powerDistUpdateEvents s)
    (btcHeights s) (btcDelegations s) (stakingParams s) (largestBtcReorg s)
    (heightToVersionMap s) (btcDelegators s) (allowedStakingTxHashes s).
Definition set_fpBbnAddr (s : StakingState) (m : gset bytes) : StakingState :=
  mkStaking (finalityProviders s) m (finalityProvidersDeleted s) (powerDistUpdateEvents s)
    (btcHeights s) (btcDelegations s) (stakingParams s) (largestBtcReorg s)
    (heightToVersionMap s) (btcDelegators s) (allowedStakingTxHashes s).
Definition set_finalityProvidersDeleted (s : StakingState) (m : gset bytes) : StakingState :=
  mkStaking (finalityProviders s) (fpBbnAddr s) m (powerDistUpdateEvents s)
    (btcHeights s) (btcDelegations s) (stakingParams s) (largestBtcReorg s)
    (heightToVersionMap s) (btcDelegators s) (allowedStakingTxHashes s).
Definition set_powerDistUpdateEvents (s : StakingState)
    (m : gmap Z (gmap Z EventPowerDistUpdate)) : StakingState :=
  mkStaking (finalityProviders s) (fpBbnAddr s) (finalityProvidersDeleted s) m
    (btcHeights s) (btcDelegations s) (stakingParams s) (largestBtcReorg s)
    (heightToVersionMap s) (btcDelegators s) (allowedStakingTxHashes s).
Definition set_btcHeights (s : StakingState) (m : gmap Z Z) : StakingState :=
  mkStaking (finalityProviders s) (fpBbnAddr s) (finalityProvidersDeleted s)
    (powerDistUpdateEvents s) m (btcDelegations s) (stakingParams s) (largestBtcReorg s)
    (heightToVersionMap s) (btcDelegators s) (allowedStakingTxHashes s).
Definition set_btcDelegations (s : StakingState) (m : gmap bytes BTCDelegation) : StakingState :=
  mkStaking (finalityProviders s) (fpBbnAddr s) (finalityProvidersDeleted s)
    (powerDistUpdateEvents s) (btcHeights s) m (stakingParams s) (largestBtcReorg s)
    (heightToVersionMap s) (btcDelegators s) (allowedStakingTxHashes s).
Definition set_largestBtcReorg (s : StakingState) (r : option LargestBtcReOrg) : StakingState :=
  mkStaking (finalityProviders s) (fpBbnAddr s) (finalityProvidersDeleted s)
    (powerDistUpdateEvents s) (btcHeights s) (btcDelegations s) (stakingParams s) r
    (heightToVersionMap s) (btcDelegators s) (allowedStakingTxHashes s).
Definition set_stakingParams (s : StakingState) (m : gmap Z StakingParams) : StakingState :=
  mkStaking (finalityProviders s) (fpBbnAddr s) (finalityProvidersDeleted s)
    (powerDistUpdateEvents s) (btcHeights s) (btcDelegations s) m (largestBtcReorg s)
    (heightToVersionMap s) (btcDelegators s) (allowedStakingTxHashes s).
Definition set_heightToVersionMap (s : StakingState) (m : option (list (Z * Z))) : StakingState :=
  mkStaking (finalityProviders s) (fpBbnAddr s) (finalityProvidersDeleted s)
    (powerDistUpdateEvents s) (btcHeights s) (btcDelegations s) (stakingParams s) (largestBtcReorg s)
    m (btcDelegators s) (allowedStakingTxHashes s).
Definition set_btcDelegators (s : StakingState) (m : gmap bytes (gmap bytes (list bytes))) : StakingState :=
  mkStaking (finalityProviders s) (fpBbnAddr s) (finalityProvidersDeleted s)
    (powerDistUpdateEvents s) (btcHeights s) (btcDelegations s) (stakingParams s) (largestBtcReorg s)
    (heightToVersionMap s) m (allowedStakingTxHashes s).
Definition set_allowedStakingTxHashes (s : StakingState) (m : gset bytes) : StakingState :=
  mkStaking (finalityProviders s) (fpBbnAddr s) (finalityProvidersDeleted s)
    (powerDistUpdateEvents s) (btcHeights s) (btcDelegations s) (stakingParams s) (largestBtcReorg s)
    (heightToVersionMap s) (btcDelegators s) m.

(** ** The finality provider registry *)

Definition IsSlashed (fp : FinalityProvider) : bool := 0 <? fp_SlashedBabylonHeight fp.
Definition IsJailed (fp : FinalityProvider) : bool := fp_Jailed fp.

Definition with_slashed (fp : FinalityProvider) (bbnHeight btcHeight : Z) : FinalityProvider :=
  mkFP (fp_Addr fp) (fp_Description fp) (fp_Commission fp) (fp_BtcPk fp) (fp_Pop fp) bbnHeight btcHeight (fp_Jailed fp)
    (fp_HighestVotedHeight fp) (fp_CommissionInfo fp).
Definition with_jailed (fp : FinalityProvider) (j : bool) : FinalityProvider :=
  mkFP (fp_Addr fp) (fp_Description fp) (fp_Commission fp) (fp_BtcPk fp) (fp_Pop fp) (fp_SlashedBabylonHeight fp)
    (fp_SlashedBtcHeight fp) j (fp_HighestVotedHeight fp) (fp_CommissionInfo fp).
Definition with_highest_voted (fp : FinalityProvider) (h : Z) : FinalityProvider :=
  mkFP (fp_Addr fp) (fp_Description fp) (fp_Commission fp) (fp_BtcPk fp) (fp_Pop fp) (fp_SlashedBabylonHeight fp)
    (fp_SlashedBtcHeight fp) (fp_Jailed fp) h (fp_CommissionInfo fp).
Definition with_commission (fp : FinalityProvider) (c : Z) (ci : CommissionInfo) : FinalityProvider :=
  mkFP (fp_Addr fp) (fp_Description fp) (Some c) (fp_BtcPk fp) (fp_Pop fp) (fp_SlashedBabylonHeight fp)
    (fp_SlashedBtcHeight fp) (fp_Jailed fp) (fp_HighestVotedHeight fp) (Some ci).

Definition SetFinalityProvider (s : StakingState) (fp : FinalityProvider) : StakingState :=
  set_finalityProviders s (<[fp_BtcPk fp := fp]> (finalityProviders s)).

Definition HasFinalityProvider (s : StakingState) (fpBTCPK : bytes) : bool :=
  bool_decide (is_Some (finalityProviders s !! fpBTCPK)).

Definition GetFinalityProvider (s : StakingState) (fpBTCPK : bytes) : outcome FinalityProvider :=
  match finalityProviders s !! fpBTCPK with
  | None => Err ErrFpNotFound
  | Some fp => Ok fp
  end.

Definition UpdateFinalityProvider (s : StakingState) (fp : FinalityProvider) : outcome StakingState :=
  if negb (HasFinalityProvider s (fp_BtcPk fp)) then Err ErrFpNotFound
  else Ok (SetFinalityProvider s fp).

Definition IsFinalityProviderDeleted (s : StakingState) (fpBtcPk : bytes) : bool :=
  bool_decide (fpBtcPk ∈ finalityProvidersDeleted s).

Definition SoftDeleteFinalityProvider (s : StakingState) (fpBtcPk : bytes) : StakingState :=
  set_finalityProvidersDeleted s ({[fpBtcPk]} ∪ finalityProvidersDeleted s).

(** ** Voting power distribution events *)

Definition powerDistUpdateEventBtcHeightStore (s : StakingState) (btcHeight : Z)
    : gmap Z EventPowerDistUpdate := default ∅ (powerDistUpdateEvents s !! btcHeight).

(** The index of the next event at a BTC height. *)
Definition nextEventIdx (store : gmap Z EventPowerDistUpdate) : Z :=
  match last (iterZ store) with
  | None => 0
  | Some (idx, _) => u64 (idx + 1)
  end.

Definition addPowerDistUpdateEvent (s : StakingState) (btcHeight : Z)
    (event : EventPowerDistUpdate) : StakingState :=
  let store := powerDistUpdateEventBtcHeightStore s btcHeight in
  set_powerDistUpdateEvents s
    (<[btcHeight := <[nextEventIdx store := event]> store]> (powerDistUpdateEvents s)).

(** The iterator collects the keys first; then each key is deleted. *)
Definition ClearPowerDistUpdateEvents (s : StakingState) (btcHeight : Z) : StakingState :=
  let store := powerDistUpdateEventBtcHeightStore s btcHeight in
  let keys := (iterZ store).*1 in
  set_powerDistUpdateEvents s
    (<[btcHeight := foldl (λ m k, delete k m) store keys]> (powerDistUpdateEvents s)).

(** The events at one BTC height, in index order. *)
Definition PowerDistUpdateEventsAt (s : StakingState) (btcHeight : Z) : list EventPowerDistUpdate :=
  (iterZ (powerDistUpdateEventBtcHeightStore s btcHeight)).*2.

(** [for i := lastBTCTip; i <= curBTCTip; i++], for [curBTCTip] below the
    maximal [uint32]: the heights are [lastBTCTip .. curBTCTip]. *)
Definition GetAllPowerDistUpdateEvents (s : StakingState) (lastBTCTip curBTCTip : Z)
    : list EventPowerDistUpdate :=
  seqZ lastBTCTip (curBTCTip - lastBTCTip + 1) ≫= PowerDistUpdateEventsAt s.

(** ** Slashing and jailing

    [btcTip] is the height of the BTC light client's tip, [GetTipInfo(ctx)]. *)

Definition SlashFinalityProvider (ctx : Ctx) (btcTip : option Z) (s : StakingState)
    (fpBTCPK : bytes) : outcome StakingState :=
  fp ← GetFinalityProvider s fpBTCPK;
  if IsSlashed fp then Err ErrFpAlreadySlashed
  else match btcTip with
  | None => Err (Errorf "failed to get current BTC tip")
  | Some tip =>
    let fp' := with_slashed fp (CtxHeight ctx) tip in
    let s' := SetFinalityProvider s fp' in
    Ok (addPowerDistUpdateEvent s' tip (SlashedFp (fp_BtcPk fp')))
  end.

Definition JailFinalityProvider (btcTip : option Z) (s : StakingState) (fpBTCPK : bytes)
    : outcome StakingState :=
  fp ← GetFinalityProvider s fpBTCPK;
  if IsSlashed fp then Err ErrFpAlreadySlashed
  else if IsJailed fp then Err ErrFpAlreadyJailed
  else
    let fp' := with_jailed fp true in
    let s' := SetFinalityProvider s fp' in
    match btcTip with
    | None => Err (Errorf "failed to get current BTC tip")
    | Some tip => Ok (addPowerDistUpdateEvent s' tip (JailedFp (fp_BtcPk fp')))
    end.

Definition UnjailFinalityProvider (btcTip : option Z) (s : StakingState) (fpBTCPK : bytes)
    : outcome StakingState :=
  fp ← GetFinalityProvider s fpBTCPK;
  if IsSlashed fp then Err ErrFpAlreadySlashed
  else if negb (IsJailed fp) then Err ErrFpNotJailed
  else
    let fp' := with_jailed fp false in
    let s' := SetFinalityProvider s fp' in
    match btcTip with
    | None => Err (Errorf "failed to get current BTC tip")
    | Some tip => Ok (addPowerDistUpdateEvent s' tip (UnjailedFp (fp_BtcPk fp')))
    end.

(** ** Commission updates *)

Definition GetStakingParams (s : StakingState) : outcome StakingParams :=
  match last (iterZ (stakingParams s)) with
  | None => Panic (Errorf "last params not found")
  | Some (_, p) => Ok p
  end.

Definition MinCommissionRate (s : StakingState) : outcome Z :=
  p ← GetStakingParams s; Ok (sp_MinCommissionRate p).

Definition Hours24 : Z := 24 * 3600 * 10 ^ 9.

(** The new provider value; the caller stores it. A negative elapsed time
    counts as less than 24 hours. *)
Definition UpdateFinalityProviderCommission (ctx : Ctx) (s : StakingState)
    (newCommission : option Z) (fp : FinalityProvider) : outcome FinalityProvider :=
  match newCommission with
  | None => Ok fp
  | Some newCommission =>
    match fp_CommissionInfo fp with
    | None => Err (Errorf "cannot update commission")
    | Some info =>
      if newCommission <? 0 then Err ErrCommissionNegative
      else if HeaderTime ctx - ci_UpdateTime info <? Hours24 then Err ErrCommissionUpdateTime
      else minCommission ← MinCommissionRate s;
      if newCommission <? minCommission then Err ErrCommissionLTMinRate
      else if ci_MaxRate info <? newCommission then Err ErrStkCommissionGTMaxRate
      else match fp_Commission fp with
      | None => Panic (Errorf "nil pointer dereference")
      | Some commission =>
        if ci_MaxChangeRate info <? Z.abs (newCommission - commission)
        then Err ErrCommissionGTMaxChangeRate
        else Ok (with_commission fp newCommission
                  (mkCommissionInfo (ci_MaxRate info) (ci_MaxChangeRate info) (HeaderTime ctx)))
      end
    end
  end.

Definition CommissionInfo_Validate (cr : CommissionInfo) : outcome unit :=
  if ci_MaxRate cr <? 0 then Err ErrCommissionNegative
  else if DecOne <? ci_MaxRate cr then Err ErrCommissionHuge
  else if ci_MaxChangeRate cr <? 0 then Err ErrCommissionChangeRateNegative
  else if ci_MaxRate cr <? ci_MaxChangeRate cr then Err ErrCommissionChangeRateGTMaxRate
  else Ok tt.

(** [MsgCreateFinalityProvider], with its non-nil commission rates. *)
Record MsgCreateFinalityProvider := mkMsgCreateFP {
  mcf_Addr : string;
  mcf_Description : bytes;
  mcf_Rate : Z;
  mcf_MaxRate : Z;
  mcf_MaxChangeRate : Z;
  mcf_BtcPk : bytes;
  mcf_Pop : ProofOfPossessionBTC
}.

(** [AccAddressFromBech32] is the SDK's address parser. *)
Definition AddFinalityProvider (AccAddressFromBech32 : string → option bytes)
    (ctx : Ctx) (s : StakingState) (msg : MsgCreateFinalityProvider) : outcome StakingState :=
  params ← GetStakingParams s;
  match AccAddressFromBech32 (mcf_Addr msg) with
  | None => Err (Errorf "AccAddressFromBech32")
  | Some fpAddr =>
    if bool_decide (fpAddr ∈ fpBbnAddr s) then Err ErrFpRegistered
    else if mcf_Rate msg <? sp_MinCommissionRate params then Err ErrCommissionLTMinRate
    else
      let commissionInfo :=
        mkCommissionInfo (mcf_MaxRate msg) (mcf_MaxChangeRate msg) (HeaderTime ctx) in
      _ ← CommissionInfo_Validate commissionInfo;
      if mcf_MaxRate msg <? mcf_Rate msg then Err ErrCommissionGTMaxRate
      else if HasFinalityProvider s (mcf_BtcPk msg) then Err ErrFpRegistered
      else
        let fp := mkFP (mcf_Addr msg) (mcf_Description msg) (Some (mcf_Rate msg))
                    (mcf_BtcPk msg) (mcf_Pop msg) 0 0 false 0 (Some commissionInfo) in
        let s := set_fpBbnAddr s ({[fpAddr]} ∪ fpBbnAddr s) in
        Ok (SetFinalityProvider s fp)
  end.

(** ** The BTC height index *)

(** [IndexBTCHeight] of the begin blocker. *)
Definition IndexBTCHeight (ctx : Ctx) (btcTip : option Z) (s : StakingState) : StakingState :=
  match btcTip with
  | None => s
  | Some btcHeight => set_btcHeights s (<[CtxHeight ctx := btcHeight]> (btcHeights s))
  end.

(** [baseHeight] is the height of the light client's base header. *)
Definition GetBTCHeightAtBabylonHeight (baseHeight : Z) (s : StakingState) (babylonHeight : Z)
    : outcome Z :=
  match btcHeights s !! babylonHeight with
  | None => Ok baseHeight
  | Some h => if 2 ^ 32 - 1 <? h then Panic (Errorf "btc height larger than math.MaxUint32")
              else Ok h
  end.

Definition GetCurrentBTCHeight (ctx : Ctx) (baseHeight : Z) (s : StakingState) : outcome Z :=
  GetBTCHeightAtBabylonHeight baseHeight s (CtxHeight ctx).

(** ** BTC reorganisations *)

Definition NewLargestBtcReOrg (rollbackFrom rollbackTo : BTCHeaderInfo) : LargestBtcReOrg :=
  mkReorg (u32 (hi_Height rollbackFrom - hi_Height rollbackTo)) (Some rollbackFrom) (Some rollbackTo).

Definition SetLargestBtcReorg (s : StakingState) (r : LargestBtcReOrg) : StakingState :=
  match largestBtcReorg s with
  | None => set_largestBtcReorg s (Some r)
  | Some current =>
    if lbr_BlockDiff r <=? lbr_BlockDiff current then s
    else set_largestBtcReorg s (Some r)
  end.

(** The panic stops the chain. *)
Definition HaltIfBtcReorgLargerThanConfirmationDepth (btcConfirmationDepth : Z)
    (s : StakingState) : outcome unit :=
  match largestBtcReorg s with
  | None => Ok tt
  | Some r => if btcConfirmationDepth <=? lbr_BlockDiff r
              then Panic (Errorf "Reorg is larger than BTC confirmation Depth") else Ok tt
  end.

(** ** Lemmas *)

(** Every provider is stored under its own BTC public key. *)
Definition fps_keyed (s : StakingState) : Prop :=
  ∀ pk fp, finalityProviders s !! pk = Some fp → fp_BtcPk fp = pk.

Lemma GetFinalityProvider_Ok s pk fp :
  GetFinalityProvider s pk = Ok fp ↔ finalityProviders s !! pk = Some fp.
Proof. unfold GetFinalityProvider. destruct (_ !! _); naive_solver. Qed.

Lemma HasFinalityProvider_true s pk :
  HasFinalityProvider s pk = true ↔ is_Some (finalityProviders s !! pk).
Proof. unfold HasFinalityProvider. by rewrite bool_decide_eq_true. Qed.

Lemma SetFinalityProvider_keyed s fp : fps_keyed s → fps_keyed (SetFinalityProvider s fp).
Proof.
  intros Hk pk fp'. simpl. rewrite lookup_insert_Some. intros [[<- <-]|[_ H]]; auto.
Qed.

Lemma addPowerDistUpdateEvent_fps s h ev :
  finalityProviders (addPowerDistUpdateEvent s h ev) = finalityProviders s.
Proof. done. Qed.

Lemma nextEventIdx_fresh store :
  (∀ idx, is_Some (store !! idx) → 0 ≤ idx < 2 ^ 64 - 1) →
  ∀ idx, is_Some (store !! idx) → idx < nextEventIdx store.
Proof.
  intros Hb idx Hidx. unfold nextEventIdx. destruct (last (iterZ store)) as [[i e]|] eqn:E.
  - apply iterZ_last in E as [Hi Hmax]. specialize (Hmax _ Hidx).
    assert (0 ≤ i < 2 ^ 64 - 1) by eauto. rewrite u64_small by (unfold in_u64; lia). lia.
  - apply iterZ_last_None in E as ->. rewrite lookup_empty in Hidx. by destruct Hidx.
Qed.

Lemma addPowerDistUpdateEvent_at s h ev :
  (∀ idx, is_Some (powerDistUpdateEventBtcHeightStore s h !! idx) → 0 ≤ idx < 2 ^ 64 - 1) →
  PowerDistUpdateEventsAt (addPowerDistUpdateEvent s h ev) h =
  PowerDistUpdateEventsAt s h ++ [ev].
Proof.
  intros Hb. unfold PowerDistUpdateEventsAt at 1, powerDistUpdateEventBtcHeightStore at 1.
  simpl. rewrite lookup_insert_eq. simpl.
  rewrite iterZ_insert_last by (by apply nextEventIdx_fresh). by rewrite fmap_app.
Qed.

Lemma addPowerDistUpdateEvent_other s h h' ev :
  h ≠ h' →
  PowerDistUpdateEventsAt (addPowerDistUpdateEvent s h ev) h' = PowerDistUpdateEventsAt s h'.
Proof.
  intros Hne. unfold PowerDistUpdateEventsAt, powerDistUpdateEventBtcHeightStore. simpl.
  by rewrite lookup_insert_ne.
Qed.

Lemma foldl_delete_lookup {V} (keys : list Z) (m : gmap Z V) k :
  foldl (λ m k, delete k m) m keys !! k = if decide (k ∈ keys) then None else m !! k.
Proof.
  revert m. induction keys as [|x keys IH]; intros m; cbn [foldl].
  { rewrite decide_False by set_solver. done. }
  rewrite IH. destruct (decide (k = x)) as [->|Hne].
  - rewrite lookup_delete_eq, (decide_True (P := x ∈ x :: keys)) by set_solver.
    by destruct (decide _).
  - rewrite lookup_delete_ne by done. apply decide_ext. set_solver.
Qed.

Lemma ClearPowerDistUpdateEvents_at s h :
  PowerDistUpdateEventsAt (ClearPowerDistUpdateEvents s h) h = [].
Proof.
  unfold PowerDistUpdateEventsAt, powerDistUpdateEventBtcHeightStore. simpl.
  rewrite lookup_insert_eq. simpl.
  rewrite (proj2 (iterZ_nil _)); [done|]. apply map_empty. intros k.
  rewrite foldl_delete_lookup. case_decide as Hk; [done|].
  apply eq_None_not_Some. intros [v Hv]. apply Hk, list_elem_of_fmap.
  exists (k, v). split; [done|]. by apply elem_of_iterZ.
Qed.

Lemma SlashFinalityProvider_Ok ctx tip s pk s' :
  SlashFinalityProvider ctx tip s pk = Ok s' ↔
  ∃ fp h, finalityProviders s !! pk = Some fp ∧ IsSlashed fp = false ∧ tip = Some h ∧
    s' = addPowerDistUpdateEvent (SetFinalityProvider s (with_slashed fp (CtxHeight ctx) h)) h
           (SlashedFp (fp_BtcPk fp)).
Proof.
  unfold SlashFinalityProvider. rewrite bind_Ok. setoid_rewrite GetFinalityProvider_Ok.
  split.
  - intros (fp & Hfp & E). destruct (IsSlashed fp) eqn:Es; [done|].
    destruct tip as [h|]; [|done]. injection E as <-. exists fp, h. auto.
  - intros (fp & h & Hfp & Es & -> & ->). exists fp. rewrite Es. auto.
Qed.

(** The jail flag transition shared by [JailFinalityProvider] ([j = true]) and
    [UnjailFinalityProvider] ([j = false]). *)
Lemma JailFinalityProvider_Ok tip s pk s' :
  JailFinalityProvider tip s pk = Ok s' ↔
  ∃ fp h, finalityProviders s !! pk = Some fp ∧ IsSlashed fp = false ∧ fp_Jailed fp = false ∧
    tip = Some h ∧
    s' = addPowerDistUpdateEvent (SetFinalityProvider s (with_jailed fp true)) h
           (JailedFp (fp_BtcPk fp)).
Proof.
  unfold JailFinalityProvider, IsJailed. rewrite bind_Ok. setoid_rewrite GetFinalityProvider_Ok.
  split.
  - intros (fp & Hfp & E). destruct (IsSlashed fp) eqn:Es; [done|].
    destruct (fp_Jailed fp) eqn:Ej; [done|].
    destruct tip as [h|]; [|done]. injection E as <-. exists fp, h. auto.
  - intros (fp & h & Hfp & Es & Ej & -> & ->). exists fp. rewrite Es, Ej. auto.
Qed.

Lemma UnjailFinalityProvider_Ok tip s pk s' :
  UnjailFinalityProvider tip s pk = Ok s' ↔
  ∃ fp h, finalityProviders s !! pk = Some fp ∧ IsSlashed fp = false ∧ fp_Jailed fp = true ∧
    tip = Some h ∧
    s' = addPowerDistUpdateEvent (SetFinalityProvider s (with_jailed fp false)) h
           (UnjailedFp (fp_BtcPk fp)).
Proof.
  unfold UnjailFinalityProvider, IsJailed. rewrite bind_Ok. setoid_rewrite GetFinalityProvider_Ok.
  split.
  - intros (fp & Hfp & E). destruct (IsSlashed fp) eqn:Es; [done|].
    destruct (fp_Jailed fp) eqn:Ej; [|done].
    destruct tip as [h|]; [|done]. injection E as <-. exists fp, h. auto.
  - intros (fp & h & Hfp & Es & Ej & -> & ->). exists fp. rewrite Es, Ej. auto.
Qed.

(** ** The life of a finality provider

    The operations of the chain on the registry: registration, commission
    edits, vote bookkeeping, slashing, jailing, unjailing, soft deletion, and
    the addition and removal of events. *)
Section registry.
Context (AccAddressFromBech32 : string → option bytes).

Inductive registry_step : StakingState → StakingState → Prop :=
  | step_register ctx msg s s' :
      AddFinalityProvider AccAddressFromBech32 ctx s msg = Ok s' → registry_step s s'
  | step_edit ctx c pk fp fp' s s' :
      GetFinalityProvider s pk = Ok fp →
      UpdateFinalityProviderCommission ctx s c fp = Ok fp' →
      UpdateFinalityProvider s fp' = Ok s' → registry_step s s'
  | step_voted pk fp h s s' :
      GetFinalityProvider s pk = Ok fp →
      UpdateFinalityProvider s (with_highest_voted fp h) = Ok s' → registry_step s s'
  | step_slash ctx tip pk s s' :
      SlashFinalityProvider ctx tip s pk = Ok s' → registry_step s s'
  | step_jail tip pk s s' : JailFinalityProvider tip s pk = Ok s' → registry_step s s'
  | step_unjail tip pk s s' : UnjailFinalityProvider tip s pk = Ok s' → registry_step s s'
  | step_delete pk s : registry_step s (SoftDeleteFinalityProvider s pk)
  | step_event h ev s : registry_step s (addPowerDistUpdateEvent s h ev)
  | step_clear h s : registry_step s (ClearPowerDistUpdateEvents s h).

(** What a step may do to the entry of a key. *)
Definition entry_evolves (m m' : gmap bytes FinalityProvider) : Prop :=
  ∀ pk fp, m !! pk = Some fp → fp_BtcPk fp = pk → ∃ fp', m' !! pk = Some fp' ∧
    fp_BtcPk fp' = pk ∧ fp_Addr fp' = fp_Addr fp ∧
    (IsSlashed fp = true → IsSlashed fp' = true ∧ fp_Jailed fp' = fp_Jailed fp ∧
       fp_SlashedBabylonHeight fp' = fp_SlashedBabylonHeight fp).

Lemma entry_evolves_refl m : entry_evolves m m.
Proof using. intros pk fp ? ?. exists fp. split_and!; auto. Qed.

Lemma entry_evolves_trans m1 m2 m3 :
  entry_evolves m1 m2 → entry_evolves m2 m3 → entry_evolves m1 m3.
Proof using.
  intros H12 H23 pk fp Hfp Hpk. destruct (H12 pk fp Hfp Hpk) as (fp2 & Hfp2 & Hpk2 & Ha2 & Hs2).
  destruct (H23 pk fp2 Hfp2 Hpk2) as (fp3 & Hfp3 & Hpk3 & Ha3 & Hs3).
  exists fp3. split_and!; [done..|congruence|].
  intros Hs. destruct (Hs2 Hs) as (E1 & E2 & E3). destruct (Hs3 E1) as (F1 & F2 & F3).
  split_and!; congruence.
Qed.

Lemma entry_evolves_insert m pk fp fp' :
  m !! pk = Some fp → fp_BtcPk fp' = fp_BtcPk fp → fp_Addr fp' = fp_Addr fp →
  (IsSlashed fp = true → IsSlashed fp' = true ∧ fp_Jailed fp' = fp_Jailed fp ∧
       fp_SlashedBabylonHeight fp' = fp_SlashedBabylonHeight fp) →
  fp_BtcPk fp = pk → entry_evolves m (<[fp_BtcPk fp' := fp']> m).
Proof using.
  intros Hm Hpk Ha Hs Hk pk0 fp0 H0 Hk0. rewrite Hpk, Hk.
  destruct (decide (pk = pk0)) as [->|Hne].
  - rewrite lookup_insert_eq. exists fp'. simplify_eq. split_and!; auto.
  - rewrite lookup_insert_ne by done. exists fp0. split_and!; auto.
Qed.

Lemma UpdateFinalityProvider_Ok s fp s' :
  UpdateFinalityProvider s fp = Ok s' ↔
  is_Some (finalityProviders s !! fp_BtcPk fp) ∧ s' = SetFinalityProvider s fp.
Proof using.
  unfold UpdateFinalityProvider. destruct (HasFinalityProvider _ _) eqn:E; simpl.
  - apply HasFinalityProvider_true in E. split; [by intros [= <-]|by intros [_ ->]].
  - split; [done|]. intros [H _]. apply HasFinalityProvider_true in H. congruence.
Qed.

Lemma UpdateFinalityProviderCommission_frame ctx s c fp fp' :
  UpdateFinalityProviderCommission ctx s c fp = Ok fp' →
  fp_BtcPk fp' = fp_BtcPk fp ∧ fp_Addr fp' = fp_Addr fp ∧
  fp_SlashedBabylonHeight fp' = fp_SlashedBabylonHeight fp ∧ fp_Jailed fp' = fp_Jailed fp.
Proof using.
  unfold UpdateFinalityProviderCommission. destruct c as [c|]; [|by intros [= <-]].
  destruct (fp_CommissionInfo fp) as [info|]; [|done].
  intros H. inv_ok H. by injection H as <-.
Qed.

Lemma AddFinalityProvider_Ok_inv ctx s msg s' :
  AddFinalityProvider AccAddressFromBech32 ctx s msg = Ok s' →
  finalityProviders s !! mcf_BtcPk msg = None ∧
  ∃ fp, fp_BtcPk fp = mcf_BtcPk msg ∧ IsSlashed fp = false ∧ fp_Jailed fp = false ∧
    finalityProviders s' = <[fp_BtcPk fp := fp]> (finalityProviders s).
Proof using.
  unfold AddFinalityProvider. intros H. inv_ok H. injection H as <-. split.
  - apply eq_None_not_Some. rewrite <- HasFinalityProvider_true. congruence.
  - eexists; split_and!; [| | |done]; done.
Qed.

Lemma registry_step_evolves s s' :
  registry_step s s' → fps_keyed s →
  entry_evolves (finalityProviders s) (finalityProviders s') ∧ fps_keyed s'.
Proof using.
  intros [ctx msg s0 s1 H|ctx c pk fp fp' s0 s1 Hg Hc H|pk fp h s0 s1 Hg H|ctx tip pk s0 s1 H
         |tip pk s0 s1 H|tip pk s0 s1 H|pk s0|h ev s0|h s0] Hk;
    try (split; [apply entry_evolves_refl|done]).
  - apply AddFinalityProvider_Ok_inv in H as (Hn & fp & Hpk & Hs & Hj & E).
    unfold fps_keyed. rewrite E. split.
    + intros pk0 fp0 H0 Hk0. rewrite Hpk. rewrite lookup_insert_ne by congruence.
      exists fp0. split_and!; auto.
    + intros pk0 fp0. rewrite lookup_insert_Some. intros [[<- <-]|[_ ?]]; auto.
  - apply GetFinalityProvider_Ok in Hg. apply UpdateFinalityProvider_Ok in H as [_ ->].
    apply UpdateFinalityProviderCommission_frame in Hc as (H1 & H2 & H3 & H4).
    split; [|by apply SetFinalityProvider_keyed].
    eapply entry_evolves_insert; eauto. unfold IsSlashed. rewrite H3. auto.
  - apply GetFinalityProvider_Ok in Hg. apply UpdateFinalityProvider_Ok in H as [_ ->].
    split; [|by apply SetFinalityProvider_keyed]. eapply entry_evolves_insert; eauto.
  - apply SlashFinalityProvider_Ok in H as (fp & h & Hg & Hs & -> & ->).
    split; [|by apply (SetFinalityProvider_keyed s0)].
    simpl. change (fp_BtcPk fp) with (fp_BtcPk (with_slashed fp (CtxHeight ctx) h)).
    eapply entry_evolves_insert; eauto; congruence.
  - apply JailFinalityProvider_Ok in H as (fp & h & Hg & Hs & Hj & -> & ->).
    split; [|by apply (SetFinalityProvider_keyed s0)].
    simpl. change (fp_BtcPk fp) with (fp_BtcPk (with_jailed fp true)).
    eapply entry_evolves_insert; eauto; congruence.
  - apply UnjailFinalityProvider_Ok in H as (fp & h & Hg & Hs & Hj & -> & ->).
    split; [|by apply (SetFinalityProvider_keyed s0)].
    simpl. change (fp_BtcPk fp) with (fp_BtcPk (with_jailed fp false)).
    eapply entry_evolves_insert; eauto; congruence.
Qed.

Lemma registry_steps_evolve s s' :
  rtc registry_step s s' → fps_keyed s →
  entry_evolves (finalityProviders s) (finalityProviders s') ∧ fps_keyed s'.
Proof using.
  induction 1 as [s|s1 s2 s3 Hst _ IH]; intros Hk; [by split; [apply entry_evolves_refl|]|].
  destruct (registry_step_evolves _ _ Hst Hk) as [H12 Hk2].
  destruct (IH Hk2) as [H23 Hk3]. split; [|done]. by eapply entry_evolves_trans.
Qed.

(** C11: Slashing is permanent. Starting from a registry whose entries are stored
    under their own keys, whatever sequence of registrations, commission edits,
    votes, slashings, jailings, unjailings and deletions the chain performs, a
    slashed finality provider stays registered under its key and address, stays
    slashed at the same Babylon height, and cannot be slashed, jailed or
    unjailed any more. *)
Theorem slashing_is_permanent s s' pk fp :
  fps_keyed s → rtc registry_step s s' →
  finalityProviders s !! pk = Some fp → IsSlashed fp = true →
  ∃ fp', finalityProviders s' !! pk = Some fp' ∧ fp_Addr fp' = fp_Addr fp ∧
    IsSlashed fp' = true ∧ fp_SlashedBabylonHeight fp' = fp_SlashedBabylonHeight fp ∧
    fp_Jailed fp' = fp_Jailed fp ∧
    ∀ ctx tip, SlashFinalityProvider ctx tip s' pk = Err ErrFpAlreadySlashed ∧
      JailFinalityProvider tip s' pk = Err ErrFpAlreadySlashed ∧
      UnjailFinalityProvider tip s' pk = Err ErrFpAlreadySlashed.
Proof using.
  intros Hk Hsteps Hfp Hs. destruct (registry_steps_evolve _ _ Hsteps Hk) as [He _].
  destruct (He pk fp Hfp (Hk _ _ Hfp)) as (fp' & Hfp' & _ & Ha & Hsl).
  destruct (Hsl Hs) as (E1 & E2 & E3). exists fp'. split_and!; auto.
  intros ctx tip. unfold SlashFinalityProvider, JailFinalityProvider, UnjailFinalityProvider.
  rewrite (proj2 (GetFinalityProvider_Ok _ _ _) Hfp'). simpl. by rewrite E1.
Qed.

End registry.

(** Slashing a provider. The call succeeds exactly on a registered provider
    that is not slashed, with a BTC tip; it marks the provider slashed at the
    current Babylon and BTC heights, leaves the other providers alone and
    appends one slashing event, after those already queued at the tip height,
    for the next voting power update. *)
Theorem SlashFinalityProvider_spec ctx tip s pk :
  fps_keyed s →
  (∀ h idx, is_Some (powerDistUpdateEventBtcHeightStore s h !! idx) → 0 ≤ idx < 2 ^ 64 - 1) →
  match SlashFinalityProvider ctx tip s pk with
  | Ok s' => ∃ fp h, finalityProviders s !! pk = Some fp ∧ IsSlashed fp = false ∧ tip = Some h ∧
      finalityProviders s' = <[pk := with_slashed fp (CtxHeight ctx) h]> (finalityProviders s) ∧
      PowerDistUpdateEventsAt s' h = PowerDistUpdateEventsAt s h ++ [SlashedFp pk] ∧
      ∀ h', h' ≠ h → PowerDistUpdateEventsAt s' h' = PowerDistUpdateEventsAt s h'
  | Err ErrFpNotFound => finalityProviders s !! pk = None
  | Err ErrFpAlreadySlashed => ∃ fp, finalityProviders s !! pk = Some fp ∧ IsSlashed fp = true
  | Err _ => tip = None
  | Panic _ => False
  end.
Proof.
  intros Hk Hb. destruct (SlashFinalityProvider ctx tip s pk) as [s'|e|e] eqn:E.
  - apply SlashFinalityProvider_Ok in E as (fp & h & Hfp & Hs & -> & ->).
    exists fp, h. rewrite (Hk _ _ Hfp). split_and!; auto.
    + simpl. by rewrite (Hk _ _ Hfp).
    + rewrite addPowerDistUpdateEvent_at by apply (Hb h). done.
    + intros h' Hne. by rewrite addPowerDistUpdateEvent_other.
  - unfold SlashFinalityProvider, GetFinalityProvider in E.
    destruct (finalityProviders s !! pk) as [fp|] eqn:Hfp; simpl in E; [|by injection E as <-].
    destruct (IsSlashed fp) eqn:Es; [injection E as <-; eauto|].
    destruct tip; [done|]. by injection E as <-.
  - unfold SlashFinalityProvider, GetFinalityProvider in E.
    destruct (finalityProviders s !! pk) as [fp|]; simpl in E; [|done].
    destruct (IsSlashed fp), tip; done.
Qed.

(** ** Witnesses *)

Definition example_fp (pk : bytes) : FinalityProvider :=
  mkFP "bbn1" [] (Some (5 * 10 ^ 16)) pk (mkPopBTC BIP340 []) 0 0 false 0
    (Some (mkCommissionInfo (10 ^ 17) (10 ^ 16) 0)).
Definition example_pk : bytes := replicate 32 "001"%byte.
Definition example_ctx : Ctx := mkCtx 7 [] 0.
Definition example_staking : StakingState := SetFinalityProvider empty_staking (example_fp example_pk).

Lemma example_staking_keyed : fps_keyed example_staking.
Proof. apply SetFinalityProvider_keyed. intros pk fp H. simpl in H. by apply lookup_empty_Some in H. Qed.

Lemma SlashFinalityProvider_spec_witness :
  ∃ s', SlashFinalityProvider example_ctx (Some 100) example_staking example_pk = Ok s' ∧
    PowerDistUpdateEventsAt s' 100 = [SlashedFp example_pk].
Proof.
  destruct (SlashFinalityProvider example_ctx (Some 100) example_staking example_pk)
    as [s'|e|e] eqn:E; [|vm_compute in E; discriminate E..].
  pose proof (SlashFinalityProvider_spec example_ctx (Some 100) example_staking example_pk
    example_staking_keyed) as H. rewrite E in H.
  destruct H as (fp & h & _ & _ & Hh & _ & Hev & _).
  - intros h idx [v Hv]. cbv [powerDistUpdateEventBtcHeightStore] in Hv. simpl in Hv. rewrite lookup_empty in Hv. simpl in Hv. by apply lookup_empty_Some in Hv.
  - exists s'. injection Hh as <-. split; [reflexivity|exact Hev].
Defined.

Lemma slashing_is_permanent_witness :
  let s := SetFinalityProvider empty_staking (with_slashed (example_fp example_pk) 3 90) in
  ∃ fp', finalityProviders (SoftDeleteFinalityProvider s example_pk) !! example_pk = Some fp' ∧
    IsSlashed fp' = true.
Proof.
  intros s.
  destruct (slashing_is_permanent (λ _, None) s (SoftDeleteFinalityProvider s example_pk)
    example_pk (with_slashed (example_fp example_pk) 3 90)) as (fp' & H1 & _ & H2 & _).
  - apply SetFinalityProvider_keyed. intros pk fp H. simpl in H. by apply lookup_empty_Some in H.
  - apply rtc_once, step_delete.
  - vm_compute. reflexivity.
  - reflexivity.
  - exists fp'. split; [exact H1|exact H2].
Defined.
