(* ===== verification/Delegations.v ===== *)
(** * x/btcstaking: BTC delegations

    The status of a BTC delegation, covenant quorums, the delegation store with
    the recursive lookup of stake expansions, and the state changes of covenant
    signatures and of unbonding, with the voting power events they queue. *)

From S2P Require Import Prelude Bytes Store BbnTypes BtcStaking.

(** ** Covenant signatures and status *)

Definition HasInclusionProof (d : BTCDelegation) : bool :=
  (0 <? d_StartHeight d) && (0 <? d_EndHeight d).

Definition IsUnbondedEarly (d : BTCDelegation) : bool :=
  match ud_DelegatorUnbondingInfo (d_BtcUndelegation d) with Some _ => true | None => false end.

Definition IsStakeExpansion (d : BTCDelegation) : bool :=
  match d_StkExp d with Some _ => true | None => false end.

Definition GetFpIdx (d : BTCDelegation) (fpBTCPK : bytes) : Z :=
  match list_find (λ pk, pk = fpBTCPK) (d_FpBtcPkList d) with
  | Some (i, _) => Z.of_nat i
  | None => -1
  end.

Definition HasCovenantQuorumOnSlashing (ud : BTCUndelegation) (quorum : Z) : bool :=
  quorum <=? Z.of_nat (length (ud_CovenantSlashingSigs ud)).
Definition HasCovenantQuorumOnUnbonding (ud : BTCUndelegation) (quorum : Z) : bool :=
  quorum <=? Z.of_nat (length (ud_CovenantUnbondingSigList ud)).
Definition ud_HasCovenantQuorums (ud : BTCUndelegation) (quorum : Z) : bool :=
  HasCovenantQuorumOnUnbonding ud quorum && HasCovenantQuorumOnSlashing ud quorum.
Definition se_HasCovenantQuorums (se : StakeExpansion) (quorumPreviousStk : Z) : bool :=
  quorumPreviousStk <=? Z.of_nat (length (se_PreviousStkCovenantSigs se)).

Definition HasCovenantQuorums (d : BTCDelegation) (quorum quorumPreviousStk : Z) : bool :=
  let hasQuorum := (quorum <=? Z.of_nat (length (d_CovenantSigs d))) &&
                   ud_HasCovenantQuorums (d_BtcUndelegation d) quorum in
  match d_StkExp d with
  | Some se => hasQuorum && se_HasCovenantQuorums se quorumPreviousStk
  | None => hasQuorum
  end.

Definition GetStatus (d : BTCDelegation) (btcHeight covenantQuorum quorumPreviousStk : Z)
    : BTCDelegationStatus :=
  if IsUnbondedEarly d then UNBONDED
  else if negb (HasCovenantQuorums d covenantQuorum quorumPreviousStk) then PENDING
  else if negb (HasInclusionProof d) then VERIFIED
  else if btcHeight <? d_StartHeight d then UNBONDED
  else if d_EndHeight d <=? u32 (btcHeight + d_UnbondingTime d) then EXPIRED
  else ACTIVE.

Definition VotingPower (d : BTCDelegation) (btcHeight covenantQuorum quorumPreviousStk : Z) : Z :=
  if bool_decide (GetStatus d btcHeight covenantQuorum quorumPreviousStk ≠ ACTIVE) then 0
  else d_TotalSat d.

Definition IsSignedByCovMember (d : BTCDelegation) (covPk : bytes) : bool :=
  existsb (λ sigInfo, bool_decide (covPk = cas_CovPk sigInfo)) (d_CovenantSigs d).
Definition IsSignedByCovMemberOnUnbonding (ud : BTCUndelegation) (covPk : bytes) : bool :=
  existsb (λ sigInfo, bool_decide (si_Pk sigInfo = covPk)) (ud_CovenantUnbondingSigList ud).
Definition IsSignedByCovMemberOnSlashing (ud : BTCUndelegation) (covPk : bytes) : bool :=
  existsb (λ sigInfo, bool_decide (cas_CovPk sigInfo = covPk)) (ud_CovenantSlashingSigs ud).
Definition ud_IsSignedByCovMember (ud : BTCUndelegation) (covPk : bytes) : bool :=
  IsSignedByCovMemberOnUnbonding ud covPk && IsSignedByCovMemberOnSlashing ud covPk.

(** [BTCUndelegation.addCovenantSigs] *)
Definition ud_addCovenantSigs (ud : BTCUndelegation) (covPk unbondingSig : bytes)
    (slashingSigs : list bytes) : BTCUndelegation :=
  mkUndel (ud_UnbondingTx ud) (ud_SlashingTx ud) (ud_DelegatorSlashingSig ud)
    (ud_CovenantSlashingSigs ud ++ [mkCovSigs covPk slashingSigs])
    (ud_CovenantUnbondingSigList ud ++ [mkSigInfo covPk unbondingSig])
    (ud_DelegatorUnbondingInfo ud).

(** [StakeExpansion.AddCovenantSigs] *)
Definition se_AddCovenantSigs (se : StakeExpansion) (covPk stkExpSig : bytes) : StakeExpansion :=
  mkStkExp (se_PreviousStakingTxHash se) (se_OtherFundingTxOut se)
    (se_PreviousStkCovenantSigs se ++ [mkSigInfo covPk stkExpSig]).

Definition AddCovenantSigs (d : BTCDelegation) (covPk : bytes)
    (stakingSlashingSigs : list bytes) (unbondingSig : bytes)
    (unbondingSlashingSigs : list bytes) (stkExpSig : bytes) : BTCDelegation :=
  mkDel (d_StakerAddr d) (d_BtcPk d) (d_Pop d) (d_FpBtcPkList d) (d_StakingTime d) (d_StartHeight d)
    (d_EndHeight d) (d_TotalSat d) (d_StakingTx d) (d_StakingOutputIdx d) (d_SlashingTx d) (d_DelegatorSig d)
    (d_CovenantSigs d ++ [mkCovSigs covPk stakingSlashingSigs])
    (d_UnbondingTime d)
    (ud_addCovenantSigs (d_BtcUndelegation d) covPk unbondingSig unbondingSlashingSigs)
    (d_ParamsVersion d) (d_BtcTipHeight d)
    ((λ se, se_AddCovenantSigs se covPk stkExpSig) <$> d_StkExp d).

Definition with_unbonding_info (d : BTCDelegation) (u : bytes) : BTCDelegation :=
  mkDel (d_StakerAddr d) (d_BtcPk d) (d_Pop d) (d_FpBtcPkList d) (d_StakingTime d) (d_StartHeight d)
    (d_EndHeight d) (d_TotalSat d) (d_StakingTx d) (d_StakingOutputIdx d) (d_SlashingTx d) (d_DelegatorSig d)
    (d_CovenantSigs d) (d_UnbondingTime d)
    (mkUndel (ud_UnbondingTx (d_BtcUndelegation d)) (ud_SlashingTx (d_BtcUndelegation d))
       (ud_DelegatorSlashingSig (d_BtcUndelegation d)) (ud_CovenantSlashingSigs (d_BtcUndelegation d))
       (ud_CovenantUnbondingSigList (d_BtcUndelegation d)) (Some u))
    (d_ParamsVersion d) (d_BtcTipHeight d) (d_StkExp d).
(** The heights that an inclusion proof gives. *)
Definition with_heights (d : BTCDelegation) (startHeight endHeight : Z) : BTCDelegation :=
  mkDel (d_StakerAddr d) (d_BtcPk d) (d_Pop d) (d_FpBtcPkList d) (d_StakingTime d) startHeight
    endHeight (d_TotalSat d) (d_StakingTx d) (d_StakingOutputIdx d) (d_SlashingTx d) (d_DelegatorSig d)
    (d_CovenantSigs d) (d_UnbondingTime d) (d_BtcUndelegation d) (d_ParamsVersion d) (d_BtcTipHeight d) (d_StkExp d).

(** ** The delegation store

    The Bitcoin library is abstract: [TxHash] decodes a serialised transaction
    and hashes it, [HashString] prints a hash and [NewHashFromStr] parses one. *)
Class BtcHashing := {
  TxHash : bytes → option bytes;
  HashString : bytes → string;
  NewHashFromStr : string → option bytes
}.

Section store.
Context {hashing : BtcHashing}.

Definition MustGetStakingTxHash (d : BTCDelegation) : outcome bytes :=
  match TxHash (d_StakingTx d) with Some h => Ok h | None => Panic (Errorf "NewBTCTxFromBytes") end.

(** [MustGetStakeExpansionTxHash().String()] of a stake expansion. *)
Definition StakeExpansionTxHashStr (se : StakeExpansion) : outcome string :=
  if bool_decide (length (se_PreviousStakingTxHash se) = 32%nat)
  then Ok (HashString (se_PreviousStakingTxHash se))
  else Panic (Errorf "chainhash.NewHash").

Definition setBTCDelegation (s : StakingState) (d : BTCDelegation) : outcome StakingState :=
  stakingTxHash ← MustGetStakingTxHash d;
  Ok (set_btcDelegations s (<[stakingTxHash := d]> (btcDelegations s))).

Definition GetBTCDelegation (s : StakingState) (stakingTxHashStr : string) : outcome BTCDelegation :=
  match NewHashFromStr stakingTxHashStr with
  | None => Err (Errorf "chainhash.NewHashFromStr")
  | Some stakingTxHash =>
    match btcDelegations s !! stakingTxHash with
    | None => Err ErrBTCDelegationNotFound
    | Some btcDel => Ok btcDel
    end
  end.

Definition GetParamsByVersion (s : StakingState) (v : Z) : option StakingParams := stakingParams s !! v.

Record btcDelegationWithParams := mkDelInfo {
  di_Delegation : BTCDelegation;
  di_Params : StakingParams;
  di_PrevDel : option BTCDelegation;
  di_PrevParams : option StakingParams
}.

(** The recursion follows the chain of stake expansions; [fuel] bounds its
    depth, and running out of it stands for the unbounded recursion of a cyclic
    chain. *)
Fixpoint getBTCDelWithParams_fuel (fuel : nat) (s : StakingState) (stakingTxHash : string)
    : outcome btcDelegationWithParams :=
  match fuel with
  | O => Panic (Errorf "stack overflow")
  | S fuel =>
    btcDel ← GetBTCDelegation s stakingTxHash;
    match GetParamsByVersion s (d_ParamsVersion btcDel) with
    | None => Err (Errorf "params version in BTC delegation is not found")
    | Some bsParams =>
      match d_StkExp btcDel with
      | None => Ok (mkDelInfo btcDel bsParams None None)
      | Some se =>
        prev ← StakeExpansionTxHashStr se;
        stkExpInfo ← wrapf "failed to get previous BTC delegation for stake expansion"
                       (getBTCDelWithParams_fuel fuel s prev);
        Ok (mkDelInfo btcDel bsParams (Some (di_Delegation stkExpInfo)) (Some (di_Params stkExpInfo)))
      end
    end
  end.

(** A chain without repetition is no longer than the store. *)
Definition getBTCDelWithParams (s : StakingState) (stakingTxHash : string)
    : outcome btcDelegationWithParams :=
  getBTCDelWithParams_fuel (S (size (btcDelegations s))) s stakingTxHash.

Definition quorumPreviousStk_of (s : StakingState) (d : BTCDelegation) : outcome Z :=
  match d_StkExp d with
  | None => Ok 0
  | Some se =>
    prev ← StakeExpansionTxHashStr se;
    delInfo ← getBTCDelWithParams s prev;
    Ok (sp_CovenantQuorum (di_Params delInfo))
  end.

Definition BtcDelStatus (s : StakingState) (d : BTCDelegation) (covenantQuorum btcTipHeight : Z)
    : outcome BTCDelegationStatus :=
  quorumPreviousStk ← quorumPreviousStk_of s d;
  Ok (GetStatus d btcTipHeight covenantQuorum quorumPreviousStk).

Definition BtcDelHasCovenantQuorums (s : StakingState) (d : BTCDelegation) (quorum : Z) : outcome bool :=
  quorumPreviousStk ← quorumPreviousStk_of s d;
  Ok (HasCovenantQuorums d quorum quorumPreviousStk).

Definition BtcDelStatusWithTip (btcTip : option Z) (delInfo : btcDelegationWithParams)
    : outcome (BTCDelegationStatus * Z) :=
  prevQuorum ← (if IsStakeExpansion (di_Delegation delInfo) then
                  match di_PrevParams delInfo with
                  | Some p => Ok (sp_CovenantQuorum p)
                  | None => Panic (Errorf "nil pointer dereference")
                  end
                else Ok 0);
  match btcTip with
  | None => Panic (Errorf "nil pointer dereference")
  | Some tip => Ok (GetStatus (di_Delegation delInfo) tip (sp_CovenantQuorum (di_Params delInfo)) prevQuorum, tip)
  end.

(** The covenant member's signatures are added; on the first quorum of a
    delegation with an inclusion proof the activation is queued. *)
Definition addCovenantSigsToBTCDelegation (s : StakingState) (delInfo : btcDelegationWithParams)
    (covPK : bytes) (slashingSigs : list bytes) (unbondingTxSig : bytes)
    (unbondingSlashingSigs : list bytes) (stakeExpansionTxSig : bytes) (btcTipHeight : Z)
    : outcome StakingState :=
  let btcDel := di_Delegation delInfo in
  let quorum := sp_CovenantQuorum (di_Params delInfo) in
  prevQuorum ← (if IsStakeExpansion btcDel then
                  match di_PrevParams delInfo with
                  | Some p => Ok (sp_CovenantQuorum p)
                  | None => Panic (Errorf "nil pointer dereference")
                  end
                else Ok 0);
  let hadQuorum := HasCovenantQuorums btcDel quorum prevQuorum in
  let btcDel := AddCovenantSigs btcDel covPK slashingSigs unbondingTxSig unbondingSlashingSigs
                  stakeExpansionTxSig in
  s ← setBTCDelegation s btcDel;
  if negb hadQuorum && HasCovenantQuorums btcDel quorum prevQuorum && HasInclusionProof btcDel then
    hash ← MustGetStakingTxHash btcDel;
    Ok (addPowerDistUpdateEvent s btcTipHeight (BtcDelStateUpdate (HashString hash) ACTIVE))
  else Ok s.

Definition btcUndelegate (btcTip : option Z) (s : StakingState) (btcDel : BTCDelegation) (u : bytes)
    : outcome StakingState :=
  let btcDel := with_unbonding_info btcDel u in
  s ← setBTCDelegation s btcDel;
  if negb (HasInclusionProof btcDel) then Ok s
  else hash ← MustGetStakingTxHash btcDel;
       match btcTip with
       | None => Panic (Errorf "nil pointer dereference")
       | Some tip => Ok (addPowerDistUpdateEvent s tip (BtcDelStateUpdate (HashString hash) UNBONDED))
       end.

(** Ensures that all finality providers are registered, not slashed and not
    deleted. *)
Fixpoint validateStakedFPs (s : StakingState) (fpBTCPKs : list bytes) : outcome unit :=
  match fpBTCPKs with
  | [] => Ok tt
  | fpBTCPK :: fpBTCPKs =>
    match GetFinalityProvider s fpBTCPK with
    | Ok fp =>
      if IsSlashed fp then Err ErrFpAlreadySlashed
      else if IsFinalityProviderDeleted s fpBTCPK then Err ErrFinalityProviderIsDeleted
      else validateStakedFPs s fpBTCPKs
    | _ => Err ErrFpNotFound
    end
  end.

(** ** Termination of the stake expansion lookup *)

(** One level of the lookup, with the recursive call abstracted. *)
Lemma getBTCDelWithParams_fuel_ext n m s str :
  (∀ d se h, GetBTCDelegation s str = Ok d → d_StkExp d = Some se →
     StakeExpansionTxHashStr se = Ok h →
     getBTCDelWithParams_fuel n s h = getBTCDelWithParams_fuel m s h) →
  getBTCDelWithParams_fuel (S n) s str = getBTCDelWithParams_fuel (S m) s str.
Proof using.
  intros H. simpl. destruct (GetBTCDelegation s str) as [d|e|e]; simpl; try done.
  destruct (GetParamsByVersion s (d_ParamsVersion d)); [|done].
  destruct (d_StkExp d) as [se|] eqn:Ese; [|done].
  destruct (StakeExpansionTxHashStr se) as [h|e|e] eqn:Eh; simpl; try done.
  by rewrite (H d se h).
Qed.

Section termination.
Context (rank : bytes → nat) (s : StakingState).
Context (HashString_parse : ∀ h, length h = 32%nat → NewHashFromStr (HashString h) = Some h).
Context (expansion_decreases : ∀ h d se, btcDelegations s !! h = Some d →
  d_StkExp d = Some se → (rank (se_PreviousStakingTxHash se) < rank h)%nat).

(** The stored delegations that can still be visited from a hash. *)
Definition below (h : bytes) : gset bytes :=
  filter (λ h', (rank h' ≤ rank h)%nat) (dom (btcDelegations s)).

Lemma below_shrinks h d se :
  btcDelegations s !! h = Some d → d_StkExp d = Some se →
  (size (below (se_PreviousStakingTxHash se)) < size (below h))%nat.
Proof using expansion_decreases.
  intros Hd Hse. pose proof (expansion_decreases _ _ _ Hd Hse) as Hlt.
  apply subset_size. split.
  - intros x. unfold below. rewrite !elem_of_filter. intros [? ?]. split; [lia|done].
  - intros Hsub. specialize (Hsub h). unfold below in Hsub. rewrite !elem_of_filter in Hsub.
    assert (h ∈ dom (btcDelegations s)) by (apply elem_of_dom; eauto).
    destruct Hsub as [? _]; [split; [lia|done]|lia].
Qed.

Lemma getBTCDelWithParams_fuel_enough n m str h :
  NewHashFromStr str = Some h → (size (below h) < n)%nat → (n ≤ m)%nat →
  getBTCDelWithParams_fuel n s str = getBTCDelWithParams_fuel m s str.
Proof using HashString_parse expansion_decreases.
  revert m str h. induction n as [|n IH]; intros m str h Hstr Hn Hm; [lia|].
  destruct m as [|m]; [lia|]. apply getBTCDelWithParams_fuel_ext.
  intros d se str' Hd Hse Hstr'. unfold GetBTCDelegation in Hd. rewrite Hstr in Hd.
  destruct (btcDelegations s !! h) as [d'|] eqn:Hl; [|done]. injection Hd as ->.
  unfold StakeExpansionTxHashStr in Hstr'. case_bool_decide as Hlen; [|done].
  injection Hstr' as <-. pose proof (below_shrinks _ _ _ Hl Hse).
  eapply IH; [by apply HashString_parse|lia|lia].
Qed.

Lemma getBTCDelWithParams_fuel_no_overflow n str h :
  NewHashFromStr str = Some h → (size (below h) < n)%nat →
  getBTCDelWithParams_fuel n s str ≠ Panic (Errorf "stack overflow").
Proof using HashString_parse expansion_decreases.
  revert str h. induction n as [|n IH]; intros str h Hstr Hn; [lia|].
  simpl. unfold GetBTCDelegation. rewrite Hstr.
  destruct (btcDelegations s !! h) as [d|] eqn:Hl; simpl; [|done].
  destruct (GetParamsByVersion s (d_ParamsVersion d)); [|done].
  destruct (d_StkExp d) as [se|] eqn:Hse; [|done].
  unfold StakeExpansionTxHashStr. case_bool_decide as Hlen; simpl; [|done].
  pose proof (below_shrinks _ _ _ Hl Hse).
  specialize (IH (HashString (se_PreviousStakingTxHash se)) (se_PreviousStakingTxHash se)).
  destruct (getBTCDelWithParams_fuel n s _) as [r|e|e]; simpl; try done.
  intros E. apply IH; [by apply HashString_parse|lia|done].
Qed.

End termination.

(** The recursive lookup of a stake expansion's previous delegations
    terminates: when each expansion refers to a delegation of lower rank (its
    staking transaction spends an earlier one) and hashes survive printing and
    parsing, the lookup never exhausts its recursion, and more recursion gives
    the same result. *)
Theorem getBTCDelWithParams_terminates (rank : bytes → nat) s str n :
  (∀ h, length h = 32%nat → NewHashFromStr (HashString h) = Some h) →
  (∀ h d se, btcDelegations s !! h = Some d → d_StkExp d = Some se →
     (rank (se_PreviousStakingTxHash se) < rank h)%nat) →
  (size (btcDelegations s) < n)%nat →
  getBTCDelWithParams s str ≠ Panic (Errorf "stack overflow") ∧
  getBTCDelWithParams_fuel n s str = getBTCDelWithParams s str.
Proof using.
  intros Hparse Hrank Hn. unfold getBTCDelWithParams.
  destruct (NewHashFromStr str) as [h|] eqn:Hstr.
  - assert (size (below rank s h) ≤ size (btcDelegations s))%nat as Hle.
    { rewrite <- size_dom. apply subseteq_size. intros x. unfold below.
      rewrite elem_of_filter. by intros [_ ?]. }
    split; [eapply getBTCDelWithParams_fuel_no_overflow; eauto; lia|].
    symmetry. eapply getBTCDelWithParams_fuel_enough; eauto; lia.
  - destruct n as [|n]; [lia|]. simpl. unfold GetBTCDelegation. by rewrite Hstr.
Qed.

End store.

(** ** Lemmas on the status *)

(** The voting power of a BTC delegation. For heights where [uint32]
    arithmetic does not wrap, a delegation has voting power exactly when it has
    all covenant quorums and an inclusion proof, the staker has not unbonded,
    and the BTC height lies in [[StartHeight, EndHeight - UnbondingTime)]; the
    power is then its whole amount. The right end of the interval is the BTC
    height at which the module queues the expiry event. *)
Theorem VotingPower_window d h q qprev :
  0 ≤ h → 0 ≤ d_UnbondingTime d → h + d_UnbondingTime d < 2 ^ 32 →
  VotingPower d h q qprev =
    if HasCovenantQuorums d q qprev && HasInclusionProof d && negb (IsUnbondedEarly d) &&
       (d_StartHeight d <=? h) && (h <? d_EndHeight d - d_UnbondingTime d)
    then d_TotalSat d else 0.
Proof.
  intros Hh Hu Hw. unfold VotingPower, GetStatus. rewrite u32_small by (unfold in_u32; lia).
  destruct (IsUnbondedEarly d), (HasCovenantQuorums d q qprev), (HasInclusionProof d); simpl;
    try done.
  destruct (Z.ltb_spec h (d_StartHeight d)), (Z.leb_spec (d_StartHeight d) h);
    simpl; try done; try lia.
  destruct (Z.leb_spec (d_EndHeight d) (h + d_UnbondingTime d)),
    (Z.ltb_spec h (d_EndHeight d - d_UnbondingTime d)); simpl; try done; lia.
Qed.

(** Life cycle of the status. As the BTC height grows (without wrapping) and
    nothing else changes, a delegation whose staking transaction is included
    never becomes active again once expired, and once active it only goes to
    expired; unbonding early is final at every height. *)
Theorem GetStatus_monotone d h h' q qprev :
  0 ≤ h → h ≤ h' → 0 ≤ d_UnbondingTime d → h' + d_UnbondingTime d < 2 ^ 32 →
  (GetStatus d h q qprev = EXPIRED → GetStatus d h' q qprev = EXPIRED) ∧
  (GetStatus d h q qprev = ACTIVE →
     GetStatus d h' q qprev = ACTIVE ∨ GetStatus d h' q qprev = EXPIRED) ∧
  (IsUnbondedEarly d = true → GetStatus d h' q qprev = UNBONDED).
Proof.
  intros Hh Hle Hu Hw. unfold GetStatus. rewrite !u32_small by (unfold in_u32; lia).
  destruct (IsUnbondedEarly d), (HasCovenantQuorums d q qprev), (HasInclusionProof d); simpl;
    try (split_and!; intros; done).
  destruct (Z.ltb_spec h (d_StartHeight d)), (Z.ltb_spec h' (d_StartHeight d)); try lia;
    destruct (Z.leb_spec (d_EndHeight d) (h + d_UnbondingTime d)),
      (Z.leb_spec (d_EndHeight d) (h' + d_UnbondingTime d)); try lia;
    split_and!; intros; auto; done.
Qed.

(** ** Witnesses *)

Definition example_del (fps : list bytes) (tx : bytes) (prev : option bytes) : BTCDelegation :=
  mkDel "bbn1del" [] (mkPopBTC BIP340 []) fps 1000 100 1100 50000 tx 0 [] [] [mkCovSigs [] []] 50
    (mkUndel [] [] [] [mkCovSigs [] []] [mkSigInfo [] []] None) 0 0
    ((λ h, mkStkExp h [] [mkSigInfo [] []]) <$> prev).

Lemma VotingPower_window_witness :
  VotingPower (example_del [] [] None) 1049 1 0 = 50000 ∧
  VotingPower (example_del [] [] None) 1050 1 0 = 0.
Proof.
  split; (rewrite VotingPower_window; [reflexivity|simpl; lia..]).
Defined.

Lemma GetStatus_monotone_witness :
  GetStatus (example_del [] [] None) 1050 1 0 = EXPIRED ∧
  GetStatus (example_del [] [] None) 1051 1 0 = EXPIRED.
Proof.
  split; [reflexivity|].
  apply (GetStatus_monotone (example_del [] [] None) 1050 1051 1 0); simpl; [lia..|reflexivity].
Defined.

(** Hashes printed as their hexadecimal encoding; a transaction is its hash. *)
Definition example_hashing : BtcHashing :=
  {| TxHash tx := Some tx; HashString := hex_encode; NewHashFromStr := hex_decode |}.

Definition example_hash1 : bytes := replicate 32 "001"%byte.
Definition example_hash2 : bytes := replicate 32 "002"%byte.
Definition example_params : StakingParams := mkStakingParams [] 1 0 0 0 0 [] 0 0 50 0 0 0 0 0.
Definition example_expansion : StakingState :=
  mkStaking ∅ ∅ ∅ ∅ ∅
    (<[example_hash2 := example_del [] example_hash2 (Some example_hash1)]>
       {[example_hash1 := example_del [] example_hash1 None]})
    {[0 := example_params]} None None ∅ ∅.

Lemma getBTCDelWithParams_terminates_witness :
  @getBTCDelWithParams example_hashing example_expansion (hex_encode example_hash2) =
  Ok (mkDelInfo (example_del [] example_hash2 (Some example_hash1)) example_params
       (Some (example_del [] example_hash1 None)) (Some example_params)).
Proof.
  pose (rank := λ h : bytes, if decide (h = example_hash2) then 1%nat else 0%nat).
  pose proof (@getBTCDelWithParams_terminates example_hashing rank example_expansion
    (hex_encode example_hash2) 5%nat) as H.
  destruct H as [_ H].
  - intros h _. apply hex_decode_encode.
  - intros h d se Hd Hse. simpl in Hd. apply lookup_insert_Some in Hd as [[<- <-]|[Hne Hd]].
    + injection Hse as <-. vm_compute. repeat constructor.
    + apply lookup_singleton_Some in Hd as [<- <-]. discriminate Hse.
  - vm_compute. repeat constructor.
  - rewrite <- H. vm_compute. reflexivity.
Defined.
