(* ===== verification/FinalityTypes.v ===== *)
(** * x/finality/types: data of the finality module

    Indexed blocks, public randomness commitments, evidence, signing
    information, parameters, messages, and the pure functions on them. *)

From S2P Require Import Prelude Bytes Store BbnTypes BtcStaking.

(** ** Data *)

Record IndexedBlock := mkBlock { ib_Height : Z; ib_AppHash : bytes; ib_Finalized : bool }.

Record PubRandCommit := mkPubRandCommit {
  prc_StartHeight : Z;
  prc_NumPubRand : Z;
  prc_Commitment : bytes;
  prc_EpochNum : Z
}.

(** Pointer fields are options, [None] being [nil]. *)
Record Evidence := mkEvidence {
  ev_FpBtcPk : option bytes;
  ev_BlockHeight : Z;
  ev_PubRand : option bytes;
  ev_CanonicalAppHash : bytes;
  ev_ForkAppHash : bytes;
  ev_CanonicalFinalitySig : option bytes;
  ev_ForkFinalitySig : option bytes
}.

Record FinalityProviderSigningInfo := mkSigningInfo {
  fsi_FpBtcPk : bytes;
  fsi_StartHeight : Z;
  fsi_MissedBlocksCounter : Z;
  fsi_JailedUntil : Z          (* nanoseconds since the Unix epoch *)
}.

Record FinalityParams := mkFinalityParams {
  MaxActiveFinalityProviders : Z;
  SignedBlocksWindow : Z;
  FinalitySigTimeout : Z;
  MinSignedPerWindow : Z;      (* a LegacyDec *)
  MinPubRand : Z;
  JailDuration : Z;            (* nanoseconds *)
  FinalityActivationHeight : Z
}.

(** The Merkle proof of [cometbft/crypto]; its [Aunts] are carried along. *)
Record Proof := mkProof { pf_Total : Z; pf_Index : Z; pf_LeafHash : bytes; pf_Aunts : list bytes }.

Record MsgAddFinalitySig := mkMsgAddFinalitySig {
  mas_Signer : string;
  mas_FpBtcPk : option bytes;
  mas_BlockHeight : Z;
  mas_PubRand : option bytes;
  mas_Proof : option Proof;
  mas_BlockAppHash : bytes;
  mas_FinalitySig : option bytes
}.

Record MsgCommitPubRandList := mkMsgCommitPubRandList {
  mcp_Signer : string;
  mcp_FpBtcPk : option bytes;
  mcp_StartHeight : Z;
  mcp_NumPubRand : Z;
  mcp_Commitment : bytes;
  mcp_Sig : option bytes
}.

Definition MaxFinalizedRewardedBlocksPerEndBlock : Z := 10000.
Definition MaxPubRandCommitOffset : Z := 160000.
Definition MissedBlockBitmapChunkSize : Z := 1024.
Definition ExpectedCommitmentLengthBytes : nat := 32.

(** ** Public randomness commitments *)

Definition EndHeight (c : PubRandCommit) : Z :=
  u64 (u64 (prc_StartHeight c + prc_NumPubRand c) - 1).

Definition IsInRange (c : PubRandCommit) (height : Z) : bool :=
  (prc_StartHeight c <=? height) && (height <=? EndHeight c).

Definition GetIndex (c : PubRandCommit) (height : Z) : outcome Z :=
  if (prc_StartHeight c <=? height) && (height <=? EndHeight c)
  then Ok (height - prc_StartHeight c) else Err ErrPubRandNotFound.

Definition PubRandCommit_Validate (c : PubRandCommit) : outcome unit :=
  if bool_decide (prc_Commitment c = []) then Err ErrInvalidPubRandCommit else Ok tt.

(** ** Blocks and evidence *)

(** The EOTS signature on a block is over (blockHeight || blockHash). *)
Definition msgToSignForVote (blockHeight : Z) (blockHash : bytes) : bytes :=
  Uint64ToBigEndian blockHeight ++ blockHash.

Definition IndexedBlock_Equal (ib ib2 : IndexedBlock) : bool :=
  bool_decide (ib_AppHash ib = ib_AppHash ib2) && (ib_Height ib =? ib_Height ib2).

Definition IndexedBlock_Validate (ib : IndexedBlock) : outcome unit :=
  if (0 <? ib_Height ib) && bool_decide (ib_AppHash ib = [])
  then Err (Errorf "invalid indexed block. Empty app hash") else Ok tt.

Definition canonicalMsgToSign (e : Evidence) : bytes :=
  msgToSignForVote (ev_BlockHeight e) (ev_CanonicalAppHash e).
Definition forkMsgToSign (e : Evidence) : bytes :=
  msgToSignForVote (ev_BlockHeight e) (ev_ForkAppHash e).

(** [ToBTCPK] is the BIP-340 key parser of [btcec]. *)
Definition Evidence_ValidateBasic {PK} (ToBTCPK : bytes → option PK) (e : Evidence) : outcome unit :=
  match ev_FpBtcPk e with
  | None => Err (Errorf "empty FpBtcPk")
  | Some pk =>
    match ToBTCPK pk with
    | None => Err (Errorf "ParsePubKey")
    | Some _ =>
      if bool_decide (ev_PubRand e = None) then Err (Errorf "empty PubRand")
      else if bool_decide (length (ev_CanonicalAppHash e) ≠ 32%nat) then Err (Errorf "malformed CanonicalAppHash")
      else if bool_decide (length (ev_ForkAppHash e) ≠ 32%nat) then Err (Errorf "malformed ForkAppHash")
      else match ev_ForkFinalitySig e with
      | None => Err (Errorf "empty ForkFinalitySig")
      | Some sig => if bool_decide (length sig ≠ SchnorrEOTSSigLen)
                    then Err (Errorf "malformed ForkFinalitySig") else Ok tt
      end
    end
  end.

Definition IsSlashable {PK} (ToBTCPK : bytes → option PK) (e : Evidence) : bool :=
  is_ok (Evidence_ValidateBasic ToBTCPK e) &&
  match ev_CanonicalFinalitySig e with Some _ => true | None => false end.

Definition set_canonical_sig (e : Evidence) (sig : option bytes) : Evidence :=
  mkEvidence (ev_FpBtcPk e) (ev_BlockHeight e) (ev_PubRand e) (ev_CanonicalAppHash e)
    (ev_ForkAppHash e) sig (ev_ForkFinalitySig e).

(** ** Signing information *)

(** The zero [time.Time], 1 January of year 1. *)
Definition zero_time : Z := -62135596800 * 10 ^ 9.

Definition NewFinalityProviderSigningInfo (fpPk : bytes) (startHeight missedBlocksCounter : Z)
    : FinalityProviderSigningInfo := mkSigningInfo fpPk startHeight missedBlocksCounter 0.

Definition IsJailingPeriodPassed (si : FinalityProviderSigningInfo) (curBlockTime : Z) : outcome bool :=
  if fsi_JailedUntil si =? zero_time then Err ErrFpNotJailed
  else Ok (fsi_JailedUntil si <? curBlockTime).

Definition with_counter (si : FinalityProviderSigningInfo) (c : Z) : FinalityProviderSigningInfo :=
  mkSigningInfo (fsi_FpBtcPk si) (fsi_StartHeight si) c (fsi_JailedUntil si).
Definition with_jailed_until (si : FinalityProviderSigningInfo) (t : Z) : FinalityProviderSigningInfo :=
  mkSigningInfo (fsi_FpBtcPk si) (fsi_StartHeight si) (fsi_MissedBlocksCounter si) t.
Definition with_start_height (si : FinalityProviderSigningInfo) (h : Z) : FinalityProviderSigningInfo :=
  mkSigningInfo (fsi_FpBtcPk si) h (fsi_MissedBlocksCounter si) (fsi_JailedUntil si).

Definition IncrementMissedBlocksCounter (si : FinalityProviderSigningInfo) :=
  with_counter si (i64 (fsi_MissedBlocksCounter si + 1)).
Definition DecrementMissedBlocksCounter (si : FinalityProviderSigningInfo) :=
  with_counter si (i64 (fsi_MissedBlocksCounter si - 1)).
Definition ResetMissedBlocksCounter (si : FinalityProviderSigningInfo) := with_counter si 0.

Definition SigningInfo_Validate (si : FinalityProviderSigningInfo) : outcome unit :=
  if bool_decide (length (fsi_FpBtcPk si) ≠ BIP340PubKeyLen)
  then Err (Errorf "finality provider BTC public key length")
  else if fsi_StartHeight si <? 0 then Err (Errorf "invalid start height")
  else if fsi_MissedBlocksCounter si <? 0 then Err (Errorf "invalid missed blocks counter")
  else Ok tt.

(** ** Parameters *)

(** [RoundInt64] of [LegacyDec], documented to round to the nearest integer. *)
Class DecRounding := {
  RoundInt64 : Z → Z;
  RoundInt64_nearest : ∀ d, 2 * Z.abs (RoundInt64 d * DecOne - d) ≤ DecOne
}.

Definition DefaultFinalityParams : FinalityParams :=
  mkFinalityParams 100 100 3 (5 * 10 ^ 17) 100 (24 * 60 * 60 * 10 ^ 9) 1.

Definition FinalityParams_Validate (p : FinalityParams) : outcome unit :=
  if MaxActiveFinalityProviders p =? 0 then Err (Errorf "max finality providers must be positive")
  else if SignedBlocksWindow p <=? 0 then Err (Errorf "signed blocks window must be positive")
  else if FinalitySigTimeout p <=? 0 then Err (Errorf "finality vote delay must be positive")
  else if MinSignedPerWindow p <? 0 then Err (Errorf "min signed per window cannot be negative")
  else if DecOne <? MinSignedPerWindow p then Err (Errorf "min signed per window too large")
  else if MinPubRand p =? 0 then Err (Errorf "min Pub Rand cannot be 0")
  else Ok tt.

Definition MinSignedPerWindowInt `{!DecRounding} (p : FinalityParams) : Z :=
  RoundInt64 (MinSignedPerWindow p * SignedBlocksWindow p).

(** ** Stateless message checks *)

Definition MsgAddFinalitySig_ValidateBasic (AccAddressFromBech32 : string → option bytes)
    (m : MsgAddFinalitySig) : outcome unit :=
  if bool_decide (AccAddressFromBech32 (mas_Signer m) = None) then Err ErrInvalidAddress
  else match mas_FpBtcPk m with
  | None => Err ErrInvalidFinalitySig
  | Some pk =>
    if bool_decide (length pk ≠ BIP340PubKeyLen) then Err ErrInvalidFinalitySig
    else match mas_PubRand m with
    | None => Err ErrInvalidFinalitySig
    | Some pr =>
      if bool_decide (length pr ≠ SchnorrPubRandLen) then Err ErrInvalidFinalitySig
      else match mas_Proof m with
      | None => Err ErrInvalidFinalitySig
      | Some _ =>
        match mas_FinalitySig m with
        | None => Err ErrInvalidFinalitySig
        | Some sig =>
          if bool_decide (length sig ≠ SchnorrEOTSSigLen) then Err ErrInvalidFinalitySig
          else if bool_decide (length (mas_BlockAppHash m) ≠ 32%nat) then Err ErrInvalidFinalitySig
          else Ok tt
        end
      end
    end
  end.

Definition MsgCommitPubRandList_ValidateBasic (AccAddressFromBech32 : string → option bytes)
    (m : MsgCommitPubRandList) : outcome unit :=
  if bool_decide (AccAddressFromBech32 (mcp_Signer m) = None) then Err ErrInvalidAddress
  else if bool_decide (length (mcp_Commitment m) ≠ ExpectedCommitmentLengthBytes)
  then Err ErrInvalidPubRand
  else if u64 (mcp_StartHeight m + mcp_NumPubRand m) <=? mcp_StartHeight m
  then Err ErrOverflowInBlockHeight
  else Ok tt.

Fixpoint ResumeFinality_check_fps (fps : gset string) (fpPksHex : list string) : outcome unit :=
  match fpPksHex with
  | [] => Ok tt
  | fpPkHex :: rest =>
    match NewBIP340PubKeyFromHex fpPkHex with
    | Ok _ => if bool_decide (fpPkHex ∈ fps) then Err ErrInvalidResumeFinality
              else ResumeFinality_check_fps ({[fpPkHex]} ∪ fps) rest
    | _ => Err ErrInvalidResumeFinality
    end
  end.

Definition MsgResumeFinalityProposal_ValidateBasic (AccAddressFromBech32 : string → option bytes)
    (authority : string) (fpPksHex : list string) (haltingHeight : Z) : outcome unit :=
  if bool_decide (AccAddressFromBech32 authority = None) then Err ErrInvalidAddress
  else if haltingHeight =? 0 then Err ErrInvalidResumeFinality
  else if bool_decide (fpPksHex = []) then Err ErrInvalidResumeFinality
  else ResumeFinality_check_fps ∅ fpPksHex.

(** ** Lemmas *)

Lemma Evidence_ValidateBasic_canonical_sig {PK} (ToBTCPK : bytes → option PK) e sig :
  Evidence_ValidateBasic ToBTCPK (set_canonical_sig e sig) = Evidence_ValidateBasic ToBTCPK e.
Proof. done. Qed.

Lemma FinalityParams_Validate_Ok p :
  FinalityParams_Validate p = Ok tt ↔
  MaxActiveFinalityProviders p ≠ 0 ∧ 0 < SignedBlocksWindow p ∧ 0 < FinalitySigTimeout p ∧
  0 ≤ MinSignedPerWindow p ≤ DecOne ∧ MinPubRand p ≠ 0.
Proof.
  unfold FinalityParams_Validate. split.
  - intros H. inv_ok H. lia.
  - intros (? & ? & ? & ? & ?). repeat (case_match; try lia). done.
Qed.

Lemma MinSignedPerWindowInt_range `{!DecRounding} p :
  FinalityParams_Validate p = Ok tt →
  0 ≤ MinSignedPerWindowInt p ≤ SignedBlocksWindow p.
Proof.
  rewrite FinalityParams_Validate_Ok. intros (_ & Hw & _ & Hm & _).
  unfold MinSignedPerWindowInt.
  pose proof (RoundInt64_nearest (MinSignedPerWindow p * SignedBlocksWindow p)) as Hr.
  set (r := RoundInt64 _) in *. assert (0 < DecOne) by (unfold DecOne; lia).
  assert (MinSignedPerWindow p * SignedBlocksWindow p ≤ DecOne * SignedBlocksWindow p) by nia.
  assert (0 ≤ MinSignedPerWindow p * SignedBlocksWindow p) by nia.
  split; nia.
Qed.

Lemma msgToSignForVote_inj h1 b1 h2 b2 :
  in_u64 h1 → in_u64 h2 → msgToSignForVote h1 b1 = msgToSignForVote h2 b2 → h1 = h2 ∧ b1 = b2.
Proof.
  intros H1 H2 E. unfold msgToSignForVote in E.
  apply app_inj_1 in E as [E ->]; [|by unfold Uint64ToBigEndian; rewrite !be_bytes_length].
  split; [|done]. by apply Uint64ToBigEndian_inj.
Qed.

(** A commitment that passed the stateless checks covers heights without
    wrapping. *)
Definition commit_wf (c : PubRandCommit) : Prop :=
  0 ≤ prc_StartHeight c ∧ 0 < prc_NumPubRand c ∧ prc_StartHeight c + prc_NumPubRand c < 2 ^ 64.

Lemma EndHeight_wf c : commit_wf c → EndHeight c = prc_StartHeight c + prc_NumPubRand c - 1.
Proof.
  intros (H1 & H2 & H3). unfold EndHeight. rewrite (u64_small (_ + _)) by (unfold in_u64; lia).
  rewrite u64_small; unfold in_u64; lia.
Qed.

Lemma IsInRange_wf c h :
  commit_wf c →
  IsInRange c h = true ↔ prc_StartHeight c ≤ h < prc_StartHeight c + prc_NumPubRand c.
Proof. intros Hc. unfold IsInRange. rewrite EndHeight_wf by done. lia. Qed.

Lemma MsgCommitPubRandList_no_overflow parse m :
  in_u64 (mcp_StartHeight m) → in_u64 (mcp_NumPubRand m) →
  MsgCommitPubRandList_ValidateBasic parse m = Ok tt →
  0 < mcp_NumPubRand m ∧ mcp_StartHeight m + mcp_NumPubRand m < 2 ^ 64.
Proof.
  unfold in_u64. intros H1 H2 H. unfold MsgCommitPubRandList_ValidateBasic in H. inv_ok H.
  apply Z.leb_gt in E1. unfold u64 in E1.
  destruct (Z.lt_ge_cases (mcp_StartHeight m + mcp_NumPubRand m) (2 ^ 64)).
  - rewrite Z.mod_small in E1 by lia. lia.
  - rewrite <- (Z.mod_unique _ (2 ^ 64) 1 (mcp_StartHeight m + mcp_NumPubRand m - 2 ^ 64)) in E1; lia.
Qed.
