(* ===== verification/PowerTable.v ===== *)
(** * x/finality/types/power_table.go: the voting power distribution cache

    The list of finality providers with their bonded satoshis, its order, the
    selection of the active set, and the comparison of consecutive caches. *)

From S2P Require Import Prelude Bytes Store BbnTypes BtcStaking FinalityTypes.

Record FinalityProviderDistInfo := mkDistInfo {
  di_BtcPk : bytes;
  di_Addr : bytes;
  di_Commission : option Z;
  di_TotalBondedSat : Z;
  di_IsTimestamped : bool;
  di_IsJailed : bool;
  di_IsSlashed : bool
}.

Record VotingPowerDistCache := mkDistCache {
  dc_TotalVotingPower : Z;
  dc_FinalityProviders : list FinalityProviderDistInfo;
  dc_NumActiveFps : Z
}.

Definition NewVotingPowerDistCache : VotingPowerDistCache := mkDistCache 0 [] 0.

Definition AddFinalityProviderDistInfo (dc : VotingPowerDistCache) (v : FinalityProviderDistInfo)
    : VotingPowerDistCache :=
  mkDistCache (dc_TotalVotingPower dc) (dc_FinalityProviders dc ++ [v]) (dc_NumActiveFps dc).

Definition NewVotingPowerDistCacheWithFinalityProviders (fps : list FinalityProviderDistInfo)
    : VotingPowerDistCache :=
  foldl AddFinalityProviderDistInfo NewVotingPowerDistCache fps.

Definition dc_Empty (dc : VotingPowerDistCache) : bool :=
  bool_decide (length (dc_FinalityProviders dc) = 0%nat).

Definition di_hex (fp : FinalityProviderDistInfo) : string := MarshalHex (di_BtcPk fp).

(** ** Order *)

Definition shouldBeZeroed (fp : FinalityProviderDistInfo) : bool :=
  di_IsJailed fp || negb (di_IsTimestamped fp) || di_IsSlashed fp.

Definition distInfo_less (fi fj : FinalityProviderDistInfo) : bool :=
  if shouldBeZeroed fi && negb (shouldBeZeroed fj) then false
  else if negb (shouldBeZeroed fi) && shouldBeZeroed fj then true
  else if shouldBeZeroed fi && shouldBeZeroed fj then string_less (di_hex fi) (di_hex fj)
  else if di_TotalBondedSat fi =? di_TotalBondedSat fj then string_less (di_hex fi) (di_hex fj)
  else di_TotalBondedSat fj <? di_TotalBondedSat fi.

Definition SortFinalityProvidersWithZeroedVotingPower (fps : list FinalityProviderDistInfo)
    : list FinalityProviderDistInfo := sort_stable distInfo_less fps.

(** ** The active set *)

(** The loop of [ApplyActiveFinalityProviders] over the sorted providers, with
    its two counters. *)
Fixpoint countActive (maxActiveFPs : Z) (fps : list FinalityProviderDistInfo)
    (numActiveFPs totalVotingPower : Z) : Z * Z :=
  match fps with
  | [] => (numActiveFPs, totalVotingPower)
  | fp :: fps =>
    if numActiveFPs =? maxActiveFPs then (numActiveFPs, totalVotingPower)
    else if di_TotalBondedSat fp =? 0 then (numActiveFPs, totalVotingPower)
    else if negb (di_IsTimestamped fp) then (numActiveFPs, totalVotingPower)
    else if di_IsJailed fp then (numActiveFPs, totalVotingPower)
    else if di_IsSlashed fp then (numActiveFPs, totalVotingPower)
    else countActive maxActiveFPs fps (u32 (numActiveFPs + 1))
           (u64 (totalVotingPower + di_TotalBondedSat fp))
  end.

Definition ApplyActiveFinalityProviders (dc : VotingPowerDistCache) (maxActiveFPs : Z)
    : VotingPowerDistCache :=
  let fps := SortFinalityProvidersWithZeroedVotingPower (dc_FinalityProviders dc) in
  let '(numActiveFPs, totalVotingPower) := countActive maxActiveFPs fps 0 0 in
  mkDistCache totalVotingPower fps numActiveFPs.

(** [dc.FinalityProviders[:dc.NumActiveFps]], for a count within the slice. *)
Definition activeFps (dc : VotingPowerDistCache) : list FinalityProviderDistInfo :=
  take (Z.to_nat (dc_NumActiveFps dc)) (dc_FinalityProviders dc).
Definition inactiveFps (dc : VotingPowerDistCache) : list FinalityProviderDistInfo :=
  drop (Z.to_nat (dc_NumActiveFps dc)) (dc_FinalityProviders dc).

(** A map from key to provider filled in list order. *)
Definition distInfoMap (fps : list FinalityProviderDistInfo) : gmap string FinalityProviderDistInfo :=
  foldl (λ m fp, <[di_hex fp := fp]> m) ∅ fps.

Definition GetActiveFinalityProviderSet (dc : VotingPowerDistCache)
    : gmap string FinalityProviderDistInfo := distInfoMap (activeFps dc).

Definition GetInactiveFinalityProviderSet (dc : VotingPowerDistCache)
    : gmap string FinalityProviderDistInfo :=
  if Z.of_nat (length (dc_FinalityProviders dc)) <=? dc_NumActiveFps dc then ∅
  else distInfoMap (inactiveFps dc).

Definition ActiveFpsByBtcPk (dc : VotingPowerDistCache) : gset string :=
  foldl (λ m fp, {[di_hex fp]} ∪ m) ∅ (activeFps dc).

(** The Go maps are ranged over in an arbitrary order; the final sort by key
    fixes the result. *)
Definition sortByPk (fps : list FinalityProviderDistInfo) : list FinalityProviderDistInfo :=
  sort_stable (λ a b, string_less (di_hex a) (di_hex b)) fps.

Definition newIn (m prev : gmap string FinalityProviderDistInfo) : list FinalityProviderDistInfo :=
  (map_to_list (filter (λ kv : string * FinalityProviderDistInfo, prev !! kv.1 = None) m)).*2.

Definition FindNewActiveFinalityProviders (dc prevDc : VotingPowerDistCache)
    : list FinalityProviderDistInfo :=
  sortByPk (newIn (GetActiveFinalityProviderSet dc) (GetActiveFinalityProviderSet prevDc)).

Definition FindNewInactiveFinalityProviders (dc prevDc : VotingPowerDistCache)
    : list FinalityProviderDistInfo :=
  let newInactive := newIn (GetInactiveFinalityProviderSet dc) (GetInactiveFinalityProviderSet prevDc) in
  let currFps := distInfoMap (dc_FinalityProviders dc) in
  let gone := newIn (GetActiveFinalityProviderSet prevDc) currFps in
  sortByPk (newInactive ++ gone).

(** ** Provider entries *)

(** [MustAccAddressFromBech32] is the SDK's parser; it panics on a bad address. *)
Definition NewFinalityProviderDistInfo (AccAddressFromBech32 : string → option bytes)
    (fp : FinalityProvider) : outcome FinalityProviderDistInfo :=
  match AccAddressFromBech32 (fp_Addr fp) with
  | None => Panic (Errorf "MustAccAddressFromBech32")
  | Some addr => Ok (mkDistInfo (fp_BtcPk fp) addr (fp_Commission fp) 0 false (fp_Jailed fp) (IsSlashed fp))
  end.

Definition with_sats (v : FinalityProviderDistInfo) (sats : Z) : FinalityProviderDistInfo :=
  mkDistInfo (di_BtcPk v) (di_Addr v) (di_Commission v) sats
    (di_IsTimestamped v) (di_IsJailed v) (di_IsSlashed v).
Definition with_flags (v : FinalityProviderDistInfo) (timestamped jailed slashed : bool)
    : FinalityProviderDistInfo :=
  mkDistInfo (di_BtcPk v) (di_Addr v) (di_Commission v) (di_TotalBondedSat v)
    timestamped jailed slashed.
Definition with_di_commission (v : FinalityProviderDistInfo) (c : option Z) : FinalityProviderDistInfo :=
  mkDistInfo (di_BtcPk v) (di_Addr v) c (di_TotalBondedSat v)
    (di_IsTimestamped v) (di_IsJailed v) (di_IsSlashed v).

Definition AddBondedSats (v : FinalityProviderDistInfo) (sats : Z) : FinalityProviderDistInfo :=
  with_sats v (u64 (di_TotalBondedSat v + sats)).

Definition RemoveBondedSats (v : FinalityProviderDistInfo) (sats : Z)
    : outcome FinalityProviderDistInfo :=
  if di_TotalBondedSat v <? sats then Err ErrInvalidSats
  else Ok (with_sats v (u64 (di_TotalBondedSat v - sats))).

(** [-val] of the minimal [int64] is itself. *)
Definition abs (val : Z) : Z := if val <? 0 then i64 (- val) else val.

Definition ChangeDeltaSats (v : FinalityProviderDistInfo) (fpDeltaSats : Z)
    : outcome FinalityProviderDistInfo :=
  if 0 <? fpDeltaSats then Ok (AddBondedSats v (u64 fpDeltaSats))
  else if fpDeltaSats <? 0 then RemoveBondedSats v (u64 (abs fpDeltaSats))
  else Ok v.

(** [AddrRoundTrips] tells whether the SDK parses the bech32 form of an address;
    it rejects the empty one. *)
Definition DistInfo_Validate (AddrRoundTrips : bytes → bool) (v : FinalityProviderDistInfo) : outcome unit :=
  if bool_decide (length (di_BtcPk v) ≠ BIP340PubKeyLen)
  then Err (Errorf "invalid fp dist info. finality provider BTC public key length")
  else if bool_decide (di_Addr v = []) then Err (Errorf "invalid fp dist info. empty finality provider address")
  else if negb (AddrRoundTrips (di_Addr v)) then Err (Errorf "invalid bech32 address")
  else match di_Commission v with
  | None => Err (Errorf "invalid fp dist info. commission is nil")
  | Some c =>
    if c <? 0 then Err (Errorf "invalid fp dist info. commission is negative")
    else if DecOne <? c then Err (Errorf "invalid fp dist info. commission is greater than 1")
    else Ok tt
  end.

Inductive FinalityProviderStatus := FP_SLASHED | FP_JAILED | FP_ACTIVE | FP_INACTIVE.

#[global] Instance FinalityProviderStatus_eq_dec : EqDecision FinalityProviderStatus.
Proof. solve_decision. Defined.

Definition FpStatus (fp : FinalityProviderDistInfo) (canBeActive : bool) : FinalityProviderStatus :=
  if di_IsSlashed fp then FP_SLASHED
  else if di_IsJailed fp then FP_JAILED
  else if canBeActive && di_IsTimestamped fp && (0 <? di_TotalBondedSat fp) then FP_ACTIVE
  else FP_INACTIVE.

(** ** Cache validation *)

Fixpoint Validate_fps (AddrRoundTrips : bytes → bool) (fps : list FinalityProviderDistInfo)
    (fpMap : gset string) (accVP numActiveFPs : Z) : outcome (Z * Z) :=
  match fps with
  | [] => Ok (accVP, numActiveFPs)
  | fp :: fps =>
    if bool_decide (di_hex fp ∈ fpMap)
    then Err (Errorf "invalid voting power distribution cache. Duplicate finality provider entry")
    else
      _ ← DistInfo_Validate AddrRoundTrips fp;
      let fpMap := {[di_hex fp]} ∪ fpMap in
      if negb (di_IsTimestamped fp) then Validate_fps AddrRoundTrips fps fpMap accVP numActiveFPs
      else if di_IsJailed fp then Validate_fps AddrRoundTrips fps fpMap accVP numActiveFPs
      else if di_IsSlashed fp then Validate_fps AddrRoundTrips fps fpMap accVP numActiveFPs
      else Validate_fps AddrRoundTrips fps fpMap
             (u64 (accVP + di_TotalBondedSat fp)) (u32 (numActiveFPs + 1))
  end.

Definition DistCache_Validate (AddrRoundTrips : bytes → bool) (dc : VotingPowerDistCache) : outcome unit :=
  '(accVP, numActiveFPs) ← Validate_fps AddrRoundTrips
     (SortFinalityProvidersWithZeroedVotingPower (dc_FinalityProviders dc)) ∅ 0 0;
  if negb (dc_TotalVotingPower dc =? accVP)
  then Err (Errorf "invalid voting power distribution cache. TotalVotingPower")
  else if negb (dc_NumActiveFps dc =? numActiveFPs)
  then Err (Errorf "invalid voting power distribution cache. NumActiveFps")
  else Ok tt.

(** ** Lemmas on the order *)

Lemma distInfo_less_asym a b : distInfo_less a b = true → distInfo_less b a = false.
Proof.
  unfold distInfo_less. destruct (shouldBeZeroed a), (shouldBeZeroed b); simpl; try done.
  - apply string_less_asym.
  - rewrite (Z.eqb_sym (di_TotalBondedSat b)).
    destruct (Z.eqb_spec (di_TotalBondedSat a) (di_TotalBondedSat b)); [apply string_less_asym|lia].
Qed.

Lemma distInfo_less_neg_trans a b c :
  distInfo_less b a = false → distInfo_less c b = false → distInfo_less c a = false.
Proof.
  unfold distInfo_less.
  destruct (shouldBeZeroed a), (shouldBeZeroed b), (shouldBeZeroed c); simpl; try done.
  - apply string_less_neg_trans.
  - destruct (Z.eqb_spec (di_TotalBondedSat b) (di_TotalBondedSat a)),
      (Z.eqb_spec (di_TotalBondedSat c) (di_TotalBondedSat b)),
      (Z.eqb_spec (di_TotalBondedSat c) (di_TotalBondedSat a)); try lia.
    apply string_less_neg_trans.
Qed.

(** Two entries that the order does not separate have the same key. *)
Lemma distInfo_less_total a b :
  distInfo_less a b = false → distInfo_less b a = false → di_BtcPk a = di_BtcPk b.
Proof.
  unfold distInfo_less. destruct (shouldBeZeroed a), (shouldBeZeroed b); simpl; try done.
  - intros H1 H2. by apply MarshalHex_inj, string_less_total.
  - rewrite (Z.eqb_sym (di_TotalBondedSat b)).
    destruct (Z.eqb_spec (di_TotalBondedSat a) (di_TotalBondedSat b)); [|lia].
    intros H1 H2. by apply MarshalHex_inj, string_less_total.
Qed.

Lemma Sort_perm fps : SortFinalityProvidersWithZeroedVotingPower fps ≡ₚ fps.
Proof. apply sort_stable_perm. Qed.

Lemma Sort_sorted fps :
  StronglySorted (λ a b, distInfo_less b a = false)
    (SortFinalityProvidersWithZeroedVotingPower fps).
Proof.
  apply sort_stable_sorted; [apply distInfo_less_asym|].
  unfold may_precede. intros x y z. apply distInfo_less_neg_trans.
Qed.

(** ** Eligibility

    A provider can be active when it has a timestamped public randomness, is
    neither jailed nor slashed, and has bonded satoshis. *)
Definition eligible (fp : FinalityProviderDistInfo) : Prop :=
  shouldBeZeroed fp = false ∧ 0 < di_TotalBondedSat fp.

#[global] Instance eligible_dec fp : Decision (eligible fp).
Proof. apply and_dec; apply _. Defined.

Definition sats_nonneg (fps : list FinalityProviderDistInfo) : Prop :=
  Forall (λ fp, 0 ≤ di_TotalBondedSat fp) fps.

Lemma eligible_precedes a b :
  0 ≤ di_TotalBondedSat a → distInfo_less b a = false → eligible b → eligible a.
Proof.
  unfold eligible, distInfo_less. intros Ha Hl [Hzb Hsb]. rewrite Hzb in Hl.
  destruct (shouldBeZeroed a); simpl in Hl; [done|]. split; [done|].
  destruct (Z.eqb_spec (di_TotalBondedSat b) (di_TotalBondedSat a)); lia.
Qed.

Lemma eligible_sorted fps :
  sats_nonneg fps → StronglySorted (λ a b, distInfo_less b a = false) fps →
  StronglySorted (λ a b, eligible b → eligible a) fps.
Proof.
  intros Hn Hs. induction Hs as [|x l Hs IH Hx]; [constructor|].
  apply Forall_cons in Hn as [Hnx Hnl]. constructor; [auto|].
  eapply Forall_impl; [exact Hx|]. simpl. intros y Hy. by apply eligible_precedes.
Qed.

(** One iteration of the counting loop continues exactly on an eligible
    provider below the limit. *)
Lemma countActive_cons max fp fps n t :
  0 ≤ di_TotalBondedSat fp →
  countActive max (fp :: fps) n t =
  if decide (n ≠ max ∧ eligible fp)
  then countActive max fps (u32 (n + 1)) (u64 (t + di_TotalBondedSat fp)) else (n, t).
Proof.
  intros Hs. case_decide as Hd; unfold eligible, shouldBeZeroed in Hd; simpl;
    destruct (Z.eqb_spec n max), (Z.eqb_spec (di_TotalBondedSat fp) 0),
      (di_IsTimestamped fp), (di_IsJailed fp), (di_IsSlashed fp); simpl in *; try done;
    first [destruct Hd as (? & ? & ?); first [done|lia]
          |exfalso; apply Hd; split_and!; first [done|lia]].
Qed.

(** The loop over a list whose eligible providers are [l1], a prefix. *)
Lemma countActive_prefix max l1 l2 n t :
  sats_nonneg (l1 ++ l2) → Forall eligible l1 → Forall (λ x, ¬ eligible x) l2 →
  0 ≤ n ≤ max → max < 2 ^ 32 →
  countActive max (l1 ++ l2) n t =
  (Z.min max (n + Z.of_nat (length l1)),
   foldl (λ acc s, u64 (acc + s)) t
     (di_TotalBondedSat <$> take (Z.to_nat (max - n)) l1)).
Proof.
  intros Hnn H1. revert n t. induction l1 as [|fp l1 IH]; intros n t H2 Hn Hmax.
  - simpl. rewrite Z.add_0_r, Z.min_r by lia. rewrite take_nil. simpl.
    destruct l2 as [|fp l2]; [done|].
    apply Forall_cons in H2 as [H2 _]. apply Forall_cons in Hnn as [Hnn _].
    rewrite countActive_cons by done. rewrite decide_False; [done|]. by intros [_ ?].
  - apply Forall_cons in H1 as [Hfp H1]. apply Forall_cons in Hnn as [Hnfp Hnn].
    change (countActive max ((fp :: l1) ++ l2) n t) with (countActive max (fp :: (l1 ++ l2)) n t).
    rewrite countActive_cons by done. case_decide as Hd.
    + destruct Hd as [Hne _]. rewrite u32_small by (unfold in_u32; lia).
      rewrite IH by (auto; lia). f_equal; [simpl; lia|].
      replace (Z.to_nat (max - n)) with (S (Z.to_nat (max - (n + 1)))) by lia. done.
    + assert (n = max) as -> by (apply dec_stable; intros Hne; by apply Hd).
      rewrite Z.min_l by (simpl; lia). by rewrite Z.sub_diag.
Qed.

Lemma foldl_u64_sum (l : list Z) t :
  0 ≤ t → Forall (λ z, 0 ≤ z) l → t + sumZ l < 2 ^ 64 →
  foldl (λ acc s, u64 (acc + s)) t l = t + sumZ l.
Proof.
  revert t. induction l as [|x l IH]; intros t Ht Hl Hb; simpl in *; [lia|].
  apply Forall_cons in Hl as [Hx Hl]. pose proof (sumZ_nonneg l Hl).
  rewrite u64_small by (unfold in_u64; lia). rewrite IH by (auto; lia). lia.
Qed.

Lemma filter_perm_length {A} (P : A → Prop) `{∀ x, Decision (P x)} (l1 l2 : list A) :
  l1 ≡ₚ l2 → length (filter P l1) = length (filter P l2).
Proof. intros Hp. by rewrite Hp. Qed.

(** The sorted list splits into the eligible providers and the others. *)
Lemma Sort_split fps :
  sats_nonneg fps →
  ∃ l1 l2, SortFinalityProvidersWithZeroedVotingPower fps = l1 ++ l2 ∧
    Forall eligible l1 ∧ Forall (λ x, ¬ eligible x) l2 ∧
    l1 ≡ₚ filter eligible fps.
Proof.
  intros Hn. set (l := SortFinalityProvidersWithZeroedVotingPower fps).
  assert (sats_nonneg l) as Hnl by (unfold sats_nonneg, l; by rewrite Sort_perm).
  destruct (sorted_prefix eligible l) as [H1 H2].
  { apply eligible_sorted; [done|apply Sort_sorted]. }
  exists (filter eligible l), (drop (length (filter eligible l)) l). split_and!.
  - rewrite H1 at 1. by rewrite take_drop.
  - apply Forall_forall. intros x. rewrite list_elem_of_filter. by intros [? _].
  - done.
  - unfold l. by rewrite Sort_perm.
Qed.

Lemma sumZ_take_le n (l : list Z) : Forall (λ z, 0 ≤ z) l → sumZ (take n l) ≤ sumZ l.
Proof.
  intros Hl. rewrite <- (take_drop n l) at 2. rewrite sumZ_app.
  assert (0 ≤ sumZ (drop n l)); [|lia]. by apply sumZ_nonneg, Forall_drop.
Qed.

Lemma ApplyActive_active dc max l1 l2 :
  SortFinalityProvidersWithZeroedVotingPower (dc_FinalityProviders dc) = l1 ++ l2 →
  sats_nonneg (dc_FinalityProviders dc) → Forall eligible l1 → Forall (λ x, ¬ eligible x) l2 →
  0 ≤ max < 2 ^ 32 → sumZ (di_TotalBondedSat <$> dc_FinalityProviders dc) < 2 ^ 64 →
  ApplyActiveFinalityProviders dc max =
  mkDistCache (sumZ (di_TotalBondedSat <$> take (Z.to_nat max) l1)) (l1 ++ l2)
    (Z.min max (Z.of_nat (length l1))).
Proof.
  intros Hl Hn H1 H2 Hmax Hsum. unfold ApplyActiveFinalityProviders. rewrite Hl.
  assert (sats_nonneg (l1 ++ l2)) as Hn12 by (rewrite <- Hl; unfold sats_nonneg; by rewrite Sort_perm).
  rewrite countActive_prefix by (auto; lia). rewrite Z.sub_0_r, Z.add_0_l.
  rewrite foldl_u64_sum; [by rewrite Z.add_0_l|lia| |].
  - apply Forall_fmap, Forall_take. by apply Forall_app in Hn12 as [? _].
  - assert (sumZ (di_TotalBondedSat <$> dc_FinalityProviders dc) =
            sumZ (di_TotalBondedSat <$> (l1 ++ l2))) as E.
    { apply sumZ_perm. rewrite <- Hl. by rewrite Sort_perm. }
    rewrite E, fmap_app, sumZ_app in Hsum. apply Forall_app in Hn12 as [Hn1 Hn2].
    assert (0 ≤ sumZ (di_TotalBondedSat <$> l2)) by (by apply sumZ_nonneg, Forall_fmap).
    rewrite fmap_take. pose proof (sumZ_take_le (Z.to_nat max) (di_TotalBondedSat <$> l1)) as Ht.
    rewrite Forall_fmap in Ht. specialize (Ht Hn1). lia.
Qed.

Lemma take_min_length {A} (l1 l2 : list A) max :
  0 ≤ max → take (Z.to_nat (Z.min max (Z.of_nat (length l1)))) (l1 ++ l2) = take (Z.to_nat max) l1.
Proof.
  intros Hm. destruct (Z.le_ge_cases max (Z.of_nat (length l1))).
  - rewrite Z.min_l by done. by rewrite take_app_le by lia.
  - rewrite Z.min_r by done. rewrite Nat2Z.id, take_app_length, take_ge; [done|lia].
Qed.

(** The active set. Ordering the providers and cutting the list yields the
    top providers by bonded satoshis: the result holds the same providers; the
    number of active ones is the parameter or the number of eligible providers,
    whichever is smaller; every active provider is eligible (timestamped
    randomness, not jailed, not slashed, with satoshis); an eligible provider
    left out has no more satoshis than any active one, and on equal satoshis not
    the smaller key; the recorded total is the exact sum of the active
    providers' satoshis (the sum of all satoshis being a [uint64]). *)
Theorem ApplyActiveFinalityProviders_top_n dc max :
  sats_nonneg (dc_FinalityProviders dc) → 0 ≤ max < 2 ^ 32 →
  sumZ (di_TotalBondedSat <$> dc_FinalityProviders dc) < 2 ^ 64 →
  let dc' := ApplyActiveFinalityProviders dc max in
  dc_FinalityProviders dc' ≡ₚ dc_FinalityProviders dc ∧
  dc_NumActiveFps dc' =
    Z.min max (Z.of_nat (length (filter eligible (dc_FinalityProviders dc)))) ∧
  Forall eligible (activeFps dc') ∧
  dc_TotalVotingPower dc' = sumZ (di_TotalBondedSat <$> activeFps dc') ∧
  (∀ a b, a ∈ activeFps dc' → b ∈ inactiveFps dc' → eligible b →
     di_TotalBondedSat b ≤ di_TotalBondedSat a ∧
     (di_TotalBondedSat b = di_TotalBondedSat a → string_less (di_hex b) (di_hex a) = false)).
Proof.
  intros Hn Hmax Hsum dc'. destruct (Sort_split _ Hn) as (l1 & l2 & Hl & H1 & H2 & Hp).
  pose proof (ApplyActive_active dc max l1 l2 Hl Hn H1 H2 Hmax Hsum) as E.
  fold dc' in E. rewrite E. unfold activeFps, inactiveFps. simpl.
  rewrite take_min_length by lia. split_and!.
  - rewrite <- Hl. apply Sort_perm.
  - by rewrite Hp.
  - by apply Forall_take.
  - done.
  - intros a b Ha Hb [Hzb Hsb].
    pose proof (Sort_sorted (dc_FinalityProviders dc)) as Hs. rewrite Hl in Hs.
    rewrite <- (take_drop (Z.to_nat (Z.min max (Z.of_nat (length l1)))) (l1 ++ l2)) in Hs.
    rewrite take_min_length in Hs by lia.
    pose proof (StronglySorted_app_1_elem_of _ _ _ a b Hs Ha Hb) as Hless.
    pose proof (Forall_take eligible (Z.to_nat max) _ H1) as Hel. rewrite Forall_forall in Hel.
    destruct (Hel a Ha) as [Hza _]. unfold distInfo_less in Hless.
    rewrite Hza, Hzb in Hless. simpl in Hless.
    destruct (Z.eqb_spec (di_TotalBondedSat b) (di_TotalBondedSat a)); [|lia].
    split; [lia|done].
Qed.

Lemma fmap_NoDup_inj {A B} (f : A → B) (l : list A) x y :
  NoDup (f <$> l) → x ∈ l → y ∈ l → f x = f y → x = y.
Proof.
  induction l as [|z l IH]; intros Hnd Hx Hy E; [by apply elem_of_nil in Hx|].
  rewrite fmap_cons, NoDup_cons in Hnd. destruct Hnd as [Hz Hnd].
  apply elem_of_cons in Hx as [->|Hx]; apply elem_of_cons in Hy as [->|Hy]; auto.
  - destruct Hz. rewrite E. by apply list_elem_of_fmap_2.
  - destruct Hz. rewrite <- E. by apply list_elem_of_fmap_2.
Qed.

(** The active set does not depend on the order in which the providers are
    collected: for distinct keys, permuting the list gives the same cache. *)
Theorem ApplyActiveFinalityProviders_order_independent t1 n1 t2 n2 fps1 fps2 max :
  NoDup (di_BtcPk <$> fps1) → fps1 ≡ₚ fps2 →
  ApplyActiveFinalityProviders (mkDistCache t1 fps1 n1) max =
  ApplyActiveFinalityProviders (mkDistCache t2 fps2 n2) max.
Proof.
  intros Hnd Hp. unfold ApplyActiveFinalityProviders. simpl.
  assert (SortFinalityProvidersWithZeroedVotingPower fps1 =
          SortFinalityProvidersWithZeroedVotingPower fps2) as ->; [|done].
  apply sort_stable_perm_invariant; [apply distInfo_less_asym| | |done]; unfold may_precede.
  - intros x y z. apply distInfo_less_neg_trans.
  - intros x y Hx Hy H1 H2. eapply fmap_NoDup_inj; eauto. by apply distInfo_less_total.
Qed.

(** ** Validation of caches *)

Definition not_zeroed (fp : FinalityProviderDistInfo) : Prop := shouldBeZeroed fp = false.

#[global] Instance not_zeroed_dec fp : Decision (not_zeroed fp).
Proof. unfold not_zeroed. apply _. Defined.

Lemma Validate_fps_valid addr_ok fps seen acc n :
  NoDup (di_BtcPk <$> fps) → Forall (λ fp, DistInfo_Validate addr_ok fp = Ok tt) fps →
  Forall (λ fp, di_hex fp ∉ seen) fps →
  sats_nonneg fps → 0 ≤ acc → acc + sumZ (di_TotalBondedSat <$> fps) < 2 ^ 64 →
  0 ≤ n → n + Z.of_nat (length fps) < 2 ^ 32 →
  Validate_fps addr_ok fps seen acc n =
  Ok (acc + sumZ (di_TotalBondedSat <$> filter not_zeroed fps),
      n + Z.of_nat (length (filter not_zeroed fps))).
Proof.
  revert seen acc n. induction fps as [|fp fps IH]; intros seen acc n Hnd Hv Hseen Hs Ha Hsum Hn Hlen.
  { simpl. by rewrite !Z.add_0_r. }
  rewrite fmap_cons, NoDup_cons in Hnd. destruct Hnd as [Hni Hnd].
  apply Forall_cons in Hv as [Hv1 Hv]. apply Forall_cons in Hseen as [Hs1 Hseen].
  apply Forall_cons in Hs as [Hn1 Hs]. rewrite fmap_cons in Hsum. cbn [sumZ foldr] in Hsum.
  fold (sumZ (di_TotalBondedSat <$> fps)) in Hsum.
  assert (0 ≤ sumZ (di_TotalBondedSat <$> fps)) by (by apply sumZ_nonneg, Forall_fmap).
  cbn [Validate_fps length] in *. rewrite bool_decide_false by done. rewrite Hv1.
  cbn [mbind outcome_bind].
  assert (Forall (λ fp', di_hex fp' ∉ {[di_hex fp]} ∪ seen) fps) as Hseen'.
  { rewrite Forall_forall in Hseen |- *. intros x Hx.
    rewrite elem_of_union, elem_of_singleton. intros [E|E]; [|by apply (Hseen x)].
    apply MarshalHex_inj in E. apply Hni. rewrite <- E. by apply list_elem_of_fmap_2. }
  assert (Validate_fps addr_ok fps ({[di_hex fp]} ∪ seen) acc n =
    Ok (acc + sumZ (di_TotalBondedSat <$> filter not_zeroed fps),
        n + Z.of_nat (length (filter not_zeroed fps)))) as Hskip by (apply IH; auto; lia).
  destruct (decide (not_zeroed fp)) as [Hz|Hz].
  - rewrite filter_cons_True by done. rewrite fmap_cons. cbn [sumZ foldr length].
    fold (sumZ (di_TotalBondedSat <$> filter not_zeroed fps)).
    unfold not_zeroed, shouldBeZeroed in Hz.
    destruct (di_IsTimestamped fp), (di_IsJailed fp), (di_IsSlashed fp); try discriminate Hz.
    cbn [negb]. rewrite u64_small by (unfold in_u64; lia). rewrite u32_small by (unfold in_u32; lia).
    rewrite IH by (auto; lia). f_equal. f_equal; lia.
  - rewrite filter_cons_False by done. unfold not_zeroed, shouldBeZeroed in Hz.
    destruct (di_IsTimestamped fp), (di_IsJailed fp), (di_IsSlashed fp); try done;
      by destruct Hz.
Qed.

Lemma eligible_not_zeroed_length fps :
  (length (filter eligible fps) ≤ length (filter not_zeroed fps))%nat ∧
  (length (filter eligible fps) = length (filter not_zeroed fps) ↔
   Forall (λ fp, not_zeroed fp → 0 < di_TotalBondedSat fp) fps).
Proof.
  induction fps as [|fp fps [IH1 IH2]]; [simpl; split; [lia|split; [constructor|done]]|].
  rewrite Forall_cons. destruct (decide (not_zeroed fp)) as [Hz|Hz].
  - rewrite (filter_cons_True not_zeroed) by done. simpl.
    destruct (decide (0 < di_TotalBondedSat fp)) as [Hp|Hp].
    + rewrite (filter_cons_True eligible) by done. simpl. split; [lia|].
      rewrite <- IH2. split; [intros; split; [done|lia]|intros [_ ?]; lia].
    + rewrite (filter_cons_False eligible) by (by intros [_ ?]).
      split; [lia|]. split; [lia|]. intros [H _]. by destruct Hp; apply H.
  - rewrite (filter_cons_False not_zeroed) by done.
    rewrite (filter_cons_False eligible) by (by intros [? _]). split; [done|].
    rewrite IH2. split; [intros; split; done|by intros [_ ?]].
Qed.

Lemma filter_eligible_eq fps :
  Forall (λ fp, not_zeroed fp → 0 < di_TotalBondedSat fp) fps →
  filter eligible fps = filter not_zeroed fps.
Proof.
  induction 1 as [|fp fps Hfp _ IH]; [done|]. destruct (decide (not_zeroed fp)) as [Hz|Hz].
  - rewrite (filter_cons_True not_zeroed), (filter_cons_True eligible) by (unfold eligible; auto).
    by rewrite IH.
  - rewrite (filter_cons_False not_zeroed) by done.
    by rewrite (filter_cons_False eligible) by (by intros [? _]).
Qed.

(** Genesis validation of a cache is stricter than its construction. For a
    cache of valid entries with distinct keys, the cache computed by
    [ApplyActiveFinalityProviders] passes [Validate] exactly when no provider is
    cut off by the maximal number of active providers and no unjailed,
    unslashed, timestamped provider has zero satoshis; so the exported cache of
    a chain with more eligible providers than the maximum does not validate. *)
Theorem DistCache_Validate_ApplyActive addr_ok dc max :
  let fps := dc_FinalityProviders dc in
  NoDup (di_BtcPk <$> fps) → Forall (λ fp, DistInfo_Validate addr_ok fp = Ok tt) fps →
  sats_nonneg fps → sumZ (di_TotalBondedSat <$> fps) < 2 ^ 64 →
  Z.of_nat (length fps) < 2 ^ 32 → 0 ≤ max < 2 ^ 32 →
  DistCache_Validate addr_ok (ApplyActiveFinalityProviders dc max) = Ok tt ↔
  Z.of_nat (length (filter not_zeroed fps)) ≤ max ∧
  Forall (λ fp, not_zeroed fp → 0 < di_TotalBondedSat fp) fps.
Proof.
  intros fps Hnd Hv Hs Hsum Hlen Hmax.
  destruct (Sort_split _ Hs) as (l1 & l2 & Hl & H1 & H2 & Hp).
  rewrite (ApplyActive_active dc max l1 l2 Hl Hs H1 H2 Hmax Hsum).
  unfold DistCache_Validate. cbn [dc_FinalityProviders dc_TotalVotingPower dc_NumActiveFps].
  set (l := SortFinalityProvidersWithZeroedVotingPower (l1 ++ l2)).
  assert (l ≡ₚ fps) as Hpl by (unfold l; rewrite Sort_perm, <- Hl; apply Sort_perm).
  assert (sumZ (di_TotalBondedSat <$> filter not_zeroed l) =
          sumZ (di_TotalBondedSat <$> filter not_zeroed fps)) as Esum
    by (apply sumZ_perm; by rewrite Hpl).
  rewrite Validate_fps_valid; [|by rewrite Hpl..| | |lia| |lia|].
  2: { apply Forall_true. set_solver. }
  2: { unfold sats_nonneg. by rewrite Hpl. }
  2: { rewrite (sumZ_perm _ (di_TotalBondedSat <$> fps)); [lia|]. by rewrite Hpl. }
  2: { rewrite (Permutation_length Hpl). lia. }
  rewrite Esum, (filter_perm_length not_zeroed _ _ Hpl), !Z.add_0_l. cbn [mbind outcome_bind].
  destruct (eligible_not_zeroed_length fps) as [Hle Hiff].
  assert (length l1 = length (filter eligible fps)) as Hl1 by (by rewrite Hp).
  split.
  - intros H. inv_ok H. apply negb_false_iff, Z.eqb_eq in E, E0.
    rewrite Hl1 in E0. split; [lia|]. apply Hiff. lia.
  - intros [Hm Hpos]. apply Hiff in Hpos as Hcount. rewrite take_ge by lia.
    assert (sumZ (di_TotalBondedSat <$> l1) = sumZ (di_TotalBondedSat <$> filter not_zeroed fps)) as ->.
    { apply sumZ_perm. rewrite Hp. by rewrite filter_eligible_eq. }
    rewrite Z.eqb_refl. cbn [negb]. rewrite Hl1, Hcount, Z.min_r by lia. by rewrite Z.eqb_refl.
Qed.

(** ** Comparing consecutive caches *)

Lemma distInfoMap_app l fp :
  distInfoMap (l ++ [fp]) = <[di_hex fp := fp]> (distInfoMap l).
Proof. unfold distInfoMap. by rewrite foldl_app. Qed.

Lemma distInfoMap_lookup l k fp :
  NoDup (di_BtcPk <$> l) → distInfoMap l !! k = Some fp ↔ fp ∈ l ∧ di_hex fp = k.
Proof.
  revert fp. induction l as [|x l IH] using rev_ind; intros fp Hnd.
  { unfold distInfoMap; simpl. rewrite lookup_empty, elem_of_nil. naive_solver. }
  rewrite fmap_app, NoDup_app in Hnd. destruct Hnd as (Hnd & Hdisj & _).
  rewrite distInfoMap_app, lookup_insert_Some, IH, elem_of_app, list_elem_of_singleton by done.
  split.
  - intros [[<- <-]|[Hne [? <-]]]; auto.
  - intros [[Hin | ->] <-]; [|by left]. right. split; [|done]. intros E.
    apply (Hdisj (di_BtcPk fp)); [by apply list_elem_of_fmap_2|]. simpl.
    apply list_elem_of_singleton. symmetry. by apply MarshalHex_inj.
Qed.

Lemma distInfoMap_None l k :
  distInfoMap l !! k = None ↔ ∀ fp, fp ∈ l → di_hex fp ≠ k.
Proof.
  induction l as [|x l IH] using rev_ind.
  { unfold distInfoMap; simpl. rewrite lookup_empty. split; [|done]. intros _ fp H.
    by apply elem_of_nil in H. }
  rewrite distInfoMap_app, lookup_insert_None, IH. setoid_rewrite elem_of_app.
  setoid_rewrite list_elem_of_singleton. naive_solver.
Qed.

Lemma GetInactive_eq dc : GetInactiveFinalityProviderSet dc = distInfoMap (inactiveFps dc).
Proof.
  unfold GetInactiveFinalityProviderSet. case_match eqn:E; [|done].
  apply Z.leb_le in E. unfold inactiveFps. rewrite drop_ge; [done|lia].
Qed.

Lemma elem_of_newIn l prev fp :
  NoDup (di_BtcPk <$> l) →
  fp ∈ newIn (distInfoMap l) (distInfoMap prev) ↔
  fp ∈ l ∧ ∀ fp', fp' ∈ prev → di_BtcPk fp' ≠ di_BtcPk fp.
Proof.
  intros Hnd. unfold newIn. rewrite list_elem_of_fmap. split.
  - intros ([k v] & -> & H). rewrite elem_of_map_to_list, map_lookup_filter_Some in H.
    destruct H as [Hl Hn]. simpl in *. rewrite distInfoMap_lookup in Hl by done.
    destruct Hl as [Hin <-]. split; [done|]. rewrite distInfoMap_None in Hn.
    intros fp' Hfp' E. apply (Hn fp' Hfp'). unfold di_hex. by rewrite E.
  - intros [Hin Hn]. exists (di_hex fp, fp). split; [done|].
    rewrite elem_of_map_to_list, map_lookup_filter_Some. simpl. split.
    + by apply distInfoMap_lookup.
    + apply distInfoMap_None. intros fp' Hfp' E. apply MarshalHex_inj in E.
      by apply (Hn fp').
Qed.

Lemma NoDup_active dc :
  NoDup (di_BtcPk <$> dc_FinalityProviders dc) → NoDup (di_BtcPk <$> activeFps dc).
Proof.
  unfold activeFps. rewrite <- (take_drop (Z.to_nat (dc_NumActiveFps dc)) (dc_FinalityProviders dc)) at 1.
  rewrite fmap_app, NoDup_app. by intros [? _].
Qed.

Lemma NoDup_inactive dc :
  NoDup (di_BtcPk <$> dc_FinalityProviders dc) → NoDup (di_BtcPk <$> inactiveFps dc).
Proof.
  unfold inactiveFps. rewrite <- (take_drop (Z.to_nat (dc_NumActiveFps dc)) (dc_FinalityProviders dc)) at 1.
  rewrite fmap_app, NoDup_app. by intros (_ & _ & ?).
Qed.

Lemma sortByPk_sorted l :
  StronglySorted (λ a b, string_less (di_hex b) (di_hex a) = false) (sortByPk l).
Proof.
  apply sort_stable_sorted; [intros x y; apply string_less_asym|].
  unfold may_precede. intros x y z. apply string_less_neg_trans.
Qed.

(** The change of the active set between two blocks. For caches with
    distinct keys, the newly active providers are the active ones of the new
    cache that were not active before; the newly inactive ones are the inactive
    ones of the new cache that were not inactive before, and the previously
    active ones that left the cache altogether. Both lists come in ascending
    key order. *)
Theorem FindNew_spec dc prevDc fp :
  NoDup (di_BtcPk <$> dc_FinalityProviders dc) →
  NoDup (di_BtcPk <$> dc_FinalityProviders prevDc) →
  (fp ∈ FindNewActiveFinalityProviders dc prevDc ↔
     fp ∈ activeFps dc ∧ ∀ fp', fp' ∈ activeFps prevDc → di_BtcPk fp' ≠ di_BtcPk fp) ∧
  (fp ∈ FindNewInactiveFinalityProviders dc prevDc ↔
     (fp ∈ inactiveFps dc ∧ ∀ fp', fp' ∈ inactiveFps prevDc → di_BtcPk fp' ≠ di_BtcPk fp) ∨
     (fp ∈ activeFps prevDc ∧ ∀ fp', fp' ∈ dc_FinalityProviders dc → di_BtcPk fp' ≠ di_BtcPk fp)) ∧
  StronglySorted (λ a b, string_less (di_hex b) (di_hex a) = false)
    (FindNewActiveFinalityProviders dc prevDc) ∧
  StronglySorted (λ a b, string_less (di_hex b) (di_hex a) = false)
    (FindNewInactiveFinalityProviders dc prevDc).
Proof.
  intros H1 H2. split_and!; [| |apply sortByPk_sorted..].
  - unfold FindNewActiveFinalityProviders, sortByPk. rewrite sort_stable_perm.
    apply elem_of_newIn. by apply NoDup_active.
  - unfold FindNewInactiveFinalityProviders, sortByPk. rewrite sort_stable_perm, elem_of_app.
    rewrite !GetInactive_eq. unfold GetActiveFinalityProviderSet.
    rewrite (elem_of_newIn (inactiveFps dc)) by (by apply NoDup_inactive).
    by rewrite elem_of_newIn by (by apply NoDup_active).
Qed.

Lemma ChangeDeltaSats_Ok v d :
  in_u64 (di_TotalBondedSat v) → in_i64 d → d ≠ - 2 ^ 63 →
  in_u64 (di_TotalBondedSat v + d) →
  ChangeDeltaSats v d = Ok (with_sats v (di_TotalBondedSat v + d)).
Proof.
  unfold in_u64, in_i64. intros Hv Hd Hmin Hs. unfold ChangeDeltaSats.
  destruct (Z.ltb_spec 0 d).
  { unfold AddBondedSats. rewrite (u64_small d) by (unfold in_u64; lia).
    by rewrite u64_small by (unfold in_u64; lia). }
  destruct (Z.ltb_spec d 0).
  - unfold RemoveBondedSats, abs. destruct (Z.ltb_spec d 0); [|lia].
    rewrite i64_small by (unfold in_i64; lia). rewrite (u64_small (-d)) by (unfold in_u64; lia).
    destruct (Z.ltb_spec (di_TotalBondedSat v) (-d)); [lia|].
    rewrite u64_small by (unfold in_u64; lia). do 2 f_equal. lia.
  - assert (d = 0) as -> by lia. rewrite Z.add_0_r. by destruct v.
Qed.

Lemma ChangeDeltaSats_underflow v d :
  in_u64 (di_TotalBondedSat v) → in_i64 d → d ≠ - 2 ^ 63 →
  di_TotalBondedSat v + d < 0 → ChangeDeltaSats v d = Err ErrInvalidSats.
Proof.
  unfold in_u64, in_i64. intros Hv Hd Hmin Hs. unfold ChangeDeltaSats.
  destruct (Z.ltb_spec 0 d); [lia|]. destruct (Z.ltb_spec d 0); [|lia].
  unfold RemoveBondedSats, abs. destruct (Z.ltb_spec d 0); [|lia].
  rewrite i64_small by (unfold in_i64; lia). rewrite (u64_small (-d)) by (unfold in_u64; lia).
  destruct (Z.ltb_spec (di_TotalBondedSat v) (-d)); [done|lia].
Qed.

(** ** Witnesses *)

Definition example_info (b : byte) (sats : Z) (timestamped jailed slashed : bool)
    : FinalityProviderDistInfo :=
  mkDistInfo (replicate 32 b) ["001"%byte] (Some 0) sats timestamped jailed slashed.

Definition example_cache : VotingPowerDistCache :=
  mkDistCache 0 [example_info "001" 10 true false false; example_info "002" 30 true false false;
                 example_info "003" 90 true true false; example_info "004" 20 true false false] 0.

Lemma ApplyActiveFinalityProviders_top_n_witness :
  activeFps (ApplyActiveFinalityProviders example_cache 2) =
    [example_info "002" 30 true false false; example_info "004" 20 true false false] ∧
  dc_TotalVotingPower (ApplyActiveFinalityProviders example_cache 2) = 50.
Proof.
  destruct (ApplyActiveFinalityProviders_top_n example_cache 2) as (_ & _ & _ & H & _).
  - repeat constructor; simpl; lia.
  - lia.
  - simpl. lia.
  - split; [vm_compute; reflexivity|]. rewrite H. vm_compute. reflexivity.
Defined.

Lemma ApplyActiveFinalityProviders_order_independent_witness :
  ApplyActiveFinalityProviders (mkDistCache 0 (dc_FinalityProviders example_cache) 0) 2 =
  ApplyActiveFinalityProviders (mkDistCache 7 (reverse (dc_FinalityProviders example_cache)) 1) 2.
Proof.
  apply ApplyActiveFinalityProviders_order_independent.
  - apply (bool_decide_unpack _). vm_compute. exact I.
  - symmetry. apply reverse_Permutation.
Defined.

Lemma DistCache_Validate_ApplyActive_witness :
  DistCache_Validate (λ _, true) (ApplyActiveFinalityProviders example_cache 2) ≠ Ok tt ∧
  DistCache_Validate (λ _, true) (ApplyActiveFinalityProviders example_cache 3) = Ok tt.
Proof.
  assert (NoDup (di_BtcPk <$> dc_FinalityProviders example_cache)) as Hnd
    by (apply (bool_decide_unpack _); vm_compute; exact I).
  split.
  - rewrite DistCache_Validate_ApplyActive; [|exact Hnd|repeat constructor|repeat constructor; simpl; lia
      |simpl; lia|simpl; lia|lia].
    intros [H _]. vm_compute in H. by apply H.
  - apply DistCache_Validate_ApplyActive; [exact Hnd|repeat constructor|repeat constructor; simpl; lia
      |simpl; lia|simpl; lia|lia|].
    split; [vm_compute; discriminate|repeat constructor; simpl; lia].
Defined.

Lemma FindNew_spec_witness :
  let dc := ApplyActiveFinalityProviders example_cache 2 in
  example_info "002" 30 true false false ∈ FindNewActiveFinalityProviders dc NewVotingPowerDistCache.
Proof.
  intros dc. apply (FindNew_spec dc NewVotingPowerDistCache (example_info "002" 30 true false false)).
  - apply (bool_decide_unpack _). vm_compute. exact I.
  - constructor.
  - split; [vm_compute; apply elem_of_cons; left; reflexivity|].
    intros fp' H. apply elem_of_nil in H. destruct H.
Defined.
