(* ===== verification/FinalityStore.v ===== *)
(** * x/finality/keeper: the stores

    The state of the finality module, the interface to the modules it calls,
    and the store operations: indexed blocks, votes, evidence, voting power
    tables and the heights next to finalise and to reward. *)

From S2P Require Import Prelude Bytes Store BbnTypes BtcStaking FinalityTypes PowerTable.

(** Typed events the module emits that the development tracks. *)
Inductive FinalityEvent :=
  | EventSlashedFinalityProvider (evidence : Evidence)
  | EventJailedFinalityProvider (pk : bytes)
  | EventFinalityProviderStatusChange (pk : bytes) (newState : FinalityProviderStatus)
  | EventBTCDelegationExpired (stakingTxHash : string).

(** The stores of the module, each named after its key prefix. A table at an
    unused height is absent or empty. A chunk of the missed block bitmap is the
    integer whose bits are its flags. *)
Record FinalityState := mkFinality {
  blocks : gmap Z IndexedBlock;
  votes : gmap Z (gmap bytes bytes);
  evidences : gmap bytes (gmap Z Evidence);
  pubRands : gmap bytes (gmap Z bytes);
  pubRandCommits : gmap bytes (gmap Z PubRandCommit);
  pubRandCommitIndex : gmap bytes (list Z);
  signingInfos : gmap bytes FinalityProviderSigningInfo;
  missedBlocks : gmap bytes (gmap Z Z);
  votingPower : gmap Z (gmap bytes Z);
  vpDistCaches : gmap Z VotingPowerDistCache;
  nextHeightToFinalize : option Z;
  nextHeightToReward : option Z;
  finalityParams : FinalityParams;
  finalityEvents : list FinalityEvent
}.

Definition empty_finality (p : FinalityParams) : FinalityState :=
  mkFinality ∅ ∅ ∅ ∅ ∅ ∅ ∅ ∅ ∅ ∅ None None p [].

Definition set_blocks (s : FinalityState) m : FinalityState :=
  mkFinality m (votes s) (evidences s) (pubRands s) (pubRandCommits s) (pubRandCommitIndex s)
    (signingInfos s) (missedBlocks s) (votingPower s) (vpDistCaches s) (nextHeightToFinalize s)
    (nextHeightToReward s) (finalityParams s) (finalityEvents s).
Definition set_votes (s : FinalityState) m : FinalityState :=
  mkFinality (blocks s) m (evidences s) (pubRands s) (pubRandCommits s) (pubRandCommitIndex s)
    (signingInfos s) (missedBlocks s) (votingPower s) (vpDistCaches s) (nextHeightToFinalize s)
    (nextHeightToReward s) (finalityParams s) (finalityEvents s).
Definition set_evidences (s : FinalityState) m : FinalityState :=
  mkFinality (blocks s) (votes s) m (pubRands s) (pubRandCommits s) (pubRandCommitIndex s)
    (signingInfos s) (missedBlocks s) (votingPower s) (vpDistCaches s) (nextHeightToFinalize s)
    (nextHeightToReward s) (finalityParams s) (finalityEvents s).
Definition set_pubRands (s : FinalityState) m : FinalityState :=
  mkFinality (blocks s) (votes s) (evidences s) m (pubRandCommits s) (pubRandCommitIndex s)
    (signingInfos s) (missedBlocks s) (votingPower s) (vpDistCaches s) (nextHeightToFinalize s)
    (nextHeightToReward s) (finalityParams s) (finalityEvents s).
Definition set_pubRandCommits (s : FinalityState) m : FinalityState :=
  mkFinality (blocks s) (votes s) (evidences s) (pubRands s) m (pubRandCommitIndex s)
    (signingInfos s) (missedBlocks s) (votingPower s) (vpDistCaches s) (nextHeightToFinalize s)
    (nextHeightToReward s) (finalityParams s) (finalityEvents s).
Definition set_pubRandCommitIndex (s : FinalityState) m : FinalityState :=
  mkFinality (blocks s) (votes s) (evidences s) (pubRands s) (pubRandCommits s) m
    (signingInfos s) (missedBlocks s) (votingPower s) (vpDistCaches s) (nextHeightToFinalize s)
    (nextHeightToReward s) (finalityParams s) (finalityEvents s).
Definition set_signingInfos (s : FinalityState) m : FinalityState :=
  mkFinality (blocks s) (votes s) (evidences s) (pubRands s) (pubRandCommits s)
    (pubRandCommitIndex s) m (missedBlocks s) (votingPower s) (vpDistCaches s)
    (nextHeightToFinalize s) (nextHeightToReward s) (finalityParams s) (finalityEvents s).
Definition set_missedBlocks (s : FinalityState) m : FinalityState :=
  mkFinality (blocks s) (votes s) (evidences s) (pubRands s) (pubRandCommits s)
    (pubRandCommitIndex s) (signingInfos s) m (votingPower s) (vpDistCaches s)
    (nextHeightToFinalize s) (nextHeightToReward s) (finalityParams s) (finalityEvents s).
Definition set_votingPower (s : FinalityState) m : FinalityState :=
  mkFinality (blocks s) (votes s) (evidences s) (pubRands s) (pubRandCommits s)
    (pubRandCommitIndex s) (signingInfos s) (missedBlocks s) m (vpDistCaches s)
    (nextHeightToFinalize s) (nextHeightToReward s) (finalityParams s) (finalityEvents s).
Definition set_vpDistCaches (s : FinalityState) m : FinalityState :=
  mkFinality (blocks s) (votes s) (evidences s) (pubRands s) (pubRandCommits s)
    (pubRandCommitIndex s) (signingInfos s) (missedBlocks s) (votingPower s) m
    (nextHeightToFinalize s) (nextHeightToReward s) (finalityParams s) (finalityEvents s).
Definition set_nextHeightToFinalize (s : FinalityState) h : FinalityState :=
  mkFinality (blocks s) (votes s) (evidences s) (pubRands s) (pubRandCommits s)
    (pubRandCommitIndex s) (signingInfos s) (missedBlocks s) (votingPower s) (vpDistCaches s)
    h (nextHeightToReward s) (finalityParams s) (finalityEvents s).
Definition set_nextHeightToReward (s : FinalityState) h : FinalityState :=
  mkFinality (blocks s) (votes s) (evidences s) (pubRands s) (pubRandCommits s)
    (pubRandCommitIndex s) (signingInfos s) (missedBlocks s) (votingPower s) (vpDistCaches s)
    (nextHeightToFinalize s) h (finalityParams s) (finalityEvents s).
Definition set_finalityParams (s : FinalityState) p : FinalityState :=
  mkFinality (blocks s) (votes s) (evidences s) (pubRands s) (pubRandCommits s)
    (pubRandCommitIndex s) (signingInfos s) (missedBlocks s) (votingPower s) (vpDistCaches s)
    (nextHeightToFinalize s) (nextHeightToReward s) p (finalityEvents s).
Definition emit (s : FinalityState) (ev : FinalityEvent) : FinalityState :=
  mkFinality (blocks s) (votes s) (evidences s) (pubRands s) (pubRandCommits s)
    (pubRandCommitIndex s) (signingInfos s) (missedBlocks s) (votingPower s) (vpDistCaches s)
    (nextHeightToFinalize s) (nextHeightToReward s) (finalityParams s) (finalityEvents s ++ [ev]).

(** ** Hooks

    What other modules run when delegations and active providers change, over
    the state [E] of those modules. *)
Record FinalityHooks (E : Type) := mkHooks {
  AfterBtcDelegationUnbonded : Ctx → E → bytes → bytes → bool → bool → Z → outcome E;
  AfterBtcDelegationActivated : Ctx → E → bytes → bytes → bool → bool → Z → outcome E;
  AfterBbnFpEntersActiveSet : Ctx → E → bytes → outcome E;
  AfterBbnFpRemovedFromActiveSet : Ctx → E → bytes → outcome E
}.
Arguments mkHooks {E} _ _ _ _.
Arguments AfterBtcDelegationUnbonded {E} _ _ _ _ _ _ _ _.
Arguments AfterBtcDelegationActivated {E} _ _ _ _ _ _ _ _.
Arguments AfterBbnFpEntersActiveSet {E} _ _ _ _.
Arguments AfterBbnFpRemovedFromActiveSet {E} _ _ _ _.

(** All hooks in sequence, stopping at the first error. *)
Definition MultiFinalityHooks {E} (h : list (FinalityHooks E)) : FinalityHooks E := {|
  AfterBtcDelegationUnbonded ctx e fpAddr btcDelAddr isFpActiveInPrevSet isFpActiveInCurrSet sats :=
    foldM (λ e hi, AfterBtcDelegationUnbonded hi ctx e fpAddr btcDelAddr isFpActiveInPrevSet
                     isFpActiveInCurrSet sats) e h;
  AfterBtcDelegationActivated ctx e fpAddr btcDelAddr isFpActiveInPrevSet isFpActiveInCurrSet sats :=
    foldM (λ e hi, AfterBtcDelegationActivated hi ctx e fpAddr btcDelAddr isFpActiveInPrevSet
                     isFpActiveInCurrSet sats) e h;
  AfterBbnFpEntersActiveSet ctx e fpAddr := foldM (λ e hi, AfterBbnFpEntersActiveSet hi ctx e fpAddr) e h;
  AfterBbnFpRemovedFromActiveSet ctx e fpAddr :=
    foldM (λ e hi, AfterBbnFpRemovedFromActiveSet hi ctx e fpAddr) e h
|}.

(** ** The modules the finality module calls

    The staking keeper is the component of [BtcStaking]; the checkpointing,
    light client and incentive keepers are an interface over the state [E] of
    those modules. [RewardBTCStaking] panics on an internal error. *)
Class FinalityEnv (E : Type) := {
  GetTipHeight : E → option Z;             (* btclightclient GetTipInfo *)
  GetBaseBTCHeight : E → Z;                (* btclightclient GetBaseBTCHeader *)
  GetLastFinalizedEpoch : E → Z;
  GetCurrentEpoch : E → option Z;          (* None: no epoch *)
  GetEpochByHeight : E → Z → Z;
  RewardBTCStaking : E → Z → VotingPowerDistCache → gset string → outcome E;
  IndexRefundableMsg : E → MsgAddFinalitySig → E;
  hooks : FinalityHooks E
}.

(** The chain state the handlers read and write. *)
Record Chain (E : Type) := mkChain { fin : FinalityState; stk : StakingState; env : E }.
Arguments mkChain {E} _ _ _.
Arguments fin {E} _.
Arguments stk {E} _.
Arguments env {E} _.

Definition set_fin {E} (c : Chain E) (f : FinalityState) : Chain E := mkChain f (stk c) (env c).
Definition set_stk {E} (c : Chain E) (s : StakingState) : Chain E := mkChain (fin c) s (env c).
Definition set_env {E} (c : Chain E) (e : E) : Chain E := mkChain (fin c) (stk c) e.

(** ** Indexed blocks *)

Definition SetBlock (s : FinalityState) (block : IndexedBlock) : FinalityState :=
  set_blocks s (<[ib_Height block := block]> (blocks s)).

Definition HasBlock (s : FinalityState) (height : Z) : bool := bool_decide (is_Some (blocks s !! height)).

Definition GetBlock (s : FinalityState) (height : Z) : outcome IndexedBlock :=
  match blocks s !! height with None => Err ErrBlockNotFound | Some block => Ok block end.

Definition IndexBlock (ctx : Ctx) (s : FinalityState) : FinalityState :=
  SetBlock s (mkBlock (CtxHeight ctx) (HeaderAppHash ctx) false).

(** ** Votes *)

Definition SetSig (s : FinalityState) (height : Z) (fpBtcPK sig : bytes) : FinalityState :=
  set_votes s (set2 height fpBtcPK sig (votes s)).

Definition HasSig (s : FinalityState) (height : Z) (fpBtcPK : bytes) : bool :=
  bool_decide (is_Some (get2 height fpBtcPK (votes s))).

Definition GetSig (ctx : Ctx) (s : FinalityState) (height : Z) (fpBtcPK : bytes) : outcome bytes :=
  if CtxHeight ctx <? height then Err ErrHeightTooHigh
  else match get2 height fpBtcPK (votes s) with
  | None => Err ErrVoteNotFound
  | Some sigBytes =>
    if bool_decide (sigBytes = []) then Err ErrVoteNotFound
    else must (NewSchnorrEOTSSig sigBytes)
  end.

Definition GetSigSet (s : FinalityState) (height : Z) : outcome (gmap string bytes) :=
  foldM (λ sigs '(k, v),
    fpBTCPK ← must (NewBIP340PubKey k);
    sig ← must (NewSchnorrEOTSSig v);
    Ok (<[MarshalHex fpBTCPK := sig]> sigs)) ∅ (iterB (default ∅ (votes s !! height))).

(** [nil] and the empty map are both the empty set: the code only looks voters
    up. *)
Definition GetVoters (s : FinalityState) (height : Z) : outcome (gset string) :=
  foldM (λ voters '(k, _),
    fpBTCPK ← must (NewBIP340PubKey k);
    Ok ({[MarshalHex fpBTCPK]} ∪ voters)) ∅ (iterB (default ∅ (votes s !! height))).

(** ** Evidence *)

(** Only evidence with a key is stored. *)
Definition SetEvidence (s : FinalityState) (evidence : Evidence) : outcome FinalityState :=
  match ev_FpBtcPk evidence with
  | None => Panic (Errorf "nil pointer dereference")
  | Some pk => Ok (set_evidences s (set2 pk (ev_BlockHeight evidence) evidence (evidences s)))
  end.

Definition HasEvidence (s : FinalityState) (fpBtcPK : bytes) (height : Z) : bool :=
  bool_decide (is_Some (get2 fpBtcPK height (evidences s))).

Definition GetEvidence (ctx : Ctx) (s : FinalityState) (fpBtcPK : bytes) (height : Z) : outcome Evidence :=
  if CtxHeight ctx <? height then Err ErrHeightTooHigh
  else match get2 fpBtcPK height (evidences s) with
  | None => Err ErrEvidenceNotFound
  | Some evidence => Ok evidence
  end.

Definition GetFirstSlashableEvidence {PK} (ToBTCPK : bytes → option PK) (s : FinalityState) (fpBtcPK : bytes)
    : option Evidence :=
  head (filter (λ e, IsSlashable ToBTCPK e = true) (iterZ (default ∅ (evidences s !! fpBtcPK))).*2).

(** ** Voting power tables *)

Definition SetVotingPower (s : FinalityState) (fpBTCPK : bytes) (height power : Z) : FinalityState :=
  set_votingPower s (set2 height fpBTCPK power (votingPower s)).

Definition GetVotingPower (s : FinalityState) (fpBTCPK : bytes) (height : Z) : Z :=
  default 0 (get2 height fpBTCPK (votingPower s)).

Definition votingPowerBbnBlockHeightStore (s : FinalityState) (height : Z) : gmap bytes Z :=
  default ∅ (votingPower s !! height).

Definition HasVotingPowerTable (s : FinalityState) (height : Z) : bool :=
  bool_decide (votingPowerBbnBlockHeightStore s height ≠ ∅).

(** [None] is the nil map of a height without table. *)
Definition GetVotingPowerTable (s : FinalityState) (height : Z) : outcome (option (gmap string Z)) :=
  let store := votingPowerBbnBlockHeightStore s height in
  if bool_decide (store = ∅) then Ok None
  else fpSet ← foldM (λ fpSet '(k, v),
                 fpBTCPK ← must (NewBIP340PubKey k);
                 Ok (<[MarshalHex fpBTCPK := v]> fpSet)) ∅ (iterB store);
       Ok (Some fpSet).

Definition fpWithPower_less (a b : bytes * Z) : bool :=
  if a.2 =? b.2 then string_less (MarshalHex a.1) (MarshalHex b.1) else b.2 <? a.2.

Definition GetVotingPowerTableOrdered (s : FinalityState) (height : Z) : outcome (list (bytes * Z)) :=
  fps ← foldM (λ fps '(k, v), fpBTCPK ← must (NewBIP340PubKey k); Ok (fps ++ [(fpBTCPK, v)]))
          [] (iterB (votingPowerBbnBlockHeightStore s height));
  Ok (sort_stable fpWithPower_less fps).

(** The heights with a voting power table, ascending. *)
Definition tableHeights (s : FinalityState) : list Z :=
  (filter (λ ht : Z * gmap bytes Z, ht.2 ≠ ∅) (iterZ (votingPower s))).*1.

Definition GetBTCStakingActivatedHeight (s : FinalityState) : outcome Z :=
  match head (tableHeights s) with
  | Some h => Ok h
  | None => Err ErrBTCStakingNotActivated
  end.

Definition IsBTCStakingActivated (s : FinalityState) : bool :=
  match tableHeights s with [] => false | _ => true end.

Definition GetCurrentVotingPower (stk : StakingState) (s : FinalityState) (fpBTCPK : bytes) : Z * Z :=
  match last (tableHeights s) with
  | None => (0, 0)
  | Some lastHeight =>
    if negb (HasFinalityProvider stk fpBTCPK) then (lastHeight, 0)
    else (lastHeight, GetVotingPower s fpBTCPK lastHeight)
  end.

Definition IsFinalityActive (ctx : Ctx) (s : FinalityState) : bool :=
  if CtxHeight ctx <? FinalityActivationHeight (finalityParams s) then false
  else is_ok (GetBTCStakingActivatedHeight s).

(** ** Cursors *)

Definition setNextHeightToFinalize (s : FinalityState) (height : Z) : FinalityState :=
  set_nextHeightToFinalize s (Some height).
Definition getNextHeightToFinalize (s : FinalityState) : Z := default 0 (nextHeightToFinalize s).
Definition SetNextHeightToReward (s : FinalityState) (height : Z) : FinalityState :=
  set_nextHeightToReward s (Some height).
Definition GetNextHeightToReward (s : FinalityState) : Z := default 0 (nextHeightToReward s).

Definition SetVotingPowerDistCache (s : FinalityState) (height : Z) (dc : VotingPowerDistCache)
    : FinalityState := set_vpDistCaches s (<[height := dc]> (vpDistCaches s)).
(** The empty cache is stored as no bytes, and read back as [nil]. *)
Definition GetVotingPowerDistCache (s : FinalityState) (height : Z) : option VotingPowerDistCache :=
  match vpDistCaches s !! height with
  | Some (mkDistCache 0 [] 0) | None => None
  | Some dc => Some dc
  end.
Definition RemoveVotingPowerDistCache (s : FinalityState) (height : Z) : FinalityState :=
  set_vpDistCaches s (delete height (vpDistCaches s)).

(** ** Lemmas *)

(** Keys of the per-provider stores are BIP-340 keys, votes are EOTS
    signatures. *)
Definition keys_wf {V} (m : gmap bytes V) : Prop := ∀ k v, m !! k = Some v → length k = 32%nat.

Definition tables_wf (s : FinalityState) : Prop :=
  ∀ h, keys_wf (default ∅ (votingPower s !! h)) ∧ keys_wf (default ∅ (votes s !! h)).

Lemma iterB_perm {V} (m : gmap bytes V) : iterB m ≡ₚ map_to_list m.
Proof. apply iterator_perm. Qed.

Lemma iterB_NoDup {V} (m : gmap bytes V) : NoDup (iterB m).*1.
Proof. apply iterator_NoDup. Qed.

Lemma list_to_map_iterB {V} (m : gmap bytes V) : list_to_map (iterB m) = m.
Proof.
  rewrite <- (list_to_map_to_list m) at 2.
  apply list_to_map_proper; [apply iterB_NoDup|apply iterB_perm].
Qed.

Lemma keys_wf_iterB {V} (m : gmap bytes V) :
  keys_wf m → Forall (λ kv : bytes * V, length kv.1 = 32%nat) (iterB m).
Proof.
  intros Hk. apply Forall_forall. intros [k v] Hin. apply elem_of_iterB in Hin.
  by apply (Hk k v).
Qed.

Lemma NewBIP340PubKey_must k : length k = 32%nat → must (NewBIP340PubKey k) = Ok k.
Proof. intros H. by rewrite (proj2 (NewBIP340PubKey_Ok k k)). Qed.

(** Reading a store keyed by public keys into a map keyed by their hex form. *)
Lemma foldM_hex_map {V} (l : list (bytes * V)) :
  NoDup l.*1 → Forall (λ kv : bytes * V, length kv.1 = 32%nat) l →
  foldM (λ m '(k, v), pk ← must (NewBIP340PubKey k); Ok (<[MarshalHex pk := v]> m)) ∅ l =
  Ok (kmap MarshalHex (list_to_map l : gmap bytes V) : gmap string V).
Proof.
  induction l as [|[k v] l IH] using rev_ind; intros Hnd Hl.
  { simpl. by rewrite kmap_empty. }
  rewrite fmap_app, NoDup_app in Hnd. destruct Hnd as (Hnd & Hdisj & _).
  apply Forall_app in Hl as [Hl Hk]. apply Forall_cons in Hk as [Hk _].
  rewrite foldM_app, IH by done. cbn [mbind outcome_bind foldM].
  rewrite NewBIP340PubKey_must by done. cbn [mbind outcome_bind].
  rewrite list_to_map_snoc by (intros Hin; apply (Hdisj k); [done|by left]).
  by rewrite (kmap_insert MarshalHex).
Qed.

Lemma GetVotingPowerTable_wf s h :
  tables_wf s →
  GetVotingPowerTable s h =
  Ok (if bool_decide (votingPowerBbnBlockHeightStore s h = ∅) then None
      else Some (kmap MarshalHex (votingPowerBbnBlockHeightStore s h))).
Proof.
  intros Hwf. unfold GetVotingPowerTable. case_bool_decide; [done|].
  rewrite foldM_hex_map; [|apply iterB_NoDup|apply keys_wf_iterB, (Hwf h)].
  by rewrite list_to_map_iterB.
Qed.

Lemma foldM_hex_set {V} (l : list (bytes * V)) :
  Forall (λ kv : bytes * V, length kv.1 = 32%nat) l →
  ∃ voters : gset string,
    foldM (λ voters '(k, _), pk ← must (NewBIP340PubKey k); Ok ({[MarshalHex pk]} ∪ voters)) ∅ l =
    Ok voters ∧ ∀ k, MarshalHex k ∈ voters ↔ k ∈ l.*1.
Proof.
  induction l as [|[k v] l IH] using rev_ind; intros Hl.
  { exists ∅. split; [done|]. intros k. set_solver. }
  apply Forall_app in Hl as [Hl Hk]. apply Forall_cons in Hk as [Hk _].
  destruct (IH Hl) as (voters & E & Hv).
  exists ({[MarshalHex k]} ∪ voters). split.
  - rewrite foldM_app, E. cbn [mbind outcome_bind foldM]. by rewrite NewBIP340PubKey_must.
  - intros k'. rewrite fmap_app, elem_of_app, elem_of_union, elem_of_singleton, Hv. cbn.
    rewrite list_elem_of_singleton. split.
    + intros [E'|?]; [right; by apply MarshalHex_inj|by left].
    + intros [Hin| ->]; auto.
Qed.

Lemma GetVotingPowerTableOrdered_wf s h :
  tables_wf s →
  GetVotingPowerTableOrdered s h =
  Ok (sort_stable fpWithPower_less (iterB (votingPowerBbnBlockHeightStore s h))).
Proof.
  intros Hwf. unfold GetVotingPowerTableOrdered.
  assert (∀ l : list (bytes * Z), Forall (λ kv, length kv.1 = 32%nat) l →
    foldM (λ fps '(k, v), fpBTCPK ← must (NewBIP340PubKey k); Ok (fps ++ [(fpBTCPK, v)])) [] l = Ok l) as Hl.
  { intros l. induction l as [|[k v] l IH] using rev_ind; intros Hl; [done|].
    apply Forall_app in Hl as [Hl [Hk _]%Forall_cons]. rewrite foldM_app, IH by done.
    cbn [mbind outcome_bind foldM]. by rewrite NewBIP340PubKey_must. }
  by rewrite Hl by apply keys_wf_iterB, (Hwf h).
Qed.

Lemma GetVoters_wf s h :
  tables_wf s →
  ∃ voters, GetVoters s h = Ok voters ∧
    ∀ k, MarshalHex k ∈ voters ↔ is_Some (get2 h k (votes s)).
Proof.
  intros Hwf. unfold GetVoters.
  destruct (foldM_hex_set (iterB (default ∅ (votes s !! h)))) as (voters & E & Hv).
  { apply keys_wf_iterB, (Hwf h). }
  exists voters. split; [exact E|]. intros k. rewrite Hv, list_elem_of_fmap. unfold get2. split.
  - intros ([k' v] & -> & Hin). apply elem_of_iterB in Hin. eauto.
  - intros [v Hv']. exists (k, v). split; [done|]. by apply elem_of_iterB.
Qed.

Lemma GetBlock_Ok s h b : GetBlock s h = Ok b ↔ blocks s !! h = Some b.
Proof. unfold GetBlock. destruct (blocks s !! h); naive_solver. Qed.

Lemma tableHeights_spec s h :
  h ∈ tableHeights s ↔ votingPowerBbnBlockHeightStore s h ≠ ∅.
Proof.
  unfold tableHeights, votingPowerBbnBlockHeightStore. rewrite list_elem_of_fmap. split.
  - intros ([h' t] & -> & Hin). rewrite list_elem_of_filter in Hin. destruct Hin as [Hne Hin].
    apply elem_of_iterZ in Hin. simpl in *. by rewrite Hin.
  - destruct (votingPower s !! h) as [t|] eqn:E; [|done]. simpl. intros Hne.
    exists (h, t). split; [done|]. rewrite list_elem_of_filter. split; [done|].
    by apply elem_of_iterZ.
Qed.

(** ** An instance: fixed answers of the other modules *)

Definition example_env : FinalityEnv unit := {|
  GetTipHeight _ := Some 100;
  GetBaseBTCHeight _ := 1;
  GetLastFinalizedEpoch _ := 3;
  GetCurrentEpoch _ := Some 2;
  GetEpochByHeight _ h := 1 + h / 10;
  RewardBTCStaking e _ _ _ := Ok e;
  IndexRefundableMsg e _ := e;
  hooks := MultiFinalityHooks []
|}.
