(* ===== verification/Tally.v ===== *)
(** * x/finality/keeper/tallying.go: finalising blocks

    The quorum check and the loop of the end blocker that finalises blocks, with
    the correctness of both: a block is finalised exactly on more than two
    thirds of the voting power of its height, blocks are finalised in order,
    and two quorums at a height share more than a third of the power. *)

From S2P Require Import Prelude Bytes Store BbnTypes BtcStaking FinalityTypes PowerTable FinalityStore.

(** ** Definitions *)

(** The accumulators of [tally] after ranging over some entries. *)
Definition tallyPowers (voterBTCPKs : gset string) (entries : list (string * Z)) : Z * Z :=
  foldl (λ '(totalPower, votedPower) '(pkStr, power),
    (u64 (totalPower + power),
     if bool_decide (pkStr ∈ voterBTCPKs) then u64 (votedPower + power) else votedPower))
    (0, 0) entries.

Definition tally (fpSet : gmap string Z) (voterBTCPKs : gset string) : bool :=
  let '(totalPower, votedPower) := tallyPowers voterBTCPKs (map_to_list fpSet) in
  u64 (totalPower * 2) <? u64 (votedPower * 3).

Definition finalizeBlock (s : FinalityState) (block : IndexedBlock) : FinalityState :=
  let block := mkBlock (ib_Height block) (ib_AppHash block) true in
  setNextHeightToFinalize (SetBlock s block) (u64 (ib_Height block + 1)).

(** The loop over the heights [i, i + 1, ...], [n] of them at most. *)
Fixpoint finalizationLoop (n : nat) (i : Z) (s : FinalityState) : outcome FinalityState :=
  match n with
  | O => Ok s
  | S n =>
    ib ← must (GetBlock s i);
    fpSet ← GetVotingPowerTable s (ib_Height ib);
    match fpSet, ib_Finalized ib with
    | Some fpSet, false =>
      voterBTCPKs ← GetVoters s (ib_Height ib);
      if tally fpSet voterBTCPKs then finalizationLoop n (i + 1) (finalizeBlock s ib)
      else Ok s
    | None, false => finalizationLoop n (i + 1) (setNextHeightToFinalize s (u64 (ib_Height ib + 1)))
    | Some _, true => Panic (Errorf "block is finalized, but last finalized height in DB does not reach here")
    | None, true => Panic (Errorf "block is finalized, but does not have a finality provider set")
    end
  end.

(** The range [[startHeight, maxHeightToFinalize]] of the loop is empty when its
    end is below its start. *)
Definition TallyBlocks (ctx : Ctx) (s : FinalityState) (maxFinalizedBlocks : Z) : outcome FinalityState :=
  activatedHeight ← must (GetBTCStakingActivatedHeight s);
  let startHeight := Z.max (getNextHeightToFinalize s) activatedHeight in
  let currentLastBlockHeight := CtxHeight ctx in
  let s := if negb (HasBlock s currentLastBlockHeight) then IndexBlock ctx s else s in
  let maxHeightToFinalize :=
    Z.min (u64 (u64 (startHeight + maxFinalizedBlocks) - 1)) currentLastBlockHeight in
  finalizationLoop (Z.to_nat (maxHeightToFinalize - startHeight + 1)) startHeight s.

(** ** The quorum check *)

Definition totalPower (entries : list (string * Z)) : Z := sumZ entries.*2.
Definition votedPower (voters : gset string) (entries : list (string * Z)) : Z :=
  totalPower (filter (λ kv, kv.1 ∈ voters) entries).

Lemma totalPower_cons k p l : totalPower ((k, p) :: l) = p + totalPower l.
Proof. done. Qed.

Lemma votedPower_cons voters k p l :
  votedPower voters ((k, p) :: l) =
  (if bool_decide (k ∈ voters) then p else 0) + votedPower voters l.
Proof.
  unfold votedPower. rewrite filter_cons. simpl. case_decide; case_bool_decide; try done.
Qed.

Lemma votedPower_bounds voters l :
  Forall (λ kv, 0 ≤ kv.2) l → 0 ≤ votedPower voters l ≤ totalPower l.
Proof.
  induction 1 as [|[k p] l Hp _ IH]; [done|]. rewrite votedPower_cons, totalPower_cons.
  simpl in Hp. case_bool_decide; lia.
Qed.

Lemma tallyPowers_sum voters l t v :
  Forall (λ kv, 0 ≤ kv.2) l → 0 ≤ t → 0 ≤ v → v ≤ t → t + totalPower l < 2 ^ 64 →
  foldl (λ '(totalPower, votedPower) '(pkStr, power),
    (u64 (totalPower + power),
     if bool_decide (pkStr ∈ voters) then u64 (votedPower + power) else votedPower)) (t, v) l =
  (t + totalPower l, v + votedPower voters l).
Proof.
  intros Hl. revert t v. induction Hl as [|[k p] l Hp Hl IH]; intros t v Ht Hv Hvt Hb.
  { cbn. f_equal; lia. }
  rewrite votedPower_cons, totalPower_cons in *. cbn [foldl snd] in *.
  pose proof (votedPower_bounds voters l Hl).
  rewrite (u64_small (t + p)) by (unfold in_u64; lia).
  case_bool_decide.
  - rewrite (u64_small (v + p)) by (unfold in_u64; lia). rewrite IH by lia. f_equal; lia.
  - rewrite IH by lia. f_equal; lia.
Qed.

Lemma tally_spec fpSet voters :
  Forall (λ kv, 0 ≤ kv.2) (map_to_list fpSet) → 3 * totalPower (map_to_list fpSet) < 2 ^ 64 →
  tally fpSet voters = true ↔
  2 * totalPower (map_to_list fpSet) < 3 * votedPower voters (map_to_list fpSet).
Proof.
  intros Hn Hb. unfold tally, tallyPowers. pose proof (votedPower_bounds voters _ Hn).
  rewrite tallyPowers_sum by (auto; lia). rewrite !Z.add_0_l.
  rewrite !u64_small by (unfold in_u64; lia). rewrite Z.ltb_lt. lia.
Qed.

Lemma votedPower_intersection A B l :
  Forall (λ kv, 0 ≤ kv.2) l →
  votedPower A l + votedPower B l ≤ totalPower l + votedPower (A ∩ B) l.
Proof.
  induction 1 as [|[k p] l Hp _ IH]; [done|]. rewrite !votedPower_cons, totalPower_cons.
  cbn [snd] in Hp. repeat case_bool_decide; first [lia|set_solver].
Qed.

(** The quorum check. On a voting power table whose tripled total fits a
    [uint64], [tally] accepts exactly when the voters hold strictly more than
    two thirds of the total voting power, whatever the order in which the table
    is traversed. *)
Theorem tally_two_thirds fpSet voters entries :
  entries ≡ₚ map_to_list fpSet →
  Forall (λ kv, 0 ≤ kv.2) entries → 3 * totalPower entries < 2 ^ 64 →
  (tally fpSet voters = true ↔ 2 * totalPower entries < 3 * votedPower voters entries) ∧
  tallyPowers voters entries = tallyPowers voters (map_to_list fpSet).
Proof.
  intros Hp Hn Hb. pose proof (votedPower_bounds voters _ Hn).
  assert (totalPower (map_to_list fpSet) = totalPower entries) as Et.
  { unfold totalPower. apply sumZ_perm. by rewrite Hp. }
  assert (votedPower voters (map_to_list fpSet) = votedPower voters entries) as Ev.
  { unfold votedPower, totalPower. apply sumZ_perm. by rewrite Hp. }
  assert (Forall (λ kv, 0 ≤ kv.2) (map_to_list fpSet)) as Hn' by (by rewrite <- Hp).
  split.
  - rewrite <- Et, <- Ev. apply tally_spec; [done|lia].
  - unfold tallyPowers. rewrite !tallyPowers_sum by (auto; lia). by rewrite Et, Ev.
Qed.

(** Quorum intersection. Two sets of voters that both pass [tally] on the
    same voting power table share finality providers that hold strictly more
    than one third of the total power. *)
Theorem tally_quorum_intersection fpSet A B :
  Forall (λ kv, 0 ≤ kv.2) (map_to_list fpSet) → 3 * totalPower (map_to_list fpSet) < 2 ^ 64 →
  tally fpSet A = true → tally fpSet B = true →
  totalPower (map_to_list fpSet) < 3 * votedPower (A ∩ B) (map_to_list fpSet).
Proof.
  intros Hn Hb HA HB. apply tally_spec in HA, HB; [|done..].
  pose proof (votedPower_intersection A B _ Hn). lia.
Qed.

(** ** The finalisation loop *)

Definition hasTable (s : FinalityState) (h : Z) : Prop := votingPowerBbnBlockHeightStore s h ≠ ∅.

(** The signers of a height hold more than two thirds of its voting power. *)
Definition blockQuorum (s : FinalityState) (h : Z) : Prop :=
  2 * sumZ (map_to_list (votingPowerBbnBlockHeightStore s h)).*2 <
  3 * sumZ (filter (λ kv : bytes * Z, is_Some (get2 h kv.1 (votes s)))
              (map_to_list (votingPowerBbnBlockHeightStore s h))).*2.

#[global] Instance hasTable_dec s h : Decision (hasTable s h).
Proof. unfold hasTable. apply _. Defined.
#[global] Instance blockQuorum_dec s h : Decision (blockQuorum s h).
Proof. unfold blockQuorum. apply _. Defined.

(** The powers of a height are sums of satoshis: their total, tripled, is a
    [uint64]. *)
Definition powers_ok (s : FinalityState) (h : Z) : Prop :=
  Forall (λ kv : bytes * Z, 0 ≤ kv.2) (map_to_list (votingPowerBbnBlockHeightStore s h)) ∧
  3 * sumZ (map_to_list (votingPowerBbnBlockHeightStore s h)).*2 < 2 ^ 64.

Lemma totalPower_hex (l : list (bytes * Z)) :
  totalPower (prod_map MarshalHex id <$> l) = sumZ l.*2.
Proof. unfold totalPower. f_equal. induction l as [|[k v] l IH]; [done|]. cbn. by f_equal. Qed.

Lemma votedPower_hex voters (P : bytes → Prop) `{∀ k, Decision (P k)} (l : list (bytes * Z)) :
  (∀ k, MarshalHex k ∈ voters ↔ P k) →
  votedPower voters (prod_map MarshalHex id <$> l) = sumZ (filter (λ kv, P kv.1) l).*2.
Proof.
  intros Hv. induction l as [|[k v] l IH]; [done|].
  change (prod_map MarshalHex id <$> (k, v) :: l) with
    ((MarshalHex k, v) :: (prod_map MarshalHex id <$> l)).
  rewrite votedPower_cons, IH. case_bool_decide as Hk; rewrite Hv in Hk.
  - by rewrite filter_cons_True.
  - by rewrite filter_cons_False.
Qed.

Lemma tally_blockQuorum s h voters :
  powers_ok s h → (∀ k, MarshalHex k ∈ voters ↔ is_Some (get2 h k (votes s))) →
  tally (kmap MarshalHex (votingPowerBbnBlockHeightStore s h)) voters = true ↔ blockQuorum s h.
Proof.
  intros [Hn Hb] Hv. set (t := votingPowerBbnBlockHeightStore s h) in *.
  pose proof (map_to_list_kmap (M2 := gmap string) MarshalHex t) as Hp.
  assert (totalPower (map_to_list (kmap MarshalHex t)) = sumZ (map_to_list t).*2) as Et.
  { rewrite <- totalPower_hex. unfold totalPower. apply sumZ_perm. by rewrite Hp. }
  assert (votedPower voters (map_to_list (kmap MarshalHex t)) =
    sumZ (filter (λ kv : bytes * Z, is_Some (get2 h kv.1 (votes s))) (map_to_list t)).*2) as Ev.
  { transitivity (votedPower voters (prod_map MarshalHex id <$> map_to_list t)).
    - unfold votedPower, totalPower. apply sumZ_perm. by rewrite Hp.
    - exact (votedPower_hex voters (λ k, is_Some (get2 h k (votes s))) (map_to_list t) Hv). }
  rewrite tally_spec; [|by rewrite Hp, Forall_fmap|by rewrite Et].
  by rewrite Et, Ev.
Qed.

Definition finalized (b : IndexedBlock) : IndexedBlock := mkBlock (ib_Height b) (ib_AppHash b) true.

(** What the loop does from height [i] over [n] heights: it stops at some [k],
    the first height with a table and no quorum or the end of the range; it
    finalises exactly the blocks with a table below [k] and moves the cursor to
    [k]. *)
Record loop_result (n : nat) (i k : Z) (s s' : FinalityState) : Prop := {
  lr_range : i ≤ k ≤ i + Z.of_nat n;
  lr_quorum : ∀ h, i ≤ h < k → hasTable s h → blockQuorum s h;
  lr_stop : k < i + Z.of_nat n → hasTable s k ∧ ¬ blockQuorum s k;
  lr_blocks : ∀ h, blocks s' !! h =
    if decide (i ≤ h < k ∧ hasTable s h) then finalized <$> blocks s !! h else blocks s !! h;
  lr_frame : s' = set_nextHeightToFinalize (set_blocks s (blocks s'))
    (if decide (k = i) then nextHeightToFinalize s else Some k)
}.

(** The blocks of a range are indexed, under their heights, and not finalised. *)
Definition unfinalized_range (s : FinalityState) (i j : Z) : Prop :=
  ∀ h, i ≤ h < j → ∃ b, blocks s !! h = Some b ∧ ib_Height b = h ∧ ib_Finalized b = false.

Lemma loop_result_refl n i s :
  (0 < Z.of_nat n → hasTable s i ∧ ¬ blockQuorum s i) → loop_result n i i s s.
Proof.
  intros Hstop. constructor; [lia|lia|intros; apply Hstop; lia| |].
  - intros h. by rewrite decide_False by lia.
  - rewrite decide_True by done. by destruct s.
Qed.

(** One more block in front of a run of the loop. *)
Lemma loop_result_cons n i k s s1 s' :
  (hasTable s i → blockQuorum s i) →
  (s1 = setNextHeightToFinalize (set_blocks s (blocks s1)) (i + 1)) →
  (∀ h, blocks s1 !! h = if decide (h = i ∧ hasTable s h) then finalized <$> blocks s !! h
                         else blocks s !! h) →
  loop_result n (i + 1) k s1 s' → loop_result (S n) i k s s'.
Proof.
  intros Hq Hs1 Hb1 [Hr Hq' Hst Hb Hf].
  assert (∀ h, hasTable s1 h ↔ hasTable s h) as Ht by (intros h; by rewrite Hs1).
  assert (∀ h, blockQuorum s1 h ↔ blockQuorum s h) as Hbq by (intros h; by rewrite Hs1).
  constructor; [lia| | | |].
  - intros h Hh Hth. destruct (decide (h = i)) as [->|Hne]; [auto|].
    apply Hbq, Hq'; [lia|by apply Ht].
  - intros Hk. rewrite <- Ht, <- Hbq. apply Hst. lia.
  - intros h. rewrite Hb, Hb1.
    destruct (decide (h = i)) as [->|Hne].
    + rewrite (decide_False (P := i + 1 ≤ i < k ∧ _)) by lia.
      destruct (decide (hasTable s i)).
      * by rewrite !decide_True by (split; [lia|done]).
      * rewrite !decide_False by (by intros [_ ?]). done.
    + rewrite (decide_False (P := h = i ∧ _)) by (by intros [? _]).
      apply decide_ext. rewrite Ht. split; intros [? ?]; (split; [lia|done]).
  - etransitivity; [exact Hf|]. clear -Hs1 Hr. generalize dependent (blocks s1).
    intros m ->. rewrite (decide_False (P := k = i)) by lia. simpl.
    unfold set_nextHeightToFinalize, set_blocks. simpl. f_equal.
    case_decide as Hk; [by rewrite Hk|done].
Qed.

Lemma finalizationLoop_correct n i s :
  tables_wf s → (∀ h, i ≤ h < i + Z.of_nat n → powers_ok s h) →
  unfinalized_range s i (i + Z.of_nat n) → 0 ≤ i → i + Z.of_nat n < 2 ^ 64 →
  ∃ k s', finalizationLoop n i s = Ok s' ∧ loop_result n i k s s'.
Proof.
  revert i s. induction n as [|n IH]; intros i s Hwf Hp Hu Hi Hn.
  { exists i, s. split; [done|]. by apply loop_result_refl. }
  destruct (Hu i) as ([hb app fl] & Hb & Eh & Hfl); [lia|]. simpl in Eh, Hfl. subst hb fl.
  cbn [finalizationLoop]. rewrite (proj2 (GetBlock_Ok s i _) Hb). cbn [must mbind outcome_bind ib_Height ib_Finalized].
  rewrite GetVotingPowerTable_wf by done. cbn [mbind outcome_bind].
  case_bool_decide as Ht.
  - set (s1 := setNextHeightToFinalize s (u64 (i + 1))).
    destruct (IH (i + 1) s1) as (k & s' & E & Hlr); [done|intros h ?; apply Hp; lia| |lia|lia|].
    { intros h Hh. apply Hu. lia. }
    exists k, s'. split; [done|]. eapply loop_result_cons; [done| | |exact Hlr].
    + unfold s1. rewrite u64_small by (unfold in_u64; lia). by destruct s.
    + intros h. rewrite decide_False; [done|]. by intros [-> ?].
  - destruct (GetVoters_wf s i Hwf) as (voters & Ev & Hv). rewrite Ev. cbn [mbind outcome_bind].
    assert (powers_ok s i) as Hpi by (apply Hp; lia).
    pose proof (tally_blockQuorum s i voters Hpi Hv) as Htally.
    destruct (tally _ voters) eqn:Etally.
    + set (s1 := finalizeBlock s (mkBlock i app false)).
      destruct (IH (i + 1) s1) as (k & s' & E & Hlr); [done|intros h ?; apply Hp; lia| |lia|lia|].
      { intros h Hh. simpl. rewrite lookup_insert_ne by lia. apply Hu. lia. }
      exists k, s'. split; [done|]. eapply loop_result_cons; [| | |exact Hlr].
      * intros _. by apply Htally.
      * unfold s1, finalizeBlock. simpl. rewrite u64_small by (unfold in_u64; lia). by destruct s.
      * intros h. simpl. destruct (decide (h = i)) as [->|Hne].
        -- rewrite lookup_insert_eq, decide_True by done. by rewrite Hb.
        -- rewrite lookup_insert_ne by done. rewrite decide_False; [done|]. by intros [? _].
    + exists i, s. split; [done|]. apply loop_result_refl. intros _. split; [done|].
      intros Hbq. apply Htally in Hbq. congruence.
Qed.

(** ** The chain of finalised blocks *)

(** The next height to examine, from the activation height [a]. *)
Definition startHeight (s : FinalityState) (a : Z) : Z := Z.max (getNextHeightToFinalize s) a.

(** Between two blocks, with [a] the activation height and [cur] the last
    indexed height: blocks are stored under their heights; every height since
    the activation is indexed; a block is finalised exactly when it is below
    the cursor and its height has a voting power table, and then it has a
    quorum. *)
Record finalization_inv (s : FinalityState) (a cur : Z) : Prop := {
  fi_keys : ∀ h b, blocks s !! h = Some b → ib_Height b = h;
  fi_indexed : ∀ h, a ≤ h ≤ cur → is_Some (blocks s !! h);
  fi_above : ∀ h, cur < h → blocks s !! h = None;
  fi_final : ∀ h b, blocks s !! h = Some b →
    ib_Finalized b = true ↔ a ≤ h < startHeight s a ∧ hasTable s h;
  fi_quorum : ∀ h, a ≤ h < startHeight s a → hasTable s h → blockQuorum s h;
  fi_start : startHeight s a ≤ cur + 1
}.

Lemma IndexBlock_inv ctx s a cur :
  finalization_inv s a cur → CtxHeight ctx = cur + 1 → finalization_inv (IndexBlock ctx s) a (cur + 1).
Proof.
  intros [Hk Hi Ha Hf Hq Hs] Hc. unfold IndexBlock, SetBlock. cbn [ib_Height]. rewrite Hc.
  constructor; simpl.
  - intros h b. rewrite lookup_insert_Some. intros [[<- <-]|[_ ?]]; [done|auto].
  - intros h Hh. destruct (decide (h = cur + 1)) as [->|Hne].
    + rewrite lookup_insert_eq. eauto.
    + rewrite lookup_insert_ne by done. apply Hi. lia.
  - intros h Hh. rewrite lookup_insert_ne by lia. apply Ha. lia.
  - intros h b. rewrite lookup_insert_Some. intros [[<- <-]|[_ ?]]; [|by apply Hf].
    simpl. split; [done|]. intros [? _]. unfold startHeight, getNextHeightToFinalize in *. simpl in *. lia.
  - done.
  - unfold startHeight, getNextHeightToFinalize in *. simpl in *. lia.
Qed.

Lemma finalization_inv_unfinalized s a cur j :
  finalization_inv s a cur → j ≤ cur + 1 → unfinalized_range s (startHeight s a) j.
Proof.
  intros [Hk Hi _ Hf _ _] Hj h Hh. destruct (Hi h) as [b Hb]; [unfold startHeight in *; lia|].
  exists b. split_and!; [done|by apply Hk|]. destruct (ib_Finalized b) eqn:E; [|done].
  apply (Hf _ _ Hb) in E as [? _]. lia.
Qed.

Lemma loop_result_inv n k s s' a cur :
  loop_result n (startHeight s a) k s s' → finalization_inv s a cur →
  startHeight s a + Z.of_nat n ≤ cur + 1 →
  startHeight s' a = k ∧ finalization_inv s' a cur ∧
  votes s' = votes s ∧ votingPower s' = votingPower s.
Proof.
  intros [Hr Hq Hst Hb Hf] Hinv Hn. pose proof Hinv as [Ik Ii Ia If Iq Is].
  assert (votes s' = votes s ∧ votingPower s' = votingPower s) as [Ev Ep] by (by rewrite Hf).
  assert (∀ h, hasTable s' h ↔ hasTable s h) as Ht
    by (intros h; unfold hasTable, votingPowerBbnBlockHeightStore; by rewrite Ep).
  assert (∀ h, blockQuorum s' h ↔ blockQuorum s h) as Hbq
    by (intros h; unfold blockQuorum, votingPowerBbnBlockHeightStore; by rewrite Ep, Ev).
  assert (startHeight s' a = k) as Hk.
  { unfold startHeight, getNextHeightToFinalize. rewrite Hf. simpl.
    case_decide as E; [by rewrite E|]. unfold startHeight in *. simpl. lia. }
  clear Hf. split; [done|]. split; [|done]. constructor.
  - intros h b. rewrite Hb. case_decide; [|apply Ik].
    intros (b0 & Hb0 & ->)%fmap_Some. simpl. by apply Ik.
  - intros h Hh. rewrite Hb. case_decide; [apply fmap_is_Some|]; by apply Ii.
  - intros h Hh. rewrite Hb. case_decide; rewrite (Ia h Hh); done.
  - intros h b. rewrite Hk, Ht, Hb. case_decide as Hd.
    + intros (b0 & Hb0 & ->)%fmap_Some. simpl. split; [|done]. intros _.
      unfold startHeight in *. split; [lia|apply Hd].
    + intros Hbh. rewrite (If h b Hbh). unfold startHeight in *.
      split; [intros [? ?]; split; [lia|done]|]. intros [Hh Hth].
      split; [|done]. destruct (decide (h < Z.max (getNextHeightToFinalize s) a)); [lia|].
      destruct Hd. split; [lia|done].
  - intros h Hh. rewrite Hbq, Ht. intros Hth.
    destruct (decide (h < startHeight s a)); [apply Iq; [lia|done]|].
    apply Hq; [lia|done].
  - lia.
Qed.

(** One end block's worth of finalisation. *)
Lemma TallyBlocks_step ctx s a cur maxBlocks :
  GetBTCStakingActivatedHeight s = Ok a → finalization_inv s a cur →
  CtxHeight ctx = cur + 1 → 0 ≤ a ≤ cur + 1 → cur + 1 < 2 ^ 63 → 0 < maxBlocks < 2 ^ 63 →
  tables_wf s → (∀ h, powers_ok s h) →
  ∃ s', TallyBlocks ctx s maxBlocks = Ok s' ∧ finalization_inv s' a (cur + 1) ∧
    startHeight s a ≤ startHeight s' a ∧
    startHeight s' a ≤ Z.min (startHeight s a + maxBlocks) (cur + 2) ∧
    (startHeight s' a < Z.min (startHeight s a + maxBlocks) (cur + 2) →
       hasTable s' (startHeight s' a) ∧ ¬ blockQuorum s' (startHeight s' a)) ∧
    s' = set_nextHeightToFinalize (set_blocks s (blocks s')) (nextHeightToFinalize s').
Proof.
  intros Ha Hinv Hc Hac Hcur Hmax Hwf Hp. unfold TallyBlocks. rewrite Ha, Hc. cbn [must mbind outcome_bind].
  fold (startHeight s a).
  assert (HasBlock s (cur + 1) = false) as ->.
  { unfold HasBlock. apply bool_decide_false. rewrite (fi_above _ _ _ Hinv) by lia. by intros [? ?]. }
  cbn [negb]. pose proof (IndexBlock_inv ctx s a cur Hinv Hc) as Hinv1.
  set (s1 := IndexBlock ctx s) in *. pose proof (fi_start _ _ _ Hinv) as Hs.
  assert (0 ≤ startHeight s a) by (unfold startHeight; lia).
  rewrite (u64_small (_ + maxBlocks)) by (unfold in_u64; lia).
  rewrite u64_small by (unfold in_u64; lia).
  set (n := Z.to_nat _). assert (Z.of_nat n = Z.min maxBlocks (cur + 2 - startHeight s a)) as Hn by lia.
  change (startHeight s a) with (startHeight s1 a) in *.
  destruct (finalizationLoop_correct n (startHeight s1 a) s1) as (k & s' & E & Hlr);
    [done|intros h _; apply Hp|eapply finalization_inv_unfinalized; [done|lia]|lia|lia|].
  exists s'. split; [exact E|].
  destruct (loop_result_inv _ _ _ _ _ _ Hlr Hinv1) as (Hk & Hinv' & Ev & Ep); [lia|].
  destruct Hlr as [Hr _ Hst _ Hf]. rewrite Hk. split_and!; [done|lia|lia| |].
  2: { unfold s1, IndexBlock, SetBlock in Hf. rewrite Hf. simpl. by destruct (decide _). }
  intros Hlt. destruct Hst as [Ht Hq]; [lia|].
  unfold hasTable, blockQuorum, votingPowerBbnBlockHeightStore in *. by rewrite Ep, Ev.
Qed.

(** C6: Finalisation. Running [TallyBlocks] at the block after the last indexed
    one never panics and keeps the chain of finalised blocks sound: afterwards
    every height from the activation up to the cursor is either finalised,
    with signatures of more than two thirds of its voting power, or has no
    voting power table; no later block is finalised; the cursor stops only at
    the end of the allowed range or at the first height with a table and no
    quorum. Votes and voting power tables are untouched. *)
Theorem TallyBlocks_correct ctx s a cur maxBlocks :
  GetBTCStakingActivatedHeight s = Ok a → finalization_inv s a cur →
  CtxHeight ctx = cur + 1 → 0 ≤ a ≤ cur + 1 → cur + 1 < 2 ^ 63 → 0 < maxBlocks < 2 ^ 63 →
  tables_wf s → (∀ h, powers_ok s h) →
  ∃ s', TallyBlocks ctx s maxBlocks = Ok s' ∧ finalization_inv s' a (cur + 1) ∧
    startHeight s a ≤ startHeight s' a ∧
    startHeight s' a ≤ Z.min (startHeight s a + maxBlocks) (cur + 2) ∧
    (startHeight s' a < Z.min (startHeight s a + maxBlocks) (cur + 2) →
       hasTable s' (startHeight s' a) ∧ ¬ blockQuorum s' (startHeight s' a)) ∧
    votes s' = votes s ∧ votingPower s' = votingPower s.
Proof.
  intros Ha Hinv Hc Hac Hcur Hmax Hwf Hp.
  destruct (TallyBlocks_step ctx s a cur maxBlocks) as (s' & ? & ? & ? & ? & ? & Hf); [done..|].
  exists s'. split_and!; try done; by rewrite Hf.
Qed.

(** ** Witnesses *)

Definition example_table : gmap string Z := <["a" := 30]> (<["b" := 30]> {["c" := 30]}).

Lemma tally_two_thirds_witness :
  tally example_table {["a"; "b"; "c"]} = true ∧ tally example_table {["a"; "b"]} = false.
Proof.
  assert (Forall (λ kv : string * Z, 0 ≤ kv.2) (map_to_list example_table)) as Hn
    by (apply (bool_decide_unpack _); vm_compute; exact I).
  split.
  - apply (tally_two_thirds example_table {["a"; "b"; "c"]} (map_to_list example_table));
      [reflexivity|exact Hn|vm_compute; reflexivity|vm_compute; reflexivity].
  - apply not_true_is_false. intros H.
    apply (tally_two_thirds example_table {["a"; "b"]} (map_to_list example_table)) in H;
      [vm_compute in H; discriminate H|reflexivity|exact Hn|vm_compute; reflexivity].
Defined.

Lemma tally_quorum_intersection_witness :
  let t := <["d" := 30]> example_table in
  totalPower (map_to_list t) <
  3 * votedPower ({["a"; "b"; "c"]} ∩ {["b"; "c"; "d"]}) (map_to_list t).
Proof.
  intros t. apply tally_quorum_intersection.
  - apply (bool_decide_unpack _). vm_compute. exact I.
  - vm_compute. reflexivity.
  - vm_compute. reflexivity.
  - vm_compute. reflexivity.
Defined.

(** One provider with power 10 since height 5, which has voted at height 5. *)
Definition example_finality : FinalityState :=
  SetSig (SetVotingPower (empty_finality DefaultFinalityParams) example_pk 5 10) 5 example_pk
    (replicate 32 "000"%byte).
Definition example_ctx5 : Ctx := mkCtx 5 (replicate 32 "007"%byte) 0.

Lemma example_finality_wf : tables_wf example_finality.
Proof.
  intros h. unfold keys_wf, example_finality, SetSig, SetVotingPower, set2. simpl.
  rewrite !lookup_empty. simpl.
  destruct (decide (h = 5)) as [->|Hne].
  - rewrite !lookup_insert_eq. simpl. split; intros k v H;
      apply lookup_insert_Some in H as [[<- _]|[_ H]]; first [done|by apply lookup_empty_Some in H].
  - rewrite !lookup_insert_ne, !lookup_empty by done. simpl.
    split; intros k v H; by apply lookup_empty_Some in H.
Qed.

Lemma example_finality_powers h : powers_ok example_finality h.
Proof.
  unfold powers_ok, votingPowerBbnBlockHeightStore, example_finality, SetSig, SetVotingPower, set2.
  simpl. rewrite lookup_empty. simpl. destruct (decide (h = 5)) as [->|Hne].
  - rewrite lookup_insert_eq. simpl. rewrite insert_empty, map_to_list_singleton.
    split; [repeat constructor; simpl; lia|simpl; lia].
  - rewrite lookup_insert_ne, lookup_empty by done. simpl. rewrite map_to_list_empty.
    split; [constructor|simpl; lia].
Qed.

Lemma TallyBlocks_correct_witness :
  ∃ s', TallyBlocks example_ctx5 example_finality 10000 = Ok s' ∧
    blocks s' !! 5 = Some (mkBlock 5 (replicate 32 "007"%byte) true) ∧ startHeight s' 5 = 6.
Proof.
  destruct (TallyBlocks_correct example_ctx5 example_finality 5 4 10000) as (s' & E & _).
  - vm_compute. reflexivity.
  - constructor.
    + intros h b H. by apply (lookup_empty_Some (M := gmap Z) h b) in H.
    + intros h Hh. lia.
    + intros h _. apply lookup_empty.
    + intros h b H. by apply (lookup_empty_Some (M := gmap Z) h b) in H.
    + intros h Hh. change (startHeight example_finality 5) with 5 in Hh. lia.
    + vm_compute. discriminate.
  - reflexivity.
  - lia.
  - lia.
  - lia.
  - apply example_finality_wf.
  - apply example_finality_powers.
  - exists s'. split; [exact E|].
    assert (match TallyBlocks example_ctx5 example_finality 10000 with
            | Ok s => blocks s !! 5 = Some (mkBlock 5 (replicate 32 "007"%byte) true) ∧ startHeight s 5 = 6
            | _ => False
            end) as H by (vm_compute; split; reflexivity).
    rewrite E in H. exact H.
Defined.
