(* ===== verification/Liveness.v ===== *)
(** * x/finality/keeper/liveness.go and signing_info.go: liveness tracking

    The bitmap of missed blocks of a finality provider over the sliding window,
    its counter, and the jailing of sluggish providers. *)

From S2P Require Import Prelude Bytes Store BbnTypes BtcStaking FinalityTypes PowerTable FinalityStore.

(** ** The missed block bitmap *)

(** Go's integer division and remainder truncate; a chunk index is cast to
    [uint64]. *)
Definition chunkIndexOf (index : Z) : Z := u64 (Z.quot index MissedBlockBitmapChunkSize).
Definition bitIndexOf (index : Z) : Z := Z.rem index MissedBlockBitmapChunkSize.

Definition getMissedBlockBitmapChunk (s : FinalityState) (fpPk : bytes) (chunkIndex : Z) : Z :=
  default 0 (get2 fpPk chunkIndex (missedBlocks s)).

Definition SetMissedBlockBitmapChunk (s : FinalityState) (fpPk : bytes) (chunkIndex chunk : Z)
    : FinalityState := set_missedBlocks s (set2 fpPk chunkIndex chunk (missedBlocks s)).

Definition GetMissedBlockBitmapValue (s : FinalityState) (fpPk : bytes) (index : Z) : bool :=
  Z.testbit (getMissedBlockBitmapChunk s fpPk (chunkIndexOf index)) (bitIndexOf index).

Definition SetMissedBlockBitmapValue (s : FinalityState) (fpPk : bytes) (index : Z) (missed : bool)
    : FinalityState :=
  let chunk := getMissedBlockBitmapChunk s fpPk (chunkIndexOf index) in
  let updatedChunk := if missed then Z.setbit chunk (bitIndexOf index)
                      else Z.clearbit chunk (bitIndexOf index) in
  SetMissedBlockBitmapChunk s fpPk (chunkIndexOf index) updatedChunk.

Definition DeleteMissedBlockBitmap (s : FinalityState) (fpPk : bytes) : FinalityState :=
  set_missedBlocks s (delete fpPk (missedBlocks s)).

(** The callbacks of [IterateMissedBlockBitmap] that never stop: the index counts
    the bits of the chunks present in the store. *)
Definition IterateMissedBlockBitmap (s : FinalityState) (fpPk : bytes) : list (Z * bool) :=
  let bits := iterZ (default ∅ (missedBlocks s !! fpPk)) ≫=
    (λ kv, (λ i, Z.testbit kv.2 i) <$> seqZ 0 MissedBlockBitmapChunkSize) in
  zip (seqZ 0 (Z.of_nat (length bits))) bits.

Definition GetFinalityProviderMissedBlocks (s : FinalityState) (fpPk : bytes) : list Z :=
  (filter (λ kv : Z * bool, kv.2 = true) (IterateMissedBlockBitmap s fpPk)).*1.

(** ** Liveness *)

Definition UpdateSigningInfo (s : FinalityState) (fpPk : bytes) (missed : bool) (height : Z)
    : outcome (FinalityState * bool * FinalityProviderSigningInfo) :=
  match signingInfos s !! fpPk with
  | None => Err (Errorf "the signing info is not created")
  | Some signInfo =>
    if height <? fsi_StartHeight signInfo then Ok (s, false, signInfo)
    else
      let index := Z.rem (height - fsi_StartHeight signInfo) (SignedBlocksWindow (finalityParams s)) in
      let previous := GetMissedBlockBitmapValue s fpPk index in
      if negb previous && missed then
        Ok (SetMissedBlockBitmapValue s fpPk index true, true, IncrementMissedBlocksCounter signInfo)
      else if previous && negb missed then
        Ok (SetMissedBlockBitmapValue s fpPk index false, true, DecrementMissedBlocksCounter signInfo)
      else Ok (s, false, signInfo)
  end.

Definition setSigningInfo (s : FinalityState) (fpPk : bytes) (si : FinalityProviderSigningInfo)
    : FinalityState := set_signingInfos s (<[fpPk := si]> (signingInfos s)).

Section liveness.
Context {rounding : DecRounding}.

(** [btcTip] is the tip of the BTC light client. *)
Definition jailSluggishFinalityProvider (btcTip : option Z) (s : FinalityState) (stk : StakingState)
    (fpBtcPk : bytes) : outcome (FinalityState * StakingState) :=
  stk ← JailFinalityProvider btcTip stk fpBtcPk;
  Ok (emit s (EventJailedFinalityProvider fpBtcPk), stk).

Definition HandleFinalityProviderLiveness (ctx : Ctx) (btcTip : option Z)
    (s : FinalityState) (stk : StakingState) (fpPk : bytes) (missed : bool) (height : Z)
    : outcome (FinalityState * StakingState) :=
  let params := finalityParams s in
  fp ← GetFinalityProvider stk fpPk;
  if IsSlashed fp || IsJailed fp then Ok (s, stk)
  else
    UpdateSigningInfo s fpPk missed height ≫=
    λ (r : FinalityState * bool * FinalityProviderSigningInfo),
    let '(s, updated, signInfo) := r in
    let signedBlocksWindow := SignedBlocksWindow params in
    let minSignedPerWindow := MinSignedPerWindowInt params in
    let minHeight := i64 (fsi_StartHeight signInfo + signedBlocksWindow) in
    let maxMissed := i64 (signedBlocksWindow - minSignedPerWindow) in
    if (minHeight <? height) && (maxMissed <? fsi_MissedBlocksCounter signInfo) then
      '(s, stk) ← wrapf "failed to jail sluggish finality provider"
                    (jailSluggishFinalityProvider btcTip s stk fpPk);
      let signInfo := with_jailed_until signInfo (HeaderTime ctx + JailDuration params) in
      let signInfo := ResetMissedBlocksCounter signInfo in
      let s := DeleteMissedBlockBitmap s fpPk in
      Ok (setSigningInfo s fpPk signInfo, stk)
    else if updated then Ok (setSigningInfo s fpPk signInfo, stk)
    else Ok (s, stk).

(** The providers are visited in descending order of voting power. *)
Definition HandleLiveness (ctx : Ctx) (btcTip : option Z) (s : FinalityState) (stk : StakingState)
    (height : Z) : outcome (FinalityState * StakingState) :=
  vpTableOrdered ← GetVotingPowerTableOrdered s (u64 height);
  voterBTCPKs ← GetVoters s (u64 height);
  foldM (λ (st : FinalityState * StakingState) (fpWithVp : bytes * Z),
    let missed := negb (bool_decide (MarshalHex fpWithVp.1 ∈ voterBTCPKs)) in
    must (HandleFinalityProviderLiveness ctx btcTip st.1 st.2 fpWithVp.1 missed height))
    (s, stk) vpTableOrdered.

End liveness.

(** ** Lemmas on the bitmap *)

Lemma index_split i : 0 ≤ i → i = chunkIndexOf i * MissedBlockBitmapChunkSize + bitIndexOf i ∨ 2 ^ 64 ≤ i.
Proof.
  intros Hi. unfold chunkIndexOf, bitIndexOf, MissedBlockBitmapChunkSize.
  destruct (Z.lt_ge_cases i (2 ^ 64)); [left|by right].
  pose proof (Z.quot_rem' i 1024). pose proof (Z.quot_pos i 1024).
  rewrite u64_small; [lia|]. unfold in_u64. split; [lia|].
  apply Z.le_lt_trans with i; [|done]. apply Z.quot_le_upper_bound; lia.
Qed.

Lemma bitIndexOf_range i : 0 ≤ i → 0 ≤ bitIndexOf i < MissedBlockBitmapChunkSize.
Proof. intros Hi. unfold bitIndexOf. apply Z.rem_bound_pos; unfold MissedBlockBitmapChunkSize; lia. Qed.

Lemma index_inj i j :
  0 ≤ i < 2 ^ 64 → 0 ≤ j < 2 ^ 64 → chunkIndexOf i = chunkIndexOf j → bitIndexOf i = bitIndexOf j → i = j.
Proof.
  intros Hi Hj Hc Hb.
  destruct (index_split i) as [Ei|]; [lia| |lia]. destruct (index_split j) as [Ej|]; [lia| |lia].
  rewrite Ei, Ej. congruence.
Qed.

(** Setting a bit changes that bit only. *)
Lemma Set_Get_bitmap s pk i b pk' j :
  0 ≤ i < 2 ^ 64 → 0 ≤ j < 2 ^ 64 →
  GetMissedBlockBitmapValue (SetMissedBlockBitmapValue s pk i b) pk' j =
  if decide (pk = pk' ∧ i = j) then b else GetMissedBlockBitmapValue s pk' j.
Proof.
  intros Hi Hj. unfold GetMissedBlockBitmapValue, SetMissedBlockBitmapValue, getMissedBlockBitmapChunk.
  simpl. rewrite get2_set2. pose proof (bitIndexOf_range i). pose proof (bitIndexOf_range j).
  destruct (decide ((pk, chunkIndexOf i) = (pk', chunkIndexOf j))) as [E|Hne].
  - injection E as -> Hc. simpl. rewrite Hc. case_decide as Hd.
    + destruct Hd as [_ ->]. destruct b.
      * rewrite Z.setbit_eqb by lia. by rewrite Z.eqb_refl.
      * rewrite Z.clearbit_eqb, Z.eqb_refl. by rewrite andb_false_r.
    + assert (bitIndexOf i ≠ bitIndexOf j) as Hb by (intros Hb; apply Hd; split; [done|by apply index_inj]).
      destruct b; [by rewrite Z.setbit_neq by lia|by rewrite Z.clearbit_neq by lia].
  - rewrite decide_False; [done|]. intros [-> ->]. done.
Qed.

Lemma Delete_Get_bitmap s pk pk' j :
  GetMissedBlockBitmapValue (DeleteMissedBlockBitmap s pk) pk' j =
  if decide (pk = pk') then false else GetMissedBlockBitmapValue s pk' j.
Proof.
  unfold GetMissedBlockBitmapValue, getMissedBlockBitmapChunk, get2. simpl. case_decide as E.
  - subst. rewrite lookup_delete_eq. simpl. rewrite lookup_empty. simpl. apply Z.bits_0.
  - by rewrite lookup_delete_ne.
Qed.

(** ** The counter *)

(** The number of set bits among the indices [[0, w)]. *)
Definition missedCount (s : FinalityState) (pk : bytes) (w : Z) : Z :=
  Z.of_nat (length (filter (λ i, GetMissedBlockBitmapValue s pk i = true) (seqZ 0 w))).

Lemma filter_ext_Z (f g : Z → bool) (l : list Z) :
  (∀ i, i ∈ l → f i = g i) → filter (λ i, f i = true) l = filter (λ i, g i = true) l.
Proof.
  induction l as [|x l IH]; intros H; [done|].
  assert (f x = g x) as E by (apply H; set_solver).
  rewrite !filter_cons, E, IH; [done|]. intros i Hi. apply H. set_solver.
Qed.

Lemma filter_flip (f g : Z → bool) (l : list Z) x :
  NoDup l → x ∈ l → f x = false → g x = true → (∀ i, i ≠ x → f i = g i) →
  length (filter (λ i, g i = true) l) = S (length (filter (λ i, f i = true) l)).
Proof.
  intros Hnd Hx Hf Hg Hne. induction l as [|y l IH]; [by apply elem_of_nil in Hx|].
  apply NoDup_cons in Hnd as [Hy Hnd]. rewrite !filter_cons.
  apply elem_of_cons in Hx as [<-|Hx].
  - rewrite Hf, Hg. simpl. f_equal. f_equal. apply filter_ext_Z. intros i Hi.
    symmetry. apply Hne. intros ->. done.
  - assert (y ≠ x) as Hyx by (by intros ->). rewrite (Hne y Hyx). specialize (IH Hnd Hx).
    case_decide; simpl; lia.
Qed.

Lemma missedCount_range s pk w : 0 ≤ w → 0 ≤ missedCount s pk w ≤ w.
Proof.
  intros Hw. unfold missedCount. split; [lia|].
  pose proof (length_filter (λ i, GetMissedBlockBitmapValue s pk i = true) (seqZ 0 w)) as Hl.
  rewrite length_seqZ in Hl. lia.
Qed.

Lemma missedCount_ext s s' pk w :
  (∀ j, 0 ≤ j < w → GetMissedBlockBitmapValue s' pk j = GetMissedBlockBitmapValue s pk j) →
  missedCount s' pk w = missedCount s pk w.
Proof.
  intros H. unfold missedCount. do 2 f_equal. apply filter_ext_Z. intros i Hi.
  apply elem_of_seqZ in Hi. apply H. lia.
Qed.

(** Writing one bit of the window moves the count by the change of that bit. *)
Lemma missedCount_set s pk i b w :
  0 ≤ i < w → w < 2 ^ 64 →
  missedCount (SetMissedBlockBitmapValue s pk i b) pk w =
  missedCount s pk w + Z.b2z b - Z.b2z (GetMissedBlockBitmapValue s pk i).
Proof.
  intros Hi Hw. unfold missedCount.
  set (f := GetMissedBlockBitmapValue s pk).
  set (g := GetMissedBlockBitmapValue (SetMissedBlockBitmapValue s pk i b) pk).
  assert (g i = b) as Hgi by (unfold g; rewrite Set_Get_bitmap, decide_True by (done || lia); done).
  assert (∀ j, j ∈ seqZ 0 w → j ≠ i → g j = f j) as Hgf.
  { intros j Hj Hne. apply elem_of_seqZ in Hj. unfold g. rewrite Set_Get_bitmap by lia.
    rewrite decide_False; [done|]. intros [_ ?]. congruence. }
  assert (i ∈ seqZ 0 w) as Hin by (apply elem_of_seqZ; lia).
  set (f' := λ j, if decide (j = i) then f i else g j).
  assert (filter (λ j, f j = true) (seqZ 0 w) = filter (λ j, f' j = true) (seqZ 0 w)) as ->.
  { apply filter_ext_Z. intros j Hj. unfold f'. case_decide as E; [by rewrite E|].
    symmetry. by apply Hgf. }
  destruct (f i) eqn:Ef, b; unfold Z.b2z.
  - rewrite (filter_ext_Z g f'); [lia|]. intros j _. unfold f'. case_decide as E; [congruence|done].
  - rewrite (filter_flip g f' (seqZ 0 w) i); [lia|apply NoDup_seqZ|done|done| |].
    + unfold f'. by rewrite decide_True.
    + intros j Hne. unfold f'. by rewrite decide_False.
  - rewrite (filter_flip f' g (seqZ 0 w) i); [lia|apply NoDup_seqZ|done| |done|].
    + unfold f'. by rewrite decide_True.
    + intros j Hne. unfold f'. by rewrite decide_False.
  - rewrite (filter_ext_Z g f'); [lia|]. intros j _. unfold f'. case_decide as E; [congruence|done].
Qed.

(** ** The invariant

    Every tracked provider's counter is the number of missed blocks recorded in
    the window. *)
Definition liveness_wf (s : FinalityState) : Prop :=
  FinalityParams_Validate (finalityParams s) = Ok tt ∧ SignedBlocksWindow (finalityParams s) < 2 ^ 62 ∧
  ∀ pk si, signingInfos s !! pk = Some si →
    fsi_MissedBlocksCounter si = missedCount s pk (SignedBlocksWindow (finalityParams s)).

(** [s'] is [s] with bit [i] of the provider's bitmap equal to [b]. *)
Definition bit_written (s s' : FinalityState) (pk : bytes) (i : Z) (b : bool) : Prop :=
  s' = set_missedBlocks s (missedBlocks s') ∧
  ∀ pk' j, 0 ≤ j < 2 ^ 64 → GetMissedBlockBitmapValue s' pk' j =
    if decide (pk = pk' ∧ i = j) then b else GetMissedBlockBitmapValue s pk' j.

Lemma UpdateSigningInfo_spec s pk missed height si :
  liveness_wf s → signingInfos s !! pk = Some si →
  fsi_StartHeight si ≤ height →
  let w := SignedBlocksWindow (finalityParams s) in
  let idx := (height - fsi_StartHeight si) `rem` w in
  ∃ s' updated si', UpdateSigningInfo s pk missed height = Ok (s', updated, si') ∧
    0 ≤ idx < w ∧ bit_written s s' pk idx missed ∧
    si' = with_counter si (missedCount s' pk w) ∧
    (updated = false → s' = s ∧ si' = si).
Proof.
  intros (Hp & Hw & Hc) Hsi Hh w idx. apply FinalityParams_Validate_Ok in Hp as (_ & Hw0 & _).
  fold w in Hw, Hw0. specialize (Hc pk si Hsi). fold w in Hc.
  assert (0 ≤ idx < w) as Hidx by (apply Z.rem_bound_pos; lia).
  pose proof (missedCount_range s pk w ltac:(lia)) as Hcr.
  unfold UpdateSigningInfo. rewrite Hsi. destruct (Z.ltb_spec height (fsi_StartHeight si)); [lia|].
  fold w. fold idx. destruct (GetMissedBlockBitmapValue s pk idx) eqn:Ep, missed; cbn [negb andb].
  - exists s, false, si. split_and!; auto; try lia.
    + split; [by destruct s|]. intros pk' j Hj. case_decide as Hd; [|done]. by destruct Hd as [<- <-].
    + rewrite <- Hc. by destruct si.
  - eexists _, _, _. split; [reflexivity|]. split_and!; try lia; try done.
    + split; [done|]. intros pk' j Hj. rewrite Set_Get_bitmap; [done|lia|lia].
    + rewrite missedCount_set by lia. rewrite Ep. unfold DecrementMissedBlocksCounter.
      pose proof (missedCount_range (SetMissedBlockBitmapValue s pk idx false) pk w ltac:(lia)) as Hcr'.
      rewrite missedCount_set, Ep in Hcr' by lia. simpl in Hcr'.
      rewrite i64_small by (unfold in_i64; lia). f_equal. simpl. lia.
  - eexists _, _, _. split; [reflexivity|]. split_and!; try lia; try done.
    + split; [done|]. intros pk' j Hj. rewrite Set_Get_bitmap; [done|lia|lia].
    + rewrite missedCount_set by lia. rewrite Ep. unfold IncrementMissedBlocksCounter.
      rewrite i64_small by (unfold in_i64; lia). f_equal. simpl. lia.
  - exists s, false, si. split_and!; auto; try lia.
    + split; [by destruct s|]. intros pk' j Hj. case_decide as Hd; [|done]. by destruct Hd as [<- <-].
    + rewrite <- Hc. by destruct si.
Qed.

Lemma bit_written_count s s' pk pk' i b w :
  bit_written s s' pk i b → w < 2 ^ 64 → pk ≠ pk' → missedCount s' pk' w = missedCount s pk' w.
Proof.
  intros [_ H] Hw Hne. apply missedCount_ext. intros j Hj. rewrite H by lia.
  rewrite decide_False; [done|]. by intros [? _].
Qed.

Lemma missedCount_deleted s pk w : missedCount (DeleteMissedBlockBitmap s pk) pk w = 0.
Proof.
  unfold missedCount. rewrite (filter_ext_Z _ (λ _, false)).
  - induction (seqZ 0 w) as [|x l IH]; [done|]. by rewrite filter_cons_False.
  - intros i _. rewrite Delete_Get_bitmap. by rewrite decide_True.
Qed.

Lemma missedCount_deleted_ne s pk pk' w :
  pk ≠ pk' → missedCount (DeleteMissedBlockBitmap s pk) pk' w = missedCount s pk' w.
Proof.
  intros Hne. apply missedCount_ext. intros j _. rewrite Delete_Get_bitmap. by rewrite decide_False.
Qed.

(** Setting the signing info keeps the invariant when the counter is right. *)
Lemma liveness_wf_set s s' pk si :
  liveness_wf s → signingInfos s' = signingInfos s → finalityParams s' = finalityParams s →
  (∀ pk', pk' ≠ pk → missedCount s' pk' (SignedBlocksWindow (finalityParams s)) =
                      missedCount s pk' (SignedBlocksWindow (finalityParams s))) →
  fsi_MissedBlocksCounter si = missedCount s' pk (SignedBlocksWindow (finalityParams s)) →
  liveness_wf (setSigningInfo s' pk si).
Proof.
  intros (Hp & Hw & Hc) Hsi Hpar Hother Hpk. unfold liveness_wf, setSigningInfo. simpl.
  rewrite Hpar. split_and!; [done|done|]. intros pk' si'. rewrite Hsi, lookup_insert_Some.
  intros [[<- <-]|[Hne H]]; [done|]. rewrite (Hc _ _ H). symmetry. by apply Hother.
Qed.

(** What liveness tracking leaves alone of the finality stores. *)
Record live_frame (s s' : FinalityState) : Prop := {
  lf_blocks : blocks s' = blocks s;
  lf_votes : votes s' = votes s;
  lf_power : votingPower s' = votingPower s;
  lf_caches : vpDistCaches s' = vpDistCaches s;
  lf_finalize : nextHeightToFinalize s' = nextHeightToFinalize s;
  lf_reward : nextHeightToReward s' = nextHeightToReward s;
  lf_params : finalityParams s' = finalityParams s;
  lf_tracked : ∀ pk si, signingInfos s !! pk = Some si →
    ∃ si', signingInfos s' !! pk = Some si' ∧ fsi_StartHeight si' = fsi_StartHeight si
}.

#[global] Instance live_frame_preorder : PreOrder live_frame.
Proof.
  split; [constructor; eauto|].
  intros s1 s2 s3 [] [? ? ? ? ? ? ? H2]. constructor; try congruence.
  intros pk si (si2 & Hsi2 & <-)%lf_tracked0. by apply H2.
Qed.

Lemma live_frame_set s s' pk si si' :
  live_frame s s' → signingInfos s' = signingInfos s → signingInfos s !! pk = Some si →
  fsi_StartHeight si' = fsi_StartHeight si → live_frame s (setSigningInfo s' pk si').
Proof.
  intros [] Es Hsi Hst. constructor; try done. simpl. rewrite Es. intros pk' si0 Hsi0.
  destruct (decide (pk = pk')) as [<-|].
  - rewrite lookup_insert_eq. rewrite Hsi in Hsi0. injection Hsi0 as <-. by eexists.
  - rewrite lookup_insert_ne by done. by eexists.
Qed.

(** No provider disappears from the registry. *)
Definition fps_kept (stk stk' : StakingState) : Prop :=
  (fps_keyed stk → fps_keyed stk') ∧ ∀ pk, is_Some (finalityProviders stk !! pk) → is_Some (finalityProviders stk' !! pk).

Section liveness_theorems.
Context {rounding : DecRounding}.

Lemma liveness_step ctx t s stk pk fp si missed height :
  liveness_wf s → finalityProviders stk !! pk = Some fp → IsSlashed fp = false →
  fp_Jailed fp = false → fp_BtcPk fp = pk → signingInfos s !! pk = Some si →
  0 ≤ fsi_StartHeight si ≤ height → height < 2 ^ 62 →
  let w := SignedBlocksWindow (finalityParams s) in
  let idx := (height - fsi_StartHeight si) `rem` w in
  let missedInWindow := missedCount (SetMissedBlockBitmapValue s pk idx missed) pk w in
  ∃ s' stk', HandleFinalityProviderLiveness ctx (Some t) s stk pk missed height = Ok (s', stk') ∧
    liveness_wf s' ∧ live_frame s s' ∧ fps_kept stk stk' ∧
    if decide (fsi_StartHeight si + w < height ∧ w - MinSignedPerWindowInt (finalityParams s) < missedInWindow)
    then finalityProviders stk' !! pk = Some (with_jailed fp true) ∧
         signingInfos s' !! pk =
           Some (mkSigningInfo (fsi_FpBtcPk si) (fsi_StartHeight si) 0
                   (HeaderTime ctx + JailDuration (finalityParams s))) ∧
         missedCount s' pk w = 0
    else stk' = stk ∧ signingInfos s' !! pk = Some (with_counter si missedInWindow) ∧
         ∀ j, 0 ≤ j < w → GetMissedBlockBitmapValue s' pk j =
           if decide (idx = j) then missed else GetMissedBlockBitmapValue s pk j.
Proof using.
  intros Hwf Hfp Hs Hj Hk Hsi Hh Hmax w idx missedInWindow.
  destruct (UpdateSigningInfo_spec s pk missed height si Hwf Hsi ltac:(lia))
    as (s1 & updated & si1 & E & Hidx & Hbit & Hsi1 & Hupd).
  fold w in Hidx, Hsi1. fold idx in Hidx, Hbit. pose proof Hbit as [Hframe Hbits].
  pose proof Hwf as (Hp & Hw & Hc). fold w in Hw.
  assert (missedCount s1 pk w = missedInWindow) as Hm.
  { apply missedCount_ext. intros j Hj'. rewrite Hbits, Set_Get_bitmap by lia. done. }
  pose proof (MinSignedPerWindowInt_range _ Hp) as Hmin. fold w in Hmin.
  unfold HandleFinalityProviderLiveness. rewrite (proj2 (GetFinalityProvider_Ok _ _ _) Hfp).
  cbn [mbind outcome_bind]. unfold IsJailed. rewrite Hs, Hj. cbn [orb]. rewrite E.
  cbn [mbind outcome_bind]. fold w. rewrite Hsi1. cbn [with_counter fsi_StartHeight fsi_MissedBlocksCounter].
  rewrite Hm. rewrite !i64_small by (unfold in_i64; lia).
  assert (finalityParams s1 = finalityParams s ∧ signingInfos s1 = signingInfos s) as [Hpar1 Hsis1]
    by (by rewrite Hframe).
  assert (∀ pk', pk' ≠ pk → missedCount s1 pk' w = missedCount s pk' w) as Hother
    by (intros; eapply bit_written_count; eauto; lia).
  assert (live_frame s s1) as Hlf by (constructor; try (by rewrite Hframe); rewrite Hsis1; by eauto).
  case_decide as Hd.
  - destruct Hd as [Hd1 Hd2]. rewrite (proj2 (Z.ltb_lt _ _) Hd1), (proj2 (Z.ltb_lt _ _) Hd2). cbn [andb].
    unfold jailSluggishFinalityProvider, JailFinalityProvider.
    rewrite (proj2 (GetFinalityProvider_Ok _ _ _) Hfp). cbn [mbind outcome_bind]. unfold IsJailed.
    rewrite Hs, Hj. cbn [mbind outcome_bind wrapf].
    eexists _, _. split; [reflexivity|]. split_and!.
    + apply (liveness_wf_set s); [done..| |].
      * intros pk' Hne. rewrite missedCount_deleted_ne by done. rewrite <- Hother by done. done.
      * simpl. symmetry. apply missedCount_deleted.
    + eapply live_frame_set; [|done|done|done]. transitivity s1; [done|]. constructor; simpl; eauto.
    + split; [by apply SetFinalityProvider_keyed|].
      intros pk'. simpl. rewrite Hk, lookup_insert_is_Some. intros ?. destruct (decide (pk = pk')); auto.
    + simpl. rewrite Hk. apply lookup_insert_eq.
    + simpl. apply lookup_insert_eq.
    + apply missedCount_deleted.
  - assert ((fsi_StartHeight si + w <? height) && (w - MinSignedPerWindowInt (finalityParams s) <? missedInWindow) = false) as ->.
    { apply andb_false_iff. rewrite !Z.ltb_ge. lia. }
    assert (∀ j, 0 ≤ j < w → GetMissedBlockBitmapValue s1 pk j =
      if decide (idx = j) then missed else GetMissedBlockBitmapValue s pk j) as Hb1.
    { intros j Hj'. rewrite Hbits by lia. apply decide_ext. naive_solver. }
    destruct updated.
    + eexists _, _. split; [reflexivity|]. split_and!;
        [|by eapply live_frame_set|done|done|simpl; apply lookup_insert_eq|done].
      apply (liveness_wf_set s); auto.
    + destruct Hupd as [-> ->]; [done|]. eexists _, _. split; [reflexivity|]. split_and!; auto; [done|].
      rewrite Hsi, Hsi1. by rewrite Hm.
Qed.

(** Liveness of one finality provider. For a provider that is neither
    slashed nor jailed and is tracked since [start <= height], recording whether
    it missed [height] never fails, keeps every counter equal to the number of
    missed blocks recorded in its window, writes exactly the bit of that height,
    and jails the provider precisely when a full window has passed and more
    than [window - minSigned] blocks of the window are missed; jailing then
    empties the record and sets the release time. Providers that are not jailed
    leave the staking state untouched. *)
Theorem HandleFinalityProviderLiveness_spec ctx t s stk pk fp si missed height :
  liveness_wf s → finalityProviders stk !! pk = Some fp → IsSlashed fp = false →
  fp_Jailed fp = false → fp_BtcPk fp = pk → signingInfos s !! pk = Some si →
  0 ≤ fsi_StartHeight si ≤ height → height < 2 ^ 62 →
  let w := SignedBlocksWindow (finalityParams s) in
  let idx := (height - fsi_StartHeight si) `rem` w in
  let missedInWindow := missedCount (SetMissedBlockBitmapValue s pk idx missed) pk w in
  ∃ s' stk', HandleFinalityProviderLiveness ctx (Some t) s stk pk missed height = Ok (s', stk') ∧
    liveness_wf s' ∧
    if decide (fsi_StartHeight si + w < height ∧ w - MinSignedPerWindowInt (finalityParams s) < missedInWindow)
    then finalityProviders stk' !! pk = Some (with_jailed fp true) ∧
         signingInfos s' !! pk =
           Some (mkSigningInfo (fsi_FpBtcPk si) (fsi_StartHeight si) 0
                   (HeaderTime ctx + JailDuration (finalityParams s))) ∧
         missedCount s' pk w = 0
    else stk' = stk ∧ signingInfos s' !! pk = Some (with_counter si missedInWindow) ∧
         ∀ j, 0 ≤ j < w → GetMissedBlockBitmapValue s' pk j =
           if decide (idx = j) then missed else GetMissedBlockBitmapValue s pk j.
Proof using.
  intros Hwf Hfp Hs Hj Hk Hsi Hh Hmax w idx missedInWindow.
  destruct (liveness_step ctx t s stk pk fp si missed height) as (s' & stk' & ? & ? & _ & _ & ?); [done..|].
  by exists s', stk'.
Qed.

Definition tracked (s : FinalityState) (stk : StakingState) (pk : bytes) : Prop :=
  is_Some (finalityProviders stk !! pk) ∧ ∃ si, signingInfos s !! pk = Some si ∧ 0 ≤ fsi_StartHeight si < 2 ^ 62.

Lemma tracked_kept s s' stk stk' pk :
  live_frame s s' → fps_kept stk stk' → tracked s stk pk → tracked s' stk' pk.
Proof using.
  intros Hf [_ Hk] [Hfp (si & Hsi & Hr)]. split; [by apply Hk|].
  destruct (lf_tracked _ _ Hf _ _ Hsi) as (si' & ? & E). exists si'. by rewrite E.
Qed.

(** For a tracked provider the step never fails. *)
Lemma liveness_step_total ctx t s stk pk missed height :
  liveness_wf s → fps_keyed stk → tracked s stk pk → 0 ≤ height < 2 ^ 62 →
  ∃ s' stk', HandleFinalityProviderLiveness ctx (Some t) s stk pk missed height = Ok (s', stk') ∧
    liveness_wf s' ∧ live_frame s s' ∧ fps_kept stk stk'.
Proof using.
  intros Hwf Hk [[fp Hfp] (si & Hsi & Hr)] Hh.
  destruct (IsSlashed fp || IsJailed fp) eqn:Esj.
  { exists s, stk. unfold HandleFinalityProviderLiveness. rewrite (proj2 (GetFinalityProvider_Ok _ _ _) Hfp).
    cbn [mbind outcome_bind]. by rewrite Esj. }
  apply orb_false_iff in Esj as Esj2. destruct Esj2 as [Es Ej].
  destruct (Z.lt_ge_cases height (fsi_StartHeight si)) as [Hlt|Hge].
  { exists s, stk. unfold HandleFinalityProviderLiveness. rewrite (proj2 (GetFinalityProvider_Ok _ _ _) Hfp).
    cbn [mbind outcome_bind]. rewrite Esj. unfold UpdateSigningInfo. rewrite Hsi, (proj2 (Z.ltb_lt _ _) Hlt).
    cbn [mbind outcome_bind]. destruct Hwf as (Hp & Hw & Hc). pose proof Hp as (_ & Hw0 & _)%FinalityParams_Validate_Ok.
    rewrite (i64_small (_ + _)) by (unfold in_i64; lia). destruct (Z.ltb_spec (fsi_StartHeight si + SignedBlocksWindow (finalityParams s)) height); [lia|].
    done. }
  destruct (liveness_step ctx t s stk pk fp si missed height) as (s' & stk' & ? & ? & ? & ? & _);
    [done|done|done|done|by apply Hk|done|lia|lia|]. by exists s', stk'.
Qed.

Lemma HandleLiveness_total ctx t s stk height :
  liveness_wf s → fps_keyed stk → tables_wf s → 0 ≤ height < 2 ^ 62 →
  (∀ pk, is_Some (get2 height pk (votingPower s)) → tracked s stk pk) →
  ∃ s' stk', HandleLiveness ctx (Some t) s stk height = Ok (s', stk') ∧
    liveness_wf s' ∧ live_frame s s' ∧ fps_kept stk stk'.
Proof using.
  intros Hwf Hk Ht Hh Htr. unfold HandleLiveness. rewrite u64_small by (unfold in_u64; lia).
  rewrite GetVotingPowerTableOrdered_wf by done. set (l := sort_stable _ _).
  destruct (GetVoters_wf s height Ht) as (voters & -> & _). cbn [mbind outcome_bind].
  assert (Forall (λ kv : bytes * Z, tracked s stk kv.1) l) as Hall.
  { apply Forall_forall. intros [k v] Hin. apply Htr. unfold l in Hin.
    rewrite sort_stable_perm in Hin. apply elem_of_iterB in Hin. by exists v. }
  clearbody l. clear Htr Ht. revert s stk Hwf Hk Hall. induction l as [|kv l IH]; intros s stk Hwf Hk Hall.
  { by exists s, stk. }
  apply Forall_cons in Hall as [Hkv Hall]. cbn [foldM fst snd].
  destruct (liveness_step_total ctx t s stk kv.1 (negb (bool_decide (MarshalHex kv.1 ∈ voters))) height)
    as (s1 & stk1 & E1 & Hwf1 & Hf1 & Hk1); [done..|].
  rewrite E1. cbn [must mbind outcome_bind].
  destruct (IH s1 stk1) as (s2 & stk2 & -> & Hwf2 & Hf2 & Hk2); [done|by apply Hk1| |].
  { eapply Forall_impl; [exact Hall|]. intros ? Htr. by eapply tracked_kept. }
  exists s2, stk2. split_and!; [done|done|by transitivity s1|].
  destruct Hk1, Hk2. split; auto.
Qed.

End liveness_theorems.

(** ** Witness *)

(** Rounding half up. *)
Definition round_half_up : DecRounding.
Proof.
  refine {| RoundInt64 d := (2 * d + DecOne) / (2 * DecOne) |}.
  intros d. pose proof (Z.div_mod (2 * d + DecOne) (2 * DecOne)) as H.
  pose proof (Z.mod_pos_bound (2 * d + DecOne) (2 * DecOne)) as H2.
  unfold DecOne in *. lia.
Defined.

(** A window of 2 blocks of which 1 must be signed; two blocks are missed. *)
Definition example_live_params : FinalityParams := mkFinalityParams 100 2 3 (5 * 10 ^ 17) 100 1000 1.
Definition example_live : FinalityState :=
  set_signingInfos (SetMissedBlockBitmapValue (empty_finality example_live_params) example_pk 0 true)
    {[example_pk := mkSigningInfo example_pk 10 1 0]}.

Lemma example_live_wf : liveness_wf example_live.
Proof.
  split_and!; [reflexivity|simpl; lia|]. intros pk si H. unfold example_live in H. simpl in H.
  apply lookup_singleton_Some in H as [<- <-].
  vm_compute. reflexivity.
Qed.

Lemma HandleFinalityProviderLiveness_spec_witness :
  ∃ s' stk', @HandleFinalityProviderLiveness round_half_up (mkCtx 20 [] 500) (Some 100) example_live
      example_staking example_pk true 13 = Ok (s', stk') ∧
    finalityProviders stk' !! example_pk = Some (with_jailed (example_fp example_pk) true) ∧
    signingInfos s' !! example_pk = Some (mkSigningInfo example_pk 10 0 1500).
Proof.
  destruct (@HandleFinalityProviderLiveness_spec round_half_up (mkCtx 20 [] 500) 100 example_live
    example_staking example_pk (example_fp example_pk) (mkSigningInfo example_pk 10 1 0) true 13)
    as (s' & stk' & E & _ & H).
  - exact example_live_wf.
  - vm_compute. reflexivity.
  - reflexivity.
  - reflexivity.
  - reflexivity.
  - vm_compute. reflexivity.
  - simpl. lia.
  - lia.
  - exists s', stk'. split; [exact E|]. rewrite decide_True in H.
    + destruct H as (H1 & H2 & _). split; [exact H1|exact H2].
    + vm_compute. split; reflexivity.
Defined.
