(* ===== verification/Sha256.v ===== *)
(** * SHA-256

    [crypto/sha256.Sum256] of Go's standard library (FIPS 180-4): the padding,
    the message schedule and the compression function on 32-bit words. *)

From S2P Require Import Prelude Bytes.

Definition w32 (z : Z) : Z := Z.land z 0xffffffff.
Definition add32 (a b : Z) : Z := w32 (a + b).
Definition rotr (x n : Z) : Z := Z.lor (Z.shiftr x n) (w32 (Z.shiftl x (32 - n))).

Definition Ch (x y z : Z) : Z := Z.lxor (Z.land x y) (Z.land (Z.lxor x 0xffffffff) z).
Definition Maj (x y z : Z) : Z := Z.lxor (Z.lxor (Z.land x y) (Z.land x z)) (Z.land y z).
Definition Sigma0 (x : Z) : Z := Z.lxor (Z.lxor (rotr x 2) (rotr x 13)) (rotr x 22).
Definition Sigma1 (x : Z) : Z := Z.lxor (Z.lxor (rotr x 6) (rotr x 11)) (rotr x 25).
Definition sigma0 (x : Z) : Z := Z.lxor (Z.lxor (rotr x 7) (rotr x 18)) (Z.shiftr x 3).
Definition sigma1 (x : Z) : Z := Z.lxor (Z.lxor (rotr x 17) (rotr x 19)) (Z.shiftr x 10).

(** The constants are the first 32 bits of the fractional parts of the roots of
    the first primes: cube roots for the rounds, square roots for the initial
    state. *)
Definition is_prime (n : Z) : bool := forallb (λ d, negb (n `mod` d =? 0)) (seqZ 2 (Z.sqrt n - 1)).
Definition first_primes (n : nat) : list Z := take n (filter (λ p, is_prime p = true) (seqZ 2 311)).

(** The integer cube root below [2 ^ bits], bit by bit. *)
Fixpoint cube_root (bits : nat) (n acc : Z) : Z :=
  match bits with
  | O => acc
  | S b => let c := acc + 2 ^ Z.of_nat b in cube_root b n (if c ^ 3 <=? n then c else acc)
  end.

Definition sha256_K : list Z :=
  Eval vm_compute in (λ p, w32 (cube_root 36 (p * 2 ^ 96) 0)) <$> first_primes 64.
Definition sha256_H0 : list Z :=
  Eval vm_compute in (λ p, w32 (Z.sqrt (p * 2 ^ 64))) <$> first_primes 8.

(** A one bit, zeros up to 56 modulo 64 bytes, the length in bits. *)
Definition sha256_pad (m : bytes) : bytes :=
  let l := Z.of_nat (length m) in
  m ++ byte_of_Z 0x80 :: replicate (Z.to_nat ((55 - l) `mod` 64)) (byte_of_Z 0)
    ++ be_bytes 8 (8 * l).

Fixpoint chunks {A} (fuel n : nat) (l : list A) : list (list A) :=
  match fuel, l with
  | O, _ | _, [] => []
  | S fuel, _ => take n l :: chunks fuel n (drop n l)
  end.

(** The schedule, latest word first. *)
Fixpoint schedule (n : nat) (w : list Z) : list Z :=
  match n with
  | O => w
  | S n =>
    let at_ (i : nat) := default 0 (w !! i) in
    schedule n (add32 (add32 (sigma1 (at_ 1%nat)) (at_ 6%nat)) (add32 (sigma0 (at_ 14%nat)) (at_ 15%nat)) :: w)
  end.

Definition sha256_round (st : list Z) (kw : Z * Z) : list Z :=
  match st with
  | [a; b; c; d; e; f; g; h] =>
    let t1 := add32 (add32 (add32 h (Sigma1 e)) (add32 (Ch e f g) kw.1)) kw.2 in
    let t2 := add32 (Sigma0 a) (Maj a b c) in
    [add32 t1 t2; a; b; c; add32 d t1; e; f; g]
  | _ => st
  end.

Definition sha256_block (st : list Z) (block : bytes) : list Z :=
  let w := reverse (schedule 48 (reverse (be_value <$> chunks 16 4 block))) in
  zip_with add32 st (foldl sha256_round st (zip sha256_K w)).

Definition sha256 (m : bytes) : bytes :=
  let p := sha256_pad m in
  foldl sha256_block sha256_H0 (chunks (length p) 64 p) ≫= be_bytes 4.

Lemma sha256_block_length st b : length st = 8%nat → length (sha256_block st b) = 8%nat.
Proof.
  intros Hst. unfold sha256_block. rewrite length_zip_with.
  assert (∀ l st, length st = 8%nat → length (foldl sha256_round st l) = 8%nat) as H.
  { induction l as [|x l IH]; intros st' Hst'; [done|]. simpl. apply IH.
    destruct st' as [|? [|? [|? [|? [|? [|? [|? [|? [|? ?]]]]]]]]]; done. }
  by rewrite H, Hst.
Qed.

Lemma sha256_length m : length (sha256 m) = 32%nat.
Proof.
  unfold sha256. set (l := chunks _ _ _).
  assert (∀ st, length st = 8%nat → length (foldl sha256_block st l) = 8%nat) as H.
  { induction l as [|x l IH]; intros st Hst; [done|]. simpl. apply IH. by apply sha256_block_length. }
  specialize (H sha256_H0 eq_refl). destruct (foldl _ _ _) as [|? [|? [|? [|? [|? [|? [|? [|? [|? ?]]]]]]]]];
    done.
Qed.

(** FIPS 180-4 test vectors: the empty message and "abc". *)
Example sha256_empty :
  hex_encode (sha256 []) = "e3b0c44298fc1c149afbf4c8996fb92427ae41e4649b934ca495991b7852b855".
Proof. vm_compute. reflexivity. Qed.

Example sha256_abc :
  hex_encode (sha256 ["097"; "098"; "099"]%byte) =
  "ba7816bf8f01cfea414140de5dae2223b00361a396177a9cb410ff61f20015ad".
Proof. vm_compute. reflexivity. Qed.
