(* ===== verification/Curve.v ===== *)
(** * The elliptic curve of the signature schemes

    secp256k1 comes from [btcec] and [dcrec]: points, scalars modulo the group
    order, point arithmetic, x-only public keys and the BIP-340 tagged hash are
    an abstract interface, and the laws the code relies on are stated as a
    class. A small concrete group satisfies them. *)

From Stdlib Require Import Znumtheory Zpow_facts.
From S2P Require Import Prelude Bytes.

(** Points are curve points or the point at infinity. [px] and [py_odd] are the
    affine coordinates of a finite point, [ParsePubKey] and [TaggedHash] are
    [schnorr.ParsePubKey] and [chainhash.TaggedHash] with the BIP-340 challenge
    tag, [scalar_inv] is [InverseNonConst]. *)
Class Curve := {
  point : Type;
  point_eq_dec : EqDecision point;
  order : Z;
  field_size : Z;
  G : point;
  infinity : point;
  padd : point → point → point;
  pmul : Z → point → point;
  px : point → Z;
  py_odd : point → bool;
  ParsePubKey : bytes → option point;
  TaggedHash : bytes → bytes;
  scalar_inv : Z → Z
}.
#[global] Existing Instance point_eq_dec.

(** [schnorr.SerializePubKey] and [SerializeCompressed()[1:]] *)
Definition SerializePubKey `{!Curve} (P : point) : bytes := be_bytes 32 (px P).

(** Reduction modulo the group order, as [ModNScalar] does. *)
Definition modn `{!Curve} (z : Z) : Z := z `mod` order.

(** The group has prime order; a finite point is determined by its x coordinate
    and the parity of y; negation flips the parity; x-only keys parse to the
    point with even y. *)
Class CurveLaws `{!Curve} : Prop := {
  order_prime : prime order;
  field_range : ∀ P, P ≠ infinity → 0 ≤ px P < field_size;
  field_size_32 : field_size ≤ 2 ^ 256;
  padd_assoc : ∀ P Q R, padd P (padd Q R) = padd (padd P Q) R;
  padd_comm : ∀ P Q, padd P Q = padd Q P;
  padd_infinity : ∀ P, padd infinity P = P;
  pmul_0 : ∀ P, pmul 0 P = infinity;
  pmul_1 : ∀ P, pmul 1 P = P;
  pmul_add : ∀ a b P, pmul (a + b) P = padd (pmul a P) (pmul b P);
  pmul_mul : ∀ a b P, pmul (a * b) P = pmul a (pmul b P);
  pmul_order : ∀ P, pmul order P = infinity;
  G_finite : G ≠ infinity;
  point_from_x : ∀ P Q, P ≠ infinity → Q ≠ infinity → px P = px Q → py_odd P = py_odd Q → P = Q;
  px_neg : ∀ P, px (pmul (-1) P) = px P;
  py_neg : ∀ P, P ≠ infinity → py_odd (pmul (-1) P) = negb (py_odd P);
  ParsePubKey_spec : ∀ b P, ParsePubKey b = Some P →
    P ≠ infinity ∧ py_odd P = false ∧ SerializePubKey P = b;
  ParsePubKey_complete : ∀ P, P ≠ infinity → py_odd P = false →
    ParsePubKey (SerializePubKey P) = Some P;
  scalar_inv_spec : ∀ a, modn a ≠ 0 → modn (a * scalar_inv a) = 1
}.

(** ** Consequences *)

Section laws.
Context {curve : Curve} {claws : CurveLaws}.

Lemma order_pos : 1 < order.
Proof using claws. destruct order_prime. lia. Qed.

Lemma modn_range z : 0 ≤ modn z < order.
Proof using claws. pose proof order_pos. apply Z.mod_pos_bound. lia. Qed.

Lemma pmul_infinity a : pmul a infinity = infinity.
Proof using claws.
  rewrite <- (pmul_0 infinity) at 1. rewrite <- pmul_mul, Z.mul_0_r. apply pmul_0.
Qed.

Lemma pmul_multiple a P : pmul (order * a) P = infinity.
Proof using claws. rewrite pmul_mul. apply pmul_order. Qed.

Lemma pmul_modn a P : pmul (modn a) P = pmul a P.
Proof using claws.
  pose proof order_pos. unfold modn. rewrite (Z.div_mod a order) at 2 by lia.
  by rewrite pmul_add, pmul_multiple, padd_infinity.
Qed.

Lemma pmul_eq_modn a b P : modn a = modn b → pmul a P = pmul b P.
Proof using claws. intros E. by rewrite <- (pmul_modn a), E, pmul_modn. Qed.

Lemma padd_neg a P : padd (pmul a P) (pmul (- a) P) = infinity.
Proof using claws. rewrite <- pmul_add, Z.add_opp_diag_r. apply pmul_0. Qed.

Lemma padd_cancel P Q R : padd P R = padd Q R → P = Q.
Proof using claws.
  intros E. assert (padd (padd P R) (pmul (-1) R) = padd (padd Q R) (pmul (-1) R)) as E2 by (by rewrite E).
  rewrite <- !padd_assoc in E2. rewrite <- (pmul_1 R) in E2 at 1 3.
  rewrite padd_neg, !(padd_comm _ infinity), !padd_infinity in E2. done.
Qed.

(** In a group of prime order only multiples of the order annihilate a finite
    point. *)
Lemma pmul_zero a P : P ≠ infinity → pmul a P = infinity → modn a = 0.
Proof using claws.
  intros HP H. destruct (decide (modn a = 0)) as [|Hne]; [done|]. exfalso. apply HP.
  pose proof (scalar_inv_spec a Hne) as Hi.
  rewrite <- (pmul_1 P), <- Hi, pmul_modn, (Z.mul_comm a), pmul_mul, H. apply pmul_infinity.
Qed.

Lemma pmul_inj a b P : P ≠ infinity → pmul a P = pmul b P → modn a = modn b.
Proof using claws.
  intros HP E. assert (pmul (a - b) P = infinity) as E2.
  { rewrite <- (padd_neg b P), <- E. change (a - b) with (a + - b). apply pmul_add. }
  apply pmul_zero in E2; [|done]. pose proof order_pos. unfold modn in *.
  apply Z.mod_divide in E2 as [q Hq]; [|lia]. replace a with (b + q * order) by lia.
  apply Z.mod_add. lia.
Qed.

Lemma pmul_G_finite a : modn a ≠ 0 → pmul a G ≠ infinity.
Proof using claws. intros Ha E. apply Ha. apply (pmul_zero a G G_finite E). Qed.

Lemma modn_opp_mul a b : modn (modn (- a) * b) = modn (- (a * b)).
Proof using claws.
  pose proof order_pos. unfold modn. rewrite Zmult_mod_idemp_l. f_equal. lia.
Qed.

End laws.

(** ** A concrete group

    The group of order 7, with negation as the change of parity. *)

Inductive toy_point := T0 | T1 | T2 | T3 | T4 | T5 | T6.

#[global] Instance toy_point_eq_dec : EqDecision toy_point.
Proof. solve_decision. Defined.

Definition toy_val (P : toy_point) : Z :=
  match P with T0 => 0 | T1 => 1 | T2 => 2 | T3 => 3 | T4 => 4 | T5 => 5 | T6 => 6 end.

Definition toy_of (z : Z) : toy_point :=
  match z `mod` 7 with
  | 1 => T1 | 2 => T2 | 3 => T3 | 4 => T4 | 5 => T5 | 6 => T6 | _ => T0
  end.

Definition toy_parse (b : bytes) : option toy_point :=
  if bool_decide (b = be_bytes 32 1) then Some T1
  else if bool_decide (b = be_bytes 32 2) then Some T2
  else if bool_decide (b = be_bytes 32 3) then Some T3 else None.

Definition toy_curve : Curve := {|
  point := toy_point;
  order := 7;
  field_size := 4;
  G := T1;
  infinity := T0;
  padd P Q := toy_of (toy_val P + toy_val Q);
  pmul a P := toy_of (a * toy_val P);
  px P := Z.min (toy_val P) (7 - toy_val P);
  py_odd P := 3 <? toy_val P;
  ParsePubKey := toy_parse;
  TaggedHash b := be_bytes 32 (1 + sumZ (byte_code <$> b) `mod` 6);
  scalar_inv a := a ^ 5 `mod` 7
|}.

Lemma toy_val_range P : 0 ≤ toy_val P < 7.
Proof. destruct P; simpl; lia. Qed.

Lemma toy_of_val P : toy_of (toy_val P) = P.
Proof. by destruct P. Qed.

Lemma toy_val_of z : toy_val (toy_of z) = z `mod` 7.
Proof.
  unfold toy_of. pose proof (Z.mod_pos_bound z 7 ltac:(lia)) as Hb.
  assert (z `mod` 7 = 0 ∨ z `mod` 7 = 1 ∨ z `mod` 7 = 2 ∨ z `mod` 7 = 3 ∨ z `mod` 7 = 4 ∨
          z `mod` 7 = 5 ∨ z `mod` 7 = 6) as H by lia.
  by destruct H as [->| [->| [->| [->| [->| [->| ->]]]]]].
Qed.

Lemma toy_of_ext a b : a `mod` 7 = b `mod` 7 → toy_of a = toy_of b.
Proof. intros E. by rewrite <- (toy_of_val (toy_of a)), <- (toy_of_val (toy_of b)), !toy_val_of, E. Qed.

Lemma prime_7 : prime 7.
Proof.
  apply prime_intro; [lia|]. intros n Hn. apply Zgcd_1_rel_prime.
  assert (n = 1 ∨ n = 2 ∨ n = 3 ∨ n = 4 ∨ n = 5 ∨ n = 6) as H by lia.
  by destruct H as [->| [->| [->| [->| [->| ->]]]]].
Qed.

Lemma toy_parse_spec b P : toy_parse b = Some P →
  (P = T1 ∧ b = be_bytes 32 1) ∨ (P = T2 ∧ b = be_bytes 32 2) ∨ (P = T3 ∧ b = be_bytes 32 3).
Proof.
  unfold toy_parse. repeat (case_bool_decide; [intros [= <-]; auto|]). done.
Qed.

Lemma toy_laws : @CurveLaws toy_curve.
Proof.
  constructor; simpl.
  - exact prime_7.
  - intros P HP. destruct P; simpl; try done; lia.
  - lia.
  - intros P Q R. apply toy_of_ext. rewrite !toy_val_of, Zplus_mod_idemp_l, Zplus_mod_idemp_r.
    f_equal. lia.
  - intros P Q. f_equal. lia.
  - intros P. apply toy_of_val.
  - intros P. done.
  - intros P. rewrite Z.mul_1_l. apply toy_of_val.
  - intros a b P. apply toy_of_ext. rewrite !toy_val_of, <- Zplus_mod. f_equal. lia.
  - intros a b P. apply toy_of_ext. rewrite toy_val_of, Zmult_mod_idemp_r. f_equal. lia.
  - intros P. destruct P; vm_compute; reflexivity.
  - done.
  - intros P Q HP HQ. destruct P, Q; simpl; try done.
  - intros P. destruct P; vm_compute; reflexivity.
  - intros P HP. destruct P; vm_compute; done.
  - intros b P H. apply toy_parse_spec in H as [[-> ->]|[[-> ->]| [-> ->]]]; done.
  - intros P HP. destruct P; vm_compute; done.
  - intros a Ha. unfold modn in *. simpl in *. pose proof (Z.mod_pos_bound a 7 ltac:(lia)).
    rewrite (Zpower_mod a) by lia. rewrite <- Zmult_mod_idemp_l.
    assert (a `mod` 7 = 1 ∨ a `mod` 7 = 2 ∨ a `mod` 7 = 3 ∨ a `mod` 7 = 4 ∨ a `mod` 7 = 5 ∨
            a `mod` 7 = 6) as H' by lia.
    by destruct H' as [->| [->| [->| [->| [->| ->]]]]].
Qed.
