(* ===== verification/Eots.v ===== *)
(** * crypto/eots: extractable one-time signatures

    Schnorr signatures over a committed nonce: signing, verification, and the
    extraction of the secret key from two signatures that use the same nonce. *)

From S2P Require Import Prelude Bytes Sha256 Curve.

Section eots.
Context {curve : Curve}.

(** [e = int(tagged_hash(r || P || m))], refused when it is not a scalar. *)
Definition challenge (r : Z) (P : point) (hash : bytes) : outcome Z :=
  let commitment := TaggedHash (be_bytes 32 r ++ SerializePubKey P ++ hash) in
  let e := be_value commitment in
  if order <=? e then Err (Errorf "hash of (r || P || m) too big") else Ok e.

(** [(k+r)G - rG], for the blinding factor [r]. *)
Definition ScalarBaseMultWithBlinding (r k : Z) : point :=
  padd (pmul (modn (k + r)) G) (pmul (modn (- r)) G).

(** [blind] is the random blinding factor of the nonce multiplication. *)
Definition signHash (blind sk privateRand : Z) (hash : bytes) : outcome Z :=
  if sk =? 0 then Err (Errorf "private key is zero")
  else
    let pubKey := pmul sk G in
    let isPyOdd := py_odd pubKey in
    let R := ScalarBaseMultWithBlinding blind privateRand in
    let isRyOdd := py_odd R in
    e ← challenge (px R) pubKey hash;
    Ok (match isPyOdd, isRyOdd with
        | true, true => modn (e * modn (- sk) + modn (- privateRand))
        | true, false => modn (e * modn (- sk) + privateRand)
        | false, true => modn (e * sk + modn (- privateRand))
        | false, false => modn (e * sk + privateRand)
        end).

Definition verifyHash (pubKeyBytes : bytes) (r : Z) (hash : bytes) (sig : Z) : outcome unit :=
  match ParsePubKey pubKeyBytes with
  | None => Err (Errorf "ParsePubKey")
  | Some pubKey =>
    e ← challenge r pubKey hash;
    let R := padd (pmul sig G) (pmul (modn (- e)) pubKey) in
    if bool_decide (R = infinity) then Err (Errorf "calculated R point is the point at infinity")
    else if py_odd R then Err (Errorf "calculated R y-value is odd")
    else if negb (r =? px R) then Err (Errorf "calculated R point was not given R")
    else Ok tt
  end.

Definition extractFromHashes (pubKey : point) (r : Z) (hash1 : bytes) (sig1 : Z)
    (hash2 : bytes) (sig2 : Z) : outcome Z :=
  if sig1 =? sig2 then Err (Errorf "The two signatures need to be different in order to extract")
  else
    e1 ← challenge r pubKey hash1;
    e2 ← challenge r pubKey hash2;
    let denom := modn (e1 + modn (- e2)) in
    let x := modn (modn (sig1 + modn (- sig2)) * scalar_inv denom) in
    let x := if py_odd pubKey then modn (- x) else x in
    if bool_decide (pmul x G = pubKey) then Ok x
    else Err (Errorf "Extracted private key does not match public key").

Definition Sign (blind sk privateRand : Z) (message : bytes) : outcome Z :=
  signHash blind sk privateRand (sha256 message).

Definition Verify (pubKey : point) (r : Z) (message : bytes) (sig : Z) : outcome unit :=
  verifyHash (SerializePubKey pubKey) r (sha256 message) sig.

Definition Extract (pubKey : point) (r : Z) (message1 : bytes) (sig1 : Z) (message2 : bytes)
    (sig2 : Z) : outcome Z :=
  extractFromHashes pubKey r (sha256 message1) sig1 (sha256 message2) sig2.

(** The public randomness of a private one: the x coordinate of [kG]. *)
Definition PubRand (privateRand : Z) : Z := px (pmul privateRand G).

(** ** Lemmas *)

Context {claws : CurveLaws}.

Lemma ScalarBaseMultWithBlinding_eq r k : ScalarBaseMultWithBlinding r k = pmul k G.
Proof using claws.
  unfold ScalarBaseMultWithBlinding. rewrite !pmul_modn, <- pmul_add. f_equal; lia.
Qed.

Lemma challenge_x r P Q hash : px P = px Q → challenge r P hash = challenge r Q hash.
Proof using. intros E. unfold challenge, SerializePubKey. by rewrite E. Qed.

(** The even representative of a scalar: the scalar or its negation. *)
Definition even_scalar (k : Z) : Z := if py_odd (pmul k G) then modn (- k) else k.

Lemma pmul_even_scalar k :
  pmul (even_scalar k) G = if py_odd (pmul k G) then pmul (-1) (pmul k G) else pmul k G.
Proof using claws.
  unfold even_scalar. destruct (py_odd (pmul k G)); [|done].
  rewrite pmul_modn, <- pmul_mul. f_equal; lia.
Qed.

Lemma even_scalar_spec k : modn k ≠ 0 →
  pmul (even_scalar k) G ≠ infinity ∧ py_odd (pmul (even_scalar k) G) = false ∧
  px (pmul (even_scalar k) G) = px (pmul k G).
Proof using claws.
  intros Hk. pose proof (pmul_G_finite k Hk) as Hf. rewrite pmul_even_scalar.
  destruct (py_odd (pmul k G)) eqn:E; [|done]. split_and!.
  - rewrite <- pmul_mul. intros E2. apply (pmul_zero _ _ G_finite) in E2. apply Hk.
    pose proof order_pos. unfold modn in *. apply Z.mod_divide in E2 as [q Hq]; [|lia].
    apply Z.mod_divide; [lia|]. exists (- q). lia.
  - rewrite py_neg by done. by rewrite E.
  - apply px_neg.
Qed.

(** The four cases of the signing equation are one, on even representatives. *)
Lemma signHash_eq blind sk k hash s :
  modn sk ≠ 0 →
  signHash blind sk k hash = Ok s →
  ∃ e, challenge (px (pmul k G)) (pmul sk G) hash = Ok e ∧
    modn s = modn (e * even_scalar sk + even_scalar k) ∧ modn s = s.
Proof using claws.
  intros Hsk. unfold signHash. rewrite ScalarBaseMultWithBlinding_eq. intros H. inv_ok H.
  exists r. split; [done|]. unfold even_scalar. injection H as <-.
  assert (∀ z, modn (modn z) = modn z) as Hmm by (intros z; apply Zmod_mod).
  destruct (py_odd (pmul sk G)), (py_odd (pmul k G)); by rewrite ?Hmm.
Qed.

(** The even point with the same x coordinate, that an x-only key denotes. *)
Definition even_point (P : point) : point := if py_odd P then pmul (-1) P else P.

Lemma even_point_spec P : P ≠ infinity →
  even_point P ≠ infinity ∧ py_odd (even_point P) = false ∧ px (even_point P) = px P.
Proof using claws.
  intros HP. unfold even_point. destruct (py_odd P) eqn:E; [|done]. split_and!.
  - intros E2. apply HP. rewrite <- (pmul_1 P). change 1 with (-1 * -1).
    rewrite pmul_mul, E2. apply pmul_infinity.
  - rewrite py_neg by done. by rewrite E.
  - apply px_neg.
Qed.

Lemma Parse_Serialize P : P ≠ infinity → ParsePubKey (SerializePubKey P) = Some (even_point P).
Proof using claws.
  intros HP. destruct (even_point_spec P HP) as (H1 & H2 & H3).
  rewrite <- (ParsePubKey_complete _ H1 H2). unfold SerializePubKey. by rewrite H3.
Qed.

Lemma Verify_Ok P r m s :
  P ≠ infinity →
  Verify P r m s = Ok tt ↔
  ∃ e, challenge r P (sha256 m) = Ok e ∧
    let R := padd (pmul s G) (pmul (- e) (even_point P)) in
    R ≠ infinity ∧ py_odd R = false ∧ px R = r.
Proof using claws.
  intros HP. destruct (even_point_spec P HP) as (_ & _ & Hx).
  unfold Verify, verifyHash. rewrite Parse_Serialize by done.
  rewrite (challenge_x r (even_point P) P) by done. split.
  - intros H. inv_ok H. rewrite pmul_modn in *. exists r0. split; [done|].
    apply bool_decide_eq_false in E. apply negb_false_iff, Z.eqb_eq in E1. auto.
  - intros (e & -> & HR & Hodd & Hpx). cbn [mbind outcome_bind]. rewrite pmul_modn.
    rewrite bool_decide_false by done. rewrite Hodd, Hpx, Z.eqb_refl. done.
Qed.

(** EOTS correctness. A signature made with a nonzero secret key and a
    nonzero nonce verifies under the public key and the public randomness of
    that nonce, for either parity of the key and of the nonce point and
    whatever the blinding factor. *)
Theorem Sign_Verify blind sk k m s :
  modn sk ≠ 0 → modn k ≠ 0 → Sign blind sk k m = Ok s →
  Verify (pmul sk G) (PubRand k) m s = Ok tt.
Proof using claws.
  intros Hsk Hk Hs. apply signHash_eq in Hs as (e & He & Hs & _); [|done].
  destruct (even_scalar_spec k Hk) as (Hk1 & Hk2 & Hk3).
  apply Verify_Ok; [by apply pmul_G_finite|]. exists e. split; [done|]. cbn zeta.
  assert (even_point (pmul sk G) = pmul (even_scalar sk) G) as ->.
  { unfold even_point. by rewrite pmul_even_scalar. }
  assert (padd (pmul s G) (pmul (- e) (pmul (even_scalar sk) G)) = pmul (even_scalar k) G) as ->.
  { rewrite (pmul_eq_modn s _ G Hs), <- pmul_mul, <- pmul_add. f_equal; lia. }
  auto.
Qed.

(** Two accepted signatures for one key and nonce satisfy the linear relation
    that gives the key away. *)
Lemma Verify_relation P r m1 s1 m2 s2 e1 e2 :
  P ≠ infinity → Verify P r m1 s1 = Ok tt → Verify P r m2 s2 = Ok tt →
  challenge r P (sha256 m1) = Ok e1 → challenge r P (sha256 m2) = Ok e2 →
  pmul (s1 - s2) G = pmul (e1 - e2) (even_point P).
Proof using claws.
  intros HP H1 H2 He1 He2. apply Verify_Ok in H1 as (e1' & E1 & R1 & Y1 & X1); [|done].
  apply Verify_Ok in H2 as (e2' & E2 & R2 & Y2 & X2); [|done].
  rewrite E1 in He1. rewrite E2 in He2. injection He1 as <-. injection He2 as <-.
  assert (padd (pmul s1 G) (pmul (- e1') (even_point P)) =
          padd (pmul s2 G) (pmul (- e2') (even_point P))) as E by (apply point_from_x; congruence).
  apply (padd_cancel _ _ (padd (pmul s2 G) (pmul (- e1') (even_point P)))).
  rewrite padd_assoc, <- pmul_add. replace (s1 - s2 + s2) with s1 by lia. rewrite E.
  rewrite (padd_comm (pmul (e1' - e2') _)), <- padd_assoc, <- pmul_add. f_equal. f_equal. lia.
Qed.

Lemma challenge_range r P h e : challenge r P h = Ok e → 0 ≤ e < order.
Proof using.
  unfold challenge. intros H. inv_ok H. injection H as <-. apply Z.leb_gt in E.
  split; [|done]. apply be_value_nonneg.
Qed.

Lemma modn_diff a b : 0 ≤ a < order → 0 ≤ b < order → modn (a - b) = 0 → a = b.
Proof using claws.
  intros Ha Hb H. pose proof order_pos. unfold modn in H. apply Z.mod_divide in H as [q Hq]; [|lia].
  assert (q = 0) by nia. lia.
Qed.

(** Solving the signature equations for the secret key. *)
Lemma extractFromHashes_correct P r h1 s1 h2 s2 e1 e2 :
  P ≠ infinity → challenge r P h1 = Ok e1 → challenge r P h2 = Ok e2 → e1 ≠ e2 →
  pmul (s1 - s2) G = pmul (e1 - e2) (even_point P) →
  ∃ sk, extractFromHashes P r h1 s1 h2 s2 = Ok sk ∧ pmul sk G = P.
Proof using claws.
  intros HP E1 E2 Hne Hrel. destruct (even_point_spec P HP) as (HP' & _ & _).
  assert (modn (e1 - e2) ≠ 0) as Hd.
  { intros Hd. apply Hne. apply modn_diff in Hd; [done|by eapply challenge_range..]. }
  assert (s1 ≠ s2) as Hss.
  { intros ->. rewrite Z.sub_diag, pmul_0 in Hrel. symmetry in Hrel. by apply pmul_zero in Hrel. }
  unfold extractFromHashes. rewrite (proj2 (Z.eqb_neq s1 s2) Hss), E1, E2. cbn [mbind outcome_bind].
  set (x := modn (modn (s1 + modn (- s2)) * scalar_inv (modn (e1 + modn (- e2))))).
  assert (pmul x G = even_point P) as Hx.
  { unfold x. rewrite pmul_modn, Z.mul_comm, pmul_mul, pmul_modn.
    assert (∀ a b, modn (a + modn (- b)) = modn (a - b)) as Hsub.
    { intros a b. unfold modn. rewrite Zplus_mod_idemp_r. f_equal. }
    rewrite (pmul_eq_modn (s1 + modn (- s2)) (s1 - s2)) by apply Hsub.
    rewrite Hrel, <- pmul_mul, Hsub.
    rewrite <- (pmul_modn (scalar_inv _ * _)).
    assert (modn (scalar_inv (modn (e1 - e2)) * (e1 - e2)) = 1) as ->; [|apply pmul_1].
    rewrite <- (scalar_inv_spec (modn (e1 - e2))).
    - unfold modn. rewrite Zmult_mod_idemp_l. f_equal. lia.
    - unfold modn in *. by rewrite Zmod_mod. }
  assert (pmul (if py_odd P then modn (- x) else x) G = P) as Hfinal.
  { unfold even_point in Hx. destruct (py_odd P); [|done].
    rewrite pmul_modn. replace (- x) with (-1 * x) by lia. rewrite pmul_mul, Hx, <- pmul_mul.
    apply pmul_1. }
  rewrite bool_decide_true by exact Hfinal. eexists. split; [reflexivity|exact Hfinal].
Qed.

(** Two accepted signatures with one nonce give the equation. *)
Lemma Verify_twice P r m1 s1 m2 s2 :
  P ≠ infinity → Verify P r m1 s1 = Ok tt → Verify P r m2 s2 = Ok tt →
  ∃ e1 e2, challenge r P (sha256 m1) = Ok e1 ∧ challenge r P (sha256 m2) = Ok e2 ∧
    pmul (s1 - s2) G = pmul (e1 - e2) (even_point P).
Proof using claws.
  intros HP H1 H2. pose proof H1 as (e1 & E1 & _)%Verify_Ok; [|done].
  pose proof H2 as (e2 & E2 & _)%Verify_Ok; [|done]. exists e1, e2.
  split_and!; [done..|]. by apply (Verify_relation P r m1 s1 m2 s2).
Qed.

(** C7: Extraction. From two signatures accepted for the same public key and the
    same public randomness, on messages with different challenges, [Extract]
    succeeds and returns the secret key of that public key. *)
Theorem Extract_correct P r m1 s1 m2 s2 :
  P ≠ infinity → 0 ≤ s1 < order → 0 ≤ s2 < order →
  Verify P r m1 s1 = Ok tt → Verify P r m2 s2 = Ok tt →
  challenge r P (sha256 m1) ≠ challenge r P (sha256 m2) →
  ∃ sk, Extract P r m1 s1 m2 s2 = Ok sk ∧ pmul sk G = P.
Proof using claws.
  intros HP Hs1 Hs2 H1 H2 Hne. destruct (Verify_twice P r m1 s1 m2 s2) as (e1 & e2 & E1 & E2 & Hrel); [done..|].
  unfold Extract. eapply extractFromHashes_correct; eauto. congruence.
Qed.

(** At most one EOTS signature per message: two accepted signatures for the
    same key, randomness and message are the same scalar. *)
Theorem Verify_unique P r m s1 s2 :
  P ≠ infinity → 0 ≤ s1 < order → 0 ≤ s2 < order →
  Verify P r m s1 = Ok tt → Verify P r m s2 = Ok tt → s1 = s2.
Proof using claws.
  intros HP Hs1 Hs2 H1 H2. pose proof H1 as (e & E & _)%Verify_Ok; [|done].
  pose proof (Verify_relation P r m s1 m s2 e e HP H1 H2 E E) as Hrel.
  rewrite Z.sub_diag, pmul_0 in Hrel. apply (pmul_zero _ _ G_finite) in Hrel.
  by apply modn_diff.
Qed.

End eots.

(** ** Witnesses

    In the group of order 7, with secret key 5 (an odd public key) and nonce 2. *)

Definition example_msg (n : Z) : bytes := be_bytes 1 n.

Lemma Sign_Verify_witness : @Verify toy_curve T5 2 (example_msg 1) 1 = Ok tt.
Proof.
  apply (@Sign_Verify toy_curve toy_laws 4 5 2 (example_msg 1) 1).
  - vm_compute. discriminate.
  - vm_compute. discriminate.
  - vm_compute. reflexivity.
Defined.

Lemma Extract_correct_witness :
  ∃ sk, @Extract toy_curve T5 2 (example_msg 1) 1 (example_msg 2) 5 = Ok sk ∧ @pmul toy_curve sk T1 = T5.
Proof.
  apply (@Extract_correct toy_curve toy_laws T5 2 (example_msg 1) 1 (example_msg 2) 5).
  - discriminate.
  - simpl. lia.
  - simpl. lia.
  - vm_compute. reflexivity.
  - vm_compute. reflexivity.
  - vm_compute. discriminate.
Defined.

Lemma Verify_unique_witness :
  @Sign toy_curve 4 5 2 (example_msg 2) = @Sign toy_curve 6 5 2 (example_msg 2) ∧ (5 : Z) = 5.
Proof.
  split; [vm_compute; reflexivity|].
  apply (@Verify_unique toy_curve toy_laws T5 2 (example_msg 2) 5 5).
  - discriminate.
  - simpl. lia.
  - simpl. lia.
  - vm_compute. reflexivity.
  - vm_compute. reflexivity.
Defined.
