(* ===== verification/AdaptorSig.v ===== *)
(** * crypto/schnorr-adaptor-signature

    A covenant member signs a slashing transaction in a way that only the secret
    key of a finality provider completes: the adaptor signature is verified
    against the provider's public key as encryption key, its secret key decrypts
    it to a Schnorr signature, and the two signatures give the secret key back.
    The file translates sign_utils.go, sig.go, types.go and keys.go, and shows
    that signing succeeds, that decryption gives a valid BIP-340 signature and
    that extraction inverts it. *)

From S2P Require Import Prelude Bytes BbnTypes Sha256 Curve Eots.

Definition ModNScalarSize : nat := 32.
Definition JacobianPointSize : nat := 33.
Definition AdaptorSignatureSize : nat := JacobianPointSize + ModNScalarSize.
Definition AdaptorSignatureSizeOldFormat : nat := AdaptorSignatureSize + 1.
Definition HashSize_chain : nat := 32.
Definition PubKeyFormatEven : byte := x02.
Definition PubKeyFormatOdd : byte := x03.

(** [btcec.ParseJacobian] and the tagged hash with any tag. *)
Class CompressedPoints `{!Curve} := {
  ParseJacobian : bytes → option point;
  TaggedHashWith : string → bytes → bytes
}.

Section adaptor.
Context {curve : Curve} {CP : CompressedPoints}.

(** ** types.go *)

Record AdaptorSignature := mkAdaptorSig { as_R0 : point; as_s : Z }.

Definition newAdaptorSignature (r : point) (s : Z) : outcome AdaptorSignature :=
  if bool_decide (r = infinity) then Err (Errorf "R0 must be an affine point") else Ok (mkAdaptorSig r s).

(** The needsNegation byte of the old format becomes the parity byte. *)
Definition convertOldFormatToNewFormat (oldSigBytes : bytes) : outcome bytes :=
  if negb (bool_decide (oldSigBytes !! 0%nat = Some PubKeyFormatEven)) then Err (Errorf "invalid point (must be even)")
  else
    let body := take 64 (drop 1 oldSigBytes) in
    match oldSigBytes !! (AdaptorSignatureSizeOldFormat - 1)%nat with
    | Some x00 => Ok (PubKeyFormatEven :: body)
    | Some x01 => Ok (PubKeyFormatOdd :: body)
    | _ => Err (Errorf "invalid needsNegation byte")
    end.

Definition NewAdaptorSignatureFromBytes (rawBytes : bytes) : outcome AdaptorSignature :=
  asigBytes ←
    (if (length rawBytes =? AdaptorSignatureSizeOldFormat)%nat
     then wrapf "failed to convert old format to new format" (convertOldFormatToNewFormat rawBytes)
     else if (length rawBytes =? AdaptorSignatureSize)%nat then Ok rawBytes
     else Err (Errorf "the length of the given bytes for adaptor signature is incorrect"));
  match ParseJacobian (take 33 asigBytes) with
  | None => Err (Errorf "failed to parse R0")
  | Some r0 =>
    let s := be_value (take 32 (drop 33 asigBytes)) in
    if order <=? s then Err (Errorf "s value is invalid") else newAdaptorSignature r0 s
  end.

Definition compress (P : point) : bytes := (if py_odd P then PubKeyFormatOdd else PubKeyFormatEven) :: be_bytes 32 (px P).
Definition AdaptorSignature_Marshal (a : AdaptorSignature) : bytes := compress (as_R0 a) ++ be_bytes 32 (as_s a).

(** ** keys.go *)

(** A decryption key is the scalar whose point has an even y; [blind] is the blinding
    factor of the multiplication. *)
Definition NewDecryptionKeyFromModNScalar (blind scalar : Z) : outcome Z :=
  if scalar =? 0 then Err (Errorf "the given scalar is zero")
  else if py_odd (ScalarBaseMultWithBlinding blind scalar) then Ok (modn (- scalar)) else Ok scalar.
Definition NewDecryptionKeyFromBTCSK (blind sk : Z) : outcome Z := NewDecryptionKeyFromModNScalar blind sk.
Definition GetEncKey (blind dk : Z) : point := ScalarBaseMultWithBlinding blind dk.
Definition negatePoint (P : point) : point := pmul (-1) P.
Definition NewEncryptionKeyFromJacobianPoint (P : point) : outcome point :=
  if bool_decide (P = infinity) then Err (Errorf "the given Jacobian point is at infinity")
  else Ok (if py_odd P then negatePoint P else P).
Definition NewEncryptionKeyFromBTCPK (btcPK : point) : outcome point := NewEncryptionKeyFromJacobianPoint btcPK.

(** ** sign_utils.go *)

(** [e.SetBytes] reduces the challenge modulo the order. *)
Definition preChallenge (r0 : Z) (pubKeyBytes m : bytes) : Z := modn (be_value (TaggedHash (be_bytes 32 r0 ++ pubKeyBytes ++ m))).

Definition encVerify (adaptorSig : AdaptorSignature) (m pubKeyBytes : bytes) (t : point) : outcome unit :=
  if negb (length m =? HashSize_chain)%nat then Err (Errorf "wrong size for message")
  else if negb (length pubKeyBytes =? HashSize_chain)%nat then Err (Errorf "wrong size for public key")
  else match ParsePubKey pubKeyBytes with
  | None => Err (Errorf "ParsePubKey")
  | Some P =>
    let s := as_s adaptorSig in
    if s =? 0 then Err (Errorf "s value is zero")
    else
      let R0 := as_R0 adaptorSig in
      if bool_decide (R0 = infinity) then Err (Errorf "R0 point is at infinity")
      else
        let e := preChallenge (px R0) pubKeyBytes m in
        let R := padd (pmul s G) (pmul (modn (- e)) P) in
        if bool_decide (R = infinity) then Err (Errorf "R point is at infinity")
        else
          let T := if negb (py_odd R0) then padd R0 (negatePoint R) else padd R0 R in
          if bool_decide (T = infinity) then Err (Errorf "T point is at infinity")
          else if negb (bool_decide (T = t)) then Err (Errorf "extracted encryption key does not match")
          else Ok tt
  end.

(** [privKey] is the scalar of the even public key; [blind] the blinding factor. *)
Definition encSign (blind privKey nonce : Z) (pubKey : point) (m : bytes) (t : point) : outcome AdaptorSignature :=
  let R := ScalarBaseMultWithBlinding blind nonce in
  let R0 := padd R t in
  if bool_decide (R0 = infinity) then Err (Errorf "R0 point is at infinity")
  else
    let k := if py_odd R0 then modn (- nonce) else nonce in
    let pBytes := SerializePubKey pubKey in
    let e := preChallenge (px R0) pBytes m in
    let s := modn (e * privKey + k) in
    adaptorSig ← wrapf "failed to create adaptor signature" (newAdaptorSignature R0 s);
    _ ← wrapf "verification of generated signature failed" (encVerify adaptorSig m pBytes t);
    Ok adaptorSig.

(** The result is a BIP-340 signature: the x coordinate and the scalar. *)
Definition decrypt (psig : AdaptorSignature) (dk : Z) : outcome (Z * Z) :=
  let s0 := as_s psig in
  if (s0 =? 0) || (dk =? 0) then Err (Errorf "s0 or decryption key is zero")
  else
    let s := if negb (py_odd (as_R0 psig)) then modn (s0 + dk) else modn (s0 + modn (- dk)) in
    Ok (px (as_R0 psig), s).

Definition extract (psig : AdaptorSignature) (sig : Z * Z) : outcome Z :=
  let s0 := as_s psig in
  let s := sig.2 in
  if order <=? s then Err (Errorf "s value in signature is invalid")
  else if (s0 =? 0) || (s =? 0) then Err (Errorf "s values must be non-zero")
  else Ok (if negb (py_odd (as_R0 psig)) then modn (s + modn (- s0)) else modn (s0 + modn (- s))).

(** ** sig.go *)

Definition EncVerify (sig : AdaptorSignature) (pk encKey : point) (msgHash : bytes) : outcome unit :=
  encVerify sig msgHash (SerializePubKey pk) encKey.
Definition Decrypt (sig : AdaptorSignature) (decKey : Z) : outcome (Z * Z) := decrypt sig decKey.
Definition ExtractKey (sig : AdaptorSignature) (decryptedSchnorrSig : Z * Z) : outcome Z := extract sig decryptedSchnorrSig.

Definition xor_bytes (a b : bytes) : bytes := zip_with (λ x y, byte_of_Z (Z.lxor (byte_code x) (byte_code y))) a b.
Definition genRandForNonce (skBytes auxRand encKeyBytes pkBytes msgHash : bytes) : bytes :=
  let auxHash := TaggedHashWith "SchnorrAdaptor/aux" auxRand in
  let t := xor_bytes skBytes auxHash in
  TaggedHashWith "SchnorrAdaptor/nonce" (t ++ encKeyBytes ++ pkBytes ++ msgHash).

Definition EncSignWithAuxData (blind1 blind2 sk : Z) (encKey : point) (msgHash auxData : bytes) : outcome AdaptorSignature :=
  if negb (length msgHash =? HashSize_chain)%nat then Err (Errorf "wrong size for message hash")
  else if negb (length auxData =? HashSize_chain)%nat then Err (Errorf "wrong size for auxiliary data")
  else if sk =? 0 then Err (Errorf "private key is zero")
  else
    let Pp := ScalarBaseMultWithBlinding blind1 sk in
    let pkBytes := compress Pp in
    let skScalar := if py_odd Pp then modn (- sk) else sk in
    let randForNonce := genRandForNonce (be_bytes 32 skScalar) auxData (compress encKey) pkBytes msgHash in
    let nonce := modn (be_value randForNonce) in
    if nonce =? 0 then Err (Errorf "nonce is zero")
    else encSign blind2 skScalar nonce Pp msgHash encKey.

End adaptor.

(** ** Laws of the library *)

Class CompressedLaws `{!Curve} (CP : CompressedPoints) : Prop := {
  ParseJacobian_compress P : P ≠ infinity → ParseJacobian (compress P) = Some P;
  ParseJacobian_finite b P : ParseJacobian b = Some P → P ≠ infinity
}.

(** [schnorr.Signature.Verify], as BIP-340 specifies it: with [P] the even point of
    the key and [e] the challenge, which has to be a scalar, [sG - eP] is finite, has
    an even y and the x coordinate of the signature. *)
Class SchnorrVerification `{!Curve} := {
  SchnorrVerify : bytes → bytes → Z * Z → bool;   (* hash, key, signature *)
  SchnorrVerify_spec hash key r s P :
    ParsePubKey key = Some P → be_value (TaggedHash (be_bytes 32 r ++ key ++ hash)) < order → 0 ≤ s < order →
    let R := padd (pmul s G) (pmul (- be_value (TaggedHash (be_bytes 32 r ++ key ++ hash))) P) in
    R ≠ infinity → py_odd R = false → px R = r → SchnorrVerify hash key (r, s) = true
}.

Section correctness.
Context {curve : Curve} {claws : CurveLaws} {CP : CompressedPoints}.

Lemma modn_modn z : modn (modn z) = modn z.
Proof using. apply Zmod_mod. Qed.
Lemma modn_add_l a b : modn (modn a + b) = modn (a + b).
Proof using. apply Zplus_mod_idemp_l. Qed.
Lemma modn_add_r a b : modn (a + modn b) = modn (a + b).
Proof using. apply Zplus_mod_idemp_r. Qed.
Lemma modn_sub_r a b : modn (a - modn b) = modn (a - b).
Proof using. apply Zminus_mod_idemp_r. Qed.
Lemma modn_id z : 0 ≤ z < order → modn z = z.
Proof using. apply Z.mod_small. Qed.
Lemma negate_add P : padd P (negatePoint P) = infinity.
Proof using claws. unfold negatePoint. rewrite <- (pmul_1 P) at 1. apply padd_neg. Qed.
Lemma negate_infinity P : negatePoint P = infinity → P = infinity.
Proof using claws.
  intros H. rewrite <- (negate_add P), H, padd_comm. symmetry. apply padd_infinity.
Qed.
Lemma negate_pmul a P : negatePoint (pmul a P) = pmul (- a) P.
Proof using claws. unfold negatePoint. rewrite <- pmul_mul. f_equal. Qed.
Lemma negate_negate P : negatePoint (negatePoint P) = P.
Proof using claws. unfold negatePoint. rewrite <- pmul_mul. apply pmul_1. Qed.
Lemma negate_padd P Q : negatePoint (padd P Q) = padd (negatePoint P) (negatePoint Q).
Proof using claws.
  apply (padd_cancel _ _ (padd P Q)). rewrite padd_comm, negate_add.
  rewrite (padd_comm P Q), padd_assoc, <- (padd_assoc (negatePoint P)), (padd_comm (negatePoint Q) Q), negate_add.
  by rewrite (padd_comm (negatePoint P) infinity), padd_infinity, padd_comm, negate_add.
Qed.
Lemma padd_move P Q R : padd P Q = R → P = padd R (negatePoint Q).
Proof using claws. intros <-. by rewrite <- padd_assoc, negate_add, padd_comm, padd_infinity. Qed.

(** What verification checks, without the bookkeeping. *)
Lemma encVerify_spec sig m pkBytes t : encVerify sig m pkBytes t = Ok tt ↔
  length m = HashSize_chain ∧ length pkBytes = HashSize_chain ∧ as_s sig ≠ 0 ∧ as_R0 sig ≠ infinity ∧ t ≠ infinity ∧
  ∃ P, ParsePubKey pkBytes = Some P ∧
    let R := padd (pmul (as_s sig) G) (pmul (- preChallenge (px (as_R0 sig)) pkBytes m) P) in
    R ≠ infinity ∧ as_R0 sig = if py_odd (as_R0 sig) then padd t (negatePoint R) else padd t R.
Proof using claws.
  unfold encVerify. split.
  - intros H. destruct (length m =? _)%nat eqn:E1; [|done]. destruct (length pkBytes =? _)%nat eqn:E2; [|done]. cbn [negb] in H.
    destruct (ParsePubKey pkBytes) as [P|]; [|done]. destruct (as_s sig =? 0) eqn:E3; [done|].
    destruct (bool_decide (as_R0 sig = infinity)) eqn:E4; [done|]. rewrite pmul_modn in H.
    destruct (bool_decide (padd _ _ = infinity)) eqn:E5; [done|]. apply bool_decide_eq_false in E4, E5.
    destruct (bool_decide (_ = infinity)) eqn:E6 in H; [done|]. destruct (bool_decide (_ = t)) eqn:E7 in H; [|done].
    apply bool_decide_eq_true in E7. rewrite E7 in E6. apply bool_decide_eq_false in E6.
    apply Nat.eqb_eq in E1, E2. apply Z.eqb_neq in E3. split_and!; [done..|]. exists P. split; [done|]. split; [done|].
    destruct (py_odd (as_R0 sig)); cbn [negb] in E7; apply padd_move in E7; [done|].
    by rewrite negate_negate in E7.
  - intros (H1 & H2 & H3 & H4 & H5 & P & HP & HR & HR0). rewrite HP, pmul_modn. apply Nat.eqb_eq in H1, H2. rewrite H1, H2. cbn [negb].
    rewrite (proj2 (Z.eqb_neq _ _)) by done. rewrite (bool_decide_eq_false_2 (as_R0 sig = infinity)) by done.
    rewrite (bool_decide_eq_false_2 (padd _ _ = infinity)) by done.
    set (R := padd _ _) in *.
    assert (HT : (if negb (py_odd (as_R0 sig)) then padd (as_R0 sig) (negatePoint R) else padd (as_R0 sig) R) = t).
    { destruct (py_odd (as_R0 sig)); cbn [negb]; symmetry.
      - symmetry in HR0. apply padd_move in HR0. by rewrite negate_negate in HR0.
      - symmetry in HR0. by apply padd_move in HR0. }
    rewrite HT, (bool_decide_eq_false_2 (t = infinity)), (bool_decide_eq_true_2 (t = t)) by done. reflexivity.
Qed.

(** The keys of a secret: the decryption key is the logarithm of the encryption key. *)
Lemma keys_match blind sk dk ek : NewDecryptionKeyFromBTCSK blind sk = Ok dk → NewEncryptionKeyFromBTCPK (pmul sk G) = Ok ek →
  pmul dk G = ek ∧ ek ≠ infinity.
Proof using claws.
  unfold NewDecryptionKeyFromBTCSK, NewDecryptionKeyFromModNScalar, NewEncryptionKeyFromBTCPK, NewEncryptionKeyFromJacobianPoint.
  rewrite ScalarBaseMultWithBlinding_eq. destruct (sk =? 0); [done|]. destruct (bool_decide (pmul sk G = infinity)) eqn:E; [done|].
  apply bool_decide_eq_false in E. destruct (py_odd (pmul sk G)); intros [= <-] [= <-].
  - rewrite pmul_modn, negate_pmul. split; [done|]. intros H. rewrite <- negate_pmul in H. by apply negate_infinity in H.
  - done.
Qed.

(** The scalar of a decrypted signature. *)
Definition decrypted_s (sig : AdaptorSignature) (dk : Z) : Z :=
  if py_odd (as_R0 sig) then modn (as_s sig - dk) else modn (as_s sig + dk).
Lemma decrypt_eq sig dk : as_s sig ≠ 0 → dk ≠ 0 → Decrypt sig dk = Ok (px (as_R0 sig), decrypted_s sig dk).
Proof using.
  intros Hs Hd. unfold Decrypt, decrypt, decrypted_s. rewrite !(proj2 (Z.eqb_neq _ _)) by done. cbn [orb].
  destruct (py_odd (as_R0 sig)); cbn [negb]; [|done]. by rewrite modn_add_r.
Qed.
(** The point that verification of the decrypted signature computes. *)
Lemma decrypted_point sig dk t e P : pmul dk G = t →
  (let R := padd (pmul (as_s sig) G) (pmul (- e) P) in
   as_R0 sig = if py_odd (as_R0 sig) then padd t (negatePoint R) else padd t R) →
  padd (pmul (decrypted_s sig dk) G) (pmul (- e) P) = even_point (as_R0 sig).
Proof using claws.
  intros <-. cbn zeta. set (R := padd (pmul (as_s sig) G) (pmul (- e) P)). intros Heq.
  assert (Hadd : ∀ z, padd (pmul (as_s sig + z) G) (pmul (- e) P) = padd R (pmul z G)).
  { intros z. unfold R. by rewrite pmul_add, <- !padd_assoc, (padd_comm (pmul z G)). }
  unfold decrypted_s, even_point. fold (negatePoint (as_R0 sig)). destruct (py_odd (as_R0 sig)); rewrite pmul_modn.
  - change (as_s sig - dk) with (as_s sig + - dk). by rewrite Hadd, <- negate_pmul, Heq, negate_padd, negate_negate, padd_comm.
  - by rewrite Hadd, Heq, padd_comm.
Qed.
Lemma extract_decrypted sig dk : 0 ≤ as_s sig < order → as_s sig ≠ 0 → 0 ≤ dk < order → decrypted_s sig dk ≠ 0 →
  ExtractKey sig (px (as_R0 sig), decrypted_s sig dk) = Ok dk.
Proof using claws.
  intros Hr Hs Hd Hne. unfold ExtractKey, extract, snd.
  assert (Hlt : decrypted_s sig dk < order) by (unfold decrypted_s; destruct (py_odd _); apply modn_range).
  rewrite (proj2 (Z.leb_gt _ _)), !(proj2 (Z.eqb_neq _ _)) by done. cbn [orb]. f_equal. rewrite !modn_add_r. unfold decrypted_s.
  destruct (py_odd (as_R0 sig)); cbn [negb].
  - change (as_s sig + - modn (as_s sig - dk)) with (as_s sig - modn (as_s sig - dk)). rewrite modn_sub_r.
    rewrite <- (modn_id dk) at 2 by done. f_equal. lia.
  - rewrite modn_add_l. rewrite <- (modn_id dk) at 2 by done. f_equal. lia.
Qed.

(** Signing with an even key fails only when the nonce point cancels the encryption key
    or the scalar is zero: its own verification always succeeds. *)
Lemma encSign_total blind d k m t : length m = HashSize_chain → pmul d G ≠ infinity → py_odd (pmul d G) = false → t ≠ infinity →
  modn k ≠ 0 → padd (pmul k G) t ≠ infinity →
  let R0 := padd (pmul k G) t in
  let s := modn (preChallenge (px R0) (SerializePubKey (pmul d G)) m * d + if py_odd R0 then modn (- k) else k) in
  s ≠ 0 → encSign blind d k (pmul d G) m t = Ok (mkAdaptorSig R0 s).
Proof using claws.
  intros Hm HP Hev Ht Hk HR0 R0 s Hs. unfold encSign. rewrite ScalarBaseMultWithBlinding_eq. fold R0.
  rewrite (bool_decide_eq_false_2 (R0 = infinity)) by done. fold s. unfold newAdaptorSignature.
  rewrite (bool_decide_eq_false_2 (R0 = infinity)) by done. cbn [wrapf mbind outcome_bind].
  assert (Hv : encVerify (mkAdaptorSig R0 s) m (SerializePubKey (pmul d G)) t = Ok tt); [|by rewrite Hv].
  apply encVerify_spec. cbn [as_R0 as_s]. split; [done|]. split; [apply be_bytes_length|]. split_and!; [done..|].
  exists (pmul d G). split; [by apply ParsePubKey_complete|]. cbn zeta.
  set (e := preChallenge _ _ _) in *.
  assert (HR : padd (pmul s G) (pmul (- e) (pmul d G)) = pmul (if py_odd R0 then - k else k) G).
  { unfold s. rewrite pmul_modn, <- pmul_mul, <- pmul_add. replace (e * d + _ + - e * d) with (if py_odd R0 then modn (- k) else k) by lia.
    destruct (py_odd R0); [apply pmul_modn|done]. }
  rewrite HR. split.
  - destruct (py_odd R0); [rewrite <- negate_pmul; intros ?%negate_infinity|]; by apply (pmul_G_finite k Hk).
  - unfold R0 at 1. destruct (py_odd R0); [rewrite negate_pmul, Z.opp_involutive|]; apply padd_comm.
Qed.

(** Serialization. *)
Lemma NewAdaptorSignature_Marshal {CL : CompressedLaws CP} a : as_R0 a ≠ infinity → 0 ≤ as_s a < order → order ≤ 2 ^ 256 →
  NewAdaptorSignatureFromBytes (AdaptorSignature_Marshal a) = Ok a.
Proof using.
  intros HR Hs Ho. unfold NewAdaptorSignatureFromBytes, AdaptorSignature_Marshal.
  assert (Hlc : length (compress (as_R0 a)) = 33%nat) by (unfold compress; cbn [length]; by rewrite be_bytes_length).
  assert (Hl : length (compress (as_R0 a) ++ be_bytes 32 (as_s a)) = 65%nat) by (by rewrite length_app, Hlc, be_bytes_length).
  rewrite Hl. cbn [Nat.eqb mbind outcome_bind AdaptorSignatureSizeOldFormat AdaptorSignatureSize JacobianPointSize ModNScalarSize Nat.add].
  rewrite take_app_length', drop_app_length' by done. rewrite ParseJacobian_compress by done.
  rewrite take_ge by (by rewrite be_bytes_length). rewrite be_value_be_bytes.
  change (256 ^ Z.of_nat 32) with (2 ^ 256). rewrite Z.mod_small by lia.
  rewrite (proj2 (Z.leb_gt _ _)) by lia. unfold newAdaptorSignature. rewrite bool_decide_eq_false_2 by done. by destruct a.
Qed.

Context {SV : SchnorrVerification}.

(** A signature that verifies under an encryption key decrypts to one that verifies under
    the signer's key. *)
Lemma decrypt_verifies blind sk dk ek pk m sig :
  NewDecryptionKeyFromBTCSK blind sk = Ok dk → NewEncryptionKeyFromBTCPK (pmul sk G) = Ok ek → EncVerify sig pk ek m = Ok tt →
  be_value (TaggedHash (be_bytes 32 (px (as_R0 sig)) ++ SerializePubKey pk ++ m)) < order →
  as_s sig ≠ 0 ∧ as_R0 sig ≠ infinity ∧ Decrypt sig dk = Ok (px (as_R0 sig), decrypted_s sig dk) ∧
  SchnorrVerify m (SerializePubKey pk) (px (as_R0 sig), decrypted_s sig dk) = true.
Proof using claws SV.
  intros Hdk Hek Hv Hch. destruct (keys_match _ _ _ _ Hdk Hek) as [HT Hfin].
  apply encVerify_spec in Hv as (_ & _ & Hs & HR0 & _ & P & HP & HR & Heq).
  assert (Hd : dk ≠ 0) by (intros ->; apply Hfin; by rewrite <- HT, pmul_0).
  split_and!; [done|done|by apply decrypt_eq|].
  assert (He : preChallenge (px (as_R0 sig)) (SerializePubKey pk) m = be_value (TaggedHash (be_bytes 32 (px (as_R0 sig)) ++ SerializePubKey pk ++ m)))
    by (apply modn_id; split; [apply be_value_nonneg|done]).
  rewrite He in Heq. destruct (even_point_spec (as_R0 sig) HR0) as (H1 & H2 & H3).
  pose proof (decrypted_point _ _ _ _ _ HT Heq) as HS.
  eapply SchnorrVerify_spec; [exact HP|exact Hch|unfold decrypted_s; destruct (py_odd _); apply modn_range|..]; by rewrite HS.
Qed.

(** C9: adaptor signatures do what the slashing of a staker relies on. A signature
    verified under the encryption key of a finality provider is decrypted with the
    provider's secret key to a BIP-340 signature that verifies under the covenant
    member's key, for either parity of the nonce point, and comparing the two gives the
    provider's decryption key back unless the decrypted s happens to be 0, which
    [ExtractKey] refuses. The challenge must be a scalar, as BIP-340 demands. *)
Theorem adaptor_scheme_correct blind sk dk ek pk m sig :
  NewDecryptionKeyFromBTCSK blind sk = Ok dk → NewEncryptionKeyFromBTCPK (pmul sk G) = Ok ek → 0 ≤ dk < order →
  0 ≤ as_s sig < order → EncVerify sig pk ek m = Ok tt →
  be_value (TaggedHash (be_bytes 32 (px (as_R0 sig)) ++ SerializePubKey pk ++ m)) < order →
  ∃ s, Decrypt sig dk = Ok (px (as_R0 sig), s) ∧ SchnorrVerify m (SerializePubKey pk) (px (as_R0 sig), s) = true ∧
    (s ≠ 0 → ExtractKey sig (px (as_R0 sig), s) = Ok dk).
Proof using claws SV.
  intros Hdk Hek Hdr Hsr Hv Hch. destruct (decrypt_verifies _ _ _ _ _ _ _ Hdk Hek Hv Hch) as (Hs & _ & Hd & HV).
  exists (decrypted_s sig dk). split_and!; [done|done|by apply extract_decrypted].
Qed.

End correctness.

(** ** An example *)

Module AdaptorExample.

#[local] Existing Instance toy_curve.
#[local] Existing Instance toy_laws.

Definition schnorr_ok (hash key : bytes) (sig : Z * Z) : bool :=
  match ParsePubKey key with
  | None => false
  | Some P =>
    let e := be_value (TaggedHash (be_bytes 32 sig.1 ++ key ++ hash)) in
    let R := padd (pmul sig.2 G) (pmul (- e) P) in
    negb (bool_decide (R = infinity)) && negb (py_odd R) && (px R =? sig.1)
  end.
#[local] Instance toy_schnorr : SchnorrVerification.
Proof.
  refine {| SchnorrVerify := schnorr_ok |}. intros hash key r s P HP _ _ R HR Hodd Hx. unfold schnorr_ok. rewrite HP.
  cbn [fst snd]. fold R. rewrite bool_decide_eq_false_2, Hodd, Hx, Z.eqb_refl by done. done.
Defined.
#[local] Instance toy_compressed : CompressedPoints :=
  {| ParseJacobian b := match b with
       | [] => None
       | p :: x => (λ P, if bool_decide (p = PubKeyFormatOdd) then negatePoint P else P) <$> ParsePubKey x
       end;
     TaggedHashWith _ b := TaggedHash b |}.

Definition msg : bytes := replicate 32 x05.
Definition sig1 : AdaptorSignature := get_ok (mkAdaptorSig G 0) (EncSignWithAuxData 3 2 2 (pmul 3 G) msg (replicate 32 x00)).

Lemma adaptor_scheme_correct_witness :
  ∃ s, Decrypt sig1 3 = Ok (px (as_R0 sig1), s) ∧ SchnorrVerify msg (SerializePubKey (pmul 2 G)) (px (as_R0 sig1), s) = true ∧
    (s ≠ 0 → ExtractKey sig1 (px (as_R0 sig1), s) = Ok 3).
Proof.
  apply (adaptor_scheme_correct 5 3 3 (pmul 3 G) (pmul 2 G) msg sig1); vm_compute; first [reflexivity|split; [discriminate|reflexivity]].
Defined.

End AdaptorExample.
