(* ===== verification/PubRand.v ===== *)
(** * x/finality/keeper/public_randomness.go: committed public randomness

    The per-provider store of randomness commitments with its index of start
    heights, searched by bisection, and the store of revealed randomness. *)

From S2P Require Import Prelude Bytes Store BbnTypes BtcStaking FinalityTypes PowerTable FinalityStore.

(** ** sort.Search

    The bisection of Go's [sort.Search] over [[i, j)]: the interval shrinks at
    each step, so its length bounds the number of steps. *)
Fixpoint search_loop (fuel : nat) (f : Z → bool) (i j : Z) : Z :=
  match fuel with
  | O => i
  | S fuel =>
    if i <? j then
      let h := (i + j) / 2 in
      if negb (f h) then search_loop fuel f (h + 1) j else search_loop fuel f i h
    else i
  end.

Definition sort_Search (n : Z) (f : Z → bool) : Z := search_loop (Z.to_nat n) f 0 n.

(** ** The stores *)

Definition commitsOf (s : FinalityState) (fpBtcPK : bytes) : gmap Z PubRandCommit :=
  default ∅ (pubRandCommits s !! fpBtcPK).

(** A failed range read of the index is impossible: the bisection returns a
    position of the slice. *)
Definition GetPubRandCommitForHeight (s : FinalityState) (fpBtcPK : bytes) (height : Z)
    : outcome PubRandCommit :=
  match pubRandCommitIndex s !! fpBtcPK with
  | None => Err ErrCollectionsNotFound
  | Some heights =>
    let heightsCount := Z.of_nat (length heights) in
    if heightsCount =? 0 then Err ErrPubRandNotFound
    else
      let i := sort_Search heightsCount (λ i, height <? default 0 (heights !! Z.to_nat i)) in
      if i =? 0 then Err ErrPubRandNotFound
      else
        match heights !! Z.to_nat (i - 1) with
        | None => Panic (Errorf "index out of range")
        | Some startHeight =>
          match commitsOf s fpBtcPK !! startHeight with
          | None => Err ErrPubRandNotFound
          | Some prCommit => if negb (IsInRange prCommit height) then Err ErrPubRandNotFound
                             else Ok prCommit
          end
        end
  end.

(** [finalizedEpoch] is [GetLastFinalizedEpoch]. *)
Definition GetTimestampedPubRandCommitForHeight (finalizedEpoch : Z) (s : FinalityState)
    (fpBtcPK : bytes) (height : Z) : outcome PubRandCommit :=
  prCommit ← GetPubRandCommitForHeight s fpBtcPK height;
  if finalizedEpoch =? 0 then Err ErrPubRandCommitNotBTCTimestamped
  else if finalizedEpoch <? prc_EpochNum prCommit then Err ErrPubRandCommitNotBTCTimestamped
  else Ok prCommit.

Definition HasTimestampedPubRand (finalizedEpoch : Z) (s : FinalityState) (fpBtcPK : bytes)
    (height : Z) : bool :=
  is_ok (GetTimestampedPubRandCommitForHeight finalizedEpoch s fpBtcPK height).

(** Appends a start height, which must exceed the last one. *)
Definition upsertPubRandCommitIdx (s : FinalityState) (fpBtcPK : bytes) (startHeight : Z)
    : outcome FinalityState :=
  let index := default [] (pubRandCommitIndex s !! fpBtcPK) in
  match last index with
  | Some l =>
    if startHeight <=? l then Err (Errorf "startHeight must be greater than the last committed height")
    else Ok (set_pubRandCommitIndex s (<[fpBtcPK := index ++ [startHeight]]> (pubRandCommitIndex s)))
  | None => Ok (set_pubRandCommitIndex s (<[fpBtcPK := index ++ [startHeight]]> (pubRandCommitIndex s)))
  end.

Definition SetPubRandCommit (s : FinalityState) (fpBtcPK : bytes) (prCommit : PubRandCommit)
    : outcome FinalityState :=
  let s := set_pubRandCommits s
    (set2 fpBtcPK (prc_StartHeight prCommit) prCommit (pubRandCommits s)) in
  upsertPubRandCommitIdx s fpBtcPK (prc_StartHeight prCommit).

Definition GetLastPubRandCommit (s : FinalityState) (fpBtcPK : bytes) : option PubRandCommit :=
  snd <$> last (iterZ (commitsOf s fpBtcPK)).

Definition SetPubRand (s : FinalityState) (fpBtcPK : bytes) (height : Z) (pubRand : bytes) : FinalityState :=
  set_pubRands s (set2 fpBtcPK height pubRand (pubRands s)).

Definition HasPubRand (s : FinalityState) (fpBtcPK : bytes) (height : Z) : bool :=
  bool_decide (is_Some (get2 fpBtcPK height (pubRands s))).

Definition GetPubRand (s : FinalityState) (fpBtcPK : bytes) (height : Z) : outcome bytes :=
  match get2 fpBtcPK height (pubRands s) with
  | None => Err ErrPubRandNotFound
  | Some prBytes => if bool_decide (prBytes = []) then Err ErrPubRandNotFound
                    else NewSchnorrPubRand prBytes
  end.

Definition GetLastPubRand (s : FinalityState) (fpBtcPK : bytes) : outcome (Z * bytes) :=
  match last (iterZ (default ∅ (pubRands s !! fpBtcPK))) with
  | None => Err ErrNoPubRandYet
  | Some (height, value) => pubRand ← must (NewSchnorrPubRand value); Ok (height, pubRand)
  end.

(** ** The bisection *)

Lemma search_loop_spec fuel f i j :
  i ≤ j → (Z.to_nat (j - i) ≤ fuel)%nat →
  (∀ a b, i ≤ a → a ≤ b → b < j → f a = true → f b = true) →
  let k := search_loop fuel f i j in
  i ≤ k ≤ j ∧ (∀ a, i ≤ a < k → f a = false) ∧ (∀ a, k ≤ a < j → f a = true).
Proof.
  revert i j. induction fuel as [|fuel IH]; intros i j Hij Hf Hm; cbn zeta.
  { assert (i = j) as -> by lia. simpl. split_and!; [lia..|lia|lia]. }
  cbn [search_loop]. destruct (Z.ltb_spec i j); [|split_and!; lia].
  set (h := (i + j) / 2).
  assert (i ≤ h < j) as Hh.
  { unfold h. split; [apply Z.div_le_lower_bound; lia|apply Z.div_lt_upper_bound; lia]. }
  destruct (f h) eqn:Eh; cbn [negb].
  - destruct (IH i h) as (H1 & H2 & H3); [lia|lia|intros a b ? ? ?; apply Hm; lia|].
    split_and!; [lia|lia|done|]. intros a Ha. destruct (Z.lt_ge_cases a h); [apply H3; lia|].
    apply (Hm h a); [lia|lia|lia|done].
  - destruct (IH (h + 1) j) as (H1 & H2 & H3); [lia|lia|intros a b ? ? ?; apply Hm; lia|].
    split_and!; [lia|lia| |done]. intros a Ha. destruct (Z.lt_ge_cases h a); [apply H2; lia|].
    destruct (f a) eqn:Ea; [|done]. rewrite (Hm a h) in Eh; [done|lia|lia|lia|done].
Qed.

Lemma sort_Search_spec n f :
  0 ≤ n → (∀ a b, 0 ≤ a → a ≤ b → b < n → f a = true → f b = true) →
  0 ≤ sort_Search n f ≤ n ∧ (∀ a, 0 ≤ a < sort_Search n f → f a = false) ∧
  (∀ a, sort_Search n f ≤ a < n → f a = true).
Proof. intros Hn Hm. unfold sort_Search. apply search_loop_spec; [done|lia|done]. Qed.

(** ** The invariant of the commitments *)

(** The index lists the start heights of the stored commitments in increasing
    order; each commitment is stored under its start height and covers a
    non-empty range without wrapping; the ranges are disjoint. *)
Record commits_wf (s : FinalityState) (pk : bytes) : Prop := {
  cw_sorted : StronglySorted Z.lt (default [] (pubRandCommitIndex s !! pk));
  cw_dom : ∀ h, h ∈ default [] (pubRandCommitIndex s !! pk) ↔ is_Some (commitsOf s pk !! h);
  cw_key : ∀ h c, commitsOf s pk !! h = Some c → prc_StartHeight c = h ∧ commit_wf c;
  cw_disjoint : ∀ h1 h2 c1, commitsOf s pk !! h1 = Some c1 → is_Some (commitsOf s pk !! h2) →
    h1 < h2 → h1 + prc_NumPubRand c1 ≤ h2
}.

Lemma commits_wf_ext s s' pk :
  commitsOf s' pk = commitsOf s pk → pubRandCommitIndex s' !! pk = pubRandCommitIndex s !! pk →
  commits_wf s pk → commits_wf s' pk.
Proof. intros E1 E2 [H1 H2 H3 H4]. constructor; rewrite ?E1, ?E2; done. Qed.

(** The specification of the lookup: the stored commitment whose range has the
    height. *)
Definition covers (s : FinalityState) (pk : bytes) (height : Z) (c : PubRandCommit) : Prop :=
  commitsOf s pk !! prc_StartHeight c = Some c ∧
  prc_StartHeight c ≤ height < prc_StartHeight c + prc_NumPubRand c.

Lemma StronglySorted_lookup_lt {A} (R : A → A → Prop) (l : list A) (i j : nat) x y :
  StronglySorted R l → l !! i = Some x → l !! j = Some y → (i < j)%nat → R x y.
Proof.
  intros Hs. revert i j. induction Hs as [|z l Hs IH Hz]; intros i j Hi Hj Hij; [done|].
  destruct j as [|j]; [lia|]. simpl in Hj. destruct i as [|i]; simpl in Hi.
  - injection Hi as ->. rewrite Forall_forall in Hz. apply Hz.
    by eapply list_elem_of_lookup_2.
  - eapply IH; eauto. lia.
Qed.

Lemma covers_unique s pk h c1 c2 :
  commits_wf s pk → covers s pk h c1 → covers s pk h c2 → c1 = c2.
Proof.
  intros Hwf [H1 R1] [H2 R2].
  destruct (Z.lt_trichotomy (prc_StartHeight c1) (prc_StartHeight c2)) as [Hlt|[Heq|Hlt]].
  - pose proof (cw_disjoint _ _ Hwf _ _ _ H1 (mk_is_Some _ _ H2) Hlt). lia.
  - congruence.
  - pose proof (cw_disjoint _ _ Hwf _ _ _ H2 (mk_is_Some _ _ H1) Hlt). lia.
Qed.

(** The entry the bisection selects is the last start height not above the
    height. *)
Lemma search_heights (heights : list Z) height :
  StronglySorted Z.lt heights → 
  let n := Z.of_nat (length heights) in
  let k := sort_Search n (λ i, height <? default 0 (heights !! Z.to_nat i)) in
  0 ≤ k ≤ n ∧
  (∀ (i : nat) x, heights !! i = Some x → Z.of_nat i < k ↔ x ≤ height).
Proof.
  intros Hs n k. destruct (sort_Search_spec n (λ i, height <? default 0 (heights !! Z.to_nat i)))
    as (H1 & H2 & H3); [lia| |fold k in H1, H2, H3].
  { intros a b Ha Hab Hb Hfa. apply Z.ltb_lt in Hfa. apply Z.ltb_lt.
    destruct (lookup_lt_is_Some_2 heights (Z.to_nat a)) as [x Hx]; [lia|].
    destruct (lookup_lt_is_Some_2 heights (Z.to_nat b)) as [y Hy]; [lia|].
    rewrite Hx in Hfa. rewrite Hy. simpl in *. destruct (decide (a = b)) as [->|Hne].
    - congruence.
    - assert (x < y) by (eapply StronglySorted_lookup_lt; eauto; lia). lia. }
  split; [done|]. intros i x Hx. pose proof (lookup_lt_Some _ _ _ Hx). split; intros Hi.
  - specialize (H2 (Z.of_nat i) ltac:(lia)). rewrite Nat2Z.id, Hx in H2. simpl in H2. lia.
  - destruct (Z.lt_ge_cases (Z.of_nat i) k); [done|].
    specialize (H3 (Z.of_nat i) ltac:(lia)). rewrite Nat2Z.id, Hx in H3. simpl in H3. lia.
Qed.

(** Looking up the commitment for a height. On a well-formed store the
    bisection over the index finds exactly the commitment whose range contains
    the height: the lookup returns it when there is one, and otherwise fails
    without panicking. *)
Theorem GetPubRandCommitForHeight_correct s pk height :
  commits_wf s pk →
  match GetPubRandCommitForHeight s pk height with
  | Ok c => covers s pk height c ∧ ∀ c', covers s pk height c' → c' = c
  | Err _ => ∀ c, ¬ covers s pk height c
  | Panic _ => False
  end.
Proof.
  intros Hwf. unfold GetPubRandCommitForHeight.
  pose proof (cw_sorted _ _ Hwf) as Hs. pose proof (cw_dom _ _ Hwf) as Hd.
  destruct (pubRandCommitIndex s !! pk) as [heights|] eqn:Ei; simpl in Hs, Hd.
  2: { intros c [Hc _]. assert (prc_StartHeight c ∈ []) as Hin by (apply Hd; eauto).
       by apply elem_of_nil in Hin. }
  destruct (Z.eqb_spec (Z.of_nat (length heights)) 0) as [El|El].
  { intros c [Hc _]. assert (prc_StartHeight c ∈ heights) as Hin by (apply Hd; eauto).
    destruct heights; [by apply elem_of_nil in Hin|done]. }
  destruct (search_heights heights height Hs) as [Hk Hlt].
  set (k := sort_Search _ _) in *.
  (* a covering commitment starts at the selected entry *)
  assert (∀ c, covers s pk height c → 0 < k ∧ heights !! Z.to_nat (k - 1) = Some (prc_StartHeight c)) as Hcov.
  { intros c [Hc Hr]. assert (prc_StartHeight c ∈ heights) as Hin by (apply Hd; eauto).
    apply list_elem_of_lookup_1 in Hin as [p Hp]. apply (Hlt p) in Hp as Hpk.
    assert (Z.of_nat p < k) as Hpk' by (apply Hpk; lia). split; [lia|].
    destruct (decide (Z.of_nat p = k - 1)) as [E|Hne]; [by rewrite <- E, Nat2Z.id|].
    destruct (lookup_lt_is_Some_2 heights (Z.to_nat (k - 1))) as [y Hy]; [lia|].
    assert (prc_StartHeight c < y) as Hy1 by (eapply StronglySorted_lookup_lt; eauto; lia).
    assert (y ≤ height) as Hy2 by (eapply Hlt; [exact Hy|lia]).
    assert (is_Some (commitsOf s pk !! y)) as Hys by (apply Hd; by eapply list_elem_of_lookup_2).
    pose proof (cw_disjoint _ _ Hwf _ _ _ Hc Hys Hy1). lia. }
  destruct (Z.eqb_spec k 0) as [Ek|Ek].
  { intros c Hc. apply Hcov in Hc. lia. }
  destruct (lookup_lt_is_Some_2 heights (Z.to_nat (k - 1))) as [st Hst]; [lia|]. rewrite Hst.
  assert (is_Some (commitsOf s pk !! st)) as [c Hc] by (apply Hd; by eapply list_elem_of_lookup_2).
  rewrite Hc. destruct (cw_key _ _ Hwf _ _ Hc) as [Est Hcwf].
  destruct (IsInRange c height) eqn:Er; cbn [negb].
  - apply IsInRange_wf in Er; [|done].
    assert (covers s pk height c) as Hcc by (split; [by rewrite Est|done]).
    split; [done|]. intros c' Hc'. symmetry. eapply covers_unique; eauto.
  - intros c' Hc'. destruct (Hcov c' Hc') as [_ Hst']. rewrite Hst in Hst'. injection Hst' as ->.
    destruct Hc' as [Hc1 Hc2]. rewrite Hc in Hc1. injection Hc1 as ->.
    assert (IsInRange c' height = true); [|congruence]. by apply IsInRange_wf.
Qed.

(** ** Adding a commitment *)

Lemma GetLastPubRandCommit_None s pk :
  GetLastPubRandCommit s pk = None ↔ commitsOf s pk = ∅.
Proof.
  unfold GetLastPubRandCommit. rewrite fmap_None. apply iterZ_last_None.
Qed.

Lemma GetLastPubRandCommit_Some s pk c :
  GetLastPubRandCommit s pk = Some c →
  ∃ h, commitsOf s pk !! h = Some c ∧ ∀ h', is_Some (commitsOf s pk !! h') → h' ≤ h.
Proof.
  unfold GetLastPubRandCommit. rewrite fmap_Some. intros ([h c'] & E & ->).
  exists h. by apply iterZ_last.
Qed.

(** A commitment that starts above the last committed height extends the store. *)
Definition extends (s : FinalityState) (pk : bytes) (c : PubRandCommit) : Prop :=
  commit_wf c ∧ ∀ l, GetLastPubRandCommit s pk = Some l → EndHeight l < prc_StartHeight c.

Lemma extends_above s pk c h c0 :
  commits_wf s pk → extends s pk c → commitsOf s pk !! h = Some c0 →
  h + prc_NumPubRand c0 ≤ prc_StartHeight c.
Proof.
  intros Hwf [Hc He] Hh. destruct (GetLastPubRandCommit s pk) as [l|] eqn:El.
  - specialize (He l eq_refl). apply GetLastPubRandCommit_Some in El as (hl & Hl & Hmax).
    destruct (cw_key _ _ Hwf _ _ Hl) as [Est Hlwf]. rewrite EndHeight_wf in He by done.
    specialize (Hmax h (mk_is_Some _ _ Hh)). destruct (decide (h = hl)) as [->|Hne].
    + rewrite Hh in Hl. injection Hl as ->. lia.
    + pose proof (cw_disjoint _ _ Hwf _ _ _ Hh (mk_is_Some _ _ Hl) ltac:(lia)).
      destruct Hlwf. lia.
  - apply GetLastPubRandCommit_None in El. rewrite El, lookup_empty in Hh. done.
Qed.

Lemma extends_fresh s pk c h :
  commits_wf s pk → extends s pk c → is_Some (commitsOf s pk !! h) → h < prc_StartHeight c.
Proof.
  intros Hwf He [c0 Hh]. pose proof (extends_above _ _ _ _ _ Hwf He Hh).
  destruct (cw_key _ _ Hwf _ _ Hh) as [_ (_ & ? & _)]. lia.
Qed.

Lemma StronglySorted_snoc (l : list Z) x :
  StronglySorted Z.lt l → (∀ y, y ∈ l → y < x) → StronglySorted Z.lt (l ++ [x]).
Proof.
  intros Hs Hx. apply StronglySorted_app_2; [|done|repeat constructor].
  intros y z Hy Hz. apply list_elem_of_singleton in Hz as ->. auto.
Qed.

Lemma SetPubRandCommit_spec s pk c :
  commits_wf s pk → extends s pk c →
  ∃ s', SetPubRandCommit s pk c = Ok s' ∧ commits_wf s' pk ∧
    commitsOf s' pk = <[prc_StartHeight c := c]> (commitsOf s pk) ∧
    (∀ pk', pk' ≠ pk → commitsOf s' pk' = commitsOf s pk' ∧
                        pubRandCommitIndex s' !! pk' = pubRandCommitIndex s !! pk') ∧
    s' = set_pubRandCommitIndex (set_pubRandCommits s (pubRandCommits s')) (pubRandCommitIndex s').
Proof.
  intros Hwf He. set (h := prc_StartHeight c).
  set (idx := default [] (pubRandCommitIndex s !! pk)).
  assert (∀ y, y ∈ idx → y < h) as Hlt.
  { intros y Hy. apply (cw_dom _ _ Hwf) in Hy. by apply (extends_fresh s pk c). }
  set (s' := set_pubRandCommitIndex (set_pubRandCommits s (set2 pk h c (pubRandCommits s)))
               (<[pk := idx ++ [h]]> (pubRandCommitIndex s))).
  assert (SetPubRandCommit s pk c = Ok s') as E.
  { unfold SetPubRandCommit, upsertPubRandCommitIdx. simpl. fold idx h.
    destruct (last idx) as [l|] eqn:El; [|done]. apply last_Some_elem_of in El.
    apply Hlt in El. by rewrite (proj2 (Z.leb_gt h l)). }
  assert (commitsOf s' pk = <[h := c]> (commitsOf s pk)) as Hco.
  { unfold commitsOf, s', set2. simpl. by rewrite lookup_insert_eq. }
  assert (pubRandCommitIndex s' !! pk = Some (idx ++ [h])) as Hidx by apply lookup_insert_eq.
  exists s'. split_and!; auto.
  - constructor; rewrite ?Hidx; cbn [from_option id].
    + apply StronglySorted_snoc; [apply (cw_sorted _ _ Hwf)|done].
    + intros x. rewrite Hco, elem_of_app, list_elem_of_singleton. unfold idx.
      rewrite (cw_dom _ _ Hwf), lookup_insert_is_Some. destruct (decide (h = x)) as [<-|Hne]; naive_solver.
    + intros x c'. rewrite Hco, lookup_insert_Some. intros [[<- <-]|[_ Hx]].
      * split; [done|apply He].
      * by apply (cw_key _ _ Hwf).
    + intros h1 h2 c1. rewrite Hco, lookup_insert_Some, lookup_insert_is_Some.
      intros [[E1 E1']|[Hne1 H1]] [E2|[Hne2 H2]] Hl; try lia.
      * pose proof (extends_fresh _ _ _ _ Hwf He H2) as Hf. fold h in Hf. lia.
      * subst h2. by apply (extends_above s pk c).
      * by apply (cw_disjoint _ _ Hwf h1 h2 c1).
  - intros pk' Hne. unfold commitsOf, s', set2. simpl. by rewrite !lookup_insert_ne.
Qed.

(** A commitment keeps the coverage of every height already covered. *)
Lemma SetPubRandCommit_covers s s' pk c pk' h c' :
  commits_wf s pk → extends s pk c → SetPubRandCommit s pk c = Ok s' →
  covers s pk' h c' → covers s' pk' h c'.
Proof.
  intros Hwf He E [Hc Hr]. destruct (SetPubRandCommit_spec s pk c Hwf He) as (s1 & E1 & _ & Hco & Hother & _).
  rewrite E in E1. injection E1 as <-. split; [|done].
  destruct (decide (pk' = pk)) as [->|Hne].
  - rewrite Hco, lookup_insert_ne; [done|].
    pose proof (extends_fresh _ _ _ _ Hwf He (mk_is_Some _ _ Hc)). lia.
  - destruct (Hother pk' Hne) as [-> _]. done.
Qed.

(** ** Witness *)

(** One commitment for the heights 10 to 14. *)
Definition example_rand_commit : PubRandCommit := mkPubRandCommit 10 5 [] 1.
Definition example_rand_store : FinalityState :=
  set_pubRandCommitIndex (set_pubRandCommits (empty_finality DefaultFinalityParams)
    {[example_pk := {[10 := example_rand_commit]}]}) {[example_pk := [10]]}.

Lemma GetPubRandCommitForHeight_correct_witness :
  GetPubRandCommitForHeight example_rand_store example_pk 14 = Ok example_rand_commit ∧
  covers example_rand_store example_pk 14 example_rand_commit.
Proof.
  assert (commits_wf example_rand_store example_pk) as Hwf.
  { constructor; unfold commitsOf, example_rand_store; simpl; rewrite !lookup_singleton_eq; simpl.
    - repeat constructor.
    - intros h. rewrite list_elem_of_singleton, lookup_singleton_is_Some. naive_solver.
    - intros h c. rewrite lookup_singleton_Some. intros [<- <-]. split; [done|]. unfold commit_wf. simpl. lia.
    - intros h1 h2 c1. rewrite lookup_singleton_Some, lookup_singleton_is_Some. intros [<- <-] <-. lia. }
  pose proof (GetPubRandCommitForHeight_correct example_rand_store example_pk 14 Hwf) as H.
  assert (GetPubRandCommitForHeight example_rand_store example_pk 14 = Ok example_rand_commit) as E
    by (vm_compute; reflexivity).
  rewrite E in H. split; [reflexivity|exact (proj1 H)].
Defined.
