(* ===== verification/FinalityGenesis.v ===== *)
(** * x/finality: genesis

    Validation, import and export of the module's state (types/genesis.go,
    keeper/genesis.go, genesis.go). Importing what was exported restores every
    store, when validation lets it through; but validation refuses the export of
    every chain in which a provider has power at two heights that agree modulo
    256. *)

From S2P Require Import Prelude Bytes Store BbnTypes FinalityTypes PowerTable FinalityStore Liveness PubRand.

(** ** Records

    [None] is a nil pointer. *)
Record VoteSig := mkVoteSig { vs_BlockHeight : Z; vs_FpBtcPk : option bytes; vs_FinalitySig : option bytes }.
Record PublicRandomness := mkPublicRandomness { pr_BlockHeight : Z; pr_FpBtcPk : option bytes; pr_PubRand : option bytes }.
Record PubRandCommitWithPK := mkCommitWithPK { cp_FpBtcPk : option bytes; cp_PubRandCommit : option PubRandCommit }.
Record SigningInfo := mkGenSigningInfo { gsi_FpBtcPk : option bytes; gsi_FpSigningInfo : FinalityProviderSigningInfo }.
Record FinalityProviderMissedBlocks := mkFpMissed { mb_FpBtcPk : option bytes; mb_MissedBlocks : list (Z * bool) }.
Record VotingPowerFP := mkVotingPowerFP { vp_BlockHeight : Z; vp_FpBtcPk : option bytes; vp_VotingPower : Z }.
Record FinalityGenesis := mkFinalityGenesis {
  fg_Params : FinalityParams;
  fg_IndexedBlocks : list IndexedBlock;
  fg_Evidences : list Evidence;
  fg_VoteSigs : list VoteSig;
  fg_PublicRandomness : list PublicRandomness;
  fg_PubRandCommit : list PubRandCommitWithPK;
  fg_SigningInfos : list SigningInfo;
  fg_MissedBlocks : list FinalityProviderMissedBlocks;
  fg_VotingPowers : list VotingPowerFP;
  fg_VpDstCache : list (Z * option VotingPowerDistCache);
  fg_NextHeightToFinalize : Z;
  fg_NextHeightToReward : Z;
  fg_PubRandCommitIndexes : list (bytes * list Z)
}.
Definition DefaultFinalityGenesis : FinalityGenesis :=
  mkFinalityGenesis DefaultFinalityParams [] [] [] [] [] [] [] [] [] 0 0 [].

(** ** types/genesis.go *)

Definition VoteSig_Validate (v : VoteSig) : outcome unit :=
  match vs_FpBtcPk v, vs_FinalitySig v with
  | None, _ => Err ErrInvalidFinalitySig
  | Some _, None => Err ErrInvalidFinalitySig
  | Some pk, Some sig =>
    if bool_decide (length pk ≠ BIP340PubKeyLen) then Err ErrInvalidFinalitySig
    else if bool_decide (length sig ≠ SchnorrEOTSSigLen) then Err ErrInvalidFinalitySig
    else Ok tt
  end.
Definition PublicRandomness_Validate (pr : PublicRandomness) : outcome unit :=
  match pr_FpBtcPk pr, pr_PubRand pr with
  | None, _ => Err ErrInvalidPubRand
  | Some _, None => Err ErrInvalidPubRand
  | Some pk, Some r =>
    if bool_decide (length pk ≠ BIP340PubKeyLen) then Err ErrInvalidPubRand
    else if bool_decide (length r ≠ SchnorrPubRandLen) then Err ErrInvalidPubRand
    else Ok tt
  end.
Definition PubRandCommitWithPK_Validate (prc : PubRandCommitWithPK) : outcome unit :=
  match cp_FpBtcPk prc, cp_PubRandCommit prc with
  | None, _ => Err ErrInvalidPubRandCommit
  | Some _, None => Err ErrInvalidPubRandCommit
  | Some pk, Some c =>
    if bool_decide (length pk ≠ BIP340PubKeyLen) then Err ErrInvalidPubRandCommit else PubRandCommit_Validate c
  end.
Definition GenSigningInfo_Validate (si : SigningInfo) : outcome unit :=
  match gsi_FpBtcPk si with
  | None => Err (Errorf "invalid signing info. empty finality provider BTC public key")
  | Some pk =>
    if bool_decide (length pk ≠ BIP340PubKeyLen) then Err (Errorf "invalid signing info. finality provider BTC public key length")
    else if bool_decide (pk ≠ fsi_FpBtcPk (gsi_FpSigningInfo si))
    then Err (Errorf "invalid signing info. finality provider BTC does not match")
    else SigningInfo_Validate (gsi_FpSigningInfo si)
  end.
Definition MissedBlock_Validate (mb : Z * bool) : outcome unit :=
  if mb.1 <? 0 then Err (Errorf "invalid missed block index") else Ok tt.
Definition FinalityProviderMissedBlocks_Validate (m : FinalityProviderMissedBlocks) : outcome unit :=
  match mb_FpBtcPk m with
  | None => Err (Errorf "invalid fp missed blocks. empty finality provider BTC public key")
  | Some pk =>
    if (length (mb_MissedBlocks m) =? 0)%nat then Err (Errorf "invalid fp missed blocks. empty missed blocks")
    else if bool_decide (length pk ≠ BIP340PubKeyLen) then Err (Errorf "invalid fp missed blocks. finality provider BTC public key length")
    else foldM (λ _ mb, MissedBlock_Validate mb) tt (mb_MissedBlocks m)
  end.
Definition VotingPowerFP_Validate (vp : VotingPowerFP) : outcome unit :=
  match vp_FpBtcPk vp with
  | None => Err (Errorf "invalid voting power. empty finality provider BTC public key")
  | Some pk => if bool_decide (length pk ≠ BIP340PubKeyLen) then Err (Errorf "invalid voting power. length") else Ok tt
  end.
Definition VpDstCache_Validate (AddrRoundTrips : bytes → bool) (c : Z * option VotingPowerDistCache) : outcome unit :=
  match c.2 with
  | None => Err (Errorf "invalid voting power distribution cache. empty voting power distribution")
  | Some dc => DistCache_Validate AddrRoundTrips dc
  end.

(** The keys of the duplicate checks: the public key, and the last byte of the
    height. *)
Definition pkHeightKey (pk : option bytes) (height : Z) : bytes := default [] pk ++ [byte_of_Z height].
Definition pkHexKey (pk : option bytes) : string := match pk with Some pk => MarshalHex pk | None => "" end.

Definition FinalityGenesis_Validate {PK} (ToBTCPK : bytes → option PK) (AddrRoundTrips : bytes → bool) (gs : FinalityGenesis) : outcome unit :=
  _ ← ValidateEntries ib_Height IndexedBlock_Validate (fg_IndexedBlocks gs);
  _ ← foldM (λ _ e, Evidence_ValidateBasic ToBTCPK e) tt (fg_Evidences gs);
  _ ← ValidateEntries (λ v, pkHeightKey (vs_FpBtcPk v) (vs_BlockHeight v)) VoteSig_Validate (fg_VoteSigs gs);
  _ ← ValidateEntries (λ r, pkHeightKey (pr_FpBtcPk r) (pr_BlockHeight r)) PublicRandomness_Validate (fg_PublicRandomness gs);
  _ ← ValidateEntries (λ c, pkHeightKey (cp_FpBtcPk c) (default 0 (prc_StartHeight <$> cp_PubRandCommit c))) PubRandCommitWithPK_Validate
        (fg_PubRandCommit gs);
  _ ← ValidateEntries (λ si, pkHexKey (gsi_FpBtcPk si)) GenSigningInfo_Validate (fg_SigningInfos gs);
  _ ← ValidateEntries (λ mb, pkHexKey (mb_FpBtcPk mb)) FinalityProviderMissedBlocks_Validate (fg_MissedBlocks gs);
  _ ← ValidateEntries (λ vp, pkHeightKey (vp_FpBtcPk vp) (vp_BlockHeight vp)) VotingPowerFP_Validate (fg_VotingPowers gs);
  _ ← ValidateEntries fst (VpDstCache_Validate AddrRoundTrips) (fg_VpDstCache gs);
  if fg_NextHeightToFinalize gs <? fg_NextHeightToReward gs then Err (Errorf "invalid genesis state. Next height to reward")
  else FinalityParams_Validate (fg_Params gs).

(** ** keeper/genesis.go

    The validation that precedes an import refuses the nil pointers which
    [nonNil] guards. *)
Definition nonNil {A} (x : option A) : outcome A :=
  match x with Some a => Ok a | None => Panic (Errorf "nil pointer dereference") end.

Definition initVote (s : FinalityState) (v : VoteSig) : outcome FinalityState :=
  pk ← nonNil (vs_FpBtcPk v); sig ← nonNil (vs_FinalitySig v); Ok (SetSig s (vs_BlockHeight v) pk sig).
Definition initPubRand (s : FinalityState) (r : PublicRandomness) : outcome FinalityState :=
  pk ← nonNil (pr_FpBtcPk r); rand ← nonNil (pr_PubRand r); Ok (SetPubRand s pk (pr_BlockHeight r) rand).
Definition initCommit (s : FinalityState) (c : PubRandCommitWithPK) : outcome FinalityState :=
  pk ← nonNil (cp_FpBtcPk c); prc ← nonNil (cp_PubRandCommit c); SetPubRandCommit s pk prc.
Definition initSigningInfo (s : FinalityState) (si : SigningInfo) : outcome FinalityState :=
  pk ← nonNil (gsi_FpBtcPk si); Ok (setSigningInfo s pk (gsi_FpSigningInfo si)).
Definition initMissed (s : FinalityState) (m : FinalityProviderMissedBlocks) : outcome FinalityState :=
  foldM (λ s mb, pk ← nonNil (mb_FpBtcPk m); Ok (SetMissedBlockBitmapValue s pk mb.1 mb.2)) s (mb_MissedBlocks m).
Definition initPower (s : FinalityState) (vp : VotingPowerFP) : outcome FinalityState :=
  pk ← nonNil (vp_FpBtcPk vp); Ok (SetVotingPower s pk (vp_BlockHeight vp) (vp_VotingPower vp)).
Definition initCache (s : FinalityState) (c : Z * option VotingPowerDistCache) : outcome FinalityState :=
  dc ← nonNil c.2; Ok (SetVotingPowerDistCache s c.1 dc).

Definition InitGenesis_fin_keeper (s : FinalityState) (gs : FinalityGenesis) : outcome FinalityState :=
  let s := foldl SetBlock s (fg_IndexedBlocks gs) in
  s ← foldM SetEvidence s (fg_Evidences gs);
  s ← foldM initVote s (fg_VoteSigs gs);
  s ← foldM initPubRand s (fg_PublicRandomness gs);
  s ← foldM initCommit s (fg_PubRandCommit gs);
  s ← foldM initSigningInfo s (fg_SigningInfos gs);
  s ← foldM initMissed s (fg_MissedBlocks gs);
  s ← foldM initPower s (fg_VotingPowers gs);
  s ← foldM initCache s (fg_VpDstCache gs);
  let s := SetNextHeightToReward (setNextHeightToFinalize s (fg_NextHeightToFinalize gs)) (fg_NextHeightToReward gs) in
  _ ← FinalityParams_Validate (fg_Params gs);
  Ok (set_finalityParams s (fg_Params gs)).

(** genesis.go: a failure panics. *)
Definition InitGenesis_finality {PK} (ToBTCPK : bytes → option PK) (AddrRoundTrips : bytes → bool) (s : FinalityState) (gs : FinalityGenesis)
    : outcome FinalityState :=
  _ ← must (FinalityGenesis_Validate ToBTCPK AddrRoundTrips gs);
  must (InitGenesis_fin_keeper s gs).

(** The entries of a store with two key components, in the order of the keys. *)
Definition entriesZB {V} (m : gmap Z (gmap bytes V)) : list (Z * bytes * V) :=
  iterZ m ≫= λ hm, (λ kv, (hm.1, kv.1, kv.2)) <$> iterB hm.2.
Definition entriesBZ {V} (m : gmap bytes (gmap Z V)) : list (bytes * Z * V) :=
  iterB m ≫= λ km, (λ hv, (km.1, hv.1, hv.2)) <$> iterZ km.2.

Definition exportBlocks (s : FinalityState) : list IndexedBlock := (iterZ (blocks s)).*2.
Definition exportEvidences (s : FinalityState) : list Evidence := (entriesBZ (evidences s)).*2.
Definition votingPowersDistCacheBlkHeight (s : FinalityState) : list (Z * option VotingPowerDistCache) :=
  (λ kv, (kv.1, Some kv.2)) <$> iterZ (vpDistCaches s).
Definition voteSigs (s : FinalityState) : outcome (list VoteSig) :=
  mapM (λ e : Z * bytes * bytes, pk ← NewBIP340PubKey e.1.2; sig ← NewSchnorrEOTSSig e.2; Ok (mkVoteSig e.1.1 (Some pk) (Some sig)))
    (entriesZB (votes s)).
Definition publicRandomness (s : FinalityState) : outcome (list PublicRandomness) :=
  mapM (λ e : bytes * Z * bytes, pk ← NewBIP340PubKey e.1.1; r ← NewSchnorrPubRand e.2; Ok (mkPublicRandomness e.1.2 (Some pk) (Some r)))
    (entriesBZ (pubRands s)).
Definition exportPubRandCommit (s : FinalityState) : outcome (list PubRandCommitWithPK) :=
  mapM (λ e : bytes * Z * PubRandCommit, pk ← NewBIP340PubKey e.1.1; Ok (mkCommitWithPK (Some pk) (Some e.2))) (entriesBZ (pubRandCommits s)).
Definition signingInfosAndMissedBlock (s : FinalityState) : outcome (list (SigningInfo * FinalityProviderMissedBlocks)) :=
  mapM (λ e : bytes * FinalityProviderSigningInfo,
    pk ← NewBIP340PubKey e.1;
    Ok (mkGenSigningInfo (Some pk) e.2, mkFpMissed (Some pk) ((λ i, (i, true)) <$> GetFinalityProviderMissedBlocks s pk)))
    (iterB (signingInfos s)).
Definition fpVotingPowers (s : FinalityState) : outcome (list VotingPowerFP) :=
  mapM (λ e : Z * bytes * Z, pk ← NewBIP340PubKey e.1.2; Ok (mkVotingPowerFP e.1.1 (Some pk) e.2)) (entriesZB (votingPower s)).
Definition pubRandCommitIdxs (s : FinalityState) : outcome (list (bytes * list Z)) :=
  mapM (λ e : bytes * list Z, pk ← NewBIP340PubKey e.1; Ok (pk, e.2)) (iterB (pubRandCommitIndex s)).

Definition ExportGenesis_finality (s : FinalityState) : outcome FinalityGenesis :=
  must (
    voteSigs ← voteSigs s;
    pubRandomness ← publicRandomness s;
    prCommit ← exportPubRandCommit s;
    infos ← signingInfosAndMissedBlock s;
    vpFps ← fpVotingPowers s;
    idxs ← pubRandCommitIdxs s;
    Ok (mkFinalityGenesis (finalityParams s) (exportBlocks s) (exportEvidences s) voteSigs pubRandomness prCommit
          infos.*1 infos.*2 vpFps (votingPowersDistCacheBlkHeight s)
          (getNextHeightToFinalize s) (GetNextHeightToReward s) idxs)).

(** ** Two-level stores as lists of entries *)

Section entries.
Context {K1 K2 V : Type} `{Countable K1, Countable K2}.
Implicit Types (m : gmap K1 (gmap K2 V)) (l : list (K1 * K2 * V)).

(** A prefix under which nothing is stored does not exist in a key-value store. *)
Definition no_empty m : Prop := ∀ k x, m !! k = Some x → x ≠ ∅.

Definition setEntries l : gmap K1 (gmap K2 V) := foldl (λ m e, set2 e.1.1 e.1.2 e.2 m) ∅ l.

Lemma no_empty_ext m1 m2 : no_empty m1 → no_empty m2 → (∀ k1 k2, get2 k1 k2 m1 = get2 k1 k2 m2) → m1 = m2.
Proof.
  intros H1 H2 E. apply map_eq. intros k1. specialize (E k1). unfold get2 in E. specialize (H1 k1). specialize (H2 k1).
  destruct (m1 !! k1) as [a|], (m2 !! k1) as [b|]; simpl in E; [|exfalso..|done].
  - f_equal. by apply map_eq.
  - by apply (H1 a), map_eq.
  - apply (H2 b); [done|]. by symmetry; apply map_eq.
Qed.

Lemma no_empty_set2 k1 k2 v m : no_empty m → no_empty (set2 k1 k2 v m).
Proof.
  intros Hm k x Hk. unfold set2 in Hk. apply lookup_insert_Some in Hk as [[_ <-]|[_ Hk]]; [apply insert_non_empty|by apply (Hm k)].
Qed.

Lemma no_empty_setEntries l : no_empty (setEntries l).
Proof.
  induction l as [|e l IH] using rev_ind; [intros k x Hk; unfold setEntries in Hk; simpl in Hk; by rewrite lookup_empty in Hk|].
  unfold setEntries. rewrite foldl_app. simpl. by apply no_empty_set2.
Qed.

Lemma get2_setEntries l k1 k2 v :
  (∀ k v v', (k, v) ∈ l → (k, v') ∈ l → v = v') → get2 k1 k2 (setEntries l) = Some v ↔ (k1, k2, v) ∈ l.
Proof.
  induction l as [|[[a b] w] l IH] using rev_ind; intros Hl.
  - unfold setEntries, get2. simpl. rewrite lookup_empty. simpl. rewrite lookup_empty. split; [done|by intros Hin%elem_of_nil].
  - unfold setEntries. rewrite foldl_app. simpl. fold (setEntries l). rewrite get2_set2, elem_of_app, list_elem_of_singleton.
    assert (IH' := IH (λ k v v' Hi Hj, Hl k v v' (proj2 (elem_of_app _ _ _) (or_introl Hi)) (proj2 (elem_of_app _ _ _) (or_introl Hj)))).
    case_decide as E; [injection E as -> ->|rewrite IH'; naive_solver].
    split; [intros [= ->]; by right|]. intros [Hin|[= ->]]; [|done]. f_equal.
    apply (Hl (k1, k2)); rewrite elem_of_app, list_elem_of_singleton; auto.
Qed.

(** Writing the entries of a store back restores it. *)
Lemma setEntries_restores l m :
  no_empty m → (∀ k1 k2 v, (k1, k2, v) ∈ l ↔ get2 k1 k2 m = Some v) → setEntries l = m.
Proof.
  intros Hm Hl. apply no_empty_ext; [apply no_empty_setEntries|done|]. intros k1 k2. apply option_eq. intros v.
  rewrite get2_setEntries, Hl; [done|]. intros [a b] w w'. rewrite !Hl. congruence.
Qed.
End entries.

Lemma elem_of_entriesZB {V} (m : gmap Z (gmap bytes V)) h pk v : (h, pk, v) ∈ entriesZB m ↔ get2 h pk m = Some v.
Proof.
  unfold entriesZB, get2. rewrite list_elem_of_bind. split.
  - intros ([h' m'] & Hin & Hm%elem_of_iterZ). apply list_elem_of_fmap in Hin as ([k w] & [= -> -> ->] & Hk%elem_of_iterB).
    simpl in *. by rewrite Hm.
  - destruct (m !! h) as [m'|] eqn:Hm; simpl; [|by rewrite lookup_empty]. intros Hk. exists (h, m').
    rewrite elem_of_iterZ. split; [|done]. apply list_elem_of_fmap. exists (pk, v). by rewrite elem_of_iterB.
Qed.

Lemma elem_of_entriesBZ {V} (m : gmap bytes (gmap Z V)) pk h v : (pk, h, v) ∈ entriesBZ m ↔ get2 pk h m = Some v.
Proof.
  unfold entriesBZ, get2. rewrite list_elem_of_bind. split.
  - intros ([h' m'] & Hin & Hm%elem_of_iterB). apply list_elem_of_fmap in Hin as ([k w] & [= -> -> ->] & Hk%elem_of_iterZ).
    simpl in *. by rewrite Hm.
  - destruct (m !! pk) as [m'|] eqn:Hm; simpl; [|by rewrite lookup_empty]. intros Hk. exists (pk, m').
    rewrite elem_of_iterB. split; [|done]. apply list_elem_of_fmap. exists (h, v). by rewrite elem_of_iterZ.
Qed.

Lemma mapM_all_Ok {A B} (f : A → outcome B) (g : A → B) l : (∀ x, x ∈ l → f x = Ok (g x)) → mapM f l = Ok (g <$> l).
Proof.
  induction l as [|x l IH]; intros Hf; [done|]. simpl. rewrite Hf by left. simpl. rewrite IH; [done|].
  intros y Hy. apply Hf. by right.
Qed.

Lemma mapM_Ok_elem {A B} (f : A → outcome B) l l' x : mapM f l = Ok l' → x ∈ l → ∃ y, f x = Ok y ∧ y ∈ l'.
Proof.
  revert l'. induction l as [|z l IH]; intros l' H Hx; [by apply elem_of_nil in Hx|]. simpl in H.
  apply bind_Ok in H as (y & Hy & H). apply bind_Ok in H as (k & Hk & [= <-]).
  apply elem_of_cons in Hx as [->|Hx]; [exists y; split; [done|left]|].
  destruct (IH k Hk Hx) as (y' & ? & ?). exists y'. split; [done|by right].
Qed.

Lemma NoDup_fmap_elem {A B} (f : A → B) (l : list A) x y : NoDup (f <$> l) → x ∈ l → y ∈ l → f x = f y → x = y.
Proof.
  intros Hnd [i Hi]%list_elem_of_lookup [j Hj]%list_elem_of_lookup E.
  assert (i = j) as ->; [|congruence]. eapply NoDup_lookup; [exact Hnd|by rewrite list_lookup_fmap, Hi|by rewrite list_lookup_fmap, Hj, E].
Qed.

(** ** What validation refuses *)

Section validation.
Context {PK : Type} (ToBTCPK : bytes → option PK) (AddrRoundTrips : bytes → bool).

Lemma FinalityGenesis_Validate_lists gs :
  FinalityGenesis_Validate ToBTCPK AddrRoundTrips gs = Ok tt →
  Forall (λ m, FinalityProviderMissedBlocks_Validate m = Ok tt) (fg_MissedBlocks gs) ∧
  NoDup ((λ vp, pkHeightKey (vp_FpBtcPk vp) (vp_BlockHeight vp)) <$> fg_VotingPowers gs).
Proof.
  unfold FinalityGenesis_Validate. intros H.
  do 9 (apply bind_Ok in H as ([] & ? & H)). split; eapply (proj1 (ValidateEntries_Ok _ _ _)); eassumption.
Qed.

Lemma InitGenesis_finality_refused s gs :
  FinalityGenesis_Validate ToBTCPK AddrRoundTrips gs ≠ Ok tt → ∃ e, InitGenesis_finality ToBTCPK AddrRoundTrips s gs = Panic e.
Proof. unfold InitGenesis_finality. destruct (FinalityGenesis_Validate _ _ _) as [[]|e|e]; [done|..]; intros _; by eexists. Qed.

(** A tracked provider that missed no block of the window, or a provider with
    voting power at two heights that agree modulo 256. *)
Definition spotless (s : FinalityState) (pk : bytes) : Prop :=
  is_Some (signingInfos s !! pk) ∧ GetFinalityProviderMissedBlocks s pk = [].
Definition power_collides (s : FinalityState) (pk : bytes) (h1 h2 : Z) : Prop :=
  is_Some (get2 h1 pk (votingPower s)) ∧ is_Some (get2 h2 pk (votingPower s)) ∧ h1 ≠ h2 ∧ h1 mod 256 = h2 mod 256.

Lemma ExportGenesis_finality_lists s gs :
  ExportGenesis_finality s = Ok gs →
  ∃ infos, signingInfosAndMissedBlock s = Ok infos ∧ fg_SigningInfos gs = infos.*1 ∧ fg_MissedBlocks gs = infos.*2 ∧
    fpVotingPowers s = Ok (fg_VotingPowers gs).
Proof.
  unfold ExportGenesis_finality. intros H. apply (proj1 (must_Ok _ _)) in H.
  do 6 (apply bind_Ok in H as (? & ? & H)). injection H as <-. simpl. eauto.
Qed.

Lemma exported_missed s gs pk :
  ExportGenesis_finality s = Ok gs → is_Some (signingInfos s !! pk) →
  mkFpMissed (Some pk) ((λ i, (i, true)) <$> GetFinalityProviderMissedBlocks s pk) ∈ fg_MissedBlocks gs.
Proof.
  intros (infos & Hi & _ & -> & _)%ExportGenesis_finality_lists [si Hsi]. apply elem_of_iterB in Hsi.
  destruct (mapM_Ok_elem _ _ _ _ Hi Hsi) as (y & Hy & Hin). simpl in Hy.
  apply bind_Ok in Hy as (pk' & [-> _]%NewBIP340PubKey_Ok & [= <-]). apply list_elem_of_fmap. eexists; split; [|exact Hin]; done.
Qed.

Lemma exported_power s gs pk h :
  ExportGenesis_finality s = Ok gs → is_Some (get2 h pk (votingPower s)) → ∃ p, mkVotingPowerFP h (Some pk) p ∈ fg_VotingPowers gs.
Proof.
  intros (infos & _ & _ & _ & Hv)%ExportGenesis_finality_lists [p Hp]. apply elem_of_entriesZB in Hp.
  destruct (mapM_Ok_elem _ _ _ _ Hv Hp) as (y & Hy & Hin). simpl in Hy.
  apply bind_Ok in Hy as (pk' & [-> _]%NewBIP340PubKey_Ok & [= <-]). by exists p.
Qed.

(** C40: The finality module refuses the state it exports from a live chain. If
    some tracked provider has missed no block of the window, its exported entry
    has an empty list of missed blocks, which validation forbids. If some provider
    has voting power at two heights that agree modulo 256, the two entries get the
    same key, because only the last byte of the height enters it, and validation
    reports a duplicate. In both cases the import of the export panics. *)
Theorem finality_export_rejected s s0 gs :
  ExportGenesis_finality s = Ok gs →
  (∃ pk, spotless s pk) ∨ (∃ pk h1 h2, power_collides s pk h1 h2) →
  ∃ e, InitGenesis_finality ToBTCPK AddrRoundTrips s0 gs = Panic e.
Proof.
  intros He Hbad. apply InitGenesis_finality_refused. intros [Hm Hv]%FinalityGenesis_Validate_lists.
  destruct Hbad as [(pk & Hs & E)|(pk & h1 & h2 & H1 & H2 & Hne & Hmod)].
  - rewrite Forall_forall in Hm. specialize (Hm _ (exported_missed s gs pk He Hs)). rewrite E in Hm. discriminate Hm.
  - destruct (exported_power s gs pk h1 He H1) as (p1 & Hin1), (exported_power s gs pk h2 He H2) as (p2 & Hin2).
    pose proof (NoDup_fmap_elem _ _ _ _ Hv Hin1 Hin2) as E. simpl in E. unfold pkHeightKey, byte_of_Z, u8 in E. change (2 ^ 8) with 256 in E.
    rewrite <- Hmod in E. injection (E eq_refl) as ->. done.
Qed.
End validation.

(** ** Imports as folds over the stores *)

(** An import that cannot fail on the exported entries. *)
Lemma foldM_as_foldl {A B S} (f : S → B → outcome S) (g : A → B) (upd : S → A → S) l s :
  (∀ s x, x ∈ l → f s (g x) = Ok (upd s x)) → foldM f s (g <$> l) = Ok (foldl upd s l).
Proof.
  revert s. induction l as [|x l IH]; intros s Hf; [done|]. simpl. rewrite Hf by left. simpl. apply IH.
  intros s' y Hy. apply Hf. by right.
Qed.

(** A loop that only writes one store. *)
Lemma foldl_field {A S F} (get : S → F) (set : S → F → S) (upd : S → A → S) (fu : F → A → F) l s :
  (∀ s, set s (get s) = s) → (∀ s m, get (set s m) = m) → (∀ s m m', set (set s m) m' = set s m') →
  (∀ s x, x ∈ l → upd s x = set s (fu (get s) x)) → foldl upd s l = set s (foldl fu (get s) l).
Proof.
  intros H1 H2 H3. revert s. induction l as [|x l IH]; intros s Hu; [by simpl|]. simpl.
  rewrite Hu by left. rewrite IH by (intros s' y Hy; apply Hu; by right). by rewrite H2, H3.
Qed.

Ltac field_laws := intros []; reflexivity.

Lemma foldl_insert_restores {K V} `{Countable K} (l : list (K * V)) (m : gmap K V) :
  (∀ k v, (k, v) ∈ l ↔ m !! k = Some v) → foldl (λ m kv, <[kv.1 := kv.2]> m) ∅ l = m.
Proof.
  intros Hl. assert (G : ∀ k v, foldl (λ m kv, <[kv.1 := kv.2]> m) (∅ : gmap K V) l !! k = Some v ↔ (k, v) ∈ l);
    [|apply map_eq; intros k; apply option_eq; intros v; by rewrite G, Hl].
  assert (Hf : ∀ k v v', (k, v) ∈ l → (k, v') ∈ l → v = v') by (intros k v v'; rewrite !Hl; congruence). clear Hl m.
  induction l as [|[a w] l IH] using rev_ind; intros k v; [simpl; rewrite lookup_empty; split; [done|by intros ?%elem_of_nil]|].
  rewrite foldl_app. simpl. rewrite elem_of_app, list_elem_of_singleton, lookup_insert_Some, IH.
  - split; [naive_solver|]. intros [Hin|[= -> ->]]; [|by left]. destruct (decide (a = k)) as [->|]; [left|by right].
    split; [done|]. apply (Hf k); rewrite elem_of_app, list_elem_of_singleton; auto.
  - intros a' v1 v2 H1 H2. apply (Hf a'); rewrite elem_of_app; auto.
Qed.

(** *** The commitments and their index *)

Section index.
Context {V : Type}.

Definition heightsOf (l : list (bytes * Z * V)) (pk : bytes) : list Z := (filter (λ e, e.1.1 = pk) l).*1.*2.

Lemma heightsOf_app l1 l2 pk : heightsOf (l1 ++ l2) pk = heightsOf l1 pk ++ heightsOf l2 pk.
Proof. unfold heightsOf. by rewrite filter_app, !fmap_app. Qed.

Lemma heightsOf_block (l : list (Z * V)) pk pk' :
  heightsOf ((λ hv, (pk, hv.1, hv.2)) <$> l) pk' = if decide (pk = pk') then l.*1 else [].
Proof.
  unfold heightsOf. induction l as [|x l IH]; [by case_decide|]. rewrite fmap_cons. destruct (decide (pk = pk')).
  - rewrite filter_cons_True by done. rewrite !fmap_cons. by rewrite IH.
  - by rewrite filter_cons_False.
Qed.

Lemma heightsOf_blocks (l : list (bytes * gmap Z V)) pk :
  NoDup l.*1 → heightsOf (l ≫= λ km, (λ hv, (km.1, hv.1, hv.2)) <$> iterZ km.2) pk =
  default [] ((λ m, (iterZ m).*1) <$> (list_to_map l : gmap bytes (gmap Z V)) !! pk).
Proof.
  induction l as [|[k m] l IH]; intros Hnd; [cbn [list_to_map foldr]; by rewrite lookup_empty|]. apply NoDup_cons in Hnd as [Hk Hnd].
  rewrite bind_cons, list_to_map_cons. cbn [fst snd]. rewrite heightsOf_app, heightsOf_block, IH by done. case_decide as E; [subst|by rewrite lookup_insert_ne].
  rewrite lookup_insert_eq. apply not_elem_of_list_to_map_1 in Hk. cbn [fst] in Hk. rewrite Hk. simpl. by rewrite app_nil_r.
Qed.

Lemma heightsOf_entriesBZ (m : gmap bytes (gmap Z V)) pk :
  heightsOf (entriesBZ m) pk = default [] ((λ m, (iterZ m).*1) <$> m !! pk).
Proof. unfold entriesBZ. rewrite heightsOf_blocks by apply iterB_NoDup. by rewrite list_to_map_iterB. Qed.
End index.

Lemma StronglySorted_snoc_inv {A} (R : A → A → Prop) l x :
  StronglySorted R (l ++ [x]) → StronglySorted R l ∧ Forall (λ y, R y x) l.
Proof.
  induction l as [|y l IH]; simpl; intros H; [by split; constructor|]. apply StronglySorted_inv in H as [H1 H2].
  apply IH in H1 as [H1 H3]. apply Forall_app in H2 as [H2 H4]. rewrite Forall_singleton in H4. split; constructor; assumption.
Qed.

Lemma initCommits_ok s l :
  pubRandCommits s = ∅ → pubRandCommitIndex s = ∅ →
  (∀ e, e ∈ l → prc_StartHeight e.2 = e.1.2) → (∀ pk, StronglySorted Z.lt (heightsOf l pk)) →
  ∃ idx, foldM initCommit s ((λ e, mkCommitWithPK (Some e.1.1) (Some e.2)) <$> l) =
    Ok (set_pubRandCommitIndex (set_pubRandCommits s (setEntries l)) idx) ∧
    ∀ pk, idx !! pk = match heightsOf l pk with [] => None | hs => Some hs end.
Proof.
  intros Hc Hi. induction l as [|[[pk h] c] l IH] using rev_ind; intros Hk Hs.
  - exists ∅. split; [|intros pk; apply lookup_empty]. simpl. f_equal. unfold setEntries. simpl. rewrite <- Hc, <- Hi. by destruct s.
  - destruct IH as (idx & Hf & Hidx); [intros e He; apply Hk, elem_of_app; by left| |].
    { intros pk'. specialize (Hs pk'). rewrite heightsOf_app in Hs.
      unfold heightsOf in Hs at 2. rewrite filter_cons in Hs. simpl in Hs. case_decide; simpl in Hs; [|by rewrite app_nil_r in Hs].
      by apply StronglySorted_snoc_inv in Hs as [Hs _]. }
    assert (Eh : ∀ pk', heightsOf (l ++ [(pk, h, c)]) pk' = heightsOf l pk' ++ if decide (pk = pk') then [h] else []).
    { intros pk'. rewrite heightsOf_app. f_equal. unfold heightsOf. rewrite filter_cons. simpl. by case_decide. }
    assert (Hh : prc_StartHeight c = h) by (apply (Hk (pk, h, c)), elem_of_app; right; by left).
    exists (<[pk := heightsOf l pk ++ [h]]> idx). split.
    + rewrite fmap_app, foldM_app, Hf. simpl. unfold initCommit, SetPubRandCommit, upsertPubRandCommitIdx. simpl. rewrite Hh, Hidx.
      unfold setEntries. rewrite foldl_app. simpl.
      specialize (Hs pk). rewrite Eh, decide_True in Hs by done. apply StronglySorted_snoc_inv in Hs as [_ Hs].
      destruct (heightsOf l pk) as [|a r] eqn:Ea; [done|]. cbn [default]. unfold id.
      destruct (last (a :: r)) as [z|] eqn:Ez; [|done]. rewrite Forall_forall in Hs.
      assert (z < h) by (apply Hs, list_elem_of_lookup; rewrite last_lookup in Ez; eauto). destruct (Z.leb_spec h z); [lia|done].
    + intros pk'. rewrite Eh. case_decide as E; [subst pk'|rewrite app_nil_r, lookup_insert_ne by done; apply Hidx].
      rewrite lookup_insert_eq. by destruct (heightsOf l pk).
Qed.

(** *** The bitmaps of missed blocks *)

Definition importMissed (s : FinalityState) (pk : bytes) (idxs : list Z) : FinalityState :=
  foldl (λ s i, SetMissedBlockBitmapValue s pk i true) s idxs.

Lemma importMissed_get s pk idxs pk' j :
  Forall (λ i, 0 ≤ i < 2 ^ 64) idxs → 0 ≤ j < 2 ^ 64 →
  GetMissedBlockBitmapValue (importMissed s pk idxs) pk' j =
  if decide (pk = pk' ∧ j ∈ idxs) then true else GetMissedBlockBitmapValue s pk' j.
Proof.
  intros His Hj. induction idxs as [|i idxs IH] using rev_ind; [case_decide as E; [by destruct E as [_ ?%elem_of_nil]|done]|].
  apply Forall_app in His as [His Hi]. rewrite Forall_singleton in Hi. unfold importMissed in *. rewrite foldl_app. simpl.
  rewrite Set_Get_bitmap, IH by done. repeat case_decide; set_solver.
Qed.

Lemma importMissed_field s pk idxs : ∃ m, importMissed s pk idxs = set_missedBlocks s m.
Proof.
  induction idxs as [|i idxs [m E]] using rev_ind; [exists (missedBlocks s); by destruct s|].
  unfold importMissed in *. rewrite foldl_app, E. simpl. by eexists.
Qed.

(** The import of the bitmaps of several providers changes no other store, and
    sets exactly the listed bits. *)
Lemma initMisseds_ok (l : list (bytes * list Z)) s :
  Forall (λ e, Forall (λ i, 0 ≤ i < 2 ^ 64) e.2) l →
  ∃ m, foldM initMissed s ((λ e, mkFpMissed (Some e.1) ((λ i, (i, true)) <$> e.2)) <$> l) = Ok (set_missedBlocks s m) ∧
    ∀ pk j, 0 ≤ j < 2 ^ 64 → GetMissedBlockBitmapValue (set_missedBlocks s m) pk j = true ↔
      (∃ idxs, (pk, idxs) ∈ l ∧ j ∈ idxs) ∨ GetMissedBlockBitmapValue s pk j = true.
Proof.
  induction l as [|[pk idxs] l IH] using rev_ind; intros Hl.
  - exists (missedBlocks s). split; [by destruct s|]. intros pk j _. destruct s. split; [by right|]. intros [(idxs & []%elem_of_nil & _)|?]; done.
  - apply Forall_app in Hl as [Hl His]. rewrite Forall_singleton in His. cbn [snd] in His.
    destruct (IH Hl) as (m & Hf & Hm). clear IH.
    destruct (importMissed_field (set_missedBlocks s m) pk idxs) as (m' & Em). exists m'.
    assert (Es : set_missedBlocks s m' = importMissed (set_missedBlocks s m) pk idxs) by (rewrite Em; by destruct s). split.
    + rewrite fmap_app, foldM_app, Hf, Es. cbn -[foldM]. cbn [foldM]. unfold initMissed. cbn [mb_MissedBlocks mb_FpBtcPk nonNil].
      rewrite (foldM_as_foldl _ _ (λ s i, SetMissedBlockBitmapValue s pk i true)); [done|]. by intros.
    + intros pk' j Hj. rewrite Es, importMissed_get by done. specialize (Hm pk' j Hj). case_decide as E.
      * destruct E as [-> E]. split; [|done]. intros _. left. exists idxs. split; [|done]. apply elem_of_app. right. by left.
      * rewrite Hm. split; [intros [(idxs' & Hin & ?)|]; [left; exists idxs'; split; [apply elem_of_app; by left|done]|by right]|].
        intros [(idxs' & [Hin|Hin%list_elem_of_singleton]%elem_of_app & ?)|]; [left; eauto|naive_solver|by right].
Qed.

(** What the export makes of a bitmap: the chunks present in the store, in the
    order of their indices, as if they were the chunks 0, 1, 2, ... *)
Definition chunksOf (s : FinalityState) (pk : bytes) : list (Z * Z) := iterZ (default ∅ (missedBlocks s !! pk)).
Definition compacted (s : FinalityState) (pk : bytes) (j : Z) : bool :=
  Z.testbit (default 0 ((chunksOf s pk).*2 !! Z.to_nat (j / MissedBlockBitmapChunkSize))) (j mod MissedBlockBitmapChunkSize).
(** No chunk is missing below another one. *)
Definition chunks_from_0 (s : FinalityState) (pk : bytes) : Prop := ∃ n, (chunksOf s pk).*1 = seqZ 0 n.

Lemma lookup_bind_blocks {A B} (f : A → list B) (n : nat) l i :
  n ≠ 0%nat → (∀ x, length (f x) = n) → (l ≫= f) !! i = l !! (i / n)%nat ≫= λ x, f x !! (i mod n)%nat.
Proof.
  intros Hn Hf. revert i. induction l as [|x l IH]; intros i; [by rewrite !lookup_nil|].
  rewrite bind_cons. destruct (decide (i < n)%nat) as [Hi|Hi].
  - rewrite lookup_app_l by (by rewrite Hf). by rewrite Nat.div_small, Nat.mod_small.
  - rewrite lookup_app_r by (rewrite Hf; lia). rewrite Hf, IH.
    assert (∃ k, i = (k + 1 * n)%nat) as [k ->] by (exists (i - n)%nat; lia).
    rewrite Nat.div_add, Nat.Div0.mod_add, Nat.add_1_r by done. by replace (k + 1 * n - n)%nat with k by lia.
Qed.

Lemma elem_of_zip_seqZ {A} (l : list A) j x :
  (j, x) ∈ zip (seqZ 0 (Z.of_nat (length l))) l ↔ 0 ≤ j ∧ l !! Z.to_nat j = Some x.
Proof.
  rewrite list_elem_of_lookup. setoid_rewrite lookup_zip_with_Some. split.
  - intros (i & j' & x' & [= -> ->] & [-> Hi]%lookup_seqZ & Hx). split; [lia|]. by rewrite Z.add_0_l, Nat2Z.id.
  - intros [Hj Hx]. exists (Z.to_nat j), j, x. split_and!; [done| |done].
    apply lookup_seqZ. apply lookup_lt_Some in Hx. lia.
Qed.

Lemma chunk_bits (l : list (Z * Z)) i :
  (l ≫= λ kv, (λ i, Z.testbit kv.2 i) <$> seqZ 0 MissedBlockBitmapChunkSize) !! i =
  (λ c, Z.testbit c (Z.of_nat i mod MissedBlockBitmapChunkSize)) <$> l.*2 !! Z.to_nat (Z.of_nat i / MissedBlockBitmapChunkSize).
Proof.
  rewrite (lookup_bind_blocks _ 1024) by (done || intros; by rewrite length_fmap, length_seqZ).
  change MissedBlockBitmapChunkSize with (Z.of_nat 1024) at 2 3.
  rewrite <- Nat2Z.inj_div, <- Nat2Z.inj_mod, Nat2Z.id, list_lookup_fmap.
  destruct (l !! _) as [[k c]|]; [|done]. cbn [mbind option_bind fmap option_fmap option_map snd].
  rewrite list_lookup_fmap. pose proof (Nat.mod_upper_bound i 1024 ltac:(done)).
  by rewrite lookup_seqZ_lt by (unfold MissedBlockBitmapChunkSize; lia).
Qed.

Lemma missed_listed s pk j :
  j ∈ GetFinalityProviderMissedBlocks s pk ↔ 0 ≤ j ∧ compacted s pk j = true.
Proof.
  unfold GetFinalityProviderMissedBlocks, IterateMissedBlockBitmap, compacted. fold (chunksOf s pk).
  set (f := λ kv : Z * Z, _). rewrite list_elem_of_fmap. split.
  - intros ([j' b] & -> & [Hb Hin]%list_elem_of_filter). cbn [fst snd] in *. subst b.
    apply elem_of_zip_seqZ in Hin as [Hj Hin]. split; [done|]. unfold f in Hin. rewrite chunk_bits, Z2Nat.id in Hin by done.
    by destruct (_ !! _); [injection Hin|].
  - intros [Hj Hb]. exists (j, true). split; [done|]. apply list_elem_of_filter. split; [done|].
    apply elem_of_zip_seqZ. split; [done|]. unfold f. rewrite chunk_bits, Z2Nat.id by done.
    destruct (_ !! _); [cbn [fmap option_fmap option_map default] in *; unfold id in Hb; by rewrite Hb|]. by rewrite Z.bits_0 in Hb.
Qed.

(** Without gaps the export lists the bits at their own indices. *)
Lemma compacted_contiguous s pk j :
  chunks_from_0 s pk → 0 ≤ j < 2 ^ 64 → compacted s pk j = GetMissedBlockBitmapValue s pk j.
Proof.
  intros [n Hn] Hj. unfold compacted, GetMissedBlockBitmapValue, getMissedBlockBitmapChunk, chunkIndexOf, bitIndexOf, get2.
  assert (0 ≤ j / MissedBlockBitmapChunkSize < 2 ^ 64).
  { split; [apply Z.div_pos; [lia|done]|]. apply Z.div_lt_upper_bound; unfold MissedBlockBitmapChunkSize; lia. }
  rewrite Z.quot_div_nonneg, Z.rem_mod_nonneg, u64_small by (done || lia). f_equal.
  set (c := j / MissedBlockBitmapChunkSize) in *. set (m := default ∅ (missedBlocks s !! pk)) in *.
  f_equal. apply option_eq. intros v. rewrite <- (elem_of_iterZ m). unfold chunksOf in *. fold m in Hn |- *.
  rewrite list_lookup_fmap, fmap_Some. split.
  - intros ([c' v'] & Hin & ->). assert ((iterZ m).*1 !! Z.to_nat c = Some c') as E by (by rewrite list_lookup_fmap, Hin).
    rewrite Hn in E. apply lookup_seqZ in E as [-> _]. rewrite Z2Nat.id in Hin by lia. by eapply list_elem_of_lookup_2.
  - intros Hin. apply list_elem_of_lookup in Hin as [i Hi]. exists (c, v). split; [|done].
    assert ((iterZ m).*1 !! i = Some c) as E by (by rewrite list_lookup_fmap, Hi).
    rewrite Hn in E. apply lookup_seqZ in E as [E _]. by replace (Z.to_nat c) with i by lia.
Qed.

(** ** Import of an export *)

(** What the handlers maintain: records stored under their own keys, keys and
    values of the right length, the index of the commitments, and indices of
    missed blocks that are int64. *)
Record genesis_wf (s : FinalityState) : Prop := {
  gw_blocks : ∀ h b, blocks s !! h = Some b → ib_Height b = h;
  gw_evidences : ∀ pk h e, get2 pk h (evidences s) = Some e → ev_FpBtcPk e = Some pk ∧ ev_BlockHeight e = h;
  gw_votes : ∀ h pk sig, get2 h pk (votes s) = Some sig → length pk = BIP340PubKeyLen ∧ length sig = SchnorrEOTSSigLen;
  gw_pubRands : ∀ pk h r, get2 pk h (pubRands s) = Some r → length pk = BIP340PubKeyLen ∧ length r = SchnorrPubRandLen;
  gw_commits : ∀ pk h c, get2 pk h (pubRandCommits s) = Some c → length pk = BIP340PubKeyLen ∧ prc_StartHeight c = h;
  gw_index : ∀ pk, pubRandCommitIndex s !! pk = (λ m, (iterZ m).*1) <$> pubRandCommits s !! pk;
  gw_indexed : keys_wf (pubRandCommitIndex s);
  gw_infos : keys_wf (signingInfos s);
  gw_powers : ∀ h pk p, get2 h pk (votingPower s) = Some p → length pk = BIP340PubKeyLen;
  gw_chunks : ∀ pk, MissedBlockBitmapChunkSize * Z.of_nat (length (chunksOf s pk)) ≤ 2 ^ 63;
  gw_prefixes : no_empty (evidences s) ∧ no_empty (votes s) ∧ no_empty (pubRands s) ∧ no_empty (pubRandCommits s) ∧ no_empty (votingPower s);
  gw_params : FinalityParams_Validate (finalityParams s) = Ok tt
}.

Lemma NewBIP340PubKey_len k : length k = BIP340PubKeyLen → NewBIP340PubKey k = Ok k.
Proof. intros Hl. unfold NewBIP340PubKey. by rewrite bool_decide_true. Qed.

(** The exported state. *)
Definition exported (s : FinalityState) : FinalityGenesis :=
  mkFinalityGenesis (finalityParams s) (iterZ (blocks s)).*2 (entriesBZ (evidences s)).*2
    ((λ e, mkVoteSig e.1.1 (Some e.1.2) (Some e.2)) <$> entriesZB (votes s))
    ((λ e, mkPublicRandomness e.1.2 (Some e.1.1) (Some e.2)) <$> entriesBZ (pubRands s))
    ((λ e, mkCommitWithPK (Some e.1.1) (Some e.2)) <$> entriesBZ (pubRandCommits s))
    ((λ e, mkGenSigningInfo (Some e.1) e.2) <$> iterB (signingInfos s))
    ((λ e, mkFpMissed (Some e.1) ((λ i, (i, true)) <$> e.2)) <$> ((λ e, (e.1, GetFinalityProviderMissedBlocks s e.1)) <$> iterB (signingInfos s)))
    ((λ e, mkVotingPowerFP e.1.1 (Some e.1.2) e.2) <$> entriesZB (votingPower s))
    ((λ kv, (kv.1, Some kv.2)) <$> iterZ (vpDistCaches s))
    (getNextHeightToFinalize s) (GetNextHeightToReward s) (iterB (pubRandCommitIndex s)).

Lemma ExportGenesis_finality_ok s : genesis_wf s → ExportGenesis_finality s = Ok (exported s).
Proof.
  intros Hw. unfold ExportGenesis_finality, exported, voteSigs, publicRandomness, exportPubRandCommit, signingInfosAndMissedBlock,
    fpVotingPowers, pubRandCommitIdxs.
  rewrite (mapM_all_Ok _ (λ e, mkVoteSig e.1.1 (Some e.1.2) (Some e.2)) (entriesZB (votes s))); cycle 1.
  { intros [[h pk] sig] Hin%elem_of_entriesZB. apply (gw_votes s Hw) in Hin as [H1 H2]. cbn [fst snd].
    rewrite NewBIP340PubKey_len by done. unfold NewSchnorrEOTSSig. simpl. by rewrite bool_decide_true. }
  rewrite (mapM_all_Ok _ (λ e, mkPublicRandomness e.1.2 (Some e.1.1) (Some e.2))); cycle 1.
  { intros [[pk h] r] Hin%elem_of_entriesBZ. apply (gw_pubRands s Hw) in Hin as [H1 H2]. cbn [fst snd].
    rewrite NewBIP340PubKey_len by done. unfold NewSchnorrPubRand. simpl. by rewrite bool_decide_true. }
  rewrite (mapM_all_Ok _ (λ e, mkCommitWithPK (Some e.1.1) (Some e.2))); cycle 1.
  { intros [[pk h] c] Hin%elem_of_entriesBZ. apply (gw_commits s Hw) in Hin as [H1 _]. cbn [fst snd]. by rewrite NewBIP340PubKey_len. }
  rewrite (mapM_all_Ok _ (λ e, (mkGenSigningInfo (Some e.1) e.2,
    mkFpMissed (Some e.1) ((λ i, (i, true)) <$> GetFinalityProviderMissedBlocks s e.1)))); cycle 1.
  { intros [pk si] Hin%elem_of_iterB. apply (gw_infos s Hw) in Hin. cbn [fst snd]. by rewrite NewBIP340PubKey_len. }
  rewrite (mapM_all_Ok _ (λ e, mkVotingPowerFP e.1.1 (Some e.1.2) e.2)); cycle 1.
  { intros [[h pk] p] Hin%elem_of_entriesZB. apply (gw_powers s Hw) in Hin. cbn [fst snd]. by rewrite NewBIP340PubKey_len. }
  rewrite (mapM_all_Ok _ id); cycle 1.
  { intros [pk l] Hin%elem_of_iterB. apply (gw_indexed s Hw) in Hin. cbn [fst snd]. by rewrite NewBIP340PubKey_len. }
  simpl. by rewrite list_fmap_id, <- !list_fmap_compose.
Qed.

(** The imports of the stores that a loop fills one entry at a time. *)
Lemma import_blocks s l : foldl SetBlock s l = set_blocks s (foldl (λ m b, <[ib_Height b := b]> m) (blocks s) l).
Proof. apply (foldl_field blocks set_blocks); [field_laws..|done]. Qed.

Lemma import_votes s l :
  votes s = ∅ → foldM initVote s ((λ e, mkVoteSig e.1.1 (Some e.1.2) (Some e.2)) <$> l) = Ok (set_votes s (setEntries l)).
Proof.
  intros E. rewrite (foldM_as_foldl _ _ (λ s e, SetSig s e.1.1 e.1.2 e.2)) by done. f_equal. unfold setEntries. rewrite <- E.
  apply (foldl_field votes set_votes); [field_laws..|done].
Qed.

Lemma import_evidences s l :
  evidences s = ∅ → (∀ e, e ∈ l → ev_FpBtcPk e.2 = Some e.1.1 ∧ ev_BlockHeight e.2 = e.1.2) →
  foldM SetEvidence s l.*2 = Ok (set_evidences s (setEntries l)).
Proof.
  intros E Hl. rewrite (foldM_as_foldl _ _ (λ s e, set_evidences s (set2 e.1.1 e.1.2 e.2 (evidences s)))).
  - f_equal. unfold setEntries. rewrite <- E. apply (foldl_field evidences set_evidences); [field_laws..|done].
  - intros s' e He. destruct (Hl e He) as [H1 H2]. unfold SetEvidence. by rewrite H1, H2.
Qed.

Lemma import_pubRands s l :
  pubRands s = ∅ →
  foldM initPubRand s ((λ e, mkPublicRandomness e.1.2 (Some e.1.1) (Some e.2)) <$> l) = Ok (set_pubRands s (setEntries l)).
Proof.
  intros E. rewrite (foldM_as_foldl _ _ (λ s e, SetPubRand s e.1.1 e.1.2 e.2)) by done. f_equal. unfold setEntries. rewrite <- E.
  apply (foldl_field pubRands set_pubRands); [field_laws..|done].
Qed.

Lemma import_powers s l :
  votingPower s = ∅ →
  foldM initPower s ((λ e, mkVotingPowerFP e.1.1 (Some e.1.2) e.2) <$> l) = Ok (set_votingPower s (setEntries l)).
Proof.
  intros E. rewrite (foldM_as_foldl _ _ (λ s e, SetVotingPower s e.1.2 e.1.1 e.2)) by done. f_equal. unfold setEntries. rewrite <- E.
  apply (foldl_field votingPower set_votingPower); [field_laws..|done].
Qed.

Lemma import_infos s l :
  foldM initSigningInfo s ((λ e, mkGenSigningInfo (Some e.1) e.2) <$> l) =
  Ok (set_signingInfos s (foldl (λ m kv, <[kv.1 := kv.2]> m) (signingInfos s) l)).
Proof.
  rewrite (foldM_as_foldl _ _ (λ s e, setSigningInfo s e.1 e.2)) by done. f_equal.
  apply (foldl_field signingInfos set_signingInfos); [field_laws..|done].
Qed.

Lemma import_caches s l :
  foldM initCache s ((λ kv, (kv.1, Some kv.2)) <$> l) =
  Ok (set_vpDistCaches s (foldl (λ m kv, <[kv.1 := kv.2]> m) (vpDistCaches s) l)).
Proof.
  rewrite (foldM_as_foldl _ _ (λ s e, SetVotingPowerDistCache s e.1 e.2)) by done. f_equal.
  apply (foldl_field vpDistCaches set_vpDistCaches); [field_laws..|done].
Qed.

Lemma restored_blocks s :
  genesis_wf s → foldl (λ m b, <[ib_Height b := b]> m) ∅ (iterZ (blocks s)).*2 = blocks s.
Proof.
  intros Hw. rewrite <- (foldl_insert_restores (iterZ (blocks s)) (blocks s)) at 2 by apply elem_of_iterZ.
  assert (Hk : Forall (λ kv, ib_Height kv.2 = kv.1) (iterZ (blocks s))).
  { apply Forall_forall. intros [h b] Hin%elem_of_iterZ. by apply (gw_blocks s Hw). }
  generalize (∅ : gmap Z IndexedBlock). induction Hk as [|kv l Hkv _ IH]; intros m; [done|]. simpl. by rewrite Hkv, IH.
Qed.

Lemma restored_index s idx :
  genesis_wf s → (∀ pk, idx !! pk = match heightsOf (entriesBZ (pubRandCommits s)) pk with [] => None | hs => Some hs end) →
  idx = pubRandCommitIndex s.
Proof.
  intros Hw Hidx. apply map_eq. intros pk. rewrite Hidx, heightsOf_entriesBZ, (gw_index s Hw).
  destruct (pubRandCommits s !! pk) as [m|] eqn:E; [|done]. simpl.
  destruct (iterZ m) eqn:Em; [|done]. apply iterZ_nil in Em. destruct (gw_prefixes s Hw) as (_ & _ & _ & Hp & _).
  by destruct (Hp pk m E).
Qed.

Lemma sorted_heights s pk : StronglySorted Z.lt (heightsOf (entriesBZ (pubRandCommits s)) pk).
Proof.
  rewrite heightsOf_entriesBZ. destruct (pubRandCommits s !! pk); [apply iterZ_sorted|constructor].
Qed.

Lemma no_bits s pk j : missedBlocks s = ∅ → GetMissedBlockBitmapValue s pk j ≠ true.
Proof.
  intros E. unfold GetMissedBlockBitmapValue, getMissedBlockBitmapChunk, get2. rewrite E, lookup_empty. simpl.
  rewrite lookup_empty. simpl. by rewrite Z.bits_0.
Qed.

Lemma listed_bound s : genesis_wf s → ∀ pk j, j ∈ GetFinalityProviderMissedBlocks s pk → 0 ≤ j < 2 ^ 64.
Proof.
  intros Hw pk j. rewrite missed_listed. unfold compacted. intros [Hj Hb].
  destruct ((chunksOf s pk).*2 !! _) as [c|] eqn:E; [|by rewrite Z.bits_0 in Hb].
  apply lookup_lt_Some in E. rewrite length_fmap in E. pose proof (gw_chunks s Hw pk).
  pose proof (Z.mod_pos_bound j MissedBlockBitmapChunkSize ltac:(done)).
  pose proof (Z.div_mod j MissedBlockBitmapChunkSize ltac:(done)). unfold MissedBlockBitmapChunkSize in *. lia.
Qed.

Lemma imported s p0 :
  genesis_wf s →
  ∃ m, InitGenesis_fin_keeper (empty_finality p0) (exported s) =
    Ok (mkFinality (blocks s) (votes s) (evidences s) (pubRands s) (pubRandCommits s) (pubRandCommitIndex s) (signingInfos s) m
          (votingPower s) (vpDistCaches s) (Some (getNextHeightToFinalize s)) (Some (GetNextHeightToReward s)) (finalityParams s) []) ∧
    ∀ s0 pk j, missedBlocks s0 = m → 0 ≤ j < 2 ^ 64 → GetMissedBlockBitmapValue s0 pk j = true ↔
      is_Some (signingInfos s !! pk) ∧ j ∈ GetFinalityProviderMissedBlocks s pk.
Proof.
  intros Hw. destruct (gw_prefixes s Hw) as (P1 & P2 & P3 & P4 & P5). unfold InitGenesis_fin_keeper, exported.
  cbn [fg_IndexedBlocks fg_Evidences fg_VoteSigs fg_PublicRandomness fg_PubRandCommit fg_SigningInfos fg_MissedBlocks fg_VotingPowers
    fg_VpDstCache fg_NextHeightToFinalize fg_NextHeightToReward fg_Params].
  rewrite import_blocks, restored_blocks by done.
  rewrite import_evidences; [|done|intros [[pk h] e] Hin%elem_of_entriesBZ; by apply (gw_evidences s Hw)]. cbn [mbind outcome_bind].
  rewrite import_votes by done. cbn [mbind outcome_bind]. rewrite import_pubRands by done. cbn [mbind outcome_bind].
  edestruct initCommits_ok as (idx & Hc & Hidx); [..|rewrite Hc]; [done|done| |apply sorted_heights|].
  { intros [[pk h] c] Hin%elem_of_entriesBZ. by apply (gw_commits s Hw) in Hin as [_ Hin]. }
  apply (restored_index s) in Hidx as ->; [|done]. cbn [mbind outcome_bind]. rewrite import_infos. cbn [mbind outcome_bind].
  edestruct (initMisseds_ok ((λ e, (e.1, GetFinalityProviderMissedBlocks s e.1)) <$> iterB (signingInfos s))) as (m & Hm & Hbits);
    [|rewrite Hm].
  { apply Forall_fmap, Forall_forall. intros [pk si] _. apply Forall_forall. intros j Hj. cbn [fst snd compose] in Hj.
    by apply (listed_bound s Hw pk). }
  cbn [mbind outcome_bind]. rewrite import_powers by done. cbn [mbind outcome_bind]. rewrite import_caches. cbn [mbind outcome_bind].
  rewrite (gw_params s Hw). cbn [mbind outcome_bind]. exists m. split.
  - unfold set_finalityParams. cbn. rewrite !(setEntries_restores _ _) by (done || apply elem_of_entriesBZ || apply elem_of_entriesZB).
    rewrite !(foldl_insert_restores _ _) by (apply elem_of_iterB || apply elem_of_iterZ). done.
  - intros s0 pk j E Hj. specialize (Hbits pk j Hj).
    assert (GetMissedBlockBitmapValue s0 pk j = GetMissedBlockBitmapValue (set_missedBlocks s0 m) pk j) as -> by (rewrite <- E; by destruct s0).
    etrans; [exact Hbits|]. split.
    + intros [(l & Hin & Hl)|Hb]; [|by apply no_bits in Hb]. apply list_elem_of_fmap in Hin as ([pk' si] & [= -> ->] & Hin%elem_of_iterB). eauto.
    + intros [[si Hsi] Hl]. left. eexists. split; [|exact Hl]. apply list_elem_of_fmap. exists (pk, si). by rewrite elem_of_iterB.
Qed.

(** C36: Apart from the validation of a genesis, which refuses some exports, export
    and import are inverse to each other, up to the bitmaps of missed blocks. From a state with records under their own
    keys, keys of the right length, valid parameters and bitmaps with int64
    indices, the export succeeds, and the keeper's import of it into an empty
    store succeeds and restores the blocks, votes, evidences, randomness,
    commitments with their index, signing information, power table, reward caches,
    both heights and the parameters. The bitmap of a tracked provider comes back
    with the chunks that were present moved together: the first one as chunk 0,
    the next as chunk 1, and so on. So every bit is restored at its own index when
    no chunk is missing below another one, as for every window of at most 1024
    blocks; otherwise later chunks land at wrong indices. The bitmaps of providers
    without signing information are not exported. *)
Theorem finality_genesis_restores s p0 :
  genesis_wf s →
  ∃ gs s', ExportGenesis_finality s = Ok gs ∧ InitGenesis_fin_keeper (empty_finality p0) gs = Ok s' ∧
    s' = mkFinality (blocks s) (votes s) (evidences s) (pubRands s) (pubRandCommits s) (pubRandCommitIndex s) (signingInfos s)
           (missedBlocks s') (votingPower s) (vpDistCaches s) (Some (getNextHeightToFinalize s)) (Some (GetNextHeightToReward s))
           (finalityParams s) [] ∧
    ∀ pk j, 0 ≤ j < 2 ^ 64 →
      (is_Some (signingInfos s !! pk) → GetMissedBlockBitmapValue s' pk j = compacted s pk j) ∧
      (is_Some (signingInfos s !! pk) → chunks_from_0 s pk →
         GetMissedBlockBitmapValue s' pk j = GetMissedBlockBitmapValue s pk j) ∧
      (signingInfos s !! pk = None → GetMissedBlockBitmapValue s' pk j = false).
Proof.
  intros Hw. destruct (imported s p0 Hw) as (m & Hi & Hb). do 2 eexists.
  split; [by apply ExportGenesis_finality_ok|]. split; [exact Hi|]. split; [done|]. intros pk j Hj.
  match goal with |- context [GetMissedBlockBitmapValue ?x pk j] => specialize (Hb x pk j eq_refl Hj); set (s' := x) in * end.
  rewrite missed_listed in Hb.
  assert (is_Some (signingInfos s !! pk) → GetMissedBlockBitmapValue s' pk j = compacted s pk j) as Hc.
  { intros Hsi. apply eq_true_iff_eq. rewrite Hb. intuition lia. }
  split_and!; [done|intros Hsi Hn; rewrite Hc by done; by apply compacted_contiguous|].
  intros Hn. apply not_true_iff_false. rewrite Hb, Hn. by intros [[? ?] _].
Qed.

(** ** An example *)

Module GenesisExample.

Definition pk : bytes := replicate 32 x02.
Definition rand : bytes := replicate 32 x07.
Definition block : IndexedBlock := mkBlock 1 rand true.
Definition commit : PubRandCommit := mkPubRandCommit 1 300 rand 2.
Definition evidence : Evidence := mkEvidence (Some pk) 1 (Some rand) rand pk (Some rand) (Some pk).
Definition info : FinalityProviderSigningInfo := mkSigningInfo pk 1 1 0.

(** A provider that voted and equivocated at height 1, missed the blocks 3 and
    1025 of its window, and has power at heights 1 and 257; and the same provider
    with the second chunk of its bitmap only. *)
Definition state_with (chunks : gmap Z Z) : FinalityState :=
  mkFinality {[1 := block]} (set2 1 pk rand ∅) (set2 pk 1 evidence ∅) (set2 pk 1 rand ∅) (set2 pk 1 commit ∅) {[pk := [1]]}
    {[pk := info]} {[pk := chunks]} (set2 257 pk 5 (set2 1 pk 5 ∅)) {[257 := mkDistCache 5 [] 1]} (Some 2) (Some 2) DefaultFinalityParams [].
Definition state : FinalityState := state_with (<[1 := 2]> {[0 := 8]}).
Definition gapped : FinalityState := state_with {[1 := 2]}.

Lemma get2_set2_Some {K1 K2 V} `{Countable K1, Countable K2} (a k1 : K1) (b k2 : K2) (v w : V) m :
  get2 k1 k2 (set2 a b v m) = Some w → (k1 = a ∧ k2 = b ∧ w = v) ∨ get2 k1 k2 m = Some w.
Proof. rewrite get2_set2. case_decide; naive_solver. Qed.

Lemma get2_empty {K1 K2 V} `{Countable K1, Countable K2} (k1 : K1) (k2 : K2) (w : V) :
  get2 k1 k2 (∅ : gmap K1 (gmap K2 V)) ≠ Some w.
Proof. unfold get2. rewrite lookup_empty. simpl. by rewrite lookup_empty. Qed.

Lemma no_empty_empty {K1 K2 V} `{Countable K1, Countable K2} : no_empty (∅ : gmap K1 (gmap K2 V)).
Proof. intros k x Hk. by rewrite lookup_empty in Hk. Qed.

Ltac one_entry := cbn [state_with votes evidences pubRands pubRandCommits votingPower missedBlocks];
  intros ??? [(-> & -> & ->)|[]%get2_empty]%get2_set2_Some.

Lemma state_wf chunks : (length (iterZ chunks) ≤ 2)%nat → genesis_wf (state_with chunks).
Proof.
  intros Hlen. constructor.
  - intros h b Hb. cbn [state_with blocks] in Hb. apply lookup_singleton_Some in Hb as [<- <-]. done.
  - one_entry. done.
  - one_entry. done.
  - one_entry. done.
  - one_entry. done.
  - intros k. cbn [state_with pubRandCommitIndex pubRandCommits]. unfold set2. destruct (decide (pk = k)) as [<-|].
    + rewrite lookup_singleton_eq, lookup_insert_eq. vm_compute. done.
    + rewrite lookup_singleton_ne, lookup_insert_ne, lookup_empty by done. done.
  - intros k l Hk. cbn [state_with pubRandCommitIndex signingInfos] in Hk. by apply lookup_singleton_Some in Hk as [<- _].
  - intros k l Hk. cbn [state_with pubRandCommitIndex signingInfos] in Hk. by apply lookup_singleton_Some in Hk as [<- _].
  - cbn [state_with votingPower]. intros h k p [(_ & -> & _)|[(_ & -> & _)|[]%get2_empty]%get2_set2_Some]%get2_set2_Some; done.
  - intros k. unfold chunksOf. cbn [state_with missedBlocks]. destruct (decide (pk = k)) as [<-|].
    + rewrite lookup_singleton_eq. cbn [default]. unfold id, MissedBlockBitmapChunkSize. lia.
    + rewrite lookup_singleton_ne by done. cbn [default]. by rewrite (proj2 (iterZ_nil ∅)) by done.
  - repeat split; repeat apply no_empty_set2; apply no_empty_empty.
  - done.
Qed.

Definition export : FinalityGenesis := get_ok DefaultFinalityGenesis (ExportGenesis_finality state).

Lemma finality_export_rejected_witness :
  power_collides state pk 1 257 ∧
  ∃ e, InitGenesis_finality (λ b : bytes, Some b) (λ _, true) (empty_finality DefaultFinalityParams) export = Panic e.
Proof.
  assert (Hc : power_collides state pk 1 257).
  { split_and!; [exists 5; vm_compute; reflexivity|exists 5; vm_compute; reflexivity|lia|reflexivity]. }
  split; [exact Hc|]. apply (finality_export_rejected (λ b : bytes, Some b) (λ _, true) state).
  - apply is_ok_get. vm_compute. done.
  - right. exists pk, 1, 257. exact Hc.
Defined.

Lemma finality_genesis_restores_witness :
  (∃ gs s', ExportGenesis_finality state = Ok gs ∧ InitGenesis_fin_keeper (empty_finality DefaultFinalityParams) gs = Ok s' ∧
     pubRandCommitIndex s' = {[pk := [1]]} ∧ GetMissedBlockBitmapValue s' pk 1025 = true) ∧
  (∃ gs s', ExportGenesis_finality gapped = Ok gs ∧ InitGenesis_fin_keeper (empty_finality DefaultFinalityParams) gs = Ok s' ∧
     GetMissedBlockBitmapValue gapped pk 1025 = true ∧ GetMissedBlockBitmapValue s' pk 1025 = false ∧
     GetMissedBlockBitmapValue s' pk 1 = true).
Proof.
  assert (∀ m, is_Some (signingInfos (state_with m) !! pk)) as Hsi by (intros m; exists info; vm_compute; reflexivity).
  split.
  - destruct (finality_genesis_restores state DefaultFinalityParams) as (gs & s' & H1 & H2 & E & Hb); [apply state_wf; vm_compute; lia|].
    exists gs, s'. split; [exact H1|]. split; [exact H2|]. split; [rewrite E; reflexivity|].
    destruct (Hb pk 1025 ltac:(lia)) as (_ & Hrest & _). rewrite Hrest; [vm_compute; reflexivity|apply Hsi|].
    exists 2. vm_compute. reflexivity.
  - destruct (finality_genesis_restores gapped DefaultFinalityParams) as (gs & s' & H1 & H2 & _ & Hb); [apply state_wf; vm_compute; lia|].
    exists gs, s'. split; [exact H1|]. split; [exact H2|]. split; [vm_compute; reflexivity|].
    split; [destruct (Hb pk 1025 ltac:(lia)) as (Hc & _)|destruct (Hb pk 1 ltac:(lia)) as (Hc & _)];
      (rewrite Hc; [vm_compute; reflexivity|apply Hsi]).
Defined.
End GenesisExample.
