(* ===== verification/PowerDist.v ===== *)
(** * x/finality/keeper/power_dist_change.go: the voting power distribution

    Each block's begin blocker turns the queued voting power events and the
    distribution of the previous block into the distribution of this block, its
    voting power table, the signing infos of newly active providers and the
    hook calls of the other modules. *)

From S2P Require Import Prelude Bytes Store BbnTypes BtcStaking Delegations FinalityTypes PowerTable.
From S2P Require Import FinalityStore PubRand.

(** ** The processing state *)

Inductive FinalityProviderState := STATE_UNKNOWN | STATE_UNJAILED | STATE_JAILED | STATE_SLASHED.

#[global] Instance FinalityProviderState_eq_dec : EqDecision FinalityProviderState.
Proof. solve_decision. Defined.

Record DelegationInfo := mkDelegationInfo { dli_Delegator : bytes; dli_FpBtcPk : string; dli_TotalSat : Z }.

(** [ps_Emitted] holds the typed events the processing emits on the context, in
    order; expired events carry only the staking tx hash. *)
Record ProcessingState := mkPS {
  ps_PrevActiveFpByBtcPk : gset string;
  ps_FPStatesByBtcPk : gmap string FinalityProviderState;
  ps_FpByBtcPk : gmap string FinalityProvider;
  ps_DeltaSatsByFpBtcPk : gmap string Z;
  ps_ExpiredEvents : list string;
  ps_SlashedEvents : list bytes;
  ps_ActiveDelegations : list DelegationInfo;
  ps_UnbondingDelegations : list DelegationInfo;
  ps_Emitted : list FinalityEvent
}.

Definition NewProcessingState : ProcessingState := mkPS ∅ ∅ ∅ ∅ [] [] [] [] [].

Definition ps_set_prev (ps : ProcessingState) m : ProcessingState :=
  mkPS m (ps_FPStatesByBtcPk ps) (ps_FpByBtcPk ps) (ps_DeltaSatsByFpBtcPk ps) (ps_ExpiredEvents ps)
    (ps_SlashedEvents ps) (ps_ActiveDelegations ps) (ps_UnbondingDelegations ps) (ps_Emitted ps).
Definition ps_set_states (ps : ProcessingState) m : ProcessingState :=
  mkPS (ps_PrevActiveFpByBtcPk ps) m (ps_FpByBtcPk ps) (ps_DeltaSatsByFpBtcPk ps) (ps_ExpiredEvents ps)
    (ps_SlashedEvents ps) (ps_ActiveDelegations ps) (ps_UnbondingDelegations ps) (ps_Emitted ps).
Definition ps_set_fps (ps : ProcessingState) m : ProcessingState :=
  mkPS (ps_PrevActiveFpByBtcPk ps) (ps_FPStatesByBtcPk ps) m (ps_DeltaSatsByFpBtcPk ps) (ps_ExpiredEvents ps)
    (ps_SlashedEvents ps) (ps_ActiveDelegations ps) (ps_UnbondingDelegations ps) (ps_Emitted ps).
Definition ps_set_deltas (ps : ProcessingState) m : ProcessingState :=
  mkPS (ps_PrevActiveFpByBtcPk ps) (ps_FPStatesByBtcPk ps) (ps_FpByBtcPk ps) m (ps_ExpiredEvents ps)
    (ps_SlashedEvents ps) (ps_ActiveDelegations ps) (ps_UnbondingDelegations ps) (ps_Emitted ps).
Definition ps_set_expired (ps : ProcessingState) l : ProcessingState :=
  mkPS (ps_PrevActiveFpByBtcPk ps) (ps_FPStatesByBtcPk ps) (ps_FpByBtcPk ps) (ps_DeltaSatsByFpBtcPk ps) l
    (ps_SlashedEvents ps) (ps_ActiveDelegations ps) (ps_UnbondingDelegations ps) (ps_Emitted ps).
Definition ps_set_slashed (ps : ProcessingState) l : ProcessingState :=
  mkPS (ps_PrevActiveFpByBtcPk ps) (ps_FPStatesByBtcPk ps) (ps_FpByBtcPk ps) (ps_DeltaSatsByFpBtcPk ps)
    (ps_ExpiredEvents ps) l (ps_ActiveDelegations ps) (ps_UnbondingDelegations ps) (ps_Emitted ps).
Definition ps_set_active (ps : ProcessingState) l : ProcessingState :=
  mkPS (ps_PrevActiveFpByBtcPk ps) (ps_FPStatesByBtcPk ps) (ps_FpByBtcPk ps) (ps_DeltaSatsByFpBtcPk ps)
    (ps_ExpiredEvents ps) (ps_SlashedEvents ps) l (ps_UnbondingDelegations ps) (ps_Emitted ps).
Definition ps_set_unbonding (ps : ProcessingState) l : ProcessingState :=
  mkPS (ps_PrevActiveFpByBtcPk ps) (ps_FPStatesByBtcPk ps) (ps_FpByBtcPk ps) (ps_DeltaSatsByFpBtcPk ps)
    (ps_ExpiredEvents ps) (ps_SlashedEvents ps) (ps_ActiveDelegations ps) l (ps_Emitted ps).
Definition ps_emit (ps : ProcessingState) (ev : FinalityEvent) : ProcessingState :=
  mkPS (ps_PrevActiveFpByBtcPk ps) (ps_FPStatesByBtcPk ps) (ps_FpByBtcPk ps) (ps_DeltaSatsByFpBtcPk ps)
    (ps_ExpiredEvents ps) (ps_SlashedEvents ps) (ps_ActiveDelegations ps) (ps_UnbondingDelegations ps)
    (ps_Emitted ps ++ [ev]).

Definition ps_state (ps : ProcessingState) (fpBTCPKHex : string) : FinalityProviderState :=
  default STATE_UNKNOWN (ps_FPStatesByBtcPk ps !! fpBTCPKHex).

Definition AddStateForFp (ps : ProcessingState) (fp : FinalityProviderDistInfo) : ProcessingState :=
  let fpBTCPKHex := di_hex fp in
  let ps := if di_IsSlashed fp
            then ps_set_states ps (<[fpBTCPKHex := STATE_SLASHED]> (ps_FPStatesByBtcPk ps)) else ps in
  if di_IsJailed fp
  then ps_set_states ps (<[fpBTCPKHex := STATE_JAILED]> (ps_FPStatesByBtcPk ps)) else ps.

Definition FillByPrevVpDstCache (ps : ProcessingState) (dc : VotingPowerDistCache) : ProcessingState :=
  (foldl (λ '(ps, idx) fp,
     let ps := if idx <? dc_NumActiveFps dc
               then ps_set_prev ps ({[di_hex fp]} ∪ ps_PrevActiveFpByBtcPk ps) else ps in
     (AddStateForFp ps fp, idx + 1)) (ps, 0) (dc_FinalityProviders dc)).1.

Definition IsFpInPrevActiveSet (ps : ProcessingState) (fpBtcPk : bytes) : bool :=
  bool_decide (MarshalHex fpBtcPk ∈ ps_PrevActiveFpByBtcPk ps).

Section power_dist.
Context {hashing : BtcHashing}.
Context {E : Type} {fenv : FinalityEnv E}.
Context (AccAddressFromBech32 : string → option bytes).

Definition MustAccAddressFromBech32 (addr : string) : outcome bytes :=
  match AccAddressFromBech32 addr with
  | None => Panic (Errorf "MustAccAddressFromBech32")
  | Some a => Ok a
  end.

Definition AddActiveDelegation (ps : ProcessingState) (delAddr : string) (fpPubKey : bytes) (totalSat : Z)
    : outcome ProcessingState :=
  delAccAddr ← MustAccAddressFromBech32 delAddr;
  Ok (ps_set_active ps (ps_ActiveDelegations ps ++ [mkDelegationInfo delAccAddr (MarshalHex fpPubKey) totalSat])).

Definition AddUnbondingDelegation (ps : ProcessingState) (delAddr : string) (fpPubKey : bytes) (totalSat : Z)
    : outcome ProcessingState :=
  delAccAddr ← MustAccAddressFromBech32 delAddr;
  Ok (ps_set_unbonding ps
        (ps_UnbondingDelegations ps ++ [mkDelegationInfo delAccAddr (MarshalHex fpPubKey) totalSat])).

(** [state.DeltaSatsByFpBtcPk[hex] += int64(sat)] on [int64]. *)
Definition add_delta (ps : ProcessingState) (fpBTCPKHex : string) (d : Z) : ProcessingState :=
  let old := default 0 (ps_DeltaSatsByFpBtcPk ps !! fpBTCPKHex) in
  ps_set_deltas ps (<[fpBTCPKHex := i64 (old + d)]> (ps_DeltaSatsByFpBtcPk ps)).

Definition processPowerDistUpdateEventUnbond (ps : ProcessingState) (btcDel : BTCDelegation)
    : outcome ProcessingState :=
  foldM (λ ps fpBTCPK,
    ps ← AddUnbondingDelegation ps (d_StakerAddr btcDel) fpBTCPK (d_TotalSat btcDel);
    Ok (add_delta ps (MarshalHex fpBTCPK) (- i64 (d_TotalSat btcDel)))) ps (d_FpBtcPkList btcDel).

Definition processPowerDistUpdateEventActive (ps : ProcessingState) (btcDel : BTCDelegation)
    : outcome ProcessingState :=
  foldM (λ ps fpBTCPK,
    ps ← AddActiveDelegation ps (d_StakerAddr btcDel) fpBTCPK (d_TotalSat btcDel);
    Ok (add_delta ps (MarshalHex fpBTCPK) (i64 (d_TotalSat btcDel)))) ps (d_FpBtcPkList btcDel).

(** ** Events *)

(** The quorum of the delegation's parameters; a missing version is a nil
    dereference. *)
Definition delHasQuorum (stk : StakingState) (btcDel : BTCDelegation) : outcome bool :=
  match GetParamsByVersion stk (d_ParamsVersion btcDel) with
  | None => Panic (Errorf "nil pointer dereference")
  | Some delParams => must (BtcDelHasCovenantQuorums stk btcDel (sp_CovenantQuorum delParams))
  end.

Definition processBtcDelUpdate (stk : StakingState) (ps : ProcessingState) (delStkTxHash : string)
    (newState : BTCDelegationStatus) : outcome ProcessingState :=
  btcDel ← must (GetBTCDelegation stk delStkTxHash);
  match newState with
  | ACTIVE => processPowerDistUpdateEventActive ps btcDel
  | UNBONDED =>
    hasQuorum ← delHasQuorum stk btcDel;
    if (hasQuorum : bool) then processPowerDistUpdateEventUnbond ps btcDel else Ok ps
  | _ => Ok ps
  end.

Definition processFPEventImmediate (ps : ProcessingState) (event : EventPowerDistUpdate) : ProcessingState :=
  match event with
  | JailedFp pk =>
    let ps := ps_emit ps (EventFinalityProviderStatusChange pk FP_JAILED) in
    ps_set_states ps (<[MarshalHex pk := STATE_JAILED]> (ps_FPStatesByBtcPk ps))
  | UnjailedFp pk => ps_set_states ps (<[MarshalHex pk := STATE_UNJAILED]> (ps_FPStatesByBtcPk ps))
  | _ => ps
  end.

Definition processEvent (stk : StakingState) (ps : ProcessingState) (event : EventPowerDistUpdate)
    : outcome ProcessingState :=
  match event with
  | BtcDelStateUpdate stakingTxHash newState =>
    if bool_decide (newState = EXPIRED) then Ok (ps_set_expired ps (ps_ExpiredEvents ps ++ [stakingTxHash]))
    else processBtcDelUpdate stk ps stakingTxHash newState
  | SlashedFp pk => Ok (ps_set_slashed ps (ps_SlashedEvents ps ++ [pk]))
  | _ => Ok (processFPEventImmediate ps event)
  end.

Definition processEventsAtHeight (stk : StakingState) (btcHeight : Z) (ps : ProcessingState)
    : outcome ProcessingState :=
  foldM (processEvent stk) ps (PowerDistUpdateEventsAt stk btcHeight).

Definition processExpiredEvents (stk : StakingState) (ps : ProcessingState) : outcome ProcessingState :=
  foldM (λ ps delStkTxHash,
    btcDel ← must (GetBTCDelegation stk delStkTxHash);
    let ps := ps_emit ps (EventBTCDelegationExpired delStkTxHash) in
    if IsUnbondedEarly btcDel then Ok ps
    else
      hasQuorum ← delHasQuorum stk btcDel;
      if (hasQuorum : bool) then processPowerDistUpdateEventUnbond ps btcDel else Ok ps)
    ps (ps_ExpiredEvents ps).

Definition processSlashedEvent (ps : ProcessingState) (pk : bytes) : ProcessingState :=
  let ps := ps_emit ps (EventFinalityProviderStatusChange pk FP_SLASHED) in
  ps_set_states ps (<[MarshalHex pk := STATE_SLASHED]> (ps_FPStatesByBtcPk ps)).

Definition processSlashedEvents (ps : ProcessingState) : ProcessingState :=
  foldl processSlashedEvent ps (ps_SlashedEvents ps).

(** The provider, from the cache of the processing state or the store. *)
Definition loadFP (stk : StakingState) (cache : gmap string FinalityProvider) (fpBTCPKHex : string)
    : outcome (gmap string FinalityProvider * FinalityProvider) :=
  match cache !! fpBTCPKHex with
  | Some fp => Ok (cache, fp)
  | None =>
    fpBTCPK ← NewBIP340PubKeyFromHex fpBTCPKHex;
    fp ← GetFinalityProvider stk fpBTCPK;
    Ok (<[fpBTCPKHex := fp]> cache, fp)
  end.

(** ** The new distribution *)

(** One provider of the previous distribution: skipped when slashed, its jailed
    flag and satoshis updated, kept when it has satoshis. *)
Definition updateExistingFp (acc : VotingPowerDistCache * ProcessingState) (fp : FinalityProviderDistInfo)
    : outcome (VotingPowerDistCache * ProcessingState) :=
  let '(newDc, ps) := acc in
  let hex := di_hex fp in
  let update (fp : FinalityProviderDistInfo) :=
    fp ← must (ChangeDeltaSats fp (default 0 (ps_DeltaSatsByFpBtcPk ps !! hex)));
    let ps := ps_set_deltas ps (delete hex (ps_DeltaSatsByFpBtcPk ps)) in
    Ok (if 0 <? di_TotalBondedSat fp then AddFinalityProviderDistInfo newDc fp else newDc, ps) in
  match ps_state ps hex with
  | STATE_SLASHED => Ok (newDc, ps)
  | STATE_JAILED => update (with_flags fp (di_IsTimestamped fp) true (di_IsSlashed fp))
  | STATE_UNJAILED => update (with_flags fp (di_IsTimestamped fp) false (di_IsSlashed fp))
  | STATE_UNKNOWN => update fp
  end.

(** The providers with remaining deltas that are not slashed, by key. *)
Definition newFpList (ps : ProcessingState) : list string :=
  sort_stable string_less
    (filter (λ hex, ps_state ps hex ≠ STATE_SLASHED) (map_to_list (ps_DeltaSatsByFpBtcPk ps)).*1).

Definition addNewFp (stk : StakingState) (acc : VotingPowerDistCache * ProcessingState) (hex : string)
    : outcome (VotingPowerDistCache * ProcessingState) :=
  let '(newDc, ps) := acc in
  '(cache, newFP) ← must (loadFP stk (ps_FpByBtcPk ps) hex);
  let ps := ps_set_fps ps cache in
  if IsSlashed newFP then Ok (newDc, ps)
  else
    fpDistInfo ← NewFinalityProviderDistInfo AccAddressFromBech32 newFP;
    let fpDistInfo := match ps_state ps hex with
                      | STATE_JAILED => with_flags fpDistInfo (di_IsTimestamped fpDistInfo) true (di_IsSlashed fpDistInfo)
                      | STATE_UNJAILED => with_flags fpDistInfo (di_IsTimestamped fpDistInfo) false (di_IsSlashed fpDistInfo)
                      | _ => fpDistInfo
                      end in
    fpDistInfo ← must (ChangeDeltaSats fpDistInfo (default 0 (ps_DeltaSatsByFpBtcPk ps !! hex)));
    Ok (if 0 <? di_TotalBondedSat fpDistInfo then AddFinalityProviderDistInfo newDc fpDistInfo else newDc, ps).

Definition ProcessAllPowerDistUpdateEvents (stk : StakingState) (dc : VotingPowerDistCache)
    (lastBTCTip curBTCTip : Z) : outcome (VotingPowerDistCache * ProcessingState) :=
  let ps := FillByPrevVpDstCache NewProcessingState dc in
  ps ← foldM (λ ps btcHeight, processEventsAtHeight stk btcHeight ps) ps
         (seqZ lastBTCTip (curBTCTip - lastBTCTip + 1));
  ps ← processExpiredEvents stk ps;
  let ps := processSlashedEvents ps in
  acc ← foldM updateExistingFp (NewVotingPowerDistCache, ps) (dc_FinalityProviders dc);
  foldM (addNewFp stk) acc (newFpList acc.2).

(** ** Recording the distribution *)

Definition RecordVotingPowerAndCache (ctx : Ctx) (finalizedEpoch : Z) (s : FinalityState)
    (newDc : VotingPowerDistCache) : FinalityState * VotingPowerDistCache :=
  let height := CtxHeight ctx in
  let fps := (λ fp, with_flags fp (HasTimestampedPubRand finalizedEpoch s (di_BtcPk fp) height)
                      (di_IsJailed fp) (di_IsSlashed fp)) <$> dc_FinalityProviders newDc in
  let newDc := mkDistCache (dc_TotalVotingPower newDc) fps (dc_NumActiveFps newDc) in
  let newDc := ApplyActiveFinalityProviders newDc (MaxActiveFinalityProviders (finalityParams s)) in
  let s := foldl (λ s fp, SetVotingPower s (di_BtcPk fp) height (di_TotalBondedSat fp)) s (activeFps newDc) in
  (SetVotingPowerDistCache s height newDc, newDc).

(** Starts, or restarts, the signing info of a provider that becomes active. *)
Definition HandleActivatedFinalityProvider (ctx : Ctx) (s : FinalityState) (fpPk : bytes) : FinalityState :=
  let signingInfo := match signingInfos s !! fpPk with
                     | Some info => with_jailed_until (with_start_height info (HeaderHeight ctx)) 0
                     | None => NewFinalityProviderSigningInfo fpPk (HeaderHeight ctx) 0
                     end in
  set_signingInfos s (<[fpPk := signingInfo]> (signingInfos s)).

Definition processActiveFp (ctx : Ctx) (c : Chain E) (fp : FinalityProviderDistInfo) (shouldCallHooks : bool)
    : outcome (Chain E) :=
  let s := HandleActivatedFinalityProvider ctx (fin c) (di_BtcPk fp) in
  let s := emit s (EventFinalityProviderStatusChange (di_BtcPk fp) FP_ACTIVE) in
  let c := set_fin c s in
  if negb shouldCallHooks then Ok c
  else e ← must (AfterBbnFpEntersActiveSet hooks ctx (env c) (di_Addr fp)); Ok (set_env c e).

(** [state] is [None] where the code passes [nil]. *)
Definition isFpSlashedOrJailed (state : option ProcessingState) (fp : FinalityProviderDistInfo) : outcome bool :=
  if di_IsJailed fp || di_IsSlashed fp then Ok true
  else match state with
  | None => Panic (Errorf "nil pointer dereference")
  | Some ps => Ok (bool_decide (ps_state ps (di_hex fp) = STATE_JAILED ∨ ps_state ps (di_hex fp) = STATE_SLASHED))
  end.

Definition processInactiveFp (ctx : Ctx) (state : option ProcessingState) (c : Chain E)
    (fp : FinalityProviderDistInfo) (shouldCallHooks : bool) : outcome (Chain E) :=
  c ← (if shouldCallHooks then
         match state with
         | None => Panic (Errorf "nil pointer dereference")
         | Some ps =>
           if IsFpInPrevActiveSet ps (di_BtcPk fp)
           then e ← must (AfterBbnFpRemovedFromActiveSet hooks ctx (env c) (di_Addr fp)); Ok (set_env c e)
           else Ok c
         end
       else Ok c);
  b ← isFpSlashedOrJailed state fp;
  if (b : bool) then Ok c
  else Ok (set_fin c (emit (fin c) (EventFinalityProviderStatusChange (di_BtcPk fp) FP_INACTIVE))).

Definition HandleFPStateUpdates (ctx : Ctx) (state : option ProcessingState) (prevDc newDc : VotingPowerDistCache)
    (shouldCallHooks : bool) (c : Chain E) : outcome (Chain E) :=
  c ← foldM (λ c fp, processActiveFp ctx c fp shouldCallHooks) c (FindNewActiveFinalityProviders newDc prevDc);
  foldM (λ c fp, processInactiveFp ctx state c fp shouldCallHooks) c (FindNewInactiveFinalityProviders newDc prevDc).

(** ** Delegation hooks *)

Definition processBtcDelHook (ctx : Ctx) (stk : StakingState) (activeFpsByBtcPkInCurrSet : gset string)
    (hookFn : Ctx → E → bytes → bytes → bool → bool → Z → outcome E)
    (acc : E * ProcessingState) (fpDels : list DelegationInfo) : outcome (E * ProcessingState) :=
  foldM (λ acc del,
    let '(e, ps) := acc in
    r ← wrapf "failed to load fp" (loadFP stk (ps_FpByBtcPk ps) (dli_FpBtcPk del));
    let '(cache, fp) := r in
    let ps := ps_set_fps ps cache in
    fpAddr ← MustAccAddressFromBech32 (fp_Addr fp);
    e ← wrapf "failed to call hook for fp"
          (hookFn ctx e fpAddr (dli_Delegator del) (IsFpInPrevActiveSet ps (fp_BtcPk fp))
             (bool_decide (MarshalHex (fp_BtcPk fp) ∈ activeFpsByBtcPkInCurrSet)) (dli_TotalSat del));
    Ok (e, ps)) acc fpDels.

(** All activations before all unbondings. *)
Definition processHooksBTCDelegation (ctx : Ctx) (ps : ProcessingState) (newDc : VotingPowerDistCache)
    (c : Chain E) : outcome (Chain E * ProcessingState) :=
  let active := ActiveFpsByBtcPk newDc in
  acc ← processBtcDelHook ctx (stk c) active (AfterBtcDelegationActivated hooks) (env c, ps) (ps_ActiveDelegations ps);
  acc ← processBtcDelHook ctx (stk c) active (AfterBtcDelegationUnbonded hooks) acc (ps_UnbondingDelegations ps);
  Ok (set_env c acc.1, acc.2).

(** ** The begin blocker's update *)

Definition UpdatePowerDist (ctx : Ctx) (c : Chain E) : outcome (Chain E) :=
  let height := CtxHeight ctx in
  let base := GetBaseBTCHeight (env c) in
  btcTipHeight ← GetCurrentBTCHeight ctx base (stk c);
  let dc := default NewVotingPowerDistCache (GetVotingPowerDistCache (fin c) (u64 (height - 1))) in
  lastBTCTipHeight ← GetBTCHeightAtBabylonHeight base (stk c) (u64 (height - 1));
  r ← ProcessAllPowerDistUpdateEvents (stk c) dc lastBTCTipHeight btcTipHeight;
  let '(newDc, ps) := (r : VotingPowerDistCache * ProcessingState) in
  let c := set_fin c (foldl emit (fin c) (ps_Emitted ps)) in
  let '(s, newDc) := RecordVotingPowerAndCache ctx (GetLastFinalizedEpoch (env c)) (fin c) newDc in
  let c := set_fin c s in
  r ← must (processHooksBTCDelegation ctx ps newDc c);
  let '(c, ps) := (r : Chain E * ProcessingState) in
  c ← HandleFPStateUpdates ctx (Some ps) dc newDc true c;
  Ok (set_stk c (foldl ClearPowerDistUpdateEvents (stk c)
                   (seqZ lastBTCTipHeight (btcTipHeight - lastBTCTipHeight + 1)))).

(** ** What the events amount to *)

(** The satoshis a delegation puts under a provider: one share for each time the
    provider is listed. *)
Definition del_sats (btcDel : BTCDelegation) (pk : bytes) : Z :=
  i64 (d_TotalSat btcDel) * Z.of_nat (length (filter (λ pk', pk' = pk) (d_FpBtcPkList btcDel))).

(** The change of a provider's satoshis by one event: an activation adds the
    delegation; an unbonding removes it when the delegation had its covenant
    quorum, as does an expiry unless it was unbonded early. *)
Definition event_sats (stk : StakingState) (pk : bytes) (ev : EventPowerDistUpdate) : Z :=
  match ev with
  | BtcDelStateUpdate h st =>
    match GetBTCDelegation stk h with
    | Ok btcDel =>
      let unbond := match delHasQuorum stk btcDel with Ok true => - del_sats btcDel pk | _ => 0 end in
      match st with
      | ACTIVE => del_sats btcDel pk
      | UNBONDED => unbond
      | EXPIRED => if IsUnbondedEarly btcDel then 0 else unbond
      | _ => 0
      end
    | _ => 0
    end
  | _ => 0
  end.

(** The part of it handled when the event is met: expiries are deferred. *)
Definition is_expiry (ev : EventPowerDistUpdate) : bool :=
  match ev with BtcDelStateUpdate _ EXPIRED => true | _ => false end.
Definition immediate_sats (stk : StakingState) (pk : bytes) (ev : EventPowerDistUpdate) : Z :=
  if is_expiry ev then 0 else event_sats stk pk ev.

Definition delta_of (ps : ProcessingState) (pk : bytes) : Z :=
  default 0 (ps_DeltaSatsByFpBtcPk ps !! MarshalHex pk).

(** The provider's state after an event that is not a slashing. *)
Definition state_event (m : gmap string FinalityProviderState) (ev : EventPowerDistUpdate)
    : gmap string FinalityProviderState :=
  match ev with
  | JailedFp pk => <[MarshalHex pk := STATE_JAILED]> m
  | UnjailedFp pk => <[MarshalHex pk := STATE_UNJAILED]> m
  | _ => m
  end.
Definition expired_of (ev : EventPowerDistUpdate) : list string :=
  match ev with BtcDelStateUpdate h EXPIRED => [h] | _ => [] end.
Definition slashed_of (ev : EventPowerDistUpdate) : list bytes :=
  match ev with SlashedFp pk => [pk] | _ => [] end.

(** What a step may change of the processing state besides the delegations and
    emitted events. *)
Record ps_steps (ps ps' : ProcessingState) (d : bytes → Z) (states : gmap string FinalityProviderState)
    (expired : list string) (slashed : list bytes) : Prop := {
  pst_delta : ∀ pk, delta_of ps' pk = i64 (delta_of ps pk + d pk);
  pst_states : ps_FPStatesByBtcPk ps' = states;
  pst_expired : ps_ExpiredEvents ps' = ps_ExpiredEvents ps ++ expired;
  pst_slashed : ps_SlashedEvents ps' = ps_SlashedEvents ps ++ slashed;
  pst_fps : ps_FpByBtcPk ps' = ps_FpByBtcPk ps;
  pst_prev : ps_PrevActiveFpByBtcPk ps' = ps_PrevActiveFpByBtcPk ps;
  pst_keys : ∀ k, is_Some (ps_DeltaSatsByFpBtcPk ps' !! k) →
    is_Some (ps_DeltaSatsByFpBtcPk ps !! k) ∨ ∃ pk, k = MarshalHex pk
}.

(** The deltas are [int64] values under the hex form of keys. *)
Definition deltas_wf (ps : ProcessingState) : Prop :=
  (∀ pk, in_i64 (delta_of ps pk)) ∧ ∀ k, is_Some (ps_DeltaSatsByFpBtcPk ps !! k) → ∃ pk, k = MarshalHex pk.

Lemma ps_steps_refl ps : deltas_wf ps → ps_steps ps ps (λ _, 0) (ps_FPStatesByBtcPk ps) [] [].
Proof using.
  intros [Hwf _]. constructor; rewrite ?app_nil_r; auto.
  intros pk. rewrite Z.add_0_r, i64_small; done.
Qed.

Lemma ps_steps_wf ps ps' d st ex sl : deltas_wf ps → ps_steps ps ps' d st ex sl → deltas_wf ps'.
Proof using.
  intros [_ Hk] H. split.
  - intros pk. rewrite (pst_delta _ _ _ _ _ _ H). apply i64_range.
  - intros k Hs. destruct (pst_keys _ _ _ _ _ _ H k Hs); auto.
Qed.

Lemma ps_steps_trans ps1 ps2 ps3 d1 d2 st1 st2 ex1 ex2 sl1 sl2 d :
  ps_steps ps1 ps2 d1 st1 ex1 sl1 → ps_steps ps2 ps3 d2 st2 ex2 sl2 →
  (∀ pk, d pk = d1 pk + d2 pk) →
  ps_steps ps1 ps3 d st2 (ex1 ++ ex2) (sl1 ++ sl2).
Proof using.
  intros [A1 _ A3 A4 A5 A6 A7] [B1 B2 B3 B4 B5 B6 B7] Hd. constructor; try congruence.
  - intros pk. rewrite B1, A1, i64_add_l, Hd. f_equal. lia.
  - by rewrite B3, A3, app_assoc.
  - by rewrite B4, A4, app_assoc.
  - intros k Hs. destruct (B7 k Hs); auto.
Qed.

Lemma add_delta_of ps hex d pk :
  delta_of (add_delta ps hex d) pk =
  if decide (MarshalHex pk = hex) then i64 (delta_of ps pk + d) else delta_of ps pk.
Proof using.
  unfold delta_of, add_delta. simpl. case_decide as Eq.
  - subst hex. by rewrite lookup_insert_eq.
  - by rewrite lookup_insert_ne.
Qed.

(** Adding the same amount under each listed provider. *)
Lemma add_deltas_steps (f : ProcessingState → bytes → outcome ProcessingState) x pks ps ps' :
  (∀ ps pk ps', f ps pk = Ok ps' → ∃ ps1, ps' = add_delta ps1 (MarshalHex pk) x ∧
     ps_DeltaSatsByFpBtcPk ps1 = ps_DeltaSatsByFpBtcPk ps ∧
     ps_FPStatesByBtcPk ps1 = ps_FPStatesByBtcPk ps ∧ ps_ExpiredEvents ps1 = ps_ExpiredEvents ps ∧
     ps_SlashedEvents ps1 = ps_SlashedEvents ps ∧ ps_FpByBtcPk ps1 = ps_FpByBtcPk ps ∧
     ps_PrevActiveFpByBtcPk ps1 = ps_PrevActiveFpByBtcPk ps) →
  deltas_wf ps → foldM f ps pks = Ok ps' →
  ps_steps ps ps' (λ pk, x * Z.of_nat (length (filter (λ pk', pk' = pk) pks))) (ps_FPStatesByBtcPk ps) [] [].
Proof using.
  intros Hf. revert ps. induction pks as [|k pks IH]; intros ps Hwf H; cbn [foldM] in H.
  { injection H as <-. destruct (ps_steps_refl ps Hwf) as [A1 A2 A3 A4 A5 A6 A7].
    constructor; auto. intros pk. etrans; [apply A1|]. f_equal. cbn. lia. }
  apply bind_Ok in H as (ps1 & H1 & H). apply Hf in H1 as (ps0 & -> & E1 & E2 & E3 & E4 & E5 & E6).
  assert (ps_steps ps (add_delta ps0 (MarshalHex k) x) (λ pk, if decide (k = pk) then x else 0)
            (ps_FPStatesByBtcPk ps) [] []) as Hst.
  { constructor; simpl; rewrite ?app_nil_r; try congruence.
    - intros pk. rewrite add_delta_of. unfold delta_of. rewrite E1. fold (delta_of ps pk).
      case_decide as Eq; case_decide as Eq2; try done.
      + apply MarshalHex_inj in Eq. congruence.
      + congruence.
      + rewrite Z.add_0_r, i64_small; [done|apply Hwf].
    - intros k0. rewrite E1, lookup_insert_is_Some. intros [<-|[_ ?]]; eauto. }
  apply IH in H; [|by apply (ps_steps_wf _ _ _ _ _ _ Hwf Hst)]. simpl in H. rewrite E2 in H.
  eapply (ps_steps_trans _ _ _ _ _ _ _ [] [] [] []); [exact Hst|exact H|].
  intros pk. cbn beta. rewrite filter_cons. destruct (decide (k = pk)); cbn [length]; rewrite ?Nat2Z.inj_succ. all: lia.
Qed.

Lemma processActive_steps ps btcDel ps' :
  deltas_wf ps → processPowerDistUpdateEventActive ps btcDel = Ok ps' →
  ps_steps ps ps' (del_sats btcDel) (ps_FPStatesByBtcPk ps) [] [].
Proof using.
  intros Hwf H. eapply (add_deltas_steps _ (i64 (d_TotalSat btcDel))) in H; [exact H| |done].
  intros ps0 pk ps1 H1. apply bind_Ok in H1 as (ps2 & H2 & H1). injection H1 as <-.
  apply bind_Ok in H2 as (a & _ & H2). injection H2 as <-. eexists. split_and!; [done|done..].
Qed.

Lemma processUnbond_steps ps btcDel ps' :
  deltas_wf ps → processPowerDistUpdateEventUnbond ps btcDel = Ok ps' →
  ps_steps ps ps' (λ pk, - del_sats btcDel pk) (ps_FPStatesByBtcPk ps) [] [].
Proof using.
  intros Hwf H. eapply (add_deltas_steps _ (- i64 (d_TotalSat btcDel))) in H; [| |done].
  - destruct H as [A1 A2 A3 A4 A5 A6 A7]. constructor; auto. intros pk. rewrite A1. f_equal.
    unfold del_sats. lia.
  - intros ps0 pk ps1 H1. apply bind_Ok in H1 as (ps2 & H2 & H1). injection H1 as <-.
    apply bind_Ok in H2 as (a & _ & H2). injection H2 as <-. eexists. split_and!; [done|done..].
Qed.

Lemma processEvent_steps stk ps ev ps' :
  deltas_wf ps → processEvent stk ps ev = Ok ps' →
  ps_steps ps ps' (λ pk, immediate_sats stk pk ev) (state_event (ps_FPStatesByBtcPk ps) ev)
    (expired_of ev) (slashed_of ev).
Proof using.
  intros Hwf H. destruct (ps_steps_refl ps Hwf) as [A1 A2 A3 A4 A5 A6 A7].
  destruct ev as [pk|pk|pk|h st]; simpl in H; try (injection H as <-; constructor; by simpl; rewrite ?app_nil_r).
  case_bool_decide as Est.
  { subst st. injection H as <-. constructor; simpl; rewrite ?app_nil_r; try done. }
  unfold processBtcDelUpdate in H. apply bind_Ok in H as (btcDel & Hdel & H). rewrite must_Ok in Hdel.
  assert (expired_of (BtcDelStateUpdate h st) = []) as -> by (by destruct st). cbn [slashed_of state_event].
  unfold immediate_sats, event_sats. rewrite Hdel. destruct st; simpl; try done.
  - injection H as <-. by apply ps_steps_refl.
  - injection H as <-. by apply ps_steps_refl.
  - by apply processActive_steps.
  - apply bind_Ok in H as (q & Hq & H). rewrite Hq. destruct q.
    + by apply processUnbond_steps.
    + injection H as <-. by apply ps_steps_refl.
Qed.

Lemma processEvents_steps stk evs ps ps' :
  deltas_wf ps → foldM (processEvent stk) ps evs = Ok ps' →
  ps_steps ps ps' (λ pk, sumZ (immediate_sats stk pk <$> evs)) (foldl state_event (ps_FPStatesByBtcPk ps) evs)
    (evs ≫= expired_of) (evs ≫= slashed_of).
Proof using.
  revert ps. induction evs as [|ev evs IH]; intros ps Hwf H; cbn [foldM] in H.
  { injection H as <-. by apply ps_steps_refl. }
  apply bind_Ok in H as (ps1 & H1 & H). apply processEvent_steps in H1; [|done].
  pose proof (ps_steps_wf _ _ _ _ _ _ Hwf H1) as Hwf1. apply IH in H; [|done].
  rewrite (pst_states _ _ _ _ _ _ H1) in H. cbn [foldl]. rewrite !bind_cons.
  eapply ps_steps_trans; eauto.
Qed.

Lemma processExpired_steps stk ps ps' :
  deltas_wf ps → processExpiredEvents stk ps = Ok ps' →
  ps_steps ps ps' (λ pk, sumZ ((λ h, event_sats stk pk (BtcDelStateUpdate h EXPIRED)) <$> ps_ExpiredEvents ps))
    (ps_FPStatesByBtcPk ps) [] [].
Proof using.
  unfold processExpiredEvents. generalize (ps_ExpiredEvents ps) as l. intros l. revert ps.
  induction l as [|h l IH]; intros ps Hwf H; cbn [foldM] in H.
  { injection H as <-. by apply ps_steps_refl. }
  apply bind_Ok in H as (ps1 & H1 & H). apply bind_Ok in H1 as (btcDel & Hdel & H1). rewrite must_Ok in Hdel.
  set (ps0 := ps_emit ps (EventBTCDelegationExpired h)) in H1.
  assert (ps_steps ps ps1 (λ pk, event_sats stk pk (BtcDelStateUpdate h EXPIRED)) (ps_FPStatesByBtcPk ps) [] []) as Hst.
  { unfold event_sats. rewrite Hdel. destruct (ps_steps_refl ps Hwf) as [A1 A2 A3 A4 A5 A6 A7].
    destruct (IsUnbondedEarly btcDel); [injection H1 as <-; by constructor|].
    apply bind_Ok in H1 as (q & Hq & H1). rewrite Hq. destruct q; [|injection H1 as <-; by constructor].
    apply processUnbond_steps in H1; [|done]. destruct H1 as [B1 B2 B3 B4 B5 B6 B7]. by constructor. }
  pose proof (ps_steps_wf _ _ _ _ _ _ Hwf Hst) as Hwf1. apply IH in H; [|done].
  rewrite (pst_states _ _ _ _ _ _ Hst) in H.
  eapply (ps_steps_trans _ _ _ _ _ _ _ [] [] [] []); eauto.
Qed.

Lemma sum_events stk pk evs :
  sumZ (immediate_sats stk pk <$> evs) +
  sumZ ((λ h, event_sats stk pk (BtcDelStateUpdate h EXPIRED)) <$> (evs ≫= expired_of)) =
  sumZ (event_sats stk pk <$> evs).
Proof using.
  induction evs as [|ev evs IH]; [done|]. rewrite bind_cons, !fmap_cons, fmap_app, sumZ_app.
  cbn [sumZ foldr]. fold (sumZ (immediate_sats stk pk <$> evs)). fold (sumZ (event_sats stk pk <$> evs)).
  assert (immediate_sats stk pk ev +
    sumZ ((λ h, event_sats stk pk (BtcDelStateUpdate h EXPIRED)) <$> expired_of ev) = event_sats stk pk ev); [|lia].
  unfold immediate_sats. destruct ev as [?|?|?|h []]; cbn [is_expiry expired_of]; cbn; lia.
Qed.

Lemma foldM_heights stk hs ps :
  foldM (λ ps btcHeight, processEventsAtHeight stk btcHeight ps) ps hs =
  foldM (processEvent stk) ps (hs ≫= PowerDistUpdateEventsAt stk).
Proof using.
  revert ps. induction hs as [|h hs IH]; intros ps; [done|]. rewrite bind_cons, foldM_app. cbn [foldM].
  unfold processEventsAtHeight. destruct (foldM (processEvent stk) ps _); [apply IH|done|done].
Qed.

(** Slashings come last and stay. *)
Lemma processSlashed_states ps :
  let ps' := processSlashedEvents ps in
  ps_DeltaSatsByFpBtcPk ps' = ps_DeltaSatsByFpBtcPk ps ∧ ps_FpByBtcPk ps' = ps_FpByBtcPk ps ∧
  ∀ pk, ps_state ps' (MarshalHex pk) =
    if decide (pk ∈ ps_SlashedEvents ps) then STATE_SLASHED else ps_state ps (MarshalHex pk).
Proof using.
  unfold processSlashedEvents. generalize (ps_SlashedEvents ps) as l. intros l. cbn zeta. revert ps.
  induction l as [|k l IH]; intros ps; [by split_and!|]. cbn [foldl].
  destruct (IH (processSlashedEvent ps k)) as (H1 & H2 & H3). split_and!; [by rewrite H1|by rewrite H2|].
  intros pk. rewrite H3. unfold ps_state. simpl. destruct (decide (pk = k)) as [->|Hne].
  - rewrite lookup_insert_eq, (decide_True (P := k ∈ k :: l)) by set_solver. by case_decide.
  - rewrite lookup_insert_ne by (intros E0%MarshalHex_inj; congruence).
    case_decide; case_decide; try done; set_solver.
Qed.

(** ** Distributions *)

(** The satoshis listed for a provider. *)
Definition satsIn (l : list FinalityProviderDistInfo) (pk : bytes) : Z :=
  sumZ (di_TotalBondedSat <$> filter (λ fp, di_BtcPk fp = pk) l).

Lemma satsIn_cons fp l pk :
  satsIn (fp :: l) pk = (if decide (di_BtcPk fp = pk) then di_TotalBondedSat fp else 0) + satsIn l pk.
Proof using. unfold satsIn. rewrite filter_cons. by case_decide. Qed.

Lemma satsIn_app l1 l2 pk : satsIn (l1 ++ l2) pk = satsIn l1 pk + satsIn l2 pk.
Proof using. unfold satsIn. by rewrite filter_app, fmap_app, sumZ_app. Qed.

Lemma satsIn_notin l pk : pk ∉ di_BtcPk <$> l → satsIn l pk = 0.
Proof using.
  induction l as [|fp l IH]; [done|]. rewrite fmap_cons, not_elem_of_cons. intros [Hne Hl].
  rewrite satsIn_cons, decide_False, IH by (done || congruence). done.
Qed.

(** The bound on satoshis: twice the supply of bitcoin is far below it. *)
Definition sats_bound : Z := 2 ^ 62.

Record dist_wf (l : list FinalityProviderDistInfo) : Prop := {
  dw_nodup : NoDup (di_BtcPk <$> l);
  dw_sats : Forall (λ fp, 0 ≤ di_TotalBondedSat fp < sats_bound) l;
  dw_slashed : Forall (λ fp, di_IsSlashed fp = false) l
}.

Lemma ChangeDeltaSats_inv v d v' :
  0 ≤ di_TotalBondedSat v < sats_bound → - sats_bound < d < sats_bound →
  ChangeDeltaSats v d = Ok v' →
  v' = with_sats v (di_TotalBondedSat v + d) ∧ 0 ≤ di_TotalBondedSat v + d.
Proof using.
  unfold sats_bound. intros Hv Hd H. destruct (Z.lt_ge_cases (di_TotalBondedSat v + d) 0).
  - rewrite ChangeDeltaSats_underflow in H; unfold in_u64, in_i64; done || lia.
  - rewrite ChangeDeltaSats_Ok in H; unfold in_u64, in_i64; try lia. by injection H as <-.
Qed.

(** The jailed flag a state gives an entry. *)
Definition jailed_by (st : FinalityProviderState) (b : bool) : bool :=
  match st with STATE_JAILED => true | STATE_UNJAILED => false | _ => b end.

(** The jailed flag of a provider after an event. *)
Definition jail_event (pk : bytes) (b : bool) (ev : EventPowerDistUpdate) : bool :=
  match ev with
  | JailedFp pk' => if decide (pk' = pk) then true else b
  | UnjailedFp pk' => if decide (pk' = pk) then false else b
  | _ => b
  end.

Definition fp_jailed (stk : StakingState) (pk : bytes) : bool :=
  match finalityProviders stk !! pk with Some fp => fp_Jailed fp | None => false end.

(** The flag before the events: the recorded one, and the registry's for a
    provider that is not in the distribution. *)
Definition jailed_before (stk : StakingState) (l : list FinalityProviderDistInfo) (pk : bytes) : bool :=
  match head (filter (λ fp, di_BtcPk fp = pk) l) with
  | Some fp => di_IsJailed fp
  | None => fp_jailed stk pk
  end.

Lemma jailed_before_in stk l fp : NoDup (di_BtcPk <$> l) → fp ∈ l → jailed_before stk l (di_BtcPk fp) = di_IsJailed fp.
Proof using.
  intros Hnd Hin. unfold jailed_before.
  assert (fp ∈ filter (λ x, di_BtcPk x = di_BtcPk fp) l) as Hf by (by apply list_elem_of_filter).
  destruct (filter (λ x, di_BtcPk x = di_BtcPk fp) l) as [|x l'] eqn:El; [by apply elem_of_nil in Hf|]. cbn [head].
  assert (x ∈ filter (λ x, di_BtcPk x = di_BtcPk fp) l) as [Hx Hxl]%list_elem_of_filter by (rewrite El; left).
  by rewrite (fmap_NoDup_inj di_BtcPk l x fp Hnd Hxl Hin Hx).
Qed.

Lemma jailed_before_notin stk l pk : pk ∉ di_BtcPk <$> l →
  jailed_before stk l pk = fp_jailed stk pk.
Proof using.
  intros Hni. unfold jailed_before. destruct (filter (λ fp, di_BtcPk fp = pk) l) as [|x l'] eqn:El; [done|].
  exfalso. assert (x ∈ filter (λ fp, di_BtcPk fp = pk) l) as [<- Hx]%list_elem_of_filter by (rewrite El; left).
  apply Hni. by apply list_elem_of_fmap_2.
Qed.

Lemma state_event_jailed evs m pk b :
  jailed_by (default STATE_UNKNOWN (foldl state_event m evs !! MarshalHex pk)) b =
  foldl (jail_event pk) (jailed_by (default STATE_UNKNOWN (m !! MarshalHex pk)) b) evs.
Proof using.
  revert m. induction evs as [|ev evs IH]; intros m; [done|]. cbn [foldl]. rewrite IH. f_equal.
  destruct ev as [k|k|k|h st]; simpl; try done;
    (case_decide as Ek; [subst k; by rewrite lookup_insert_eq|]);
    by rewrite lookup_insert_ne by (intros ?%MarshalHex_inj; congruence).
Qed.

Definition updated (ps : ProcessingState) (fp : FinalityProviderDistInfo) : option FinalityProviderDistInfo :=
  let st := ps_state ps (di_hex fp) in
  let sats := di_TotalBondedSat fp + delta_of ps (di_BtcPk fp) in
  if bool_decide (st = STATE_SLASHED) then None
  else if 0 <? sats
  then Some (mkDistInfo (di_BtcPk fp) (di_Addr fp) (di_Commission fp) sats (di_IsTimestamped fp)
               (jailed_by st (di_IsJailed fp)) (di_IsSlashed fp))
  else None.

Definition deltas_bound (ps : ProcessingState) : Prop := ∀ pk, - sats_bound < delta_of ps pk < sats_bound.

Lemma updateExistingFp_inv dc ps fp dc' ps' :
  0 ≤ di_TotalBondedSat fp < sats_bound → deltas_bound ps →
  updateExistingFp (dc, ps) fp = Ok (dc', ps') →
  dc_FinalityProviders dc' = dc_FinalityProviders dc ++ option_list (updated ps fp) ∧
  (ps_state ps (di_hex fp) ≠ STATE_SLASHED → 0 ≤ di_TotalBondedSat fp + delta_of ps (di_BtcPk fp)) ∧
  ps' = (if decide (ps_state ps (di_hex fp) = STATE_SLASHED) then ps
         else ps_set_deltas ps (delete (di_hex fp) (ps_DeltaSatsByFpBtcPk ps))).
Proof using.
  intros Hs Hd H. unfold updateExistingFp in H. unfold updated.
  change (default 0 (ps_DeltaSatsByFpBtcPk ps !! di_hex fp)) with (delta_of ps (di_BtcPk fp)) in H.
  assert (∀ fp0, di_TotalBondedSat fp0 = di_TotalBondedSat fp →
    (fp1 ← must (ChangeDeltaSats fp0 (delta_of ps (di_BtcPk fp)));
     Ok (if 0 <? di_TotalBondedSat fp1 then AddFinalityProviderDistInfo dc fp1 else dc,
         ps_set_deltas ps (delete (di_hex fp) (ps_DeltaSatsByFpBtcPk ps)))) = Ok (dc', ps') →
    let sats := di_TotalBondedSat fp + delta_of ps (di_BtcPk fp) in
    dc_FinalityProviders dc' = dc_FinalityProviders dc ++
      option_list (if 0 <? sats then Some (with_sats fp0 sats) else None) ∧ 0 ≤ sats ∧
    ps' = ps_set_deltas ps (delete (di_hex fp) (ps_DeltaSatsByFpBtcPk ps))) as Hupd.
  { intros fp0 E0 H0. apply bind_Ok in H0 as (fp1 & H1 & H0). rewrite must_Ok in H1.
    apply ChangeDeltaSats_inv in H1 as [-> Hnn]; [|by rewrite E0|apply Hd]. injection H0 as <- <-.
    simpl. rewrite E0 in *. split_and!; [|done..].
    destruct (Z.ltb_spec 0 (di_TotalBondedSat fp + delta_of ps (di_BtcPk fp))); simpl; by rewrite ?app_nil_r. }
  destruct (ps_state ps (di_hex fp)) eqn:Est.
  4: { injection H as <- <-. simpl. by rewrite app_nil_r. }
  all: apply Hupd in H as (H1 & H2 & H3); [|done]; rewrite bool_decide_false, decide_False by done;
    split_and!; [rewrite H1; by destruct (0 <? _)|done..].
Qed.

Lemma updated_key ps fp fp' : updated ps fp = Some fp' → di_BtcPk fp' = di_BtcPk fp.
Proof using. unfold updated. intros H. repeat case_match; simplify_eq. done. Qed.

Lemma updated_ext ps ps' fp :
  ps_FPStatesByBtcPk ps' = ps_FPStatesByBtcPk ps → delta_of ps' (di_BtcPk fp) = delta_of ps (di_BtcPk fp) →
  updated ps' fp = updated ps fp.
Proof using. intros E1 E2. unfold updated, ps_state. by rewrite E1, E2. Qed.

Lemma delete_delta_of ps hex pk :
  delta_of (ps_set_deltas ps (delete hex (ps_DeltaSatsByFpBtcPk ps))) pk =
  if decide (MarshalHex pk = hex) then 0 else delta_of ps pk.
Proof using.
  unfold delta_of. simpl. case_decide as Eq; [subst; by rewrite lookup_delete_eq|by rewrite lookup_delete_ne].
Qed.

Lemma updateExisting_fold l dc ps dc' ps' :
  NoDup (di_BtcPk <$> l) → Forall (λ fp, 0 ≤ di_TotalBondedSat fp < sats_bound) l → deltas_bound ps →
  foldM updateExistingFp (dc, ps) l = Ok (dc', ps') →
  dc_FinalityProviders dc' = dc_FinalityProviders dc ++ omap (updated ps) l ∧
  Forall (λ fp, ps_state ps (di_hex fp) ≠ STATE_SLASHED →
                0 ≤ di_TotalBondedSat fp + delta_of ps (di_BtcPk fp)) l ∧
  ps_FPStatesByBtcPk ps' = ps_FPStatesByBtcPk ps ∧ ps_FpByBtcPk ps' = ps_FpByBtcPk ps ∧
  ∀ k, ps_DeltaSatsByFpBtcPk ps' !! k =
    if decide (k ∈ di_hex <$> l ∧ ps_state ps k ≠ STATE_SLASHED) then None else ps_DeltaSatsByFpBtcPk ps !! k.
Proof using.
  revert dc ps. induction l as [|fp l IH]; intros dc ps Hnd Hb Hd H; cbn [foldM] in H.
  { injection H as <- <-. simpl. by rewrite app_nil_r. }
  rewrite fmap_cons in Hnd. apply NoDup_cons in Hnd as [Hni Hnd]. apply Forall_cons in Hb as [Hb1 Hb].
  apply bind_Ok in H as ([dc1 ps1] & H1 & H). apply updateExistingFp_inv in H1 as (E1 & Hnn & E2); [|done..].
  assert (deltas_bound ps1) as Hd1.
  { intros pk. rewrite E2. case_decide; [apply Hd|]. rewrite delete_delta_of. case_decide; [|apply Hd].
    unfold sats_bound. lia. }
  assert (ps_FPStatesByBtcPk ps1 = ps_FPStatesByBtcPk ps ∧ ps_FpByBtcPk ps1 = ps_FpByBtcPk ps) as [Es Ef]
    by (rewrite E2; by case_decide).
  assert (∀ fp', fp' ∈ l → delta_of ps1 (di_BtcPk fp') = delta_of ps (di_BtcPk fp')) as Hsame.
  { intros fp' Hin. rewrite E2. case_decide; [done|]. rewrite delete_delta_of. rewrite decide_False; [done|].
    intros Eq%MarshalHex_inj. apply Hni. rewrite <- Eq. by apply list_elem_of_fmap_2. }
  apply IH in H as (H1 & H2 & H3 & H4 & H5); [|done..].
  split_and!; [| |congruence|congruence|].
  - rewrite H1, E1, <- app_assoc. f_equal. cbn [omap list_omap]. 
    replace (omap (updated ps1) l) with (omap (updated ps) l); [by destruct (updated ps fp)|].
    clear -Hsame Es. induction l as [|x l IHl]; [done|]. cbn [omap list_omap].
    rewrite (updated_ext ps ps1 x Es) by (apply Hsame; left). rewrite IHl; [done|].
    intros fp' Hin. apply Hsame. by right.
  - constructor; [done|]. rewrite Forall_forall in H2 |- *. intros fp' Hin Hst.
    rewrite <- (Hsame fp' Hin). apply (H2 fp' Hin). unfold ps_state. by rewrite Es.
  - intros k. rewrite H5. assert (ps_state ps1 k = ps_state ps k) as -> by (unfold ps_state; by rewrite Es).
    rewrite fmap_cons.
    destruct (decide (k ∈ di_hex <$> l ∧ ps_state ps k ≠ STATE_SLASHED)) as [[? ?]|Hn].
    + rewrite decide_True; [done|]. split; [by right|done].
    + rewrite E2. destruct (decide (ps_state ps (di_hex fp) = STATE_SLASHED)) as [Hsl|Hsl].
      * rewrite decide_False; [done|]. intros [[->|?]%elem_of_cons ?]; auto.
      * simpl. destruct (decide (k = di_hex fp)) as [->|Hk].
        -- rewrite lookup_delete_eq, decide_True; [done|]. split; [by left|done].
        -- rewrite lookup_delete_ne, decide_False by done || (intros [[->|?]%elem_of_cons ?]; auto). done.
Qed.

Lemma satsIn_updated ps l pk :
  NoDup (di_BtcPk <$> l) →
  Forall (λ fp, ps_state ps (di_hex fp) ≠ STATE_SLASHED →
                0 ≤ di_TotalBondedSat fp + delta_of ps (di_BtcPk fp)) l →
  satsIn (omap (updated ps) l) pk =
  if decide (pk ∈ di_BtcPk <$> l ∧ ps_state ps (MarshalHex pk) ≠ STATE_SLASHED)
  then satsIn l pk + delta_of ps pk else 0.
Proof using.
  induction l as [|fp l IH]; intros Hnd Hnn.
  { done. }
  rewrite fmap_cons in Hnd |- *. apply NoDup_cons in Hnd as [Hni Hnd]. apply Forall_cons in Hnn as [Hn1 Hnn].
  specialize (IH Hnd Hnn). rewrite satsIn_cons. cbn [omap list_omap].
  assert (satsIn match updated ps fp with Some y => y :: omap (updated ps) l | None => omap (updated ps) l end pk =
    (if decide (di_BtcPk fp = pk ∧ ps_state ps (di_hex fp) ≠ STATE_SLASHED)
     then di_TotalBondedSat fp + delta_of ps pk else 0) + satsIn (omap (updated ps) l) pk) as ->.
  { unfold updated at 1. destruct (decide (ps_state ps (di_hex fp) = STATE_SLASHED)) as [Hsl|Hsl].
    - rewrite bool_decide_true by done. rewrite decide_False by (by intros [_ ?]). lia.
    - rewrite bool_decide_false by done. specialize (Hn1 Hsl).
      destruct (Z.ltb_spec 0 (di_TotalBondedSat fp + delta_of ps (di_BtcPk fp))) as [Hp|Hp].
      + rewrite satsIn_cons. simpl. repeat case_decide; try naive_solver; subst; lia.
      + destruct (decide (di_BtcPk fp = pk ∧ ps_state ps (di_hex fp) ≠ STATE_SLASHED)) as [[Hc _]|_]; [subst pk|]; lia. }
  rewrite IH. destruct (decide (di_BtcPk fp = pk)) as [<-|Hne].
  - rewrite (decide_False (P := di_BtcPk fp ∈ di_BtcPk <$> l ∧ _)) by (by intros [? _]).
    rewrite (satsIn_notin l) by done.
    destruct (decide (ps_state ps (di_hex fp) = STATE_SLASHED)) as [Hsl|Hsl].
    + rewrite !decide_False by (intros [_ ?]; done). done.
    + rewrite !decide_True by (split; [set_solver|done]). lia.
  - rewrite (decide_False (P := di_BtcPk fp = pk ∧ _)) by (by intros [? _]).
    destruct (decide (pk ∈ di_BtcPk <$> l ∧ ps_state ps (MarshalHex pk) ≠ STATE_SLASHED)) as [[? ?]|Hn].
    + rewrite decide_True by (split; [by right|done]). lia.
    + rewrite decide_False; [lia|]. intros [[?|?]%elem_of_cons ?]; [congruence|auto].
Qed.

(** ** New providers *)

Definition fp_slashed (stk : StakingState) (pk : bytes) : bool :=
  match finalityProviders stk !! pk with Some fp => IsSlashed fp | None => false end.

(** The provider cache of the processing state mirrors the registry. *)
Definition fp_cache (stk : StakingState) (cache : gmap string FinalityProvider) : Prop :=
  ∀ pk fp, cache !! MarshalHex pk = Some fp → finalityProviders stk !! pk = Some fp.

Lemma FromHex_MarshalHex pk pk' : NewBIP340PubKeyFromHex (MarshalHex pk) = Ok pk' → pk' = pk.
Proof using.
  unfold NewBIP340PubKeyFromHex, MarshalHex. rewrite hex_decode_encode. by intros [-> _]%NewBIP340PubKey_Ok.
Qed.

Lemma loadFP_inv stk cache pk cache' fp :
  fp_cache stk cache → loadFP stk cache (MarshalHex pk) = Ok (cache', fp) →
  finalityProviders stk !! pk = Some fp ∧ fp_cache stk cache'.
Proof using.
  intros Hc H. unfold loadFP in H. destruct (cache !! MarshalHex pk) as [fp0|] eqn:Ec.
  - injection H as <- <-. split; [by apply Hc|done].
  - apply bind_Ok in H as (pk' & Hpk & H). apply FromHex_MarshalHex in Hpk as ->.
    apply bind_Ok in H as (fp0 & Hfp & H). injection H as <- <-. apply GetFinalityProvider_Ok in Hfp.
    split; [done|]. intros pk' fp' Hl. rewrite lookup_insert_Some in Hl.
    destruct Hl as [[E0%MarshalHex_inj ->]|[_ Hl]]; [congruence|by apply Hc].
Qed.

Lemma jail_switch st (info : FinalityProviderDistInfo) :
  match st with
  | STATE_JAILED => with_flags info (di_IsTimestamped info) true (di_IsSlashed info)
  | STATE_UNJAILED => with_flags info (di_IsTimestamped info) false (di_IsSlashed info)
  | _ => info
  end = with_flags info (di_IsTimestamped info) (jailed_by st (di_IsJailed info)) (di_IsSlashed info).
Proof using. by destruct st, info. Qed.

Lemma addNewFp_inv stk dc ps pk dc' ps' :
  fps_keyed stk → deltas_bound ps → fp_cache stk (ps_FpByBtcPk ps) →
  addNewFp stk (dc, ps) (MarshalHex pk) = Ok (dc', ps') →
  is_Some (finalityProviders stk !! pk) ∧
  (∃ cache, ps' = ps_set_fps ps cache ∧ fp_cache stk cache) ∧
  (fp_slashed stk pk = true ∧ dc_FinalityProviders dc' = dc_FinalityProviders dc ∨
   fp_slashed stk pk = false ∧ 0 ≤ delta_of ps pk ∧
   ∃ fp, di_BtcPk fp = pk ∧ di_IsSlashed fp = false ∧ di_TotalBondedSat fp = delta_of ps pk ∧
     di_IsJailed fp = jailed_by (ps_state ps (MarshalHex pk)) (fp_jailed stk pk) ∧
     dc_FinalityProviders dc' = dc_FinalityProviders dc ++ if 0 <? delta_of ps pk then [fp] else []).
Proof using.
  intros Hk Hb Hc H. unfold addNewFp in H. apply bind_Ok in H as ([cache newFP] & Hl & H).
  rewrite must_Ok in Hl. apply loadFP_inv in Hl as [Hfp Hc']; [|done].
  split; [by eauto|]. unfold fp_slashed, fp_jailed. rewrite Hfp. destruct (IsSlashed newFP) eqn:Es.
  { injection H as <- <-. split; [by eauto|by left]. }
  apply bind_Ok in H as (info & Hinfo & H). apply bind_Ok in H as (info' & Hch & H). rewrite must_Ok in Hch.
  unfold NewFinalityProviderDistInfo in Hinfo. destruct (AccAddressFromBech32 (fp_Addr newFP)); [|done].
  injection Hinfo as <-. injection H as <- <-. split; [by eauto|]. right. split; [done|].
  change (default 0 (ps_DeltaSatsByFpBtcPk (ps_set_fps ps cache) !! MarshalHex pk)) with (delta_of ps pk) in Hch.
  rewrite jail_switch in Hch. pose proof (Hb pk).
  apply ChangeDeltaSats_inv in Hch as [-> Hnn]; [|simpl; unfold sats_bound; lia|done]. simpl in *.
  rewrite Z.add_0_l in *. split; [done|].
  exists (mkDistInfo (fp_BtcPk newFP) l (fp_Commission newFP) (delta_of ps pk) false
    (jailed_by (ps_state (ps_set_fps ps cache) (MarshalHex pk)) (fp_Jailed newFP)) (IsSlashed newFP)).
  split_and!; [exact (Hk _ _ Hfp)|exact Es|done|done|].
  destruct (0 <? delta_of ps pk); simpl; by rewrite ?app_nil_r.
Qed.

Lemma addNew_fold stk pks dc ps dc' ps' :
  fps_keyed stk → deltas_bound ps → fp_cache stk (ps_FpByBtcPk ps) → NoDup pks →
  foldM (addNewFp stk) (dc, ps) (MarshalHex <$> pks) = Ok (dc', ps') →
  ∃ news, dc_FinalityProviders dc' = dc_FinalityProviders dc ++ news ∧
    NoDup (di_BtcPk <$> news) ∧ (di_BtcPk <$> news) ⊆ pks ∧
    Forall (λ fp, 0 < di_TotalBondedSat fp ∧ di_IsSlashed fp = false ∧ fp_slashed stk (di_BtcPk fp) = false ∧
      di_IsJailed fp = jailed_by (ps_state ps (MarshalHex (di_BtcPk fp))) (fp_jailed stk (di_BtcPk fp))) news ∧
    Forall (λ pk, fp_slashed stk pk = false → 0 ≤ delta_of ps pk) pks ∧
    ∀ pk, satsIn news pk = if decide (pk ∈ pks ∧ fp_slashed stk pk = false) then delta_of ps pk else 0.
Proof using.
  intros Hk. revert dc ps. induction pks as [|k pks IH]; intros dc ps Hb Hc Hnd H.
  { injection H as <- <-. exists []. rewrite app_nil_r. split_and!; done || constructor. }
  rewrite fmap_cons in H. cbn [foldM] in H. apply bind_Ok in H as ([dc1 ps1] & H1 & H).
  apply NoDup_cons in Hnd as [Hni Hnd].
  apply addNewFp_inv in H1 as (_ & (cache & -> & Hc1) & Hcase); [|done..].
  apply IH in H as (news & E1 & N1 & N2 & N3 & N5 & N4); [|done..].
  change (delta_of (ps_set_fps ps cache)) with (delta_of ps) in N4, N5.
  change (ps_state (ps_set_fps ps cache)) with (ps_state ps) in N3.
  assert (∀ pk, pk ≠ k → satsIn news pk =
    if decide (pk ∈ k :: pks ∧ fp_slashed stk pk = false) then delta_of ps pk else 0) as Hoth.
  { intros pk Hne. rewrite N4. repeat case_decide; try done; set_solver. }
  assert (satsIn news k = 0) as Hk0.
  { rewrite N4, decide_False; [done|]. by intros [? _]. }
  destruct Hcase as [[Hs Ed]|(Hs & Hnn & fp & <- & Hf1 & Hf2 & Hf3 & Ed)].
  - exists news. rewrite E1, Ed. split_and!; [done|done|set_solver|done|constructor; [congruence|done]|].
    intros pk. destruct (decide (pk = k)) as [->|Hne]; [|by apply Hoth].
    rewrite Hk0, decide_False; [done|]. intros [_ ?]. congruence.
  - rewrite E1, Ed, <- app_assoc. eexists. split; [done|].
    destruct (Z.ltb_spec 0 (delta_of ps (di_BtcPk fp))); cbn [app].
    + split_and!.
      * rewrite fmap_cons. constructor; [set_solver|done].
      * set_solver.
      * constructor; [split_and!; [lia|done..]|done].
      * by constructor.
      * intros pk. rewrite satsIn_cons. destruct (decide (di_BtcPk fp = pk)) as [<-|Hne].
        -- rewrite Hk0, decide_True by (split; [set_solver|done]). lia.
        -- rewrite Hoth by done. lia.
    + split_and!; [done|set_solver|done|by constructor|]. intros pk. destruct (decide (pk = di_BtcPk fp)) as [->|Hne]; [|by apply Hoth].
      rewrite Hk0. case_decide; lia.
Qed.

(** ** The whole update of the distribution *)

Lemma FillByPrev_spec ps dc :
  let ps' := FillByPrevVpDstCache ps dc in
  ps_DeltaSatsByFpBtcPk ps' = ps_DeltaSatsByFpBtcPk ps ∧ ps_FpByBtcPk ps' = ps_FpByBtcPk ps ∧
  ps_ExpiredEvents ps' = ps_ExpiredEvents ps ∧ ps_SlashedEvents ps' = ps_SlashedEvents ps ∧
  (Forall (λ fp, di_IsSlashed fp = false) (dc_FinalityProviders dc) →
   (∀ k, ps_state ps k ≠ STATE_SLASHED) → ∀ k, ps_state ps' k ≠ STATE_SLASHED).
Proof using.
  unfold FillByPrevVpDstCache. cbn zeta. generalize 0 as idx. revert ps.
  induction (dc_FinalityProviders dc) as [|fp l IH]; intros ps idx; [by split_and!|]. cbn [foldl].
  set (ps1 := AddStateForFp _ fp).
  assert (ps_DeltaSatsByFpBtcPk ps1 = ps_DeltaSatsByFpBtcPk ps ∧ ps_FpByBtcPk ps1 = ps_FpByBtcPk ps ∧
    ps_ExpiredEvents ps1 = ps_ExpiredEvents ps ∧ ps_SlashedEvents ps1 = ps_SlashedEvents ps ∧
    (di_IsSlashed fp = false → (∀ k, ps_state ps k ≠ STATE_SLASHED) → ∀ k, ps_state ps1 k ≠ STATE_SLASHED))
    as (A1 & A2 & A3 & A4 & A5).
  { unfold ps1, AddStateForFp. destruct (idx <? _), (di_IsSlashed fp) eqn:Es, (di_IsJailed fp);
      simpl; split_and!; try done; intros _ Hst k; unfold ps_state; simpl;
      destruct (decide (di_hex fp = k)) as [<-|Hne];
      rewrite ?lookup_insert_eq, ?lookup_insert_ne by done; first [done|apply Hst]. }
  destruct (IH ps1 (idx + 1)) as (B1 & B2 & B3 & B4 & B5). split_and!; try congruence.
  intros [Hs1 Hs]%Forall_cons Hst. by apply B5, A5.
Qed.

(** The recorded flags give the states to start from. *)
Lemma FillByPrev_jailed ps dc k :
  Forall (λ fp, di_IsSlashed fp = false) (dc_FinalityProviders dc) →
  ps_state (FillByPrevVpDstCache ps dc) k =
  if decide (Exists (λ fp, di_hex fp = k ∧ di_IsJailed fp = true) (dc_FinalityProviders dc))
  then STATE_JAILED else ps_state ps k.
Proof using.
  unfold FillByPrevVpDstCache. generalize 0 as idx. revert ps.
  induction (dc_FinalityProviders dc) as [|fp l IH]; intros ps idx Hns.
  { cbn [foldl fst]. by rewrite decide_False by (by intros ?%Exists_nil). }
  apply Forall_cons in Hns as [Hn Hns]. cbn [foldl]. rewrite IH by done. clear IH.
  set (ps1 := if idx <? _ then _ else _).
  assert (ps_state (AddStateForFp ps1 fp) k = if decide (di_hex fp = k ∧ di_IsJailed fp = true) then STATE_JAILED else ps_state ps k) as ->.
  { assert (ps_state ps1 k = ps_state ps k) as <- by (unfold ps1; by destruct (idx <? _)).
    unfold AddStateForFp. rewrite Hn. destruct (di_IsJailed fp); [|by rewrite decide_False by (by intros [_ ?])].
    unfold ps_state. simpl. destruct (decide (di_hex fp = k)) as [<-|Hne].
    - by rewrite lookup_insert_eq, decide_True.
    - by rewrite lookup_insert_ne, decide_False by (done || by intros [? _]). }
  destruct (decide (Exists _ l)) as [Hl|Hl].
  - by rewrite (decide_True (P := Exists _ (fp :: l))) by (by apply Exists_cons; right).
  - destruct (decide (di_hex fp = k ∧ di_IsJailed fp = true)) as [Hf|Hf].
    + by rewrite decide_True by (by apply Exists_cons; left).
    + by rewrite decide_False by (intros [?|?]%Exists_cons; auto).
Qed.

Lemma state_events_not_slashed evs m :
  (∀ k, default STATE_UNKNOWN (m !! k) ≠ STATE_SLASHED) →
  ∀ k, default STATE_UNKNOWN (foldl state_event m evs !! k) ≠ STATE_SLASHED.
Proof using.
  revert m. induction evs as [|ev evs IH]; intros m Hm; [done|]. cbn [foldl]. apply IH. intros k.
  destruct ev as [pk|pk|pk|h st]; simpl; try apply Hm;
    (destruct (decide (MarshalHex pk = k)) as [<-|Hne];
     [by rewrite lookup_insert_eq|rewrite lookup_insert_ne by done; apply Hm]).
Qed.

Lemma elem_of_slashed evs pk : pk ∈ (evs ≫= slashed_of) ↔ SlashedFp pk ∈ evs.
Proof using.
  rewrite list_elem_of_bind. split.
  - intros (ev & Hpk & Hev). destruct ev; simpl in Hpk; try by apply elem_of_nil in Hpk.
    by apply list_elem_of_singleton in Hpk as ->.
  - intros H. exists (SlashedFp pk). split; [by apply list_elem_of_singleton|done].
Qed.

(** The events of the range, condensed: the state from which the new
    distribution is computed. *)
Record events_processed (stk : StakingState) (l : list FinalityProviderDistInfo) (evs : list EventPowerDistUpdate)
    (ps : ProcessingState) : Prop := {
  ep_delta : ∀ pk, delta_of ps pk = sumZ (event_sats stk pk <$> evs);
  ep_slashed : ∀ pk, ps_state ps (MarshalHex pk) = STATE_SLASHED ↔ SlashedFp pk ∈ evs;
  ep_keys : ∀ k, is_Some (ps_DeltaSatsByFpBtcPk ps !! k) → ∃ pk, k = MarshalHex pk;
  ep_fps : ps_FpByBtcPk ps = ∅;
  ep_jailed : ∀ pk b, SlashedFp pk ∉ evs → (∀ fp, fp ∈ l → di_BtcPk fp = pk → di_IsJailed fp = b) →
    jailed_by (ps_state ps (MarshalHex pk)) b = foldl (jail_event pk) b evs
}.

Lemma processed_events stk dc last cur ps1 ps2 :
  let evs := GetAllPowerDistUpdateEvents stk last cur in
  Forall (λ fp, di_IsSlashed fp = false) (dc_FinalityProviders dc) →
  (∀ pk, - sats_bound < sumZ (event_sats stk pk <$> evs) < sats_bound) →
  foldM (λ ps h, processEventsAtHeight stk h ps) (FillByPrevVpDstCache NewProcessingState dc)
    (seqZ last (cur - last + 1)) = Ok ps1 →
  processExpiredEvents stk ps1 = Ok ps2 →
  events_processed stk (dc_FinalityProviders dc) evs (processSlashedEvents ps2).
Proof using.
  intros evs Hns Hb H1 H2. rewrite foldM_heights in H1. fold (GetAllPowerDistUpdateEvents stk last cur) in H1.
  fold evs in H1. set (ps0 := FillByPrevVpDstCache NewProcessingState dc) in H1.
  destruct (FillByPrev_spec NewProcessingState dc) as (F1 & F2 & F3 & F4 & F5). fold ps0 in F1, F2, F3, F4, F5.
  simpl in F1, F2, F3, F4.
  assert (∀ pk, delta_of ps0 pk = 0) as Hz by (intros pk; unfold delta_of; by rewrite F1, lookup_empty).
  assert (deltas_wf ps0) as Hwf0.
  { split; [intros pk; rewrite Hz; unfold in_i64; lia|]. rewrite F1. intros k [? Hk]. by rewrite lookup_empty in Hk. }
  apply processEvents_steps in H1; [|done]. pose proof (ps_steps_wf _ _ _ _ _ _ Hwf0 H1) as Hwf1.
  destruct H1 as [A1 A2 A3 A4 A5 A6 A7]. rewrite F3, F4 in *. simpl in A3, A4.
  pose proof H2 as H2'. apply processExpired_steps in H2; [|done].
  pose proof (ps_steps_wf _ _ _ _ _ _ Hwf1 H2) as [_ Hkeys2]. destruct H2 as [B1 B2 B3 B4 B5 B6 B7].
  rewrite A3 in B1. rewrite app_nil_r in B4.
  destruct (processSlashed_states ps2) as (C1 & C2 & C3).
  constructor.
  - intros pk. assert (delta_of (processSlashedEvents ps2) pk = delta_of ps2 pk) as ->
      by (unfold delta_of; by rewrite C1).
    rewrite B1, A1, Hz, Z.add_0_l, i64_add_l, sum_events.
    apply i64_small. specialize (Hb pk). unfold sats_bound, in_i64 in *. lia.
  - intros pk. rewrite C3, B4, A4, <- elem_of_slashed. case_decide as Hin; [done|].
    split; [|done]. intros Hst. exfalso. revert Hst. unfold ps_state. rewrite B2, A2.
    apply state_events_not_slashed. intros k. apply F5; [done|]. intros k'. by unfold ps_state.
  - rewrite C1. apply Hkeys2.
  - by rewrite C2, B5, A5, F2.
  - intros pk b Hns' Hb'. rewrite C3, B4, A4, decide_False by (by rewrite elem_of_slashed). unfold ps_state.
    rewrite B2, A2, state_event_jailed. f_equal. fold (ps_state ps0 (MarshalHex pk)). unfold ps0.
    rewrite FillByPrev_jailed by done. case_decide as Hex; [|done].
    apply Exists_exists in Hex as (fp & Hin & Hk%MarshalHex_inj & Hj). simpl. by rewrite <- (Hb' fp Hin Hk).
Qed.

Lemma hex_preimages (l : list string) :
  (∀ k, k ∈ l → ∃ pk, k = MarshalHex pk) → ∃ pks, l = MarshalHex <$> pks.
Proof using.
  induction l as [|k l IH]; intros H; [by exists []|].
  destruct (H k) as [pk ->]; [by left|]. destruct IH as [pks ->]; [intros k' ?; apply H; by right|].
  by exists (pk :: pks).
Qed.

(** The providers met in the second loop. *)
Lemma newFpList_keys ps :
  (∀ k, is_Some (ps_DeltaSatsByFpBtcPk ps !! k) → ∃ pk, k = MarshalHex pk) →
  ∃ pks, newFpList ps = MarshalHex <$> pks ∧ NoDup pks ∧
    ∀ pk, pk ∈ pks ↔ ps_state ps (MarshalHex pk) ≠ STATE_SLASHED ∧
                     is_Some (ps_DeltaSatsByFpBtcPk ps !! MarshalHex pk).
Proof using.
  intros Hk. unfold newFpList.
  assert (∀ k, k ∈ sort_stable string_less
     (filter (λ hex, ps_state ps hex ≠ STATE_SLASHED) (map_to_list (ps_DeltaSatsByFpBtcPk ps)).*1) ↔
     ps_state ps k ≠ STATE_SLASHED ∧ is_Some (ps_DeltaSatsByFpBtcPk ps !! k)) as Hin.
  { intros k. rewrite sort_stable_perm, list_elem_of_filter, list_elem_of_fmap. split.
    - intros [? ([k' v] & -> & Hm)]. split; [done|]. apply elem_of_map_to_list in Hm. by eexists.
    - intros [? [v Hv]]. split; [done|]. exists (k, v). split; [done|]. by apply elem_of_map_to_list. }
  destruct (hex_preimages (sort_stable string_less
     (filter (λ hex, ps_state ps hex ≠ STATE_SLASHED) (map_to_list (ps_DeltaSatsByFpBtcPk ps)).*1))) as [pks Hpks].
  { intros k [_ ?]%Hin. auto. }
  exists pks. split; [done|]. split.
  - apply (NoDup_fmap_1 MarshalHex). rewrite <- Hpks, sort_stable_perm. apply NoDup_filter, NoDup_fst_map_to_list.
  - intros pk. rewrite <- Hin, Hpks. split; [apply list_elem_of_fmap_2|].
    intros (pk' & ->%MarshalHex_inj & ?)%list_elem_of_fmap. done.
Qed.

Lemma satsIn_elem l fp :
  NoDup (di_BtcPk <$> l) → fp ∈ l → satsIn l (di_BtcPk fp) = di_TotalBondedSat fp.
Proof using.
  induction l as [|x l IH]; intros Hnd Hin; [by apply elem_of_nil in Hin|].
  apply elem_of_cons in Hin as [->|Hin]; rewrite fmap_cons in Hnd; apply NoDup_cons in Hnd as [Hni Hnd]; rewrite satsIn_cons.
  - rewrite decide_True, satsIn_notin by done. lia.
  - rewrite decide_False, IH by (try done; intros Eq; apply Hni; rewrite Eq; by apply list_elem_of_fmap_2). done.
Qed.

Lemma hex_elem (l : list FinalityProviderDistInfo) pk : MarshalHex pk ∈ di_hex <$> l ↔ pk ∈ di_BtcPk <$> l.
Proof using.
  rewrite !list_elem_of_fmap. split.
  - intros (fp & Eq%MarshalHex_inj & ?). eauto.
  - intros (fp & -> & ?). exists fp. done.
Qed.

Lemma updated_keys_sublist ps l : (di_BtcPk <$> omap (updated ps) l) `sublist_of` (di_BtcPk <$> l).
Proof using.
  induction l as [|fp l IH]; [done|]. cbn [omap list_omap]. destruct (updated ps fp) as [fp'|] eqn:Eu.
  - rewrite !fmap_cons, (updated_key _ _ _ Eu). by apply sublist_skip.
  - rewrite fmap_cons. by apply sublist_cons.
Qed.

Lemma updated_positive ps l :
  Forall (λ fp, di_IsSlashed fp = false) l →
  Forall (λ fp, 0 < di_TotalBondedSat fp ∧ di_IsSlashed fp = false) (omap (updated ps) l).
Proof using.
  induction 1 as [|fp l Hfp Hl IH]; [constructor|]. cbn [omap list_omap].
  destruct (updated ps fp) as [fp'|] eqn:Eu; [|done]. constructor; [|done].
  unfold updated in Eu. case_bool_decide; [done|].
  destruct (Z.ltb_spec 0 (di_TotalBondedSat fp + delta_of ps (di_BtcPk fp))); [|done]. by injection Eu as <-.
Qed.

(** No provider loses more satoshis than it has: one that is in the distribution, or
    is not slashed in the registry, and is not slashed by the events. *)
Definition sats_suffice (stk : StakingState) (l : list FinalityProviderDistInfo) (evs : list EventPowerDistUpdate) : Prop :=
  ∀ pk, SlashedFp pk ∉ evs → pk ∈ di_BtcPk <$> l ∨ fp_slashed stk pk = false →
    0 ≤ satsIn l pk + sumZ (event_sats stk pk <$> evs).

(** How the new distribution [out] comes from the old one [l]: its providers, updated,
    then new ones, among those ([pks]) that have satoshis by the events only. *)
Record merged (stk : StakingState) (l : list FinalityProviderDistInfo) (evs : list EventPowerDistUpdate)
    (ps : ProcessingState) (pks : list bytes) (news out : list FinalityProviderDistInfo) : Prop := {
  mg_events : events_processed stk l evs ps;
  mg_out : out = omap (updated ps) l ++ news;
  mg_enough : Forall (λ fp, ps_state ps (di_hex fp) ≠ STATE_SLASHED → 0 ≤ di_TotalBondedSat fp + delta_of ps (di_BtcPk fp)) l;
  mg_pks pk : pk ∈ pks ↔ SlashedFp pk ∉ evs ∧ pk ∉ di_BtcPk <$> l ∧ is_Some (ps_DeltaSatsByFpBtcPk ps !! MarshalHex pk);
  mg_nodup : NoDup (di_BtcPk <$> news);
  mg_news : (di_BtcPk <$> news) ⊆ pks;
  mg_new : Forall (λ fp, 0 < di_TotalBondedSat fp ∧ di_IsSlashed fp = false ∧
    di_IsJailed fp = jailed_by (ps_state ps (MarshalHex (di_BtcPk fp))) (fp_jailed stk (di_BtcPk fp))) news;
  mg_new_enough : Forall (λ pk, fp_slashed stk pk = false → 0 ≤ delta_of ps pk) pks;
  mg_sats pk : satsIn news pk = if decide (pk ∈ pks ∧ fp_slashed stk pk = false) then delta_of ps pk else 0
}.

Lemma ProcessAll_merged stk dc last cur newDc ps' :
  let evs := GetAllPowerDistUpdateEvents stk last cur in
  fps_keyed stk → dist_wf (dc_FinalityProviders dc) →
  (∀ pk, - sats_bound < sumZ (event_sats stk pk <$> evs) < sats_bound) →
  ProcessAllPowerDistUpdateEvents stk dc last cur = Ok (newDc, ps') →
  ∃ ps pks news, merged stk (dc_FinalityProviders dc) evs ps pks news (dc_FinalityProviders newDc).
Proof using.
  intros evs Hk [Hnd Hsats Hns] Hb H. unfold ProcessAllPowerDistUpdateEvents in H.
  apply bind_Ok in H as (ps1 & H1 & H). apply bind_Ok in H as (ps2 & H2 & H).
  pose proof (processed_events stk dc last cur ps1 ps2 Hns Hb H1 H2) as Hep. fold evs in Hep. pose proof Hep as [Ed Es Ek Ef Ej].
  set (ps := processSlashedEvents ps2) in *. apply bind_Ok in H as ([dc1 ps3] & H3 & H).
  assert (deltas_bound ps) as Hdb by (intros pk; rewrite Ed; apply Hb).
  apply updateExisting_fold in H3 as (U1 & U2 & U3 & U4 & U5); [|done..]. simpl in U1, H.
  assert (∀ k, ps_state ps3 k = ps_state ps k) as Hst by (intros k; unfold ps_state; by rewrite U3).
  destruct (newFpList_keys ps3) as (pks & Hpks & Hndp & Hinp).
  { intros k [v Hv]. apply Ek. rewrite U5 in Hv. case_decide; [done|]. by eexists. }
  assert (∀ pk, pk ∈ pks ↔ SlashedFp pk ∉ evs ∧ pk ∉ di_BtcPk <$> dc_FinalityProviders dc ∧
                is_Some (ps_DeltaSatsByFpBtcPk ps !! MarshalHex pk)) as Hin.
  { intros pk. rewrite Hinp, Hst, U5, <- Es, <- hex_elem. case_decide as Hd; [|naive_solver].
    split; [by intros [_ [? ?]]|]. intros (_ & Hn & _). destruct Hn. apply Hd. }
  assert (∀ pk, pk ∈ pks → delta_of ps3 pk = delta_of ps pk) as Hd3.
  { intros pk (_ & Hn & _)%Hin. unfold delta_of. rewrite U5, decide_False; [done|]. rewrite hex_elem. by intros [? _]. }
  rewrite Hpks in H. apply addNew_fold in H as (news & N0 & N1 & N2 & N3 & N5 & N4); [|done| |by rewrite U4, Ef|done].
  2: { intros pk. unfold delta_of. rewrite U5. case_decide; [unfold sats_bound; simpl; lia|apply Hdb]. }
  exists ps, pks, news. split; [done|by rewrite N0, U1|done|done|done|done|..].
  - eapply Forall_impl; [exact N3|]. intros fp (? & ? & _ & Hj). by rewrite <- Hst.
  - rewrite Forall_forall in N5 |- *. intros pk Hpk. rewrite <- Hd3 by done. by apply N5.
  - intros pk. rewrite N4. case_decide as Hc; [|done]. by apply Hd3, Hc.
Qed.

Section merged.
Context (stk : StakingState) (l : list FinalityProviderDistInfo) (evs : list EventPowerDistUpdate) (ps : ProcessingState)
  (pks : list bytes) (news out : list FinalityProviderDistInfo).
Hypotheses (Hwf : dist_wf l) (Hm : merged stk l evs ps pks news out).

Lemma merged_sats pk : satsIn out pk =
  if decide (SlashedFp pk ∈ evs ∨ pk ∉ di_BtcPk <$> l ∧ fp_slashed stk pk = true)
  then 0 else satsIn l pk + sumZ (event_sats stk pk <$> evs).
Proof using Hwf Hm.
  destruct Hm as [[Ed Es _ _ _] -> Hen Hin _ _ _ _ Hs]. rewrite satsIn_app, satsIn_updated, Hs, <- Ed by (done || apply Hwf).
  specialize (Hin pk). specialize (Es pk).
  destruct (decide (SlashedFp pk ∈ evs)) as [Hsl|Hsl].
  { rewrite (decide_False (P := _ ∧ _ ≠ _)) by naive_solver. rewrite decide_False by naive_solver. by rewrite decide_True by (by left). }
  destruct (decide (pk ∈ di_BtcPk <$> l)) as [Hl|Hl].
  { rewrite (decide_True (P := _ ∧ _ ≠ _)) by naive_solver. rewrite !decide_False by naive_solver. lia. }
  rewrite (decide_False (P := _ ∧ _ ≠ _)) by naive_solver. rewrite (satsIn_notin l) by done.
  destruct (fp_slashed stk pk) eqn:Efs.
  { rewrite decide_False by naive_solver. by rewrite decide_True by (by right). }
  rewrite (decide_False (P := SlashedFp pk ∈ evs ∨ _)) by naive_solver.
  destruct (decide (pk ∈ pks)) as [Hp|Hp]; [by rewrite decide_True|]. rewrite decide_False by naive_solver. unfold delta_of.
  destruct (ps_DeltaSatsByFpBtcPk ps !! MarshalHex pk) eqn:El; [|done]. exfalso. apply Hp, Hin. by split_and!.
Qed.

Lemma merged_NoDup : NoDup (di_BtcPk <$> out).
Proof using Hwf Hm.
  destruct Hm as [_ -> _ Hin Hnd Hsub _ _ _]. rewrite fmap_app. apply NoDup_app. split_and!; [|intros pk Hpk Hpk2|done].
  - eapply sublist_NoDup; [apply Hwf|apply updated_keys_sublist].
  - apply Hsub, Hin in Hpk2 as (_ & Hn & _). apply Hn. revert Hpk. apply sublist_subseteq, updated_keys_sublist.
Qed.

Lemma merged_positive : Forall (λ fp, 0 < di_TotalBondedSat fp ∧ di_IsSlashed fp = false) out.
Proof using Hwf Hm.
  destruct Hm as [_ -> _ _ _ _ Hn _ _]. apply Forall_app. split; [apply updated_positive, Hwf|]. eapply Forall_impl; [exact Hn|naive_solver].
Qed.

Lemma merged_jailed : Forall (λ fp, di_IsJailed fp = foldl (jail_event (di_BtcPk fp)) (jailed_before stk l (di_BtcPk fp)) evs) out.
Proof using Hwf Hm.
  destruct Hm as [[_ Es _ _ Ej] -> _ Hin _ Hsub Hn _ _]. apply Forall_app. split; apply Forall_forall.
  - intros fp (fp0 & Hl & Hu)%list_elem_of_omap. pose proof (updated_key _ _ _ Hu) as Ek0.
    unfold updated in Hu. case_bool_decide as Hst0; [done|]. destruct (0 <? _); [|done]. injection Hu as <-.
    cbn [di_IsJailed di_BtcPk]. rewrite (jailed_before_in stk _ fp0) by (done || apply Hwf). apply Ej; [by rewrite <- Es|].
    intros fp1 Hin1 E1. by rewrite (fmap_NoDup_inj di_BtcPk _ fp1 fp0 (dw_nodup _ Hwf) Hin1 Hl E1).
  - rewrite Forall_forall in Hn. intros fp Hfp. destruct (Hn fp Hfp) as (_ & _ & ->).
    assert (di_BtcPk fp ∈ pks) as (Hs0 & Hni & _)%Hin by (apply Hsub; by apply list_elem_of_fmap_2).
    rewrite jailed_before_notin by done. apply Ej; [done|]. intros fp1 Hin1 E1. destruct Hni. rewrite <- E1. by apply list_elem_of_fmap_2.
Qed.

Lemma merged_suffice : sats_suffice stk l evs.
Proof using Hwf Hm.
  destruct Hm as [[Ed Es _ _ _] _ Hen Hin _ _ _ Hne _]. intros pk Hsl Hor. rewrite <- Ed.
  destruct (decide (pk ∈ di_BtcPk <$> l)) as [Hl|Hni].
  - apply list_elem_of_fmap in Hl as (fp & -> & Hl). rewrite satsIn_elem by (done || apply Hwf).
    rewrite Forall_forall in Hen. apply (Hen fp Hl). unfold di_hex. by rewrite Es.
  - destruct Hor as [|Hfs]; [done|]. rewrite satsIn_notin, Z.add_0_l by done.
    destruct (ps_DeltaSatsByFpBtcPk ps !! MarshalHex pk) eqn:El; [|unfold delta_of; by rewrite El].
    rewrite Forall_forall in Hne. apply Hne; [|done]. apply Hin. by split_and!.
Qed.
End merged.

(** The providers of the new distribution, their satoshis and their flags; the
    update went through, so no provider lost more than it had. *)
Lemma ProcessAll_distribution stk dc last cur newDc ps' :
  let evs := GetAllPowerDistUpdateEvents stk last cur in
  fps_keyed stk → dist_wf (dc_FinalityProviders dc) →
  (∀ pk, - sats_bound < sumZ (event_sats stk pk <$> evs) < sats_bound) →
  (∀ pk, satsIn (dc_FinalityProviders dc) pk + sumZ (event_sats stk pk <$> evs) < sats_bound) →
  ProcessAllPowerDistUpdateEvents stk dc last cur = Ok (newDc, ps') →
  dist_wf (dc_FinalityProviders newDc) ∧
  Forall (λ fp, 0 < di_TotalBondedSat fp) (dc_FinalityProviders newDc) ∧
  (∀ pk, satsIn (dc_FinalityProviders newDc) pk =
    if decide (SlashedFp pk ∈ evs ∨ pk ∉ di_BtcPk <$> dc_FinalityProviders dc ∧ fp_slashed stk pk = true)
    then 0 else satsIn (dc_FinalityProviders dc) pk + sumZ (event_sats stk pk <$> evs)) ∧
  Forall (λ fp, di_IsJailed fp =
    foldl (jail_event (di_BtcPk fp)) (jailed_before stk (dc_FinalityProviders dc) (di_BtcPk fp)) evs) (dc_FinalityProviders newDc) ∧
  sats_suffice stk (dc_FinalityProviders dc) evs.
Proof using.
  intros evs Hk Hwf Hb Hb2 H. destruct (ProcessAll_merged stk dc last cur newDc ps' Hk Hwf Hb H) as (ps & pks & news & Hm). fold evs in Hm.
  pose proof (merged_sats _ _ _ _ _ _ _ Hwf Hm) as Hsum. pose proof (merged_NoDup _ _ _ _ _ _ _ Hwf Hm) as HND.
  pose proof (merged_positive _ _ _ _ _ _ _ Hwf Hm) as Hall.
  split_and!; [constructor|..]; [done| | | |done|by eapply merged_jailed|by eapply merged_suffice].
  - apply Forall_forall. intros fp Hin. rewrite Forall_forall in Hall. destruct (Hall fp Hin) as [? _].
    pose proof (Hsum (di_BtcPk fp)) as Hs. rewrite satsIn_elem in Hs by done. specialize (Hb2 (di_BtcPk fp)).
    unfold sats_bound in *. case_decide; lia.
  - eapply Forall_impl; [exact Hall|]. by intros ? [_ ?].
  - eapply Forall_impl; [exact Hall|]. by intros ? [? _].
Qed.

(** ** Recording the voting power *)

(** Two states that differ at most in signing infos and emitted events. *)
Record same_stores (f f' : FinalityState) : Prop := {
  ss_blocks : blocks f' = blocks f;
  ss_votes : votes f' = votes f;
  ss_evidences : evidences f' = evidences f;
  ss_pubRands : pubRands f' = pubRands f;
  ss_commits : pubRandCommits f' = pubRandCommits f;
  ss_index : pubRandCommitIndex f' = pubRandCommitIndex f;
  ss_missed : missedBlocks f' = missedBlocks f;
  ss_power : votingPower f' = votingPower f;
  ss_caches : vpDistCaches f' = vpDistCaches f;
  ss_finalize : nextHeightToFinalize f' = nextHeightToFinalize f;
  ss_reward : nextHeightToReward f' = nextHeightToReward f;
  ss_params : finalityParams f' = finalityParams f
}.

#[local] Instance same_stores_preorder : PreOrder same_stores.
Proof using.
  split; [by constructor|].
  intros f1 f2 f3 [] []. constructor; congruence.
Qed.

Lemma emit_same f evs : same_stores f (foldl emit f evs).
Proof using.
  revert f. induction evs as [|ev evs IH]; intros f; [done|]. cbn [foldl]. etrans; [|apply IH]. by constructor.
Qed.

Definition power_entry (s : FinalityState) (height : Z) (pk : bytes) : option Z :=
  get2 height pk (votingPower s).

Lemma SetVotingPower_fold s height l pk :
  NoDup (di_BtcPk <$> l) →
  let s' := foldl (λ s fp, SetVotingPower s (di_BtcPk fp) height (di_TotalBondedSat fp)) s l in
  (∀ h, power_entry s' h pk =
    if decide (h = height ∧ pk ∈ di_BtcPk <$> l) then Some (satsIn l pk) else power_entry s h pk) ∧
  s' = set_votingPower s (votingPower s').
Proof using.
  cbn zeta. revert s. induction l as [|fp l IH]; intros s Hnd.
  { cbn [foldl]. split; [|by destruct s]. intros h. rewrite decide_False; [done|].
    by intros [_ ?%elem_of_nil]. }
  rewrite fmap_cons in Hnd. apply NoDup_cons in Hnd as [Hni Hnd]. cbn [foldl].
  destruct (IH (SetVotingPower s (di_BtcPk fp) height (di_TotalBondedSat fp)) Hnd) as [H1 H2].
  split; [|by rewrite H2]. intros h. rewrite H1. rewrite satsIn_cons, fmap_cons. unfold power_entry, SetVotingPower.
  simpl. rewrite get2_set2. destruct (decide (h = height)) as [->|Hh].
  - destruct (decide (di_BtcPk fp = pk)) as [<-|Hne].
    + rewrite decide_False by (by intros [_ ?]). rewrite decide_True by done.
      rewrite decide_True by (split; [done|by left]). f_equal. rewrite satsIn_notin by done. lia.
    + destruct (decide (pk ∈ di_BtcPk <$> l)) as [Hin|Hin].
      * rewrite !decide_True by (split; [done|by try right]). done.
      * rewrite decide_False by (by intros [_ ?]). rewrite decide_False by congruence.
        rewrite decide_False; [done|]. intros [_ [?|?]%elem_of_cons]; done.
  - rewrite !decide_False by first [by intros [? _]|congruence]. done.
Qed.

(** The signing info of a provider that becomes active. *)
Definition started (ctx : Ctx) (pk : bytes) (info : option FinalityProviderSigningInfo) : FinalityProviderSigningInfo :=
  match info with
  | Some info => with_jailed_until (with_start_height info (HeaderHeight ctx)) 0
  | None => NewFinalityProviderSigningInfo pk (HeaderHeight ctx) 0
  end.

Lemma started_twice ctx pk info : started ctx pk (Some (started ctx pk info)) = started ctx pk info.
Proof using. by destruct info. Qed.

Lemma processActiveFp_infos ctx c fp b c' pk :
  processActiveFp ctx c fp b = Ok c' → signingInfos (fin c') !! pk =
    if decide (di_BtcPk fp = pk) then Some (started ctx pk (signingInfos (fin c) !! pk)) else signingInfos (fin c) !! pk.
Proof using.
  unfold processActiveFp. intros H.
  assert (signingInfos (fin c') = signingInfos (HandleActivatedFinalityProvider ctx (fin c) (di_BtcPk fp))) as ->.
  { destruct b; cbn [negb] in H; [|by injection H as <-]. apply bind_Ok in H as (e & _ & H). by injection H as <-. }
  unfold HandleActivatedFinalityProvider. simpl. case_decide as Hd; [subst pk; by rewrite lookup_insert_eq|by rewrite lookup_insert_ne].
Qed.

Lemma processActive_infos ctx b l c c' pk :
  foldM (λ c fp, processActiveFp ctx c fp b) c l = Ok c' → signingInfos (fin c') !! pk =
    if decide (pk ∈ di_BtcPk <$> l) then Some (started ctx pk (signingInfos (fin c) !! pk)) else signingInfos (fin c) !! pk.
Proof using.
  revert c. induction l as [|fp l IH]; intros c H.
  { injection H as <-. by rewrite decide_False by apply not_elem_of_nil. }
  cbn [foldM] in H. apply bind_Ok in H as (c1 & H1 & H). apply (processActiveFp_infos _ _ _ _ _ pk) in H1.
  rewrite (IH _ H), H1, fmap_cons. destruct (decide (di_BtcPk fp = pk)) as [Hk|Hk].
  - rewrite started_twice, (decide_True (P := pk ∈ _ :: _)) by (rewrite Hk; left). by case_decide.
  - apply decide_ext. rewrite elem_of_cons. intuition congruence.
Qed.

Lemma processActiveFp_frame ctx c fp b c' :
  processActiveFp ctx c fp b = Ok c' → same_stores (fin c) (fin c') ∧ stk c' = stk c.
Proof using.
  unfold processActiveFp. intros H. destruct b; cbn [negb] in H.
  - apply bind_Ok in H as (e & _ & H). injection H as <-. done.
  - by injection H as <-.
Qed.

Lemma processInactiveFp_frame ctx st c fp b c' :
  processInactiveFp ctx st c fp b = Ok c' →
  same_stores (fin c) (fin c') ∧ stk c' = stk c ∧ signingInfos (fin c') = signingInfos (fin c).
Proof using.
  unfold processInactiveFp. intros H. apply bind_Ok in H as (c1 & H1 & H).
  assert (fin c1 = fin c ∧ stk c1 = stk c) as [E1 E2].
  { destruct b; [|by injection H1 as <-]. destruct st as [ps|]; [|done].
    destruct (IsFpInPrevActiveSet ps (di_BtcPk fp)); [|by injection H1 as <-].
    apply bind_Ok in H1 as (e & _ & H1). by injection H1 as <-. }
  apply bind_Ok in H as (j & _ & H). destruct j; injection H as <-.
  - by rewrite E1.
  - simpl. rewrite E1. split; [by constructor|done].
Qed.

(** *** The providers that become active *)

Lemma distInfoMap_entry l k :
  (is_Some (distInfoMap l !! k) ↔ k ∈ di_hex <$> l) ∧ ∀ fp, distInfoMap l !! k = Some fp → di_hex fp = k ∧ fp ∈ l.
Proof using.
  induction l as [|fp l IH] using rev_ind.
  { split; [|intros fp Hfp]; unfold distInfoMap; cbn [foldl].
    - rewrite lookup_empty. split; [by intros [? ?]|by intros ?%elem_of_nil].
    - unfold distInfoMap in Hfp. cbn [foldl] in Hfp. by rewrite lookup_empty in Hfp. }
  unfold distInfoMap in *. rewrite foldl_app, fmap_app. cbn [foldl]. destruct IH as [IH1 IH2].
  rewrite elem_of_app, <- IH1. cbn [fmap list_fmap]. rewrite list_elem_of_singleton.
  destruct (decide (di_hex fp = k)) as [<-|Hne].
  - rewrite lookup_insert_eq. split; [split; [by right|by eexists]|]. intros fp' [= <-]. split; [done|].
    apply elem_of_app. right. left.
  - rewrite lookup_insert_ne by done. split; [split; [by left|intros [?|Ek]; [done|by destruct Hne]]|]. intros fp' Hfp'.
    destruct (IH2 fp' Hfp'). split; [done|]. apply elem_of_app. by left.
Qed.

Lemma FindNewActive_keys dc prev pk :
  pk ∈ di_BtcPk <$> FindNewActiveFinalityProviders dc prev ↔
  pk ∈ di_BtcPk <$> activeFps dc ∧ pk ∉ di_BtcPk <$> activeFps prev.
Proof using.
  unfold FindNewActiveFinalityProviders, sortByPk. rewrite sort_stable_perm. unfold newIn.
  rewrite <- list_fmap_compose, list_elem_of_fmap. rewrite <- !hex_elem.
  rewrite <- (proj1 (distInfoMap_entry (activeFps dc) _)), <- (proj1 (distInfoMap_entry (activeFps prev) _)).
  fold (GetActiveFinalityProviderSet dc) (GetActiveFinalityProviderSet prev). split.
  - intros ([k fp] & -> & Hin%elem_of_map_to_list). cbn [compose snd]. apply map_lookup_filter_Some in Hin as [Hin Hp].
    cbn [fst] in Hp. destruct (proj2 (distInfoMap_entry (activeFps dc) k) fp Hin) as [<- _].
    split; [by eexists|]. unfold di_hex in Hp. rewrite Hp. by intros [? ?].
  - intros [[fp Hfp] Hp]. exists (MarshalHex pk, fp). cbn [compose snd].
    destruct (proj2 (distInfoMap_entry (activeFps dc) _) fp Hfp) as [Hk%MarshalHex_inj _]. split; [done|].
    apply elem_of_map_to_list, map_lookup_filter_Some. split; [done|]. cbn [fst]. by apply eq_None_not_Some.
Qed.

Lemma HandleFPStateUpdates_infos ctx st dc1 dc2 b c c' :
  HandleFPStateUpdates ctx st dc1 dc2 b c = Ok c' →
  ∀ pk, signingInfos (fin c') !! pk =
    if decide (pk ∈ di_BtcPk <$> activeFps dc2 ∧ pk ∉ di_BtcPk <$> activeFps dc1)
    then Some (started ctx pk (signingInfos (fin c) !! pk)) else signingInfos (fin c) !! pk.
Proof using.
  unfold HandleFPStateUpdates. intros H pk. apply bind_Ok in H as (c1 & H1 & H).
  assert (signingInfos (fin c') = signingInfos (fin c1)) as ->.
  { revert H. apply (foldM_invariant (λ c2, signingInfos (fin c2) = signingInfos (fin c1))); [|done].
    intros c2 fp c3 _ <- H%processInactiveFp_frame. by destruct H as (_ & _ & ?). }
  rewrite (processActive_infos _ _ _ _ _ pk H1). apply decide_ext, FindNewActive_keys.
Qed.

Lemma HandleFPStateUpdates_frame ctx st dc1 dc2 b c c' :
  HandleFPStateUpdates ctx st dc1 dc2 b c = Ok c' → same_stores (fin c) (fin c') ∧ stk c' = stk c.
Proof using.
  unfold HandleFPStateUpdates. intros H. apply bind_Ok in H as (c1 & H1 & H).
  assert (same_stores (fin c) (fin c1) ∧ stk c1 = stk c) as [Hs1 E1].
  { revert H1. apply (foldM_invariant (λ c1, same_stores (fin c) (fin c1) ∧ stk c1 = stk c)); [|done].
    intros c2 fp c3 _ [Hs Es] H1%processActiveFp_frame. destruct H1 as [Hs' Es'].
    split; [by etrans|congruence]. }
  revert H. apply (foldM_invariant (λ c1, same_stores (fin c) (fin c1) ∧ stk c1 = stk c)); [|done].
  intros c2 fp c3 _ [Hs Es] H%processInactiveFp_frame. destruct H as (Hs' & Es' & _).
  split; [by etrans|congruence].
Qed.

(** The eligible providers with the most satoshis are active, as many as fit; on
    equal satoshis the smaller key goes first. *)
Definition top_active (dc : VotingPowerDistCache) (max : Z) : Prop :=
  Z.of_nat (length (activeFps dc)) = Z.min max (Z.of_nat (length (filter eligible (dc_FinalityProviders dc)))) ∧
  ∀ a b, a ∈ activeFps dc → b ∈ inactiveFps dc → eligible b →
    di_TotalBondedSat b ≤ di_TotalBondedSat a ∧
    (di_TotalBondedSat b = di_TotalBondedSat a → string_less (di_hex b) (di_hex a) = false).

(** An active entry is eligible, and the active entries are distinct members of
    the distribution. *)
Lemma ApplyActive_members dc max :
  sats_nonneg (dc_FinalityProviders dc) → 0 ≤ max < 2 ^ 32 →
  let dc' := ApplyActiveFinalityProviders dc max in
  dc_FinalityProviders dc' ≡ₚ dc_FinalityProviders dc ∧ Forall eligible (activeFps dc') ∧
  (∀ fp, fp ∈ activeFps dc' → fp ∈ dc_FinalityProviders dc) ∧ Z.of_nat (length (activeFps dc')) ≤ max ∧
  top_active dc' max.
Proof using.
  intros Hn Hmax dc'. destruct (Sort_split _ Hn) as (l1 & l2 & Hl & H1 & H2 & Hp).
  assert (dc_FinalityProviders dc' = l1 ++ l2 ∧ activeFps dc' = take (Z.to_nat max) l1 ∧
    StronglySorted (λ a b, distInfo_less b a = false) (activeFps dc' ++ inactiveFps dc')) as (Ef & Ea & Hs).
  { unfold dc', activeFps, inactiveFps, ApplyActiveFinalityProviders. rewrite Hl.
    rewrite countActive_prefix; [|by rewrite <- Hl; unfold sats_nonneg; rewrite Sort_perm|done|done|lia|lia].
    cbn [dc_FinalityProviders dc_NumActiveFps]. split; [done|].
    split; [rewrite Z.add_0_l; apply take_min_length; lia|]. rewrite take_drop, <- Hl. apply Sort_sorted. }
  unfold top_active. rewrite Ef. split_and!; try rewrite Ea.
  - rewrite <- Hl. apply Sort_perm.
  - by apply Forall_take.
  - intros fp Hfp. rewrite <- (Sort_perm (dc_FinalityProviders dc)), Hl.
    apply elem_of_app. left. by eapply (elem_of_sublist (take (Z.to_nat max) l1)); [|apply sublist_take].
  - rewrite length_take. lia.
  - rewrite length_take, <- Hl, Sort_perm, <- Hp. lia.
  - intros a b Ha Hb [Hzb Hsb]. rewrite <- Ea in Ha.
    pose proof (StronglySorted_app_1_elem_of _ _ _ a b Hs Ha Hb) as Hless. rewrite Ea in Ha.
    pose proof (Forall_take eligible (Z.to_nat max) _ H1) as Hel. rewrite Forall_forall in Hel.
    destruct (Hel a Ha) as [Hza _]. unfold distInfo_less in Hless. rewrite Hza, Hzb in Hless. simpl in Hless.
    destruct (Z.eqb_spec (di_TotalBondedSat b) (di_TotalBondedSat a)); [|lia]. split; [lia|done].
Qed.

Lemma satsIn_perm l1 l2 pk : l1 ≡ₚ l2 → satsIn l1 pk = satsIn l2 pk.
Proof using. intros Hp. unfold satsIn. apply sumZ_perm. by rewrite Hp. Qed.

(** The entry of this height: labelled with whether its randomness is
    timestamped. *)
Definition labelled (finalizedEpoch : Z) (s : FinalityState) (height : Z) (fp : FinalityProviderDistInfo)
    : FinalityProviderDistInfo :=
  with_flags fp (HasTimestampedPubRand finalizedEpoch s (di_BtcPk fp) height) (di_IsJailed fp) (di_IsSlashed fp).

Lemma labelled_sats ep s h (l : list FinalityProviderDistInfo) pk : satsIn (labelled ep s h <$> l) pk = satsIn l pk.
Proof using. induction l as [|fp l IH]; [done|]. by rewrite fmap_cons, !satsIn_cons, IH. Qed.

Lemma labelled_keys ep s h (l : list FinalityProviderDistInfo) : di_BtcPk <$> (labelled ep s h <$> l) = di_BtcPk <$> l.
Proof using. induction l as [|fp l IH]; [done|]. by rewrite !fmap_cons, IH. Qed.

Lemma RecordVotingPowerAndCache_spec ctx ep s newDc s' dc' :
  dist_wf (dc_FinalityProviders newDc) →
  0 ≤ MaxActiveFinalityProviders (finalityParams s) < 2 ^ 32 →
  RecordVotingPowerAndCache ctx ep s newDc = (s', dc') →
  dc_FinalityProviders dc' ≡ₚ labelled ep s (CtxHeight ctx) <$> dc_FinalityProviders newDc ∧
  Forall eligible (activeFps dc') ∧ NoDup (di_BtcPk <$> activeFps dc') ∧
  Z.of_nat (length (activeFps dc')) ≤ MaxActiveFinalityProviders (finalityParams s) ∧
  top_active dc' (MaxActiveFinalityProviders (finalityParams s)) ∧
  (sumZ (di_TotalBondedSat <$> dc_FinalityProviders newDc) < 2 ^ 64 →
     dc_TotalVotingPower dc' = sumZ (di_TotalBondedSat <$> activeFps dc')) ∧
  (∀ fp, fp ∈ activeFps dc' → fp ∈ labelled ep s (CtxHeight ctx) <$> dc_FinalityProviders newDc) ∧
  (∀ h pk, power_entry s' h pk =
     if decide (h = CtxHeight ctx ∧ pk ∈ di_BtcPk <$> activeFps dc')
     then Some (satsIn (activeFps dc') pk) else power_entry s h pk) ∧
  s' = set_vpDistCaches (set_votingPower s (votingPower s')) (<[CtxHeight ctx := dc']> (vpDistCaches s)).
Proof using.
  intros [Hnd Hsats Hns] Hmax H. unfold RecordVotingPowerAndCache in H. cbv zeta in H.
  set (l := dc_FinalityProviders newDc) in *. set (h := CtxHeight ctx) in *. fold (labelled ep s h) in H.
  set (dc1 := mkDistCache (dc_TotalVotingPower newDc) (labelled ep s h <$> l) (dc_NumActiveFps newDc)) in H.
  destruct (ApplyActive_members dc1 (MaxActiveFinalityProviders (finalityParams s))) as (P1 & P2 & P3 & P4 & P5);
    [|done|].
  { unfold dc1, sats_nonneg. simpl. apply Forall_fmap. eapply Forall_impl; [exact Hsats|]. simpl. lia. }
  assert (sumZ (di_TotalBondedSat <$> l) < 2 ^ 64 →
    dc_TotalVotingPower (ApplyActiveFinalityProviders dc1 (MaxActiveFinalityProviders (finalityParams s))) =
    sumZ (di_TotalBondedSat <$> activeFps (ApplyActiveFinalityProviders dc1 (MaxActiveFinalityProviders (finalityParams s))))) as P6.
  { intros Hsum. apply ApplyActiveFinalityProviders_top_n; [|done|].
    - unfold dc1, sats_nonneg. simpl. apply Forall_fmap. eapply Forall_impl; [exact Hsats|]. simpl. lia.
    - unfold dc1. simpl. by rewrite <- list_fmap_compose. }
  set (dc2 := ApplyActiveFinalityProviders dc1 _) in *. injection H as <- <-. simpl in P1, P3.
  assert (NoDup (di_BtcPk <$> activeFps dc2)) as Hnda.
  { apply NoDup_active. rewrite P1, labelled_keys. done. }
  split_and!; try done.
  - intros h' pk. destruct (SetVotingPower_fold s h (activeFps dc2) pk Hnda) as [Hp _]. apply Hp.
  - destruct (SetVotingPower_fold s h (activeFps dc2) [] Hnda) as [_ Hp]. unfold SetVotingPowerDistCache.
    rewrite Hp. done.
Qed.

Lemma clear_fold s hs :
  let s' := foldl ClearPowerDistUpdateEvents s hs in
  (∀ h, PowerDistUpdateEventsAt s' h = if decide (h ∈ hs) then [] else PowerDistUpdateEventsAt s h) ∧
  s' = set_powerDistUpdateEvents s (powerDistUpdateEvents s').
Proof using.
  cbn zeta. revert s. induction hs as [|k hs IH]; intros s; [by destruct s|]. cbn [foldl].
  destruct (IH (ClearPowerDistUpdateEvents s k)) as [H1 H2]. split; [|by rewrite H2].
  intros h. rewrite H1. destruct (decide (h ∈ hs)) as [Hin|Hin].
  - rewrite decide_True by (by right). done.
  - destruct (decide (h = k)) as [->|Hne].
    + rewrite decide_True by (by left). apply ClearPowerDistUpdateEvents_at.
    + rewrite decide_False by (intros [?|?]%elem_of_cons; done).
      unfold PowerDistUpdateEventsAt, powerDistUpdateEventBtcHeightStore. simpl. by rewrite lookup_insert_ne.
Qed.

(** ** The begin blocker's update *)

(** The distribution of the previous block. *)
Definition prev_dist (ctx : Ctx) (c : Chain E) : list FinalityProviderDistInfo :=
  dc_FinalityProviders (default NewVotingPowerDistCache (GetVotingPowerDistCache (fin c) (u64 (CtxHeight ctx - 1)))).

(** What the update starts from: the BTC heights [last] and [cur] of the
    previous and of this block, a well-formed previous distribution, satoshi
    amounts within the supply of bitcoin, and no voting power recorded yet for
    this height. *)
Record update_ready (ctx : Ctx) (c : Chain E) (last cur : Z) : Prop := {
  ur_last : GetBTCHeightAtBabylonHeight (GetBaseBTCHeight (env c)) (stk c) (u64 (CtxHeight ctx - 1)) = Ok last;
  ur_cur : GetCurrentBTCHeight ctx (GetBaseBTCHeight (env c)) (stk c) = Ok cur;
  ur_keyed : fps_keyed (stk c);
  ur_dist : dist_wf (prev_dist ctx c);
  ur_events : ∀ pk, - sats_bound <
    sumZ (event_sats (stk c) pk <$> GetAllPowerDistUpdateEvents (stk c) last cur) < sats_bound;
  ur_sats : ∀ pk, satsIn (prev_dist ctx c) pk +
    sumZ (event_sats (stk c) pk <$> GetAllPowerDistUpdateEvents (stk c) last cur) < sats_bound;
  ur_max : 0 ≤ MaxActiveFinalityProviders (finalityParams (fin c)) < 2 ^ 32;
  ur_fresh : ∀ pk, power_entry (fin c) (CtxHeight ctx) pk = None
}.

(** The satoshis of a provider after the events. *)
Definition sats_after (ctx : Ctx) (c : Chain E) (last cur : Z) (pk : bytes) : Z :=
  let evs := GetAllPowerDistUpdateEvents (stk c) last cur in
  if decide (SlashedFp pk ∈ evs ∨ pk ∉ di_BtcPk <$> prev_dist ctx c ∧ fp_slashed (stk c) pk = true)
  then 0 else satsIn (prev_dist ctx c) pk + sumZ (event_sats (stk c) pk <$> evs).

(** The flag of a provider after the events. *)
Definition jailed_after (ctx : Ctx) (c : Chain E) (last cur : Z) (pk : bytes) : bool :=
  foldl (jail_event pk) (jailed_before (stk c) (prev_dist ctx c) pk) (GetAllPowerDistUpdateEvents (stk c) last cur).

(** The active providers of the previous block. *)
Definition prev_active (ctx : Ctx) (c : Chain E) : list FinalityProviderDistInfo :=
  activeFps (default NewVotingPowerDistCache (GetVotingPowerDistCache (fin c) (u64 (CtxHeight ctx - 1)))).

(** What an update does: the distribution [dc] of this height with its flags, the
    selection of the active providers, their voting power, their signing infos,
    the consumed events, and every other store. *)
Record power_updated (ctx : Ctx) (c c' : Chain E) (last cur : Z) (dc : VotingPowerDistCache) : Prop := {
  pu_wf : dist_wf (dc_FinalityProviders dc);
  pu_positive : Forall (λ fp, 0 < di_TotalBondedSat fp) (dc_FinalityProviders dc);
  pu_sats : ∀ pk, satsIn (dc_FinalityProviders dc) pk = sats_after ctx c last cur pk;
  pu_flags : Forall (λ fp, di_IsJailed fp = jailed_after ctx c last cur (di_BtcPk fp) ∧
    di_IsTimestamped fp =
      HasTimestampedPubRand (GetLastFinalizedEpoch (env c)) (fin c) (di_BtcPk fp) (CtxHeight ctx)) (dc_FinalityProviders dc);
  pu_active : Forall (λ fp, fp ∈ dc_FinalityProviders dc ∧ di_IsJailed fp = false ∧
    HasTimestampedPubRand (GetLastFinalizedEpoch (env c)) (fin c) (di_BtcPk fp) (CtxHeight ctx) = true) (activeFps dc);
  pu_max : Z.of_nat (length (activeFps dc)) ≤ MaxActiveFinalityProviders (finalityParams (fin c));
  pu_top : top_active dc (MaxActiveFinalityProviders (finalityParams (fin c)));
  pu_total : sumZ (di_TotalBondedSat <$> dc_FinalityProviders dc) < 2 ^ 64 →
    dc_TotalVotingPower dc = sumZ (di_TotalBondedSat <$> activeFps dc);
  pu_power : ∀ pk, GetVotingPower (fin c') pk (CtxHeight ctx) = satsIn (activeFps dc) pk;
  pu_other : ∀ h pk, h ≠ CtxHeight ctx → GetVotingPower (fin c') pk h = GetVotingPower (fin c) pk h;
  pu_caches : vpDistCaches (fin c') = <[CtxHeight ctx := dc]> (vpDistCaches (fin c));
  pu_infos : ∀ pk, signingInfos (fin c') !! pk =
    if decide (pk ∈ di_BtcPk <$> activeFps dc ∧ pk ∉ di_BtcPk <$> prev_active ctx c)
    then Some (started ctx pk (signingInfos (fin c) !! pk)) else signingInfos (fin c) !! pk;
  pu_stores : fin c' = mkFinality (blocks (fin c)) (votes (fin c)) (evidences (fin c)) (pubRands (fin c))
    (pubRandCommits (fin c)) (pubRandCommitIndex (fin c)) (signingInfos (fin c')) (missedBlocks (fin c))
    (votingPower (fin c')) (vpDistCaches (fin c')) (nextHeightToFinalize (fin c)) (nextHeightToReward (fin c))
    (finalityParams (fin c)) (finalityEvents (fin c'));
  pu_events : ∀ h, PowerDistUpdateEventsAt (stk c') h = if decide (last ≤ h ≤ cur) then [] else PowerDistUpdateEventsAt (stk c) h;
  pu_staking : stk c' = set_powerDistUpdateEvents (stk c) (powerDistUpdateEvents (stk c'))
}.

Lemma HasTimestampedPubRand_same f f' ep pk h :
  same_stores f f' → HasTimestampedPubRand ep f' pk h = HasTimestampedPubRand ep f pk h.
Proof using.
  intros [? ? ? ? Hc Hi ? ? ? ? ? ?]. unfold HasTimestampedPubRand, GetTimestampedPubRandCommitForHeight,
    GetPubRandCommitForHeight, commitsOf. by rewrite Hc, Hi.
Qed.

Lemma labelled_wf ep s h l : dist_wf l → dist_wf (labelled ep s h <$> l).
Proof using. intros [H1 H2 H3]. constructor; [by rewrite labelled_keys|by apply Forall_fmap..]. Qed.

Lemma dist_wf_perm l1 l2 : l1 ≡ₚ l2 → dist_wf l2 → dist_wf l1.
Proof using. intros Hp [H1 H2 H3]. by constructor; rewrite Hp. Qed.

Lemma hooks_frame ctx ps dc c c' ps' :
  processHooksBTCDelegation ctx ps dc c = Ok (c', ps') → fin c' = fin c ∧ stk c' = stk c.
Proof using.
  unfold processHooksBTCDelegation. intros H. apply bind_Ok in H as (a1 & _ & H).
  apply bind_Ok in H as (a2 & _ & H). by injection H as <- <-.
Qed.

(** Labels do not change the flags the events gave. *)
Lemma labelled_flags ep s h l (P : bytes → bool) :
  Forall (λ fp, di_IsJailed fp = P (di_BtcPk fp)) l →
  Forall (λ fp, di_IsJailed fp = P (di_BtcPk fp) ∧ di_IsTimestamped fp = HasTimestampedPubRand ep s (di_BtcPk fp) h)
    (labelled ep s h <$> l).
Proof using. intros H. apply Forall_fmap. eapply Forall_impl; [exact H|]. by intros fp Hfp. Qed.

Lemma UpdatePowerDist_updates ctx c c' last cur :
  update_ready ctx c last cur → UpdatePowerDist ctx c = Ok c' →
  (∃ dc, power_updated ctx c c' last cur dc) ∧
  sats_suffice (stk c) (prev_dist ctx c) (GetAllPowerDistUpdateEvents (stk c) last cur).
Proof using.
  intros [Hl Hc Hk Hd Hb1 Hb2 Hmax Hfresh] H. unfold UpdatePowerDist in H. cbv zeta in H.
  rewrite Hc, Hl in H. cbn [mbind outcome_bind] in H. unfold prev_dist in Hd, Hb2.
  set (dc0 := default NewVotingPowerDistCache _) in *. apply bind_Ok in H as ([dc1 ps] & Hproc & H).
  apply ProcessAll_distribution in Hproc as (Hwf1 & Hpos1 & Hsats1 & Hjail1 & Hsuff); [|done..]. split; [|exact Hsuff].
  pose proof (emit_same (fin c) (ps_Emitted ps)) as Hem. set (f1 := foldl emit (fin c) (ps_Emitted ps)) in *.
  assert (signingInfos f1 = signingInfos (fin c)) as Hinf1.
  { unfold f1. clear. generalize (fin c). induction (ps_Emitted ps) as [|ev l IH]; intros f; [done|]. cbn [foldl]. by rewrite IH. }
  cbn [set_fin fin env stk] in H.
  destruct (RecordVotingPowerAndCache ctx (GetLastFinalizedEpoch (env c)) f1 dc1) as [f2 dc2] eqn:Erec.
  apply RecordVotingPowerAndCache_spec in Erec as (R1 & R2 & R3 & R4 & R8 & R9 & R5 & R6 & R7);
    [|done|by rewrite (ss_params _ _ Hem)].
  apply bind_Ok in H as ([c3 ps3] & Hh & H). rewrite must_Ok in Hh. apply hooks_frame in Hh as [Ef3 Es3].
  simpl in Ef3, Es3. apply bind_Ok in H as (c4 & Hfp & H). pose proof (HandleFPStateUpdates_infos _ _ _ _ _ _ _ Hfp) as Hinf.
  apply HandleFPStateUpdates_frame in Hfp as [Hst4 Es4]. rewrite Ef3 in Hst4, Hinf. injection H as <-. exists dc2.
  assert (∀ h pk, power_entry (fin c4) h pk =
     if decide (h = CtxHeight ctx ∧ pk ∈ di_BtcPk <$> activeFps dc2)
     then Some (satsIn (activeFps dc2) pk) else power_entry (fin c) h pk) as Hpow.
  { intros h pk. unfold power_entry. rewrite (ss_power _ _ Hst4). fold (power_entry f2 h pk). rewrite R6.
    unfold power_entry. by rewrite (ss_power _ _ Hem). }
  destruct (clear_fold (stk c4) (seqZ last (cur - last + 1))) as [Hcl1 Hcl2]. rewrite Es4, Es3 in *.
  constructor; simpl.
  - apply (dist_wf_perm _ _ R1). by apply labelled_wf.
  - rewrite R1. by apply Forall_fmap.
  - intros pk. rewrite (satsIn_perm _ _ pk R1), labelled_sats. apply Hsats1.
  - rewrite R1. eapply Forall_impl; [apply (labelled_flags _ _ _ _ (jailed_after ctx c last cur)); exact Hjail1|].
    intros fp [? ->]. split; [done|]. by apply HasTimestampedPubRand_same.
  - apply Forall_forall. intros fp Hin. rewrite Forall_forall in R2. destruct (R2 fp Hin) as [Hz _].
    split; [by rewrite R1; apply R5|]. apply R5 in Hin. apply list_elem_of_fmap in Hin as (fp0 & -> & _).
    unfold shouldBeZeroed in Hz. simpl in *. rewrite (HasTimestampedPubRand_same _ _ _ _ _ Hem) in Hz.
    apply orb_false_iff in Hz as [[Hj Ht]%orb_false_iff _]. apply negb_false_iff in Ht. done.
  - by rewrite <- (ss_params _ _ Hem).
  - by rewrite <- (ss_params _ _ Hem).
  - intros Hsum. apply R9. rewrite R1 in Hsum. by rewrite <- list_fmap_compose in Hsum.
  - intros pk. unfold GetVotingPower. fold (power_entry (fin c4) (CtxHeight ctx) pk). rewrite Hpow, Hfresh.
    case_decide as Hd2; [done|]. simpl. rewrite satsIn_notin; [done|]. intros ?. by apply Hd2.
  - intros h pk Hne. unfold GetVotingPower. fold (power_entry (fin c4) h pk). rewrite Hpow.
    by rewrite decide_False by (by intros [? _]).
  - rewrite (ss_caches _ _ Hst4), R7. simpl. by rewrite (ss_caches _ _ Hem).
  - intros pk. rewrite Hinf. assert (signingInfos f2 = signingInfos (fin c)) as -> by (by rewrite R7). done.
  - destruct Hst4 as [B1 B2 B3 B4 B5 B6 B7 _ B9 B10 B11 B12]. destruct Hem as [A1 A2 A3 A4 A5 A6 A7 _ A9 A10 A11 A12].
    rewrite R7 in *. simpl in *. destruct (fin c4). simpl in *. congruence.
  - intros h. rewrite Hcl1. apply decide_ext. rewrite elem_of_seqZ. lia.
  - by rewrite Hcl2.
Qed.

(** C13: A slashed provider has no voting power. If a provider is slashed in the
    registry and, when it was in the previous distribution, its slashing event
    is among those processed, then after the update it is not in the
    distribution and has no voting power at this height. *)
Theorem slashed_has_no_power ctx c c' last cur pk :
  update_ready ctx c last cur → UpdatePowerDist ctx c = Ok c' →
  fp_slashed (stk c) pk = true →
  (pk ∈ di_BtcPk <$> prev_dist ctx c → SlashedFp pk ∈ GetAllPowerDistUpdateEvents (stk c) last cur) →
  GetVotingPower (fin c') pk (CtxHeight ctx) = 0 ∧
  ∃ dc, vpDistCaches (fin c') !! CtxHeight ctx = Some dc ∧ pk ∉ di_BtcPk <$> dc_FinalityProviders dc.
Proof using.
  intros Hr H Hs Hev. destruct (UpdatePowerDist_updates _ _ _ _ _ Hr H) as [[dc Hpu] _].
  assert (pk ∉ di_BtcPk <$> dc_FinalityProviders dc) as Hni.
  { intros (fp & -> & Hfp)%list_elem_of_fmap. pose proof (pu_sats _ _ _ _ _ _ Hpu (di_BtcPk fp)) as Hsat.
    pose proof (pu_positive _ _ _ _ _ _ Hpu) as Hpos. rewrite Forall_forall in Hpos. specialize (Hpos fp Hfp).
    rewrite satsIn_elem in Hsat by (done || apply (pu_wf _ _ _ _ _ _ Hpu)). unfold sats_after in Hsat.
    rewrite decide_True in Hsat; [lia|].
    destruct (decide (di_BtcPk fp ∈ di_BtcPk <$> prev_dist ctx c)); auto. }
  split; [|exists dc; split; [rewrite (pu_caches _ _ _ _ _ _ Hpu); apply lookup_insert_eq|done]].
  rewrite (pu_power _ _ _ _ _ _ Hpu). apply satsIn_notin. intros (fp & -> & Hfp)%list_elem_of_fmap.
  pose proof (pu_active _ _ _ _ _ _ Hpu) as Ha. rewrite Forall_forall in Ha. destruct (Ha fp Hfp) as [Hin _].
  apply Hni. by apply list_elem_of_fmap_2.
Qed.

(** ** The update does not halt the chain *)

Definition registered (stk : StakingState) (pk : bytes) : Prop :=
  length pk = 32%nat ∧ ∃ fp, finalityProviders stk !! pk = Some fp ∧ is_Some (AccAddressFromBech32 (fp_Addr fp)).

(** The queued delegation events refer to stored delegations under registered
    providers, whose addresses parse and whose quorum can be determined. *)
Definition events_ready (stk : StakingState) (evs : list EventPowerDistUpdate) : Prop :=
  ∀ h st, BtcDelStateUpdate h st ∈ evs →
    ∃ d, GetBTCDelegation stk h = Ok d ∧ is_Some (AccAddressFromBech32 (d_StakerAddr d)) ∧
      (∃ q, delHasQuorum stk d = Ok q) ∧ Forall (registered stk) (d_FpBtcPkList d).

(** Everything the processing state refers to is a registered provider. *)
Record refs_ok (stk : StakingState) (ps : ProcessingState) : Prop := {
  ro_deltas : ∀ k, is_Some (ps_DeltaSatsByFpBtcPk ps !! k) → ∃ pk, k = MarshalHex pk ∧ registered stk pk;
  ro_active : Forall (λ d, ∃ pk, dli_FpBtcPk d = MarshalHex pk ∧ registered stk pk) (ps_ActiveDelegations ps);
  ro_unbonding : Forall (λ d, ∃ pk, dli_FpBtcPk d = MarshalHex pk ∧ registered stk pk) (ps_UnbondingDelegations ps)
}.

Lemma refs_ok_add_delta stk ps pk d :
  refs_ok stk ps → registered stk pk → refs_ok stk (add_delta ps (MarshalHex pk) d).
Proof using.
  intros [H1 H2 H3] Hr. constructor; [|done..]. simpl. intros k. rewrite lookup_insert_is_Some.
  intros [<-|[_ ?]]; eauto.
Qed.

Lemma processActive_total stk ps d :
  refs_ok stk ps → is_Some (AccAddressFromBech32 (d_StakerAddr d)) → Forall (registered stk) (d_FpBtcPkList d) →
  ∃ ps', processPowerDistUpdateEventActive ps d = Ok ps' ∧ refs_ok stk ps'.
Proof using.
  intros Hps [a Ha] Hl. unfold processPowerDistUpdateEventActive.
  generalize dependent ps. induction Hl as [|pk l Hpk Hl IH]; intros ps Hps; [by exists ps|].
  cbn [foldM]. assert (∀ ps k x, AddActiveDelegation ps (d_StakerAddr d) k x =
    Ok (ps_set_active ps (ps_ActiveDelegations ps ++ [mkDelegationInfo a (MarshalHex k) x]))) as Hadd
    by (intros; unfold AddActiveDelegation, MustAccAddressFromBech32; by rewrite Ha).
  rewrite (Hadd ps). cbn [mbind outcome_bind].
  apply IH. apply refs_ok_add_delta; [|done]. destruct Hps as [H1 H2 H3]. constructor; [done| |done].
  simpl. apply Forall_app. split; [done|]. repeat constructor. by exists pk.
Qed.

Lemma processUnbond_total stk ps d :
  refs_ok stk ps → is_Some (AccAddressFromBech32 (d_StakerAddr d)) → Forall (registered stk) (d_FpBtcPkList d) →
  ∃ ps', processPowerDistUpdateEventUnbond ps d = Ok ps' ∧ refs_ok stk ps'.
Proof using.
  intros Hps [a Ha] Hl. unfold processPowerDistUpdateEventUnbond.
  generalize dependent ps. induction Hl as [|pk l Hpk Hl IH]; intros ps Hps; [by exists ps|].
  cbn [foldM]. assert (∀ ps k x, AddUnbondingDelegation ps (d_StakerAddr d) k x =
    Ok (ps_set_unbonding ps (ps_UnbondingDelegations ps ++ [mkDelegationInfo a (MarshalHex k) x]))) as Hadd
    by (intros; unfold AddUnbondingDelegation, MustAccAddressFromBech32; by rewrite Ha).
  rewrite (Hadd ps). cbn [mbind outcome_bind].
  apply IH. apply refs_ok_add_delta; [|done]. destruct Hps as [H1 H2 H3]. constructor; [done..|].
  simpl. apply Forall_app. split; [done|]. repeat constructor. by exists pk.
Qed.

Lemma processEvents_total stk evs ps :
  events_ready stk evs → refs_ok stk ps → ∃ ps', foldM (processEvent stk) ps evs = Ok ps' ∧ refs_ok stk ps'.
Proof using.
  revert ps. induction evs as [|ev evs IH]; intros ps Her Hps; [by exists ps|]. cbn [foldM].
  assert (∃ ps1, processEvent stk ps ev = Ok ps1 ∧ refs_ok stk ps1) as (ps1 & -> & Hps1).
  { destruct ev as [pk|pk|pk|h st]; try (eexists; split; [done|]; by destruct Hps).
    simpl. case_bool_decide as Est; [eexists; split; [done|]; by destruct Hps|].
    destruct (Her h st) as (d & Hd & Ha & (q & Hq) & Hl); [by left|].
    unfold processBtcDelUpdate. rewrite Hd. cbn [must mbind outcome_bind].
    destruct st; try (by exists ps); [by apply processActive_total|].
    rewrite Hq. cbn [mbind outcome_bind]. destruct q; [by apply processUnbond_total|by exists ps]. }
  cbn [mbind outcome_bind]. apply IH; [|done]. intros h st Hin. apply (Her h st). by right.
Qed.

Lemma processExpired_total stk evs ps :
  events_ready stk evs → refs_ok stk ps → (∀ h, h ∈ ps_ExpiredEvents ps → BtcDelStateUpdate h EXPIRED ∈ evs) →
  ∃ ps', processExpiredEvents stk ps = Ok ps' ∧ refs_ok stk ps'.
Proof using.
  intros Her Hps. unfold processExpiredEvents. generalize (ps_ExpiredEvents ps) as l. intros l. revert ps Hps.
  induction l as [|h l IH]; intros ps Hps Hl; [by exists ps|]. cbn [foldM].
  destruct (Her h EXPIRED) as (d & Hd & Ha & (q & Hq) & Hf); [apply Hl; by left|].
  rewrite Hd. cbn [must mbind outcome_bind]. rewrite Hq. cbn [mbind outcome_bind].
  assert (refs_ok stk (ps_emit ps (EventBTCDelegationExpired h))) as Hps0 by (by destruct Hps).
  assert (∀ h0, h0 ∈ l → BtcDelStateUpdate h0 EXPIRED ∈ evs) as Hl' by (intros h0 ?; apply Hl; by right).
  destruct (IsUnbondedEarly d); [by apply IH|]. destruct q; [|by apply IH].
  destruct (processUnbond_total stk _ d Hps0 Ha Hf) as (ps1 & -> & Hps1). by apply IH.
Qed.

Lemma ChangeDeltaSats_total v d :
  0 ≤ di_TotalBondedSat v < sats_bound → - sats_bound < d < sats_bound → 0 ≤ di_TotalBondedSat v + d →
  ChangeDeltaSats v d = Ok (with_sats v (di_TotalBondedSat v + d)).
Proof using. unfold sats_bound. intros. apply ChangeDeltaSats_Ok; unfold in_u64, in_i64; lia. Qed.

Lemma updateExistingFp_total dc ps fp :
  0 ≤ di_TotalBondedSat fp < sats_bound → deltas_bound ps →
  (ps_state ps (di_hex fp) ≠ STATE_SLASHED → 0 ≤ di_TotalBondedSat fp + delta_of ps (di_BtcPk fp)) →
  ∃ r, updateExistingFp (dc, ps) fp = Ok r.
Proof using.
  intros Hs Hd Hnn. unfold updateExistingFp.
  change (default 0 (ps_DeltaSatsByFpBtcPk ps !! di_hex fp)) with (delta_of ps (di_BtcPk fp)).
  destruct (ps_state ps (di_hex fp)); try (by eexists);
    (rewrite ChangeDeltaSats_total; [by eexists|done|apply Hd|by apply Hnn]).
Qed.

Lemma updateExisting_total l dc ps :
  NoDup (di_BtcPk <$> l) → Forall (λ fp, 0 ≤ di_TotalBondedSat fp < sats_bound) l → deltas_bound ps →
  Forall (λ fp, ps_state ps (di_hex fp) ≠ STATE_SLASHED →
                0 ≤ di_TotalBondedSat fp + delta_of ps (di_BtcPk fp)) l →
  ∃ r, foldM updateExistingFp (dc, ps) l = Ok r.
Proof using.
  revert dc ps. induction l as [|fp l IH]; intros dc ps Hnd Hb Hd Hnn; [by eexists|]. cbn [foldM].
  rewrite fmap_cons in Hnd. apply NoDup_cons in Hnd as [Hni Hnd]. apply Forall_cons in Hb as [Hb1 Hb].
  apply Forall_cons in Hnn as [Hn1 Hnn].
  destruct (updateExistingFp_total dc ps fp Hb1 Hd Hn1) as [[dc1 ps1] Hu]. rewrite Hu. cbn [mbind outcome_bind].
  apply updateExistingFp_inv in Hu as (_ & _ & E2); [|done..].
  apply IH; [done|done| |].
  - intros pk. rewrite E2. case_decide; [apply Hd|]. rewrite delete_delta_of. case_decide; [|apply Hd].
    unfold sats_bound. lia.
  - rewrite Forall_forall in Hnn |- *. intros fp' Hin Hst.
    assert (delta_of ps1 (di_BtcPk fp') = delta_of ps (di_BtcPk fp')) as ->.
    { rewrite E2. case_decide; [done|]. rewrite delete_delta_of, decide_False; [done|].
      intros Eq%MarshalHex_inj. apply Hni. rewrite <- Eq. by apply list_elem_of_fmap_2. }
    apply (Hnn fp' Hin). revert Hst. rewrite E2. by case_decide.
Qed.

Lemma loadFP_total stk cache pk :
  registered stk pk → fp_cache stk cache →
  ∃ cache' fp, loadFP stk cache (MarshalHex pk) = Ok (cache', fp) ∧ is_Some (AccAddressFromBech32 (fp_Addr fp)) ∧
    fp_cache stk cache'.
Proof using.
  intros [Hlen (fp & Hfp & Ha)] Hc.
  assert (∃ cache' fp', loadFP stk cache (MarshalHex pk) = Ok (cache', fp')) as (cache' & fp' & Hl).
  { unfold loadFP. destruct (cache !! MarshalHex pk) as [fp0|]; [by eauto|].
    rewrite NewBIP340PubKeyFromHex_MarshalHex by done. cbn [mbind outcome_bind].
    rewrite (proj2 (GetFinalityProvider_Ok stk pk fp) Hfp). by eauto. }
  exists cache', fp'. split; [done|]. apply loadFP_inv in Hl as [Hfp' Hc']; [|done].
  rewrite Hfp in Hfp'. by injection Hfp' as <-.
Qed.

Lemma addNewFp_total stk dc ps pk :
  registered stk pk → deltas_bound ps → fp_cache stk (ps_FpByBtcPk ps) →
  (fp_slashed stk pk = false → 0 ≤ delta_of ps pk) →
  ∃ r, addNewFp stk (dc, ps) (MarshalHex pk) = Ok r.
Proof using.
  intros Hr Hd Hc Hnn. unfold addNewFp.
  destruct (loadFP_total stk (ps_FpByBtcPk ps) pk Hr Hc) as (cache' & fp & Hl & [a Ha] & _).
  rewrite Hl. cbn [must mbind outcome_bind]. apply loadFP_inv in Hl as [Hfp _]; [|done].
  destruct (IsSlashed fp) eqn:Es; [by eexists|]. unfold NewFinalityProviderDistInfo. rewrite Ha.
  cbn [mbind outcome_bind]. rewrite jail_switch.
  change (default 0 (ps_DeltaSatsByFpBtcPk (ps_set_fps ps cache') !! MarshalHex pk)) with (delta_of ps pk).
  rewrite ChangeDeltaSats_total; [by eexists|simpl; unfold sats_bound; lia|apply Hd|]. simpl.
  rewrite Z.add_0_l. apply Hnn. unfold fp_slashed. by rewrite Hfp.
Qed.

Lemma addNew_total stk pks dc ps :
  fps_keyed stk → Forall (registered stk) pks → deltas_bound ps → fp_cache stk (ps_FpByBtcPk ps) →
  Forall (λ pk, fp_slashed stk pk = false → 0 ≤ delta_of ps pk) pks →
  ∃ r, foldM (addNewFp stk) (dc, ps) (MarshalHex <$> pks) = Ok r.
Proof using.
  intros Hk. revert dc ps. induction pks as [|pk pks IH]; intros dc ps Hr Hd Hc Hnn; [by eexists|].
  rewrite fmap_cons. cbn [foldM]. apply Forall_cons in Hr as [Hr1 Hr]. apply Forall_cons in Hnn as [Hn1 Hnn].
  destruct (addNewFp_total stk dc ps pk Hr1 Hd Hc Hn1) as [[dc1 ps1] Ha]. rewrite Ha. cbn [mbind outcome_bind].
  apply addNewFp_inv in Ha as (_ & (cache & -> & Hc1) & _); [|done..]. by apply IH.
Qed.

Lemma FillByPrev_refs stk dc : refs_ok stk (FillByPrevVpDstCache NewProcessingState dc).
Proof using.
  assert (∀ ps idx, refs_ok stk ps → refs_ok stk (foldl (λ '(ps, idx) fp,
     let ps := if idx <? dc_NumActiveFps dc
               then ps_set_prev ps ({[di_hex fp]} ∪ ps_PrevActiveFpByBtcPk ps) else ps in
     (AddStateForFp ps fp, idx + 1)) (ps, idx) (dc_FinalityProviders dc)).1) as Hgen.
  { induction (dc_FinalityProviders dc) as [|fp l IH]; intros ps idx [H1 H2 H3]; [done|]. cbn [foldl].
    apply IH. unfold AddStateForFp. destruct (idx <? _), (di_IsSlashed fp), (di_IsJailed fp); by constructor. }
  apply Hgen. constructor; simpl; [|constructor..]. intros k [? Hk]. by rewrite lookup_empty in Hk.
Qed.

Lemma refs_ok_slashed stk ps : refs_ok stk ps → refs_ok stk (processSlashedEvents ps).
Proof using.
  unfold processSlashedEvents. generalize (ps_SlashedEvents ps) as l. intros l. revert ps.
  induction l as [|pk l IH]; intros ps Hps; [done|]. cbn [foldl]. apply IH. by destruct Hps.
Qed.

(** The two loops over the providers only drop deltas and fill the cache. *)
Lemma updateExisting_refs stk l acc acc' :
  foldM updateExistingFp acc l = Ok acc' → refs_ok stk acc.2 → refs_ok stk acc'.2.
Proof using.
  intros H Hps. revert H. apply (foldM_invariant (λ acc, refs_ok stk acc.2)); [|done].
  intros [dc ps] fp [dc' ps'] _ [H1 H2 H3] H. cbn [snd] in *. unfold updateExistingFp in H.
  assert (∀ k, is_Some (delete (di_hex fp) (ps_DeltaSatsByFpBtcPk ps) !! k) →
               ∃ pk, k = MarshalHex pk ∧ registered stk pk) as Hdel.
  { intros k [v [_ Hv]%lookup_delete_Some]. apply H1. by eexists. }
  destruct (ps_state ps (di_hex fp)); try (by injection H as <- <-);
    apply bind_Ok in H as (fp1 & _ & H); injection H as <- <-; by constructor.
Qed.

Lemma addNew_refs stk pks acc acc' :
  foldM (addNewFp stk) acc (MarshalHex <$> pks) = Ok acc' → fp_cache stk (ps_FpByBtcPk acc.2) →
  refs_ok stk acc.2 → refs_ok stk acc'.2 ∧ fp_cache stk (ps_FpByBtcPk acc'.2).
Proof using.
  intros H Hc Hps. revert H.
  apply (foldM_invariant (λ acc, refs_ok stk acc.2 ∧ fp_cache stk (ps_FpByBtcPk acc.2))); [|done].
  intros [dc ps] hex [dc' ps'] Hin [[H1 H2 H3] Hc'] H. apply list_elem_of_fmap in Hin as (pk & -> & _).
  unfold addNewFp in H. cbn [snd] in *. apply bind_Ok in H as ([cache fp] & Hl & H). rewrite must_Ok in Hl.
  apply loadFP_inv in Hl as [_ Hc2]; [|done].
  destruct (IsSlashed fp); [injection H as <- <-; split; [by constructor|done]|].
  apply bind_Ok in H as (i1 & _ & H). apply bind_Ok in H as (i2 & _ & H). injection H as <- <-.
  split; [by constructor|done].
Qed.

Lemma ProcessAll_total stk dc last cur :
  let evs := GetAllPowerDistUpdateEvents stk last cur in
  fps_keyed stk → dist_wf (dc_FinalityProviders dc) →
  (∀ pk, - sats_bound < sumZ (event_sats stk pk <$> evs) < sats_bound) →
  events_ready stk evs →
  (∀ pk, SlashedFp pk ∉ evs → pk ∈ di_BtcPk <$> dc_FinalityProviders dc ∨ fp_slashed stk pk = false →
     0 ≤ satsIn (dc_FinalityProviders dc) pk + sumZ (event_sats stk pk <$> evs)) →
  ∃ newDc ps, ProcessAllPowerDistUpdateEvents stk dc last cur = Ok (newDc, ps) ∧
    refs_ok stk ps ∧ fp_cache stk (ps_FpByBtcPk ps).
Proof using.
  intros evs Hk [Hnd Hsats Hns] Hb Her Hnn. unfold ProcessAllPowerDistUpdateEvents. cbv zeta.
  set (ps0 := FillByPrevVpDstCache NewProcessingState dc).
  pose proof (FillByPrev_refs stk dc) as Hr0. fold ps0 in Hr0.
  destruct (processEvents_total stk evs ps0 Her Hr0) as (ps1 & H1 & Hr1).
  assert (foldM (λ ps h, processEventsAtHeight stk h ps) ps0 (seqZ last (cur - last + 1)) = Ok ps1) as H1'
    by (rewrite foldM_heights; exact H1).
  rewrite H1'. cbn [mbind outcome_bind].
  destruct (processExpired_total stk evs ps1 Her Hr1) as (ps2 & H2 & Hr2).
  { destruct (FillByPrev_spec NewProcessingState dc) as (F1 & _ & F3 & _ & _). fold ps0 in F1, F3. simpl in F1, F3.
    apply processEvents_steps in H1 as [_ _ A3 _ _ _ _].
    - rewrite A3, F3. simpl. intros h (ev & Hh & Hev)%list_elem_of_bind.
      destruct ev as [?|?|?|h' []]; simpl in Hh; try by apply elem_of_nil in Hh.
      by apply list_elem_of_singleton in Hh as ->.
    - split; [intros pk; unfold delta_of; rewrite F1, lookup_empty; simpl; unfold in_i64; lia|].
      rewrite F1. intros k [? Hl]. by rewrite lookup_empty in Hl. }
  rewrite H2. cbn [mbind outcome_bind].
  destruct (processed_events stk dc last cur ps1 ps2) as [Ed Es Ek Ef Ej]; [done..|]. fold evs in Ed, Es, Ej.
  pose proof (refs_ok_slashed stk ps2 Hr2) as Hr. set (ps := processSlashedEvents ps2) in *.
  assert (deltas_bound ps) as Hdb by (intros pk; rewrite Ed; apply Hb).
  assert (Forall (λ fp, ps_state ps (di_hex fp) ≠ STATE_SLASHED →
     0 ≤ di_TotalBondedSat fp + delta_of ps (di_BtcPk fp)) (dc_FinalityProviders dc)) as Hex.
  { apply Forall_forall. intros fp Hin Hst. unfold di_hex in Hst. rewrite Es in Hst. rewrite Ed.
    rewrite <- (satsIn_elem _ _ Hnd Hin). apply Hnn; [done|]. left. by apply list_elem_of_fmap_2. }
  destruct (updateExisting_total (dc_FinalityProviders dc) NewVotingPowerDistCache ps Hnd Hsats Hdb Hex) as [[dc1 ps3] H3].
  rewrite H3. cbn [mbind outcome_bind snd]. pose proof (updateExisting_refs stk _ _ _ H3 Hr) as Hr3. cbn [snd] in Hr3.
  apply updateExisting_fold in H3 as (_ & _ & U3 & U4 & U5); [|done..].
  destruct (newFpList_keys ps3) as (pks & -> & Hndp & Hinp).
  { intros k Hs. destruct (ro_deltas _ _ Hr3 k Hs) as (pk & -> & _). by exists pk. }
  assert (fp_cache stk (ps_FpByBtcPk ps3)) as Hc3 by (by rewrite U4, Ef).
  assert (∀ pk, delta_of ps3 pk = 0 ∨ delta_of ps3 pk = delta_of ps pk) as Hd3.
  { intros pk. unfold delta_of. rewrite U5. case_decide; auto. }
  assert (∀ pk, pk ∈ pks → SlashedFp pk ∉ evs ∧ delta_of ps3 pk = delta_of ps pk ∧
            pk ∉ di_BtcPk <$> dc_FinalityProviders dc) as Hpk3.
  { intros pk [Hst Hs]%Hinp. unfold ps_state in Hst. rewrite U3 in Hst. fold (ps_state ps (MarshalHex pk)) in Hst.
    rewrite Es in Hst. rewrite U5 in Hs. case_decide as Hd; [by destruct Hs|].
    split_and!; [done|unfold delta_of; by rewrite U5, decide_False|].
    intros Hin. apply Hd. rewrite hex_elem, Es. done. }
  destruct (addNew_total stk pks dc1 ps3) as [[dc4 ps4] H4]; [done| | |done| |].
  - apply Forall_forall. intros pk [_ Hs]%Hinp. destruct (ro_deltas _ _ Hr3 _ Hs) as (pk' & ->%MarshalHex_inj & ?). done.
  - intros pk. destruct (Hd3 pk) as [->| ->]; [unfold sats_bound; lia|apply Hdb].
  - apply Forall_forall. intros pk Hin Hfs. destruct (Hpk3 pk Hin) as (Hsl & -> & Hni). rewrite Ed.
    pose proof (Hnn pk Hsl (or_intror Hfs)) as Hge. by rewrite satsIn_notin in Hge.
  - exists dc4, ps4. split; [done|]. by apply (addNew_refs stk pks _ _ H4).
Qed.

(** The hooks of the modules above never fail. *)
Record hooks_total : Prop := {
  ht_unbonded : ∀ ctx e a1 a2 b1 b2 n, ∃ e', AfterBtcDelegationUnbonded hooks ctx e a1 a2 b1 b2 n = Ok e';
  ht_activated : ∀ ctx e a1 a2 b1 b2 n, ∃ e', AfterBtcDelegationActivated hooks ctx e a1 a2 b1 b2 n = Ok e';
  ht_enters : ∀ ctx e a, ∃ e', AfterBbnFpEntersActiveSet hooks ctx e a = Ok e';
  ht_removed : ∀ ctx e a, ∃ e', AfterBbnFpRemovedFromActiveSet hooks ctx e a = Ok e'
}.

Lemma processBtcDelHook_total ctx stk active hookFn e ps dels :
  (∀ ctx e a1 a2 b1 b2 n, ∃ e', hookFn ctx e a1 a2 b1 b2 n = Ok e') →
  fp_cache stk (ps_FpByBtcPk ps) → Forall (λ d, ∃ pk, dli_FpBtcPk d = MarshalHex pk ∧ registered stk pk) dels →
  ∃ e' ps', processBtcDelHook ctx stk active hookFn (e, ps) dels = Ok (e', ps') ∧
    fp_cache stk (ps_FpByBtcPk ps').
Proof using.
  intros Hh Hc Hd. revert e ps Hc. induction Hd as [|d dels (pk & Hpk & Hr) _ IH]; intros e ps Hc; [by eexists _, _|].
  unfold processBtcDelHook. cbn [foldM]. rewrite Hpk.
  destruct (loadFP_total stk (ps_FpByBtcPk ps) pk Hr Hc) as (cache' & fp & -> & [a Ha] & Hc').
  cbn [wrapf mbind outcome_bind]. unfold MustAccAddressFromBech32. rewrite Ha. cbn [mbind outcome_bind].
  edestruct Hh as [e' He]. rewrite He. cbn [wrapf mbind outcome_bind]. by apply IH.
Qed.

Lemma processHooks_total ctx ps newDc c :
  hooks_total → refs_ok (stk c) ps → fp_cache (stk c) (ps_FpByBtcPk ps) →
  ∃ r, processHooksBTCDelegation ctx ps newDc c = Ok r.
Proof using.
  intros Hh [_ Ha Hu] Hc. unfold processHooksBTCDelegation. cbv zeta.
  destruct (processBtcDelHook_total ctx (stk c) (ActiveFpsByBtcPk newDc) (AfterBtcDelegationActivated hooks)
              (env c) ps _ (ht_activated Hh) Hc Ha) as (e1 & ps1 & -> & Hc1).
  cbn [mbind outcome_bind].
  destruct (processBtcDelHook_total ctx (stk c) (ActiveFpsByBtcPk newDc) (AfterBtcDelegationUnbonded hooks)
              e1 ps1 _ (ht_unbonded Hh) Hc1 Hu) as (e2 & ps2 & -> & _).
  by eexists.
Qed.

Lemma foldM_total {A B} (f : A → B → outcome A) l a :
  (∀ a b, ∃ a', f a b = Ok a') → ∃ a', foldM f a l = Ok a'.
Proof using.
  intros Hf. revert a. induction l as [|b l IH]; intros a; [by eexists|]. cbn [foldM].
  destruct (Hf a b) as [a' ->]. apply IH.
Qed.

Lemma HandleFPStateUpdates_total ctx ps prevDc newDc b c :
  hooks_total → ∃ c', HandleFPStateUpdates ctx (Some ps) prevDc newDc b c = Ok c'.
Proof using.
  intros Hh. unfold HandleFPStateUpdates.
  destruct (foldM_total (λ c fp, processActiveFp ctx c fp b) (FindNewActiveFinalityProviders newDc prevDc) c) as [c1 ->].
  { intros c0 fp. unfold processActiveFp. cbv zeta. destruct b; [|by eexists]. cbn [negb].
    destruct (ht_enters Hh ctx (env (set_fin c0 (emit (HandleActivatedFinalityProvider ctx (fin c0) (di_BtcPk fp))
      (EventFinalityProviderStatusChange (di_BtcPk fp) FP_ACTIVE)))) (di_Addr fp)) as [e ->]. by eexists. }
  cbn [mbind outcome_bind]. apply foldM_total. intros c0 fp. unfold processInactiveFp, isFpSlashedOrJailed.
  destruct (ht_removed Hh ctx (env c0) (di_Addr fp)) as [e He].
  destruct b, (IsFpInPrevActiveSet ps (di_BtcPk fp)), (di_IsJailed fp || di_IsSlashed fp);
    rewrite ?He; cbn [must mbind outcome_bind]; try (case_bool_decide); by eexists.
Qed.

Lemma UpdatePowerDist_total ctx c last cur :
  let evs := GetAllPowerDistUpdateEvents (stk c) last cur in
  update_ready ctx c last cur → events_ready (stk c) evs → sats_suffice (stk c) (prev_dist ctx c) evs → hooks_total →
  ∃ c', UpdatePowerDist ctx c = Ok c'.
Proof using.
  intros evs [Hl Hc Hk Hd Hb1 Hb2 Hmax Hfresh] Hev Hnn Hh. unfold UpdatePowerDist. cbv zeta. rewrite Hc, Hl.
  cbn [mbind outcome_bind]. unfold prev_dist in Hd, Hb2, Hnn. set (dc0 := default NewVotingPowerDistCache _) in *.
  destruct (ProcessAll_total (stk c) dc0 last cur) as (dc1 & ps & -> & Hrefs & Hcache); [done..|].
  cbn [mbind outcome_bind].
  destruct (RecordVotingPowerAndCache _ _ _ dc1) as [f2 dc2].
  destruct (processHooks_total ctx ps dc2 (set_fin (set_fin c (foldl emit (fin c) (ps_Emitted ps))) f2) Hh Hrefs Hcache)
    as [[c3 ps3] ->]. cbn [must mbind outcome_bind].
  destruct (HandleFPStateUpdates_total ctx ps3 dc0 dc2 true c3 Hh) as [c4 ->]. by eexists.
Qed.

(** C12: The begin blocker's update of the voting power. Assume that the Bitcoin
    heights of the previous and of this block are recorded, that providers are
    filed under their own keys, that the previous distribution has distinct,
    unslashed providers, that the satoshis recorded and those of the queued events
    stay below 2^62, that the limit on active providers is a uint32 and that this
    height has no voting power yet. When the update returns, the queued events took
    from no provider more satoshis than it had, and the new distribution holds
    exactly the providers with a positive amount, each with its previous satoshis
    plus what the processed events add and remove, none for a slashed one; each is
    jailed as its previous flag (for a newcomer the registry's) and the jail and
    unjail events in their order say, and timestamped as its committed randomness
    is. The active providers are the unjailed, timestamped ones with the most
    satoshis (on equal satoshis the smaller key), as many as there are up to the
    limit; the voting power of the height is that of these and the total is their
    sum (when all satoshis sum to a uint64). Those newly active have their signing
    information started at this height. The events processed are consumed and no
    others. Nothing else changes in the staking and finality stores, apart from
    emitted events. Conversely the update does return, neither with an error nor
    with a panic (which would halt the chain), when the events take from no
    provider more satoshis than it has, refer to stored delegations of registered
    providers, and the hooks of the modules above do not fail. What the hooks do to
    other modules is not described here. *)
Theorem UpdatePowerDist_correct ctx c last cur :
  let evs := GetAllPowerDistUpdateEvents (stk c) last cur in
  update_ready ctx c last cur →
  (∀ c', UpdatePowerDist ctx c = Ok c' →
     sats_suffice (stk c) (prev_dist ctx c) evs ∧ ∃ dc, power_updated ctx c c' last cur dc) ∧
  (sats_suffice (stk c) (prev_dist ctx c) evs → events_ready (stk c) evs → hooks_total →
     ∃ c', UpdatePowerDist ctx c = Ok c').
Proof using.
  intros evs Hr. split.
  - intros c' Hok. by destruct (UpdatePowerDist_updates _ _ _ _ _ Hr Hok).
  - intros Hs Hev Hh. by apply (UpdatePowerDist_total ctx c last cur).
Qed.

End power_dist.

(** ** Witnesses

    At block 6 provider A gets its first delegation while B, active so far, was
    slashed in the previous block. *)

Definition example_fpA : bytes := replicate 32 "001"%byte.
Definition example_fpB : bytes := replicate 32 "002"%byte.
Definition example_ctxP : Ctx := mkCtx 6 [] 0.
Definition example_delA : BTCDelegation := example_del [example_fpA] example_hash1 None.
Definition example_eventsP : list EventPowerDistUpdate :=
  [BtcDelStateUpdate (hex_encode example_hash1) ACTIVE; SlashedFp example_fpB].
Definition example_stkP : StakingState :=
  mkStaking (<[example_fpA := example_fp example_fpA]>
      {[example_fpB := with_slashed (example_fp example_fpB) 5 99]}) ∅ ∅
    {[100 := list_to_map (zip [0; 1] example_eventsP)]} {[5 := 99; 6 := 100]}
    {[example_hash1 := example_delA]} {[0 := example_params]} None None ∅ ∅.
Definition example_finP : FinalityState :=
  set_pubRandCommitIndex (set_pubRandCommits
    (SetVotingPowerDistCache (empty_finality DefaultFinalityParams) 5
       (mkDistCache 30000 [example_info "002" 30000 true false false] 1))
    {[example_fpA := {[1 := mkPubRandCommit 1 100 [] 2]}]}) {[example_fpA := [1]]}.
Definition example_chainP : Chain unit := mkChain example_finP example_stkP tt.
Definition example_addr (a : string) : option bytes := Some ["001"%byte].

Lemma example_stkP_fps pk fp : finalityProviders example_stkP !! pk = Some fp →
  pk = example_fpA ∧ fp = example_fp example_fpA ∨
  pk = example_fpB ∧ fp = with_slashed (example_fp example_fpB) 5 99.
Proof.
  cbn [finalityProviders example_stkP].
  intros [[<- <-]|[_ [<- <-]%lookup_singleton_Some]]%lookup_insert_Some; auto.
Qed.

Lemma example_eventsP_eq : GetAllPowerDistUpdateEvents example_stkP 99 100 = example_eventsP.
Proof. vm_compute. reflexivity. Qed.

Lemma example_prevP : prev_dist example_ctxP example_chainP = [example_info "002" 30000 true false false].
Proof. vm_compute. reflexivity. Qed.

Lemma example_satsP pk :
  0 ≤ sumZ (@event_sats example_hashing example_stkP pk <$> example_eventsP) ≤ 50000 ∧
  0 ≤ satsIn [example_info "002" 30000 true false false] pk ≤ 30000.
Proof.
  assert (@GetBTCDelegation example_hashing example_stkP (hex_encode example_hash1) = Ok example_delA) as Hd
    by (vm_compute; reflexivity).
  unfold example_eventsP, event_sats, satsIn. cbn [fmap list_fmap]. rewrite Hd. unfold del_sats. simpl.
  rewrite !filter_cons. repeat case_decide; vm_compute; intuition discriminate.
Qed.

Lemma example_ready : @update_ready example_hashing unit example_env example_ctxP example_chainP 99 100.
Proof.
  constructor.
  - vm_compute. reflexivity.
  - vm_compute. reflexivity.
  - intros pk fp [[-> ->]|[-> ->]]%example_stkP_fps; done.
  - rewrite example_prevP. constructor; repeat constructor; simpl; try done. by apply not_elem_of_nil.
  - intros pk. cbn [stk example_chainP]. rewrite example_eventsP_eq. pose proof (example_satsP pk).
    unfold sats_bound. lia.
  - intros pk. cbn [stk example_chainP]. rewrite example_eventsP_eq, example_prevP. pose proof (example_satsP pk).
    unfold sats_bound. lia.
  - simpl. lia.
  - done.
Qed.

Lemma example_events_ready :
  @events_ready example_hashing example_addr example_stkP (GetAllPowerDistUpdateEvents example_stkP 99 100).
Proof.
  intros h st. rewrite example_eventsP_eq. intros Hin.
  apply elem_of_cons in Hin as [[= -> ->]|Hin]; [|by apply list_elem_of_singleton in Hin].
  exists example_delA. split_and!; [by vm_compute|by eexists|eexists; by vm_compute|].
  repeat constructor. by eexists.
Qed.

Lemma UpdatePowerDist_correct_witness : ∃ c' dc,
  UpdatePowerDist (hashing := example_hashing) (fenv := example_env) example_addr example_ctxP example_chainP = Ok c' ∧
  power_updated (hashing := example_hashing) (fenv := example_env) example_ctxP example_chainP c' 99 100 dc ∧
  GetVotingPower (fin c') example_fpA 6 = 50000.
Proof.
  destruct (UpdatePowerDist_correct (hashing := example_hashing) (fenv := example_env) example_addr
              example_ctxP example_chainP 99 100 example_ready) as [Hupd Hret].
  destruct Hret as [c' Hok].
  - intros pk _ _. cbn [stk example_chainP]. rewrite example_eventsP_eq, example_prevP.
    pose proof (example_satsP pk). lia.
  - exact example_events_ready.
  - constructor; intros; by eexists.
  - destruct (Hupd c' Hok) as [_ [dc Hpu]]. exists c', dc. split; [exact Hok|]. split; [exact Hpu|].
    assert (match UpdatePowerDist (hashing := example_hashing) (fenv := example_env) example_addr example_ctxP example_chainP with
            | Ok c => GetVotingPower (fin c) example_fpA 6 = 50000 | _ => False end) as H by (vm_compute; reflexivity).
    rewrite Hok in H. exact H.
Defined.

Lemma slashed_has_no_power_witness : ∃ c',
  UpdatePowerDist (hashing := example_hashing) (fenv := example_env) example_addr example_ctxP example_chainP = Ok c' ∧
  GetVotingPower (fin c') example_fpB 6 = 0.
Proof.
  assert (is_ok (UpdatePowerDist (hashing := example_hashing) (fenv := example_env) example_addr example_ctxP
                   example_chainP) = true) as H by (vm_compute; reflexivity).
  destruct (UpdatePowerDist (hashing := example_hashing) (fenv := example_env) example_addr example_ctxP example_chainP)
    as [c'|e|e] eqn:Hok; [|discriminate H..].
  exists c'. split; [reflexivity|].
  apply (slashed_has_no_power (hashing := example_hashing) (fenv := example_env) example_addr
           example_ctxP example_chainP c' 99 100 example_fpB example_ready Hok).
  - vm_compute. reflexivity.
  - intros _. cbn [stk example_chainP]. rewrite example_eventsP_eq. right. left.
Defined.
