(* ===== verification/EndBlock.v ===== *)
(** * x/finality/abci.go and keeper/rewarding.go: begin and end blocker

    The end blocker tallies the blocks that are not final yet, tracks the
    liveness of the voters of an old height and pays the rewards of finalised
    blocks. Rewarding keeps its own cursor; together with the invariant of the
    finalisation loop this gives that each finalised block is rewarded once. *)

From S2P Require Import Prelude Bytes Store BbnTypes BtcStaking Delegations FinalityTypes PowerTable.
From S2P Require Import FinalityStore Tally Liveness PubRand PowerDist.

Section end_block.
Context {rounding : DecRounding} {hashing : BtcHashing}.
Context {E : Type} {fenv : FinalityEnv E}.

(** ** Rewarding *)

(** The commission the registry has now; a provider it does not have keeps the
    recorded one. *)
Definition refreshCommission (stk : StakingState) (fp : FinalityProviderDistInfo) : FinalityProviderDistInfo :=
  match GetFinalityProvider stk (di_BtcPk fp) with
  | Ok currentFP => with_di_commission fp (fp_Commission currentFP)
  | _ => fp
  end.

Definition refreshFPCommissions (stk : StakingState) (dc : VotingPowerDistCache) : outcome VotingPowerDistCache :=
  let fps := dc_FinalityProviders dc in
  if Z.of_nat (length fps) <? dc_NumActiveFps dc then Panic (Errorf "index out of range")
  else
    let n := Z.to_nat (dc_NumActiveFps dc) in
    Ok (mkDistCache (dc_TotalVotingPower dc) ((refreshCommission stk <$> take n fps) ++ drop n fps)
          (dc_NumActiveFps dc)).

Definition rewardBTCStaking (c : Chain E) (height : Z) : outcome (Chain E) :=
  match GetVotingPowerDistCache (fin c) height with
  | None => Panic (Errorf "voting power distribution cache not found")
  | Some dc =>
    dc ← refreshFPCommissions (stk c) dc;
    voterBTCPKs ← GetVoters (fin c) height;
    e ← RewardBTCStaking (env c) height dc voterBTCPKs;
    Ok (set_env (set_fin c (RemoveVotingPowerDistCache (fin c) height)) e)
  end.

(** The loop over the heights [height, height + 1, ...], [n] of them; blocks that
    are not finalised are passed over. *)
Fixpoint rewardingLoop (n : nat) (height nextHeightToReward : Z) (c : Chain E) : outcome (Z * Chain E) :=
  match n with
  | O => Ok (nextHeightToReward, c)
  | S n =>
    block ← must (GetBlock (fin c) height);
    if negb (ib_Finalized block) then rewardingLoop n (height + 1) nextHeightToReward c
    else
      c ← rewardBTCStaking c height;
      rewardingLoop n (height + 1) (u64 (height + 1)) c
  end.

Definition HandleRewarding (c : Chain E) (targetHeight maxRewardedBlocks : Z) : outcome (Chain E) :=
  nextHeightToReward ←
    (if GetNextHeightToReward (fin c) =? 0 then must (GetBTCStakingActivatedHeight (fin c))
     else Ok (GetNextHeightToReward (fin c)));
  let maxHeightToReward := Z.min (u64 (u64 (nextHeightToReward + maxRewardedBlocks) - 1)) (u64 targetHeight) in
  r ← rewardingLoop (Z.to_nat (maxHeightToReward - nextHeightToReward + 1)) nextHeightToReward nextHeightToReward c;
  let '(next, c) := (r : Z * Chain E) in
  if next =? nextHeightToReward then Ok c else Ok (set_fin c (SetNextHeightToReward (fin c) next)).

(** ** The blockers *)

Definition BeginBlocker (AccAddressFromBech32 : string → option bytes) (ctx : Ctx) (c : Chain E)
    : outcome (Chain E) := UpdatePowerDist AccAddressFromBech32 ctx c.


(** ** Rewarding is exact *)

(** The payment of one height: the recorded distribution with the present
    commissions, and the voters of the height. *)
Definition payment (stk : StakingState) (s : FinalityState) (e : E) (height : Z) : outcome E :=
  match GetVotingPowerDistCache s height with
  | None => Panic (Errorf "voting power distribution cache not found")
  | Some dc =>
    dc ← refreshFPCommissions stk dc;
    voterBTCPKs ← GetVoters s height;
    RewardBTCStaking e height dc voterBTCPKs
  end.

Definition isFinal (s : FinalityState) (h : Z) : Prop := ib_Finalized <$> blocks s !! h = Some true.
#[local] Instance isFinal_dec s h : Decision (isFinal s h).
Proof using. unfold isFinal. apply _. Defined.

(** A height whose reward can be paid. *)
Definition payable (s : FinalityState) (h : Z) : Prop :=
  ∃ dc, GetVotingPowerDistCache s h = Some dc ∧ dc_NumActiveFps dc ≤ Z.of_nat (length (dc_FinalityProviders dc)).

Definition finals (s : FinalityState) (h n : Z) : list Z := filter (isFinal s) (seqZ h n).

Lemma finals_cons s h n :
  0 < n → finals s h n = (if decide (isFinal s h) then [h] else []) ++ finals s (h + 1) (n - 1).
Proof using.
  intros Hn. unfold finals. rewrite seqZ_cons by lia. rewrite filter_cons, <- Z.add_1_r, <- Z.sub_1_r.
  by case_decide.
Qed.

Lemma elem_of_finals s h n k : k ∈ finals s h n ↔ isFinal s k ∧ h ≤ k < h + n.
Proof using. unfold finals. by rewrite list_elem_of_filter, elem_of_seqZ. Qed.

(** Paying a height leaves the payments of the others as they are. *)
Lemma payment_removed stk s e h h' :
  h ≠ h' → payment stk (RemoveVotingPowerDistCache s h) e h' = payment stk s e h'.
Proof using.
  intros Hne. unfold payment, RemoveVotingPowerDistCache, GetVotingPowerDistCache. simpl.
  by rewrite lookup_delete_ne.
Qed.

Lemma rewardBTCStaking_pays c h :
  rewardBTCStaking c h =
  (e ← payment (stk c) (fin c) (env c) h; Ok (set_env (set_fin c (RemoveVotingPowerDistCache (fin c) h)) e)).
Proof using.
  unfold payment, rewardBTCStaking. destruct (GetVotingPowerDistCache (fin c) h) as [dc|]; [|done].
  destruct (refreshFPCommissions (stk c) dc) as [dc'| |]; [|done..]. cbn [mbind outcome_bind].
  by destruct (GetVoters (fin c) h).
Qed.

(** After the payments of the heights [before], the reward keeper refuses the one of
    [h], and [y] fails as it does. *)
Definition reward_refused {A} (s : FinalityState) (e0 : E) (h : Z) (y : outcome A) : Prop :=
  ∃ st before e dc dc' voters, foldM (payment st s) e0 before = Ok e ∧
    GetVotingPowerDistCache s h = Some dc ∧ refreshFPCommissions st dc = Ok dc' ∧
    GetVoters s h = Ok voters ∧ same_failure (RewardBTCStaking e h dc' voters) y.

(** A payable height is not paid only when the reward keeper refuses. *)
Lemma payment_refused {A} st s e0 before e h (y : outcome A) :
  tables_wf s → payable s h → foldM (payment st s) e0 before = Ok e → same_failure (payment st s e h) y →
  reward_refused s e0 h y.
Proof using.
  intros Hwf (dc & Hdc & Hn) Hbefore H. unfold payment in H. rewrite Hdc in H.
  destruct (GetVoters_wf s h Hwf) as (voters & Hv & _). unfold refreshFPCommissions in H.
  destruct (Z.ltb_spec (Z.of_nat (length (dc_FinalityProviders dc))) (dc_NumActiveFps dc)) as [|Hle]; [lia|].
  rewrite Hv in H. cbn [mbind outcome_bind] in H.
  exists st, before, e, dc. eexists. exists voters. split_and!; [done|done| |done|exact H].
  unfold refreshFPCommissions. by rewrite (proj2 (Z.ltb_ge _ _)).
Qed.

(** The loop pays exactly the final heights of its range, in order, and fails as
    the first payment that fails. *)
Lemma rewardingLoop_pays n h next c :
  0 ≤ h → h + Z.of_nat n < 2 ^ 64 →
  (∀ k, h ≤ k < h + Z.of_nat n → is_Some (blocks (fin c) !! k)) →
  let hs := finals (fin c) h (Z.of_nat n) in
  rewardingLoop n h next c =
  (e ← foldM (payment (stk c) (fin c)) (env c) hs;
   Ok (from_option Z.succ next (last hs),
       set_env (set_fin c (foldl RemoveVotingPowerDistCache (fin c) hs)) e)).
Proof using.
  revert h next c. induction n as [|n IH]; intros h next c Hh Hn Hb hs; [simpl; by destruct c|].
  unfold hs. rewrite finals_cons by lia. replace (Z.of_nat (S n) - 1) with (Z.of_nat n) by lia.
  destruct (Hb h) as [b Hbh]; [lia|]. cbn [rewardingLoop]. rewrite (proj2 (GetBlock_Ok _ _ _) Hbh).
  cbn [must mbind outcome_bind].
  assert (isFinal (fin c) h ↔ ib_Finalized b = true) as Hfin.
  { unfold isFinal. rewrite Hbh. simpl. split; [by intros [= ?]|by intros ->]. }
  case_decide as Hd.
  - rewrite (proj1 Hfin Hd), rewardBTCStaking_pays. cbn [negb app foldM foldl].
    destruct (payment (stk c) (fin c) (env c) h) as [e1| |]; [|done..]. cbn [mbind outcome_bind]. set (c1 := set_env _ e1).
    rewrite (IH (h + 1) (u64 (h + 1)) c1) by (done || lia || (intros k Hk; apply Hb; lia)).
    change (finals (fin c1) (h + 1) (Z.of_nat n)) with (finals (fin c) (h + 1) (Z.of_nat n)).
    rewrite (foldM_ext _ (payment (stk c) (fin c))); [|intros e' k Hk%elem_of_finals; apply payment_removed; lia].
    change (env c1) with e1. destruct (foldM _ e1 _) as [e| |]; [|done..]. cbn [mbind outcome_bind]. do 2 f_equal.
    rewrite last_cons. destruct (last (finals (fin c) (h + 1) (Z.of_nat n))); [done|]. simpl.
    rewrite u64_small by (unfold in_u64; lia). lia.
  - assert (ib_Finalized b = false) as -> by (destruct (ib_Finalized b); tauto). cbn [negb app].
    apply IH; [lia|lia|intros k Hk; apply Hb; lia].
Qed.

(** The first height not considered for rewards yet. *)
Definition rewardStart (s : FinalityState) (a : Z) : Z :=
  if GetNextHeightToReward s =? 0 then a else GetNextHeightToReward s.

(** Between two blocks: the reward cursor is at most the finalisation cursor;
    from it on the distribution of every height with voting power is still
    recorded; below it the final blocks have been paid, and their
    distributions removed. *)
Record rewards_inv (s : FinalityState) (a : Z) : Prop := {
  rw_cursor : a ≤ rewardStart s a ≤ startHeight s a;
  rw_recorded : ∀ h, rewardStart s a ≤ h → hasTable s h → payable s h;
  rw_paid : ∀ h, a ≤ h < rewardStart s a → isFinal s h → vpDistCaches s !! h = None
}.

Lemma foldl_remove hs s :
  foldl RemoveVotingPowerDistCache s hs = set_vpDistCaches s (foldl (λ m h, delete h m) (vpDistCaches s) hs).
Proof using.
  revert s. induction hs as [|h hs IH]; intros s; [by destruct s|]. cbn [foldl]. by rewrite IH.
Qed.

Lemma foldl_removed_lookup hs (m : gmap Z VotingPowerDistCache) h :
  foldl (λ m h, delete h m) m hs !! h = if decide (h ∈ hs) then None else m !! h.
Proof using.
  revert m. induction hs as [|k hs IH]; intros m; [done|]. cbn [foldl]. rewrite IH.
  destruct (decide (h ∈ hs)); [by rewrite decide_True by (by right)|].
  destruct (decide (h = k)) as [->|Hne].
  - rewrite decide_True by left. apply lookup_delete_eq.
  - rewrite decide_False by (by intros [?|?]%elem_of_cons). by apply lookup_delete_ne.
Qed.

(** What one run of the rewarding does up to [target]: with [hs] the final
    heights of its range, it makes the payments of [hs] in order, removes their
    distributions and moves the cursor past the last of them. *)
Record rewarded (c c' : Chain E) (hs : list Z) : Prop := {
  rd_paid : foldM (payment (stk c) (fin c)) (env c) hs = Ok (env c');
  rd_stk : stk c' = stk c;
  rd_fin : fin c' = set_nextHeightToReward
    (set_vpDistCaches (fin c) (foldl (λ m h, delete h m) (vpDistCaches (fin c)) hs))
    (from_option (λ h, Some (Z.succ h)) (nextHeightToReward (fin c)) (last hs))
}.

Lemma last_finals s h n k : last (finals s h n) = Some k → ∀ j, j ∈ finals s h n → j ≤ k.
Proof using.
  intros Hl j Hj. apply last_Some in Hl as [l Hl].
  assert (StronglySorted Z.lt (finals s h n)) as Hs.
  { unfold finals. apply StronglySorted_filter, StronglySorted_seqZ. }
  rewrite Hl in Hs, Hj. apply elem_of_app in Hj as [Hj|Hj%list_elem_of_singleton]; [|lia].
  apply Z.lt_le_incl, (StronglySorted_app_1_elem_of _ _ _ _ _ Hs); [done|left].
Qed.

(** Payments of recorded final heights fail only by the reward keeper. *)
Lemma refused_payments {A} c a cur hs (y : outcome A) :
  tables_wf (fin c) → finalization_inv (fin c) a cur → rewards_inv (fin c) a →
  (∀ h, h ∈ hs → isFinal (fin c) h ∧ rewardStart (fin c) a ≤ h) →
  same_failure (foldM (payment (stk c) (fin c)) (env c) hs) y →
  ∃ h, h ∈ hs ∧ reward_refused (fin c) (env c) h y.
Proof using.
  intros Hwf Hfi Hrw Hhs Hf. apply foldM_failure in Hf as (before & h & after & e & -> & Hbefore & Hf).
  assert (h ∈ before ++ h :: after) as Hin by (apply elem_of_app; right; left). exists h. split; [done|].
  destruct (Hhs h Hin) as [Hfin Hge]. apply (payment_refused (stk c) _ _ before e); [done| |done|done].
  apply (rw_recorded _ _ Hrw); [done|]. unfold isFinal in Hfin. apply fmap_Some in Hfin as (b & Hb & Hbf).
  symmetry in Hbf. by apply (fi_final _ _ _ Hfi _ _ Hb) in Hbf as [_ ?].
Qed.

Lemma HandleRewarding_step c a cur target maxBlocks :
  tables_wf (fin c) → GetBTCStakingActivatedHeight (fin c) = Ok a → 0 ≤ a →
  finalization_inv (fin c) a cur → rewards_inv (fin c) a →
  0 ≤ target ≤ cur → cur < 2 ^ 63 - 1 → 0 < maxBlocks < 2 ^ 63 →
  let start := rewardStart (fin c) a in
  let hs := finals (fin c) start (Z.min (start + maxBlocks) (target + 1) - start) in
  (∃ c', HandleRewarding c target maxBlocks = Ok c' ∧ rewarded c c' hs) ∨
  (∃ h, h ∈ hs ∧ reward_refused (fin c) (env c) h (HandleRewarding c target maxBlocks)).
Proof using.
  intros Hwf Ha Ha0 Hfi Hrw Ht Hcur Hmax start hs. pose proof (rw_cursor _ _ Hrw) as Hc. fold start in Hc.
  pose proof (fi_start _ _ _ Hfi) as Hst. unfold HandleRewarding. rewrite Ha. cbn [must].
  assert ((if GetNextHeightToReward (fin c) =? 0 then Ok a else Ok (GetNextHeightToReward (fin c))) = Ok start) as ->
    by (unfold start, rewardStart; by destruct (_ =? 0)).
  cbn [mbind outcome_bind]. rewrite (u64_small (start + maxBlocks)), (u64_small (_ - 1)), (u64_small target)
    by (unfold in_u64; lia).
  set (n := Z.to_nat _). assert (Z.of_nat n = Z.max 0 (Z.min (start + maxBlocks) (target + 1) - start)) as Hn by lia.
  assert (hs = finals (fin c) start (Z.of_nat n)) as Ehs.
  { unfold hs, finals. rewrite Hn. destruct (Z.le_gt_cases 0 (Z.min (start + maxBlocks) (target + 1) - start)) as [Hle|Hgt].
    - by rewrite Z.max_r.
    - rewrite Z.max_l by lia. by rewrite (seqZ_nil _ (_ - _)) by lia. }
  rewrite rewardingLoop_pays by (lia || (intros k Hk; apply (fi_indexed _ _ _ Hfi); lia)). rewrite <- Ehs.
  destruct (foldM (payment (stk c) (fin c)) (env c) hs) as [e|err|err] eqn:He; cbn [mbind outcome_bind].
  - left. destruct (last hs) as [k|] eqn:El; simpl.
    + assert (start ≤ k) as Hk.
      { apply last_Some in El as [l El]. assert (k ∈ hs) as Hk by (rewrite El; apply elem_of_app; right; left).
        rewrite Ehs in Hk. apply elem_of_finals in Hk. lia. }
      rewrite (proj2 (Z.eqb_neq _ _)) by lia. eexists. split; [reflexivity|]. constructor; [done|done|].
      simpl. rewrite foldl_remove, El. done.
    + rewrite Z.eqb_refl. eexists. split; [reflexivity|]. constructor; [done|done|]. simpl. rewrite El.
      apply last_None in El as ->. simpl. by destruct (fin c).
  - right. apply (refused_payments c a cur hs); [done..| |by rewrite He]. intros h. rewrite Ehs, elem_of_finals. tauto.
  - right. apply (refused_payments c a cur hs); [done..| |by rewrite He]. intros h. rewrite Ehs, elem_of_finals. tauto.
Qed.

(** Rewarding keeps both invariants. *)
Lemma rewarded_inv c c' a cur n :
  finalization_inv (fin c) a cur → rewards_inv (fin c) a → 0 ≤ a →
  rewarded c c' (finals (fin c) (rewardStart (fin c) a) n) →
  finalization_inv (fin c') a cur ∧ rewards_inv (fin c') a.
Proof using.
  intros Hfi [Hc Hrec Hpaid] Ha [_ _ Hf]. set (start := rewardStart (fin c) a) in *. set (hs := finals _ _ _) in *.
  assert (startHeight (fin c') a = startHeight (fin c) a) as Est by (by rewrite Hf).
  assert (∀ h, hasTable (fin c') h ↔ hasTable (fin c) h) as Ht by (intros h; by rewrite Hf).
  assert (∀ h, isFinal (fin c') h ↔ isFinal (fin c) h) as Hif by (intros h; by rewrite Hf).
  assert (∀ h, vpDistCaches (fin c') !! h = if decide (h ∈ hs) then None else vpDistCaches (fin c) !! h) as Hcache.
  { intros h. rewrite Hf. apply foldl_removed_lookup. }
  assert (∀ h, isFinal (fin c) h → h < startHeight (fin c) a) as Hlt.
  { intros h Hfin. unfold isFinal in Hfin. apply fmap_Some in Hfin as (b & Hb & Hbf). symmetry in Hbf.
    apply (fi_final _ _ _ Hfi _ _ Hb) in Hbf. lia. }
  assert (rewardStart (fin c') a = from_option Z.succ start (last hs)) as Ers.
  { unfold rewardStart. rewrite Hf. unfold GetNextHeightToReward. cbn [nextHeightToReward set_nextHeightToReward].
    destruct (last hs) as [k|] eqn:El; simpl; [|done].
    assert (k ∈ hs) as [_ ?]%elem_of_finals by (apply last_Some in El as [l ->]; apply elem_of_app; right; left).
    rewrite (proj2 (Z.eqb_neq _ _)); lia. }
  assert (start ≤ rewardStart (fin c') a ∧ ∀ k, k ∈ hs → k < rewardStart (fin c') a) as [Hge Hall].
  { rewrite Ers. destruct (last hs) as [k|] eqn:El; simpl.
    - split; [|intros j Hj; pose proof (last_finals _ _ _ _ El j Hj); lia].
      apply last_Some in El as [l El]. assert (k ∈ hs) as [_ ?]%elem_of_finals by (rewrite El; apply elem_of_app; right; left). lia.
    - apply last_None in El. rewrite El. split; [lia|]. by intros k Hk%elem_of_nil. }
  split.
  - destruct Hfi as [H1 H2 H3 H4 H5 H6]. rewrite Hf. by constructor.
  - constructor.
    + rewrite Est. split; [lia|]. rewrite Ers. destruct (last hs) as [k|] eqn:El; simpl; [|lia].
      apply last_Some in El as [l El]. assert (k ∈ hs) as [Hk _]%elem_of_finals by (rewrite El; apply elem_of_app; right; left).
      apply Hlt in Hk. lia.
    + intros h Hh [dc [Hdc ?]]%Ht%Hrec; [|lia]. exists dc. split; [|done]. unfold GetVotingPowerDistCache in *.
      rewrite Hcache, decide_False; [done|]. intros ?%Hall. lia.
    + intros h Hh Hfin. apply Hif in Hfin. rewrite Hcache. case_decide as Hd; [done|].
      apply Hpaid; [|done]. split; [lia|]. destruct (Z.lt_ge_cases h start) as [|Hhs]; [done|]. exfalso. apply Hd.
      apply elem_of_finals. split; [done|]. rewrite Ers in Hh.
      destruct (last hs) as [k|] eqn:El; simpl in Hh; [|lia].
      apply last_Some in El as [l El]. assert (k ∈ hs) as [_ ?]%elem_of_finals by (rewrite El; apply elem_of_app; right; left). lia.
Qed.



(** Between the transactions and the end of block [cur + 1], with [a] the height
    BTC staking was activated: the invariants of finalisation, rewards and
    liveness, well-formed tables, and every provider with voting power
    registered and tracked. *)
Record end_ready (ctx : Ctx) (c : Chain E) (a cur : Z) : Prop := {
  er_active : IsFinalityActive ctx (fin c) = true;
  er_activated : GetBTCStakingActivatedHeight (fin c) = Ok a;
  er_height : HeaderHeight ctx = cur + 1;
  er_bounds : 1 ≤ a ≤ cur + 1 ∧ cur + 1 < 2 ^ 62;
  er_final : finalization_inv (fin c) a cur;
  er_rewards : rewards_inv (fin c) a;
  er_tables : tables_wf (fin c);
  er_powers : ∀ h, powers_ok (fin c) h;
  er_liveness : liveness_wf (fin c);
  er_keyed : fps_keyed (stk c);
  er_tracked : ∀ h pk, is_Some (get2 h pk (votingPower (fin c))) → tracked (fin c) (stk c) pk;
  er_tip : is_Some (GetTipHeight (env c));
  er_timeout : FinalitySigTimeout (finalityParams (fin c)) < 2 ^ 62
}.






(** Rewards are exact. From the reward cursor up to the target height and the
    limit of blocks per call, the rewarding makes one payment for each final
    block, in the order of the heights, with the recorded distribution under the
    present commissions and the voters of the height; nothing else is paid. It
    removes exactly the distributions it paid and moves the cursor past the
    last, so that together with the invariants, which it keeps, no block is paid
    twice and no final block is passed over. It fails only when the reward keeper
    refuses one of these payments. *)
Theorem HandleRewarding_correct c a cur target maxBlocks :
  tables_wf (fin c) → GetBTCStakingActivatedHeight (fin c) = Ok a → 0 ≤ a →
  finalization_inv (fin c) a cur → rewards_inv (fin c) a →
  0 ≤ target ≤ cur → cur < 2 ^ 63 - 1 → 0 < maxBlocks < 2 ^ 63 →
  let start := rewardStart (fin c) a in
  let hs := finals (fin c) start (Z.min (start + maxBlocks) (target + 1) - start) in
  (∃ c', HandleRewarding c target maxBlocks = Ok c' ∧ rewarded c c' hs ∧
     finalization_inv (fin c') a cur ∧ rewards_inv (fin c') a) ∨
  (∃ h, h ∈ hs ∧ reward_refused (fin c) (env c) h (HandleRewarding c target maxBlocks)).
Proof using.
  intros Hwf Ha Ha0 Hfi Hrw Ht Hcur Hmax start hs.
  destruct (HandleRewarding_step c a cur target maxBlocks) as [(c' & Hok & Hrd)|Href]; [done..| |by right].
  left. exists c'. split_and!; [done|done|by eapply rewarded_inv..].
Qed.

(** ** Finality catches up *)





End end_block.

(** ** Witnesses

    One provider has voting power at height 1 and voted for it. Block [cur + 1]
    is about to end; height 1 is final once [cur] is past 1. *)

Definition example_block (cur h : Z) : Z * IndexedBlock := (h, mkBlock h [] (bool_decide (h = 1 ∧ 1 < cur))).
Definition example_end_fin (cur : Z) : FinalityState :=
  mkFinality (list_to_map (example_block cur <$> seqZ 1 cur)) {[1 := {[example_pk := replicate 32 "000"%byte]}]}
    ∅ ∅ ∅ ∅ {[example_pk := mkSigningInfo example_pk 1 0 0]} ∅ {[1 := {[example_pk := 10]}]}
    {[1 := mkDistCache 10 [mkDistInfo example_pk [] (Some 0) 10 true false false] 1]}
    (if decide (cur = 1) then None else Some (cur + 1)) None example_live_params [].
Definition example_end (cur : Z) : Chain unit := mkChain (example_end_fin cur) example_staking tt.
Definition example_end_ctx (cur : Z) : Ctx := mkCtx (cur + 1) [] 0.

(** The invariant of finalisation, decided over the stored blocks. *)
Lemma finalization_inv_check s a cur :
  bool_decide (map_Forall (λ h b, ib_Height b = h ∧ h ≤ cur ∧
    (ib_Finalized b = true ↔ a ≤ h < startHeight s a ∧ hasTable s h)) (blocks s)) = true →
  bool_decide (Forall (λ h, is_Some (blocks s !! h)) (seqZ a (cur - a + 1))) = true →
  bool_decide (Forall (λ h, hasTable s h → blockQuorum s h) (seqZ a (startHeight s a - a))) = true →
  startHeight s a ≤ cur + 1 → finalization_inv s a cur.
Proof.
  rewrite !bool_decide_eq_true, !Forall_forall. intros Hb Hi Hq Hs. constructor; [| | | | |done].
  - intros h b Hh. apply (Hb h b Hh).
  - intros h Hh. apply Hi, elem_of_seqZ. lia.
  - intros h Hh. destruct (blocks s !! h) as [b|] eqn:Hb'; [|done]. specialize (Hb h b Hb'). simpl in Hb. lia.
  - intros h b Hh. apply (Hb h b Hh).
  - intros h Hh. apply Hq, elem_of_seqZ. lia.
Qed.

Lemma example_end_tables cur h :
  tables_wf (example_end_fin cur) ∧ powers_ok (example_end_fin cur) h ∧
  (hasTable (example_end_fin cur) h → h = 1) ∧
  ∀ pk, is_Some (get2 h pk (votingPower (example_end_fin cur))) → pk = example_pk ∧ h = 1.
Proof.
  split; [|split_and!].
  - intros k. unfold keys_wf, example_end_fin. simpl.
    destruct (decide (k = 1)) as [->|Hne]; [rewrite !lookup_singleton_eq|rewrite !lookup_singleton_ne by done]; simpl.
    + split; intros pk v [<- _]%lookup_singleton_Some; done.
    + split; intros pk v ?%lookup_empty_Some; done.
  - unfold powers_ok, votingPowerBbnBlockHeightStore, example_end_fin. simpl.
    destruct (decide (h = 1)) as [->|Hne]; [rewrite !lookup_singleton_eq|rewrite !lookup_singleton_ne by done]; simpl.
    + rewrite map_to_list_singleton. split; [repeat constructor; simpl; lia|simpl; lia].
    + rewrite map_to_list_empty. split; [constructor|simpl; lia].
  - unfold hasTable, votingPowerBbnBlockHeightStore, example_end_fin. simpl.
    destruct (decide (h = 1)) as [->|Hne]; [done|]. by rewrite lookup_singleton_ne.
  - intros pk [v Hv]. unfold get2, example_end_fin in Hv. simpl in Hv.
    destruct (decide (h = 1)) as [->|Hne]; [|by rewrite lookup_singleton_ne in Hv].
    rewrite lookup_singleton_eq in Hv. simpl in Hv. by apply lookup_singleton_Some in Hv as [<- _].
Qed.

Lemma example_end_ready cur :
  cur = 1 ∨ cur = 2 ∨ cur = 3 → end_ready (fenv := example_env) (example_end_ctx cur) (example_end cur) 1 cur.
Proof.
  intros Hcur.
  assert (liveness_wf (example_end_fin cur)) as Hlive.
  { split_and!; [reflexivity|simpl; lia|]. intros pk si H. unfold example_end_fin in H. simpl in H.
    apply lookup_singleton_Some in H as [<- <-]. vm_compute. reflexivity. }
  assert (finalization_inv (example_end_fin cur) 1 cur) as Hfi.
  { apply finalization_inv_check; destruct Hcur as [->|[->| ->]]; vm_compute; (reflexivity || discriminate). }
  constructor; cbn [fin stk env example_end]; try done.
  - destruct Hcur as [->|[->| ->]]; vm_compute; reflexivity.
  - lia.
  - constructor.
    + change (rewardStart (example_end_fin cur) 1) with 1. unfold startHeight. lia.
    + intros h Hh Ht. apply (example_end_tables cur h) in Ht as ->. eexists. split; [reflexivity|]. simpl. lia.
    + change (rewardStart (example_end_fin cur) 1) with 1. lia.
  - apply (example_end_tables cur 0).
  - intros h. apply (example_end_tables cur h).
  - exact example_staking_keyed.
  - intros h pk Hpk. apply (example_end_tables cur h) in Hpk as [-> ->].
    split; [by eexists|]. eexists. split; [reflexivity|]. simpl. lia.
Qed.

(** The reward keeper of the example pays. *)
Lemma example_not_refused {A} s e h (y : outcome A) : ¬ reward_refused (fenv := example_env) s e h y.
Proof. intros (? & ? & ? & ? & ? & ? & _ & _ & _ & _ & H). by destruct y. Qed.


Lemma HandleRewarding_correct_witness : ∃ c',
  HandleRewarding (fenv := example_env) (example_end 3) 1 10000 = Ok c' ∧ nextHeightToReward (fin c') = Some 2.
Proof.
  pose proof (example_end_ready 3 (or_intror (or_intror eq_refl))) as Hr.
  destruct (HandleRewarding_correct (fenv := example_env) (example_end 3) 1 3 1 10000)
    as [(c' & Hok & Hrd & _)|(h & _ & Href)];
    [exact (er_tables _ _ _ _ Hr)|exact (er_activated _ _ _ _ Hr)|lia
    |exact (er_final _ _ _ _ Hr)|exact (er_rewards _ _ _ _ Hr)|lia|lia|lia| |destruct (example_not_refused _ _ _ _ Href)].
  exists c'. split; [exact Hok|]. rewrite (rd_fin _ _ _ Hrd). vm_compute. reflexivity.
Defined.

