(* ===== verification/Gov.v ===== *)
(** * x/finality/keeper/gov.go: resuming finality after a halt

    A governance proposal names providers that did not vote at the halting
    height. The handler jails them and removes their voting power from the
    halting height to the current one, so that the remaining voters can form a
    quorum. *)

From S2P Require Import Prelude Bytes Store BbnTypes BtcStaking Delegations FinalityTypes PowerTable.
From S2P Require Import FinalityStore Tally Liveness PubRand PowerDist.

Section gov.
Context {rounding : DecRounding}.
Context {E : Type} {fenv : FinalityEnv E}.

(** The body of the first loop, for one of the given keys; the set collects
    [fpPksToJail]. *)
Definition resumeJail (ctx : Ctx) (params : FinalityParams) (voters : gset string)
    (acc : Chain E * gset string) (fpPkHex : string) : outcome (Chain E * gset string) :=
  let '(c, fpPksToJail) := acc in
  fpPk ← wrapf "invalid finality provider public key" (NewBIP340PubKeyFromHex fpPkHex);
  let fpPksToJail := {[fpPkHex]} ∪ fpPksToJail in
  if bool_decide (fpPkHex ∈ voters) then Err (Errorf "the finality provider has voted for height")
  else
    fp ← wrapf "failed to find the finality provider in btcstaking" (GetFinalityProvider (stk c) fpPk);
    if IsSlashed fp || IsJailed fp then Ok (c, fpPksToJail)
    else
      r ← wrapf "failed to jail the finality provider"
            (jailSluggishFinalityProvider (GetTipHeight (env c)) (fin c) (stk c) fpPk);
      let '(s, st) := (r : FinalityState * StakingState) in
      match signingInfos s !! fpPk with
      | None => Err (Errorf "the signing info of finality provider is not created")
      | Some signInfo =>
        let signInfo := with_jailed_until signInfo (HeaderTime ctx + JailDuration params) in
        let signInfo := with_counter signInfo 0 in
        let s := DeleteMissedBlockBitmap s fpPk in
        Ok (set_stk (set_fin c (setSigningInfo s fpPk signInfo)) st, fpPksToJail)
      end.

(** The inner loop over the providers of a distribution: the processing state
    exists only at the current height. *)
Definition resumeFp (fpPksToJail : gset string) (blkHeight : Z)
    (acc : option ProcessingState * FinalityState * VotingPowerDistCache) (fp : FinalityProviderDistInfo)
    : option ProcessingState * FinalityState * VotingPowerDistCache :=
  let '(state, s, newDc) := acc in
  if bool_decide (di_hex fp ∈ fpPksToJail) then
    let '(state, fp') :=
      if di_IsSlashed fp then (state, fp)
      else ((λ ps, ps_set_states ps (<[di_hex fp := STATE_JAILED]> (ps_FPStatesByBtcPk ps))) <$> state,
            with_flags fp (di_IsTimestamped fp) true (di_IsSlashed fp)) in
    (state, SetVotingPower s (di_BtcPk fp) blkHeight 0, AddFinalityProviderDistInfo newDc fp')
  else (state, s, AddFinalityProviderDistInfo newDc fp).

Definition resumeAtHeight (ctx : Ctx) (fpPksToJail : gset string) (c : Chain E) (blkHeight : Z)
    : outcome (Chain E) :=
  match GetVotingPowerDistCache (fin c) blkHeight with
  | None => Panic (Errorf "nil pointer dereference")
  | Some dc =>
    let isCurrHeight := blkHeight =? CtxHeight ctx in
    let state := if isCurrHeight then Some (FillByPrevVpDstCache NewProcessingState dc) else None in
    let '(state, s, newDc) :=
      foldl (resumeFp fpPksToJail blkHeight) (state, fin c, NewVotingPowerDistCache) (dc_FinalityProviders dc) in
    let newDc := ApplyActiveFinalityProviders newDc (dc_NumActiveFps dc) in
    let s := SetVotingPowerDistCache s blkHeight newDc in
    HandleFPStateUpdates ctx state dc newDc isCurrHeight (set_fin c s)
  end.

Definition HandleResumeFinalityProposal (ctx : Ctx) (c : Chain E) (fpPksHex : list string) (haltingHeight : Z)
    : outcome (Chain E) :=
  let params := finalityParams (fin c) in
  let currentHeight := HeaderHeight ctx in
  if haltingHeight <? FinalityActivationHeight params
  then Err (Errorf "finality halting height cannot be lower than finality activation height")
  else if currentHeight <? haltingHeight then Err (Errorf "finality halting height is in the future")
  else
    voters ← GetVoters (fin c) haltingHeight;
    r ← foldM (resumeJail ctx params voters) (c, ∅) fpPksHex;
    let '(c, fpPksToJail) := (r : Chain E * gset string) in
    foldM (resumeAtHeight ctx fpPksToJail) c (seqZ haltingHeight (CtxHeight ctx - haltingHeight + 1)).

Definition ResumeFinalityProposal (authority : string) (ctx : Ctx) (c : Chain E) (reqAuthority : string)
    (fpPksHex : list string) (haltingHeight : Z) : outcome (Chain E) :=
  if negb (bool_decide (authority = reqAuthority)) then Err ErrInvalidSigner
  else match HandleResumeFinalityProposal ctx c fpPksHex haltingHeight with
  | Ok c => Ok c
  | Err _ => Err ErrInvalidProposalMsg
  | Panic e => Panic e
  end.

(** ** Jailing *)

(** Slashed or jailed in the registry. *)
Definition sanctioned (st : StakingState) (pk : bytes) : Prop :=
  ∃ fp, finalityProviders st !! pk = Some fp ∧ IsSlashed fp || IsJailed fp = true.

Lemma jail_sanctions tip st pk st' :
  fps_keyed st → JailFinalityProvider tip st pk = Ok st' →
  fps_keyed st' ∧ sanctioned st' pk ∧ ∀ pk', sanctioned st pk' → sanctioned st' pk'.
Proof using.
  intros Hk H. unfold JailFinalityProvider in H. apply bind_Ok in H as (fp & Hfp & H).
  apply GetFinalityProvider_Ok in Hfp. pose proof (Hk _ _ Hfp) as Epk.
  destruct (IsSlashed fp) eqn:Es, (IsJailed fp) eqn:Ej, tip as [t|]; try done. injection H as <-.
  assert (∀ pk', finalityProviders (addPowerDistUpdateEvent (SetFinalityProvider st (with_jailed fp true)) t
            (JailedFp (fp_BtcPk (with_jailed fp true)))) !! pk' =
          if decide (pk = pk') then Some (with_jailed fp true) else finalityProviders st !! pk') as Hl.
  { intros pk'. simpl. rewrite Epk. case_decide as Hd; [subst pk'; apply lookup_insert_eq|by apply lookup_insert_ne]. }
  split_and!.
  - apply SetFinalityProvider_keyed, Hk.
  - exists (with_jailed fp true). rewrite Hl, decide_True by done. split; [done|]. apply orb_true_r.
  - intros pk' (fp' & Hfp' & Hs'). case (decide (pk = pk')) as [<-|Hne].
    + rewrite Hfp in Hfp'. injection Hfp' as <-. by rewrite Es, Ej in Hs'.
    + exists fp'. by rewrite Hl, decide_False by done.
Qed.

Record jailed_all (voters : gset string) (c c' : Chain E) (keys keys' : gset string) (hexes : list string) : Prop := {
  ja_frame : live_frame (fin c) (fin c');
  ja_keyed : fps_keyed (stk c');
  ja_kept : ∀ pk, sanctioned (stk c) pk → sanctioned (stk c') pk;
  ja_done : Forall (λ hex, hex ∉ voters ∧ ∃ pk, NewBIP340PubKeyFromHex hex = Ok pk ∧ sanctioned (stk c') pk) hexes;
  ja_keys : keys' = list_to_set hexes ∪ keys
}.

Lemma resumeJail_step ctx params voters c keys hex c' keys' :
  fps_keyed (stk c) → resumeJail ctx params voters (c, keys) hex = Ok (c', keys') →
  jailed_all voters c c' keys keys' [hex].
Proof using.
  intros Hk H. unfold resumeJail in H. apply bind_Ok in H as (pk & Hpk & H). rewrite wrapf_Ok in Hpk.
  case_bool_decide as Hv; [done|]. apply bind_Ok in H as (fp & Hfp & H). rewrite wrapf_Ok in Hfp.
  apply GetFinalityProvider_Ok in Hfp. destruct (IsSlashed fp || IsJailed fp) eqn:Esj.
  - injection H as <- <-. constructor; [done|done|done| |set_solver].
    constructor; [|constructor]. split; [done|]. exists pk. split; [done|]. by exists fp.
  - apply bind_Ok in H as ([s st] & Hj & H). rewrite wrapf_Ok in Hj. unfold jailSluggishFinalityProvider in Hj.
    apply bind_Ok in Hj as (st0 & Hj & [= <- <-]). destruct (jail_sanctions _ _ _ _ Hk Hj) as (Hk' & Hs & Hkeep).
    destruct (signingInfos _ !! pk) as [si|] eqn:Esi; [|done]. injection H as <- <-.
    constructor; [|done|done| |set_solver].
    + eapply (live_frame_set (fin c) _ pk si); try done. constructor; simpl; eauto.
    + constructor; [|constructor]. split; [done|]. by exists pk.
Qed.

Lemma resumeJail_all ctx params voters hexes c keys c' keys' :
  fps_keyed (stk c) → foldM (resumeJail ctx params voters) (c, keys) hexes = Ok (c', keys') →
  jailed_all voters c c' keys keys' hexes.
Proof using.
  revert c keys. induction hexes as [|hex hexes IH]; intros c keys Hk H.
  { injection H as <- <-. constructor; [done|done|done|constructor|set_solver]. }
  simpl in H. apply bind_Ok in H as ([c1 keys1] & H1 & H).
  apply resumeJail_step in H1 as [A1 A2 A3 A4 A5]; [|done]. apply IH in H as [B1 B2 B3 B4 B5]; [|done].
  constructor; [by transitivity (fin c1)|done|auto| |set_solver].
  constructor; [|done]. apply Forall_cons in A4 as [(Hv & pk & ? & ?) _]. split; [done|]. exists pk. auto.
Qed.

(** ** Removing voting power *)

Lemma resumeFp_fold keys h fps ps s dc ps' s' dc' :
  foldl (resumeFp keys h) (ps, s, dc) fps = (ps', s', dc') →
  s' = set_votingPower s (votingPower s') ∧
  (∀ k pk, power_entry s' k pk =
     if decide (k = h ∧ MarshalHex pk ∈ keys ∧ pk ∈ di_BtcPk <$> fps) then Some 0 else power_entry s k pk).
Proof using.
  revert ps s dc. induction fps as [|fp fps IH]; intros ps s dc H.
  { injection H as <- <- <-. split; [by destruct s|]. intros k pk. rewrite decide_False; [done|].
    by intros (_ & _ & ?%elem_of_nil). }
  cbn [foldl] in H. destruct (resumeFp keys h (ps, s, dc) fp) as [[ps1 s1] dc1] eqn:E1.
  assert (s1 = set_votingPower s (votingPower s1) ∧ ∀ k pk, power_entry s1 k pk =
    if decide (k = h ∧ MarshalHex pk ∈ keys ∧ pk = di_BtcPk fp) then Some 0 else power_entry s k pk) as [F1 P1].
  { unfold resumeFp in E1. case_bool_decide as Hk.
    - destruct (di_IsSlashed fp); injection E1 as _ <- _; (split; [done|]); intros k pk;
        unfold power_entry, SetVotingPower; simpl; rewrite get2_set2;
        (case_decide as Hd; [injection Hd as <- <-; by rewrite decide_True|];
         rewrite decide_False; [done|]; intros (-> & _ & ->); auto).
    - injection E1 as _ <- _. split; [by destruct s|]. intros k pk. rewrite decide_False; [done|].
      by intros (_ & ? & ->). }
  apply IH in H as [F2 P2]. split; [by rewrite F2, F1|]. intros k pk. rewrite P2, P1, fmap_cons.
  destruct (decide (k = h ∧ MarshalHex pk ∈ keys ∧ pk ∈ di_BtcPk <$> fps)) as [(-> & ? & ?)|Hd].
  - rewrite decide_True; [done|]. split_and!; [done|done|by right].
  - apply decide_ext. rewrite elem_of_cons. tauto.
Qed.

(** The providers recorded for a height. *)
Definition recorded (s : FinalityState) (h : Z) : list bytes :=
  from_option (λ dc, di_BtcPk <$> dc_FinalityProviders dc) [] (GetVotingPowerDistCache s h).

(** The voting power of the recorded providers among [keys] is zero at the
    heights [hs]; nothing else of the voting power, votes, blocks, commitments
    and registry has changed. *)
Record power_removed (keys : gset string) (hs : list Z) (c c' : Chain E) : Prop := {
  pr_stk : stk c' = stk c;
  pr_votes : votes (fin c') = votes (fin c);
  pr_blocks : blocks (fin c') = blocks (fin c);
  pr_caches : ∀ h, h ∉ hs → vpDistCaches (fin c') !! h = vpDistCaches (fin c) !! h;
  pr_power : ∀ h pk, power_entry (fin c') h pk =
    if decide (h ∈ hs ∧ MarshalHex pk ∈ keys ∧ pk ∈ recorded (fin c) h) then Some 0 else power_entry (fin c) h pk
}.

Lemma resumeAtHeight_step ctx keys c h c' :
  resumeAtHeight ctx keys c h = Ok c' → power_removed keys [h] c c'.
Proof using.
  intros H. unfold resumeAtHeight in H. destruct (GetVotingPowerDistCache (fin c) h) as [dc|] eqn:Edc; [|done].
  cbv zeta in H. destruct (foldl _ _ _) as [[ps s] newDc] eqn:Ef. apply resumeFp_fold in Ef as [F P].
  apply HandleFPStateUpdates_frame in H as [[B V _ _ _ _ _ Pw C _ _ _] Hst]. simpl in *.
  constructor; [done|by rewrite V, F|by rewrite B, F| |].
  - intros k Hk. rewrite C. rewrite lookup_insert_ne by (intros <-; apply Hk; left). by rewrite F.
  - intros k pk. unfold power_entry. rewrite Pw. change (get2 k pk (votingPower s)) with (power_entry s k pk).
    rewrite P. fold (power_entry (fin c) k pk). apply decide_ext. unfold recorded. rewrite list_elem_of_singleton.
    split; [intros (-> & ?)|intros (-> & ?)]; by rewrite Edc in *.
Qed.

Lemma resumeAt_fold ctx keys hs c c' :
  NoDup hs → foldM (resumeAtHeight ctx keys) c hs = Ok c' → power_removed keys hs c c'.
Proof using.
  revert c. induction hs as [|h hs IH]; intros c Hnd H.
  { injection H as <-. constructor; [done..|]. intros h pk. rewrite decide_False; [done|]. by intros (?%elem_of_nil & _). }
  apply NoDup_cons in Hnd as [Hni Hnd]. simpl in H. apply bind_Ok in H as (c1 & H1 & H).
  apply resumeAtHeight_step in H1 as [A1 A2 A3 A4 A5]. apply IH in H as [B1 B2 B3 B4 B5]; [|done].
  constructor; [congruence..| |].
  - intros k Hk. rewrite not_elem_of_cons in Hk. rewrite B4 by tauto. apply A4. rewrite list_elem_of_singleton. tauto.
  - intros k pk. rewrite B5, A5. destruct (decide (k = h)) as [->|Hne].
    + rewrite decide_False by tauto. apply decide_ext. rewrite list_elem_of_singleton, elem_of_cons. tauto.
    + rewrite (decide_False (P := k ∈ [h] ∧ _ ∧ _)) by (rewrite list_elem_of_singleton; tauto).
      apply decide_ext. assert (recorded (fin c1) k = recorded (fin c) k) as ->.
      { unfold recorded, GetVotingPowerDistCache. by rewrite A4 by (by rewrite list_elem_of_singleton). }
      rewrite elem_of_cons. tauto.
Qed.

(** ** The quorum of the halting height *)

Section zeroed.
Context (Q : bytes → Prop) `{∀ k, Decision (Q k)}.
Let total (t : gmap bytes Z) : Z := sumZ (map_to_list t).*2.
Let part (t : gmap bytes Z) : Z := sumZ (filter (λ kv : bytes * Z, Q kv.1) (map_to_list t)).*2.

Lemma total_delete t k v : t !! k = Some v → total t = v + total (delete k t).
Proof using. intros Hk. unfold total. rewrite (sumZ_perm _ ((k, v) :: map_to_list (delete k t)).*2); [done|]. by rewrite map_to_list_delete. Qed.

Lemma part_delete t k v : t !! k = Some v → part t = (if decide (Q k) then v else 0) + part (delete k t).
Proof using.
  intros Hk. unfold part.
  rewrite (sumZ_perm _ (filter (λ kv : bytes * Z, Q kv.1) ((k, v) :: map_to_list (delete k t))).*2)
    by (by rewrite map_to_list_delete).
  rewrite filter_cons. simpl. by case_decide.
Qed.

(** Zeroing entries outside [Q] lowers the total and keeps the part in [Q]. *)
Lemma zeroed_sums t t' :
  (∀ k, t' !! k = t !! k ∨ t' !! k = Some 0 ∧ ¬ Q k) → map_Forall (λ _ v, 0 ≤ v) t →
  total t' ≤ total t ∧ part t' = part t.
Proof using.
  revert t'. induction t as [|k v t Hk IH] using map_ind; intros t' Ht Hn.
  - assert (Forall (λ kv : bytes * Z, kv.2 = 0 ∧ ¬ Q kv.1) (map_to_list t')) as Hz.
    { apply Forall_forall. intros [k v] Hin. apply elem_of_map_to_list in Hin.
      destruct (Ht k) as [Eq|[Eq ?]]; rewrite Hin in Eq; [by rewrite lookup_empty in Eq|simpl; by injection Eq]. }
    unfold total, part. rewrite map_to_list_empty. induction Hz as [|[k v] l [Hv Hq] _ IHl]; [done|].
    rewrite filter_cons. cbn [fst snd] in *. rewrite decide_False by done. rewrite fmap_cons.
    unfold sumZ in *. cbn [foldr snd] in *. lia.
  - apply map_Forall_insert in Hn as [Hv Hn]; [|done].
    destruct (IH (delete k t')) as [IH1 IH2]; [|done|].
    { intros k'. destruct (decide (k = k')) as [<-|Hne]; [left; by rewrite lookup_delete_eq|].
      rewrite lookup_delete_ne by done. specialize (Ht k'). by rewrite lookup_insert_ne in Ht. }
    assert (∃ v', t' !! k = Some v' ∧ v' ≤ v ∧ (Q k → v' = v)) as (v' & Hv' & Hle & Hq).
    { destruct (Ht k) as [Eq|[Eq Hnq]]; rewrite Eq; [rewrite lookup_insert_eq|]; eexists; split_and!; try done. }
    rewrite (total_delete t' k v' Hv'), (part_delete t' k v' Hv').
    rewrite (total_delete (<[k:=v]> t) k v), (part_delete (<[k:=v]> t) k v) by apply lookup_insert_eq.
    rewrite !delete_insert_id by done. case_decide; [rewrite Hq by done|]; lia.
Qed.
End zeroed.

(** C21: What resuming finality does. On a registry that files each provider
    under its own key, tables whose keys are 32-byte keys, and voting powers at
    the halting height that are not negative, three times their sum a uint64: when
    the handler of the proposal succeeds, every named provider is jailed or slashed.
    The handler then compares strings and not keys, so the rest depends on the
    spelling. Of the providers named in canonical form (the lower-case hex the
    module prints) none voted at the halting height, and from the halting height
    to the current one their voting power is zero at the heights whose
    distribution records them. A provider named only in another spelling of its
    key, upper case say, keeps its voting power at every height although it is
    jailed, and may have voted. The power of every other provider and height, the
    votes and the blocks are as before, and a quorum the halting height already
    had is not lost. *)
Theorem HandleResumeFinalityProposal_correct ctx c fpPksHex h0 c' :
  fps_keyed (stk c) → tables_wf (fin c) → powers_ok (fin c) h0 →
  HandleResumeFinalityProposal ctx c fpPksHex h0 = Ok c' →
  Forall (λ hex, ∃ pk, NewBIP340PubKeyFromHex hex = Ok pk ∧ sanctioned (stk c') pk ∧
            (hex = MarshalHex pk → get2 h0 pk (votes (fin c)) = None)) fpPksHex ∧
  (∀ h pk, power_entry (fin c') h pk =
     if decide (h0 ≤ h ≤ CtxHeight ctx ∧ MarshalHex pk ∈ fpPksHex ∧ pk ∈ recorded (fin c) h)
     then Some 0 else power_entry (fin c) h pk) ∧
  (∀ hex pk, hex ∈ fpPksHex → NewBIP340PubKeyFromHex hex = Ok pk → MarshalHex pk ∉ fpPksHex →
     sanctioned (stk c') pk ∧ ∀ h, power_entry (fin c') h pk = power_entry (fin c) h pk) ∧
  votes (fin c') = votes (fin c) ∧ blocks (fin c') = blocks (fin c) ∧
  (blockQuorum (fin c) h0 → blockQuorum (fin c') h0).
Proof using.
  intros Hk Hwf [Hpos _] H. unfold HandleResumeFinalityProposal in H. do 2 (case_match; [done|]).
  destruct (GetVoters_wf (fin c) h0 Hwf) as (voters & HV & Hvot). rewrite HV in H. cbn [mbind outcome_bind] in H.
  apply bind_Ok in H as ([c1 keys] & Hj & H). apply resumeJail_all in Hj as [Jf _ _ Jd ->]; [|done].
  apply resumeAt_fold in H as [Rs Rv Rb _ Rp]; [|apply NoDup_seqZ]. destruct Jf as [Lb Lv Lp Lc _ _ _ _].
  assert (∀ h pk, power_entry (fin c') h pk =
     if decide (h0 ≤ h ≤ CtxHeight ctx ∧ MarshalHex pk ∈ fpPksHex ∧ pk ∈ recorded (fin c) h)
     then Some 0 else power_entry (fin c) h pk) as Hpow.
  { intros h pk. rewrite Rp. unfold power_entry. rewrite Lp. apply decide_ext.
    unfold recorded, GetVotingPowerDistCache. rewrite elem_of_seqZ, Lc, elem_of_union, elem_of_list_to_set.
    assert (MarshalHex pk ∉ (∅ : gset string)) by apply not_elem_of_empty. intuition lia. }
  assert (∀ pk, MarshalHex pk ∈ fpPksHex → get2 h0 pk (votes (fin c)) = None) as Hnv.
  { intros pk Hin. destruct (proj1 (Forall_forall _ _) Jd _ Hin) as [Hni _].
    apply eq_None_not_Some. by rewrite <- Hvot. }
  rewrite Forall_forall in Jd. split_and!; [|done| |congruence|congruence|].
  - apply Forall_forall. intros hex Hin. destruct (Jd hex Hin) as (_ & pk & Hpk & Hs). exists pk.
    rewrite Rs. split_and!; [done|done|]. intros ->. by apply Hnv.
  - intros hex pk Hin Hpk Hni. destruct (Jd hex Hin) as (_ & pk' & Hpk' & Hs).
    rewrite Hpk in Hpk'. injection Hpk' as <-. rewrite Rs. split; [done|].
    intros h. rewrite Hpow. by rewrite decide_False by tauto.
  - unfold blockQuorum. rewrite Rv, Lv.
    destruct (zeroed_sums (λ k, is_Some (get2 h0 k (votes (fin c)))) (votingPowerBbnBlockHeightStore (fin c) h0)
                (votingPowerBbnBlockHeightStore (fin c') h0)) as [Hle Heq].
    + intros pk. specialize (Hpow h0 pk). unfold power_entry, get2 in Hpow.
      unfold votingPowerBbnBlockHeightStore. rewrite Hpow. case_decide as Hc; [right|by left]. split; [done|].
      rewrite Hnv by tauto. by intros [? ?].
    + intros pk v Hpk. rewrite Forall_forall in Hpos. by apply (Hpos (pk, v)), elem_of_map_to_list.
    + cbv zeta in Hle, Heq. lia.
Qed.

End gov.

(** ** Witnesses

    At height 5, the current one, A with power 10 has voted and B with power 20
    has not. *)

Definition example_fpG1 : bytes := replicate 32 "171"%byte.
Definition example_fpG2 : bytes := replicate 32 "002"%byte.
Definition example_hexG1 : string := MarshalHex example_fpG1.
Definition example_ctxG : Ctx := mkCtx 5 [] 0.
Definition example_chainG : Chain unit :=
  mkChain (mkFinality ∅ {[5 := {[example_fpG1 := replicate 32 "000"%byte]}]} ∅ ∅ ∅ ∅
      (<[example_fpG1 := mkSigningInfo example_fpG1 1 0 0]> {[example_fpG2 := mkSigningInfo example_fpG2 1 0 0]}) ∅
      {[5 := <[example_fpG1 := 10]> {[example_fpG2 := 20]}]}
      {[5 := mkDistCache 30 [mkDistInfo example_fpG2 [] (Some 0) 20 true false false;
                             mkDistInfo example_fpG1 [] (Some 0) 10 true false false] 2]}
      (Some 5) None example_live_params [])
    (SetFinalityProvider (SetFinalityProvider empty_staking (example_fp example_fpG1)) (example_fp example_fpG2)) tt.

Lemma example_chainG_keyed : fps_keyed (stk example_chainG).
Proof. by apply SetFinalityProvider_keyed, SetFinalityProvider_keyed. Qed.

Lemma example_chainG_tables : tables_wf (fin example_chainG) ∧ powers_ok (fin example_chainG) 5.
Proof.
  split.
  - intros h. unfold keys_wf. simpl.
    destruct (decide (h = 5)) as [->|Hne]; [rewrite !lookup_singleton_eq|rewrite !lookup_singleton_ne by done]; simpl.
    + split; intros k v.
      * intros [[<- _]|[_ [<- _]%lookup_singleton_Some]]%lookup_insert_Some; done.
      * intros [<- _]%lookup_singleton_Some; done.
    + split; intros k v Hk%lookup_empty_Some; done.
  - split; [apply (bool_decide_unpack _); vm_compute; exact I|vm_compute; reflexivity].
Qed.

Lemma HandleResumeFinalityProposal_correct_witness : ∃ c',
  HandleResumeFinalityProposal (fenv := example_env) example_ctxG example_chainG [MarshalHex example_fpG2] 5 = Ok c' ∧
  sanctioned (stk c') example_fpG2 ∧ power_entry (fin c') 5 example_fpG2 = Some 0.
Proof.
  assert (is_ok (HandleResumeFinalityProposal (fenv := example_env) example_ctxG example_chainG
                   [MarshalHex example_fpG2] 5) = true) as H by (vm_compute; reflexivity).
  destruct (HandleResumeFinalityProposal (fenv := example_env) example_ctxG example_chainG [MarshalHex example_fpG2] 5)
    as [c'| |] eqn:Hok; [|discriminate H..].
  exists c'. split; [reflexivity|].
  destruct (HandleResumeFinalityProposal_correct (fenv := example_env) example_ctxG example_chainG
              [MarshalHex example_fpG2] 5 c' example_chainG_keyed (proj1 example_chainG_tables)
              (proj2 example_chainG_tables) Hok) as (Hs & Hp & _).
  split.
  - apply Forall_cons in Hs as [(pk & Hpk & Hs & _) _]. vm_compute in Hpk. injection Hpk as <-. exact Hs.
  - rewrite Hp. vm_compute. reflexivity.
Defined.

(** The handler compares the given strings, not the keys they denote. A key
    given in upper case passes the check that the provider did not vote: here a
    provider that voted at the halting height is jailed, while its voting power
    at that height stays, although the same key in lower case is refused. *)
Theorem resume_upper_case :
  let upper := "ABABABABABABABABABABABABABABABABABABABABABABABABABABABABABABABAB" in
  NewBIP340PubKeyFromHex upper = Ok example_fpG1 ∧ is_Some (get2 5 example_fpG1 (votes (fin example_chainG))) ∧
  is_ok (HandleResumeFinalityProposal (fenv := example_env) example_ctxG example_chainG [example_hexG1] 5) = false ∧
  ∃ c', HandleResumeFinalityProposal (fenv := example_env) example_ctxG example_chainG [upper] 5 = Ok c' ∧
    (IsJailed <$> finalityProviders (stk c') !! example_fpG1) = Some true ∧
    power_entry (fin c') 5 example_fpG1 = Some 10.
Proof.
  intros upper. split_and!; [vm_compute; reflexivity|by eexists|vm_compute; reflexivity|].
  assert (match HandleResumeFinalityProposal (fenv := example_env) example_ctxG example_chainG [upper] 5 with
          | Ok c' => (IsJailed <$> finalityProviders (stk c') !! example_fpG1) = Some true ∧
              power_entry (fin c') 5 example_fpG1 = Some 10
          | _ => False end) as H by (vm_compute; split; reflexivity).
  destruct (HandleResumeFinalityProposal (fenv := example_env) example_ctxG example_chainG [upper] 5)
    as [c'| |]; [by exists c'|done..].
Qed.
