(* ===== verification/FinalityMsgs.v ===== *)
(** * x/finality: the message server

    The handlers of finality votes, randomness commitments, unjailing and
    parameter updates ([keeper/msg_server.go]) with the signature checks of
    [types/msg.go]. *)

From S2P Require Import Prelude Bytes Store BbnTypes BtcStaking FinalityTypes PowerTable FinalityStore PubRand.
From S2P Require Import Sha256 Curve Eots.

(** The libraries the handlers call: the SDK's address parser, the Merkle proofs
    of CometBFT ([ProofFromProto] then [Verify] of a leaf against a root), its
    hash, and the BIP-340 signature parser and verifier. *)
Class FinalityLibs `{!Curve} := {
  AccAddressFromBech32 : string → option bytes;
  ProofFromProto : Proof → bool;
  MerkleVerify : Proof → bytes → bytes → bool;
  tmhash : bytes → bytes;
  ToBTCSig : bytes → bool;
  SchnorrVerify : bytes → bytes → point → bool
}.

Section msgs.
Context {curve : Curve} {libs : FinalityLibs}.
Context {E : Type} {fenv : FinalityEnv E}.

(** [ToFieldValNormalized] and [ToModNScalar]: a 32-byte big-endian integer
    reduced modulo the field size or the group order. *)
Definition ToFieldValNormalized (pr : bytes) : Z := be_value pr `mod` field_size.
Definition ToModNScalar (sig : bytes) : Z := modn (be_value sig).

(** [eots.Verify] on the encoded key, randomness and signature. *)
Definition verifyEOTS (fpBtcPk pubRand msgToSign sig : bytes) : outcome unit :=
  match ParsePubKey fpBtcPk with
  | None => Err (Errorf "ParsePubKey")
  | Some pk => Verify pk (ToFieldValNormalized pubRand) msgToSign (ToModNScalar sig)
  end.

Definition VerifyFinalitySig (m : MsgAddFinalitySig) (prCommit : PubRandCommit) : outcome unit :=
  match mas_FpBtcPk m, mas_PubRand m, mas_Proof m, mas_FinalitySig m with
  | Some fpBtcPk, Some pubRand, Some proof, Some finalitySig =>
    let heightOfProof := u64 (prc_StartHeight prCommit + u64 (pf_Index proof)) in
    if negb (mas_BlockHeight m =? heightOfProof) then Err ErrInvalidFinalitySig
    else if negb (u64 (pf_Total proof) =? prc_NumPubRand prCommit) then Err ErrInvalidFinalitySig
    else if negb (ProofFromProto proof) then Err ErrInvalidFinalitySig
    else if negb (MerkleVerify proof (prc_Commitment prCommit) pubRand) then Err ErrInvalidFinalitySig
    else verifyEOTS fpBtcPk pubRand (msgToSignForVote (mas_BlockHeight m) (mas_BlockAppHash m)) finalitySig
  | _, _, _, _ => Panic (Errorf "nil pointer dereference")
  end.

Definition validateActivationHeight (s : FinalityState) (height : Z) : outcome unit :=
  if height <? FinalityActivationHeight (finalityParams s) then Err ErrFinalityNotActivated else Ok tt.

Definition ShouldAcceptSigForHeight (e : E) (block : IndexedBlock) : bool :=
  let epochNum := GetEpochByHeight e (ib_Height block) in
  let timestamped := epochNum <=? GetLastFinalizedEpoch e in
  negb (ib_Finalized block && timestamped).

(** Slashes the provider and emits the slashing event; failing to slash is a
    panic. *)
Definition slashFinalityProvider (ctx : Ctx) (c : Chain E) (fpBtcPk : bytes) (evidence : Evidence)
    : outcome (Chain E) :=
  s ← must (SlashFinalityProvider ctx (GetTipHeight (env c)) (stk c) fpBtcPk);
  let c := set_stk c s in
  Ok (set_fin c (emit (fin c) (EventSlashedFinalityProvider evidence))).

(** The part of [AddFinalitySig] on a vote for a fork. *)
Definition handleForkVote (ctx : Ctx) (c : Chain E) (req : MsgAddFinalitySig) (indexedBlock : IndexedBlock)
    (fpPK : bytes) : outcome (Chain E) :=
  let evidence := mkEvidence (mas_FpBtcPk req) (mas_BlockHeight req) (mas_PubRand req)
                    (ib_AppHash indexedBlock) (mas_BlockAppHash req) None (mas_FinalitySig req) in
  '(c, evidence) ← match GetSig ctx (fin c) (mas_BlockHeight req) fpPK with
                   | Ok canonicalSig =>
                     let evidence := set_canonical_sig evidence (Some canonicalSig) in
                     c ← slashFinalityProvider ctx c fpPK evidence;
                     Ok (c, evidence)
                   | Err _ => Ok (c, evidence)
                   | Panic e => Panic e
                   end;
  s ← SetEvidence (fin c) evidence;
  Ok (set_fin c s).

(** The part of [AddFinalitySig] on a vote for the canonical block. *)
Definition handleCanonicalVote (ctx : Ctx) (c : Chain E) (req : MsgAddFinalitySig)
    (fp : FinalityProvider) (fpPK finalitySig : bytes) : outcome (Chain E) :=
  let c := set_fin c (SetSig (fin c) (mas_BlockHeight req) fpPK finalitySig) in
  s ← (if fp_HighestVotedHeight fp <? u32 (mas_BlockHeight req) then
         wrapf "failed to update the finality provider"
           (UpdateFinalityProvider (stk c) (with_highest_voted fp (u32 (mas_BlockHeight req))))
       else Ok (stk c));
  let c := set_stk c s in
  if HasEvidence (fin c) fpPK (mas_BlockHeight req) then
    match GetEvidence ctx (fin c) fpPK (mas_BlockHeight req) with
    | Ok evidence =>
      let evidence := set_canonical_sig evidence (Some finalitySig) in
      f ← SetEvidence (fin c) evidence;
      slashFinalityProvider ctx (set_fin c f) fpPK evidence
    | _ => Panic (Errorf "failed to get evidence despite HasEvidence returns true")
    end
  else Ok (set_env c (IndexRefundableMsg (env c) req)).

Definition AddFinalitySig (ctx : Ctx) (c : Chain E) (req : MsgAddFinalitySig) : outcome (Chain E) :=
  _ ← MsgAddFinalitySig_ValidateBasic AccAddressFromBech32 req;
  _ ← validateActivationHeight (fin c) (mas_BlockHeight req);
  indexedBlock ← GetBlock (fin c) (mas_BlockHeight req);
  if negb (ShouldAcceptSigForHeight (env c) indexedBlock) then Err ErrSigHeightOutdated
  else
  match mas_FpBtcPk req, mas_PubRand req, mas_FinalitySig req with
  | Some fpPK, Some pubRand, Some finalitySig =>
    if IsFinalityProviderDeleted (stk c) fpPK then Err ErrFinalityProviderIsDeleted
    else
    fp ← GetFinalityProvider (stk c) fpPK;
    if IsSlashed fp then Err ErrFpAlreadySlashed
    else if IsJailed fp then Err ErrFpAlreadyJailed
    else if GetVotingPower (fin c) fpPK (mas_BlockHeight req) =? 0 then Err ErrInvalidFinalitySig
    else
    duplicated ← match GetSig ctx (fin c) (mas_BlockHeight req) fpPK with
                 | Ok existingSig => Ok (bool_decide (existingSig = finalitySig))
                 | Err _ => Ok false
                 | Panic e => Panic e
                 end;
    if (duplicated : bool) then Err ErrDuplicatedFinalitySig
    else
    prCommit ← GetTimestampedPubRandCommitForHeight (GetLastFinalizedEpoch (env c)) (fin c) fpPK
                 (mas_BlockHeight req);
    _ ← VerifyFinalitySig req prCommit;
    let c := set_fin c (SetPubRand (fin c) fpPK (mas_BlockHeight req) pubRand) in
    if negb (bool_decide (ib_AppHash indexedBlock = mas_BlockAppHash req))
    then handleForkVote ctx c req indexedBlock fpPK
    else handleCanonicalVote ctx c req fp fpPK finalitySig
  | _, _, _ => Panic (Errorf "nil pointer dereference")
  end.

(** ** Randomness commitments *)

Definition HashToSign (m : MsgCommitPubRandList) : bytes :=
  tmhash (Uint64ToBigEndian (mcp_StartHeight m) ++ Uint64ToBigEndian (mcp_NumPubRand m) ++ mcp_Commitment m).

Definition VerifySig (m : MsgCommitPubRandList) (fpBtcPk : bytes) : outcome unit :=
  match ParsePubKey fpBtcPk with
  | None => Err (Errorf "ParsePubKey")
  | Some pk =>
    match mcp_Sig m with
    | None => Err (Errorf "empty signature")
    | Some sig =>
      if negb (ToBTCSig sig) then Err (Errorf "ToBTCSig")
      else if negb (SchnorrVerify sig (HashToSign m) pk) then Err (Errorf "failed to verify signature")
      else Ok tt
    end
  end.

Definition CommitPubRandList (ctx : Ctx) (c : Chain E) (req : MsgCommitPubRandList) : outcome (Chain E) :=
  _ ← MsgCommitPubRandList_ValidateBasic AccAddressFromBech32 req;
  if u64 (CtxHeight ctx + MaxPubRandCommitOffset) <=? mcp_StartHeight req then Err ErrInvalidPubRand
  else
  _ ← validateActivationHeight (fin c) (mcp_StartHeight req);
  if mcp_NumPubRand req <? MinPubRand (finalityParams (fin c)) then Err ErrTooFewPubRand
  else match mcp_FpBtcPk req with
  | None => Err ErrInvalidPubRand
  | Some fpBtcPk =>
    if negb (HasFinalityProvider (stk c) fpBtcPk) then Err ErrFpNotFound
    else if IsFinalityProviderDeleted (stk c) fpBtcPk then Err ErrFinalityProviderIsDeleted
    else match VerifySig req fpBtcPk with
    | Err _ => Err ErrInvalidPubRand
    | Panic e => Panic e
    | Ok _ =>
      match GetCurrentEpoch (env c) with
      | None => Panic (Errorf "cannot get the current epoch")
      | Some epochNum =>
        let prCommit := mkPubRandCommit (mcp_StartHeight req) (mcp_NumPubRand req) (mcp_Commitment req) epochNum in
        match GetLastPubRandCommit (fin c) fpBtcPk with
        | None => s ← SetPubRandCommit (fin c) fpBtcPk prCommit; Ok (set_fin c s)
        | Some lastPrCommit =>
          if mcp_StartHeight req <=? EndHeight lastPrCommit then Err ErrInvalidPubRand
          else s ← SetPubRandCommit (fin c) fpBtcPk prCommit; Ok (set_fin c s)
        end
      end
    end
  end.

(** ** Unjailing and parameters *)

(** [UnjailFinalityProvider] of the message server; [signer] is the signer of
    the message. *)
Definition MsgUnjailFinalityProvider (ctx : Ctx) (c : Chain E) (signer : string) (fpPk : bytes)
    : outcome (Chain E) :=
  fp ← wrapf "failed to get finality provider" (GetFinalityProvider (stk c) fpPk);
  if negb (bool_decide (fp_Addr fp = signer)) then Err (Errorf "the fp's address does not match the signer")
  else if negb (IsJailed fp) then Err ErrFpNotJailed
  else match signingInfos (fin c) !! fpPk with
  | None => Err (Errorf "failed to get the signing info of finality provider")
  | Some info =>
    jailingPeriodPassed ← IsJailingPeriodPassed info (HeaderTime ctx);
    if negb jailingPeriodPassed then Err ErrJailingPeriodNotPassed
    else s ← wrapf "failed to unjail finality provider"
               (UnjailFinalityProvider (GetTipHeight (env c)) (stk c) fpPk);
         Ok (set_stk c s)
  end.

Definition MsgUpdateParams (authority : string) (c : Chain E) (reqAuthority : string)
    (params : FinalityParams) : outcome (Chain E) :=
  if negb (bool_decide (authority = reqAuthority)) then Err ErrInvalidSigner
  else match FinalityParams_Validate params with
  | Ok _ => Ok (set_fin c (set_finalityParams (fin c) params))
  | _ => Err ErrInvalidProposalMsg
  end.

(** [Evidence.ExtractBTCSK] *)
Definition ExtractBTCSK (e : Evidence) : outcome Z :=
  if negb (IsSlashable ParsePubKey e)
  then Err (Errorf "the evidence lacks some fields so does not allow extracting BTC SK")
  else match ev_FpBtcPk e, ev_PubRand e, ev_CanonicalFinalitySig e, ev_ForkFinalitySig e with
  | Some pk, Some pr, Some canonicalSig, Some forkSig =>
    match ParsePubKey pk with
    | None => Err (Errorf "ParsePubKey")
    | Some btcPK =>
      Extract btcPK (ToFieldValNormalized pr) (canonicalMsgToSign e) (ToModNScalar canonicalSig)
        (forkMsgToSign e) (ToModNScalar forkSig)
    end
  | _, _, _, _ => Panic (Errorf "nil pointer dereference")
  end.

(** ** Accepted commitments *)

Lemma validateActivationHeight_Ok s h :
  validateActivationHeight s h = Ok tt ↔ FinalityActivationHeight (finalityParams s) ≤ h.
Proof using. unfold validateActivationHeight. destruct (Z.ltb_spec h (FinalityActivationHeight (finalityParams s))); split; done || lia. Qed.

Lemma CommitPubRandList_Ok ctx c req c' :
  in_u64 (mcp_StartHeight req) → in_u64 (mcp_NumPubRand req) →
  CommitPubRandList ctx c req = Ok c' →
  ∃ pk epoch, mcp_FpBtcPk req = Some pk ∧ VerifySig req pk = Ok tt ∧
    HasFinalityProvider (stk c) pk = true ∧ IsFinalityProviderDeleted (stk c) pk = false ∧
    FinalityActivationHeight (finalityParams (fin c)) ≤ mcp_StartHeight req ∧
    mcp_StartHeight req < u64 (CtxHeight ctx + MaxPubRandCommitOffset) ∧
    MinPubRand (finalityParams (fin c)) ≤ mcp_NumPubRand req ∧
    GetCurrentEpoch (env c) = Some epoch ∧
    let cm := mkPubRandCommit (mcp_StartHeight req) (mcp_NumPubRand req) (mcp_Commitment req) epoch in
    extends (fin c) pk cm ∧ SetPubRandCommit (fin c) pk cm = Ok (fin c') ∧ c' = set_fin c (fin c').
Proof using.
  intros U1 U2 H. unfold CommitPubRandList in H. apply bind_Ok in H as ([] & Hvb & H).
  apply MsgCommitPubRandList_no_overflow in Hvb as [Hn Hlt]; [|done..].
  destruct (Z.leb_spec (u64 (CtxHeight ctx + MaxPubRandCommitOffset)) (mcp_StartHeight req)); [done|].
  apply bind_Ok in H as ([] & Hact & H). apply validateActivationHeight_Ok in Hact.
  destruct (Z.ltb_spec (mcp_NumPubRand req) (MinPubRand (finalityParams (fin c)))); [done|].
  destruct (mcp_FpBtcPk req) as [pk|] eqn:Epk; [|done].
  destruct (HasFinalityProvider (stk c) pk) eqn:Ehas; [|done].
  destruct (IsFinalityProviderDeleted (stk c) pk) eqn:Edel; [done|]. cbn [negb] in H.
  destruct (VerifySig req pk) as [[]| |] eqn:Ev; [|done..].
  destruct (GetCurrentEpoch (env c)) as [epoch|] eqn:Eep; [|done].
  set (cm := mkPubRandCommit _ _ _ _) in H. exists pk, epoch. fold cm.
  assert (commit_wf cm) as Hwf by (unfold commit_wf, cm, in_u64 in *; simpl; lia).
  assert (extends (fin c) pk cm ∧ SetPubRandCommit (fin c) pk cm = Ok (fin c') ∧ c' = set_fin c (fin c')).
  { unfold extends. destruct (GetLastPubRandCommit (fin c) pk) as [l|] eqn:El.
    - destruct (Z.leb_spec (mcp_StartHeight req) (EndHeight l)); [done|].
      apply bind_Ok in H as (s & Hs & H). injection H as <-. split_and!; [done| |done..].
      intros l' Hl'. by simplify_eq.
    - apply bind_Ok in H as (s & Hs & H). by injection H as <-. }
  by split_and!.
Qed.

(** C35: Committing randomness. On stores whose commitments are well formed, an
    accepted commitment is signed by a registered, undeleted provider, starts at
    or after the activation height and before the block's height plus the allowed
    offset (a sum in uint64, as the handler computes it), and has enough
    entries; afterwards the stores are still well formed, and the heights
    covered are exactly those covered before plus the new range, under the new
    commitment: no committed randomness is replaced. *)
Theorem CommitPubRandList_correct ctx c req c' :
  in_u64 (mcp_StartHeight req) → in_u64 (mcp_NumPubRand req) →
  (∀ pk, commits_wf (fin c) pk) →
  CommitPubRandList ctx c req = Ok c' →
  ∃ pk epoch, mcp_FpBtcPk req = Some pk ∧ VerifySig req pk = Ok tt ∧
    HasFinalityProvider (stk c) pk = true ∧ IsFinalityProviderDeleted (stk c) pk = false ∧
    FinalityActivationHeight (finalityParams (fin c)) ≤ mcp_StartHeight req ∧
    mcp_StartHeight req < u64 (CtxHeight ctx + MaxPubRandCommitOffset) ∧
    MinPubRand (finalityParams (fin c)) ≤ mcp_NumPubRand req ∧
    GetCurrentEpoch (env c) = Some epoch ∧
    (∀ pk', commits_wf (fin c') pk') ∧
    ∀ pk' h cm, covers (fin c') pk' h cm ↔
      covers (fin c) pk' h cm ∨
      pk' = pk ∧ cm = mkPubRandCommit (mcp_StartHeight req) (mcp_NumPubRand req) (mcp_Commitment req) epoch ∧
      mcp_StartHeight req ≤ h < mcp_StartHeight req + mcp_NumPubRand req.
Proof using.
  intros U1 U2 Hwf H.
  apply CommitPubRandList_Ok in H as (pk & epoch & H1 & H2 & H3 & H4 & H5 & H6 & H7 & H8 & He & Hs & _); [|done..].
  set (cm0 := mkPubRandCommit _ _ _ _) in *.
  destruct (SetPubRandCommit_spec _ _ _ (Hwf pk) He) as (s' & Hs' & Hwf' & Hco & Hother & _).
  rewrite Hs in Hs'. injection Hs' as <-. exists pk, epoch. split_and!; try done.
  - intros pk'. destruct (decide (pk' = pk)) as [->|Hne]; [done|].
    destruct (Hother pk' Hne). by apply (commits_wf_ext (fin c)).
  - intros pk' h cm. split.
    + intros [Hc Hr]. destruct (decide (pk' = pk)) as [->|Hne].
      * rewrite Hco, lookup_insert_Some in Hc. destruct Hc as [[Heq <-]|[_ Hc]]; [by right|by left].
      * destruct (Hother pk' Hne) as [E0 _]. rewrite E0 in Hc. by left.
    + intros [Hc|(-> & -> & Hr)].
      * by apply (SetPubRandCommit_covers (fin c) (fin c') pk cm0).
      * split; [|done]. rewrite Hco. apply lookup_insert_eq.
Qed.

End msgs.

(** ** Witnesses

    The group of order 7 and a Merkle tree whose root is its only leaf. *)

Definition example_libs : @FinalityLibs toy_curve := {|
  AccAddressFromBech32 _ := Some [];
  ProofFromProto p := bool_decide (0 ≤ pf_Index p);
  MerkleVerify _ root leaf := bool_decide (root = leaf);
  tmhash := sha256;
  ToBTCSig _ := true;
  SchnorrVerify _ _ _ := true
|}.

(** The provider with secret key 2, at block 5, before any commitment. *)
Definition example_voter : bytes := be_bytes 32 2.
Definition example_rand : bytes := be_bytes 32 1.
Definition example_hash (n : Z) : bytes := be_bytes 32 n.
Definition example_ctx6 : Ctx := mkCtx 6 (example_hash 6) 0.
Definition example_chain : Chain unit :=
  mkChain (SetVotingPower (SetBlock (empty_finality DefaultFinalityParams) (mkBlock 5 (example_hash 5) false))
             example_voter 5 10)
    (SetFinalityProvider empty_staking (example_fp example_voter)) tt.
Definition example_commit : MsgCommitPubRandList :=
  mkMsgCommitPubRandList "bbn1" (Some example_voter) 1 100 example_rand (Some []).
Definition example_chain1 : Chain unit :=
  set_fin example_chain (set_pubRandCommitIndex (set_pubRandCommits (fin example_chain)
    {[example_voter := {[1 := mkPubRandCommit 1 100 example_rand 2]}]}) {[example_voter := [1]]}).

Lemma example_commits_wf pk : commits_wf (fin example_chain) pk.
Proof.
  constructor; unfold commitsOf, example_chain; simpl; rewrite !lookup_empty; simpl.
  - constructor.
  - intros h. rewrite lookup_empty. split; [by intros ?%elem_of_nil|by intros [? ?]].
  - intros h c. by rewrite lookup_empty.
  - intros h1 h2 c1. by rewrite lookup_empty.
Qed.

Lemma CommitPubRandList_correct_witness :
  CommitPubRandList (libs := example_libs) (fenv := example_env) example_ctx6 example_chain example_commit
    = Ok example_chain1 ∧ commits_wf (fin example_chain1) example_voter.
Proof.
  assert (CommitPubRandList (libs := example_libs) (fenv := example_env) example_ctx6 example_chain example_commit
    = Ok example_chain1) as H by (vm_compute; reflexivity).
  split; [exact H|].
  destruct (CommitPubRandList_correct (libs := example_libs) (fenv := example_env) example_ctx6 example_chain
    example_commit example_chain1) as (pk & ep & _ & _ & _ & _ & _ & _ & _ & _ & Hwf & _).
  - unfold in_u64. simpl. lia.
  - unfold in_u64. simpl. lia.
  - exact example_commits_wf.
  - exact H.
  - apply Hwf.
Defined.
