(* ===== verification/Slashing.v ===== *)
(** * Accountable voting

    The invariant of votes, evidence, randomness and slashing over every
    sequence of chain steps: a finality provider that signs two blocks at one
    height is slashed and its secret key can be extracted from the stored
    evidence, and nobody else is slashed by a vote. *)

From stdpp Require Import relations.
From S2P Require Import Prelude Bytes Store BbnTypes BtcStaking FinalityTypes PowerTable FinalityStore Tally.
From S2P Require Import PubRand Sha256 Curve Eots FinalityMsgs.

Section slashing.
Context {curve : Curve} {libs : FinalityLibs}.
Context {E : Type} {fenv : FinalityEnv E}.

(** ** What a valid vote is *)

(** The randomness [pr] of height [h] is opened from the commitment. *)
Definition opened (c : PubRandCommit) (h : Z) (pr : bytes) : Prop :=
  ∃ proof, u64 (prc_StartHeight c + u64 (pf_Index proof)) = h ∧
    u64 (pf_Total proof) = prc_NumPubRand c ∧ ProofFromProto proof = true ∧
    MerkleVerify proof (prc_Commitment c) pr = true.

(** [sig] is an accepted signature of [pk] on the block [appHash] at height [h]
    with the committed and revealed randomness [pr]. *)
Record signed (s : FinalityState) (pk : bytes) (h : Z) (pr appHash sig : bytes) : Prop := {
  sg_commit : ∃ c, covers s pk h c ∧ opened c h pr;
  sg_rand : get2 pk h (pubRands s) = Some pr;
  sg_eots : verifyEOTS pk pr (msgToSignForVote h appHash) sig = Ok tt;
  sg_lengths : length pk = 32%nat ∧ length appHash = 32%nat ∧ length sig = 32%nat
}.

Lemma VerifyFinalitySig_Ok m c :
  VerifyFinalitySig m c = Ok tt →
  ∃ pk pr proof sig, mas_FpBtcPk m = Some pk ∧ mas_PubRand m = Some pr ∧ mas_Proof m = Some proof ∧
    mas_FinalitySig m = Some sig ∧ opened c (mas_BlockHeight m) pr ∧
    verifyEOTS pk pr (msgToSignForVote (mas_BlockHeight m) (mas_BlockAppHash m)) sig = Ok tt.
Proof using.
  unfold VerifyFinalitySig. intros H.
  destruct (mas_FpBtcPk m) as [pk|] eqn:E1; [|done]. destruct (mas_PubRand m) as [pr|] eqn:E2; [|done].
  destruct (mas_Proof m) as [proof|] eqn:E3; [|done].
  destruct (mas_FinalitySig m) as [sig|] eqn:E4; [|done].
  destruct (Z.eqb_spec (mas_BlockHeight m) (u64 (prc_StartHeight c + u64 (pf_Index proof)))); [|done].
  destruct (Z.eqb_spec (u64 (pf_Total proof)) (prc_NumPubRand c)); [|done].
  destruct (ProofFromProto proof) eqn:E5; [|done].
  destruct (MerkleVerify proof _ pr) eqn:E6; [|done]. cbn [negb] in H.
  exists pk, pr, proof, sig. split_and!; try done. exists proof. split_and!; auto.
Qed.

(** ** Accepted votes *)

Record accepted (ctx : Ctx) (c : Chain E) (req : MsgAddFinalitySig)
    (b : IndexedBlock) (fp : FinalityProvider) (pk pr sig : bytes) : Prop := {
  ac_fields : mas_FpBtcPk req = Some pk ∧ mas_PubRand req = Some pr ∧ mas_FinalitySig req = Some sig;
  ac_lengths : length pk = 32%nat ∧ length (mas_BlockAppHash req) = 32%nat ∧ length sig = 32%nat ∧
               length pr = 32%nat;
  ac_active : FinalityActivationHeight (finalityParams (fin c)) ≤ mas_BlockHeight req;
  ac_block : blocks (fin c) !! mas_BlockHeight req = Some b;
  ac_fresh : ¬ (ib_Finalized b = true ∧ GetEpochByHeight (env c) (ib_Height b) ≤ GetLastFinalizedEpoch (env c));
  ac_fp : finalityProviders (stk c) !! pk = Some fp;
  ac_standing : IsSlashed fp = false ∧ fp_Jailed fp = false ∧ IsFinalityProviderDeleted (stk c) pk = false;
  ac_power : GetVotingPower (fin c) pk (mas_BlockHeight req) ≠ 0;
  ac_not_duplicate : mas_BlockHeight req ≤ CtxHeight ctx →
    get2 (mas_BlockHeight req) pk (votes (fin c)) ≠ Some sig;
  ac_commit : ∃ cm, GetPubRandCommitForHeight (fin c) pk (mas_BlockHeight req) = Ok cm ∧
    prc_EpochNum cm ≤ GetLastFinalizedEpoch (env c) ∧ GetLastFinalizedEpoch (env c) ≠ 0 ∧
    opened cm (mas_BlockHeight req) pr;
  ac_eots : verifyEOTS pk pr (msgToSignForVote (mas_BlockHeight req) (mas_BlockAppHash req)) sig = Ok tt
}.

Lemma ValidateBasic_lengths parse m :
  MsgAddFinalitySig_ValidateBasic parse m = Ok tt →
  ∃ pk pr proof sig, mas_FpBtcPk m = Some pk ∧ mas_PubRand m = Some pr ∧ mas_Proof m = Some proof ∧
    mas_FinalitySig m = Some sig ∧ length pk = 32%nat ∧ length pr = 32%nat ∧ length sig = 32%nat ∧
    length (mas_BlockAppHash m) = 32%nat.
Proof using.
  unfold MsgAddFinalitySig_ValidateBasic. intros H. case_bool_decide as E0; [done|].
  destruct (mas_FpBtcPk m) as [pk|]; [|done]. case_bool_decide as E1; [done|].
  destruct (mas_PubRand m) as [pr|]; [|done]. case_bool_decide as E2; [done|].
  destruct (mas_Proof m) as [proof|]; [|done].
  destruct (mas_FinalitySig m) as [sig|]; [|done]. case_bool_decide as E3; [done|].
  case_bool_decide as E4; [done|].
  exists pk, pr, proof, sig. split_and!; try done; by apply dec_stable.
Qed.

(** The state after recording the revealed randomness. *)
Definition with_rand (c : Chain E) (pk : bytes) (h : Z) (pr : bytes) : Chain E :=
  set_fin c (SetPubRand (fin c) pk h pr).

Lemma AddFinalitySig_inv ctx c req c' :
  AddFinalitySig ctx c req = Ok c' →
  ∃ b fp pk pr sig, accepted ctx c req b fp pk pr sig ∧
    let c1 := with_rand c pk (mas_BlockHeight req) pr in
    (ib_AppHash b ≠ mas_BlockAppHash req ∧ handleForkVote ctx c1 req b pk = Ok c' ∨
     ib_AppHash b = mas_BlockAppHash req ∧ handleCanonicalVote ctx c1 req fp pk sig = Ok c').
Proof using.
  unfold AddFinalitySig. intros H. apply bind_Ok in H as ([] & Hvb & H).
  apply ValidateBasic_lengths in Hvb as (pk & pr & proof & sig & E1 & E2 & E3 & E4 & L1 & L2 & L3 & L4).
  apply bind_Ok in H as ([] & Hact & H). apply bind_Ok in H as (b & Hb & H).
  apply GetBlock_Ok in Hb. destruct (ShouldAcceptSigForHeight (env c) b) eqn:Es; cbn [negb] in H; [|done].
  rewrite E1, E2, E4 in H. destruct (IsFinalityProviderDeleted (stk c) pk) eqn:Ed; [done|].
  apply bind_Ok in H as (fp & Hfp & H). apply GetFinalityProvider_Ok in Hfp.
  destruct (IsSlashed fp) eqn:Esl; [done|]. unfold IsJailed in H. destruct (fp_Jailed fp) eqn:Ej; [done|].
  destruct (Z.eqb_spec (GetVotingPower (fin c) pk (mas_BlockHeight req)) 0); [done|].
  apply bind_Ok in H as (dup & Hdup & H). destruct dup; [done|].
  apply bind_Ok in H as (cm & Hcm & H). apply bind_Ok in H as ([] & Hv & H).
  apply VerifyFinalitySig_Ok in Hv as (pk' & pr' & proof' & sig' & F1 & F2 & F3 & F4 & Hop & Hv).
  simplify_eq. exists b, fp, pk, pr, sig. split.
  - constructor; auto.
    + unfold validateActivationHeight in Hact. by destruct (Z.ltb_spec (mas_BlockHeight req)
        (FinalityActivationHeight (finalityParams (fin c)))).
    + unfold ShouldAcceptSigForHeight in Es. intros [Hf Ht]. rewrite Hf in Es.
      apply Z.leb_le in Ht. by rewrite Ht in Es.
    + intros Hle Hsig. unfold GetSig in Hdup. destruct (Z.ltb_spec (CtxHeight ctx) (mas_BlockHeight req)); [lia|].
      rewrite Hsig in Hdup. rewrite (bool_decide_false (sig = [])) in Hdup by (intros ->; simpl in *; lia).
      unfold NewSchnorrEOTSSig, SchnorrEOTSSigLen in Hdup.
      rewrite (bool_decide_true (length sig = 32%nat)) in Hdup by done. cbn [must] in Hdup.
      by rewrite bool_decide_true in Hdup.
    + unfold GetTimestampedPubRandCommitForHeight in Hcm. apply bind_Ok in Hcm as (cm' & Hcm & Hts).
      destruct (Z.eqb_spec (GetLastFinalizedEpoch (env c)) 0); [done|].
      destruct (Z.ltb_spec (GetLastFinalizedEpoch (env c)) (prc_EpochNum cm')); [done|].
      injection Hts as ->. exists cm. auto.
  - cbn zeta. fold (with_rand c pk (mas_BlockHeight req) pr) in H.
    destruct (bool_decide (ib_AppHash b = mas_BlockAppHash req)) eqn:Eb; cbn [negb] in H.
    + right. split; [by apply bool_decide_eq_true in Eb|done].
    + left. split; [by apply bool_decide_eq_false in Eb|done].
Qed.

(** ** Randomness is bound by the commitment *)

(** A Merkle root binds the leaf at each position of the tree. *)
Definition merkle_binding : Prop :=
  ∀ p1 p2 root leaf1 leaf2, ProofFromProto p1 = true → ProofFromProto p2 = true →
    u64 (pf_Total p1) = u64 (pf_Total p2) → u64 (pf_Index p1) = u64 (pf_Index p2) →
    MerkleVerify p1 root leaf1 = true → MerkleVerify p2 root leaf2 = true → leaf1 = leaf2.

Lemma u64_add_cancel a x y : u64 (a + u64 x) = u64 (a + u64 y) → u64 x = u64 y.
Proof using.
  unfold u64. rewrite !Zplus_mod_idemp_r. intros Hm.
  replace x with ((a + x) - a) by lia. replace y with ((a + y) - a) by lia.
  by rewrite <- (Zminus_mod_idemp_l (a + x)), Hm, Zminus_mod_idemp_l.
Qed.

Lemma opened_unique c h pr1 pr2 : merkle_binding → opened c h pr1 → opened c h pr2 → pr1 = pr2.
Proof using.
  intros Hb (p1 & H1 & T1 & P1 & V1) (p2 & H2 & T2 & P2 & V2).
  apply (Hb p1 p2 (prc_Commitment c)); try done; [congruence|].
  apply (u64_add_cancel (prc_StartHeight c)). congruence.
Qed.

Lemma GetPubRandCommitForHeight_covers s pk h c :
  commits_wf s pk → GetPubRandCommitForHeight s pk h = Ok c → covers s pk h c.
Proof using.
  intros Hwf H. unfold GetPubRandCommitForHeight in H. inv_ok H. injection H as <-.
  destruct (cw_key _ _ Hwf _ _ E4) as [Est Hc]. split; [congruence|].
  apply negb_false_iff, IsInRange_wf in E5; done.
Qed.

(** ** The invariant *)

Definition slashed (s : StakingState) (pk : bytes) : Prop :=
  ∃ fp, finalityProviders s !! pk = Some fp ∧ IsSlashed fp = true.

(** Every stored vote is an accepted signature on the indexed block; every
    stored evidence is an accepted signature on another block of that height,
    with the vote for the indexed block when there is one; a provider with both
    is slashed. *)
Record slash_inv (c : Chain E) : Prop := {
  si_fps : fps_keyed (stk c);
  si_commits : ∀ pk, commits_wf (fin c) pk;
  si_blocks : ∀ h b, blocks (fin c) !! h = Some b → ib_Height b = h;
  si_votes : ∀ h pk sig, get2 h pk (votes (fin c)) = Some sig →
    ∃ b pr, blocks (fin c) !! h = Some b ∧ signed (fin c) pk h pr (ib_AppHash b) sig;
  si_evidence : ∀ pk h ev, get2 pk h (evidences (fin c)) = Some ev →
    ∃ b pr fork fsig, blocks (fin c) !! h = Some b ∧ fork ≠ ib_AppHash b ∧
      ev = mkEvidence (Some pk) h (Some pr) (ib_AppHash b) fork (get2 h pk (votes (fin c))) (Some fsig) ∧
      signed (fin c) pk h pr fork fsig;
  si_slashed : ∀ pk h, is_Some (get2 pk h (evidences (fin c))) →
    is_Some (get2 h pk (votes (fin c))) → slashed (stk c) pk
}.

(** ** Steps that keep votes, evidence and randomness *)

Definition blocks_keep (s s' : FinalityState) : Prop :=
  ∀ h b, blocks s !! h = Some b → ∃ b', blocks s' !! h = Some b' ∧ ib_AppHash b' = ib_AppHash b.

Definition covers_keep (s s' : FinalityState) : Prop :=
  ∀ pk h cm, covers s pk h cm → covers s' pk h cm.

Lemma signed_keep s s' pk h pr a sig :
  signed s pk h pr a sig → covers_keep s s' → get2 pk h (pubRands s') = get2 pk h (pubRands s) →
  signed s' pk h pr a sig.
Proof using.
  intros [(cm & Hc & Ho) Hr He Hl] Hk Hp. constructor; [by eauto|congruence|done|done].
Qed.

Lemma covers_keep_same s s' : pubRandCommits s' = pubRandCommits s → covers_keep s s'.
Proof using. intros Hc pk h cm. unfold covers, commitsOf. by rewrite Hc. Qed.

Lemma signed_same s s' pk h pr a sig :
  signed s pk h pr a sig → pubRandCommits s' = pubRandCommits s → pubRands s' = pubRands s →
  signed s' pk h pr a sig.
Proof using.
  intros Hs Hc Hp. apply (signed_keep s); [done|by apply covers_keep_same|by rewrite Hp].
Qed.

Lemma slashed_keep s s' pk :
  fps_keyed s → entry_evolves (finalityProviders s) (finalityProviders s') →
  slashed s pk → slashed s' pk.
Proof using.
  intros Hk He (fp & Hfp & Hs). destruct (He pk fp Hfp (Hk _ _ Hfp)) as (fp' & Hfp' & _ & _ & Hs').
  exists fp'. split; [done|]. by apply Hs'.
Qed.

Lemma slash_inv_keep c c' :
  slash_inv c →
  votes (fin c') = votes (fin c) → evidences (fin c') = evidences (fin c) →
  pubRands (fin c') = pubRands (fin c) →
  (∀ pk, commits_wf (fin c') pk) → covers_keep (fin c) (fin c') →
  (∀ h b, blocks (fin c') !! h = Some b → ib_Height b = h) → blocks_keep (fin c) (fin c') →
  fps_keyed (stk c') → entry_evolves (finalityProviders (stk c)) (finalityProviders (stk c')) →
  slash_inv c'.
Proof using.
  intros [Hf _ _ Hv He Hs] Ev Ee Er Hcm Hcov Hbk Hb Hf' Hev. constructor; [done..| | |]; rewrite ?Ev, ?Ee.
  - intros h pk sig Hsig. destruct (Hv _ _ _ Hsig) as (b & pr & Hbl & Hsg).
    destruct (Hb _ _ Hbl) as (b' & Hbl' & Eh). rewrite <- Eh in Hsg. exists b', pr. split; [done|].
    eapply signed_keep; eauto. by rewrite Er.
  - intros pk h ev Hev0. destruct (He _ _ _ Hev0) as (b & pr & fork & fsig & Hbl & Hne & Heq & Hsg).
    destruct (Hb _ _ Hbl) as (b' & Hbl' & Eh). rewrite <- Eh in Hne, Heq.
    exists b', pr, fork, fsig. split_and!; [done..|]. eapply signed_keep; eauto. by rewrite Er.
  - intros pk h He0 Hv0. apply (slashed_keep (stk c)); eauto.
Qed.

Lemma finalizationLoop_blocks n i s s' :
  finalizationLoop n i s = Ok s' → (∀ h b, blocks s !! h = Some b → ib_Height b = h) →
  (∀ h b, blocks s' !! h = Some b → ib_Height b = h) ∧ blocks_keep s s' ∧
  s' = set_nextHeightToFinalize (set_blocks s (blocks s')) (nextHeightToFinalize s').
Proof using.
  revert i s. induction n as [|n IH]; intros i s H Hk; cbn [finalizationLoop] in H.
  { injection H as <-. split_and!; [done|by intros h b ?; exists b|by destruct s]. }
  apply bind_Ok in H as (ib & Hib & H). apply must_Ok, GetBlock_Ok in Hib.
  apply bind_Ok in H as (fpSet & _ & H). destruct fpSet as [fpSet|], (ib_Finalized ib) eqn:Ef; try done.
  - apply bind_Ok in H as (voters & _ & H). destruct (tally fpSet voters).
    + apply IH in H as (H1 & H2 & H3).
      * split_and!; [done| |by rewrite H3].
        intros h b Hb. assert (∃ b', blocks (finalizeBlock s ib) !! h = Some b' ∧ ib_AppHash b' = ib_AppHash b)
          as (b1 & Hb1 & E1); [|rewrite <- E1; by apply H2].
        unfold finalizeBlock. simpl. destruct (decide (ib_Height ib = h)) as [<-|Hne].
        -- rewrite lookup_insert_eq. eexists. split; [done|]. pose proof (Hk _ _ Hib). simpl. congruence.
        -- rewrite lookup_insert_ne by done. eauto.
      * intros h b. unfold finalizeBlock. simpl. rewrite lookup_insert_Some. intros [[<- <-]|[_ ?]]; auto.
    + injection H as <-. split_and!; [done|by intros h b ?; exists b|by destruct s].
  - apply IH in H as (H1 & H2 & H3); [|done]. split_and!; [done..|by rewrite H3].
Qed.

Lemma TallyBlocks_blocks ctx s n s' :
  TallyBlocks ctx s n = Ok s' → (∀ h b, blocks s !! h = Some b → ib_Height b = h) →
  (∀ h b, blocks s' !! h = Some b → ib_Height b = h) ∧ blocks_keep s s' ∧
  s' = set_nextHeightToFinalize (set_blocks s (blocks s')) (nextHeightToFinalize s').
Proof using.
  unfold TallyBlocks. intros H Hk. apply bind_Ok in H as (a & _ & H). cbn zeta in H.
  destruct (HasBlock s (CtxHeight ctx)) eqn:Eb; cbn [negb] in H.
  - by apply finalizationLoop_blocks in H.
  - apply finalizationLoop_blocks in H as (H1 & H2 & H3).
    + split_and!; [done| |by rewrite H3].
      intros h b Hb. apply H2. unfold IndexBlock, SetBlock. simpl.
      rewrite lookup_insert_ne; [done|]. intros <-.
      apply bool_decide_eq_false in Eb. by destruct Eb; eexists.
    + intros h b. unfold IndexBlock, SetBlock. simpl. rewrite lookup_insert_Some.
      intros [[<- <-]|[_ ?]]; auto.
Qed.

(** ** The vote handler *)

(** The header height of a block being executed is positive and not below any
    indexed height. *)
Definition executing (ctx : Ctx) (c : Chain E) : Prop :=
  0 < CtxHeight ctx ∧ ∀ h, is_Some (blocks (fin c) !! h) → h ≤ CtxHeight ctx.

Lemma with_rand_inv ctx c req b fp pk pr sig :
  merkle_binding → slash_inv c → accepted ctx c req b fp pk pr sig →
  let c1 := with_rand c pk (mas_BlockHeight req) pr in
  slash_inv c1 ∧ signed (fin c1) pk (mas_BlockHeight req) pr (mas_BlockAppHash req) sig.
Proof using.
  intros Hbind [Hf Hcm Hbk Hv He Hs] Hac. set (h := mas_BlockHeight req) in *. cbn zeta.
  destruct (ac_commit _ _ _ _ _ _ _ _ Hac) as (cm & Hget & _ & _ & Hop). fold h in Hget, Hop.
  apply GetPubRandCommitForHeight_covers in Hget as Hcov; [|done].
  assert (∀ pk' h' pr' a sig', signed (fin c) pk' h' pr' a sig' →
            signed (fin (with_rand c pk h pr)) pk' h' pr' a sig') as Hkeep.
  { intros pk' h' pr' a sig' [(cm' & Hc' & Ho') Hr' He' Hl'].
    constructor; [by exists cm'| |done|done].
    unfold with_rand, SetPubRand. simpl. rewrite get2_set2. case_decide as Eq; [|done].
    injection Eq as <- <-. f_equal. rewrite (covers_unique _ _ _ _ _ (Hcm pk) Hc' Hcov) in Ho'.
    by apply (opened_unique cm h). }
  split.
  - constructor; [done| |done|..|done]; simpl.
    + intros pk'. by apply (commits_wf_ext (fin c)).
    + intros h' pk' sig' Hsig. destruct (Hv _ _ _ Hsig) as (b' & pr' & Hb' & Hsg). eauto.
    + intros pk' h' ev Hev. destruct (He _ _ _ Hev) as (b' & pr' & fork & fsig & ? & ? & ? & Hsg).
      exists b', pr', fork, fsig. auto.
  - destruct (ac_lengths _ _ _ _ _ _ _ _ Hac) as (L1 & L2 & L3 & _).
    constructor; [by exists cm| |by apply (ac_eots _ _ _ _ _ _ _ _ Hac)|done].
    unfold with_rand, SetPubRand. simpl. apply get2_set2_eq.
Qed.

Lemma slashFinalityProvider_Ok ctx c pk ev c' :
  slashFinalityProvider ctx c pk ev = Ok c' →
  ∃ s tip, SlashFinalityProvider ctx tip (stk c) pk = Ok s ∧
    c' = mkChain (emit (fin c) (EventSlashedFinalityProvider ev)) s (env c).
Proof using.
  unfold slashFinalityProvider. intros H. apply bind_Ok in H as (s & Hs & H). rewrite must_Ok in Hs.
  injection H as <-. by exists s, (GetTipHeight (env c)).
Qed.

Lemma SlashFinalityProvider_slashed ctx tip s pk s' :
  0 < CtxHeight ctx → fps_keyed s → SlashFinalityProvider ctx tip s pk = Ok s' →
  slashed s' pk ∧ fps_keyed s' ∧ entry_evolves (finalityProviders s) (finalityProviders s').
Proof using.
  intros Hpos Hk H.
  destruct (registry_step_evolves (λ _, None) s s') as [Hev Hk']; [by eapply step_slash|done|].
  split_and!; [|done..]. apply SlashFinalityProvider_Ok in H as (fp & h & Hfp & _ & _ & ->).
  exists (with_slashed fp (CtxHeight ctx) h). split.
  - simpl. rewrite <- (Hk _ _ Hfp). apply lookup_insert_eq.
  - unfold IsSlashed. simpl. by apply Z.ltb_lt.
Qed.

Lemma SlashFinalityProvider_only ctx tip s pk s' k :
  fps_keyed s → SlashFinalityProvider ctx tip s pk = Ok s' → slashed s' k → slashed s k ∨ k = pk.
Proof using.
  intros Hk H (fp & Hfp & Hs). apply SlashFinalityProvider_Ok in H as (fp0 & h & Hfp0 & _ & _ & ->).
  simpl in Hfp. rewrite (Hk _ _ Hfp0), lookup_insert_Some in Hfp.
  destruct Hfp as [[<- _]|[_ Hfp]]; [by right|]. left. by exists fp.
Qed.

Lemma UpdateHighestVoted_only s s' fp h pk k :
  fps_keyed s → finalityProviders s !! pk = Some fp →
  UpdateFinalityProvider s (with_highest_voted fp h) = Ok s' → slashed s' k → slashed s k.
Proof using.
  intros Hk Hfp H (fp' & Hfp' & Hs). apply UpdateFinalityProvider_Ok in H as [_ ->].
  simpl in Hfp'. rewrite (Hk _ _ Hfp), lookup_insert_Some in Hfp'.
  destruct Hfp' as [[<- <-]|[_ Hfp']]; by eexists.
Qed.

(** The vote store as the handlers read it. *)
Lemma GetSig_vote ctx c h pk :
  slash_inv c → h ≤ CtxHeight ctx →
  GetSig ctx (fin c) h pk = match get2 h pk (votes (fin c)) with
                            | Some sig => Ok sig | None => Err ErrVoteNotFound end.
Proof using.
  intros Hinv Hh. unfold GetSig. rewrite (proj2 (Z.ltb_ge _ _) Hh).
  destruct (get2 h pk (votes (fin c))) as [sig|] eqn:Ev; [|done].
  destruct (si_votes _ Hinv _ _ _ Ev) as (b & pr & _ & Hsg).
  destruct (sg_lengths _ _ _ _ _ _ Hsg) as (_ & _ & L).
  rewrite bool_decide_false by (intros ->; simpl in *; lia).
  unfold NewSchnorrEOTSSig, SchnorrEOTSSigLen. by rewrite bool_decide_true.
Qed.

(** A fork vote stores the evidence, with the stored vote, and slashes when there
    is one. *)
Lemma handleForkVote_inv ctx c req b pk c' :
  slash_inv c → mas_BlockHeight req ≤ CtxHeight ctx → mas_FpBtcPk req = Some pk →
  handleForkVote ctx c req b pk = Ok c' →
  let h := mas_BlockHeight req in
  let ev := mkEvidence (Some pk) h (mas_PubRand req) (ib_AppHash b) (mas_BlockAppHash req)
              (get2 h pk (votes (fin c))) (mas_FinalitySig req) in
  ∃ c1, (get2 h pk (votes (fin c)) = None ∧ c1 = c ∨
         is_Some (get2 h pk (votes (fin c))) ∧ slashFinalityProvider ctx c pk ev = Ok c1) ∧
    c' = set_fin c1 (set_evidences (fin c1) (set2 pk h ev (evidences (fin c1)))).
Proof using.
  intros Hinv Hh Hpk H. unfold handleForkVote in H. rewrite Hpk, GetSig_vote in H by done. cbn zeta.
  destruct (get2 (mas_BlockHeight req) pk (votes (fin c))) as [sig|] eqn:Ev.
  - unfold set_canonical_sig in H. cbn in H. apply bind_Ok in H as ([c1 ev1] & H1 & H).
    apply bind_Ok in H1 as (c1' & H1 & E1). injection E1 as -> <-.
    cbn in H. injection H as <-. exists c1. split; [right; eauto|done].
  - cbn in H. injection H as <-. exists c. auto.
Qed.

Lemma slash_inv_slash ctx tip c pk s ev :
  0 < CtxHeight ctx → slash_inv c → SlashFinalityProvider ctx tip (stk c) pk = Ok s →
  slash_inv (mkChain (emit (fin c) ev) s (env c)) ∧ slashed s pk.
Proof using.
  intros Hpos Hinv Hs. pose proof (si_fps _ Hinv) as Hk.
  destruct (SlashFinalityProvider_slashed _ _ _ _ _ Hpos Hk Hs) as (Hsl & Hk' & Hev).
  split; [|done]. apply (slash_inv_keep c); try done.
  - intros pk'. by apply (commits_wf_ext (fin c)), (si_commits _ Hinv).
  - by apply covers_keep_same.
  - apply (si_blocks _ Hinv).
  - intros h b Hb. eauto.
Qed.

Lemma slash_inv_set_evidence c pk h b pr fork fsig :
  slash_inv c → blocks (fin c) !! h = Some b → fork ≠ ib_AppHash b →
  signed (fin c) pk h pr fork fsig →
  (is_Some (get2 h pk (votes (fin c))) → slashed (stk c) pk) →
  slash_inv (set_fin c (set_evidences (fin c)
    (set2 pk h (mkEvidence (Some pk) h (Some pr) (ib_AppHash b) fork (get2 h pk (votes (fin c))) (Some fsig))
       (evidences (fin c))))).
Proof using.
  intros [Hf Hcm Hbk Hv He Hs] Hb Hne Hsg Hsl. constructor; simpl; [done| |done| | |].
  - intros pk'. by apply (commits_wf_ext (fin c)).
  - intros h' pk' sig' Hsig. destruct (Hv _ _ _ Hsig) as (b' & pr' & Hb' & Hsg').
    exists b', pr'. split; [done|]. by apply (signed_same (fin c)).
  - intros pk' h' ev'. rewrite get2_set2. case_decide as Eq; intros Hev.
    + injection Eq as <- <-. injection Hev as <-. exists b, pr, fork, fsig.
      split_and!; [done..|]. by apply (signed_same (fin c)).
    + destruct (He _ _ _ Hev) as (b' & pr' & fork' & fsig' & ? & ? & ? & ?).
      exists b', pr', fork', fsig'. split_and!; [done..|]. by apply (signed_same (fin c)).
  - intros pk' h'. rewrite get2_set2. case_decide as Eq; [|apply Hs].
    injection Eq as <- <-. auto.
Qed.

Lemma handleForkVote_preserves ctx c req b pk pr sig c' :
  executing ctx c → slash_inv c → blocks (fin c) !! mas_BlockHeight req = Some b →
  mas_FpBtcPk req = Some pk → mas_PubRand req = Some pr → mas_FinalitySig req = Some sig →
  mas_BlockAppHash req ≠ ib_AppHash b →
  signed (fin c) pk (mas_BlockHeight req) pr (mas_BlockAppHash req) sig →
  handleForkVote ctx c req b pk = Ok c' →
  slash_inv c' ∧ is_Some (get2 pk (mas_BlockHeight req) (evidences (fin c'))) ∧
  (∀ k h', is_Some (get2 k h' (evidences (fin c))) → is_Some (get2 k h' (evidences (fin c')))) ∧
  votes (fin c') = votes (fin c) ∧
  ∀ k, slashed (stk c') k → slashed (stk c) k ∨
    k = pk ∧ is_Some (get2 (mas_BlockHeight req) pk (votes (fin c'))).
Proof using.
  intros [Hpos Hh] Hinv Hb E1 E2 E3 Hne Hsg H.
  apply handleForkVote_inv in H as (c1 & Hc1 & ->); [|done|eauto|done].
  rewrite E2, E3 in *. simpl. rewrite get2_set2_eq.
  assert (evidences (fin c1) = evidences (fin c)) as Ee.
  { destruct Hc1 as [[_ ->]|[_ Hsl]]; [done|]. by apply slashFinalityProvider_Ok in Hsl as (? & ? & _ & ->). }
  assert (slash_inv c1 ∧ votes (fin c1) = votes (fin c) ∧ blocks (fin c1) = blocks (fin c) ∧
          signed (fin c1) pk (mas_BlockHeight req) pr (mas_BlockAppHash req) sig ∧
          (is_Some (get2 (mas_BlockHeight req) pk (votes (fin c))) → slashed (stk c1) pk) ∧
          ∀ k, slashed (stk c1) k → slashed (stk c) k ∨
            k = pk ∧ is_Some (get2 (mas_BlockHeight req) pk (votes (fin c))))
    as (Hinv1 & Ev & Eb & Hsg1 & Hsl & Honly).
  { destruct Hc1 as [[Hn ->]|[Hsome Hsl]].
    - split_and!; [done..|rewrite Hn; by intros [? ?]|auto].
    - apply slashFinalityProvider_Ok in Hsl as (s & tip & Hs & ->).
      destruct (slash_inv_slash _ _ _ _ _ (EventSlashedFinalityProvider (mkEvidence (Some pk)
        (mas_BlockHeight req) (Some pr) (ib_AppHash b) (mas_BlockAppHash req)
        (get2 (mas_BlockHeight req) pk (votes (fin c))) (Some sig))) Hpos Hinv Hs) as [Hi Hsl].
      split_and!; [done|done|done|by apply (signed_same (fin c))|done|].
      intros k Hk. pose proof (si_fps _ Hinv) as Hkey.
      destruct (SlashFinalityProvider_only _ _ _ _ _ _ Hkey Hs Hk); auto. }
  split_and!; [|by eexists| |done|by rewrite Ev].
  2: { intros k h' Hs0. rewrite get2_set2, Ee. by case_decide. }
  rewrite <- Ev. apply slash_inv_set_evidence; try done.
  - by rewrite Eb.
  - by rewrite Ev.
Qed.

(** A vote on the indexed block, with the evidence completed and the provider
    slashed when there was evidence. *)
Lemma slash_inv_set_vote c c' pk h b pr sig :
  slash_inv c → blocks (fin c) !! h = Some b → signed (fin c) pk h pr (ib_AppHash b) sig →
  votes (fin c') = set2 h pk sig (votes (fin c)) →
  (evidences (fin c') = match get2 pk h (evidences (fin c)) with
                       | Some ev => set2 pk h (set_canonical_sig ev (Some sig)) (evidences (fin c))
                       | None => evidences (fin c) end) →
  blocks (fin c') = blocks (fin c) → pubRands (fin c') = pubRands (fin c) →
  pubRandCommits (fin c') = pubRandCommits (fin c) →
  pubRandCommitIndex (fin c') = pubRandCommitIndex (fin c) →
  fps_keyed (stk c') → entry_evolves (finalityProviders (stk c)) (finalityProviders (stk c')) →
  (is_Some (get2 pk h (evidences (fin c))) → slashed (stk c') pk) →
  slash_inv c'.
Proof using.
  intros [Hf Hcm Hbk Hv He Hs] Hb Hsg Ev Ee Eb Er Ec Ei Hf' Hev Hsl.
  assert (∀ k h', get2 k h' (evidences (fin c')) =
    if decide ((pk, h) = (k, h')) then (λ ev, set_canonical_sig ev (Some sig)) <$> get2 k h' (evidences (fin c))
    else get2 k h' (evidences (fin c))) as Hev'.
  { intros k h'. rewrite Ee. destruct (get2 pk h (evidences (fin c))) as [ev|] eqn:E0.
    - rewrite get2_set2. case_decide as Eq; [|done]. injection Eq as <- <-. by rewrite E0.
    - case_decide as Eq; [|done]. injection Eq as <- <-. by rewrite E0. }
  constructor; [done| |by rewrite Eb|..].
  - intros k. apply (commits_wf_ext (fin c)); [by unfold commitsOf; rewrite Ec|by rewrite Ei|done].
  - intros h' k sig'. rewrite Ev, Eb, get2_set2. case_decide as Eq; intros Hsig.
    + injection Eq as <- <-. injection Hsig as <-. exists b, pr. split; [done|]. by apply (signed_same (fin c)).
    + destruct (Hv _ _ _ Hsig) as (b' & pr' & ? & ?). exists b', pr'. split; [done|].
      by apply (signed_same (fin c)).
  - intros k h' ev. rewrite Hev', Ev, Eb, get2_set2. intros H0. case_decide as Eq.
    + injection Eq as <- <-. apply fmap_Some in H0 as (ev0 & H0 & ->).
      destruct (He _ _ _ H0) as (b' & pr' & fork & fsig & ? & ? & -> & ?).
      exists b', pr', fork, fsig. rewrite decide_True by done.
      split_and!; [done..|]. by apply (signed_same (fin c)).
    + rewrite decide_False by congruence. destruct (He _ _ _ H0) as (b' & pr' & fork & fsig & ? & ? & ? & ?).
      exists b', pr', fork, fsig. split_and!; [done..|]. by apply (signed_same (fin c)).
  - intros k h'. rewrite Hev', Ev, get2_set2. case_decide as Eq.
    + injection Eq as <- <-. intros H0 _. apply Hsl. by apply fmap_is_Some in H0.
    + rewrite decide_False by congruence. intros He0 Hv0. apply (slashed_keep (stk c)); eauto.
Qed.

Lemma handleCanonicalVote_preserves ctx c req b fp pk pr sig c' :
  executing ctx c → slash_inv c → blocks (fin c) !! mas_BlockHeight req = Some b →
  finalityProviders (stk c) !! pk = Some fp →
  signed (fin c) pk (mas_BlockHeight req) pr (ib_AppHash b) sig →
  handleCanonicalVote ctx c req fp pk sig = Ok c' →
  slash_inv c' ∧ get2 (mas_BlockHeight req) pk (votes (fin c')) = Some sig ∧
  (∀ k h', is_Some (get2 k h' (evidences (fin c))) → is_Some (get2 k h' (evidences (fin c')))) ∧
  (∀ k h', is_Some (get2 h' k (votes (fin c))) → is_Some (get2 h' k (votes (fin c')))) ∧
  ∀ k, slashed (stk c') k → slashed (stk c) k ∨
    k = pk ∧ is_Some (get2 pk (mas_BlockHeight req) (evidences (fin c'))).
Proof using.
  intros [Hpos Hh] Hinv Hb Hfp Hsg H. set (h := mas_BlockHeight req) in *.
  assert (h ≤ CtxHeight ctx) as Hle by eauto. unfold handleCanonicalVote in H. fold h in H.
  apply bind_Ok in H as (s & Hs & H).
  assert (fps_keyed s ∧ entry_evolves (finalityProviders (stk c)) (finalityProviders s) ∧
          ∀ k, slashed s k → slashed (stk c) k) as (Hk & Hev & Honly).
  { pose proof (si_fps _ Hinv) as Hk. destruct (fp_HighestVotedHeight fp <? u32 h).
    - rewrite wrapf_Ok in Hs. simpl in Hs. destruct (registry_step_evolves (λ _, None) (stk c) s); [|done|].
      + eapply step_voted; [by apply GetFinalityProvider_Ok|done].
      + split_and!; [done..|]. intros k. by apply (UpdateHighestVoted_only (stk c) s fp (u32 h) pk).
    - injection Hs as <-. split_and!; [done|apply entry_evolves_refl|done]. }
  unfold HasEvidence, GetEvidence in H. simpl in H.
  destruct (get2 pk h (evidences (fin c))) as [ev|] eqn:Ee.
  - rewrite bool_decide_true in H by eauto. rewrite (proj2 (Z.ltb_ge _ _) Hle) in H.
    destruct (si_evidence _ Hinv _ _ _ Ee) as (b' & pr' & fork & fsig & _ & _ & Hev0 & _).
    rewrite Hev0 in H. cbn in H. apply slashFinalityProvider_Ok in H as (s' & tip & Hs' & ->). simpl in Hs'.
    destruct (SlashFinalityProvider_slashed _ _ _ _ _ Hpos Hk Hs') as (Hsl & Hk' & Hev').
    simpl. rewrite !get2_set2_eq. split_and!.
    2: done.
    2: { intros k h' Hs0. rewrite get2_set2. by case_decide. }
    2: { intros k h' Hs0. rewrite get2_set2. by case_decide. }
    2: { intros k Hk0. destruct (SlashFinalityProvider_only _ _ _ _ _ _ Hk Hs' Hk0); eauto. }
    eapply (slash_inv_set_vote c); eauto; simpl.
    + by rewrite Ee, Hev0.
    + by eapply entry_evolves_trans.
  - rewrite bool_decide_false in H by (by intros [? ?]). injection H as <-. simpl.
    split_and!; [|by rewrite get2_set2_eq|done| |auto].
    2: { intros k h' Hs0. rewrite get2_set2. by case_decide. }
    eapply (slash_inv_set_vote c); eauto; simpl; rewrite Ee; [done|by intros [? ?]].
Qed.

(** What an accepted vote does, over the invariant. *)
Lemma AddFinalitySig_preserves ctx c req c' :
  merkle_binding → executing ctx c → slash_inv c → AddFinalitySig ctx c req = Ok c' →
  slash_inv c' ∧
  (∀ k h, is_Some (get2 k h (evidences (fin c))) → is_Some (get2 k h (evidences (fin c')))) ∧
  (∀ k h, is_Some (get2 h k (votes (fin c))) → is_Some (get2 h k (votes (fin c')))) ∧
  ∃ b pk, mas_FpBtcPk req = Some pk ∧ blocks (fin c) !! mas_BlockHeight req = Some b ∧
    (ib_AppHash b = mas_BlockAppHash req → is_Some (get2 (mas_BlockHeight req) pk (votes (fin c')))) ∧
    (ib_AppHash b ≠ mas_BlockAppHash req → is_Some (get2 pk (mas_BlockHeight req) (evidences (fin c')))) ∧
    ∀ k, slashed (stk c') k → slashed (stk c) k ∨
      k = pk ∧ is_Some (get2 (mas_BlockHeight req) pk (votes (fin c'))) ∧
      is_Some (get2 pk (mas_BlockHeight req) (evidences (fin c'))).
Proof using.
  intros Hbind Hex Hinv H. apply AddFinalitySig_inv in H as (b & fp & pk & pr & sig & Hac & H). cbn zeta in H.
  destruct (with_rand_inv _ _ _ _ _ _ _ _ Hbind Hinv Hac) as [Hinv1 Hsg].
  destruct (ac_fields _ _ _ _ _ _ _ _ Hac) as (E1 & E2 & E3).
  pose proof (ac_block _ _ _ _ _ _ _ _ Hac) as Hb. pose proof (ac_fp _ _ _ _ _ _ _ _ Hac) as Hfp.
  destruct H as [[Hne H]|[Heq H]].
  - apply (handleForkVote_preserves ctx _ req b pk pr sig) in H as (H1 & H2 & H3 & H4 & H5); try done.
    split_and!; [done|done|by rewrite H4|]. exists b, pk. split_and!; [done..|].
    intros k Hk. destruct (H5 k Hk) as [|[-> ?]]; auto.
  - apply (handleCanonicalVote_preserves ctx _ req b fp pk pr sig) in H as (H1 & H2 & H3 & H4 & H5); try done.
    2: by rewrite Heq.
    split_and!; [done..|]. exists b, pk. split_and!; [done|done|by rewrite H2|done|].
    intros k Hk. destruct (H5 k Hk) as [|[-> ?]]; [auto|]. rewrite H2. eauto.
Qed.

Lemma AddFinalitySig_blocks ctx c req c' :
  AddFinalitySig ctx c req = Ok c' → blocks (fin c') = blocks (fin c).
Proof using.
  intros H. apply AddFinalitySig_inv in H as (b & fp & pk & pr & sig & _ & [[_ H]|[_ H]]).
  - unfold handleForkVote in H. apply bind_Ok in H as ([c1 ev] & H1 & H).
    apply bind_Ok in H as (f & Hf & H). injection H as <-. unfold SetEvidence in Hf. inv_ok Hf.
    injection Hf as <-. simpl. destruct (GetSig _ _ _ _); [|by injection H1 as <- _|done].
    apply bind_Ok in H1 as (c2 & H1 & H2). injection H2 as <- _.
    by apply slashFinalityProvider_Ok in H1 as (? & ? & _ & ->).
  - unfold handleCanonicalVote in H. apply bind_Ok in H as (s & _ & H).
    destruct (HasEvidence _ _ _); [|by injection H as <-]. destruct (GetEvidence _ _ _ _); [|done..].
    apply bind_Ok in H as (f & Hf & H). unfold SetEvidence in Hf. inv_ok Hf. injection Hf as <-.
    by apply slashFinalityProvider_Ok in H as (? & ? & _ & ->).
Qed.

(** ** Chain steps *)

(** A step of the chain: a vote, a commitment of randomness, the tallying of
    blocks, an operation of the staking registry, or anything that leaves the
    blocks, votes, evidence, commitments and randomness as they are. *)
Inductive chain_step : Chain E → Chain E → Prop :=
  | step_vote ctx req c c' :
      executing ctx c → AddFinalitySig ctx c req = Ok c' → chain_step c c'
  | step_commit ctx req c c' :
      in_u64 (mcp_StartHeight req) → in_u64 (mcp_NumPubRand req) →
      CommitPubRandList ctx c req = Ok c' → chain_step c c'
  | step_tally ctx n c f : TallyBlocks ctx (fin c) n = Ok f → chain_step c (set_fin c f)
  | step_registry parse c s : registry_step parse (stk c) s → chain_step c (set_stk c s)
  | step_other c f e :
      blocks f = blocks (fin c) → votes f = votes (fin c) → evidences f = evidences (fin c) →
      pubRands f = pubRands (fin c) → pubRandCommits f = pubRandCommits (fin c) →
      pubRandCommitIndex f = pubRandCommitIndex (fin c) → chain_step c (mkChain f (stk c) e).

Lemma CommitPubRandList_keep ctx c req c' :
  in_u64 (mcp_StartHeight req) → in_u64 (mcp_NumPubRand req) →
  slash_inv c → CommitPubRandList ctx c req = Ok c' →
  slash_inv c' ∧ votes (fin c') = votes (fin c) ∧ evidences (fin c') = evidences (fin c).
Proof using.
  intros U1 U2 Hinv H. apply CommitPubRandList_Ok in H as (pk & ep & _ & _ & _ & _ & _ & _ & _ & _ & He & Hs & Hc);
    [|done..]. set (cm := mkPubRandCommit _ _ _ _) in *.
  pose proof (si_commits _ Hinv) as Hwf.
  destruct (SetPubRandCommit_spec _ _ _ (Hwf pk) He) as (s' & Hs' & Hwf' & _ & Hother & Hfr).
  rewrite Hs in Hs'. injection Hs' as <-.
  assert (votes (fin c') = votes (fin c) ∧ evidences (fin c') = evidences (fin c)) as [Ev Ee] by (by rewrite Hfr).
  split_and!; [|done..]. apply (slash_inv_keep c); try done.
  - by rewrite Hfr.
  - intros k. destruct (decide (k = pk)) as [->|Hne]; [done|]. destruct (Hother k Hne).
    by apply (commits_wf_ext (fin c)).
  - intros k h cm'. by apply (SetPubRandCommit_covers (fin c) (fin c') pk cm).
  - rewrite Hfr. simpl. apply (si_blocks _ Hinv).
  - intros h b Hb. rewrite Hfr. simpl. eauto.
  - rewrite Hc. apply (si_fps _ Hinv).
  - rewrite Hc. apply entry_evolves_refl.
Qed.

Lemma chain_step_preserves c c' :
  merkle_binding → chain_step c c' → slash_inv c →
  slash_inv c' ∧
  (∀ k h, is_Some (get2 k h (evidences (fin c))) → is_Some (get2 k h (evidences (fin c')))) ∧
  (∀ k h, is_Some (get2 h k (votes (fin c))) → is_Some (get2 h k (votes (fin c')))).
Proof using.
  intros Hbind [ctx req c0 c1 Hex H|ctx req c0 c1 U1 U2 H|ctx n c0 f H|parse c0 s H|c0 f e Eb Ev Ee Er Ec Ei] Hinv.
  - by apply (AddFinalitySig_preserves ctx c0 req) in H as (H1 & H2 & H3 & _).
  - apply CommitPubRandList_keep in H as (H1 & H2 & H3); [|done..]. by rewrite H2, H3.
  - apply TallyBlocks_blocks in H as (H1 & H2 & H3); [|apply (si_blocks _ Hinv)].
    assert (votes f = votes (fin c0) ∧ evidences f = evidences (fin c0)) as [Ev Ee] by (by rewrite H3).
    simpl. rewrite Ev, Ee. split; [|done]. apply (slash_inv_keep c0); simpl; try done.
    + by rewrite H3.
    + intros k. apply (commits_wf_ext (fin c0)); [by rewrite H3..|apply (si_commits _ Hinv)].
    + apply covers_keep_same. by rewrite H3.
    + apply (si_fps _ Hinv).
    + apply entry_evolves_refl.
  - simpl. split; [|done]. destruct (registry_step_evolves parse _ _ H (si_fps _ Hinv)) as [Hev Hk].
    apply (slash_inv_keep c0); simpl; try done;
      [apply (si_commits _ Hinv)|by apply covers_keep_same|apply (si_blocks _ Hinv)|intros h b; eauto].
  - simpl. rewrite Ev, Ee. split; [|done]. apply (slash_inv_keep c0); simpl; try done.
    + intros k. apply (commits_wf_ext (fin c0)); [by unfold commitsOf; rewrite Ec|by rewrite Ei|apply (si_commits _ Hinv)].
    + by apply covers_keep_same.
    + rewrite Eb. apply (si_blocks _ Hinv).
    + intros h b. rewrite Eb. eauto.
    + apply (si_fps _ Hinv).
    + apply entry_evolves_refl.
Qed.

Lemma blocks_keep_same s s' : blocks s' = blocks s → blocks_keep s s'.
Proof using. intros Hb h b ?. rewrite Hb. eauto. Qed.

Lemma chain_step_blocks c c' : chain_step c c' → slash_inv c → blocks_keep (fin c) (fin c').
Proof using.
  intros [ctx req c0 c1 Hex H|ctx req c0 c1 U1 U2 H|ctx n c0 f H|parse c0 s H|c0 f e Eb Ev Ee Er Ec Ei] Hinv.
  - by apply blocks_keep_same, (AddFinalitySig_blocks ctx c0 req).
  - apply CommitPubRandList_Ok in H as (pk & ep & _ & _ & _ & _ & _ & _ & _ & _ & He & Hs & _); [|done..].
    destruct (SetPubRandCommit_spec _ _ _ (si_commits _ Hinv pk) He) as (s' & Hs' & _ & _ & _ & Hfr).
    rewrite Hs in Hs'. injection Hs' as <-. apply blocks_keep_same. by rewrite Hfr.
  - by apply TallyBlocks_blocks in H as (_ & H & _); [|apply (si_blocks _ Hinv)].
  - by apply blocks_keep_same.
  - by apply blocks_keep_same.
Qed.

Lemma chain_steps_preserve c c' :
  merkle_binding → rtc chain_step c c' → slash_inv c →
  slash_inv c' ∧
  (∀ k h, is_Some (get2 k h (evidences (fin c))) → is_Some (get2 k h (evidences (fin c')))) ∧
  (∀ k h, is_Some (get2 h k (votes (fin c))) → is_Some (get2 h k (votes (fin c')))) ∧
  blocks_keep (fin c) (fin c').
Proof using.
  intros Hbind. induction 1 as [c|c1 c2 c3 Hst _ IH]; intros Hinv.
  { split_and!; [done..|by apply blocks_keep_same]. }
  destruct (chain_step_preserves _ _ Hbind Hst Hinv) as (H1 & H2 & H3).
  destruct (IH H1) as (H4 & H5 & H6 & H7). split_and!; auto.
  intros h b Hb. destruct (chain_step_blocks _ _ Hst Hinv _ _ Hb) as (b2 & Hb2 & <-). by apply H7.
Qed.

(** ** Extraction from stored evidence *)

Context {claws : CurveLaws}.

(** The two messages of an evidence have different challenges: the hash
    separates them. *)
Definition challenges_differ (pk : bytes) (ev : Evidence) : Prop :=
  ∀ P pr, ParsePubKey pk = Some P → ev_PubRand ev = Some pr →
    challenge (ToFieldValNormalized pr) P (sha256 (canonicalMsgToSign ev)) ≠
    challenge (ToFieldValNormalized pr) P (sha256 (forkMsgToSign ev)).

Lemma verifyEOTS_Ok pk pr m sig :
  verifyEOTS pk pr m sig = Ok tt →
  ∃ P, ParsePubKey pk = Some P ∧ P ≠ infinity ∧
    Verify P (ToFieldValNormalized pr) m (ToModNScalar sig) = Ok tt.
Proof using claws.
  unfold verifyEOTS. destruct (ParsePubKey pk) as [P|] eqn:Ep; [|done]. intros H. exists P.
  split_and!; [done|by apply ParsePubKey_spec in Ep as (? & _)|done].
Qed.

Lemma evidence_extracts c pk h ev :
  slash_inv c → get2 pk h (evidences (fin c)) = Some ev → is_Some (get2 h pk (votes (fin c))) →
  challenges_differ pk ev →
  ∃ sk P, ExtractBTCSK ev = Ok sk ∧ ParsePubKey pk = Some P ∧ pmul sk G = P.
Proof using claws.
  intros Hinv Hev [sig Hsig] Hch.
  destruct (si_evidence _ Hinv _ _ _ Hev) as (b & pr & fork & fsig & Hb & Hne & Heq & Hsf).
  destruct (si_votes _ Hinv _ _ _ Hsig) as (b' & pr' & Hb' & Hsc). rewrite Hb in Hb'. injection Hb' as <-.
  assert (pr' = pr) as -> by (pose proof (sg_rand _ _ _ _ _ _ Hsc); pose proof (sg_rand _ _ _ _ _ _ Hsf); congruence).
  destruct (verifyEOTS_Ok _ _ _ _ (sg_eots _ _ _ _ _ _ Hsc)) as (P & HP & Hfin & V1).
  destruct (verifyEOTS_Ok _ _ _ _ (sg_eots _ _ _ _ _ _ Hsf)) as (P' & HP' & _ & V2).
  rewrite HP in HP'. injection HP' as <-.
  destruct (sg_lengths _ _ _ _ _ _ Hsc) as (_ & L1 & _). destruct (sg_lengths _ _ _ _ _ _ Hsf) as (_ & L2 & L3).
  rewrite Hsig in Heq. destruct (Verify_twice P _ _ _ _ _ Hfin V1 V2) as (e1 & e2 & E1 & E2 & Hrel).
  destruct (extractFromHashes_correct P (ToFieldValNormalized pr) _ (ToModNScalar sig) _ (ToModNScalar fsig)
    e1 e2 Hfin E1 E2) as (sk & Hsk & Hpk); [|done|].
  { intros ->. apply (Hch P pr HP); subst ev; [done|]. unfold canonicalMsgToSign, forkMsgToSign. simpl. congruence. }
  exists sk, P. split_and!; [|done..]. unfold ExtractBTCSK, IsSlashable, Evidence_ValidateBasic. subst ev. simpl.
  rewrite HP, L1, L2, L3. simpl. unfold Extract, canonicalMsgToSign, forkMsgToSign. simpl. done.
Qed.

(** C1: Equivocation is slashed and exposes the key. In every state reachable
    from one satisfying the invariant, a provider for whom both a vote for the
    indexed block and evidence of a vote for another block at the same height
    are stored is slashed, the evidence carries that vote, and extraction from
    the evidence returns the provider's secret key, provided the Merkle tree
    binds its leaves and the hash separates the two signed messages. *)
Theorem equivocation_exposes_key c0 c pk h sig ev :
  merkle_binding → slash_inv c0 → rtc chain_step c0 c →
  get2 h pk (votes (fin c)) = Some sig → get2 pk h (evidences (fin c)) = Some ev →
  challenges_differ pk ev →
  slashed (stk c) pk ∧ ev_CanonicalFinalitySig ev = Some sig ∧
  ∃ sk P, ExtractBTCSK ev = Ok sk ∧ ParsePubKey pk = Some P ∧ pmul sk G = P.
Proof using claws.
  intros Hbind Hinv0 Hst Hsig Hev Hch. destruct (chain_steps_preserve _ _ Hbind Hst Hinv0) as (Hinv & _).
  split_and!; [by eapply (si_slashed _ Hinv)| |by eapply evidence_extracts].
  destruct (si_evidence _ Hinv _ _ _ Hev) as (? & ? & ? & ? & _ & _ & -> & _). done.
Qed.

(** C3: Double voting. Two accepted votes of one provider at one height, one for
    the indexed block and the other for a different block, in either order and
    with any steps of the chain in between, leave the provider slashed and both
    votes on record. The chain starts in a state that satisfies the slashing
    invariant, and a Merkle root is assumed to bind the public randomness it
    commits to. *)
Theorem double_vote_is_slashed ctx1 ctx2 req1 req2 c0 c1 c2 c3 pk h b :
  merkle_binding → slash_inv c0 → executing ctx1 c0 → executing ctx2 c2 →
  mas_FpBtcPk req1 = Some pk → mas_FpBtcPk req2 = Some pk →
  mas_BlockHeight req1 = h → mas_BlockHeight req2 = h →
  blocks (fin c0) !! h = Some b →
  (mas_BlockAppHash req1 = ib_AppHash b ∧ mas_BlockAppHash req2 ≠ ib_AppHash b ∨
   mas_BlockAppHash req1 ≠ ib_AppHash b ∧ mas_BlockAppHash req2 = ib_AppHash b) →
  AddFinalitySig ctx1 c0 req1 = Ok c1 → rtc chain_step c1 c2 → AddFinalitySig ctx2 c2 req2 = Ok c3 →
  slashed (stk c3) pk ∧ is_Some (get2 h pk (votes (fin c3))) ∧ is_Some (get2 pk h (evidences (fin c3))).
Proof using.
  intros Hbind Hinv0 Hex1 Hex2 P1 P2 h1 h2 Hb Hcase A1 Hst A2.
  pose proof (AddFinalitySig_blocks _ _ _ _ A1) as Eb1.
  apply AddFinalitySig_preserves in A1 as (Hinv1 & _ & _ & b1 & pk1 & Q1 & B1 & V1 & F1 & _); [|done..].
  destruct (chain_steps_preserve _ _ Hbind Hst Hinv1) as (Hinv2 & M2e & M2v & Kb).
  apply AddFinalitySig_preserves in A2 as (Hinv3 & M3e & M3v & b3 & pk3 & Q3 & B3 & V3 & F3 & _); [|done..].
  destruct (Kb h b) as (b2 & Hb2 & Eh2); [by rewrite Eb1|]. simplify_eq.
  assert (is_Some (get2 (mas_BlockHeight req1) pk (votes (fin c3))) ∧
          is_Some (get2 pk (mas_BlockHeight req1) (evidences (fin c3)))) as [Hv He].
  { destruct Hcase as [[C1 C2]|[C1 C2]].
    - split; [by apply M3v, M2v, V1|]. rewrite <- h2. apply F3. congruence.
    - split; [rewrite <- h2; apply V3; congruence|]. apply M3e, M2e, F1. congruence. }
  split_and!; [by eapply (si_slashed _ Hinv3)|done..].
Qed.

(** C5: Only equivocators are slashed by votes. When handling a vote leaves a
    provider slashed who was not slashed before, it is the voter, and two
    accepted signatures of theirs on different blocks of the same height, with
    the same committed randomness, are on record. *)
Theorem only_equivocators_slashed ctx c req c' pk :
  merkle_binding → executing ctx c → slash_inv c → AddFinalitySig ctx c req = Ok c' →
  slashed (stk c') pk → ¬ slashed (stk c) pk →
  ∃ h pr hash1 hash2 sig1 sig2, mas_FpBtcPk req = Some pk ∧ hash1 ≠ hash2 ∧
    signed (fin c') pk h pr hash1 sig1 ∧ signed (fin c') pk h pr hash2 sig2.
Proof using.
  intros Hbind Hex Hinv H Hs Hns.
  apply AddFinalitySig_preserves in H as (Hinv' & _ & _ & b & pk' & Hpk & _ & _ & _ & Honly); [|done..].
  destruct (Honly pk Hs) as [|(-> & [sig Hv] & [ev He])]; [done|].
  destruct (si_votes _ Hinv' _ _ _ Hv) as (b1 & pr1 & Hb1 & S1).
  destruct (si_evidence _ Hinv' _ _ _ He) as (b2 & pr2 & fork & fsig & Hb2 & Hne & _ & S2).
  assert (pr2 = pr1) as -> by (pose proof (sg_rand _ _ _ _ _ _ S1); pose proof (sg_rand _ _ _ _ _ _ S2); congruence).
  rewrite Hb1 in Hb2. injection Hb2 as <-.
  exists (mas_BlockHeight req), pr1, (ib_AppHash b1), fork, sig, fsig. auto.
Qed.

(** C10: What an accepted vote has passed. A vote is accepted only at or after the
    activation height, for an indexed block that is not both finalised and
    timestamped, from a registered provider that is neither deleted, slashed nor
    jailed and has voting power at that height, when the same vote is not yet
    stored, with randomness opened from a timestamped commitment for that height
    and a valid one-time signature on the height and block hash. *)
Theorem AddFinalitySig_accepts_only ctx c req c' :
  AddFinalitySig ctx c req = Ok c' → ∃ b fp pk pr sig, accepted ctx c req b fp pk pr sig.
Proof using.
  intros H. apply AddFinalitySig_inv in H as (b & fp & pk & pr & sig & Hac & _). eauto 10.
Qed.

End slashing.

(** ** Witnesses

    The provider of [FinalityMsgs] commits randomness, votes for block 5 and then
    for another block at height 5. *)

Definition example_vote (hash sig : Z) : MsgAddFinalitySig :=
  mkMsgAddFinalitySig "bbn1" (Some example_voter) 5 (Some example_rand)
    (Some (mkProof 100 4 [] [])) (example_hash hash) (Some (be_bytes 32 sig)).

Definition example_AddFinalitySig :=
  AddFinalitySig (libs := example_libs) (fenv := example_env) example_ctx6.
Definition example_run (c : Chain unit) (req : MsgAddFinalitySig) : Chain unit :=
  match example_AddFinalitySig c req with Ok c => c | _ => c end.
Definition example_chain2 : Chain unit := example_run example_chain1 (example_vote 5 4).
Definition example_chain3 : Chain unit := example_run example_chain2 (example_vote 7 5).

Lemma example_voted : example_AddFinalitySig example_chain1 (example_vote 5 4) = Ok example_chain2.
Proof. vm_compute. reflexivity. Qed.

Lemma example_forked : example_AddFinalitySig example_chain2 (example_vote 7 5) = Ok example_chain3.
Proof. vm_compute. reflexivity. Qed.

Lemma example_binding : merkle_binding (libs := example_libs).
Proof.
  intros p1 p2 root l1 l2 _ _ _ _ H1 H2. simpl in *.
  apply bool_decide_eq_true in H1, H2. congruence.
Qed.

Lemma example_committed :
  CommitPubRandList (libs := example_libs) (fenv := example_env) example_ctx6 example_chain example_commit
    = Ok example_chain1.
Proof. vm_compute. reflexivity. Qed.

Lemma example_blocks (m : gmap Z IndexedBlock) :
  m = {[5 := mkBlock 5 (example_hash 5) false]} → ∀ h, is_Some (m !! h) → h ≤ 6.
Proof. intros -> h [? [<- _]%lookup_singleton_Some]. lia. Qed.

Lemma example_executing c :
  blocks (fin c) = {[5 := mkBlock 5 (example_hash 5) false]} → executing (E := unit) example_ctx6 c.
Proof. intros H. split; [done|]. by apply example_blocks. Qed.

Lemma example_slash_inv : slash_inv (libs := example_libs) example_chain.
Proof.
  constructor.
  - apply SetFinalityProvider_keyed. intros pk fp H. simpl in H. by apply lookup_empty_Some in H.
  - apply example_commits_wf.
  - intros h b H. unfold example_chain, SetVotingPower, SetBlock in H. simpl in H.
    apply lookup_insert_Some in H as [[<- <-]|[_ H]]; [done|by apply lookup_empty_Some in H].
  - intros h pk sig H. unfold get2, example_chain in H. simpl in H. rewrite lookup_empty in H. simpl in H.
    by apply lookup_empty_Some in H.
  - intros pk h ev H. unfold get2, example_chain in H. simpl in H. rewrite lookup_empty in H. simpl in H.
    by apply lookup_empty_Some in H.
  - intros pk h [ev H]. unfold get2, example_chain in H. simpl in H. rewrite lookup_empty in H. simpl in H.
    by apply lookup_empty_Some in H.
Qed.

Lemma example_commit_step :
  chain_step (libs := example_libs) (fenv := example_env) example_chain example_chain1.
Proof.
  eapply (step_commit example_ctx6 example_commit); [unfold in_u64; simpl; lia..|]. apply example_committed.
Qed.

Lemma example_slash_inv1 : slash_inv (libs := example_libs) example_chain1.
Proof.
  apply (chain_step_preserves (fenv := example_env) example_chain example_chain1);
    [exact example_binding|exact example_commit_step|exact example_slash_inv].
Qed.

Lemma example_slash_inv2 : slash_inv (libs := example_libs) example_chain2.
Proof.
  apply (AddFinalitySig_preserves (fenv := example_env) example_ctx6 example_chain1 (example_vote 5 4));
    [exact example_binding|by apply example_executing|exact example_slash_inv1|exact example_voted].
Qed.

Definition example_evidence : Evidence :=
  mkEvidence (Some example_voter) 5 (Some example_rand) (example_hash 5) (example_hash 7)
    (Some (be_bytes 32 4)) (Some (be_bytes 32 5)).

Lemma equivocation_exposes_key_witness :
  slashed (stk example_chain3) example_voter ∧
  ∃ sk, ExtractBTCSK (curve := toy_curve) example_evidence = Ok sk.
Proof.
  destruct (equivocation_exposes_key (libs := example_libs) (fenv := example_env) (claws := toy_laws)
    example_chain example_chain3 example_voter 5 (be_bytes 32 4) example_evidence)
    as (Hs & _ & sk & P & Hsk & _).
  - exact example_binding.
  - exact example_slash_inv.
  - eapply rtc_l; [exact example_commit_step|]. eapply rtc_l.
    + eapply (step_vote example_ctx6 (example_vote 5 4)); [by apply example_executing|exact example_voted].
    + apply rtc_once. eapply (step_vote example_ctx6 (example_vote 7 5));
        [by apply example_executing; vm_compute|exact example_forked].
  - vm_compute. reflexivity.
  - vm_compute. reflexivity.
  - intros P pr HP Hpr. vm_compute in HP. injection HP as <-. injection Hpr as <-. vm_compute. discriminate.
  - split; [exact Hs|]. exists sk. exact Hsk.
Defined.

Lemma double_vote_is_slashed_witness : slashed (stk example_chain3) example_voter.
Proof.
  apply (double_vote_is_slashed (libs := example_libs) (fenv := example_env) example_ctx6 example_ctx6
    (example_vote 5 4) (example_vote 7 5) example_chain1 example_chain2 example_chain2 example_chain3
    example_voter 5 (mkBlock 5 (example_hash 5) false)).
  - exact example_binding.
  - exact example_slash_inv1.
  - by apply example_executing.
  - apply example_executing. vm_compute. reflexivity.
  - reflexivity.
  - reflexivity.
  - reflexivity.
  - reflexivity.
  - vm_compute. reflexivity.
  - left. split; [reflexivity|]. vm_compute. discriminate.
  - exact example_voted.
  - apply rtc_refl.
  - exact example_forked.
Defined.

Lemma only_equivocators_slashed_witness :
  ∃ h pr hash1 hash2 sig1 sig2, hash1 ≠ hash2 ∧
    signed (libs := example_libs) (fin example_chain3) example_voter h pr hash1 sig1 ∧
    signed (libs := example_libs) (fin example_chain3) example_voter h pr hash2 sig2.
Proof.
  destruct (only_equivocators_slashed (libs := example_libs) (fenv := example_env) example_ctx6 example_chain2
    (example_vote 7 5) example_chain3 example_voter)
    as (h & pr & hash1 & hash2 & sig1 & sig2 & _ & H1 & H2 & H3).
  - exact example_binding.
  - apply example_executing. vm_compute. reflexivity.
  - exact example_slash_inv2.
  - exact example_forked.
  - eexists. split; vm_compute; reflexivity.
  - intros (fp & Hfp & Hs). vm_compute in Hfp. injection Hfp as <-. vm_compute in Hs. discriminate Hs.
  - exists h, pr, hash1, hash2, sig1, sig2. split; [exact H1|split; [exact H2|exact H3]].
Defined.

Lemma AddFinalitySig_accepts_only_witness :
  ∃ b fp pk pr sig, accepted (libs := example_libs) (fenv := example_env) example_ctx6 example_chain1
    (example_vote 5 4) b fp pk pr sig.
Proof.
  apply (AddFinalitySig_accepts_only (libs := example_libs) (fenv := example_env) example_ctx6 example_chain1
    (example_vote 5 4) example_chain2). exact example_voted.
Defined.
