(* ===== verification/TxFormatter.v ===== *)
(** * btctxformatter/formatter.go: checkpoints in Bitcoin transactions

    A checkpoint is written to Bitcoin as two OP_RETURN payloads: the first
    carries epoch, block hash, bitmap and submitter address, the second the BLS
    signature and a checksum of the first. Reading them back strips the headers,
    matches the checksum and cuts the fields out again. *)

From S2P Require Import Prelude Bytes Sha256.

(** ** The format *)

Record formatHeader := mkFormatHeader { fh_tag : bytes; fh_version : Z; fh_part : Z }.
Record BabylonData := mkBabylonData { bd_Data : bytes; bd_Index : Z }.
Record RawBtcCheckpoint := mkRawBtcCheckpoint {
  rbc_Epoch : Z;               (* uint64 *)
  rbc_BlockHash : bytes;
  rbc_BitMap : bytes;
  rbc_SubmitterAddress : bytes;
  rbc_BlsSig : bytes
}.

Definition TagLength : nat := 4.
Definition CurrentVersion : Z := 0.
Definition firstPartIndex : Z := 0.
Definition secondPartIndex : Z := 1.
Definition headerLength : nat := TagLength + 1.
Definition BlockHashLength : nat := 32.
Definition BitMapLength : nat := 13.
Definition AddressLength : nat := 20.
Definition NumberOfParts : Z := 2.
Definition firstPartHashLength : nat := 10.
Definition BlsSigLength : nat := 48.
Definition EpochLength : nat := 8.
Definition firstPartLength : nat := headerLength + BlockHashLength + AddressLength + EpochLength + BitMapLength.
Definition secondPartLength : nat := headerLength + BlsSigLength + firstPartHashLength.
Definition RawBTCCheckpointLength : nat := EpochLength + BlockHashLength + BitMapLength + BlsSigLength + AddressLength.

(** ** Encoding *)

(** The version in the low four bits, the part number in the high four. *)
Definition getVerHalf (version halfNumber : Z) : Z :=
  let verHalf := Z.lor (Z.land 0 0xf0) (Z.land version 0xf) in
  Z.lor (Z.land verHalf 0xf) (u8 (Z.shiftl halfNumber 4)).

Definition encodeHeader (tag : bytes) (version halfNumber : Z) : bytes :=
  tag ++ [byte_of_Z (getVerHalf version halfNumber)].

Definition U64ToBEBytes (u : Z) : bytes := be_bytes 8 u.

Definition encodeFirstOpRetrun (tag : bytes) (version epoch : Z) (appHash bitMap submitterAddress : bytes) : bytes :=
  encodeHeader tag version firstPartIndex ++ U64ToBEBytes epoch ++ appHash ++ bitMap ++ submitterAddress.

Definition getCheckSum (firstTxBytes : bytes) : bytes := take firstPartHashLength (sha256 firstTxBytes).

Definition encodeSecondOpReturn (tag : bytes) (version : Z) (firstOpReturnBytes blsSig : bytes) : bytes :=
  encodeHeader tag version secondPartIndex ++ blsSig ++ getCheckSum (drop headerLength firstOpReturnBytes).

Definition EncodeCheckpointData (tag : bytes) (version : Z) (raw : RawBtcCheckpoint) : outcome (bytes * bytes) :=
  if negb (Nat.eqb (length tag) TagLength) then Err (Errorf "tag should have 4 bytes")
  else if CurrentVersion <? version then Err (Errorf "invalid format version")
  else if negb (Nat.eqb (length (rbc_BlockHash raw)) BlockHashLength) then Err (Errorf "appHash should have 32 bytes")
  else if negb (Nat.eqb (length (rbc_BitMap raw)) BitMapLength) then Err (Errorf "bitmap should have 13 bytes")
  else if negb (Nat.eqb (length (rbc_BlsSig raw)) BlsSigLength) then Err (Errorf "BlsSig should have 48 bytes")
  else if negb (Nat.eqb (length (rbc_SubmitterAddress raw)) AddressLength) then Err (Errorf "address should have 20 bytes")
  else
    let firstHalf := encodeFirstOpRetrun tag version (rbc_Epoch raw) (rbc_BlockHash raw) (rbc_BitMap raw)
                       (rbc_SubmitterAddress raw) in
    let secondHalf := encodeSecondOpReturn tag version firstHalf (rbc_BlsSig raw) in
    Ok (firstHalf, secondHalf).

Definition MustEncodeCheckpointData (tag : bytes) (version : Z) (raw : RawBtcCheckpoint) : outcome (bytes * bytes) :=
  must (EncodeCheckpointData tag version raw).

(** ** Decoding *)

(** Slicing or indexing past the end of the data panics. *)
Definition parseHeader (data : bytes) : outcome formatHeader :=
  if Nat.ltb (length data) TagLength then Panic (Errorf "slice bounds out of range")
  else match data !! TagLength with
  | None => Panic (Errorf "index out of range")
  | Some b =>
    let verHalf := byte_code b in
    Ok (mkFormatHeader (take TagLength data) (Z.land verHalf 0xf) (Z.shiftr verHalf 4))
  end.

Definition validateHeader (header : formatHeader) (expectedTag : bytes) (expectedPart : Z) : outcome unit :=
  if negb (bool_decide (fh_tag header = expectedTag)) then Err (Errorf "data does not have expected tag")
  else if CurrentVersion <? fh_version header then Err (Errorf "header have invalid version")
  else if negb (fh_part header =? expectedPart) then Err (Errorf "header have invalid part number")
  else Ok tt.

Definition GetCheckpointData (tag : bytes) (version partIndex : Z) (data : bytes) : outcome bytes :=
  if 1 <? partIndex then Err (Errorf "invalid part index")
  else if CurrentVersion <? version then Err (Errorf "not supported version")
  else if (partIndex =? 0) && negb (Nat.eqb (length data) firstPartLength) then Err (Errorf "invalid length")
  else if (partIndex =? 1) && negb (Nat.eqb (length data) secondPartLength) then Err (Errorf "invalid length")
  else
    header ← parseHeader data;
    _ ← validateHeader header tag partIndex;
    Ok (drop headerLength data).

(** The first of the two parts the data is. *)
Fixpoint findPart (tag : bytes) (version : Z) (data : bytes) (idxs : list Z) : outcome BabylonData :=
  match idxs with
  | [] => Err (Errorf "not valid babylon data")
  | idx :: idxs =>
    match GetCheckpointData tag version idx data with
    | Ok d => Ok (mkBabylonData d idx)
    | Err _ => findPart tag version data idxs
    | Panic e => Panic e
    end
  end.

Definition IsBabylonCheckpointData (tag : bytes) (version : Z) (data : bytes) : outcome BabylonData :=
  findPart tag version data (seqZ 0 NumberOfParts).

Definition DecodeRawCheckpoint (version : Z) (btcCkptBytes : bytes) : outcome RawBtcCheckpoint :=
  if CurrentVersion <? version then Err (Errorf "not supported version")
  else if negb (Nat.eqb (length btcCkptBytes) RawBTCCheckpointLength)
  then Err (Errorf "invalid raw checkpoint data length")
  else
    let b := btcCkptBytes in
    let '(epochBytes, b) := (take EpochLength b, drop EpochLength b) in
    let '(appHashBytes, b) := (take BlockHashLength b, drop BlockHashLength b) in
    let '(bitmapBytes, b) := (take BitMapLength b, drop BitMapLength b) in
    let '(addressBytes, b) := (take AddressLength b, drop AddressLength b) in
    let blsSigBytes := take BlsSigLength b in
    Ok (mkRawBtcCheckpoint (be_value epochBytes) appHashBytes bitmapBytes addressBytes blsSigBytes).

Definition ConnectParts (version : Z) (f s : bytes) : outcome bytes :=
  if CurrentVersion <? version then Err (Errorf "not supported version")
  else if negb (Nat.eqb (length f) (firstPartLength - headerLength)) then Err (Errorf "not valid first part")
  else if negb (Nat.eqb (length s) (secondPartLength - headerLength)) then Err (Errorf "not valid second part")
  else
    let hashStartIdx := (length s - firstPartHashLength)%nat in
    let expectedHash := drop hashStartIdx s in
    if negb (bool_decide (take firstPartHashLength (sha256 f) = expectedHash)) then Err (Errorf "parts do not connect")
    else Ok (f ++ take hashStartIdx s).

(** ** Headers *)

Lemma verHalf_byte part :
  0 ≤ part ≤ 1 → getVerHalf CurrentVersion part = 16 * part ∧ Z.land (16 * part) 0xf = 0 ∧ Z.shiftr (16 * part) 4 = part.
Proof. intros H. assert (part = 0 ∨ part = 1) as [->| ->] by lia; vm_compute; auto. Qed.

(** Data with the header of a part, and only such, is accepted as that part. *)
Lemma GetCheckpointData_Ok tag part data d :
  0 ≤ part ≤ 1 → length tag = TagLength →
  GetCheckpointData tag CurrentVersion part data = Ok d ↔
  data = encodeHeader tag CurrentVersion part ++ d ∧
  length d = if decide (part = 0) then (firstPartLength - headerLength)%nat else (secondPartLength - headerLength)%nat.
Proof.
  intros Hp Ht. destruct (verHalf_byte part Hp) as (E1 & E2 & E3).
  assert (byte_code (byte_of_Z (16 * part)) = 16 * part) as Eb
    by (rewrite byte_code_of_Z; unfold u8; apply Z.mod_small; lia).
  unfold GetCheckpointData, encodeHeader. rewrite E1. rewrite (proj2 (Z.ltb_ge 1 part)) by lia.
  change (CurrentVersion <? CurrentVersion) with false. cbv iota.
  split.
  - intros H. destruct ((part =? 0) && _) eqn:HL0; [done|]. destruct ((part =? 1) && _) eqn:HL1; [done|].
    apply bind_Ok in H as (hd & Hhd & H). apply bind_Ok in H as (u & Hv & H).
    injection H as <-. unfold parseHeader in Hhd. case_match; [done|].
    destruct (data !! TagLength) as [b|] eqn:Eb4; [|done]. injection Hhd as <-.
    unfold validateHeader in Hv. cbn [fh_tag fh_version fh_part] in Hv. case_bool_decide as Etag; [|done].
    cbn [negb] in Hv. destruct (CurrentVersion <? Z.land (byte_code b) 15) eqn:Ev; [done|].
    destruct (Z.shiftr (byte_code b) 4 =? part) eqn:Epart; [|done].
    apply Z.ltb_ge in Ev. apply Z.eqb_eq in Epart. unfold CurrentVersion in Ev.
    assert (b = byte_of_Z (16 * part)) as ->.
    { rewrite <- (byte_of_code b). f_equal. pose proof (byte_code_range b) as Hr.
      rewrite Z.shiftr_div_pow2 in Epart by lia. change 15 with (Z.ones 4) in Ev. rewrite Z.land_ones in Ev by lia.
      pose proof (Z.mod_pos_bound (byte_code b) (2 ^ 4)). pose proof (Z.div_mod (byte_code b) (2 ^ 4)). lia. }
    split.
    + rewrite <- Etag. rewrite <- (take_drop_middle data TagLength (byte_of_Z (16 * part))) at 1 by done.
      by rewrite <- app_assoc.
    + rewrite length_drop. unfold firstPartLength, secondPartLength in *.
      destruct (Z.eqb_spec part 0), (Z.eqb_spec part 1); try lia; cbn [andb] in *; case_decide; try lia;
        [apply negb_false_iff, Nat.eqb_eq in HL0|apply negb_false_iff, Nat.eqb_eq in HL1]; lia.
  - intros [-> Hl]. unfold parseHeader.
    assert (length ((tag ++ [byte_of_Z (16 * part)]) ++ d) = headerLength + length d)%nat as Hlen
      by (rewrite !length_app, Ht; done).
    assert (((tag ++ [byte_of_Z (16 * part)]) ++ d) !! TagLength = Some (byte_of_Z (16 * part))) as Hat.
    { rewrite <- app_assoc, lookup_app_r by lia. by rewrite Ht. }
    assert ((part =? 0) && negb (Nat.eqb (length ((tag ++ [byte_of_Z (16 * part)]) ++ d)) firstPartLength) = false) as ->.
    { destruct (Z.eqb_spec part 0) as [->|]; [|done]. rewrite Hlen, Hl. done. }
    assert ((part =? 1) && negb (Nat.eqb (length ((tag ++ [byte_of_Z (16 * part)]) ++ d)) secondPartLength) = false) as ->.
    { destruct (Z.eqb_spec part 1) as [->|]; [|done]. rewrite Hlen, Hl. done. }
    rewrite Hat. rewrite (proj2 (Nat.ltb_ge _ _)) by (rewrite Hlen; unfold headerLength; lia).
    cbn [mbind outcome_bind]. rewrite Eb. unfold validateHeader. cbn [fh_tag fh_version fh_part].
    rewrite <- app_assoc, take_app_length', bool_decide_true by done. cbn [negb].
    rewrite E2, E3, Z.eqb_refl. cbn [mbind outcome_bind]. f_equal.
    rewrite app_assoc, drop_app_length'; [done|]. by rewrite length_app, Ht.
Qed.

(** ** Round trips *)

Record raw_wf (raw : RawBtcCheckpoint) : Prop := {
  rw_epoch : in_u64 (rbc_Epoch raw);
  rw_hash : length (rbc_BlockHash raw) = BlockHashLength;
  rw_bitmap : length (rbc_BitMap raw) = BitMapLength;
  rw_address : length (rbc_SubmitterAddress raw) = AddressLength;
  rw_sig : length (rbc_BlsSig raw) = BlsSigLength
}.

(** The payload of the first part. *)
Definition firstData (raw : RawBtcCheckpoint) : bytes :=
  U64ToBEBytes (rbc_Epoch raw) ++ rbc_BlockHash raw ++ rbc_BitMap raw ++ rbc_SubmitterAddress raw.

Lemma firstData_length raw : raw_wf raw → length (firstData raw) = (firstPartLength - headerLength)%nat.
Proof. intros [_ H1 H2 H3 _]. unfold firstData, U64ToBEBytes. by rewrite !length_app, be_bytes_length, H1, H2, H3. Qed.

Lemma Encode_Ok tag raw :
  length tag = TagLength → raw_wf raw →
  EncodeCheckpointData tag CurrentVersion raw =
  Ok (encodeHeader tag CurrentVersion 0 ++ firstData raw,
      encodeHeader tag CurrentVersion 1 ++ rbc_BlsSig raw ++ getCheckSum (firstData raw)).
Proof.
  intros Ht [_ H1 H2 H3 H4]. unfold EncodeCheckpointData. rewrite Ht, H1, H2, H3, H4. simpl.
  unfold encodeSecondOpReturn, encodeFirstOpRetrun. rewrite drop_app_length'; [done|].
  unfold encodeHeader. by rewrite length_app, Ht.
Qed.

Lemma getCheckSum_length b : length (getCheckSum b) = firstPartHashLength.
Proof. unfold getCheckSum. by rewrite length_take, sha256_length. Qed.

(** Two payloads connect exactly when the second ends in the checksum of the
    first. *)
Lemma ConnectParts_Ok f s bz :
  ConnectParts CurrentVersion f s = Ok bz ↔
  length f = (firstPartLength - headerLength)%nat ∧
  ∃ sig, length sig = BlsSigLength ∧ s = sig ++ getCheckSum f ∧ bz = f ++ sig.
Proof.
  unfold ConnectParts. change (CurrentVersion <? CurrentVersion) with false. cbv iota. split.
  - destruct (Nat.eqb_spec (length f) (firstPartLength - headerLength)) as [Hf|]; [|done]. cbn [negb].
    destruct (Nat.eqb_spec (length s) (secondPartLength - headerLength)) as [Hs|]; [|done]. cbn [negb].
    rewrite Hs. case_bool_decide as Hc; [|done]. cbn [negb]. intros [= <-]. split; [done|].
    eexists. split_and!; [| |done].
    + rewrite length_take, Hs. done.
    + unfold getCheckSum. rewrite Hc. by rewrite take_drop.
  - intros (Hf & sig & Hsig & -> & ->). rewrite Hf. cbn [negb].
    rewrite length_app, getCheckSum_length, Hsig. simpl.
    rewrite drop_app_length', take_app_length' by (by rewrite Hsig). by rewrite bool_decide_true.
Qed.

(** Cutting the fields out of the connected payloads, and back. *)
Lemma DecodeRawCheckpoint_fields e h b a sig :
  length e = EpochLength → length h = BlockHashLength → length b = BitMapLength → length a = AddressLength →
  length sig = BlsSigLength →
  DecodeRawCheckpoint CurrentVersion ((e ++ h ++ b ++ a) ++ sig) = Ok (mkRawBtcCheckpoint (be_value e) h b a sig).
Proof.
  intros He Hh Hb Ha Hs. unfold DecodeRawCheckpoint. change (CurrentVersion <? CurrentVersion) with false. cbv iota.
  rewrite !length_app, He, Hh, Hb, Ha, Hs. cbn [Nat.eqb negb]. rewrite <- !app_assoc.
  rewrite (take_app_length' e), (drop_app_length' e) by done.
  rewrite (take_app_length' h), (drop_app_length' h) by done.
  rewrite (take_app_length' b), (drop_app_length' b) by done.
  rewrite (take_app_length' a), (drop_app_length' a) by done. by rewrite take_ge by (by rewrite Hs).
Qed.

Lemma split_length {A} (l : list A) n m :
  length l = (n + m)%nat → ∃ l1 l2, l = l1 ++ l2 ∧ length l1 = n ∧ length l2 = m.
Proof.
  intros Hl. exists (take n l), (drop n l). rewrite take_drop, length_take, length_drop, Hl. split_and!; [done|lia..].
Qed.

Lemma DecodeRawCheckpoint_Ok f sig raw :
  length f = (firstPartLength - headerLength)%nat → length sig = BlsSigLength →
  DecodeRawCheckpoint CurrentVersion (f ++ sig) = Ok raw ↔ raw_wf raw ∧ f = firstData raw ∧ sig = rbc_BlsSig raw.
Proof.
  intros Hf Hsig.
  destruct (split_length f EpochLength 65 Hf) as (e & f1 & -> & He & Hf1).
  destruct (split_length f1 BlockHashLength 33 Hf1) as (h & f2 & -> & Hh & Hf2).
  destruct (split_length f2 BitMapLength AddressLength Hf2) as (b & a & -> & Hb & Ha).
  rewrite DecodeRawCheckpoint_fields by done. unfold firstData, U64ToBEBytes. split.
  - intros [= <-]. simpl. split_and!; [|by rewrite <- (be_bytes_be_value e), He at 1|done].
    constructor; simpl; try done. pose proof (be_value_range e) as Hr. by rewrite He in Hr.
  - intros ([Ie Ih Ib Ia Is] & Ef & ->). destruct raw as [ep h' b' a' s']. cbn [rbc_Epoch rbc_BlockHash rbc_BitMap rbc_SubmitterAddress rbc_BlsSig] in *.
    apply app_inj_1 in Ef as [-> Ef]; [|by rewrite be_bytes_length].
    apply app_inj_1 in Ef as [-> Ef]; [|congruence]. apply app_inj_1 in Ef as [-> ->]; [|congruence].
    by rewrite be_value_be_bytes, Z.mod_small.
Qed.

(** C22: Checkpoints survive the trip through Bitcoin. Encoding a checkpoint with
    fields of the right sizes succeeds, each of the two transactions is
    recognised as the part it is, the parts connect, and decoding the result
    gives back the checkpoint. *)
Theorem checkpoint_roundtrip tag raw :
  length tag = TagLength → raw_wf raw →
  ∃ f s d1 d2 bz,
    EncodeCheckpointData tag CurrentVersion raw = Ok (f, s) ∧
    IsBabylonCheckpointData tag CurrentVersion f = Ok (mkBabylonData d1 0) ∧
    IsBabylonCheckpointData tag CurrentVersion s = Ok (mkBabylonData d2 1) ∧
    ConnectParts CurrentVersion d1 d2 = Ok bz ∧ DecodeRawCheckpoint CurrentVersion bz = Ok raw.
Proof.
  intros Ht Hraw. pose proof (firstData_length raw Hraw) as Hf. pose proof (rw_sig _ Hraw) as Hs.
  assert (length (rbc_BlsSig raw ++ getCheckSum (firstData raw)) = (secondPartLength - headerLength)%nat) as Hl2
    by (rewrite length_app, getCheckSum_length, Hs; done).
  eexists _, _, (firstData raw), (rbc_BlsSig raw ++ getCheckSum (firstData raw)), _. split_and!.
  - by apply Encode_Ok.
  - unfold IsBabylonCheckpointData. change (seqZ 0 NumberOfParts) with [0; 1]. cbn [findPart].
    by rewrite (proj2 (GetCheckpointData_Ok tag 0 _ (firstData raw) ltac:(lia) Ht)).
  - unfold IsBabylonCheckpointData. change (seqZ 0 NumberOfParts) with [0; 1]. cbn [findPart].
    rewrite (proj2 (GetCheckpointData_Ok tag 1 _ (rbc_BlsSig raw ++ getCheckSum (firstData raw)) ltac:(lia) Ht)) by done.
    unfold GetCheckpointData. rewrite length_app. unfold encodeHeader at 1. rewrite length_app, Ht, Hl2. done.
  - apply ConnectParts_Ok. split; [done|]. by exists (rbc_BlsSig raw).
  - by apply DecodeRawCheckpoint_Ok.
Qed.

(** The encoding is canonical. Whatever two transactions are recognised as
    the first and second part and connect to a checkpoint are exactly those the
    encoder writes for this checkpoint: no second pair of transactions decodes
    to it. *)
Theorem checkpoint_canonical tag f s d1 d2 bz raw :
  length tag = TagLength →
  GetCheckpointData tag CurrentVersion 0 f = Ok d1 → GetCheckpointData tag CurrentVersion 1 s = Ok d2 →
  ConnectParts CurrentVersion d1 d2 = Ok bz → DecodeRawCheckpoint CurrentVersion bz = Ok raw →
  EncodeCheckpointData tag CurrentVersion raw = Ok (f, s).
Proof.
  intros Ht Hf Hs Hc Hd. apply GetCheckpointData_Ok in Hf as [-> _], Hs as [-> _]; [|lia|done|lia|done].
  apply ConnectParts_Ok in Hc as (Hl & sig & Hsig & -> & ->).
  apply DecodeRawCheckpoint_Ok in Hd as (Hraw & -> & ->); [|done..]. by apply Encode_Ok.
Qed.

(** ** Witnesses *)

Definition example_tag : bytes := ["098"; "098"; "110"; "116"]%byte.
Definition example_raw : RawBtcCheckpoint :=
  mkRawBtcCheckpoint 7 (replicate 32 "001"%byte) (replicate 13 "255"%byte) (replicate 20 "002"%byte)
    (replicate 48 "003"%byte).

Lemma example_raw_wf : raw_wf example_raw.
Proof. constructor; done. Qed.

Lemma checkpoint_roundtrip_witness : ∃ f s d1 d2 bz,
    EncodeCheckpointData example_tag CurrentVersion example_raw = Ok (f, s) ∧
    IsBabylonCheckpointData example_tag CurrentVersion f = Ok (mkBabylonData d1 0) ∧
    IsBabylonCheckpointData example_tag CurrentVersion s = Ok (mkBabylonData d2 1) ∧
    ConnectParts CurrentVersion d1 d2 = Ok bz ∧ DecodeRawCheckpoint CurrentVersion bz = Ok example_raw.
Proof. exact (checkpoint_roundtrip example_tag example_raw eq_refl example_raw_wf). Defined.

Definition example_first : bytes := encodeHeader example_tag CurrentVersion 0 ++ firstData example_raw.
Definition example_second : bytes :=
  encodeHeader example_tag CurrentVersion 1 ++ rbc_BlsSig example_raw ++ getCheckSum (firstData example_raw).

Lemma checkpoint_canonical_witness :
  EncodeCheckpointData example_tag CurrentVersion example_raw = Ok (example_first, example_second).
Proof.
  apply (checkpoint_canonical example_tag example_first example_second (firstData example_raw)
           (rbc_BlsSig example_raw ++ getCheckSum (firstData example_raw))
           (firstData example_raw ++ rbc_BlsSig example_raw)); vm_compute; reflexivity.
Defined.
