(* ===== verification/Coins.v ===== *)
(** * Coins, addresses and the bank

    What the reward modules use of the Cosmos SDK. A [sdk.Coins] is a list of
    denominations with amounts; its operations, the account addresses and the
    bank are code outside the repository and enter as classes: the operations,
    with the documented behaviour as laws. [GetCoinsPortion] of
    x/incentive/types and [CoinsSafeMulInt] of types/sdk_math.go are the
    repository's own. *)

From S2P Require Import Prelude Bytes BtcStaking.

Abbreviation Coins := (list (string * Z)).

Definition denoms (c : Coins) : list string := c.*1.
Definition AmountOf (c : Coins) (d : string) : Z := default 0 ((list_to_map c : gmap string Z) !! d).

(** One amount per denomination, none negative. *)
Definition coins_ok (c : Coins) : Prop := NoDup (denoms c) ∧ Forall (λ x, 0 ≤ x.2) c.
(** One amount per denomination, all positive. *)
Definition coins_pos (c : Coins) : Prop := NoDup (denoms c) ∧ Forall (λ x, 0 < x.2) c.

(** [sdk.Coins]: operations that exceed the 256 bits of [math.Int], multiply or
    divide by zero, or subtract too much, panic ([None]). *)
Class SdkCoins := {
  coinsAdd : Coins → Coins → option Coins;
  coinsSub : Coins → Coins → option Coins;
  coinsMulInt : Coins → Z → option Coins;
  coinsQuoInt : Coins → Z → option Coins;
  (* NewDecCoinsFromCoins, MulDecTruncate and TruncateDecimal, one after the other *)
  coinsMulDecTruncate : Coins → Z → option Coins;
  (* LegacyDec.QuoTruncate *)
  quoTruncate : Z → Z → option Z
}.

Definition orPanic {A} (x : option A) : outcome A :=
  match x with Some a => Ok a | None => Panic (Errorf "sdk.Coins") end.

Definition CoinsAdd {S : SdkCoins} (a b : Coins) : outcome Coins := orPanic (coinsAdd a b).
Definition CoinsSub {S : SdkCoins} (a b : Coins) : outcome Coins := orPanic (coinsSub a b).
Definition CoinsMulInt {S : SdkCoins} (a : Coins) (x : Z) : outcome Coins := orPanic (coinsMulInt a x).
Definition CoinsQuoInt {S : SdkCoins} (a : Coins) (x : Z) : outcome Coins := orPanic (coinsQuoInt a x).
Definition CoinsMulDecTruncate {S : SdkCoins} (a : Coins) (p : Z) : outcome Coins := orPanic (coinsMulDecTruncate a p).
Definition QuoTruncate {S : SdkCoins} (a b : Z) : outcome Z := orPanic (quoTruncate a b).

(** The documented behaviour. Addition and subtraction never return an amount
    that is not positive; [MulInt] and [QuoInt] go through the coins one by one, and
    [QuoInt] keeps the amounts it truncates to zero. *)
Class SdkCoinsLaws (S : SdkCoins) := {
  CoinsAdd_law a b c : coins_ok a → coins_ok b → CoinsAdd a b = Ok c →
    coins_pos c ∧ ∀ d, AmountOf c d = AmountOf a d + AmountOf b d;
  CoinsSub_law a b c : coins_ok a → coins_ok b → CoinsSub a b = Ok c →
    coins_pos c ∧ ∀ d, AmountOf c d = AmountOf a d - AmountOf b d;
  CoinsMulInt_law a x c : coins_ok a → 0 ≤ x → CoinsMulInt a x = Ok c →
    x ≠ 0 ∧ c = prod_map id (λ z, z * x) <$> a;
  CoinsQuoInt_law a x c : coins_ok a → 0 ≤ x → CoinsQuoInt a x = Ok c →
    x ≠ 0 ∧ c = prod_map id (λ z, z `quot` x) <$> a;
  CoinsMulDecTruncate_law a p c : coins_ok a → 0 ≤ p → CoinsMulDecTruncate a p = Ok c →
    coins_ok c ∧ ∀ d, AmountOf c d = (AmountOf a d * p) `quot` DecOne;
  QuoTruncate_law a b c : QuoTruncate a b = Ok c → b ≠ 0 ∧ c = (a * DecOne) `quot` b
}.

(** "true if there are no coins or all coins are zero" *)
Definition CoinsIsZero (c : Coins) : bool := forallb (λ x, x.2 =? 0) c.
(** "true if there is at least one coin and all amounts are positive" *)
Definition CoinsIsAllPositive (c : Coins) : bool :=
  match c with [] => false | _ => forallb (λ x, 0 <? x.2) c end.
Definition CoinsIsAnyNegative (c : Coins) : bool := existsb (λ x, x.2 <? 0) c.

(** [sdk.AccAddress]: the bech32 form and its parser. *)
Class Bech32 := {
  AccString : bytes → string;
  AccFromBech32 : string → option bytes;
  AccFromBech32_String a : AccFromBech32 (AccString a) = Some a
}.

(** The bank module: module accounts by their names. A transfer that fails
    changes nothing. *)
Class Bank (B : Type) := {
  ModuleBalances : B → string → Coins;
  SendCoinsFromModuleToModule : B → string → string → Coins → outcome B;
  SendCoinsFromModuleToAccount : B → string → bytes → Coins → outcome B;
  BlockedAddr : bytes → bool
}.

Definition balance {B} `{Bank B} (b : B) (m d : string) : Z := AmountOf (ModuleBalances b m) d.

(** A transfer takes no more than the coins from its sender and nothing from
    other accounts, and a module that receives coins has them. *)
Class BankLaws (B : Type) (K : Bank B) := {
  ModuleBalances_law b m : coins_ok (ModuleBalances b m);
  SendToModule_law b b' from to c : coins_ok c → from ≠ to →
    SendCoinsFromModuleToModule b from to c = Ok b' →
    ∀ d, balance b' to d = balance b to d + AmountOf c d ∧
         balance b' from d = balance b from d - AmountOf c d ∧
         ∀ m, m ≠ from → m ≠ to → balance b' m d = balance b m d;
  SendToAccount_law b b' from a c : coins_ok c →
    SendCoinsFromModuleToAccount b from a c = Ok b' →
    ∀ d, balance b from d - AmountOf c d ≤ balance b' from d ∧
         ∀ m, m ≠ from → balance b m d ≤ balance b' m d
}.

(** ** The repository's helpers *)

Section helpers.
Context {SC : SdkCoins}.

Definition GetCoinsPortion (coinsInt : Coins) (portion : Z) : outcome Coins := CoinsMulDecTruncate coinsInt portion.

(** [CoinsSafeMulInt] of types/sdk_math.go: an error instead of a panic.
    [SafeMul] fails above 256 bits; [validDenom] is the denomination check of
    [Coin.Validate], which also refuses negative amounts. *)
Definition SafeMul (a x : Z) : option Z := if Z.abs (a * x) <? 2 ^ 256 then Some (a * x) else None.
Definition SafeNewCoin (validDenom : string → bool) (denom : string) (amount : Z) : outcome (string * Z) :=
  if negb (validDenom denom) || (amount <? 0) then Err (Errorf "unable to validate new coin")
  else Ok (denom, amount).

Definition CoinsSafeMulInt (validDenom : string → bool) (coins : Coins) (x : Z) : outcome Coins :=
  if x =? 0 then Err ErrInvalidAmount
  else foldM (λ res coin,
    match SafeMul coin.2 x with
    | None => Err ErrInvalidAmount
    | Some amt =>
      newCoin ← wrapf "unable to create new coin" (SafeNewCoin validDenom coin.1 amt);
      Ok (res ++ [newCoin])
    end) [] coins.

End helpers.

(** ** Lemmas *)

Lemma AmountOf_nil d : AmountOf [] d = 0.
Proof. done. Qed.

Lemma AmountOf_nonneg c d : coins_ok c → 0 ≤ AmountOf c d.
Proof.
  intros [Hnd Hpos]. unfold AmountOf. destruct (list_to_map c !! d) as [z|] eqn:E; [|done]. simpl.
  apply elem_of_list_to_map_2 in E. rewrite Forall_forall in Hpos. by apply (Hpos (d, z)).
Qed.

Lemma coins_ok_nil : coins_ok [].
Proof. split; constructor. Qed.

Lemma coins_pos_ok c : coins_pos c → coins_ok c.
Proof. intros [? Hp]. split; [done|]. eapply Forall_impl; [exact Hp|]. simpl. lia. Qed.

Lemma CoinsIsAllPositive_pos c : coins_pos c → CoinsIsAllPositive c = false → c = [].
Proof.
  intros [_ Hp]. destruct c as [|x c]; [done|]. unfold CoinsIsAllPositive. intros Hf. exfalso.
  revert Hf. rewrite (proj2 (forallb_forall _ (x :: c))); [done|]. intros y Hy.
  rewrite Forall_forall in Hp. apply list_elem_of_In, Hp in Hy. lia.
Qed.

Lemma AmountOf_fmap c (f : Z → Z) d : f 0 = 0 → AmountOf (prod_map id f <$> c) d = f (AmountOf c d).
Proof.
  intros Hf. unfold AmountOf. induction c as [|[k z] c IH]; [done|]. simpl.
  destruct (decide (k = d)) as [->|Hne]; [by rewrite !lookup_insert_eq|by rewrite !lookup_insert_ne].
Qed.

Lemma coins_ok_fmap c (f : Z → Z) : (∀ z, 0 ≤ z → 0 ≤ f z) → coins_ok c → coins_ok (prod_map id f <$> c).
Proof.
  intros Hf [Hnd Hpos]. split.
  - unfold denoms in *. rewrite <- list_fmap_compose. by rewrite (list_fmap_ext _ fst) by done.
  - apply Forall_fmap. eapply Forall_impl; [exact Hpos|]. intros [k z]. apply Hf.
Qed.

Lemma denoms_fmap (f : Z → Z) (c : Coins) : denoms (prod_map id f <$> c) = denoms c.
Proof. unfold denoms. rewrite <- list_fmap_compose. by apply list_fmap_ext. Qed.

Lemma elem_of_denoms_pos c d : coins_pos c → d ∈ denoms c ↔ 0 < AmountOf c d.
Proof.
  intros [Hnd Hpos]. unfold AmountOf, denoms in *. split.
  - intros ([k z] & -> & Hin)%list_elem_of_fmap. cbn [fst] in *. rewrite (elem_of_list_to_map_1 c k z Hnd Hin).
    rewrite Forall_forall in Hpos. by apply (Hpos (k, z)).
  - destruct (list_to_map c !! d) as [z|] eqn:E; [|simpl; lia]. intros _.
    apply elem_of_list_to_map_2 in E. by apply (list_elem_of_fmap_2 fst c (d, z)).
Qed.

(** Coins that are the whole part of what is due, in units of [1/D]: a coin for
    each denomination of which something is due, also when its whole part is
    zero. This determines the coins up to their order. *)
Definition rounded (D : Z) (due : string → Z) (c : Coins) : Prop :=
  NoDup (denoms c) ∧ (∀ d, d ∈ denoms c ↔ 0 < due d) ∧ ∀ d, AmountOf c d = due d `quot` D.

Lemma rounded_quot D due c : 0 < D → coins_pos c → (∀ d, AmountOf c d = due d) →
  rounded D due (prod_map id (λ z, z `quot` D) <$> c).
Proof.
  intros HD Hc Hd. split; [rewrite denoms_fmap; apply Hc|]. split; intros d.
  - by rewrite denoms_fmap, elem_of_denoms_pos, Hd.
  - rewrite AmountOf_fmap by (apply Z.quot_0_l; lia). by rewrite Hd.
Qed.

Lemma rounded_nil D due : 0 < D → (∀ d, due d = 0) → rounded D due [].
Proof.
  intros HD Hz. split; [constructor|]. split; intros d; rewrite Hz.
  - unfold denoms. simpl. rewrite elem_of_nil. lia.
  - by rewrite Z.quot_0_l, AmountOf_nil by lia.
Qed.

Lemma rounded_ext D due due' c : (∀ d, due' d = due d) → rounded D due c → rounded D due' c.
Proof. intros He (Hnd & Hden & Ha). split; [done|]. split; intros d; rewrite He; [apply Hden|apply Ha]. Qed.

(** [IsAllPositive] of such coins: no denomination is due by less than a coin. *)
Lemma rounded_positive D due c : 0 < D → rounded D due c →
  CoinsIsAllPositive c = true ↔ (∃ d, 0 < due d) ∧ ∀ d, 0 < due d → D ≤ due d.
Proof.
  intros HD (Hnd & Hden & Ha).
  assert (∀ d z, (d, z) ∈ c → 0 < due d ∧ z = due d `quot` D) as Hin.
  { intros d z H. split; [apply Hden; by apply (list_elem_of_fmap_2 fst c (d, z))|].
    rewrite <- Ha. unfold AmountOf. by rewrite (elem_of_list_to_map_1 c d z Hnd H). }
  assert (∀ x, 0 < x → D ≤ x ↔ 0 < x `quot` D) as Hq.
  { intros x Hx. rewrite Z.quot_div_nonneg by lia. split; intros H; [by apply Z.div_str_pos|].
    destruct (Z.lt_ge_cases x D); [|done]. rewrite Z.div_small in H by lia. lia. }
  assert (CoinsIsAllPositive c = true ↔ c ≠ [] ∧ ∀ d z, (d, z) ∈ c → 0 < z) as ->.
  { destruct c as [|x c]; [split; [done|by intros [? _]]|]. unfold CoinsIsAllPositive. rewrite forallb_forall. split.
    - intros H. split; [done|]. intros d z Hi%list_elem_of_In. specialize (H _ Hi). simpl in H. lia.
    - intros [_ H] [d z] Hi%list_elem_of_In. specialize (H d z Hi). simpl. lia. }
  split.
  - intros [Hne Hpos]. destruct c as [|[d0 z0] c]; [done|]. split; [exists d0; apply (Hin d0 z0); by left|].
    intros d Hd. apply Hden in Hd as ([k z] & -> & Hi)%list_elem_of_fmap. destruct (Hin k z Hi) as [Hd ->].
    apply Hq; [done|]. by apply (Hpos k).
  - intros [[d Hd] Hall]. split; [intros ->; by apply Hden, elem_of_nil in Hd|].
    intros k z Hi. destruct (Hin k z Hi) as [Hk ->]. by apply Hq; [|apply Hall].
Qed.

(** What [accumulateRewardGauge] credits of such coins. *)
Lemma rounded_credit D due c : 0 < D → (∀ d, 0 ≤ due d) → rounded D due c →
  ((∀ d, 0 < due d → D ≤ due d) → ∀ d, (if CoinsIsAllPositive c then AmountOf c d else 0) = due d `quot` D) ∧
  ((∃ d, 0 < due d < D) → CoinsIsAllPositive c = false).
Proof.
  intros HD Hnn Hr. pose proof (rounded_positive D due c HD Hr) as Hpos. destruct Hr as (_ & _ & Ha). split.
  - intros Hall d. destruct (CoinsIsAllPositive c) eqn:E; [apply Ha|]. destruct (Z.eq_dec (due d) 0) as [->|Hne].
    { by rewrite Z.quot_0_l by lia. }
    specialize (Hnn d). assert (false = true); [|done]. apply Hpos. split; [exists d; lia|done].
  - intros (d & Hd). destruct (CoinsIsAllPositive c) eqn:E; [|done]. destruct Hpos as [Hpos _].
    destruct (Hpos eq_refl) as [_ Hall]. specialize (Hall d). lia.
Qed.

Lemma CoinsIsZero_spec c : coins_ok c → CoinsIsZero c = true → ∀ d, AmountOf c d = 0.
Proof.
  intros _ Hz d. unfold AmountOf. destruct (list_to_map c !! d) as [z|] eqn:E; [|done].
  apply elem_of_list_to_map_2 in E. unfold CoinsIsZero in Hz. rewrite forallb_forall in Hz.
  apply list_elem_of_In in E. specialize (Hz _ E). simpl in *. lia.
Qed.

Lemma CoinsIsAllPositive_zero c : coins_ok c → CoinsIsAllPositive c = false → CoinsIsZero c = false →
  ∃ d, d ∈ denoms c ∧ AmountOf c d = 0.
Proof.
  intros [Hnd Hpos] Hp Hz. assert (forallb (λ x, 0 <? x.2) c = false) as Hf by (by destruct c).
  assert (∃ x, x ∈ c ∧ x.2 = 0) as ([d z] & Hin & Hz0).
  { clear Hp Hz Hnd. induction c as [|[k v] c IH]; [done|]. apply Forall_cons in Hpos as [Hv Hpos]. simpl in *.
    destruct (Z.ltb_spec 0 v); [|exists (k, v); split; [left|simpl; lia]].
    destruct (IH Hpos Hf) as (x & ? & ?). exists x. split; [by right|done]. }
  exists d. split; [by apply (list_elem_of_fmap_2 fst c (d, z))|]. unfold AmountOf.
  rewrite (elem_of_list_to_map_1 c d z Hnd Hin). done.
Qed.

(** ** An instance

    Amounts added per denomination, without the 256-bit limit. *)

Definition coins_norm (m : gmap string Z) : Coins := map_to_list (filter (λ x : string * Z, x.2 ≠ 0) m).
Definition coins_map (c : Coins) : gmap string Z := list_to_map c.
Definition coins_merge (f : Z → Z → Z) (a b : Coins) : gmap string Z :=
  merge (λ x y, Some (f (default 0 x) (default 0 y))) (coins_map a) (coins_map b).

Definition simple_coins : SdkCoins := {|
  coinsAdd a b := Some (coins_norm (coins_merge Z.add a b));
  coinsSub a b := if bool_decide (map_Forall (λ _ z, 0 ≤ z) (coins_merge Z.sub a b))
                  then Some (coins_norm (coins_merge Z.sub a b)) else None;
  coinsMulInt a x := if x =? 0 then None
                     else Some (prod_map id (λ z, z * x) <$> a);
  coinsQuoInt a x := if x =? 0 then None
                     else Some (prod_map id (λ z, z `quot` x) <$> a);
  coinsMulDecTruncate a p := Some (coins_norm ((λ z, (z * p) `quot` DecOne) <$> coins_map a));
  quoTruncate a b := if b =? 0 then None else Some ((a * DecOne) `quot` b)
|}.

Lemma coins_norm_amount m d : AmountOf (coins_norm m) d = default 0 (m !! d).
Proof.
  unfold AmountOf, coins_norm. rewrite list_to_map_to_list, map_lookup_filter.
  destruct (m !! d) as [z|]; [|done]. simpl. case_guard as Hz; simpl; [done|]. simpl in Hz. lia.
Qed.

Lemma coins_norm_ok m : map_Forall (λ _ z, 0 ≤ z) m → coins_ok (coins_norm m).
Proof.
  intros Hm. split; [apply NoDup_fst_map_to_list|]. apply Forall_forall. intros [d z] Hin.
  unfold coins_norm in Hin. apply elem_of_map_to_list, map_lookup_filter_Some in Hin as [Hin _]. by apply (Hm d z).
Qed.

Lemma coins_merge_amount f a b d :
  f 0 0 = 0 → default 0 (coins_merge f a b !! d) = f (AmountOf a d) (AmountOf b d).
Proof.
  intros Hf. unfold coins_merge, AmountOf, coins_map. rewrite lookup_merge. unfold diag_None.
  destruct (list_to_map a !! d), (list_to_map b !! d); done.
Qed.

Lemma coins_merge_nonneg f a b :
  f 0 0 = 0 → (∀ d, 0 ≤ f (AmountOf a d) (AmountOf b d)) → map_Forall (λ _ z, 0 ≤ z) (coins_merge f a b).
Proof. intros Hf H d z Hd. specialize (H d). rewrite <- coins_merge_amount, Hd in H by done. exact H. Qed.

Lemma coins_norm_pos m : map_Forall (λ _ z, 0 ≤ z) m → coins_pos (coins_norm m).
Proof.
  intros Hm. split; [apply NoDup_fst_map_to_list|]. apply Forall_forall. intros [d z] Hin.
  unfold coins_norm in Hin. apply elem_of_map_to_list, map_lookup_filter_Some in Hin as [Hin Hz].
  specialize (Hm d z Hin). simpl in *. lia.
Qed.

Lemma coins_fmap_ok (f : Z → Z) a : f 0 = 0 → (∀ z, 0 ≤ z → 0 ≤ f z) → coins_ok a →
  coins_ok (coins_norm (f <$> coins_map a)) ∧ ∀ d, AmountOf (coins_norm (f <$> coins_map a)) d = f (AmountOf a d).
Proof.
  intros Hf Hp [Hnd Ha]. split.
  - apply coins_norm_ok. intros d z. rewrite lookup_fmap. intros (y & Hy & ->)%fmap_Some. apply Hp.
    apply elem_of_list_to_map_2 in Hy. rewrite Forall_forall in Ha. by apply (Ha (d, y)).
  - intros d. rewrite coins_norm_amount, lookup_fmap. unfold AmountOf, coins_map. by destruct (list_to_map a !! d).
Qed.

Lemma simple_coins_laws : SdkCoinsLaws simple_coins.
Proof.
  constructor; unfold CoinsAdd, CoinsSub, CoinsMulInt, CoinsQuoInt, CoinsMulDecTruncate, QuoTruncate; simpl.
  - intros a b c Ha Hb [= <-]. split.
    + apply coins_norm_pos, coins_merge_nonneg; [done|]. intros d.
      pose proof (AmountOf_nonneg a d Ha). pose proof (AmountOf_nonneg b d Hb). lia.
    + intros d. by rewrite coins_norm_amount, coins_merge_amount.
  - intros a b c Ha Hb. case_bool_decide as Hn; [|done]. intros [= <-]. split; [by apply coins_norm_pos|].
    intros d. by rewrite coins_norm_amount, coins_merge_amount.
  - intros a x c Ha Hx. destruct (Z.eqb_spec x 0); [done|]. by intros [= <-].
  - intros a x c Ha Hx. destruct (Z.eqb_spec x 0); [done|]. by intros [= <-].
  - intros a p c Ha Hp [= <-]. apply (coins_fmap_ok (λ z, (z * p) `quot` DecOne)); [done| |done].
    intros z Hz. apply Z.quot_pos; [nia|unfold DecOne; lia].
  - intros a b c. destruct (Z.eqb_spec b 0); [done|]. by intros [= <-].
Qed.

(** The simplest bank: balances of module accounts, accounts outside. *)
Abbreviation SimpleBank := (gmap string (gmap string Z)).
Definition bank_coins (b : SimpleBank) (m : string) : Coins := coins_norm (Z.max 0 <$> default ∅ (b !! m)).
Definition bank_add (b : SimpleBank) (m : string) (c : Coins) : SimpleBank :=
  <[m := coins_merge Z.add (bank_coins b m) c]> b.
Definition bank_sub (b : SimpleBank) (m : string) (c : Coins) : outcome SimpleBank :=
  if bool_decide (map_Forall (λ _ z, 0 ≤ z) (coins_merge Z.sub (bank_coins b m) c))
  then Ok (<[m := coins_merge Z.sub (bank_coins b m) c]> b) else Err (Errorf "insufficient funds").

Definition simple_bank : Bank SimpleBank := {|
  ModuleBalances := bank_coins;
  SendCoinsFromModuleToModule b from to c := b ← bank_sub b from c; Ok (bank_add b to c);
  SendCoinsFromModuleToAccount b from _ c := bank_sub b from c;
  BlockedAddr _ := false
|}.

Lemma bank_coins_ok b m : coins_ok (bank_coins b m).
Proof.
  apply coins_norm_ok. intros d z. rewrite lookup_fmap. intros (y & _ & ->)%fmap_Some. lia.
Qed.

Lemma bank_coins_amount b m d : AmountOf (bank_coins b m) d = Z.max 0 (default 0 (default ∅ (b !! m) !! d)).
Proof.
  unfold bank_coins. rewrite coins_norm_amount, lookup_fmap. by destruct (default ∅ (b !! m) !! d).
Qed.

Lemma bank_set_amount b m m' x d : (∀ d, 0 ≤ default 0 (x !! d)) →
  AmountOf (bank_coins (<[m := x]> b) m') d = if decide (m = m') then default 0 (x !! d) else AmountOf (bank_coins b m') d.
Proof.
  intros Hx. rewrite !bank_coins_amount. case_decide as Hm.
  - subst. rewrite lookup_insert_eq. simpl. specialize (Hx d). lia.
  - by rewrite lookup_insert_ne.
Qed.

Lemma bank_add_amount b m c m' d : coins_ok c →
  AmountOf (bank_coins (bank_add b m c) m') d =
  AmountOf (bank_coins b m') d + if decide (m = m') then AmountOf c d else 0.
Proof.
  intros Hc. unfold bank_add. rewrite bank_set_amount.
  - case_decide; [|lia]. subst. by rewrite coins_merge_amount.
  - intros d'. rewrite coins_merge_amount by done. pose proof (AmountOf_nonneg _ d' (bank_coins_ok b m)).
    pose proof (AmountOf_nonneg _ d' Hc). lia.
Qed.

Lemma bank_sub_amount b m c b' m' d : bank_sub b m c = Ok b' →
  AmountOf (bank_coins b' m') d = AmountOf (bank_coins b m') d - if decide (m = m') then AmountOf c d else 0.
Proof.
  unfold bank_sub. case_bool_decide as Hn; [|done]. intros [= <-]. rewrite bank_set_amount.
  - case_decide; [|lia]. subst. by rewrite coins_merge_amount.
  - intros d'. destruct (coins_merge Z.sub (bank_coins b m) c !! d') as [z|] eqn:Hz; [|done]. by apply (Hn d' z).
Qed.

Lemma simple_bank_laws : BankLaws SimpleBank simple_bank.
Proof.
  constructor; unfold balance; simpl.
  - apply bank_coins_ok.
  - intros b b' from to c Hc Hne H d. apply bind_Ok in H as (b1 & H1 & H). injection H as <-.
    assert (∀ m, AmountOf (bank_coins b1 m) d = AmountOf (bank_coins b m) d - if decide (from = m) then AmountOf c d else 0) as Hs
      by (intros; by apply bank_sub_amount).
    split_and!; [| |intros m ??]; rewrite bank_add_amount, Hs by done; repeat case_decide; congruence || lia.
  - intros b b' from a c Hc H d. assert (∀ m, AmountOf (bank_coins b' m) d = AmountOf (bank_coins b m) d - if decide (from = m) then AmountOf c d else 0) as Hs
      by (intros; by apply bank_sub_amount).
    split; [|intros m ?]; rewrite Hs; case_decide; congruence || lia.
Qed.

(** Addresses named by their hexadecimal form. *)
Lemma hex_addresses_law a : hex_decode (hex_encode a) = Some a.
Proof. apply hex_decode_encode. Qed.
Definition hex_addresses : Bech32 :=
  {| AccString := hex_encode; AccFromBech32 := hex_decode; AccFromBech32_String := hex_addresses_law |}.
