(* ===== verification/Mint.v ===== *)
(** * x/mint: inflation

    The module mints coins at every block in proportion to the time since the
    previous block and moves them to the fee collector. The file translates
    abci.go, types/minter.go, types/constants.go, types/genesis.go,
    keeper/keeper.go and keeper/genesis.go, bounds what is minted over any
    number of blocks, and shows that the annual provisions are never updated
    after the first block. *)

From S2P Require Import Prelude Bytes BbnTypes BtcStaking Coins.

(** ** The other modules *)

(** [math.LegacyDec] products, quotients and powers ([None]: a panic). *)
Class LegacyDecOps := {
  decMul : Z → Z → option Z;
  decQuo : Z → Z → option Z;
  decPower : Z → Z → option Z
}.
Definition DecMul {L : LegacyDecOps} (a b : Z) : outcome Z := orPanic (decMul a b).
Definition DecQuo {L : LegacyDecOps} (a b : Z) : outcome Z := orPanic (decQuo a b).
Definition DecPower {L : LegacyDecOps} (a n : Z) : outcome Z := orPanic (decPower a n).

(** Results are rounded in the last of 18 decimals; a factor of one changes
    nothing. *)
Class LegacyDecLaws (L : LegacyDecOps) := {
  decMul_law a b c : 0 ≤ a → 0 ≤ b → decMul a b = Some c → 0 ≤ c ∧ Z.abs (c * DecOne - a * b) ≤ DecOne;
  decMul_one a c : decMul a DecOne = Some c → c = a;
  decQuo_law a b c : 0 ≤ a → 0 < b → decQuo a b = Some c → 0 ≤ c ∧ Z.abs (c * b - a * DecOne) ≤ b;
  decPower_one n c : decPower DecOne n = Some c → c = DecOne
}.

(** The part of the bank that only this module uses. *)
Class MintBank (B : Type) := { BankMintCoins : B → string → Coins → outcome B }.
Class MintBankLaws (B : Type) (K : Bank B) (M : MintBank B) := {
  MintCoins_law b b' m c : coins_ok c → BankMintCoins b m c = Ok b' →
    ∀ d, balance b' m d = balance b m d + AmountOf c d ∧ ∀ a, a ≠ m → balance b' a d = balance b a d
}.

(** ** types/constants.go *)

Definition NanosecondsPerSecond : Z := 1000000000.
(** 60 * 60 * 24 * 365.2425 *)
Definition SecondsPerYear : Z := 31556952.
Definition NanosecondsPerYear : Z := NanosecondsPerSecond * SecondsPerYear.

Definition InitialInflationRateAsDec : Z := 55000000000000000.
Definition DisinflationRateAsDec : Z := 0.
Definition TargetInflationRateAsDec : Z := 15000000000000000.

(** ** types/minter.go *)

Definition DefaultBondDenom : string := "ubbn".
Definition MaxMintedPerBlock : Z := 600000000.
Definition MintModule : string := "mint".
Definition MintFeeCollector : string := "fee_collector".

(** Rates and provisions are [LegacyDec], times nanoseconds. *)
Record Minter := mkMinter {
  InflationRate : Z;
  AnnualProvisions : Z;
  PreviousBlockTime : option Z;
  BondDenom : string
}.

Definition NewMinter (inflationRate annualProvisions : Z) (bondDenom : string) : Minter :=
  mkMinter inflationRate annualProvisions None bondDenom.
Definition DefaultMinter : Minter := NewMinter InitialInflationRateAsDec 0 DefaultBondDenom.

(** [strings.TrimSpace(s) == ""]: the runes of [unicode.IsSpace], in UTF-8. *)
Fixpoint blank_codes (l : list Z) : bool :=
  match l with
  | [] => true
  | 226 :: 128 :: c :: l' => ((128 <=? c) && (c <=? 138) || (c =? 168) || (c =? 169) || (c =? 175)) && blank_codes l'
  | 226 :: 129 :: 159 :: l' => blank_codes l'
  | 227 :: 128 :: 128 :: l' => blank_codes l'
  | 225 :: 154 :: 128 :: l' => blank_codes l'
  | 194 :: c :: l' => ((c =? 133) || (c =? 160)) && blank_codes l'
  | c :: l' => ((9 <=? c) && (c <=? 13) || (c =? 32)) && blank_codes l'
  end.
Definition TrimmedEmpty (s : string) : bool := blank_codes (string_codes s).
(** [strings.ContainsAny(s, " \t\n\r")] *)
Definition ContainsWhitespace (s : string) : bool :=
  existsb (λ c, (c =? 32) || (c =? 9) || (c =? 10) || (c =? 13)) (string_codes s).

Definition Minter_Validate (m : Minter) : outcome unit :=
  if InflationRate m <? 0 then Err (Errorf "inflation rate should be positive")
  else if AnnualProvisions m <? 0 then Err (Errorf "annual provisions should be positive")
  else if TrimmedEmpty (BondDenom m) then Err (Errorf "bond denom cannot be empty")
  else if ContainsWhitespace (BondDenom m) then Err (Errorf "bond denom cannot contain whitespace")
  else Ok tt.

(** [t.Sub(u)]: a [time.Duration], which saturates. *)
Definition TimeSub (t u : Z) : Z := Z.max (- 2 ^ 63) (Z.min (2 ^ 63 - 1) (t - u)).

Definition YearsSinceGenesis (genesis current : Z) : Z :=
  if current <? genesis then 0 else TimeSub current genesis `quot` NanosecondsPerYear.

(** [validDenom] is the denomination check of [sdk.NewCoin]. *)
Section minter.
Context {L : LegacyDecOps} (validDenom : string → bool).

Definition CalculateInflationRate (blockTime genesis : Z) : outcome Z :=
  let years := YearsSinceGenesis genesis blockTime in
  p ← DecPower (DecOne - DisinflationRateAsDec) (u64 years);
  inflationRate ← DecMul InitialInflationRateAsDec p;
  if inflationRate <? TargetInflationRateAsDec then Ok TargetInflationRateAsDec else Ok inflationRate.

Definition NewCoin (denom : string) (amount : Z) : outcome (string * Z) :=
  if negb (validDenom denom) || (amount <? 0) then Panic (Errorf "invalid coin") else Ok (denom, amount).

Definition CalculateBlockProvision (m : Minter) (current previous : Z) : outcome (string * Z) :=
  if current <? previous then Err (Errorf "current time cannot be before previous time")
  else
    let timeElapsed := TimeSub current previous in
    portionOfYear ← DecQuo (timeElapsed * DecOne) (NanosecondsPerYear * DecOne);
    blockProvision ← DecMul (AnnualProvisions m) portionOfYear;
    let blockProvisionInt := blockProvision `quot` DecOne in
    let amountToMint := Z.min blockProvisionInt MaxMintedPerBlock in
    NewCoin (BondDenom m) amountToMint.
End minter.

(** ** keeper/keeper.go *)

(** The genesis time is a message around a pointer. *)
Record MintState := mkMint { MinterStore : option Minter; GenesisTimeStore : option (option Z) }.

Record MintWorld (B : Type) := mkMintWorld { mw_mint : MintState; mw_bank : B }.
Arguments mkMintWorld {B} _ _.
Arguments mw_mint {B} _.
Arguments mw_bank {B} _.

Section keeper.
Context {L : LegacyDecOps} {B : Type} {KB : Bank B} {MB : MintBank B} (validDenom : string → bool).
Implicit Types w : MintWorld B.

Definition GetMinter w : outcome Minter :=
  match MinterStore (mw_mint w) with Some m => Ok m | None => Panic ErrCollectionsNotFound end.
Definition SetMinter w (m : Minter) : MintWorld B :=
  mkMintWorld (mkMint (Some m) (GenesisTimeStore (mw_mint w))) (mw_bank w).
Definition GetGenesisTime w : outcome (option Z) :=
  match GenesisTimeStore (mw_mint w) with Some t => Ok t | None => Panic ErrCollectionsNotFound end.
Definition SetGenesisTime w (t : option Z) : MintWorld B :=
  mkMintWorld (mkMint (MinterStore (mw_mint w)) (Some t)) (mw_bank w).

Definition MintCoins w (newCoins : Coins) : outcome (MintWorld B) :=
  match newCoins with
  | [] => Ok w
  | _ => b ← BankMintCoins (mw_bank w) MintModule newCoins; Ok (mkMintWorld (mw_mint w) b)
  end.
Definition SendCoinsToFeeCollector w (coins : Coins) : outcome (MintWorld B) :=
  b ← SendCoinsFromModuleToModule (mw_bank w) MintModule MintFeeCollector coins; Ok (mkMintWorld (mw_mint w) b).

(** ** abci.go

    [supply] is the staking keeper's answer to [StakingTokenSupply]. *)

Definition maybeUpdateMinter (ctx : Ctx) (supply : outcome Z) w : outcome (MintWorld B) :=
  minter ← GetMinter w;
  gt ← GetGenesisTime w;
  genesisTime ← match gt with Some t => Ok t | None => Panic (Errorf "nil pointer dereference") end;
  newInflationRate ← CalculateInflationRate (HeaderTime ctx) genesisTime;
  if (newInflationRate =? InflationRate minter) && negb (AnnualProvisions minter =? 0) then Ok w
  else
    totalSupply ← must supply;
    Ok (SetMinter w (mkMinter newInflationRate (newInflationRate * totalSupply) (PreviousBlockTime minter) (BondDenom minter))).

Definition mintBlockProvision (ctx : Ctx) w : outcome (MintWorld B) :=
  minter ← GetMinter w;
  match PreviousBlockTime minter with
  | None => Ok w
  | Some previous =>
    toMintCoin ← must (CalculateBlockProvision validDenom minter (HeaderTime ctx) previous);
    let toMintCoins := filter (λ c : string * Z, c.2 ≠ 0) [toMintCoin] in
    w ← must (MintCoins w toMintCoins);
    must (SendCoinsToFeeCollector w toMintCoins)
  end.

Definition setPreviousBlockTime (ctx : Ctx) w : outcome (MintWorld B) :=
  minter ← GetMinter w;
  Ok (SetMinter w (mkMinter (InflationRate minter) (AnnualProvisions minter) (Some (HeaderTime ctx)) (BondDenom minter))).

Definition BeginBlocker_mint (ctx : Ctx) (supply : outcome Z) w : outcome (MintWorld B) :=
  w ← maybeUpdateMinter ctx supply w;
  w ← mintBlockProvision ctx w;
  setPreviousBlockTime ctx w.

(** ** keeper/genesis.go *)

Record MintGenesis := mkMintGenesis { mg_Minter : option Minter; mg_GenesisTime : option (option Z) }.

Definition MintGenesis_Validate (gs : MintGenesis) : outcome unit :=
  match mg_Minter gs with None => Err (Errorf "minter is nil") | Some m => Minter_Validate m end.

Definition InitGenesis_mint (ctx : Ctx) (gs : MintGenesis) w : outcome (MintWorld B) :=
  let minter := default DefaultMinter (mg_Minter gs) in
  _ ← must (MintGenesis_Validate (mkMintGenesis (Some minter) (mg_GenesisTime gs)));
  Ok (SetGenesisTime (SetMinter w minter) (default (Some (HeaderTime ctx)) (mg_GenesisTime gs))).

Definition ExportGenesis_mint w : outcome MintGenesis :=
  minter ← GetMinter w;
  genTime ← GetGenesisTime w;
  Ok (mkMintGenesis (Some minter) (Some genTime)).

(** ** Properties *)

Section properties.
Context {LL : LegacyDecLaws L} {KL : BankLaws B KB} {ML : MintBankLaws B KB MB}.

(** With a disinflation of zero the rate is the same in every year. *)
Lemma CalculateInflationRate_constant t g r : CalculateInflationRate t g = Ok r → r = InitialInflationRateAsDec.
Proof using LL.
  unfold CalculateInflationRate, DecPower, DecMul, orPanic. change (DecOne - DisinflationRateAsDec) with DecOne.
  destruct (decPower DecOne _) as [p|] eqn:Hp; [|done]. apply decPower_one in Hp as ->. cbn [mbind outcome_bind].
  destruct (decMul _ DecOne) as [x|] eqn:Hx; [|done]. apply decMul_one in Hx as ->. simpl. by intros [= <-].
Qed.

(** A minter after its first update. *)
Definition settled (A : Z) (d : string) (prev : option Z) w : Prop :=
  MinterStore (mw_mint w) = Some (mkMinter InitialInflationRateAsDec A prev d).

Lemma maybeUpdateMinter_settled ctx supply A d prev w w' : settled A d prev w → A ≠ 0 →
  maybeUpdateMinter ctx supply w = Ok w' → w' = w.
Proof using LL.
  intros Hm HA. unfold maybeUpdateMinter, GetMinter. rewrite Hm. cbn [mbind outcome_bind]. intros H.
  apply bind_Ok in H as (gt & _ & H). apply bind_Ok in H as (g & _ & H). apply bind_Ok in H as (r & Hr & H).
  apply CalculateInflationRate_constant in Hr as ->. simpl in H. rewrite (proj2 (Z.eqb_neq A 0) HA) in H. by injection H as <-.
Qed.

(** The amount of one block: [A] times the elapsed part of a year, up to the
    rounding of the decimals, and at most the cap. *)
Definition slack (A : Z) : Z := NanosecondsPerYear * (A + DecOne).

Lemma CalculateBlockProvision_bounds A d prev rate t u c : 0 ≤ A →
  CalculateBlockProvision validDenom (mkMinter rate A prev d) t u = Ok c →
  u ≤ t ∧ c.1 = d ∧ 0 ≤ c.2 ≤ MaxMintedPerBlock ∧
  c.2 * (DecOne * DecOne * NanosecondsPerYear) ≤ A * (t - u) * DecOne + slack A ∧
  (c.2 < MaxMintedPerBlock → t - u < 2 ^ 63 →
   A * (t - u) * DecOne - slack A < (c.2 + 1) * (DecOne * DecOne * NanosecondsPerYear)).
Proof using LL.
  intros HA. unfold CalculateBlockProvision, DecQuo, DecMul, orPanic, slack. destruct (Z.ltb_spec t u) as [|Hut]; [done|].
  assert (0 < DecOne) as HD by done. assert (0 < NanosecondsPerYear) as HY by done.
  set (e := TimeSub t u). assert (0 ≤ e ≤ t - u ∧ (t - u < 2 ^ 63 → e = t - u)) as [He Heq] by (unfold e, TimeSub; lia).
  cbn [AnnualProvisions BondDenom]. destruct (decQuo _ _) as [p|] eqn:Hp; [|done]. apply decQuo_law in Hp as [Hp0 Hp]; [|nia|nia].
  cbn [mbind outcome_bind]. destruct (decMul A p) as [b|] eqn:Hb; [|done]. apply decMul_law in Hb as [Hb0 Hb]; [|done|done].
  set (D := DecOne) in *. set (Y := NanosecondsPerYear) in *.
  assert (e * D - Y ≤ p * Y ≤ e * D + Y) as HpY by (apply Z.abs_le in Hp; nia).
  assert (A * p - D ≤ b * D ≤ A * p + D) as HbD by lia.
  cbn [mbind outcome_bind]. rewrite Z.quot_div_nonneg by lia. unfold NewCoin.
  pose proof (Z.div_mod b D ltac:(lia)) as Hdm. pose proof (Z.mod_pos_bound b D HD) as Hmod.
  assert (0 ≤ b / D) by (apply Z.div_pos; lia). set (x := b / D) in *.
  destruct (validDenom d); [|done]. destruct (Z.ltb_spec (x `min` MaxMintedPerBlock) 0); [done|]. intros [= <-]. cbn [fst snd].
  assert (x * D ≤ b < (x + 1) * D) as Hx by lia.
  assert (x * (D * D * Y) ≤ A * e * D + Y * (A + D)) as Hup by nia.
  assert (A * e * D - Y * (A + D) < (x + 1) * (D * D * Y)) as Hlow by nia.
  assert (0 < D * D * Y) by nia. assert (0 < MaxMintedPerBlock) by done.
  split_and!; [done|done|lia|lia| |].
  - assert (A * e * D ≤ A * (t - u) * D) by nia. nia.
  - intros Hlt Hsmall. rewrite <- (Heq Hsmall). replace (x `min` MaxMintedPerBlock) with x by lia. lia.
Qed.

Lemma mintBlockProvision_minted ctx A d u w w' : 0 ≤ A → settled A d (Some u) w → mintBlockProvision ctx w = Ok w' →
  ∃ c, CalculateBlockProvision validDenom (mkMinter InitialInflationRateAsDec A (Some u) d) (HeaderTime ctx) u = Ok c ∧
    mw_mint w' = mw_mint w ∧ balance (mw_bank w') MintFeeCollector d = balance (mw_bank w) MintFeeCollector d + c.2 ∧
    balance (mw_bank w') MintModule d = balance (mw_bank w) MintModule d.
Proof using LL KL ML.
  intros HA Hm. unfold mintBlockProvision, GetMinter. rewrite Hm. cbn [mbind outcome_bind PreviousBlockTime]. intros H.
  apply bind_Ok in H as (c & Hc & H). rewrite must_Ok in Hc. exists c.
  destruct (CalculateBlockProvision_bounds _ _ _ _ _ _ _ HA Hc) as (_ & Hd & [Hc0 _] & _). split; [done|].
  assert (MintModule ≠ MintFeeCollector) as Hne by done.
  assert (∀ cs w1 w2, coins_ok cs → MintCoins w cs = Ok w1 → SendCoinsToFeeCollector w1 cs = Ok w2 →
    mw_mint w2 = mw_mint w ∧ balance (mw_bank w2) MintFeeCollector d = balance (mw_bank w) MintFeeCollector d + AmountOf cs d ∧
    balance (mw_bank w2) MintModule d = balance (mw_bank w) MintModule d) as Hmove.
  { intros cs w1 w2 Hcs H1 H2. unfold SendCoinsToFeeCollector in H2. apply bind_Ok in H2 as (b2 & Hb2 & H2). injection H2 as <-.
    destruct (SendToModule_law _ _ _ _ _ Hcs Hne Hb2 d) as (Hto & Hfrom & _). simpl.
    destruct cs as [|c0 cs]; [injection H1 as <-; rewrite AmountOf_nil in *; split_and!; [done|lia|lia]|].
    apply bind_Ok in H1 as (b1 & Hb1 & H1). injection H1 as <-. simpl in *.
    destruct (MintCoins_law _ _ _ _ Hcs Hb1 d) as [Hmint Hother]. rewrite Hto, Hfrom, Hmint, (Hother MintFeeCollector) by done.
    split_and!; [done|lia|lia]. }
  apply bind_Ok in H as (w1 & H1 & H2). rewrite must_Ok in H1, H2. rewrite filter_cons in H1, H2. rewrite filter_nil in H1, H2.
  destruct c as [d' x]. simpl in Hd, Hc0. subst d'. case_decide as Hx; simpl in Hx; simpl.
  - replace x with (AmountOf [(d, x)] d) by (unfold AmountOf; simpl; by rewrite lookup_insert_eq).
    apply (Hmove [(d, x)] w1 w'); [|done|done]. split; [apply NoDup_singleton|by constructor].
  - assert (x = 0) as -> by lia. rewrite <- (AmountOf_nil d). by apply (Hmove [] w1 w'); [apply coins_ok_nil|..].
Qed.

(** Blocks in a row; between them the other modules and the users move coins as
    they like. [n] counts the blocks, [M] is what the fee collector received of
    the denomination, [capped] tells whether a block reached the cap. *)
Inductive mint_run (d : string) : Z → Z → bool → MintWorld B → MintWorld B → Prop :=
  | mint_done w : mint_run d 0 0 false w w
  | mint_block ctx supply n M capped w1 w2 w3 : BeginBlocker_mint ctx supply w1 = Ok w2 → mint_run d n M capped w2 w3 →
      let minted := balance (mw_bank w2) MintFeeCollector d - balance (mw_bank w1) MintFeeCollector d in
      mint_run d (n + 1) (minted + M) ((minted =? MaxMintedPerBlock) || capped) w1 w3
  | mint_others n M capped w b w3 : mint_run d n M capped (mkMintWorld (mw_mint w) b) w3 → mint_run d n M capped w w3.

Lemma BeginBlocker_settled ctx supply A d u w w' : 0 < A → settled A d (Some u) w →
  BeginBlocker_mint ctx supply w = Ok w' →
  settled A d (Some (HeaderTime ctx)) w' ∧
  ∃ c, CalculateBlockProvision validDenom (mkMinter InitialInflationRateAsDec A (Some u) d) (HeaderTime ctx) u = Ok c ∧
    balance (mw_bank w') MintFeeCollector d - balance (mw_bank w) MintFeeCollector d = c.2.
Proof using LL KL ML.
  intros HA Hm H. unfold BeginBlocker_mint in H. apply bind_Ok in H as (w1 & H1 & H).
  eapply maybeUpdateMinter_settled in H1 as ->; [|done|lia]. apply bind_Ok in H as (w2 & H2 & H).
  apply (mintBlockProvision_minted _ A d u) in H2 as (c & Hc & Hs & Hb & _); [|lia|done].
  unfold setPreviousBlockTime, GetMinter in H. rewrite Hs, Hm in H. injection H as <-. split; [done|]. exists c. split; [done|]. simpl. lia.
Qed.

Lemma mint_run_spec A d u w n M capped w' : 0 < A → settled A d (Some u) w → mint_run d n M capped w w' →
  ∃ v, settled A d (Some v) w' ∧ u ≤ v ∧ 0 ≤ M ≤ n * MaxMintedPerBlock ∧
    M * (DecOne * DecOne * NanosecondsPerYear) ≤ A * (v - u) * DecOne + n * slack A ∧
    (capped = false → v - u < 2 ^ 63 →
     A * (v - u) * DecOne - n * slack A ≤ (M + n) * (DecOne * DecOne * NanosecondsPerYear)).
Proof using LL KL ML.
  intros HA Hm Hrun. revert u Hm. induction Hrun as [w|ctx supply n M capped w1 w2 w3 Hb Hrun IH minted|n M capped w b w3 Hrun IH]; intros u Hm.
  - exists u. split_and!; [done|lia..].
  - destruct (BeginBlocker_settled _ _ A d u _ _ HA Hm Hb) as (Hm2 & c & Hc & Hminted). fold minted in Hminted.
    destruct (IH _ Hm2) as (v & Hv & Huv & HM & Hup & Hlow).
    destruct (CalculateBlockProvision_bounds _ _ _ _ _ _ _ (Z.lt_le_incl _ _ HA) Hc) as (Hle & _ & Hcap & Hup1 & Hlow1).
    rewrite <- Hminted in Hcap, Hup1, Hlow1. set (K := DecOne * DecOne * NanosecondsPerYear) in *. set (t := HeaderTime ctx) in *.
    exists v. split_and!; [done|lia|lia|lia|nia|].
    intros [Hne Hc2]%orb_false_iff Hsmall. specialize (Hlow Hc2 ltac:(lia)). apply Z.eqb_neq in Hne. specialize (Hlow1 ltac:(lia) ltac:(lia)). nia.
  - by apply IH.
Qed.

(** The first block computes the annual provisions, from the supply it finds. *)
Lemma first_block_settles ctx totalSupply w w1 g minter :
  MinterStore (mw_mint w) = Some minter → AnnualProvisions minter = 0 → GenesisTimeStore (mw_mint w) = Some (Some g) →
  0 < totalSupply → BeginBlocker_mint ctx (Ok totalSupply) w = Ok w1 →
  settled (InitialInflationRateAsDec * totalSupply) (BondDenom minter) (Some (HeaderTime ctx)) w1.
Proof using LL KL ML.
  intros Hm H0 Hg Hts H. unfold BeginBlocker_mint in H. apply bind_Ok in H as (wa & Ha & H).
  unfold maybeUpdateMinter, GetMinter, GetGenesisTime in Ha. rewrite Hm, Hg in Ha. cbn [mbind outcome_bind] in Ha.
  apply bind_Ok in Ha as (r & Hr & Ha). apply CalculateInflationRate_constant in Hr as ->. rewrite H0, andb_false_r in Ha.
  injection Ha as <-. set (A := InitialInflationRateAsDec * totalSupply) in *.
  set (wa := SetMinter w (mkMinter InitialInflationRateAsDec A (PreviousBlockTime minter) (BondDenom minter))) in *.
  assert (0 < A) as HA by (unfold A, InitialInflationRateAsDec; lia).
  apply bind_Ok in H as (wb & Hb & H). assert (mw_mint wb = mw_mint wa) as Hs.
  { destruct (PreviousBlockTime minter) as [u|] eqn:Hu.
    - apply (mintBlockProvision_minted _ A (BondDenom minter) u) in Hb as (c & _ & Hs & _); [done|lia|done].
    - unfold mintBlockProvision, GetMinter in Hb. simpl in Hb. by injection Hb as <-. }
  unfold setPreviousBlockTime, GetMinter in H. rewrite Hs in H. simpl in H. by injection H as <-.
Qed.

(** C20: What is minted, which is not what the README of x/mint announces. The
    README has the inflation rate calculated again on each anniversary of genesis,
    falling every year, and the annual provisions then computed again from the
    supply of that time. In the code the disinflation rate is zero, so the rate
    never changes, and the update is skipped while the rate is the same. So, for
    decimals and a bank that follow their documentation: the first block sets
    the annual provisions to the initial rate times the supply it finds; and from
    any block on, however many anniversaries pass, whatever the supply becomes and
    whatever happens between blocks, the rate stays the initial one, the annual
    provisions [A] (positive, a decimal with 18 digits) stay the same, block times
    do not go back, no block mints more than the cap, and what [n] blocks mint
    differs from [A] times the elapsed part of a year by the rounding of decimals
    and less than one coin for each block (from above always, from below unless a
    block reached the cap or the run is longer than a time.Duration). *)
Theorem minted_in_proportion :
  (∀ ctx totalSupply w w1 g minter,
     MinterStore (mw_mint w) = Some minter → AnnualProvisions minter = 0 →
     GenesisTimeStore (mw_mint w) = Some (Some g) → 0 < totalSupply →
     BeginBlocker_mint ctx (Ok totalSupply) w = Ok w1 →
     settled (InitialInflationRateAsDec * totalSupply) (BondDenom minter) (Some (HeaderTime ctx)) w1) ∧
  (∀ A d u w n M capped w', 0 < A → settled A d (Some u) w → mint_run d n M capped w w' →
     ∃ v, settled A d (Some v) w' ∧ u ≤ v ∧ 0 ≤ M ≤ n * MaxMintedPerBlock ∧
       M * (DecOne * DecOne * NanosecondsPerYear) ≤ A * (v - u) * DecOne + n * slack A ∧
       (capped = false → v - u < 2 ^ 63 →
        A * (v - u) * DecOne - n * slack A ≤ (M + n) * (DecOne * DecOne * NanosecondsPerYear))).
Proof using LL KL ML. split; [exact first_block_settles|exact mint_run_spec]. Qed.

End properties.
End keeper.

(** ** An example *)

Definition floor_dec : LegacyDecOps := {|
  decMul a b := Some (a * b / DecOne);
  decQuo a b := if b =? 0 then None else Some (a * DecOne / b);
  decPower a n := if a =? DecOne then Some DecOne else None
|}.

Lemma floor_dec_laws : LegacyDecLaws floor_dec.
Proof.
  assert (0 < DecOne) as HD by done. split; cbn [decMul decQuo decPower floor_dec].
  - intros a b c Ha Hb [= <-]. split; [apply Z.div_pos; nia|].
    pose proof (Z.div_mod (a * b) DecOne ltac:(lia)). pose proof (Z.mod_pos_bound (a * b) DecOne HD). lia.
  - intros a c [= <-]. apply Z.div_mul. lia.
  - intros a b c Ha Hb. destruct (Z.eqb_spec b 0); [lia|]. intros [= <-]. split; [apply Z.div_pos; nia|].
    pose proof (Z.div_mod (a * DecOne) b ltac:(lia)). pose proof (Z.mod_pos_bound (a * DecOne) b Hb). lia.
  - intros n c. rewrite Z.eqb_refl. congruence.
Qed.

Definition simple_mint : MintBank SimpleBank := {| BankMintCoins b m c := Ok (bank_add b m c) |}.
Lemma simple_mint_laws : MintBankLaws SimpleBank simple_bank simple_mint.
Proof.
  split. intros b b' m c Hc [= <-] d. unfold balance. simpl. split; [|intros a Ha]; rewrite bank_add_amount by done.
  - by rewrite decide_True.
  - rewrite decide_False by done. lia.
Qed.

Module MintExample.
#[local] Existing Instances floor_dec floor_dec_laws simple_bank simple_bank_laws simple_mint simple_mint_laws.

(** A supply of 10^16 ubbn; blocks ten seconds apart, then one two years later. *)
Definition any : string → bool := λ _, true.
Definition at_time (t : Z) : Ctx := mkCtx 1 [] t.
Definition supply0 : Z := 10000000000000000.
Definition w0 : MintWorld SimpleBank := get_ok (mkMintWorld (mkMint None None) ∅)
  (InitGenesis_mint (at_time 0) (mkMintGenesis None None) (mkMintWorld (mkMint None None) ∅)).
Definition w1 := get_ok w0 (BeginBlocker_mint any (at_time 1) (Ok supply0) w0).
Definition w2 := get_ok w1 (BeginBlocker_mint any (at_time 10000000001) (Ok (2 * supply0)) w1).
Definition w3 := get_ok w2 (BeginBlocker_mint any (at_time (2 * NanosecondsPerYear)) (Ok (3 * supply0)) w2).
Definition fees (w : MintWorld SimpleBank) : Z := balance (mw_bank w) MintFeeCollector "ubbn".

Lemma run_w3 : mint_run any "ubbn" (0 + 1 + 1) (fees w2 - fees w1 + (fees w3 - fees w2 + 0))
  ((fees w2 - fees w1 =? MaxMintedPerBlock) || ((fees w3 - fees w2 =? MaxMintedPerBlock) || false)) w1 w3.
Proof.
  apply (mint_block any "ubbn" (at_time 10000000001) (Ok (2 * supply0)) (0 + 1)); [unfold w2; apply is_ok_get; vm_compute; reflexivity|].
  apply (mint_block any "ubbn" (at_time (2 * NanosecondsPerYear)) (Ok (3 * supply0)) 0); [unfold w3; apply is_ok_get; vm_compute; reflexivity|].
  apply mint_done.
Qed.

(** Two years on and with three times the supply, the provisions are those of the
    first block. *)
Lemma minted_in_proportion_witness :
  fees w2 - fees w1 = 174288061 ∧
  ∃ v, settled (InitialInflationRateAsDec * supply0) "ubbn" (Some v) w3 ∧ 1 ≤ v.
Proof.
  split; [vm_compute; reflexivity|].
  destruct (minted_in_proportion any) as [Hfirst Hrun].
  assert (settled (InitialInflationRateAsDec * supply0) "ubbn" (Some 1) w1) as H1.
  { apply (Hfirst (at_time 1) supply0 w0 w1 0 DefaultMinter); [vm_compute; reflexivity..|].
    unfold w1. apply is_ok_get. vm_compute. reflexivity. }
  destruct (Hrun (InitialInflationRateAsDec * supply0) "ubbn" 1 w1 (0 + 1 + 1)
    (fees w2 - fees w1 + (fees w3 - fees w2 + 0))
    ((fees w2 - fees w1 =? MaxMintedPerBlock) || ((fees w3 - fees w2 =? MaxMintedPerBlock) || false)) w3) as (v & Hv & Hle & _).
  - vm_compute. reflexivity.
  - exact H1.
  - exact run_w3.
  - exists v. exact (conj Hv Hle).
Defined.

End MintExample.
