(* ===== verification/RewardTracker.v ===== *)
(** * x/incentive: the reward tracker

    The rewards of a finality provider are shared among its delegations by
    periods: each change of the stake ends a period, whose rewards per satoshi,
    scaled by [DecimalRewards], are added to the cumulative rewards of the
    provider; a delegation is owed its satoshis times the growth of the
    cumulative rewards since the period it started in. The file translates
    keeper/reward_tracker.go, reward_tracker_store.go and
    reward_tracker_events.go, and types/rewards.go. *)

From S2P Require Import Prelude Bytes Store BbnTypes Coins.

(** ** State *)

Inductive StakeholderType := FINALITY_PROVIDER | BTC_STAKER | COSTAKER.
#[global] Instance StakeholderType_eq_dec : EqDecision StakeholderType.
Proof. solve_decision. Defined.
#[global] Instance StakeholderType_countable : Countable StakeholderType.
Proof.
  refine (inj_countable' (λ t, match t with FINALITY_PROVIDER => 0 | BTC_STAKER => 1 | COSTAKER => 2 end%nat)
    (λ n, match n with 0 => FINALITY_PROVIDER | 1 => BTC_STAKER | _ => COSTAKER end%nat) _).
  by intros [].
Defined.

Record RewardGauge := mkRewardGauge { rg_Coins : Coins; rg_WithdrawnCoins : Coins }.

Record FinalityProviderCurrentRewards := mkFpCurrentRewards {
  fc_CurrentRewards : Coins;
  fc_Period : Z;               (* uint64 *)
  fc_TotalActiveSat : Z        (* math.Int *)
}.

Record BTCDelegationRewardsTracker := mkDelTracker { dt_StartPeriod : Z; dt_TotalActiveSat : Z }.

Inductive EventPowerUpdate :=
  | BtcActivated (FpAddr BtcDelAddr : string) (TotalSat : Z)
  | BtcUnbonded (FpAddr BtcDelAddr : string) (TotalSat : Z).

(** The stores of the module. [fpHistorical] is keyed by provider and period,
    [delTrackers] by provider and delegator, [delToFp] by delegator and
    provider. Satoshis are [math.Int]: their sums stay far below 256 bits. *)
Record IncentiveState := mkIncentive {
  fpCurrent : gmap bytes FinalityProviderCurrentRewards;
  fpHistorical : gmap bytes (gmap Z Coins);
  delTrackers : gmap bytes (gmap bytes BTCDelegationRewardsTracker);
  delToFp : gmap bytes (gmap bytes unit);
  rewardGauges : gmap StakeholderType (gmap bytes RewardGauge);
  rewardTrackerEvents : gmap Z (list EventPowerUpdate);
  lastProcessedHeight : option Z;
  btcStakingGauges : gmap Z Coins;
  fpDirectGauges : gmap Z Coins;
  withdrawAddrs : gmap bytes bytes;
  refundableMsgs : gset bytes
}.

Definition empty_incentive : IncentiveState := mkIncentive ∅ ∅ ∅ ∅ ∅ ∅ None ∅ ∅ ∅ ∅.

Definition set_fpCurrent (s : IncentiveState) m := mkIncentive m (fpHistorical s) (delTrackers s) (delToFp s)
  (rewardGauges s) (rewardTrackerEvents s) (lastProcessedHeight s) (btcStakingGauges s) (fpDirectGauges s)
  (withdrawAddrs s) (refundableMsgs s).
Definition set_fpHistorical (s : IncentiveState) m := mkIncentive (fpCurrent s) m (delTrackers s) (delToFp s)
  (rewardGauges s) (rewardTrackerEvents s) (lastProcessedHeight s) (btcStakingGauges s) (fpDirectGauges s)
  (withdrawAddrs s) (refundableMsgs s).
Definition set_delTrackers (s : IncentiveState) m := mkIncentive (fpCurrent s) (fpHistorical s) m (delToFp s)
  (rewardGauges s) (rewardTrackerEvents s) (lastProcessedHeight s) (btcStakingGauges s) (fpDirectGauges s)
  (withdrawAddrs s) (refundableMsgs s).
Definition set_delToFp (s : IncentiveState) m := mkIncentive (fpCurrent s) (fpHistorical s) (delTrackers s) m
  (rewardGauges s) (rewardTrackerEvents s) (lastProcessedHeight s) (btcStakingGauges s) (fpDirectGauges s)
  (withdrawAddrs s) (refundableMsgs s).
Definition set_rewardGauges (s : IncentiveState) m := mkIncentive (fpCurrent s) (fpHistorical s) (delTrackers s)
  (delToFp s) m (rewardTrackerEvents s) (lastProcessedHeight s) (btcStakingGauges s) (fpDirectGauges s)
  (withdrawAddrs s) (refundableMsgs s).
Definition set_rewardTrackerEvents (s : IncentiveState) m := mkIncentive (fpCurrent s) (fpHistorical s)
  (delTrackers s) (delToFp s) (rewardGauges s) m (lastProcessedHeight s) (btcStakingGauges s) (fpDirectGauges s)
  (withdrawAddrs s) (refundableMsgs s).
Definition set_lastProcessedHeight (s : IncentiveState) m := mkIncentive (fpCurrent s) (fpHistorical s)
  (delTrackers s) (delToFp s) (rewardGauges s) (rewardTrackerEvents s) m (btcStakingGauges s) (fpDirectGauges s)
  (withdrawAddrs s) (refundableMsgs s).
Definition set_btcStakingGauges (s : IncentiveState) m := mkIncentive (fpCurrent s) (fpHistorical s)
  (delTrackers s) (delToFp s) (rewardGauges s) (rewardTrackerEvents s) (lastProcessedHeight s) m
  (fpDirectGauges s) (withdrawAddrs s) (refundableMsgs s).
Definition set_fpDirectGauges (s : IncentiveState) m := mkIncentive (fpCurrent s) (fpHistorical s)
  (delTrackers s) (delToFp s) (rewardGauges s) (rewardTrackerEvents s) (lastProcessedHeight s)
  (btcStakingGauges s) m (withdrawAddrs s) (refundableMsgs s).
Definition set_withdrawAddrs (s : IncentiveState) m := mkIncentive (fpCurrent s) (fpHistorical s)
  (delTrackers s) (delToFp s) (rewardGauges s) (rewardTrackerEvents s) (lastProcessedHeight s)
  (btcStakingGauges s) (fpDirectGauges s) m (refundableMsgs s).
Definition set_refundableMsgs (s : IncentiveState) m := mkIncentive (fpCurrent s) (fpHistorical s)
  (delTrackers s) (delToFp s) (rewardGauges s) (rewardTrackerEvents s) (lastProcessedHeight s)
  (btcStakingGauges s) (fpDirectGauges s) (withdrawAddrs s) m.

(** The precision multiplier of the rewards per satoshi. *)
Definition DecimalRewards : Z := 10 ^ 20.

(** ** Store access *)

Definition GetFinalityProviderCurrentRewards (s : IncentiveState) (fp : bytes)
    : outcome FinalityProviderCurrentRewards :=
  match fpCurrent s !! fp with Some v => Ok v | None => Err ErrFPCurrentRewardsNotFound end.
Definition SetFinalityProviderCurrentRewards (s : IncentiveState) (fp : bytes) rwd : IncentiveState :=
  set_fpCurrent s (<[fp := rwd]> (fpCurrent s)).
Definition deleteFinalityProviderCurrentRewards (s : IncentiveState) (fp : bytes) : IncentiveState :=
  set_fpCurrent s (delete fp (fpCurrent s)).

Definition GetFinalityProviderHistoricalRewards (s : IncentiveState) (fp : bytes) (period : Z) : outcome Coins :=
  match get2 fp period (fpHistorical s) with Some v => Ok v | None => Err ErrFPHistoricalRewardsNotFound end.
Definition setFinalityProviderHistoricalRewards (s : IncentiveState) (fp : bytes) (period : Z) (rwd : Coins)
    : IncentiveState := set_fpHistorical s (set2 fp period rwd (fpHistorical s)).

Definition deleteAllFromFinalityProviderRwd (s : IncentiveState) (fp : bytes) : IncentiveState :=
  deleteFinalityProviderCurrentRewards (set_fpHistorical s (delete fp (fpHistorical s))) fp.

Definition setBTCDelegatorToFP (s : IncentiveState) (del fp : bytes) : IncentiveState :=
  set_delToFp s (set2 del fp tt (delToFp s)).
Definition deleteBTCDelegatorToFP (s : IncentiveState) (del fp : bytes) : IncentiveState :=
  set_delToFp s (<[del := delete fp (default ∅ (delToFp s !! del))]> (delToFp s)).
(** The providers of a delegator, in the order of the keys. *)
Definition delegatorFps (s : IncentiveState) (del : bytes) : list bytes := (iterB (default ∅ (delToFp s !! del))).*1.

Definition GetBTCDelegationRewardsTracker (s : IncentiveState) (fp del : bytes)
    : outcome BTCDelegationRewardsTracker :=
  match get2 fp del (delTrackers s) with Some v => Ok v | None => Err ErrBTCDelegationRewardsTrackerNotFound end.
Definition setBTCDelegationRewardsTracker (s : IncentiveState) (fp del : bytes) rwd : IncentiveState :=
  let s := setBTCDelegatorToFP s del fp in
  set_delTrackers s (set2 fp del rwd (delTrackers s)).
Definition deleteKeysFromBTCDelegationRewardsTracker (s : IncentiveState) (fp : bytes) (delKeys : list bytes)
    : IncentiveState :=
  foldl (λ s del, deleteBTCDelegatorToFP s del fp) (set_delTrackers s (delete fp (delTrackers s))) delKeys.

Definition GetRewardGauge (s : IncentiveState) (sType : StakeholderType) (addr : bytes) : option RewardGauge :=
  get2 sType addr (rewardGauges s).
Definition SetRewardGauge (s : IncentiveState) (sType : StakeholderType) (addr : bytes) (rg : RewardGauge)
    : IncentiveState := set_rewardGauges s (set2 sType addr rg (rewardGauges s)).

Section tracker.
Context {SC : SdkCoins} {BA : Bech32}.

(** ** Gauges *)

Definition NewRewardGauge : RewardGauge := mkRewardGauge [] [].
Definition RewardGauge_Add (rg : RewardGauge) (coins : Coins) : outcome RewardGauge :=
  c ← CoinsAdd (rg_Coins rg) coins; Ok (mkRewardGauge c (rg_WithdrawnCoins rg)).

(** Nothing is accumulated unless every listed amount is positive. *)
Definition accumulateRewardGauge (s : IncentiveState) (sType : StakeholderType) (addr : bytes) (reward : Coins)
    : outcome IncentiveState :=
  if negb (CoinsIsAllPositive reward) then Ok s
  else
    let rg := default NewRewardGauge (GetRewardGauge s sType addr) in
    rg ← RewardGauge_Add rg reward;
    Ok (SetRewardGauge s sType addr rg).
Definition AccumulateRewardGaugeForFP (s : IncentiveState) (addr : bytes) (reward : Coins) :=
  accumulateRewardGauge s FINALITY_PROVIDER addr reward.
Definition AccumulateRewardGaugeForCostaker (s : IncentiveState) (addr : bytes) (reward : Coins) :=
  accumulateRewardGauge s COSTAKER addr reward.

(** ** Periods *)

Definition AddFinalityProviderRewardsForBtcDelegations (s : IncentiveState) (fp : bytes) (rwd : Coins)
    : outcome IncentiveState :=
  cur ← GetFinalityProviderCurrentRewards s fp;
  c ← CoinsAdd (fc_CurrentRewards cur) rwd;
  Ok (SetFinalityProviderCurrentRewards s fp (mkFpCurrentRewards c (fc_Period cur) (fc_TotalActiveSat cur))).

Definition initializeFinalityProvider (s : IncentiveState) (fp : bytes)
    : IncentiveState * FinalityProviderCurrentRewards :=
  let s := setFinalityProviderHistoricalRewards s fp 0 [] in
  let newFp := mkFpCurrentRewards [] 1 0 in
  (SetFinalityProviderCurrentRewards s fp newFp, newFp).

(** The ended period and the new state. *)
Definition IncrementFinalityProviderPeriod (s : IncentiveState) (fp : bytes) : outcome (Z * IncentiveState) :=
  match fpCurrent s !! fp with
  | None => Ok (1, (initializeFinalityProvider s fp).1)
  | Some cur =>
    currentRewardsPerSat ←
      (if fc_TotalActiveSat cur =? 0 then Ok []
       else c ← CoinsMulInt (fc_CurrentRewards cur) DecimalRewards; CoinsQuoInt c (fc_TotalActiveSat cur));
    hist ← GetFinalityProviderHistoricalRewards s fp (u64 (fc_Period cur - 1));
    newHist ← CoinsAdd hist currentRewardsPerSat;
    let s := setFinalityProviderHistoricalRewards s fp (fc_Period cur) newHist in
    let s := SetFinalityProviderCurrentRewards s fp
               (mkFpCurrentRewards [] (u64 (fc_Period cur + 1)) (fc_TotalActiveSat cur)) in
    Ok (fc_Period cur, s)
  end.

Definition calculateDelegationRewardsBetween (s : IncentiveState) (fp : bytes) (tr : BTCDelegationRewardsTracker)
    (endingPeriod : Z) : outcome Coins :=
  if endingPeriod <? dt_StartPeriod tr then Panic (Errorf "startingPeriod cannot be greater than endingPeriod")
  else
    starting ← GetFinalityProviderHistoricalRewards s fp (dt_StartPeriod tr);
    ending ← GetFinalityProviderHistoricalRewards s fp endingPeriod;
    differenceWithDecimals ← CoinsSub ending starting;
    if CoinsIsAnyNegative differenceWithDecimals then Panic (Errorf "negative rewards should not be possible")
    else
      rewardsWithDecimals ← CoinsMulInt differenceWithDecimals (dt_TotalActiveSat tr);
      CoinsQuoInt rewardsWithDecimals DecimalRewards.

Definition CalculateBTCDelegationRewards (s : IncentiveState) (fp del : bytes) (endPeriod : Z) : outcome Coins :=
  tr ← GetBTCDelegationRewardsTracker s fp del;
  if dt_TotalActiveSat tr =? 0 then Ok []
  else calculateDelegationRewardsBetween s fp tr endPeriod.

Definition CalculateBTCDelegationRewardsAndSendToGauge (s : IncentiveState) (fp del : bytes) (endPeriod : Z)
    : outcome IncentiveState :=
  rewards ← match CalculateBTCDelegationRewards s fp del endPeriod with
            | Err ErrBTCDelegationRewardsTrackerNotFound => Ok []
            | r => r
            end;
  if CoinsIsZero rewards then Ok s
  else accumulateRewardGauge s BTC_STAKER del rewards.

Definition initializeBTCDelegation (s : IncentiveState) (fp del : bytes) : outcome IncentiveState :=
  cur ← GetFinalityProviderCurrentRewards s fp;
  let previousPeriod := u64 (fc_Period cur - 1) in
  tr ← GetBTCDelegationRewardsTracker s fp del;
  Ok (setBTCDelegationRewardsTracker s fp del (mkDelTracker previousPeriod (dt_TotalActiveSat tr))).

Definition btcDelegationModifiedWithPreInitDel (s : IncentiveState) (fp del : bytes)
    (preInitializeDelegation : IncentiveState → bytes → bytes → outcome IncentiveState) : outcome IncentiveState :=
  r ← IncrementFinalityProviderPeriod s fp;
  let '(endedPeriod, s) := (r : Z * IncentiveState) in
  s ← CalculateBTCDelegationRewardsAndSendToGauge s fp del endedPeriod;
  s ← preInitializeDelegation s fp del;
  initializeBTCDelegation s fp del.

Definition btcDelegationModified (s : IncentiveState) (fp del : bytes) : outcome IncentiveState :=
  btcDelegationModifiedWithPreInitDel s fp del (λ s _ _, Ok s).

(** ** Satoshis *)

Definition subFinalityProviderStaked (s : IncentiveState) (fp : bytes) (amt : Z) : outcome IncentiveState :=
  cur ← GetFinalityProviderCurrentRewards s fp;
  let sat := fc_TotalActiveSat cur - amt in
  if sat <? 0 then Err ErrFPCurrentRewardsTrackerNegativeAmount
  else Ok (SetFinalityProviderCurrentRewards s fp (mkFpCurrentRewards (fc_CurrentRewards cur) (fc_Period cur) sat)).

Definition subDelegationSat (amt : Z) (s : IncentiveState) (fp del : bytes) : outcome IncentiveState :=
  tr ← GetBTCDelegationRewardsTracker s fp del;
  let sat := dt_TotalActiveSat tr - amt in
  if sat <? 0 then Err ErrBTCDelegationRewardsTrackerNegativeAmount
  else subFinalityProviderStaked (setBTCDelegationRewardsTracker s fp del (mkDelTracker (dt_StartPeriod tr) sat)) fp amt.

Definition addFinalityProviderStaked (s : IncentiveState) (fp : bytes) (amt : Z) : outcome IncentiveState :=
  let '(s, cur) := match fpCurrent s !! fp with
                   | Some cur => (s, cur)
                   | None => initializeFinalityProvider s fp
                   end in
  Ok (SetFinalityProviderCurrentRewards s fp
        (mkFpCurrentRewards (fc_CurrentRewards cur) (fc_Period cur) (fc_TotalActiveSat cur + amt))).

Definition addDelegationSat (amt : Z) (s : IncentiveState) (fp del : bytes) : outcome IncentiveState :=
  let tr := default (mkDelTracker 0 0) (get2 fp del (delTrackers s)) in
  addFinalityProviderStaked
    (setBTCDelegationRewardsTracker s fp del (mkDelTracker (dt_StartPeriod tr) (dt_TotalActiveSat tr + amt))) fp amt.

Definition BtcDelegationActivated (s : IncentiveState) (fp del : bytes) (sat : Z) : outcome IncentiveState :=
  btcDelegationModifiedWithPreInitDel s fp del (addDelegationSat sat).
Definition BtcDelegationUnbonded (s : IncentiveState) (fp del : bytes) (sat : Z) : outcome IncentiveState :=
  btcDelegationModifiedWithPreInitDel s fp del (subDelegationSat sat).

Definition sendAllBtcRewardsToGauge (s : IncentiveState) (del : bytes) : outcome IncentiveState :=
  foldM (λ s fp, btcDelegationModified s fp del) s (delegatorFps s del).

Definition FpSlashed (s : IncentiveState) (fp : bytes) : outcome IncentiveState :=
  r ← IncrementFinalityProviderPeriod s fp;
  let '(endedPeriod, s) := (r : Z * IncentiveState) in
  let dels := (iterB (default ∅ (delTrackers s !! fp))).*1 in
  s ← foldM (λ s del, CalculateBTCDelegationRewardsAndSendToGauge s fp del endedPeriod) s dels;
  Ok (deleteAllFromFinalityProviderRwd (deleteKeysFromBTCDelegationRewardsTracker s fp dels) fp).

(** ** Queued events *)

Definition GetOrNewRewardTrackerEvent (s : IncentiveState) (height : Z) : list EventPowerUpdate :=
  default [] (rewardTrackerEvents s !! height).
Definition AddRewardTrackerEvent (s : IncentiveState) (height : Z) (newEv : EventPowerUpdate) : IncentiveState :=
  set_rewardTrackerEvents s (<[height := GetOrNewRewardTrackerEvent s height ++ [newEv]]> (rewardTrackerEvents s)).
Definition AddEventBtcDelegationActivated (s : IncentiveState) (height : Z) (fp del : bytes) (sat : Z) :=
  AddRewardTrackerEvent s height (BtcActivated (AccString fp) (AccString del) sat).
Definition AddEventBtcDelegationUnbonded (s : IncentiveState) (height : Z) (fp del : bytes) (sat : Z) :=
  AddRewardTrackerEvent s height (BtcUnbonded (AccString fp) (AccString del) sat).
Definition DeleteRewardTrackerEvents (s : IncentiveState) (height : Z) : IncentiveState :=
  set_rewardTrackerEvents s (delete height (rewardTrackerEvents s)).
Definition GetRewardTrackerEventLastProcessedHeight (s : IncentiveState) : Z := default 0 (lastProcessedHeight s).

Definition mustAddr (a : string) : outcome bytes :=
  match AccFromBech32 a with Some b => Ok b | None => Panic (Errorf "invalid bech32 address") end.

Definition processRewardTrackerEvent (s : IncentiveState) (ev : EventPowerUpdate) : outcome IncentiveState :=
  match ev with
  | BtcActivated fpAddr delAddr sat => fp ← mustAddr fpAddr; del ← mustAddr delAddr; BtcDelegationActivated s fp del sat
  | BtcUnbonded fpAddr delAddr sat => fp ← mustAddr fpAddr; del ← mustAddr delAddr; BtcDelegationUnbonded s fp del sat
  end.

Definition ProcessRewardTrackerEventsAtHeight (s : IncentiveState) (height : Z) : outcome IncentiveState :=
  s ← foldM processRewardTrackerEvent s (GetOrNewRewardTrackerEvent s height);
  Ok (DeleteRewardTrackerEvents s height).

Definition ProcessRewardTrackerEvents (s : IncentiveState) (untilBlkHeight : Z) : outcome IncentiveState :=
  let start := u64 (GetRewardTrackerEventLastProcessedHeight s + 1) in
  s ← foldM ProcessRewardTrackerEventsAtHeight s (seqZ start (untilBlkHeight - start + 1));
  Ok (set_lastProcessedHeight s (Some untilBlkHeight)).

(** The net satoshis per delegator of the events not processed yet. *)
Definition compileEvent (include : string → bool) (m : gmap string Z) (ev : EventPowerUpdate) : gmap string Z :=
  match ev with
  | BtcActivated fpAddr delAddr sat => if include fpAddr then <[delAddr := default 0 (m !! delAddr) + sat]> m else m
  | BtcUnbonded fpAddr delAddr sat => if include fpAddr then <[delAddr := default 0 (m !! delAddr) - sat]> m else m
  end.
Definition GetRewardTrackerEventsCompiledByBtcDel (s : IncentiveState) (untilBlkHeight : Z) (include : string → bool)
    : gmap string Z :=
  let start := u64 (GetRewardTrackerEventLastProcessedHeight s + 1) in
  foldl (compileEvent include) ∅ (seqZ start (untilBlkHeight - start + 1) ≫= GetOrNewRewardTrackerEvent s).

(** The iteration with the pending satoshis added: first the delegations of the
    provider, then the delegators that only have pending satoshis, in the order
    of their addresses. [it] is the callback, on a state of its own. *)
Definition IterateBTCDelegationSatsUpdated {A} (ctx : Ctx) (s : IncentiveState) (fp : bytes)
    (it : A → bytes → Z → outcome A) (a : A) : outcome A :=
  let compiledEvents := GetRewardTrackerEventsCompiledByBtcDel s ((CtxHeight ctx))
                          (λ fpAddr, bool_decide (fpAddr = AccString fp)) in
  r ← foldM (λ '(compiled, a) '(del, tr),
        a ← it a del (dt_TotalActiveSat tr + default 0 (compiled !! AccString del));
        Ok (delete (AccString del) compiled, a)) (compiledEvents, a) (iterB (default ∅ (delTrackers s !! fp)));
  let '(compiled, a) := (r : gmap string Z * A) in
  foldM (λ a '(delStr, sats),
    match AccFromBech32 delStr with
    | None => Err (Errorf "AccAddressFromBech32")
    | Some del => it a del sats
    end) a (sort_stable (λ x y, string_less x.1 y.1) (map_to_list compiled)).

End tracker.
