(* ===== verification/RewardLedger.v ===== *)
(** * x/incentive: what the tracker owes

    The accounting behind the reward tracker. The pool of a provider is its
    current rewards, its delegations and its cumulative rewards; what it owes is
    measured in units of 1/[DecimalRewards] of a coin. Ending a period,
    restarting a delegation and paying it never create a debt, and the rounding
    only ever stays in the pool. *)

From S2P Require Import Prelude Bytes Store BbnTypes Coins RewardTracker.

(** ** The pool of a finality provider *)

Record Pool := mkPool {
  pl_cur : option FinalityProviderCurrentRewards;
  pl_trk : gmap bytes BTCDelegationRewardsTracker;
  pl_hist : gmap Z Coins
}.

Definition view (s : IncentiveState) (fp : bytes) : Pool :=
  mkPool (fpCurrent s !! fp) (substore (delTrackers s) fp) (substore (fpHistorical s) fp).

Definition cumAt (P : Pool) (p : Z) (d : string) : Z := AmountOf (default [] (pl_hist P !! p)) d.
Definition lastCum (P : Pool) (d : string) : Z :=
  match pl_cur P with Some cur => cumAt P (fc_Period cur - 1) d | None => 0 end.
(** What a delegation is owed for the periods that have ended. *)
Definition dueOf (P : Pool) (d : string) (tr : BTCDelegationRewardsTracker) : Z :=
  dt_TotalActiveSat tr * (lastCum P d - cumAt P (dt_StartPeriod tr) d).
Definition pool_owed (P : Pool) (d : string) : Z :=
  match pl_cur P with
  | None => 0
  | Some cur => AmountOf (fc_CurrentRewards cur) d * DecimalRewards + sum_map (λ _ tr, dueOf P d tr) (pl_trk P)
  end.

(** [n] bounds the period, so that the counter does not wrap around. *)
Record fp_ok (n : Z) (P : Pool) (cur : FinalityProviderCurrentRewards) : Prop := {
  po_period : 1 ≤ fc_Period cur ≤ n;
  po_cur : coins_ok (fc_CurrentRewards cur);
  po_total : fc_TotalActiveSat cur = sum_map (λ _ tr, dt_TotalActiveSat tr) (pl_trk P);
  po_hist p : 0 ≤ p < fc_Period cur → ∃ c, pl_hist P !! p = Some c ∧ coins_ok c;
  po_mono p q d : 0 ≤ p → p ≤ q → q < fc_Period cur → cumAt P p d ≤ cumAt P q d;
  po_trk del tr : pl_trk P !! del = Some tr → 0 ≤ dt_StartPeriod tr < fc_Period cur ∧ 0 ≤ dt_TotalActiveSat tr
}.
Definition pool_ok (n : Z) (P : Pool) : Prop :=
  match pl_cur P with None => pl_trk P = ∅ | Some cur => fp_ok n P cur end.

Lemma DecimalRewards_pos : 0 < DecimalRewards.
Proof. done. Qed.

Lemma fp_ok_mono n m P cur : n ≤ m → fp_ok n P cur → fp_ok m P cur.
Proof. intros Hnm []. split; auto. lia. Qed.
Lemma pool_ok_mono n m P : n ≤ m → pool_ok n P → pool_ok m P.
Proof. unfold pool_ok. destruct (pl_cur P); [apply fp_ok_mono|done]. Qed.

Lemma dueOf_nonneg n P cur d del tr :
  fp_ok n P cur → pl_cur P = Some cur → pl_trk P !! del = Some tr → 0 ≤ dueOf P d tr.
Proof.
  intros H Hc Ht. destruct (po_trk _ _ _ H del tr Ht) as [[] ?]. destruct (po_period _ _ _ H).
  unfold dueOf, lastCum. rewrite Hc.
  pose proof (po_mono _ _ _ H (dt_StartPeriod tr) (fc_Period cur - 1) d). nia.
Qed.

Lemma pool_total_nonneg n P cur : fp_ok n P cur → 0 ≤ fc_TotalActiveSat cur.
Proof.
  intros H. rewrite (po_total _ _ _ H). apply sum_map_nonneg. intros del tr Ht. by apply (po_trk _ _ _ H del tr).
Qed.

Lemma pool_owed_nonneg n P d : pool_ok n P → 0 ≤ pool_owed P d.
Proof.
  unfold pool_ok, pool_owed. destruct (pl_cur P) as [cur|] eqn:Hc; [|done]. intros H.
  pose proof (AmountOf_nonneg _ d (po_cur _ _ _ H)). pose proof DecimalRewards_pos.
  assert (0 ≤ sum_map (λ _ tr, dueOf P d tr) (pl_trk P)); [|nia].
  apply sum_map_nonneg. intros del tr Ht. by eapply dueOf_nonneg.
Qed.

(** *** The steps of a pool *)

(** A provider seen for the first time. *)
Lemma pool_init n P : 1 ≤ n → pool_ok n P → pl_cur P = None →
  let P' := mkPool (Some (mkFpCurrentRewards [] 1 0)) (pl_trk P) (<[0 := []]> (pl_hist P)) in
  pool_ok n P' ∧ ∀ d, pool_owed P' d = 0.
Proof.
  intros Hn Hok Hc. unfold pool_ok in Hok. rewrite Hc in Hok. unfold pool_ok, pool_owed. simpl. rewrite Hok. split.
  - split; simpl; [lia|apply coins_ok_nil|by rewrite sum_map_empty| | |done].
    + intros p Hp. replace p with 0 by lia. exists []. rewrite lookup_insert_eq. split; [done|apply coins_ok_nil].
    + intros p q d ???. by replace p with q by lia.
  - intros d. rewrite sum_map_empty. done.
Qed.

(** The end of a period, with [q] the rewards per satoshi. *)
Lemma cumAt_insert P cur tr c p d : pl_cur P = Some cur →
  cumAt (mkPool tr (pl_trk P) (<[fc_Period cur := c]> (pl_hist P))) p d =
  if decide (p = fc_Period cur) then AmountOf c d else cumAt P p d.
Proof.
  intros Hc. unfold cumAt. simpl. case_decide as Hp; [subst; by rewrite lookup_insert_eq|by rewrite lookup_insert_ne].
Qed.

Section pool_end.
Context (n : Z) (P : Pool) (cur : FinalityProviderCurrentRewards) (c : Coins) (q : string → Z).
Context (Hcur : pl_cur P = Some cur) (Hok : fp_ok n P cur).
Context (Hc : coins_ok c) (Hq : ∀ d, 0 ≤ q d) (Hcq : ∀ d, AmountOf c d = cumAt P (fc_Period cur - 1) d + q d).

Let cur' := mkFpCurrentRewards [] (fc_Period cur + 1) (fc_TotalActiveSat cur).
Let P' := mkPool (Some cur') (pl_trk P) (<[fc_Period cur := c]> (pl_hist P)).

Lemma pool_end_ok : pool_ok (n + 1) P'.
Proof using All.
  destruct Hok as [Hper Hco Htot Hh Hm Ht]. split; simpl.
  - lia.
  - apply coins_ok_nil.
  - done.
  - intros p Hp. destruct (decide (p = fc_Period cur)) as [->|Hne].
    + exists c. by rewrite lookup_insert_eq.
    + rewrite lookup_insert_ne by done. apply Hh. lia.
  - intros p r d Hp Hpr Hr. unfold P'. rewrite !(cumAt_insert P cur) by done.
    repeat case_decide; try lia; [|apply Hm; lia]. rewrite Hcq.
    pose proof (Hm p (fc_Period cur - 1) d ltac:(lia) ltac:(lia) ltac:(lia)). specialize (Hq d). lia.
  - intros del tr Htr. apply Ht in Htr. lia.
Qed.

Lemma pool_end_lastCum d : lastCum P' d = lastCum P d + q d.
Proof using Hcur Hcq.
  unfold lastCum. rewrite Hcur. simpl. replace (fc_Period cur + 1 - 1) with (fc_Period cur) by lia.
  unfold P'. rewrite (cumAt_insert P cur) by done. rewrite decide_True by done. apply Hcq.
Qed.

Lemma pool_end_due d del tr : pl_trk P !! del = Some tr →
  dueOf P' d tr = dueOf P d tr + dt_TotalActiveSat tr * q d.
Proof using Hcur Hok Hcq.
  intros Htr. unfold dueOf. rewrite pool_end_lastCum. unfold P'. rewrite (cumAt_insert P cur) by done.
  apply (po_trk _ _ _ Hok) in Htr. rewrite decide_False by lia. lia.
Qed.

Lemma pool_end_owed d :
  pool_owed P' d = pool_owed P d - (AmountOf (fc_CurrentRewards cur) d * DecimalRewards - fc_TotalActiveSat cur * q d).
Proof using Hcur Hok Hcq.
  unfold pool_owed. rewrite Hcur. simpl.
  rewrite (sum_map_ext _ (λ k tr, dueOf P d tr + dt_TotalActiveSat tr * q d)) by (intros; by eapply pool_end_due).
  rewrite sum_map_add, sum_map_scale. rewrite (po_total _ _ _ Hok). rewrite AmountOf_nil. lia.
Qed.
End pool_end.

(** A delegation restarted at the last ended period, with [sat] satoshis. *)
Section pool_restart.
Context (n : Z) (P : Pool) (cur : FinalityProviderCurrentRewards) (del : bytes) (sat : Z).
Context (Hcur : pl_cur P = Some cur) (Hok : fp_ok n P cur) (Hsat : 0 ≤ sat).

Let old := default 0 (dt_TotalActiveSat <$> pl_trk P !! del).
Let P' := mkPool (Some (mkFpCurrentRewards (fc_CurrentRewards cur) (fc_Period cur) (fc_TotalActiveSat cur + (sat - old))))
  (<[del := mkDelTracker (fc_Period cur - 1) sat]> (pl_trk P)) (pl_hist P).

Lemma pool_restart_ok : pool_ok n P'.
Proof using All.
  destruct Hok as [Hper Hco Htot Hh Hm Ht]. split; simpl; try done.
  - rewrite sum_map_insert, Htot. unfold old, part. destruct (pl_trk P !! del); simpl; lia.
  - intros del' tr. destruct (decide (del = del')) as [<-|Hne].
    + rewrite lookup_insert_eq. intros [= <-]. simpl. lia.
    + rewrite lookup_insert_ne by done. apply Ht.
Qed.

Lemma pool_restart_owed d :
  pool_owed P' d = pool_owed P d - default 0 (dueOf P d <$> pl_trk P !! del).
Proof using All.
  unfold pool_owed. rewrite Hcur. simpl. rewrite sum_map_insert. unfold part.
  assert (∀ tr, dueOf P' d tr = dueOf P d tr) as Hd by (intros; unfold dueOf, lastCum; by rewrite Hcur).
  rewrite Hd. rewrite (sum_map_ext (λ _ tr, dueOf P' d tr) (λ _ tr, dueOf P d tr)) by (intros; apply Hd).
  destruct (pl_trk P !! del) as [tr|]; simpl; rewrite ?Hd; unfold dueOf, lastCum; rewrite Hcur; simpl; lia.
Qed.
End pool_restart.

(** Rewards added to the current period. *)
Lemma pool_reward n P cur c r : pl_cur P = Some cur → fp_ok n P cur → coins_ok c →
  (∀ d, AmountOf c d = AmountOf (fc_CurrentRewards cur) d + r d) →
  let P' := mkPool (Some (mkFpCurrentRewards c (fc_Period cur) (fc_TotalActiveSat cur))) (pl_trk P) (pl_hist P) in
  pool_ok n P' ∧ ∀ d, pool_owed P' d = pool_owed P d + r d * DecimalRewards.
Proof.
  intros Hcur [Hper Hco Htot Hh Hm Ht] Hc Hr. split; [by split|].
  intros d. unfold pool_owed. rewrite Hcur. simpl. rewrite Hr.
  rewrite (sum_map_ext _ (λ _ tr, dueOf P d tr)); [lia|]. intros. unfold dueOf, lastCum. by rewrite Hcur.
Qed.

(** ** The whole state *)

Definition owed_total (s : IncentiveState) (d : string) : Z :=
  sum_map (λ fp _, pool_owed (view s fp) d) (fpCurrent s).
Definition withdrawable (rg : RewardGauge) (d : string) : Z :=
  AmountOf (rg_Coins rg) d - AmountOf (rg_WithdrawnCoins rg) d.
Definition gauge_total (s : IncentiveState) (d : string) : Z := sum2 (λ _ _ rg, withdrawable rg d) (rewardGauges s).
Definition pending_total (s : IncentiveState) (d : string) : Z :=
  sum_map (λ _ c, AmountOf c d) (btcStakingGauges s) + sum_map (λ _ c, AmountOf c d) (fpDirectGauges s).
(** Everything the module owes, in units of 1/[DecimalRewards]. *)
Definition liabilities (s : IncentiveState) (d : string) : Z :=
  owed_total s d + (gauge_total s d + pending_total s d) * DecimalRewards.

Record gauge_ok (rg : RewardGauge) : Prop := {
  go_coins : coins_ok (rg_Coins rg);
  go_withdrawn : coins_ok (rg_WithdrawnCoins rg);
  go_le d : AmountOf (rg_WithdrawnCoins rg) d ≤ AmountOf (rg_Coins rg) d
}.

Definition eventSat (ev : EventPowerUpdate) : Z :=
  match ev with BtcActivated _ _ sat | BtcUnbonded _ _ sat => sat end.

Record tracker_wf (n : Z) (s : IncentiveState) : Prop := {
  tw_pool fp : pool_ok n (view s fp);
  tw_gauge t a rg : get2 t a (rewardGauges s) = Some rg → gauge_ok rg;
  tw_index fp del : is_Some (get2 del fp (delToFp s)) ↔ is_Some (get2 fp del (delTrackers s));
  tw_btcGauges h c : btcStakingGauges s !! h = Some c → coins_ok c;
  tw_fpGauges h c : fpDirectGauges s !! h = Some c → coins_ok c;
  tw_events h ev : ev ∈ GetOrNewRewardTrackerEvent s h → 0 ≤ eventSat ev
}.

Lemma tracker_wf_empty n : tracker_wf n empty_incentive.
Proof.
  split; simpl.
  - intros fp. unfold pool_ok, view, substore. simpl. by rewrite !lookup_empty.
  - intros t a rg. unfold get2. by rewrite lookup_empty.
  - intros fp del. unfold get2. rewrite !lookup_empty. simpl. rewrite !lookup_empty. by split; intros [? ?].
  - intros h c. by rewrite lookup_empty.
  - intros h c. by rewrite lookup_empty.
  - intros h ev. unfold GetOrNewRewardTrackerEvent. simpl. rewrite lookup_empty. by intros ?%elem_of_nil.
Qed.

Lemma liabilities_empty d : liabilities empty_incentive d = 0.
Proof.
  unfold liabilities, owed_total, gauge_total, pending_total, sum2. cbn [empty_incentive fpCurrent rewardGauges btcStakingGauges fpDirectGauges].
  by rewrite !sum_map_empty.
Qed.

(** Only the tracker and the reward gauges changed. *)
Record ledger_only (s s' : IncentiveState) : Prop := {
  lo_events : rewardTrackerEvents s' = rewardTrackerEvents s;
  lo_last : lastProcessedHeight s' = lastProcessedHeight s;
  lo_btcGauges : btcStakingGauges s' = btcStakingGauges s;
  lo_fpGauges : fpDirectGauges s' = fpDirectGauges s;
  lo_withdraw : withdrawAddrs s' = withdrawAddrs s;
  lo_refundable : refundableMsgs s' = refundableMsgs s
}.
#[global] Instance ledger_only_preorder : PreOrder ledger_only.
Proof.
  split.
  - by intros s.
  - intros s1 s2 s3 [] []. split; congruence.
Qed.

(** Only the pool of [fp], the gauges and the index changed. *)
Record pool_frame (fp : bytes) (s s' : IncentiveState) : Prop := {
  pf_view fp' : fp' ≠ fp → view s' fp' = view s fp';
  pf_rest : ledger_only s s'
}.

Lemma ledger_only_pending s s' d : ledger_only s s' → pending_total s' d = pending_total s d.
Proof. intros []. unfold pending_total. congruence. Qed.

Lemma pool_frame_refl fp s : pool_frame fp s s.
Proof. by split. Qed.
Lemma pool_frame_trans fp s1 s2 s3 : pool_frame fp s1 s2 → pool_frame fp s2 s3 → pool_frame fp s1 s3.
Proof.
  intros [H1 E1] [H2 E2]. split; [intros fp' Hne; rewrite H2, H1; done|]. by etrans.
Qed.

Lemma pool_frame_gauges fp s m : pool_frame fp s (set_rewardGauges s m).
Proof. by split. Qed.

Lemma owed_total_split s fp d :
  owed_total s d = pool_owed (view s fp) d + sum_map (λ fp _, pool_owed (view s fp) d) (delete fp (fpCurrent s)).
Proof.
  unfold owed_total. rewrite sum_map_delete_part. unfold part.
  destruct (fpCurrent s !! fp) as [cur|] eqn:Hc; simpl; [lia|].
  assert (pool_owed (view s fp) d = 0) as -> by (unfold pool_owed; simpl; by rewrite Hc). lia.
Qed.

Lemma owed_total_update fp s s' d : (∀ fp', fp' ≠ fp → view s' fp' = view s fp') →
  owed_total s' d = owed_total s d - pool_owed (view s fp) d + pool_owed (view s' fp) d.
Proof.
  intros Hv. rewrite !(owed_total_split _ fp).
  assert (delete fp (fpCurrent s') = delete fp (fpCurrent s)) as ->.
  { apply map_eq. intros fp'. destruct (decide (fp' = fp)) as [->|Hne]; [by rewrite !lookup_delete_eq|].
    rewrite !lookup_delete_ne by done. specialize (Hv fp' Hne). unfold view in Hv. by injection Hv. }
  rewrite (sum_map_ext (λ fp _, pool_owed (view s' fp) d) (λ fp _, pool_owed (view s fp) d)); [lia|].
  intros fp' cur [Hne _]%lookup_delete_Some. by rewrite Hv.
Qed.

Lemma owed_total_nonneg n s d : tracker_wf n s → 0 ≤ owed_total s d.
Proof. intros H. apply sum_map_nonneg. intros fp cur _. eapply pool_owed_nonneg, tw_pool, H. Qed.

Lemma view_insert_current s fp fp' cur :
  view (SetFinalityProviderCurrentRewards s fp cur) fp' =
  if decide (fp = fp') then mkPool (Some cur) (pl_trk (view s fp')) (pl_hist (view s fp')) else view s fp'.
Proof.
  unfold view, SetFinalityProviderCurrentRewards. simpl. case_decide as Hfp.
  - subst. by rewrite lookup_insert_eq.
  - by rewrite lookup_insert_ne.
Qed.

Lemma view_insert_historical s fp fp' p c :
  view (setFinalityProviderHistoricalRewards s fp p c) fp' =
  if decide (fp = fp') then mkPool (pl_cur (view s fp')) (pl_trk (view s fp')) (<[p := c]> (pl_hist (view s fp')))
  else view s fp'.
Proof.
  unfold view, setFinalityProviderHistoricalRewards, set2, substore. simpl. case_decide as Hfp.
  - subst. by rewrite lookup_insert_eq.
  - by rewrite lookup_insert_ne.
Qed.

Lemma view_insert_tracker s fp del fp' tr :
  view (setBTCDelegationRewardsTracker s fp del tr) fp' =
  if decide (fp = fp') then mkPool (pl_cur (view s fp')) (<[del := tr]> (pl_trk (view s fp'))) (pl_hist (view s fp'))
  else view s fp'.
Proof.
  unfold view, setBTCDelegationRewardsTracker, set2, substore. simpl. case_decide as Hfp.
  - subst. by rewrite lookup_insert_eq.
  - by rewrite lookup_insert_ne.
Qed.

Lemma get2_substore {K1 K2 V} `{Countable K1} `{Countable K2} (k1 : K1) (k2 : K2) (m : gmap K1 (gmap K2 V)) :
  get2 k1 k2 m = substore m k1 !! k2.
Proof. done. Qed.

Section ledger.
Context {SC : SdkCoins} {SL : SdkCoinsLaws SC}.

(** *** Gauges *)

(** The amount of a coin that a gauge still holds for its owner. *)
Definition gaugeOf (s : IncentiveState) (t : StakeholderType) (a : bytes) (d : string) : Z :=
  default 0 (flip withdrawable d <$> GetRewardGauge s t a).

Record gauge_added (s s' : IncentiveState) (t : StakeholderType) (a : bytes) (r : Coins) : Prop := {
  ga_state : s' = set_rewardGauges s (rewardGauges s');
  ga_ok t' a' rg : get2 t' a' (rewardGauges s') = Some rg → gauge_ok rg;
  ga_others t' a' : (t', a') ≠ (t, a) → get2 t' a' (rewardGauges s') = get2 t' a' (rewardGauges s);
  ga_amount d : default 0 (flip withdrawable d <$> get2 t a (rewardGauges s')) =
                default 0 (flip withdrawable d <$> get2 t a (rewardGauges s)) +
                if CoinsIsAllPositive r then AmountOf r d else 0;
  ga_total d : gauge_total s' d = gauge_total s d + if CoinsIsAllPositive r then AmountOf r d else 0
}.

Lemma accumulateRewardGauge_spec s t a r s' :
  (∀ t a rg, get2 t a (rewardGauges s) = Some rg → gauge_ok rg) → coins_ok r →
  accumulateRewardGauge s t a r = Ok s' → gauge_added s s' t a r.
Proof using SL.
  intros Hg Hr. unfold accumulateRewardGauge. destruct (CoinsIsAllPositive r) eqn:Hp; simpl.
  2: { intros [= <-]. split; [by destruct s|done|done| |]; intros; rewrite Hp; lia. }
  assert (gauge_ok (default NewRewardGauge (GetRewardGauge s t a))) as Hrg.
  { unfold GetRewardGauge. destruct (get2 t a (rewardGauges s)) as [rg|] eqn:E; simpl; [by eapply Hg|].
    split; simpl; [apply coins_ok_nil..|done]. }
  unfold RewardGauge_Add. intros H. apply bind_Ok in H as (rg & H & H'). injection H' as <-.
  apply bind_Ok in H as (c & Hadd & H). injection H as <-.
  destruct (CoinsAdd_law _ _ _ (go_coins _ Hrg) Hr Hadd) as [Hc Hamt].
  assert (∀ d, default 0 (flip withdrawable d <$> get2 t a (rewardGauges s)) =
    withdrawable (default NewRewardGauge (GetRewardGauge s t a)) d) as Hold.
  { intros d. unfold GetRewardGauge. destruct (get2 t a (rewardGauges s)); done. }
  split; simpl.
  - done.
  - intros t' a' rg. rewrite get2_set2. case_decide; [|apply Hg]. intros [= <-].
    split; simpl; [by apply coins_pos_ok|apply Hrg|]. intros d. rewrite Hamt.
    pose proof (go_le _ Hrg d). pose proof (AmountOf_nonneg r d Hr). lia.
  - intros t' a' Hne. by rewrite get2_set2_ne.
  - intros d. rewrite get2_set2_eq, Hp. simpl. rewrite Hold. unfold withdrawable at 1. simpl. rewrite Hamt.
    unfold withdrawable. lia.
  - intros d. unfold gauge_total at 1. simpl. rewrite sum2_set2, Hp. specialize (Hold d). unfold flip in Hold.
    rewrite Hold. unfold withdrawable at 3. simpl. rewrite Hamt. unfold gauge_total, withdrawable. lia.
Qed.

(** *** The end of a period *)

(** The rewards per satoshi of the period that ends. *)
Definition per_sat (P : Pool) (d : string) : Z :=
  match pl_cur P with
  | Some cur => if fc_TotalActiveSat cur =? 0 then 0
                else (AmountOf (fc_CurrentRewards cur) d * DecimalRewards) `quot` fc_TotalActiveSat cur
  | None => 0
  end.

Lemma per_sat_bounds n P cur d : pl_cur P = Some cur → fp_ok n P cur →
  0 ≤ per_sat P d ∧ fc_TotalActiveSat cur * per_sat P d ≤ AmountOf (fc_CurrentRewards cur) d * DecimalRewards.
Proof using.
  intros Hc H. unfold per_sat. rewrite Hc. pose proof (pool_total_nonneg _ _ _ H).
  pose proof (AmountOf_nonneg _ d (po_cur _ _ _ H)). pose proof DecimalRewards_pos.
  destruct (Z.eqb_spec (fc_TotalActiveSat cur) 0) as [->|Hne]; [nia|].
  split; [apply Z.quot_pos; nia|]. apply Z.mul_quot_le; nia.
Qed.

Lemma rewardsPerSat_spec n P cur c : pl_cur P = Some cur → fp_ok n P cur →
  (if fc_TotalActiveSat cur =? 0 then Ok []
   else c ← CoinsMulInt (fc_CurrentRewards cur) DecimalRewards; CoinsQuoInt c (fc_TotalActiveSat cur)) = Ok c →
  coins_ok c ∧ ∀ d, AmountOf c d = per_sat P d.
Proof using SL.
  intros Hc H. unfold per_sat. rewrite Hc. pose proof (pool_total_nonneg _ _ _ H).
  destruct (fc_TotalActiveSat cur =? 0) eqn:Ez.
  - intros [= <-]. split; [apply coins_ok_nil|done].
  - intros Hb. apply bind_Ok in Hb as (c1 & H1 & H2).
    apply CoinsMulInt_law in H1 as [_ ->]; [|apply H|done].
    assert (coins_ok (prod_map id (λ z, z * DecimalRewards) <$> fc_CurrentRewards cur)) as Hc1
      by (apply coins_ok_fmap; [|apply H]; intros; pose proof DecimalRewards_pos; nia).
    apply CoinsQuoInt_law in H2 as [_ ->]; [|done|done]. split.
    + apply coins_ok_fmap; [|done]. intros. apply Z.quot_pos; lia.
    + intros d. rewrite (AmountOf_fmap _ (λ z, z `quot` _)) by (apply Z.quot_0_l; lia).
      by rewrite (AmountOf_fmap _ (λ z, z * _)).
Qed.

(** The pool after the period. *)
Record period_ended (n : Z) (s s' : IncentiveState) (fp : bytes) (e : Z) : Prop := {
  pe_frame : pool_frame fp s s';
  pe_gauges : rewardGauges s' = rewardGauges s;
  pe_index : delToFp s' = delToFp s;
  pe_trackers : delTrackers s' = delTrackers s;
  pe_ok : pool_ok (n + 1) (view s' fp);
  pe_cur : ∃ cur, pl_cur (view s' fp) = Some cur ∧ fc_CurrentRewards cur = [] ∧
    fc_TotalActiveSat cur = default 0 (fc_TotalActiveSat <$> fpCurrent s !! fp) ∧
    (fpCurrent s !! fp ≠ None → e = fc_Period cur - 1);
  pe_due d del tr : substore (delTrackers s) fp !! del = Some tr →
    dueOf (view s' fp) d tr = dueOf (view s fp) d tr + dt_TotalActiveSat tr * per_sat (view s fp) d;
  pe_owed d : pool_owed (view s' fp) d ≤ pool_owed (view s fp) d
}.

Lemma IncrementFinalityProviderPeriod_spec n s fp e s' :
  tracker_wf n s → 1 ≤ n → n < 2 ^ 64 - 1 →
  IncrementFinalityProviderPeriod s fp = Ok (e, s') → period_ended n s s' fp e.
Proof using SL.
  intros Hwf Hn Hlt. pose proof (tw_pool _ _ Hwf fp) as Hok.
  unfold IncrementFinalityProviderPeriod. destruct (fpCurrent s !! fp) as [cur|] eqn:Hc.
  - assert (pl_cur (view s fp) = Some cur) as Hcur by done. unfold pool_ok in Hok. rewrite Hcur in Hok.
    intros H. apply bind_Ok in H as (c0 & H0 & H). apply (rewardsPerSat_spec n _ _ _ Hcur Hok) in H0 as [Hc0 Ha0].
    destruct (po_period _ _ _ Hok) as [Hp1 Hpn]. rewrite (u64_small (fc_Period cur - 1)) in H by (unfold in_u64; lia).
    rewrite (u64_small (fc_Period cur + 1)) in H by (unfold in_u64; lia).
    destruct (po_hist _ _ _ Hok (fc_Period cur - 1)) as (ch & Hch & Hchok); [lia|].
    unfold GetFinalityProviderHistoricalRewards in H. rewrite get2_substore in H. simpl in Hch. rewrite Hch in H. simpl in H.
    apply bind_Ok in H as (c1 & Hadd & H). injection H as <- <-.
    apply CoinsAdd_law in Hadd as [Hc1%coins_pos_ok Ha1]; [|done|done].
    assert (∀ d, AmountOf c1 d = cumAt (view s fp) (fc_Period cur - 1) d + per_sat (view s fp) d) as Hq.
    { intros d. rewrite Ha1, Ha0. unfold cumAt. simpl. by rewrite Hch. }
    set (s1 := SetFinalityProviderCurrentRewards _ _ _).
    assert (view s1 fp = mkPool (Some (mkFpCurrentRewards [] (fc_Period cur + 1) (fc_TotalActiveSat cur)))
      (pl_trk (view s fp)) (<[fc_Period cur := c1]> (pl_hist (view s fp)))) as Hview.
    { unfold s1. rewrite view_insert_current, decide_True by done. by rewrite view_insert_historical, decide_True. }
    split; [split|done|done|done| | | |].
    + intros fp' Hne. unfold s1. by rewrite view_insert_current, view_insert_historical, !decide_False.
    + done.
    + rewrite Hview. apply (pool_end_ok n _ cur c1 (per_sat (view s fp))); try done.
      intros d. by eapply per_sat_bounds.
    + rewrite Hview. eexists. split_and!; [done|done|by rewrite Hc|intros; simpl; lia].
    + intros d del tr Htr. rewrite Hview. by eapply (pool_end_due n).
    + intros d. rewrite Hview. rewrite (pool_end_owed n _ cur c1 (per_sat (view s fp))) by done.
      destruct (per_sat_bounds n _ cur d Hcur Hok). lia.
  - intros [= <- <-]. unfold initializeFinalityProvider. simpl. set (s1 := SetFinalityProviderCurrentRewards _ _ _).
    assert (view s1 fp = mkPool (Some (mkFpCurrentRewards [] 1 0)) (pl_trk (view s fp)) (<[0 := []]> (pl_hist (view s fp))))
      as Hview.
    { unfold s1. rewrite view_insert_current, decide_True by done. by rewrite view_insert_historical, decide_True. }
    destruct (pool_init n _ Hn Hok Hc) as [Hok' Howed].
    split; [split|done|done|done| | | |].
    + intros fp' Hne. unfold s1. by rewrite view_insert_current, view_insert_historical, !decide_False.
    + done.
    + rewrite Hview. eapply pool_ok_mono, Hok'. lia.
    + rewrite Hview, Hc. eexists. by split_and!.
    + intros d del tr Htr. unfold pool_ok in Hok. simpl in Hok. rewrite Hc in Hok. by rewrite Hok in Htr.
    + intros d. rewrite Hview, Howed. by apply (pool_owed_nonneg n).
Qed.

(** *** The payment of a delegation *)

(** What the delegation of [del] is paid, truncated to whole coins. *)
Definition payout (P : Pool) (del : bytes) (d : string) : Z :=
  default 0 ((λ tr, dueOf P d tr `quot` DecimalRewards) <$> pl_trk P !! del).
(** The same before the truncation. *)
Definition untruncated (P : Pool) (del : bytes) (d : string) : Z := default 0 (dueOf P d <$> pl_trk P !! del).

Lemma payout_untruncated P del d : payout P del d = untruncated P del d `quot` DecimalRewards.
Proof using. unfold payout, untruncated. by destruct (pl_trk P !! del). Qed.

Lemma calculateDelegationRewardsBetween_spec n s fp cur del tr c :
  pl_cur (view s fp) = Some cur → fp_ok n (view s fp) cur → substore (delTrackers s) fp !! del = Some tr →
  calculateDelegationRewardsBetween s fp tr (fc_Period cur - 1) = Ok c →
  coins_ok c ∧ rounded DecimalRewards (λ d, dueOf (view s fp) d tr) c.
Proof using SL.
  intros Hcur Hok Htr. destruct (po_trk _ _ _ Hok del tr Htr) as [[Hs0 Hs1] Hsat].
  unfold calculateDelegationRewardsBetween. destruct (Z.ltb_spec (fc_Period cur - 1) (dt_StartPeriod tr)) as [|_]; [done|].
  destruct (po_hist _ _ _ Hok (dt_StartPeriod tr)) as (c0 & Hc0 & Hok0); [lia|].
  destruct (po_hist _ _ _ Hok (fc_Period cur - 1)) as (c1 & Hc1 & Hok1); [lia|].
  unfold GetFinalityProviderHistoricalRewards. rewrite !get2_substore. simpl in Hc0, Hc1. rewrite Hc0, Hc1. simpl.
  intros H. apply bind_Ok in H as (cd & Hd & H). apply CoinsSub_law in Hd as [Hcd Hda]; [|done|done].
  destruct (CoinsIsAnyNegative cd); [done|]. apply bind_Ok in H as (cm & Hm & H).
  apply CoinsMulInt_law in Hm as [Hne ->]; [|by apply coins_pos_ok|done].
  assert (coins_pos (prod_map id (λ z, z * dt_TotalActiveSat tr) <$> cd)) as Hcm.
  { destruct Hcd as [Hnd Hpos]. split; [by rewrite denoms_fmap|]. apply Forall_fmap.
    eapply Forall_impl; [exact Hpos|]. intros [k z]. simpl. nia. }
  apply CoinsQuoInt_law in H as [_ ->]; [|by apply coins_pos_ok|done]. split.
  - apply coins_ok_fmap; [intros; by apply Z.quot_pos|by apply coins_pos_ok].
  - apply rounded_quot; [done|done|]. intros d. rewrite (AmountOf_fmap _ (λ z, z * _)) by done. rewrite Hda.
    unfold dueOf, lastCum, cumAt. rewrite Hcur. simpl. rewrite Hc0, Hc1. simpl. lia.
Qed.

(** A failure is a panic or a missing period. *)
Lemma calculateBetween_no_error n s fp cur del tr e :
  pl_cur (view s fp) = Some cur → fp_ok n (view s fp) cur → substore (delTrackers s) fp !! del = Some tr →
  calculateDelegationRewardsBetween s fp tr (fc_Period cur - 1) ≠ Err e.
Proof using.
  intros Hcur Hok Htr. destruct (po_trk _ _ _ Hok del tr Htr) as [[Hs0 Hs1] Hsat].
  unfold calculateDelegationRewardsBetween. destruct (Z.ltb_spec (fc_Period cur - 1) (dt_StartPeriod tr)) as [|_]; [done|].
  destruct (po_hist _ _ _ Hok (dt_StartPeriod tr)) as (c0 & Hc0 & _); [lia|].
  destruct (po_hist _ _ _ Hok (fc_Period cur - 1)) as (c1 & Hc1 & _); [lia|].
  unfold GetFinalityProviderHistoricalRewards. rewrite !get2_substore. simpl in Hc0, Hc1. rewrite Hc0, Hc1. simpl.
  unfold CoinsSub, CoinsMulInt, CoinsQuoInt. destruct (coinsSub c1 c0) as [c2|]; [|done]. simpl.
  destruct (CoinsIsAnyNegative c2); [done|]. destruct (coinsMulInt c2 _) as [c3|]; [|done]. simpl.
  by destruct (coinsQuoInt c3 _).
Qed.

Lemma sendToGauge_spec n s fp cur del e s' :
  pl_cur (view s fp) = Some cur → fp_ok n (view s fp) cur →
  (is_Some (substore (delTrackers s) fp !! del) → e = fc_Period cur - 1) →
  (∀ t a rg, get2 t a (rewardGauges s) = Some rg → gauge_ok rg) →
  CalculateBTCDelegationRewardsAndSendToGauge s fp del e = Ok s' →
  ∃ r, coins_ok r ∧ rounded DecimalRewards (untruncated (view s fp) del) r ∧ gauge_added s s' BTC_STAKER del r.
Proof using SL.
  intros Hcur Hok He Hg. unfold CalculateBTCDelegationRewardsAndSendToGauge. intros H.
  apply bind_Ok in H as (r & Hr & H). exists r.
  assert (coins_ok r ∧ rounded DecimalRewards (untruncated (view s fp) del) r) as [Hrok Hra].
  { revert Hr. unfold CalculateBTCDelegationRewards, GetBTCDelegationRewardsTracker. rewrite get2_substore.
    unfold untruncated. simpl. destruct (substore (delTrackers s) fp !! del) as [tr|] eqn:Htr; simpl.
    2: { intros [= <-]. split; [apply coins_ok_nil|by apply rounded_nil]. }
    rewrite He by eauto. destruct (Z.eqb_spec (dt_TotalActiveSat tr) 0) as [Hz|Hz].
    - intros [= <-]. split; [apply coins_ok_nil|apply rounded_nil; [done|]]. intros d. unfold id, dueOf. by rewrite Hz.
    - destruct (calculateDelegationRewardsBetween s fp tr (fc_Period cur - 1)) as [c|err|err] eqn:Hcalc; [|by eapply calculateBetween_no_error in Hcalc|done].
      intros [= <-]. by eapply calculateDelegationRewardsBetween_spec. }
  split_and!; [done..|]. apply accumulateRewardGauge_spec; [done..|].
  destruct (CoinsIsZero r) eqn:Hz; [|done]. injection H as <-. unfold accumulateRewardGauge.
  destruct (CoinsIsAllPositive r) eqn:Hp; [|done]. exfalso. destruct r as [|[k z] r]; [done|].
  simpl in Hz, Hp. lia.
Qed.

(** *** The restart of a delegation *)

Record restarted (s s' : IncentiveState) (fp del : bytes) (cur : FinalityProviderCurrentRewards) (sat : Z) : Prop := {
  re_frame : pool_frame fp s s';
  re_gauges : rewardGauges s' = rewardGauges s;
  re_index del' fp' : get2 del' fp' (delToFp s') =
    if decide ((del, fp) = (del', fp')) then Some tt else get2 del' fp' (delToFp s);
  re_view : view s' fp = mkPool
    (Some (mkFpCurrentRewards (fc_CurrentRewards cur) (fc_Period cur)
      (fc_TotalActiveSat cur + (sat - default 0 (dt_TotalActiveSat <$> substore (delTrackers s) fp !! del)))))
    (<[del := mkDelTracker (u64 (fc_Period cur - 1)) sat]> (substore (delTrackers s) fp))
    (substore (fpHistorical s) fp)
}.

Definition satOf (s : IncentiveState) (fp del : bytes) : Z :=
  default 0 (dt_TotalActiveSat <$> substore (delTrackers s) fp !! del).

Ltac views := repeat first
  [ rewrite view_insert_current | rewrite view_insert_tracker | rewrite view_insert_historical
  | rewrite decide_True by done | rewrite decide_False by done ].

Lemma restart_none s fp del cur s' : fpCurrent s !! fp = Some cur →
  initializeBTCDelegation s fp del = Ok s' → restarted s s' fp del cur (satOf s fp del).
Proof using.
  intros Hc. unfold initializeBTCDelegation, GetFinalityProviderCurrentRewards, GetBTCDelegationRewardsTracker.
  rewrite Hc. simpl. rewrite get2_substore. unfold satOf.
  destruct (substore (delTrackers s) fp !! del) as [tr|] eqn:Htr; [|done]. simpl. intros [= <-].
  split; [split| | |].
  - intros fp' Hne. by views.
  - done.
  - done.
  - intros del' fp'. apply get2_set2.
  - views. simpl. rewrite Hc, Htr. simpl. repeat f_equal. destruct cur. simpl. repeat f_equal. lia.
Qed.

Lemma restart_shift s fp del cur s1 s' amt :
  fpCurrent s !! fp = Some cur →
  s1 = SetFinalityProviderCurrentRewards (setBTCDelegationRewardsTracker s fp del
         (mkDelTracker (default 0 (dt_StartPeriod <$> substore (delTrackers s) fp !! del)) (satOf s fp del + amt))) fp
         (mkFpCurrentRewards (fc_CurrentRewards cur) (fc_Period cur) (fc_TotalActiveSat cur + amt)) →
  initializeBTCDelegation s1 fp del = Ok s' → restarted s s' fp del cur (satOf s fp del + amt).
Proof using.
  intros Hc Hs1 H.
  assert (view s1 fp = mkPool (Some (mkFpCurrentRewards (fc_CurrentRewards cur) (fc_Period cur) (fc_TotalActiveSat cur + amt)))
    (<[del := mkDelTracker (default 0 (dt_StartPeriod <$> substore (delTrackers s) fp !! del)) (satOf s fp del + amt)]>
      (substore (delTrackers s) fp)) (substore (fpHistorical s) fp)) as Hv1 by (subst s1; by views).
  injection Hv1 as Hv1 Hv2 Hv3. apply (restart_none _ _ _ _ _ Hv1) in H as [Hf Hg Hi Hv].
  split.
  - eapply pool_frame_trans, Hf. subst s1. split; [intros; by views|done].
  - rewrite Hg. by subst s1.
  - intros del' fp'. rewrite Hi. subst s1. unfold SetFinalityProviderCurrentRewards, setBTCDelegationRewardsTracker.
    simpl. rewrite get2_set2. by case_decide.
  - rewrite Hv. unfold satOf. rewrite Hv2, Hv3, lookup_insert_eq. simpl. rewrite insert_insert_eq.
    f_equal. f_equal. f_equal. fold (satOf s fp del). lia.
Qed.

Lemma restart_add s fp del cur s1 s' amt : fpCurrent s !! fp = Some cur →
  addDelegationSat amt s fp del = Ok s1 → initializeBTCDelegation s1 fp del = Ok s' →
  restarted s s' fp del cur (satOf s fp del + amt).
Proof using.
  intros Hc H. apply restart_shift; [done|]. revert H. unfold addDelegationSat, addFinalityProviderStaked. simpl.
  rewrite Hc. intros [= <-]. unfold satOf. rewrite get2_substore. by destruct (substore (delTrackers s) fp !! del).
Qed.

Lemma restart_sub s fp del cur s1 s' amt : fpCurrent s !! fp = Some cur →
  subDelegationSat amt s fp del = Ok s1 → initializeBTCDelegation s1 fp del = Ok s' →
  0 ≤ satOf s fp del - amt ∧ restarted s s' fp del cur (satOf s fp del - amt).
Proof using.
  intros Hc H Hi. revert H. unfold subDelegationSat, GetBTCDelegationRewardsTracker. rewrite get2_substore.
  destruct (substore (delTrackers s) fp !! del) as [tr|] eqn:Htr; [|done]. simpl.
  destruct (Z.ltb_spec (dt_TotalActiveSat tr - amt) 0) as [|Hge]; [done|].
  unfold subFinalityProviderStaked, GetFinalityProviderCurrentRewards. simpl. rewrite Hc. simpl.
  destruct (fc_TotalActiveSat cur - amt <? 0); [done|]. intros [= <-].
  assert (satOf s fp del = dt_TotalActiveSat tr) as Hs by (unfold satOf; by rewrite Htr).
  split; [lia|]. eapply (restart_shift _ _ _ _ _ _ (- amt)); [done| |exact Hi]. rewrite Htr, Hs. simpl. done.
Qed.

(** *** A delegation modified

    The delegation is paid what it is owed up to the period that ends, restarts
    with [sat] satoshis, and nothing else changes. *)

Record delegation_paid (n : Z) (s s' : IncentiveState) (fp del : bytes) (sat : Z) : Prop := {
  dp_wf : tracker_wf (n + 1) s';
  dp_frame : pool_frame fp s s';
  dp_sat : satOf s' fp del = sat;
  dp_others del' : del' ≠ del → substore (delTrackers s') fp !! del' = substore (delTrackers s) fp !! del';
  dp_due d : default 0 (dueOf (view s' fp) d <$> substore (delTrackers s') fp !! del) = 0;
  dp_gauge : ∃ r, coins_ok r ∧
    rounded DecimalRewards (λ d, default 0 ((λ tr, dueOf (view s fp) d tr + dt_TotalActiveSat tr * per_sat (view s fp) d)
                                     <$> substore (delTrackers s) fp !! del)) r ∧
    gauge_added s (set_rewardGauges s (rewardGauges s')) BTC_STAKER del r;
  dp_liabilities d : liabilities s' d ≤ liabilities s d
}.

(** What a step before the restart may do to the satoshis of the delegation. *)
Definition restarts (s : IncentiveState) (fp del : bytes) (pre : IncentiveState → bytes → bytes → outcome IncentiveState)
    (sat : Z) : Prop :=
  ∀ s1 s2 s3 cur, fpCurrent s1 !! fp = Some cur → delTrackers s1 = delTrackers s →
    pre s1 fp del = Ok s2 → initializeBTCDelegation s2 fp del = Ok s3 → 0 ≤ sat ∧ restarted s1 s3 fp del cur sat.

Section modified.
Context (n : Z) (s s1 s2 s3 : IncentiveState) (fp del : bytes) (e sat : Z) (cur : FinalityProviderCurrentRewards) (r : Coins).
Context (Hwf : tracker_wf n s) (Hend : period_ended n s s1 fp e) (Hcur : pl_cur (view s1 fp) = Some cur).
Context (Hr : coins_ok r) (Hrd : rounded DecimalRewards (untruncated (view s1 fp) del) r).
Context (Hpaid : gauge_added s1 s2 BTC_STAKER del r) (Hsat : 0 ≤ sat) (Hre : restarted s2 s3 fp del cur sat).
Context (Hn : n < 2 ^ 64 - 1).

Lemma modified_amount d : AmountOf r d = payout (view s1 fp) del d.
Proof using Hrd. rewrite payout_untruncated. apply Hrd. Qed.

Lemma modified_view2 fp' : view s2 fp' = view s1 fp'.
Proof using Hpaid. by rewrite (ga_state _ _ _ _ _ Hpaid). Qed.

Lemma modified_fp_ok : fp_ok (n + 1) (view s2 fp) cur.
Proof using Hend Hcur Hpaid.
  rewrite modified_view2. pose proof (pe_ok _ _ _ _ _ Hend) as H. unfold pool_ok in H. by rewrite Hcur in H.
Qed.

Lemma modified_view : view s3 fp = mkPool
    (Some (mkFpCurrentRewards (fc_CurrentRewards cur) (fc_Period cur) (fc_TotalActiveSat cur + (sat - satOf s2 fp del))))
    (<[del := mkDelTracker (fc_Period cur - 1) sat]> (pl_trk (view s2 fp))) (pl_hist (view s2 fp)).
Proof using Hre Hn Hpaid Hend Hcur.
  rewrite (re_view _ _ _ _ _ _ Hre). pose proof (po_period _ _ _ modified_fp_ok).
  rewrite u64_small by (unfold in_u64; lia). done.
Qed.

Lemma modified_frame : pool_frame fp s s3.
Proof using Hend Hpaid Hre.
  eapply pool_frame_trans; [apply (pe_frame _ _ _ _ _ Hend)|]. eapply pool_frame_trans, (re_frame _ _ _ _ _ _ Hre).
  rewrite (ga_state _ _ _ _ _ Hpaid). apply pool_frame_gauges.
Qed.

Lemma modified_wf : tracker_wf (n + 1) s3.
Proof using All.
  split.
  - intros fp'. destruct (decide (fp' = fp)) as [->|Hne].
    + rewrite modified_view. apply (pool_restart_ok (n + 1) (view s2 fp) cur del sat); [by rewrite modified_view2|apply modified_fp_ok|done].
    + rewrite (pf_view _ _ _ modified_frame fp' Hne). eapply pool_ok_mono, Hwf. lia.
  - intros t a rg. rewrite (re_gauges _ _ _ _ _ _ Hre). apply (ga_ok _ _ _ _ _ Hpaid).
  - intros fp' del'. rewrite (re_index _ _ _ _ _ _ Hre), (get2_substore fp').
    assert (get2 del' fp' (delToFp s2) = get2 del' fp' (delToFp s)) as ->.
    { rewrite (ga_state _ _ _ _ _ Hpaid). simpl. by rewrite (pe_index _ _ _ _ _ Hend). }
    pose proof (tw_index _ _ Hwf fp' del') as Hi. rewrite (get2_substore fp') in Hi.
    destruct (decide (fp' = fp)) as [->|Hne].
    + assert (substore (delTrackers s3) fp = <[del := mkDelTracker (fc_Period cur - 1) sat]> (substore (delTrackers s) fp)) as ->.
      { change (substore (delTrackers s3) fp) with (pl_trk (view s3 fp)). rewrite modified_view, modified_view2. simpl.
        by rewrite (pe_trackers _ _ _ _ _ Hend). }
      destruct (decide (del = del')) as [<-|Hd].
      * rewrite decide_True by done. rewrite lookup_insert_eq. by split; eauto.
      * rewrite decide_False by congruence. by rewrite lookup_insert_ne.
    + rewrite decide_False by congruence. rewrite Hi.
      change (substore (delTrackers s3) fp') with (pl_trk (view s3 fp')). by rewrite (pf_view _ _ _ modified_frame fp' Hne).
  - rewrite (lo_btcGauges _ _ (pf_rest _ _ _ modified_frame)). apply Hwf.
  - rewrite (lo_fpGauges _ _ (pf_rest _ _ _ modified_frame)). apply Hwf.
  - unfold GetOrNewRewardTrackerEvent. rewrite (lo_events _ _ (pf_rest _ _ _ modified_frame)). apply Hwf.
Qed.

Lemma modified_owed d : owed_total s3 d + payout (view s1 fp) del d * DecimalRewards ≤ owed_total s d.
Proof using All.
  rewrite (owed_total_update fp s s3 d (pf_view _ _ _ modified_frame)). rewrite modified_view.
  rewrite (pool_restart_owed (n + 1) (view s2 fp) cur del sat) by (try apply modified_fp_ok; rewrite ?modified_view2; done).
  pose proof (pe_owed _ _ _ _ _ Hend d) as Ho. rewrite modified_view2.
  assert (payout (view s1 fp) del d * DecimalRewards ≤ default 0 (dueOf (view s1 fp) d <$> pl_trk (view s1 fp) !! del)); [|lia].
  unfold payout. destruct (pl_trk (view s1 fp) !! del) as [tr|] eqn:Htr; simpl; [|done].
  pose proof (dueOf_nonneg (n + 1) (view s1 fp) cur d del tr) as Hd. rewrite <- (modified_view2 fp) in Hd at 1.
  specialize (Hd modified_fp_ok Hcur Htr). pose proof (Z.mul_quot_le (dueOf (view s1 fp) d tr) DecimalRewards Hd).
  pose proof DecimalRewards_pos. lia.
Qed.

Lemma modified_gauge_total d : gauge_total s3 d ≤ gauge_total s d + payout (view s1 fp) del d.
Proof using Hend Hre Hpaid Hrd Hr.
  unfold gauge_total. rewrite (re_gauges _ _ _ _ _ _ Hre). pose proof (ga_total _ _ _ _ _ Hpaid d) as Ht.
  unfold gauge_total in Ht. rewrite Ht, (pe_gauges _ _ _ _ _ Hend), <- modified_amount. pose proof (AmountOf_nonneg r d Hr).
  destruct (CoinsIsAllPositive r); lia.
Qed.

Lemma modified_paid : delegation_paid n s s3 fp del sat.
Proof using All.
  assert (∀ del' tr, pl_trk (view s1 fp) !! del' = Some tr → substore (delTrackers s) fp !! del' = Some tr) as Htrk.
  { intros del' tr. simpl. by rewrite (pe_trackers _ _ _ _ _ Hend). }
  pose proof modified_view as Hv. unfold view in Hv at 1. injection Hv as Hv1 Hv2 Hv3.
  split.
  - apply modified_wf.
  - apply modified_frame.
  - unfold satOf. by rewrite Hv2, lookup_insert_eq.
  - intros del' Hne. rewrite Hv2, lookup_insert_ne by done. rewrite (ga_state _ _ _ _ _ Hpaid). simpl.
    by rewrite (pe_trackers _ _ _ _ _ Hend).
  - intros d. rewrite Hv2, lookup_insert_eq. simpl. rewrite modified_view. unfold dueOf, lastCum, cumAt. simpl. lia.
  - exists r. split_and!; [done| |].
    + eapply rounded_ext; [|exact Hrd]. intros d. unfold untruncated. simpl. rewrite (pe_trackers _ _ _ _ _ Hend).
      destruct (substore (delTrackers s) fp !! del) as [tr|] eqn:Htr; [|done]. simpl.
      by rewrite (pe_due _ _ _ _ _ Hend d del tr Htr).
    + destruct Hpaid as [_ G1 G2 G3 G4]. pose proof (re_gauges _ _ _ _ _ _ Hre) as Hg.
      unfold gauge_total in G4. rewrite (pe_gauges _ _ _ _ _ Hend) in *.
      split; simpl; rewrite ?Hg; try done.
  - intros d. unfold liabilities. pose proof (modified_owed d). pose proof (modified_gauge_total d).
    pose proof DecimalRewards_pos.
    assert (pending_total s3 d = pending_total s d) as -> by (apply ledger_only_pending, modified_frame). nia.
Qed.
End modified.

Lemma modified_spec n s fp del pre s' sat :
  tracker_wf n s → 1 ≤ n → n < 2 ^ 64 - 1 → restarts s fp del pre sat →
  btcDelegationModifiedWithPreInitDel s fp del pre = Ok s' → delegation_paid n s s' fp del sat.
Proof using SL.
  intros Hwf Hn1 Hn2 Hpre. unfold btcDelegationModifiedWithPreInitDel. intros H.
  apply bind_Ok in H as ([e s1] & Hend & H). apply (IncrementFinalityProviderPeriod_spec n) in Hend; [|done..].
  apply bind_Ok in H as (s2 & Hsend & H). apply bind_Ok in H as (s2' & H2 & H3).
  destruct (pe_cur _ _ _ _ _ Hend) as (cur & Hcur & _ & _ & He).
  pose proof (pe_ok _ _ _ _ _ Hend) as Hok. unfold pool_ok in Hok. rewrite Hcur in Hok.
  apply (sendToGauge_spec (n + 1) _ _ cur) in Hsend as (r & Hr & Hra & Hpaid); [|done|done| |].
  - assert (fpCurrent s2 !! fp = Some cur) as Hc2 by (by rewrite (ga_state _ _ _ _ _ Hpaid)).
    destruct (Hpre s2 s2' s' cur Hc2) as [Hsat Hre]; [|done|done|by eapply modified_paid].
    rewrite (ga_state _ _ _ _ _ Hpaid). apply (pe_trackers _ _ _ _ _ Hend).
  - rewrite (pe_trackers _ _ _ _ _ Hend). intros Htr. apply He. intros Hnone.
    pose proof (tw_pool _ _ Hwf fp) as Hp. unfold pool_ok in Hp. simpl in Hp. rewrite Hnone in Hp.
    rewrite Hp in Htr. by destruct Htr.
  - intros t a rg. rewrite (pe_gauges _ _ _ _ _ Hend). apply Hwf.
Qed.

Lemma satOf_trackers s s' fp del : delTrackers s = delTrackers s' → satOf s fp del = satOf s' fp del.
Proof using. unfold satOf. by intros ->. Qed.

Lemma satOf_nonneg n s fp del : tracker_wf n s → 0 ≤ satOf s fp del.
Proof using.
  intros Hwf. pose proof (tw_pool _ _ Hwf fp) as Hp. unfold satOf.
  destruct (substore (delTrackers s) fp !! del) as [tr|] eqn:Htr; [|done]. simpl. unfold pool_ok in Hp.
  destruct (pl_cur (view s fp)) as [cur|]; [by apply (po_trk _ _ _ Hp del tr)|]. simpl in Hp. by rewrite Hp in Htr.
Qed.

Lemma BtcDelegationActivated_paid n s fp del sat s' :
  tracker_wf n s → 1 ≤ n → n < 2 ^ 64 - 1 → 0 ≤ sat →
  BtcDelegationActivated s fp del sat = Ok s' → delegation_paid n s s' fp del (satOf s fp del + sat).
Proof using SL.
  intros Hwf Hn1 Hn2 Hs H. eapply modified_spec; [done..| |exact H]. intros s1 s2 s3 cur Hc Ht H1 H2.
  rewrite <- (satOf_trackers _ _ _ _ Ht). split; [|by eapply restart_add].
  rewrite (satOf_trackers _ _ _ _ Ht). pose proof (satOf_nonneg n s fp del Hwf). lia.
Qed.

Lemma BtcDelegationUnbonded_paid n s fp del sat s' :
  tracker_wf n s → 1 ≤ n → n < 2 ^ 64 - 1 →
  BtcDelegationUnbonded s fp del sat = Ok s' → delegation_paid n s s' fp del (satOf s fp del - sat).
Proof using SL.
  intros Hwf Hn1 Hn2 H. eapply modified_spec; [done..| |exact H]. intros s1 s2 s3 cur Hc Ht H1 H2.
  rewrite <- (satOf_trackers _ _ _ _ Ht). by eapply restart_sub.
Qed.

Lemma btcDelegationModified_paid n s fp del s' :
  tracker_wf n s → 1 ≤ n → n < 2 ^ 64 - 1 →
  btcDelegationModified s fp del = Ok s' → delegation_paid n s s' fp del (satOf s fp del).
Proof using SL.
  intros Hwf Hn1 Hn2 H. eapply modified_spec; [done..| |exact H]. intros s1 s2 s3 cur Hc Ht [= <-] H2.
  rewrite <- (satOf_trackers _ _ _ _ Ht). split; [|by apply restart_none].
  rewrite (satOf_trackers _ _ _ _ Ht). by eapply satOf_nonneg.
Qed.

(** *** The other operations *)

(** From a well-formed state with periods below [n], an operation that ends at
    most [k] periods and adds no more than [r] to the liabilities. *)
Record ledger_step (n k : Z) (r : string → Z) (s s' : IncentiveState) : Prop := {
  ls_wf : tracker_wf (n + k) s';
  ls_only : ledger_only s s';
  ls_liabilities d : liabilities s' d ≤ liabilities s d + r d * DecimalRewards
}.

Lemma tracker_wf_mono n m s : n ≤ m → tracker_wf n s → tracker_wf m s.
Proof using. intros Hnm []. split; try done. intros fp. by eapply pool_ok_mono. Qed.

Lemma ledger_step_paid n s s' fp del sat : delegation_paid n s s' fp del sat → ledger_step n 1 (λ _, 0) s s'.
Proof using. intros H. split; [apply H|apply (dp_frame _ _ _ _ _ _ H)|]. intros d. pose proof (dp_liabilities _ _ _ _ _ _ H d). lia. Qed.

Lemma ledger_step_foldM {A} (f : IncentiveState → A → outcome IncentiveState) (P : A → Prop) n l s s' :
  (∀ m s x s', tracker_wf m s → n ≤ m → m < 2 ^ 64 - 1 → P x → f s x = Ok s' → ledger_step m 1 (λ _, 0) s s') →
  tracker_wf n s → n + Z.of_nat (length l) < 2 ^ 64 → Forall P l →
  foldM f s l = Ok s' → ledger_step n (Z.of_nat (length l)) (λ _, 0) s s'.
Proof using.
  revert n s. induction l as [|x l IH]; intros n s Hf Hwf Hn HP.
  - intros [= <-]. simpl. split; [by rewrite Z.add_0_r|done|lia].
  - simpl in *. intros H. apply bind_Ok in H as (s1 & H1 & H2). apply Forall_cons in HP as [Hx HP].
    destruct (Hf n s x s1) as [Hwf1 Ho1 Hl1]; [done|lia|lia|done|done|].
    destruct (IH (n + 1) s1) as [Hwf2 Ho2 Hl2]; [|done|lia|done|done|].
    + intros m s0 y s0' ?????. apply (Hf m s0 y); try done. lia.
    + split; [by replace (n + Z.of_nat (S (length l))) with (n + 1 + Z.of_nat (length l)) by lia|by etrans|].
      intros d. specialize (Hl1 d). specialize (Hl2 d). lia.
Qed.

Lemma sendAllBtcRewardsToGauge_step n s del s' :
  tracker_wf n s → 1 ≤ n → n + Z.of_nat (length (delegatorFps s del)) < 2 ^ 64 →
  sendAllBtcRewardsToGauge s del = Ok s' →
  ledger_step n (Z.of_nat (length (delegatorFps s del))) (λ _, 0) s s'.
Proof using SL.
  intros Hwf H1 Hn H. eapply (ledger_step_foldM _ (λ _, True)); [|done|done|by apply Forall_true|exact H].
  intros m s0 fp s0' ???? Hs. eapply ledger_step_paid, btcDelegationModified_paid; [done|lia|done|exact Hs].
Qed.

(** Rewards for the delegations of a provider. *)
Lemma AddFinalityProviderRewards_step n s fp rwd s' : tracker_wf n s → coins_ok rwd →
  AddFinalityProviderRewardsForBtcDelegations s fp rwd = Ok s' →
  tracker_wf n s' ∧ ledger_only s s' ∧
  ∀ d, liabilities s' d = liabilities s d + AmountOf rwd d * DecimalRewards.
Proof using SL.
  intros Hwf Hr. unfold AddFinalityProviderRewardsForBtcDelegations, GetFinalityProviderCurrentRewards.
  destruct (fpCurrent s !! fp) as [cur|] eqn:Hc; [|done]. simpl. intros H. apply bind_Ok in H as (c & Hadd & H).
  injection H as <-. pose proof (tw_pool _ _ Hwf fp) as Hok. unfold pool_ok in Hok. simpl in Hok. rewrite Hc in Hok.
  apply CoinsAdd_law in Hadd as [Hcok%coins_pos_ok Hca]; [|apply Hok|done].
  destruct (pool_reward n (view s fp) cur c (AmountOf rwd) Hc Hok Hcok Hca) as [Hok' Howed].
  set (s' := SetFinalityProviderCurrentRewards _ _ _).
  assert (∀ fp', fp' ≠ fp → view s' fp' = view s fp') as Hv by (intros; unfold s'; by views).
  split_and!; [|done|].
  - split; try apply Hwf. intros fp'. destruct (decide (fp' = fp)) as [->|Hne]; [|rewrite Hv by done; apply Hwf].
    unfold s'. views. exact Hok'.
  - intros d. unfold liabilities. rewrite (owed_total_update fp s s' d Hv).
    assert (view s' fp = mkPool (Some (mkFpCurrentRewards c (fc_Period cur) (fc_TotalActiveSat cur)))
      (pl_trk (view s fp)) (pl_hist (view s fp))) as -> by (unfold s'; by views).
    rewrite Howed. change (gauge_total s' d) with (gauge_total s d). change (pending_total s' d) with (pending_total s d). lia.
Qed.

(** A reward put into a gauge. *)
Lemma accumulateRewardGauge_step n s t a r s' : tracker_wf n s → coins_ok r →
  accumulateRewardGauge s t a r = Ok s' →
  tracker_wf n s' ∧ ledger_only s s' ∧
  ∀ d, liabilities s' d ≤ liabilities s d + AmountOf r d * DecimalRewards.
Proof using SL.
  intros Hwf Hr H. apply accumulateRewardGauge_spec in H; [|apply Hwf|done].
  pose proof (ga_state _ _ _ _ _ H) as Hs. split_and!; [|by rewrite Hs|].
  - split; try (rewrite Hs; apply Hwf). apply H.
  - intros d. unfold liabilities. rewrite (ga_total _ _ _ _ _ H).
    assert (owed_total s' d = owed_total s d) as -> by (by rewrite Hs).
    assert (pending_total s' d = pending_total s d) as -> by (by rewrite Hs).
    pose proof (AmountOf_nonneg r d Hr). pose proof DecimalRewards_pos. destruct (CoinsIsAllPositive r); nia.
Qed.

Lemma sumZ_cons z l : sumZ (z :: l) = z + sumZ l.
Proof using. done. Qed.

(** *** A slashed provider

    Every delegation is paid and the pool is removed. *)

Lemma sendAll_gauges n s fp cur e (dels : list bytes) s' :
  pl_cur (view s fp) = Some cur → fp_ok n (view s fp) cur → e = fc_Period cur - 1 →
  (∀ t a rg, get2 t a (rewardGauges s) = Some rg → gauge_ok rg) →
  foldM (λ s del, CalculateBTCDelegationRewardsAndSendToGauge s fp del e) s dels = Ok s' →
  s' = set_rewardGauges s (rewardGauges s') ∧
  (∀ t a rg, get2 t a (rewardGauges s') = Some rg → gauge_ok rg) ∧
  ∀ d, gauge_total s' d ≤ gauge_total s d + sumZ ((λ del, payout (view s fp) del d) <$> dels).
Proof using SL.
  intros Hcur Hok He. revert s Hcur Hok. induction dels as [|del dels IH]; intros s Hcur Hok Hg.
  - intros [= <-]. split_and!; [by destruct s|done|]. intros d. simpl. lia.
  - cbn [foldM]. intros H. apply bind_Ok in H as (s1 & H1 & H).
    apply (sendToGauge_spec n _ _ cur) in H1 as (r & Hr & Hra & Hga); [|done|done|done|done].
    pose proof (ga_state _ _ _ _ _ Hga) as Hs1.
    assert (view s1 fp = view s fp) as Hv by (by rewrite Hs1).
    destruct (IH s1) as (Hs' & Hg' & Ht'); [by rewrite Hv|by rewrite Hv|apply Hga|done|].
    split_and!; [rewrite Hs', Hs1; by destruct s|done|]. intros d. specialize (Ht' d).
    rewrite (ga_total _ _ _ _ _ Hga d), Hv in Ht'. assert (AmountOf r d = payout (view s fp) del d) as Hrd
      by (rewrite payout_untruncated; apply Hra). rewrite Hrd in Ht'.
    assert (0 ≤ payout (view s fp) del d) by (rewrite <- Hrd; by apply AmountOf_nonneg).
    rewrite fmap_cons, sumZ_cons. destruct (CoinsIsAllPositive r); lia.
Qed.

Lemma payouts_owed n P cur d : pl_cur P = Some cur → fp_ok n P cur →
  sumZ ((λ del, payout P del d) <$> (iterB (pl_trk P)).*1) * DecimalRewards ≤ pool_owed P d.
Proof using.
  intros Hcur Hok. unfold pool_owed. rewrite Hcur.
  pose proof (AmountOf_nonneg _ d (po_cur _ _ _ Hok)). pose proof DecimalRewards_pos.
  assert (sumZ ((λ del, payout P del d) <$> (iterB (pl_trk P)).*1) * DecimalRewards ≤
          sum_map (λ _ tr, dueOf P d tr) (pl_trk P)); [|nia].
  rewrite (sum_map_keys (iterB (pl_trk P)).*1) by (unfold iterB; by rewrite iterator_perm).
  pose proof (λ del tr, dueOf_nonneg n P cur d del tr Hok Hcur) as Hd.
  clear - Hd. unfold payout, part. induction (iterB (pl_trk P)).*1 as [|del dels IH]; [done|].
  rewrite !fmap_cons, !sumZ_cons.
  match type of IH with ?a * _ ≤ ?b => set (x := a) in *; set (y := b) in * end.
  destruct (pl_trk P !! del) as [tr|] eqn:Htr; simpl; [|lia].
  pose proof (Z.mul_quot_le (dueOf P d tr) DecimalRewards (Hd del tr Htr)).
  pose proof DecimalRewards_pos. lia.
Qed.

Lemma deleteIndex_spec fp dels s :
  let s' := foldl (λ s del, deleteBTCDelegatorToFP s del fp) s dels in
  s' = set_delToFp s (delToFp s') ∧
  ∀ del' fp', get2 del' fp' (delToFp s') =
    if decide (fp' = fp ∧ del' ∈ dels) then None else get2 del' fp' (delToFp s).
Proof using.
  revert s. induction dels as [|del dels IH]; intros s; simpl.
  - split; [by destruct s|]. intros. rewrite decide_False; [done|]. by intros [_ ?%elem_of_nil].
  - destruct (IH (deleteBTCDelegatorToFP s del fp)) as [Hs Hi]. split; [rewrite Hs; by destruct s|].
    intros del' fp'. rewrite Hi. destruct (decide (fp' = fp ∧ del' ∈ dels)) as [[-> Hd]|Hn].
    + rewrite decide_True; [done|]. split; [done|by right].
    + unfold deleteBTCDelegatorToFP, get2. simpl. destruct (decide (del' = del)) as [->|Hne].
      * rewrite lookup_insert_eq. simpl. destruct (decide (fp' = fp)) as [->|Hf].
        -- rewrite lookup_delete_eq, decide_True; [done|]. split; [done|left].
        -- rewrite lookup_delete_ne by done. rewrite decide_False; [done|]. by intros [? _].
      * rewrite lookup_insert_ne by done. rewrite decide_False; [done|].
        intros [-> [?|?]%elem_of_cons]; [done|]. by apply Hn.
Qed.

Section slashed.
Context (n : Z) (s s1 s2 : IncentiveState) (fp : bytes).
Context (Hwf : tracker_wf n s) (Hview1 : ∀ fp', fp' ≠ fp → view s1 fp' = view s fp').
Context (Hrest1 : ledger_only s s1) (Hidx1 : delToFp s1 = delToFp s) (Htrk1 : delTrackers s1 = delTrackers s).
Context (Hs2 : s2 = set_rewardGauges s1 (rewardGauges s2)).
Context (Hg2 : ∀ t a rg, get2 t a (rewardGauges s2) = Some rg → gauge_ok rg).

Let dels := (iterB (default ∅ (delTrackers s1 !! fp))).*1.
Let s' := deleteAllFromFinalityProviderRwd (deleteKeysFromBTCDelegationRewardsTracker s2 fp dels) fp.

Lemma slashed_state : s' = set_delToFp (set_delTrackers (set_fpHistorical (set_fpCurrent s2
    (delete fp (fpCurrent s2))) (delete fp (fpHistorical s2))) (delete fp (delTrackers s2))) (delToFp s').
Proof using.
  unfold s', deleteAllFromFinalityProviderRwd, deleteKeysFromBTCDelegationRewardsTracker.
  rewrite (proj1 (deleteIndex_spec fp dels _)). done.
Qed.

Lemma slashed_view fp' : view s' fp' = if decide (fp' = fp) then mkPool None ∅ ∅ else view s fp'.
Proof using Hview1 Hs2.
  rewrite slashed_state. unfold view, substore. simpl. case_decide as Hf.
  - subst fp'. by rewrite !lookup_delete_eq.
  - rewrite !lookup_delete_ne by done. rewrite Hs2. simpl. by apply Hview1.
Qed.

Lemma slashed_only : ledger_only s s'.
Proof using Hrest1 Hs2. etrans; [exact Hrest1|]. rewrite slashed_state, Hs2. done. Qed.

Lemma slashed_wf : tracker_wf n s'.
Proof using All.
  split.
  - intros fp'. rewrite slashed_view. case_decide; [done|apply Hwf].
  - rewrite slashed_state. apply Hg2.
  - intros fp' del. pose proof (eq_refl : substore (delTrackers s') fp' = pl_trk (view s' fp')) as Ht.
    rewrite slashed_view in Ht. rewrite (get2_substore fp'), Ht. clear Ht.
    unfold s', deleteAllFromFinalityProviderRwd, deleteKeysFromBTCDelegationRewardsTracker.
    cbn [delToFp set_fpCurrent set_fpHistorical deleteFinalityProviderCurrentRewards].
    rewrite (proj2 (deleteIndex_spec fp dels _)). cbn [delToFp set_delTrackers].
    assert (delToFp s2 = delToFp s) as -> by (rewrite Hs2; exact Hidx1).
    pose proof (tw_index _ _ Hwf fp' del) as Hi. rewrite (get2_substore fp') in Hi.
    destruct (decide (fp' = fp)) as [->|Hne]; [|rewrite decide_False by (by intros [? _]); exact Hi].
    cbn [pl_trk]. rewrite lookup_empty.
    destruct (decide (fp = fp ∧ del ∈ dels)) as [_|Hn]; [by split; intros [? ?]|].
    split; [|by intros [? ?]]. intros Hs%Hi. destruct Hn. split; [done|]. destruct Hs as [tr Htr].
    unfold dels. apply list_elem_of_fmap. exists (del, tr). split; [done|]. apply elem_of_iterB. by rewrite Htrk1.
  - rewrite (lo_btcGauges _ _ slashed_only). apply Hwf.
  - rewrite (lo_fpGauges _ _ slashed_only). apply Hwf.
  - unfold GetOrNewRewardTrackerEvent. rewrite (lo_events _ _ slashed_only). apply Hwf.
Qed.

Lemma slashed_liabilities d : (gauge_total s2 d - gauge_total s d) * DecimalRewards ≤ pool_owed (view s fp) d →
  liabilities s' d ≤ liabilities s d.
Proof using All.
  intros H. unfold liabilities. rewrite (ledger_only_pending _ _ d slashed_only).
  rewrite (owed_total_update fp s s' d). 2: { intros fp' Hne. by rewrite slashed_view, decide_False. }
  rewrite slashed_view, decide_True by done. cbn [pool_owed pl_cur].
  assert (gauge_total s' d = gauge_total s2 d) as -> by (by rewrite slashed_state). lia.
Qed.
End slashed.

(** Every delegation of a slashed provider is paid and none is left. *)
Lemma FpSlashed_step n s fp s' : tracker_wf n s → 1 ≤ n → n < 2 ^ 64 - 1 →
  FpSlashed s fp = Ok s' →
  ledger_step n 1 (λ _, 0) s s' ∧ view s' fp = mkPool None ∅ ∅ ∧ ∀ del, get2 del fp (delToFp s') = None.
Proof using SL.
  intros Hwf H1 Hn. unfold FpSlashed. intros H. apply bind_Ok in H as ([e s1] & Hend & H).
  apply (IncrementFinalityProviderPeriod_spec n) in Hend; [|done..].
  apply bind_Ok in H as (s2 & Hf & H). injection H as Hs'.
  destruct (pe_cur _ _ _ _ _ Hend) as (cur & Hcur & _ & _ & He).
  pose proof (pe_ok _ _ _ _ _ Hend) as Hok. unfold pool_ok in Hok. rewrite Hcur in Hok.
  set (dels := (iterB (default ∅ (delTrackers s1 !! fp))).*1) in *.
  assert (s2 = set_rewardGauges s1 (rewardGauges s2) ∧
    (∀ t a rg, get2 t a (rewardGauges s2) = Some rg → gauge_ok rg) ∧
    ∀ d, gauge_total s2 d ≤ gauge_total s1 d + sumZ ((λ del, payout (view s1 fp) del d) <$> dels)) as (Hs2 & Hg2 & Ht2).
  { assert (∀ t a rg, get2 t a (rewardGauges s1) = Some rg → gauge_ok rg) as Hg1
      by (rewrite (pe_gauges _ _ _ _ _ Hend); apply Hwf).
    destruct (fpCurrent s !! fp) as [c0|] eqn:Hc0; [by apply (sendAll_gauges (n + 1) s1 fp cur e dels s2 Hcur Hok (He ltac:(done)) Hg1)|].
    pose proof (tw_pool _ _ Hwf fp) as Hp. unfold pool_ok in Hp. simpl in Hp. rewrite Hc0 in Hp.
    assert (dels = []) as Hd.
    { unfold dels. rewrite (pe_trackers _ _ _ _ _ Hend). unfold substore in Hp. by rewrite Hp. }
    rewrite Hd in Hf. injection Hf as <-. rewrite Hd. split_and!; [by destruct s1|done|intros d; simpl; lia]. }
  assert (∀ fp', fp' ≠ fp → view s1 fp' = view s fp') as Hv by apply (pf_view _ _ _ (pe_frame _ _ _ _ _ Hend)).
  pose proof (pf_rest _ _ _ (pe_frame _ _ _ _ _ Hend)) as Hr.
  pose proof (pe_index _ _ _ _ _ Hend) as Hi. pose proof (pe_trackers _ _ _ _ _ Hend) as Ht.
  assert (tracker_wf n s') as Hwf' by (rewrite <- Hs'; by apply (slashed_wf n s s1 s2)).
  assert (view s' fp = mkPool None ∅ ∅) as Hview
    by (rewrite <- Hs'; unfold dels; rewrite (slashed_view s s1 s2) by done; by rewrite decide_True).
  split_and!; [split| |].
  - eapply tracker_wf_mono; [|exact Hwf']. lia.
  - rewrite <- Hs'. by apply (slashed_only s s1).
  - intros d. pose proof (slashed_liabilities n s s1 s2 fp Hwf Hv Hr Hi Ht Hs2 Hg2 d) as Hl.
    rewrite <- Hs'. etrans; [apply Hl|lia].
    pose proof (payouts_owed (n + 1) (view s1 fp) cur d Hcur Hok) as Hp. pose proof (pe_owed _ _ _ _ _ Hend d).
    specialize (Ht2 d). pose proof DecimalRewards_pos.
    assert (gauge_total s1 d = gauge_total s d) as Hg by (unfold gauge_total; by rewrite (pe_gauges _ _ _ _ _ Hend)).
    rewrite Hg in Ht2. change ((iterB (pl_trk (view s1 fp))).*1) with dels in Hp. nia.
  - exact Hview.
  - intros del. pose proof (tw_index _ _ Hwf' fp del) as Hx. rewrite (get2_substore fp) in Hx.
    unfold view in Hview. injection Hview as _ Hv2 _. rewrite Hv2, lookup_empty in Hx.
    destruct (get2 del fp _); [|done]. destruct (proj1 Hx) as [? ?]; eauto. done.
Qed.

End ledger.

(** *** Queued events *)

Section ledger_events.
Context {SC : SdkCoins} {SL : SdkCoinsLaws SC} {BA : Bech32}.

Lemma processRewardTrackerEvent_step n s ev s' : tracker_wf n s → 1 ≤ n → n < 2 ^ 64 - 1 → 0 ≤ eventSat ev →
  processRewardTrackerEvent s ev = Ok s' → ledger_step n 1 (λ _, 0) s s'.
Proof using SL.
  intros Hwf H1 Hn Hev. destruct ev as [fpA delA sat|fpA delA sat]; simpl; intros H;
    apply bind_Ok in H as (fp & _ & H); apply bind_Ok in H as (del & _ & H); eapply ledger_step_paid.
  - eapply BtcDelegationActivated_paid; done.
  - eapply BtcDelegationUnbonded_paid; done.
Qed.

(** The events of a range of heights. *)
Definition events_in (s : IncentiveState) (hs : list Z) : list EventPowerUpdate :=
  hs ≫= GetOrNewRewardTrackerEvent s.

Lemma events_in_cons s h hs : events_in s (h :: hs) = GetOrNewRewardTrackerEvent s h ++ events_in s hs.
Proof using. done. Qed.

Lemma GetOrNew_delete s h h' :
  GetOrNewRewardTrackerEvent (DeleteRewardTrackerEvents s h) h' =
  if decide (h = h') then [] else GetOrNewRewardTrackerEvent s h'.
Proof using.
  unfold GetOrNewRewardTrackerEvent, DeleteRewardTrackerEvents. simpl. case_decide as Hh.
  - subst. by rewrite lookup_delete_eq.
  - by rewrite lookup_delete_ne.
Qed.

Lemma tracker_wf_delete_events n s h : tracker_wf n s → tracker_wf n (DeleteRewardTrackerEvents s h).
Proof using.
  intros []. split; try done. intros h' ev. rewrite GetOrNew_delete. case_decide; [by intros ?%elem_of_nil|eauto].
Qed.

(** Queued events processed: those of the heights [hs] are gone. *)
Record events_step (n : Z) (hs : list Z) (s s' : IncentiveState) : Prop := {
  es_wf : tracker_wf (n + Z.of_nat (length (events_in s hs))) s';
  es_only : ledger_only (set_rewardTrackerEvents s (rewardTrackerEvents s')) s';
  es_gone h : GetOrNewRewardTrackerEvent s' h = if decide (h ∈ hs) then [] else GetOrNewRewardTrackerEvent s h;
  es_liabilities d : liabilities s' d ≤ liabilities s d
}.

Lemma processAtHeight_step n s h s' : tracker_wf n s → 1 ≤ n →
  n + Z.of_nat (length (GetOrNewRewardTrackerEvent s h)) < 2 ^ 64 →
  ProcessRewardTrackerEventsAtHeight s h = Ok s' → events_step n [h] s s'.
Proof using SL.
  intros Hwf H1 Hn H. unfold ProcessRewardTrackerEventsAtHeight in H. apply bind_Ok in H as (s1 & Hf & H).
  injection H as <-. apply (ledger_step_foldM _ (λ ev, 0 ≤ eventSat ev) n) in Hf as [Hwf1 Ho Hl].
  - pose proof (lo_events _ _ Ho) as He. split.
    + rewrite events_in_cons, app_nil_r. by apply tracker_wf_delete_events.
    + by destruct Ho.
    + intros h'. rewrite GetOrNew_delete. unfold GetOrNewRewardTrackerEvent. rewrite He.
      apply decide_ext. rewrite list_elem_of_singleton. naive_solver.
    + intros d. specialize (Hl d). unfold DeleteRewardTrackerEvents.
      change (liabilities (set_rewardTrackerEvents s1 _) d) with (liabilities s1 d). lia.
  - intros m s0 ev s0' ?????. eapply processRewardTrackerEvent_step; eauto. lia.
  - done.
  - done.
  - apply Forall_forall. apply Hwf.
Qed.

Lemma events_in_ext s s' hs : (∀ h, h ∈ hs → GetOrNewRewardTrackerEvent s' h = GetOrNewRewardTrackerEvent s h) →
  events_in s' hs = events_in s hs.
Proof using.
  induction hs as [|h hs IH]; [done|]. intros Hext. rewrite !events_in_cons.
  rewrite Hext by left. rewrite IH; [done|]. intros h' Hh. apply Hext. by right.
Qed.

Lemma processHeights_step n hs s s' : NoDup hs → tracker_wf n s → 1 ≤ n →
  n + Z.of_nat (length (events_in s hs)) < 2 ^ 64 →
  foldM ProcessRewardTrackerEventsAtHeight s hs = Ok s' → events_step n hs s s'.
Proof using SL.
  revert n s. induction hs as [|h hs IH]; intros n s Hnd Hwf H1 Hn.
  - intros [= <-]. simpl in *. split; [by rewrite Z.add_0_r|by destruct s| |done]. intros h. by rewrite decide_False by apply not_elem_of_nil.
  - apply NoDup_cons in Hnd as [Hh Hnd]. simpl. intros H. apply bind_Ok in H as (s1 & Hs1 & H).
    rewrite events_in_cons, length_app in Hn.
    apply (processAtHeight_step n) in Hs1 as [Hwf1 Ho1 Hg1 Hl1]; [|done..|lia].
    assert (events_in s1 hs = events_in s hs) as Hev.
    { apply events_in_ext. intros h' Hh'. rewrite Hg1. rewrite decide_False; [done|].
      rewrite list_elem_of_singleton. intros ->. done. }
    rewrite events_in_cons, app_nil_r in Hwf1.
    apply (IH (n + Z.of_nat (length (GetOrNewRewardTrackerEvent s h)))) in H as [Hwf2 Ho2 Hg2 Hl2];
      [|done|done|lia|rewrite Hev; lia].
    split.
    + rewrite events_in_cons, length_app, Nat2Z.inj_add, Z.add_assoc. by rewrite Hev in Hwf2.
    + etrans; [|exact Ho2]. by destruct Ho1.
    + intros h'. rewrite Hg2, Hg1.
      destruct (decide (h' ∈ hs)); [rewrite decide_True by (by right); done|].
      destruct (decide (h' = h)) as [->|].
      * rewrite (decide_True (P := h ∈ [h])) by left. by rewrite decide_True by left.
      * rewrite (decide_False (P := h' ∈ [h])) by (by rewrite list_elem_of_singleton).
        rewrite decide_False; [done|]. by intros [|]%elem_of_cons.
    + intros d. specialize (Hl1 d). specialize (Hl2 d). lia.
Qed.

(** The heights a call processes. *)
Definition heightsToProcess (s : IncentiveState) (untilBlkHeight : Z) : list Z :=
  let start := u64 (GetRewardTrackerEventLastProcessedHeight s + 1) in seqZ start (untilBlkHeight - start + 1).

Lemma ProcessRewardTrackerEvents_step n s h s' : tracker_wf n s → 1 ≤ n →
  n + Z.of_nat (length (events_in s (heightsToProcess s h))) < 2 ^ 64 →
  ProcessRewardTrackerEvents s h = Ok s' →
  events_step n (heightsToProcess s h) (set_lastProcessedHeight s (Some h)) s'.
Proof using SL.
  intros Hwf H1 Hn H. unfold ProcessRewardTrackerEvents in H. apply bind_Ok in H as (s1 & Hf & H). injection H as <-.
  apply (processHeights_step n) in Hf as [Hwf1 Ho1 Hg1 Hl1]; [|apply NoDup_seqZ|done..].
  split.
  - destruct Hwf1. split; done.
  - by destruct Ho1.
  - apply Hg1.
  - apply Hl1.
Qed.

End ledger_events.
