(* ===== verification/Incentive.v ===== *)
(** * x/incentive: gauges, distribution and withdrawals

    Each block a share of the fees moves to the module account and is recorded
    in the gauge of the height; when the block is finalised and rewarded the
    gauge is split among the providers that voted, by voting power, and each
    provider's share between its commission and its delegations. Stakeholders
    withdraw what their gauges hold. The file translates
    keeper/btc_staking_gauge.go, intercept_fee_collector.go, reward_gauge.go,
    msg_server.go, store.go, params.go, finality_hooks.go,
    refundable_msg_index.go and refund_tx_decorator.go, types/params.go and
    types/incentive.go, and abci.go. *)

From S2P Require Import Prelude Bytes Store BbnTypes BtcStaking PowerTable Coins RewardTracker RewardLedger.

(** ** Parameters *)

(** A [LegacyDec] may be nil: the parameters of a store without any. *)
Record IncentiveParams := mkIncentiveParams { BtcStakingPortion : option Z; FpPortion : option Z }.

Definition DefaultIncentiveParams : IncentiveParams :=
  mkIncentiveParams (Some 181818182000000000) (Some 13636364000000000).

Definition TotalPortion (p : IncentiveParams) : outcome Z :=
  match BtcStakingPortion p, FpPortion p with
  | Some a, Some b => Ok (a + b)
  | _, _ => Panic (Errorf "nil pointer dereference")
  end.

Definition ValidateIncentiveParams (p : IncentiveParams) : outcome unit :=
  match BtcStakingPortion p with
  | None => Err (Errorf "BtcStakingPortion should not be nil")
  | Some a =>
    if a <? 0 then Err (Errorf "BtcStakingPortion should not be negative")
    else match FpPortion p with
         | None => Err (Errorf "FpPortion should not be nil")
         | Some b =>
           if b <? 0 then Err (Errorf "FpPortion should not be negative")
           else total ← TotalPortion p;
                if DecOne <=? total then Err (Errorf "sum of all portions should be less than 1") else Ok tt
         end
  end.

(** ** Stakeholder types *)

(** [strings.ToUpper], as far as the comparison with the three names can tell:
    besides a to z, the code points U+017F and U+0131 have an ASCII upper case;
    every other one keeps a form outside ASCII. *)
Definition upper_ascii (c : Ascii.ascii) : Ascii.ascii :=
  let n := Ascii.nat_of_ascii c in
  if (97 <=? n)%nat && (n <=? 122)%nat then Ascii.ascii_of_nat (n - 32) else c.

Fixpoint ToUpper (s : string) : string :=
  match s with
  | EmptyString => EmptyString
  | String a s' =>
    match s' with
    | String b s'' =>
      if (Ascii.nat_of_ascii a =? 197)%nat && (Ascii.nat_of_ascii b =? 191)%nat then String (Ascii.ascii_of_nat 83) (ToUpper s'')
      else if (Ascii.nat_of_ascii a =? 196)%nat && (Ascii.nat_of_ascii b =? 177)%nat then String (Ascii.ascii_of_nat 73) (ToUpper s'')
      else String (upper_ascii a) (ToUpper s')
    | EmptyString => String (upper_ascii a) EmptyString
    end
  end.

Definition NewStakeHolderTypeFromString (stStr : string) : outcome StakeholderType :=
  let stStr := ToUpper stStr in
  if String.eqb stStr "FINALITY_PROVIDER" then Ok FINALITY_PROVIDER
  else if String.eqb stStr "BTC_STAKER" then Ok BTC_STAKER
  else if String.eqb stStr "COSTAKER" then Ok COSTAKER
  else Err (Errorf "invalid stStr").

Definition StakeholderType_Bytes (st : StakeholderType) : bytes :=
  [match st with FINALITY_PROVIDER => x00 | BTC_STAKER => x01 | COSTAKER => x02 end].

Definition NewStakeHolderType (stBytes : bytes) : outcome StakeholderType :=
  match stBytes with
  | [x00] => Ok FINALITY_PROVIDER
  | [x01] => Ok BTC_STAKER
  | [x02] => Ok COSTAKER
  | [_] => Err (Errorf "invalid stBytes")
  | _ => Err (Errorf "invalid format for stBytes")
  end.

(** ** The module's world

    The module's stores and parameters, the bank, and the state of the module
    behind the hooks ([X]). *)
Record World (B X : Type) := mkWorld {
  w_inc : IncentiveState;
  w_params : IncentiveParams;
  w_bank : B;
  w_rest : X
}.
Arguments mkWorld {B X} _ _ _ _.
Arguments w_inc {B X} _.
Arguments w_params {B X} _.
Arguments w_bank {B X} _.
Arguments w_rest {B X} _.
Definition set_inc {B X} (w : World B X) s := mkWorld s (w_params w) (w_bank w) (w_rest w).
Definition set_params {B X} (w : World B X) p := mkWorld (w_inc w) p (w_bank w) (w_rest w).
Definition set_bank {B X} (w : World B X) (b : B) : World B X := mkWorld (w_inc w) (w_params w) b (w_rest w).

(** [types.IncentiveHooks]; a hook that fails may have changed the state. *)
Class IncentiveHooks (B X : Type) := {
  BeforeRewardWithdraw : World B X → StakeholderType → bytes → outcome (World B X * option error)
}.

(** The names of the accounts: [types.ModuleName] and the fee collector. *)
Definition IncentiveModule : string := "incentive".
Definition FeeCollector : string := "fee_collector".

Section gauges.
Context {SC : SdkCoins}.

(** ** Gauges of a height *)

Definition GetBTCStakingGauge (s : IncentiveState) (height : Z) : option Coins := btcStakingGauges s !! height.
Definition SetBTCStakingGauge (s : IncentiveState) (height : Z) (gauge : Coins) : IncentiveState :=
  set_btcStakingGauges s (<[height := gauge]> (btcStakingGauges s)).
Definition pruneBTCStakingGauge (s : IncentiveState) (height : Z) : IncentiveState :=
  set_btcStakingGauges s (delete height (btcStakingGauges s)).
Definition GetFPDirectGauge (s : IncentiveState) (height : Z) : option Coins := fpDirectGauges s !! height.
Definition SetFPDirectGauge (s : IncentiveState) (height : Z) (gauge : Coins) : IncentiveState :=
  set_fpDirectGauges s (<[height := gauge]> (fpDirectGauges s)).
Definition pruneFPDirectGauge (s : IncentiveState) (height : Z) : IncentiveState :=
  set_fpDirectGauges s (delete height (fpDirectGauges s)).

(** ** Distribution *)

Definition isVoter (voters : gset string) (fp : FinalityProviderDistInfo) : bool := bool_decide (di_hex fp ∈ voters).

(** The two loops stop at [NumActiveFps]. *)
Definition activeFps (dc : VotingPowerDistCache) : list FinalityProviderDistInfo :=
  take (Z.to_nat (dc_NumActiveFps dc)) (dc_FinalityProviders dc).

Definition votersPower (dc : VotingPowerDistCache) (voters : gset string) : Z :=
  foldl (λ total fp, if isVoter voters fp then u64 (total + di_TotalBondedSat fp) else total) 0 (activeFps dc).

(** The body of the second loop for a provider that voted. *)
Definition rewardFp (gauge fpDirectGauge : Coins) (totalVotingPowerOfVoters : Z) (s : IncentiveState)
    (fp : FinalityProviderDistInfo) : outcome IncentiveState :=
  fpPortion ← QuoTruncate (i64 (di_TotalBondedSat fp) * DecOne) (i64 totalVotingPowerOfVoters * DecOne);
  coinsForFpsAndDels ← GetCoinsPortion gauge fpPortion;
  match di_Commission fp with
  | None => Panic (Errorf "nil pointer dereference")
  | Some commission =>
    coinsForCommission ← GetCoinsPortion coinsForFpsAndDels commission;
    coinsForFpDirect ← GetCoinsPortion fpDirectGauge fpPortion;
    totalCoinsForFp ← CoinsAdd coinsForCommission coinsForFpDirect;
    s ← accumulateRewardGauge s FINALITY_PROVIDER (di_Addr fp) totalCoinsForFp;
    coinsForBTCDels ← CoinsSub coinsForFpsAndDels coinsForCommission;
    must (AddFinalityProviderRewardsForBtcDelegations s (di_Addr fp) coinsForBTCDels)
  end.

Definition RewardBTCStaking_incentive {BA : Bech32} (s : IncentiveState) (height : Z) (dc : VotingPowerDistCache)
    (voters : gset string) : outcome IncentiveState :=
  let gauge := default [] (GetBTCStakingGauge s height) in
  let fpDirectGauge := default [] (GetFPDirectGauge s height) in
  let totalVotingPowerOfVoters := votersPower dc voters in
  s ← must (ProcessRewardTrackerEvents s height);
  s ← foldM (λ s fp, if isVoter voters fp then rewardFp gauge fpDirectGauge totalVotingPowerOfVoters s fp else Ok s)
        s (activeFps dc);
  Ok (pruneFPDirectGauge (pruneBTCStakingGauge s height) height).

(** ** Finality hooks

    The hooks take a satoshi amount as a [uint64]; the two hooks on the active
    set do nothing. *)
Definition AfterBtcDelegationUnbonded_inc {BA : Bech32} (ctx : Ctx) (s : IncentiveState) (fp del : bytes) (sats : Z) :=
  AddEventBtcDelegationUnbonded s (CtxHeight ctx) fp del sats.
Definition AfterBtcDelegationActivated_inc {BA : Bech32} (ctx : Ctx) (s : IncentiveState) (fp del : bytes) (sats : Z) :=
  AddEventBtcDelegationActivated s (CtxHeight ctx) fp del sats.

(** ** Reward gauges *)

Definition GetWithdrawableCoins (rg : RewardGauge) : outcome Coins := CoinsSub (rg_Coins rg) (rg_WithdrawnCoins rg).
(** [sdk.NewCoins] drops zero amounts; the coins of a gauge are sums. *)
Definition NewCoins (c : Coins) : Coins := filter (λ x : string * Z, x.2 ≠ 0) c.
Definition SetFullyWithdrawn (rg : RewardGauge) : RewardGauge := mkRewardGauge (rg_Coins rg) (NewCoins (rg_Coins rg)).

Definition GetWithdrawAddr (s : IncentiveState) (addr : bytes) : bytes := default addr (withdrawAddrs s !! addr).
Definition SetWithdrawAddr (s : IncentiveState) (addr withdrawAddr : bytes) : IncentiveState :=
  set_withdrawAddrs s (<[addr := withdrawAddr]> (withdrawAddrs s)).

Definition sendAllBtcDelegationTypeToRewardsGauge (s : IncentiveState) (sType : StakeholderType) (del : bytes)
    : outcome IncentiveState :=
  match sType with BTC_STAKER => sendAllBtcRewardsToGauge s del | _ => Ok s end.

Context {B X : Type} {KB : Bank B}.

Definition withdrawReward (w : World B X) (sType : StakeholderType) (addr : bytes) : outcome (World B X * Coins) :=
  match GetRewardGauge (w_inc w) sType addr with
  | None => Err ErrRewardGaugeNotFound
  | Some rg =>
    withdrawableCoins ← GetWithdrawableCoins rg;
    if negb (CoinsIsAllPositive withdrawableCoins) then Err ErrNoWithdrawableCoins
    else
      let withdrawAddr := GetWithdrawAddr (w_inc w) addr in
      b ← SendCoinsFromModuleToAccount (w_bank w) IncentiveModule withdrawAddr withdrawableCoins;
      let s := SetRewardGauge (w_inc w) sType addr (SetFullyWithdrawn rg) in
      Ok (set_bank (set_inc w s) b, withdrawableCoins)
  end.

(** ** Interception of fees *)

Definition accumulateRewards (ctx : Ctx) (w : World B X) (btcStakingReward fpDirectRewards : Coins)
    : outcome (World B X) :=
  let height := CtxHeight ctx in
  let s := SetBTCStakingGauge (w_inc w) height btcStakingReward in
  let s := if CoinsIsAllPositive fpDirectRewards then SetFPDirectGauge s height fpDirectRewards else s in
  totalRwds ← CoinsAdd btcStakingReward fpDirectRewards;
  if CoinsIsAllPositive totalRwds then
    b ← must (SendCoinsFromModuleToModule (w_bank w) FeeCollector IncentiveModule totalRwds);
    Ok (set_bank (set_inc w s) b)
  else Ok (set_inc w s).

Definition HandleCoinsInFeeCollector (ctx : Ctx) (w : World B X) : outcome (World B X) :=
  let params := w_params w in
  let feesCollectedInt := ModuleBalances (w_bank w) FeeCollector in
  if negb (CoinsIsAllPositive feesCollectedInt) then Ok w
  else
    fpsDirectRwds ← match FpPortion params with
                    | None => Ok []
                    | Some p => GetCoinsPortion feesCollectedInt p
                    end;
    match BtcStakingPortion params with
    | None => Panic (Errorf "nil pointer dereference")
    | Some btcStakingPortion =>
      btcStakingReward ← GetCoinsPortion feesCollectedInt btcStakingPortion;
      accumulateRewards ctx w btcStakingReward fpsDirectRwds
    end.

Definition BeginBlocker_incentive (ctx : Ctx) (w : World B X) : outcome (World B X) :=
  if 0 <? HeaderHeight ctx then HandleCoinsInFeeCollector ctx w else Ok w.

(** ** Messages *)

Context {BA : Bech32} {HK : IncentiveHooks B X}.

Definition SetParams_incentive (w : World B X) (p : IncentiveParams) : outcome (World B X) :=
  _ ← ValidateIncentiveParams p; Ok (set_params w p).

Definition UpdateParams_incentive (w : World B X) (authority reqAuthority : string) (p : IncentiveParams)
    : outcome (World B X) :=
  if negb (String.eqb authority reqAuthority) then Err ErrInvalidSigner
  else match ValidateIncentiveParams p with
       | Err _ => Err ErrInvalidProposalMsg
       | Panic e => Panic e
       | Ok _ => SetParams_incentive w p
       end.

(** A failed withdrawal is logged and counts as no coins. *)
Definition tryWithdraw (w : World B X) (sType : StakeholderType) (addr : bytes)
    : outcome (World B X * option Coins) :=
  match withdrawReward w sType addr with
  | Ok (w, coins) => Ok (w, Some coins)
  | Err _ => Ok (w, None)
  | Panic e => Panic e
  end.

Definition WithdrawReward (w : World B X) (type address : string) : outcome (World B X * Coins) :=
  sType ← wrapf "codes.InvalidArgument" (NewStakeHolderTypeFromString type);
  addr ← match AccFromBech32 address with Some a => Ok a | None => Err (Errorf "codes.InvalidArgument") end;
  s ← wrapf "codes.Internal" (sendAllBtcDelegationTypeToRewardsGauge (w_inc w) sType addr);
  r ← BeforeRewardWithdraw (set_inc w s) sType addr;
  let '(w, err) := (r : World B X * option error) in
  match err with
  | Some _ => Err (Errorf "codes.Internal")
  | None =>
    r ← tryWithdraw w sType addr;
    let '(w, withdrawn) := (r : World B X * option Coins) in
    let withdrawnCoins := default [] withdrawn in
    r ← match sType with
        | BTC_STAKER =>
          r ← BeforeRewardWithdraw w COSTAKER addr;
          r ← tryWithdraw (r : World B X * option error).1 COSTAKER addr;
          let '(w, costaker) := (r : World B X * option Coins) in
          match costaker with
          | None => Ok (w, withdrawnCoins)
          | Some c => total ← CoinsAdd withdrawnCoins c; Ok (w, total)
          end
        | _ => Ok (w, withdrawnCoins)
        end;
    let '(w, withdrawnCoins) := (r : World B X * Coins) in
    if CoinsIsZero withdrawnCoins then Err ErrNoWithdrawableCoins else Ok (w, withdrawnCoins)
  end.

Definition SetWithdrawAddress (w : World B X) (delegator withdraw : string) : outcome (World B X) :=
  match AccFromBech32 delegator with
  | None => Err (Errorf "codes.InvalidArgument")
  | Some delegatorAddress =>
    match AccFromBech32 withdraw with
    | None => Err (Errorf "codes.InvalidArgument")
    | Some withdrawAddress =>
      if BlockedAddr withdrawAddress then Err ErrUnauthorized
      else Ok (set_inc w (SetWithdrawAddr (w_inc w) delegatorAddress withdrawAddress))
    end
  end.

End gauges.

(** ** Refunded transactions

    Messages of the light client, of checkpoint submission, of covenants and
    vigilantes and finality votes are refunded: their handlers index the hash of
    the message. *)

Inductive MsgKind :=
  | KindInsertHeaders | KindInsertBTCSpvProof | KindAddCovenantSigs | KindBTCUndelegate
  | KindSelectiveSlashingEvidence | KindAddBTCDelegationInclusionProof | KindAddFinalitySig | KindOther.

(** A transaction with messages in [M]; [None] is one that is not a [FeeTx]. *)
Record FeeData := mkFeeData { GetFee : Coins; FeePayer : bytes; FeeGranter : option bytes }.
Record Tx (M : Type) := mkTx { GetMsgs : list M; feeTx : option FeeData }.
Arguments mkTx {M} _ _.
Arguments GetMsgs {M} _.
Arguments feeTx {M} _.

Section refunds.
Context {M : Type} (kind : M → MsgKind) (HashMsg : M → bytes).
Context {B X : Type} {KB : Bank B}.

Definition IndexRefundableMsg_incentive (s : IncentiveState) (msg : M) : IncentiveState :=
  set_refundableMsgs s ({[HashMsg msg]} ∪ refundableMsgs s).
Definition HasRefundableMsg (s : IncentiveState) (msgHash : bytes) : bool := bool_decide (msgHash ∈ refundableMsgs s).
Definition RemoveRefundableMsg (s : IncentiveState) (msgHash : bytes) : IncentiveState :=
  set_refundableMsgs s (refundableMsgs s ∖ {[msgHash]}).

Definition getRecipient (f : FeeData) : bytes := default (FeePayer f) (FeeGranter f).

Definition RefundTx (w : World B X) (f : FeeData) : outcome (World B X) :=
  if CoinsIsZero (GetFee f) then Ok w
  else b ← SendCoinsFromModuleToAccount (w_bank w) FeeCollector (getRecipient f) (GetFee f);
       Ok (set_bank w b).

Definition isRefundTx (tx : Tx M) : bool :=
  match GetMsgs tx with
  | [] => false
  | msgs => forallb (λ m, match kind m with KindOther => false | _ => true end) msgs
  end.

(** The ante handler: [Ok tt] calls the next one. *)
Definition AnteHandle (tx : Tx M) : outcome unit :=
  if negb (isRefundTx tx) then Ok tt
  else match feeTx tx with
       | None => Err (Errorf "Tx must be a FeeTx")
       | Some f =>
         match FeeGranter f with
         | Some granter =>
           if negb (bool_decide (granter = FeePayer f))
           then Err (Errorf "it is not possible to use a fee grant in a refundable transaction") else Ok tt
         | None => Ok tt
         end
       end.

Definition refundableHashes (s : IncentiveState) (tx : Tx M) : gset bytes :=
  list_to_set (filter (λ h, HasRefundableMsg s h = true) (HashMsg <$> GetMsgs tx)).

Definition CheckTxAndClearIndex (s : IncentiveState) (tx : Tx M) : bool * IncentiveState :=
  let refundableMsgHashSet := refundableHashes s tx in
  let refundable := bool_decide (size refundableMsgHashSet = length (GetMsgs tx)) in
  (refundable, foldl RemoveRefundableMsg s (elements refundableMsgHashSet)).

(** The post handler, before it calls the next one. *)
Definition PostHandle (execModeFinalize simulate success : bool) (w : World B X) (tx : Tx M) : outcome (World B X) :=
  if negb execModeFinalize && negb simulate then Ok w
  else if negb success then Ok w
  else match feeTx tx with
       | None => Ok w
       | Some f =>
         let '(refundable, s) := CheckTxAndClearIndex (w_inc w) tx in
         let w := set_inc w s in
         if refundable then
           match RefundTx w f with
           | Ok w => Ok w
           | Err _ => Ok w
           | Panic e => Panic e
           end
         else Ok w
       end.

End refunds.
