(* ===== verification/IncentiveSafety.v ===== *)
(** * x/incentive: the module account covers what the module owes

    An invariant of the whole module: the balance of its account is at least
    the sum of all reward gauges, of the gauges of heights not rewarded yet and
    of what the reward tracker owes to delegations, in every denomination. It
    holds for every sequence of the module's operations; the module behind the
    withdrawal hook only has to keep it. *)

From S2P Require Import Prelude Bytes Store BbnTypes BtcStaking PowerTable Coins RewardTracker RewardLedger Incentive.

(** ** Shares *)

Definition share (g p : Z) : Z := (g * p) `quot` DecOne.

Lemma share_bounds g p : 0 ≤ g → 0 ≤ p → 0 ≤ share g p ∧ share g p * DecOne ≤ g * p.
Proof.
  intros Hg Hp. unfold share. assert (0 < DecOne) by done. split; [apply Z.quot_pos; nia|].
  pose proof (Z.mul_quot_le (g * p) DecOne). nia.
Qed.

(** The portion of a provider with [x] of the [Y] satoshis of the voters. *)
Definition portionOf (Y x : Z) : Z := (x * DecOne) `quot` Y.

Lemma portionOf_bounds Y x : 0 < Y → 0 ≤ x → 0 ≤ portionOf Y x ∧ Y * portionOf Y x ≤ x * DecOne.
Proof.
  intros HY Hx. unfold portionOf. assert (0 < DecOne) by done. split; [apply Z.quot_pos; nia|].
  apply Z.mul_quot_le; nia.
Qed.

(** Shares of a gauge by portions never exceed the gauge. *)
Lemma shares_le g Y xs : 0 ≤ g → 0 < Y → Forall (λ x, 0 ≤ x) xs → sumZ xs ≤ Y →
  sumZ ((λ x, share g (portionOf Y x)) <$> xs) ≤ g.
Proof.
  intros Hg HY Hxs Hsum. assert (0 < DecOne) as Hone by done.
  assert (sumZ ((λ x, share g (portionOf Y x)) <$> xs) * DecOne ≤ g * sumZ (portionOf Y <$> xs) ∧
          Y * sumZ (portionOf Y <$> xs) ≤ sumZ xs * DecOne) as [H1 H2].
  { clear Hsum. induction Hxs as [|x xs Hx _ [IH1 IH2]]; [simpl; lia|]. rewrite !fmap_cons, !sumZ_cons.
    destruct (portionOf_bounds Y x HY Hx). destruct (share_bounds g (portionOf Y x) Hg); [done|]. nia. }
  assert (sumZ (portionOf Y <$> xs) ≤ DecOne) by nia. nia.
Qed.

(** A payment after the two truncations, against the exact amount. *)
Lemma payout_bounds D x C T : 0 ≤ D → 0 ≤ x → x ≤ DecimalRewards → 0 ≤ C → 0 < T →
  let r := (D + x * ((C * DecimalRewards) `quot` T)) `quot` DecimalRewards in
  r * (DecimalRewards * T) ≤ D * T + x * C * DecimalRewards < (r + 2) * (DecimalRewards * T).
Proof.
  intros HD Hx HxD HC HT. pose proof DecimalRewards_pos as HDR. set (R := DecimalRewards) in *. cbv zeta.
  rewrite (Z.quot_div_nonneg (C * R)) by nia.
  assert (0 ≤ C * R / T) by (apply Z.div_pos; nia).
  rewrite Z.quot_div_nonneg by nia. set (q := C * R / T) in *.
  pose proof (Z.div_mod (C * R) T ltac:(lia)) as Eq. pose proof (Z.mod_pos_bound (C * R) T HT). fold q in Eq.
  set (m := (C * R) mod T) in *. set (r := (D + x * q) / R).
  pose proof (Z.div_mod (D + x * q) R ltac:(lia)) as Er. pose proof (Z.mod_pos_bound (D + x * q) R HDR). fold r in Er.
  set (k := (D + x * q) mod R) in *.
  assert (D * T + x * C * R = r * (R * T) + (k * T + x * m)) as -> by nia. nia.
Qed.

Section safety.
Context {SC : SdkCoins} {SL : SdkCoinsLaws SC} {BA : Bech32}.

Lemma GetCoinsPortion_spec c p r : coins_ok c → 0 ≤ p → GetCoinsPortion c p = Ok r →
  coins_ok r ∧ ∀ d, AmountOf r d = share (AmountOf c d) p.
Proof using SL. intros. by apply CoinsMulDecTruncate_law. Qed.

(** ** Distribution *)

Definition fp_valid (fp : FinalityProviderDistInfo) : Prop :=
  0 ≤ di_TotalBondedSat fp ∧ ∀ c, di_Commission fp = Some c → 0 ≤ c.

Lemma rewardFp_step n gauge direct Y s fp s' :
  tracker_wf n s → coins_ok gauge → coins_ok direct → fp_valid fp → di_TotalBondedSat fp ≤ Y < 2 ^ 63 →
  rewardFp gauge direct Y s fp = Ok s' →
  0 < Y ∧ tracker_wf n s' ∧ ledger_only s s' ∧
  ∀ d, liabilities s' d ≤ liabilities s d +
    (share (AmountOf gauge d) (portionOf Y (di_TotalBondedSat fp)) +
     share (AmountOf direct d) (portionOf Y (di_TotalBondedSat fp))) * DecimalRewards.
Proof using SL.
  intros Hwf Hg Hd [Hx Hcomm] HY. unfold rewardFp. rewrite !i64_small by (unfold in_i64; lia).
  intros H. apply bind_Ok in H as (p & Hp & H). apply QuoTruncate_law in Hp as [Hne Hp].
  assert (0 < DecOne) as Hone by done. assert (0 < Y) as HY0 by nia.
  rewrite Z.quot_mul_cancel_r in Hp by lia.
  change (p = portionOf Y (di_TotalBondedSat fp)) in Hp. subst p.
  destruct (portionOf_bounds Y (di_TotalBondedSat fp) HY0 Hx) as [Hp0 _].
  apply bind_Ok in H as (c1 & H1 & H). apply GetCoinsPortion_spec in H1 as [Hc1 Ha1]; [|done..].
  destruct (di_Commission fp) as [com|]; [|done]. specialize (Hcomm com eq_refl).
  apply bind_Ok in H as (c2 & H2 & H). apply GetCoinsPortion_spec in H2 as [Hc2 Ha2]; [|done..].
  apply bind_Ok in H as (c3 & H3 & H). apply GetCoinsPortion_spec in H3 as [Hc3 Ha3]; [|done..].
  apply bind_Ok in H as (c4 & H4 & H). apply CoinsAdd_law in H4 as [Hc4%coins_pos_ok Ha4]; [|done..].
  apply bind_Ok in H as (s1 & H5 & H). apply (accumulateRewardGauge_step n) in H5 as (Hwf1 & Ho1 & Hl1); [|done..].
  apply bind_Ok in H as (c6 & H6 & H). apply CoinsSub_law in H6 as [Hc6%coins_pos_ok Ha6]; [|done..].
  rewrite must_Ok in H. apply (AddFinalityProviderRewards_step n) in H as (Hwf2 & Ho2 & Hl2); [|done..].
  split_and!; [done..|by etrans|]. intros d. rewrite Hl2. specialize (Hl1 d). rewrite Ha4, Ha3 in Hl1. rewrite Ha6, <- Ha1. lia.
Qed.

Definition voterSats (dc : VotingPowerDistCache) (voters : gset string) : list Z :=
  di_TotalBondedSat <$> filter (λ fp, isVoter voters fp = true) (activeFps dc).

Definition dist_valid (dc : VotingPowerDistCache) (voters : gset string) : Prop :=
  Forall fp_valid (activeFps dc) ∧ sumZ (voterSats dc voters) < 2 ^ 63.

Lemma voterSats_nonneg voters l : Forall fp_valid l →
  0 ≤ sumZ (di_TotalBondedSat <$> filter (λ fp, isVoter voters fp = true) l).
Proof using.
  intros Hl. apply sumZ_nonneg, Forall_forall. intros x (fp & -> & Hin)%list_elem_of_fmap.
  apply list_elem_of_filter in Hin as [_ Hin]. rewrite Forall_forall in Hl. by apply Hl.
Qed.

Lemma voters_cons voters fp l :
  filter (λ fp, isVoter voters fp = true) (fp :: l) =
  if isVoter voters fp then fp :: filter (λ fp, isVoter voters fp = true) l
  else filter (λ fp, isVoter voters fp = true) l.
Proof using. rewrite filter_cons. by destruct (isVoter voters fp). Qed.

Lemma votersPower_sum dc voters : dist_valid dc voters → votersPower dc voters = sumZ (voterSats dc voters).
Proof using.
  intros [Hv Hs]. unfold votersPower, voterSats in *.
  assert (∀ acc l, Forall fp_valid l → 0 ≤ acc →
    acc + sumZ (di_TotalBondedSat <$> filter (λ fp, isVoter voters fp = true) l) < 2 ^ 64 →
    foldl (λ total fp, if isVoter voters fp then u64 (total + di_TotalBondedSat fp) else total) acc l =
    acc + sumZ (di_TotalBondedSat <$> filter (λ fp, isVoter voters fp = true) l)) as Hgen.
  { intros acc l. revert acc. induction l as [|fp l IH]; intros acc Hl Hacc Hlt; [simpl; lia|].
    apply Forall_cons in Hl as [[Hfp _] Hl]. rewrite voters_cons in *. cbn [foldl].
    pose proof (voterSats_nonneg voters l Hl). destruct (isVoter voters fp).
    - rewrite fmap_cons, sumZ_cons in *. rewrite u64_small by (unfold in_u64; lia). rewrite IH; [lia|done|lia|lia].
    - by apply IH. }
  rewrite Hgen; [lia|done|lia|lia].
Qed.

Lemma rewardFps_step n gauge direct Y voters l s s' :
  tracker_wf n s → coins_ok gauge → coins_ok direct → Forall fp_valid l →
  sumZ (di_TotalBondedSat <$> filter (λ fp, isVoter voters fp = true) l) ≤ Y < 2 ^ 63 →
  foldM (λ s fp, if isVoter voters fp then rewardFp gauge direct Y s fp else Ok s) s l = Ok s' →
  tracker_wf n s' ∧ ledger_only s s' ∧ (filter (λ fp, isVoter voters fp = true) l ≠ [] → 0 < Y) ∧
  ∀ d, liabilities s' d ≤ liabilities s d + sumZ ((λ x, share (AmountOf gauge d) (portionOf Y x)
       + share (AmountOf direct d) (portionOf Y x)) <$>
       (di_TotalBondedSat <$> filter (λ fp, isVoter voters fp = true) l)) * DecimalRewards.
Proof using SL.
  revert s. induction l as [|fp l IH]; intros s Hwf Hg Hd Hl HY.
  - intros [= <-]. split_and!; [done..|]. intros d. simpl. lia.
  - apply Forall_cons in Hl as [Hfp Hl]. rewrite voters_cons in *. cbn [foldM].
    pose proof (voterSats_nonneg voters l Hl). destruct (isVoter voters fp); [|by apply IH].
    rewrite fmap_cons, sumZ_cons in HY. destruct (Hfp) as [Hfp0 _].
    intros H1. apply bind_Ok in H1 as (s1 & H1 & H2).
    apply (rewardFp_step n) in H1 as (HY0 & Hwf1 & Ho1 & Hl1); [|done..|lia].
    apply IH in H2 as (Hwf2 & Ho2 & _ & Hl2); [|done..|lia]. split_and!; [done|by etrans|done|]. intros d.
    rewrite !fmap_cons, sumZ_cons. specialize (Hl1 d). specialize (Hl2 d). lia.
Qed.

Lemma share_nonneg_sum g Y xs : (xs ≠ [] → 0 < Y) → 0 ≤ g → Forall (λ x, 0 ≤ x) xs → sumZ xs ≤ Y →
  sumZ ((λ x, share g (portionOf Y x)) <$> xs) ≤ g.
Proof using. destruct xs as [|x xs]; [simpl; lia|]. intros HY Hg. apply shares_le; [done|by apply HY]. Qed.

Lemma sumZ_fmap_add {A} (f g : A → Z) l : sumZ ((λ x, f x + g x) <$> l) = sumZ (f <$> l) + sumZ (g <$> l).
Proof using. induction l as [|x l IH]; [done|]. rewrite !fmap_cons, !sumZ_cons, IH. lia. Qed.

(** Rewarding a height hands out no more than its gauges hold. *)
Lemma RewardBTCStaking_step n s h dc voters s' :
  tracker_wf n s → 1 ≤ n → n + Z.of_nat (length (events_in s (heightsToProcess s h))) < 2 ^ 64 →
  dist_valid dc voters → RewardBTCStaking_incentive s h dc voters = Ok s' →
  tracker_wf (n + Z.of_nat (length (events_in s (heightsToProcess s h)))) s' ∧
  (∀ d, liabilities s' d ≤ liabilities s d).
Proof using SL.
  intros Hwf H1 Hn Hdv. unfold RewardBTCStaking_incentive. rewrite votersPower_sum by done.
  set (g := default [] (GetBTCStakingGauge s h)). set (dg := default [] (GetFPDirectGauge s h)).
  assert (coins_ok g ∧ coins_ok dg) as [Hg Hdg].
  { unfold g, dg, GetBTCStakingGauge, GetFPDirectGauge. split.
    - destruct (btcStakingGauges s !! h) eqn:Eg; [by eapply (tw_btcGauges _ _ Hwf)|apply coins_ok_nil].
    - destruct (fpDirectGauges s !! h) eqn:Eg; [by eapply (tw_fpGauges _ _ Hwf)|apply coins_ok_nil]. }
  intros H. apply bind_Ok in H as (s1 & He & H). rewrite must_Ok in He.
  apply (ProcessRewardTrackerEvents_step n) in He as [Hwf1 Ho1 _ Hl1]; [|done..].
  apply bind_Ok in H as (s2 & Hf & H). injection H as <-.
  destruct Hdv as [Hvalid Hsum]. unfold voterSats in *.
  apply (rewardFps_step (n + Z.of_nat (length (events_in s (heightsToProcess s h))))) in Hf as (Hwf2 & Ho2 & HY & Hl2);
    [|exact Hwf1|done|done|done|lia].
  assert (btcStakingGauges s2 = btcStakingGauges s) as Hb2 by (rewrite (lo_btcGauges _ _ Ho2); apply Ho1).
  assert (fpDirectGauges s2 = fpDirectGauges s) as Hf2 by (rewrite (lo_fpGauges _ _ Ho2); apply Ho1).
  split.
  - destruct Hwf2 as [A1 A2 A3 A4 A5 A6]. split; try done; simpl.
    + intros h' c [_ ?]%lookup_delete_Some. by eapply A4.
    + intros h' c [_ ?]%lookup_delete_Some. by eapply A5.
  - intros d. set (Y := sumZ _) in *. specialize (Hl1 d). specialize (Hl2 d). rewrite sumZ_fmap_add in Hl2.
    assert (Forall (λ x, 0 ≤ x) (di_TotalBondedSat <$> filter (λ fp, isVoter voters fp = true) (activeFps dc))) as Hnn.
    { apply Forall_forall. intros x (fp & -> & Hin)%list_elem_of_fmap. apply list_elem_of_filter in Hin as [_ Hin].
      rewrite Forall_forall in Hvalid. by apply Hvalid. }
    assert (di_TotalBondedSat <$> filter (λ fp, isVoter voters fp = true) (activeFps dc) ≠ [] → 0 < Y) as HY'.
    { intros Hx. apply HY. intros Hnil. by rewrite Hnil in Hx. }
    pose proof (share_nonneg_sum (AmountOf g d) Y _ HY' (AmountOf_nonneg g d Hg) Hnn ltac:(lia)).
    pose proof (share_nonneg_sum (AmountOf dg d) Y _ HY' (AmountOf_nonneg dg d Hdg) Hnn ltac:(lia)).
    assert (pending_total (pruneFPDirectGauge (pruneBTCStakingGauge s2 h) h) d =
      pending_total s2 d - AmountOf g d - AmountOf dg d) as Hp.
    { unfold pending_total. simpl. rewrite Hb2, Hf2, !sum_map_delete_part. unfold part, g, dg, GetBTCStakingGauge, GetFPDirectGauge.
      destruct (btcStakingGauges s !! h), (fpDirectGauges s !! h);
        cbn [from_option id fmap option_fmap option_map]; rewrite ?AmountOf_nil; lia. }
    change (liabilities (set_lastProcessedHeight s (Some h)) d) with (liabilities s d) in Hl1.
    unfold liabilities at 1. rewrite Hp.
    change (owed_total _ d) with (owed_total s2 d). change (gauge_total _ d) with (gauge_total s2 d).
    unfold liabilities at 1 in Hl2. pose proof DecimalRewards_pos. nia.
Qed.

End safety.

(** ** The whole module *)

Definition params_ok (p : IncentiveParams) : Prop :=
  ∀ x, BtcStakingPortion p = Some x ∨ FpPortion p = Some x → 0 ≤ x.

Definition solvent {B X} `{Bank B} (n : Z) (w : World B X) : Prop :=
  tracker_wf n (w_inc w) ∧ params_ok (w_params w) ∧
  ∀ d, liabilities (w_inc w) d ≤ balance (w_bank w) IncentiveModule d * DecimalRewards.

(** What the module asks of the one behind its hooks: an invariant of that
    module's state and of the bank ([rest_ok]), which transfers out of the
    accounts this module spends from keep, and that a hook and the steps of that
    module ([rest_step]) keep both invariants. The numbers bound the periods. *)
Class IncentiveHooksLaws (B X : Type) `{Bank B} (HK : IncentiveHooks B X) := {
  rest_ok : Z → B → X → Prop;
  rest_step : Z → World B X → World B X → Prop;
  rest_ok_mono n m b x : n ≤ m → rest_ok n b x → rest_ok m b x;
  rest_ok_bank n b b' x :
    (∀ a d, a ≠ IncentiveModule → a ≠ FeeCollector → balance b a d ≤ balance b' a d) →
    rest_ok n b x → rest_ok n b' x;
  BeforeRewardWithdraw_law n w t a w' err :
    solvent n w → rest_ok n (w_bank w) (w_rest w) → 1 ≤ n → n + 1 < 2 ^ 64 →
    BeforeRewardWithdraw w t a = Ok (w', err) →
    solvent n w' ∧ rest_ok (n + 1) (w_bank w') (w_rest w');
  rest_step_cost k w w' : rest_step k w w' → 0 ≤ k;
  rest_step_law n k w w' :
    solvent n w → rest_ok n (w_bank w) (w_rest w) → 1 ≤ n → n + k < 2 ^ 64 → rest_step k w w' →
    solvent n w' ∧ rest_ok (n + k) (w_bank w') (w_rest w')
}.

Section module.
Context {SC : SdkCoins} {SL : SdkCoinsLaws SC} {BA : Bech32}.
Context {B X : Type} {KB : Bank B} {KL : BankLaws B KB} {HK : IncentiveHooks B X} {HL : IncentiveHooksLaws B X HK}.
Implicit Types w : World B X.

Definition module_ok (n : Z) (w : World B X) : Prop := solvent n w ∧ rest_ok n (w_bank w) (w_rest w).

Lemma solvent_mono n m w : n ≤ m → solvent n w → solvent m w.
Proof using. intros Hle (Hwf & Hp & Hl). split_and!; [by eapply tracker_wf_mono|done|done]. Qed.

Lemma module_ok_mono n m w : n ≤ m → module_ok n w → module_ok m w.
Proof using. intros Hle [Hs Hr]. split; [by eapply solvent_mono|by eapply rest_ok_mono]. Qed.

(** What is spent from the module's own account or from the fee collector. *)
Definition spares (b b' : B) : Prop :=
  ∀ a d, a ≠ IncentiveModule → a ≠ FeeCollector → balance b a d ≤ balance b' a d.

Lemma module_ok_spares n w w' : module_ok n w → solvent n w' → w_rest w' = w_rest w →
  spares (w_bank w) (w_bank w') → module_ok n w'.
Proof using. intros [_ Hr] Hs Hrest Hb. split; [done|]. rewrite Hrest. by eapply rest_ok_bank. Qed.

Lemma spares_refl b : spares b b.
Proof using. by intros a d _ _. Qed.

Lemma spares_account b b' from a c : coins_ok c → from = IncentiveModule ∨ from = FeeCollector →
  SendCoinsFromModuleToAccount b from a c = Ok b' → spares b b'.
Proof using KL.
  intros Hc Hfrom Hb m d H1 H2. destruct (SendToAccount_law _ _ _ _ _ Hc Hb d) as [_ Hm]. apply Hm.
  destruct Hfrom; congruence.
Qed.

(** A new state of the stores that owes no more. *)
Lemma solvent_set_inc n m w s' : solvent n w → tracker_wf m s' →
  (∀ d, liabilities s' d ≤ liabilities (w_inc w) d) → solvent m (set_inc w s').
Proof using. intros (Hwf & Hp & Hl) Hwf' Hle. split_and!; [done..|]. intros d. simpl. by etrans; [apply Hle|]. Qed.

(** *** Withdrawals *)

Lemma NewCoins_spec c : coins_ok c → coins_ok (NewCoins c) ∧ ∀ d, AmountOf (NewCoins c) d = AmountOf c d.
Proof using.
  intros [Hnd Hpos]. unfold NewCoins.
  assert (∀ d, d ∈ denoms (filter (λ x : string * Z, x.2 ≠ 0) c) → d ∈ denoms c) as Hsub.
  { intros d (x & -> & Hin)%list_elem_of_fmap. apply list_elem_of_filter in Hin as [_ Hin].
    by apply list_elem_of_fmap_2. }
  induction c as [|[k z] c IH]; [split; [split|]; done|].
  apply NoDup_cons in Hnd as [Hk Hnd]. apply Forall_cons in Hpos as [Hz Hpos].
  destruct IH as [[IH1 IH2] IH3]; [done|done| |].
  { intros d (x & -> & Hin)%list_elem_of_fmap. apply list_elem_of_filter in Hin as [_ Hin].
    by apply list_elem_of_fmap_2. }
  rewrite filter_cons. simpl. case_decide as Hz0; simpl in Hz0.
  - split; [split|].
    + apply NoDup_cons. split; [|done]. intros (x & Hx & Hin)%list_elem_of_fmap.
      apply list_elem_of_filter in Hin as [_ Hin]. apply Hk. rewrite Hx. by apply list_elem_of_fmap_2.
    + by constructor.
    + intros d. specialize (IH3 d). unfold AmountOf in *. simpl. destruct (decide (k = d)) as [->|].
      * by rewrite !lookup_insert_eq.
      * by rewrite !lookup_insert_ne.
  - split; [by split|]. intros d. rewrite IH3. unfold AmountOf. simpl. destruct (decide (k = d)) as [->|].
    + rewrite lookup_insert_eq. simpl. assert (z = 0) as -> by (destruct (decide (z = 0)); [done|by destruct Hz0]).
      rewrite not_elem_of_list_to_map_1 by done. done.
    + by rewrite lookup_insert_ne.
Qed.

Lemma withdrawReward_solvent n w t a w' c : solvent n w → withdrawReward w t a = Ok (w', c) →
  solvent n w' ∧ w_rest w' = w_rest w ∧ spares (w_bank w) (w_bank w') ∧
  ∃ rg, GetRewardGauge (w_inc w) t a = Some rg ∧ (∀ d, AmountOf c d = withdrawable rg d) ∧
    ∀ d, default 0 (flip withdrawable d <$> GetRewardGauge (w_inc w') t a) = 0.
Proof using SL KL.
  intros (Hwf & Hp & Hl). unfold withdrawReward. destruct (GetRewardGauge (w_inc w) t a) as [rg|] eqn:Hrg; [|done].
  pose proof (tw_gauge _ _ Hwf t a rg Hrg) as Hok. intros H. apply bind_Ok in H as (wc & Hwc & H).
  apply CoinsSub_law in Hwc as [Hwcok%coins_pos_ok Hwca]; [|apply Hok|apply Hok].
  destruct (negb (CoinsIsAllPositive wc)); [done|]. apply bind_Ok in H as (b & Hb & H). injection H as <- <-.
  destruct (NewCoins_spec (rg_Coins rg) (go_coins _ Hok)) as [Hnok Hna].
  assert (∀ d, withdrawable (SetFullyWithdrawn rg) d = 0) as Hz.
  { intros d. unfold withdrawable, SetFullyWithdrawn. simpl. rewrite Hna. lia. }
  split_and!; [split_and!|done|exact (spares_account _ _ _ _ _ Hwcok (or_introl eq_refl) Hb)|exists rg; split_and!].
  - simpl. destruct Hwf as [A1 A2 A3 A4 A5 A6]. split; try done. intros t' a' rg'. simpl. rewrite get2_set2.
    case_decide; [|apply A2]. intros [= <-]. split; simpl; [apply Hok|done|]. intros d. by rewrite Hna.
  - done.
  - intros d. simpl. destruct (SendToAccount_law _ _ _ _ _ Hwcok Hb d) as [Hbal _]. specialize (Hl d).
    unfold liabilities in *. simpl. change (owed_total (SetRewardGauge _ _ _ _) d) with (owed_total (w_inc w) d).
    change (pending_total (SetRewardGauge _ _ _ _) d) with (pending_total (w_inc w) d).
    unfold gauge_total at 1. simpl. rewrite sum2_set2. unfold GetRewardGauge in Hrg. rewrite Hrg. simpl. rewrite Hz.
    rewrite Hwca in Hbal. fold (withdrawable rg d) in Hbal. fold (gauge_total (w_inc w) d).
    pose proof DecimalRewards_pos. nia.
  - done.
  - intros d. rewrite Hwca. done.
  - intros d. unfold GetRewardGauge. simpl. rewrite get2_set2_eq. apply Hz.
Qed.

Lemma tryWithdraw_solvent n w t a w' c : module_ok n w → tryWithdraw w t a = Ok (w', c) → module_ok n w'.
Proof using SL KL.
  intros [Hs Hr]. unfold tryWithdraw. destruct (withdrawReward w t a) as [[w1 c1]|e|e] eqn:Hw; [| |done].
  - intros [= <- <-]. apply (withdrawReward_solvent n) in Hw as (Hs1 & Hr1 & Hb1 & _); [|done]. by apply (module_ok_spares n w _ (conj Hs Hr)).
  - by intros [= <- <-].
Qed.

Lemma hook_ok n w t a w' err : module_ok n w → 1 ≤ n → n + 1 < 2 ^ 64 →
  BeforeRewardWithdraw w t a = Ok (w', err) → module_ok (n + 1) w'.
Proof using HL.
  intros [Hs Hr] H1 Hn H. apply (BeforeRewardWithdraw_law n) in H as [Hs' Hr']; [|done..]. split; [|done].
  eapply solvent_mono; [|done]. lia.
Qed.

Lemma WithdrawReward_solvent n k w type address w' c : module_ok n w → 1 ≤ n → n + k < 2 ^ 64 →
  (∀ a, AccFromBech32 address = Some a → Z.of_nat (length (delegatorFps (w_inc w) a)) + 2 ≤ k) →
  WithdrawReward w type address = Ok (w', c) → module_ok (n + k) w'.
Proof using SL KL HL.
  intros [Hs Hr] H1 Hn Hlen. unfold WithdrawReward. intros H. apply bind_Ok in H as (t & _ & H).
  apply bind_Ok in H as (a & Ha & H). destruct (AccFromBech32 address) as [a0|]; [|done]. injection Ha as ->.
  specialize (Hlen a eq_refl). apply bind_Ok in H as (s & Hsend & H). rewrite wrapf_Ok in Hsend.
  set (m := n + (k - 2)). assert (module_ok m (set_inc w s)) as Hok.
  { split; [|eapply (rest_ok_mono n); [unfold m; lia|done]]. destruct Hs as (Hwf & Hp & Hl).
    unfold sendAllBtcDelegationTypeToRewardsGauge in Hsend. destruct t; [injection Hsend as <-| |injection Hsend as <-].
    1, 3: split_and!; [eapply tracker_wf_mono, Hwf; unfold m; lia|done|done].
    apply (sendAllBtcRewardsToGauge_step n) in Hsend as [Hwf' _ Hl']; [|done|done|lia].
    eapply (solvent_set_inc n); [done| |intros d; specialize (Hl' d); lia]. eapply tracker_wf_mono, Hwf'. unfold m. lia. }
  assert (1 ≤ m ∧ m + 2 = n + k) as [Hm1 Hm2] by (unfold m; lia).
  apply bind_Ok in H as ([w1 err] & Hhook & H). apply (hook_ok m) in Hhook; [|done|lia|lia].
  destruct err; [done|]. apply bind_Ok in H as ([w2 c2] & Hw & H). apply (tryWithdraw_solvent (m + 1)) in Hw; [|done].
  apply bind_Ok in H as ([w3 c3] & H3 & H). assert (module_ok (n + k) w3) as Hok3.
  { rewrite <- Hm2. destruct t; [injection H3 as <- _; eapply module_ok_mono, Hw; lia| |injection H3 as <- _; eapply module_ok_mono, Hw; lia].
    apply bind_Ok in H3 as ([w4 err4] & Hh4 & H3). apply (hook_ok (m + 1)) in Hh4; [|done|lia|lia].
    rewrite <- Z.add_assoc in Hh4. change (1 + 1) with 2 in Hh4.
    apply bind_Ok in H3 as ([w5 c5] & Hw5 & H3). apply (tryWithdraw_solvent (m + 2)) in Hw5; [|done].
    destruct c5; [|by injection H3 as <- _]. apply bind_Ok in H3 as (tot & _ & H3). by injection H3 as <- _. }
  destruct (CoinsIsZero c3); [done|]. by injection H as <- _.
Qed.

(** *** Fees *)

Lemma insert_coins_ok (m : gmap Z Coins) h g : (∀ h c, m !! h = Some c → coins_ok c) → coins_ok g →
  ∀ h' c, <[h := g]> m !! h' = Some c → coins_ok c.
Proof using.
  intros Hm Hg h' c. destruct (decide (h = h')) as [<-|Hne].
  - rewrite lookup_insert_eq. by intros [= <-].
  - rewrite lookup_insert_ne by done. apply Hm.
Qed.

Lemma accumulateRewards_solvent n ctx w c1 c2 w' : solvent n w → coins_ok c1 → coins_ok c2 →
  accumulateRewards ctx w c1 c2 = Ok w' → solvent n w' ∧ w_rest w' = w_rest w ∧ spares (w_bank w) (w_bank w').
Proof using SL KL.
  intros (Hwf & Hp & Hl) Hc1 Hc2. unfold accumulateRewards. cbv zeta.
  set (s1 := SetBTCStakingGauge (w_inc w) (CtxHeight ctx) c1).
  set (s2 := if CoinsIsAllPositive c2 then _ else s1).
  intros H. apply bind_Ok in H as (tot & Htot & H). apply CoinsAdd_law in Htot as [Htok Hta]; [|done..].
  assert (tracker_wf n s2) as Hwf2.
  { destruct Hwf as [A1 A2 A3 A4 A5 A6]. unfold s2, s1.
    destruct (CoinsIsAllPositive c2); split; try done; by apply insert_coins_ok. }
  assert (∀ d, liabilities s2 d ≤ liabilities (w_inc w) d + AmountOf tot d * DecimalRewards) as Hl2.
  { intros d. rewrite Hta. unfold liabilities.
    assert (owed_total s2 d = owed_total (w_inc w) d) as -> by (unfold s2, s1; by destruct (CoinsIsAllPositive c2)).
    assert (gauge_total s2 d = gauge_total (w_inc w) d) as -> by (unfold s2, s1; by destruct (CoinsIsAllPositive c2)).
    assert (pending_total s2 d ≤ pending_total (w_inc w) d + AmountOf c1 d + AmountOf c2 d); [|pose proof DecimalRewards_pos; nia].
    pose proof (AmountOf_nonneg c2 d Hc2).
    assert (0 ≤ part (λ _ c, AmountOf c d) (btcStakingGauges (w_inc w)) (CtxHeight ctx)).
    { apply sum_map_part_le. intros h c Hh. by eapply AmountOf_nonneg, (tw_btcGauges _ _ Hwf). }
    assert (0 ≤ part (λ _ c, AmountOf c d) (fpDirectGauges (w_inc w)) (CtxHeight ctx)).
    { apply sum_map_part_le. intros h c Hh. by eapply AmountOf_nonneg, (tw_fpGauges _ _ Hwf). }
    unfold pending_total, s2, s1. destruct (CoinsIsAllPositive c2); simpl; rewrite !sum_map_insert; lia. }
  destruct (CoinsIsAllPositive tot) eqn:Hpos.
  - apply bind_Ok in H as (b & Hb & H). rewrite must_Ok in Hb. injection H as <-.
    assert (FeeCollector ≠ IncentiveModule) as Hne by done. split; [|split; [done|]]; cycle 1.
    { intros m d H1 H2. simpl. destruct (SendToModule_law _ _ _ _ _ (coins_pos_ok _ Htok) Hne Hb d) as (_ & _ & Hm).
      rewrite Hm by done. lia. }
    split_and!; [done..|]. intros d. simpl.
    destruct (SendToModule_law _ _ _ _ _ (coins_pos_ok _ Htok) Hne Hb d) as (Hbal & _).
    rewrite Hbal. specialize (Hl d). specialize (Hl2 d). pose proof DecimalRewards_pos. nia.
  - injection H as <-. split; [|split; [done|apply spares_refl]]. split_and!; [done..|]. intros d. simpl. specialize (Hl d). specialize (Hl2 d).
    apply CoinsIsAllPositive_pos in Hpos; [|done]. rewrite Hpos, AmountOf_nil in Hl2. lia.
Qed.

Lemma BeginBlocker_solvent n ctx w w' : module_ok n w → BeginBlocker_incentive ctx w = Ok w' → module_ok n w'.
Proof using SL KL.
  intros [Hs Hr]. unfold BeginBlocker_incentive. destruct (0 <? HeaderHeight ctx); [|by intros [= <-]].
  unfold HandleCoinsInFeeCollector. destruct (negb _); [by intros [= <-]|]. intros H.
  pose proof Hs as (_ & Hp & _). pose proof (ModuleBalances_law (w_bank w) FeeCollector) as Hb.
  apply bind_Ok in H as (c2 & H2 & H). destruct (BtcStakingPortion (w_params w)) as [p|] eqn:Ep; [|done].
  apply bind_Ok in H as (c1 & H1 & H).
  apply GetCoinsPortion_spec in H1 as [Hc1 _]; [|done|apply Hp; by left].
  assert (coins_ok c2) as Hc2.
  { destruct (FpPortion (w_params w)) as [q|] eqn:Eq; [|injection H2 as <-; apply coins_ok_nil].
    by apply GetCoinsPortion_spec in H2 as [? _]; [|done|apply Hp; right]. }
  apply (accumulateRewards_solvent n) in H as (Hs' & Hr' & Hb'); [|done..]. by apply (module_ok_spares n w _ (conj Hs Hr)).
Qed.

(** *** Steps of the module

    The number counts the periods a step may end. *)
Inductive inc_step {M : Type} {kind : M → MsgKind} {HashMsg : M → bytes} : Z → World B X → World B X → Prop :=
  | step_begin ctx w w' : BeginBlocker_incentive ctx w = Ok w' → inc_step 0 w w'
  | step_activated ctx w fp del sats : 0 ≤ sats →
      inc_step 0 w (set_inc w (AfterBtcDelegationActivated_inc ctx (w_inc w) fp del sats))
  | step_unbonded ctx w fp del sats : 0 ≤ sats →
      inc_step 0 w (set_inc w (AfterBtcDelegationUnbonded_inc ctx (w_inc w) fp del sats))
  | step_reward w h dc voters s' : dist_valid dc voters →
      RewardBTCStaking_incentive (w_inc w) h dc voters = Ok s' →
      inc_step (Z.of_nat (length (events_in (w_inc w) (heightsToProcess (w_inc w) h)))) w (set_inc w s')
  | step_withdraw k w type address w' c : 0 ≤ k →
      (∀ a, AccFromBech32 address = Some a → Z.of_nat (length (delegatorFps (w_inc w) a)) + 2 ≤ k) →
      WithdrawReward w type address = Ok (w', c) → inc_step k w w'
  | step_slashed w fp s' : FpSlashed (w_inc w) fp = Ok s' → inc_step 1 w (set_inc w s')
  | step_address w delegator withdraw w' : SetWithdrawAddress w delegator withdraw = Ok w' → inc_step 0 w w'
  | step_params w authority reqAuthority p w' :
      UpdateParams_incentive w authority reqAuthority p = Ok w' → inc_step 0 w w'
  | step_index w (msg : M) : inc_step 0 w (set_inc w (IndexRefundableMsg_incentive HashMsg (w_inc w) msg))
  | step_post execModeFinalize simulate success w (tx : Tx M) w' :
      (∀ f, feeTx tx = Some f → coins_ok (GetFee f)) →
      PostHandle HashMsg execModeFinalize simulate success w tx = Ok w' → inc_step 0 w w'
  | step_rest k w w' : rest_step k w w' → inc_step k w w'  (* the module behind the hooks *)
  | step_environment w b x :  (* other modules: they do not spend the coins of these *)
      (∀ d, balance (w_bank w) IncentiveModule d ≤ balance b IncentiveModule d) →
      (∀ n, rest_ok n (w_bank w) (w_rest w) → rest_ok n b x) →
      inc_step 0 w (mkWorld (w_inc w) (w_params w) b x).

Inductive inc_run {M : Type} {kind : M → MsgKind} {HashMsg : M → bytes} : Z → World B X → World B X → Prop :=
  | run_refl w : inc_run 0 w w
  | run_step k1 k2 w1 w2 w3 : inc_step (kind := kind) (HashMsg := HashMsg) k1 w1 w2 → inc_run k2 w2 w3 →
      inc_run (k1 + k2) w1 w3.

Lemma tracker_wf_add_event n s h ev : tracker_wf n s → 0 ≤ eventSat ev → tracker_wf n (AddRewardTrackerEvent s h ev).
Proof using.
  intros [A1 A2 A3 A4 A5 A6] Hev. split; try done. intros h' ev'. unfold AddRewardTrackerEvent, GetOrNewRewardTrackerEvent.
  simpl. destruct (decide (h = h')) as [<-|Hne].
  - rewrite lookup_insert_eq. simpl. intros [Hin|Hin]%elem_of_app; [by eapply A6|].
    apply list_elem_of_singleton in Hin as ->. done.
  - rewrite lookup_insert_ne by done. apply A6.
Qed.

Lemma solvent_frame n w s' : solvent n w → tracker_wf n s' → (∀ d, liabilities s' d = liabilities (w_inc w) d) →
  solvent n (set_inc w s').
Proof using. intros Hs Hwf Hl. eapply solvent_set_inc; [done..|]. intros d. by rewrite Hl. Qed.

Lemma tracker_wf_refundable n s m : tracker_wf n s → tracker_wf n (set_refundableMsgs s m).
Proof using. intros []. by split. Qed.

Lemma CheckTx_state {M} (HashMsg : M → bytes) s tx :
  ∃ m, (CheckTxAndClearIndex HashMsg s tx).2 = set_refundableMsgs s m.
Proof using.
  unfold CheckTxAndClearIndex. cbn [snd]. generalize (elements (refundableHashes HashMsg s tx)). intros l.
  revert s. induction l as [|h l IH]; intros s; [exists (refundableMsgs s); by destruct s|].
  simpl. destruct (IH (RemoveRefundableMsg s h)) as [m Hm]. exists m. rewrite Hm. by destruct s.
Qed.

Lemma PostHandle_ok {M} (HashMsg : M → bytes) n e1 e2 e3 w (tx : Tx M) w' : module_ok n w →
  (∀ f, feeTx tx = Some f → coins_ok (GetFee f)) →
  PostHandle HashMsg e1 e2 e3 w tx = Ok w' → module_ok n w'.
Proof using KL.
  intros [Hs Hr] Hfee. unfold PostHandle. destruct (negb e1 && negb e2); [by intros [= <-]|].
  destruct (negb e3); [by intros [= <-]|]. destruct (feeTx tx) as [f|]; [|by intros [= <-]].
  destruct (CheckTxAndClearIndex HashMsg (w_inc w) tx) as [b s] eqn:Hc.
  assert (module_ok n (set_inc w s)) as Hok.
  { split; [|done]. destruct (CheckTx_state HashMsg (w_inc w) tx) as [m Hm]. rewrite Hc in Hm. simpl in Hm. subst s.
    apply (solvent_frame n); [done| |done]. by apply tracker_wf_refundable, Hs. }
  destruct b; [|by intros [= <-]]. destruct (RefundTx (set_inc w s) f) as [w1|e|e] eqn:Hrf; [|by intros [= <-]|done].
  intros [= <-]. revert Hrf. unfold RefundTx. destruct (CoinsIsZero (GetFee f)); [by intros [= <-]|].
  intros H. apply bind_Ok in H as (b & Hb & H). injection H as <-. destruct Hok as [(Hwf & Hp & Hl) Hr1].
  split; [|eapply rest_ok_bank, Hr1; exact (spares_account _ _ _ _ _ (Hfee f eq_refl) (or_intror eq_refl) Hb)].
  split_and!; [done..|]. intros d. simpl. specialize (Hl d).
  destruct (SendToAccount_law _ _ _ _ _ (Hfee f eq_refl) Hb d) as [_ Hm]. specialize (Hm IncentiveModule ltac:(done)).
  simpl in *. pose proof DecimalRewards_pos. nia.
Qed.

Lemma ValidateIncentiveParams_ok p : ValidateIncentiveParams p = Ok () → params_ok p.
Proof using.
  unfold ValidateIncentiveParams. destruct (BtcStakingPortion p) as [a|] eqn:Ea; [|done].
  destruct (Z.ltb_spec a 0); [done|]. destruct (FpPortion p) as [b|] eqn:Eb; [|done].
  destruct (Z.ltb_spec b 0); [done|]. intros _ x. rewrite Ea, Eb. by intros [[= <-]|[= <-]].
Qed.

Lemma inc_step_ok {M} {kind : M → MsgKind} {HashMsg : M → bytes} n k w w' :
  inc_step (kind := kind) (HashMsg := HashMsg) k w w' → module_ok n w → 1 ≤ n → n + k < 2 ^ 64 → 0 ≤ k ∧ module_ok (n + k) w'.
Proof using SL KL HL.
  intros Hstep Hok H1 Hn. destruct Hstep; rewrite ?Z.add_0_r in *; try (split; [lia|]); destruct (Hok) as [Hs Hr].
  - by eapply BeginBlocker_solvent.
  - split; [|done]. apply (solvent_frame n); [done| |done]. by apply tracker_wf_add_event; [apply Hs|].
  - split; [|done]. apply (solvent_frame n); [done| |done]. by apply tracker_wf_add_event; [apply Hs|].
  - destruct (RewardBTCStaking_step n (w_inc w) h dc voters s') as [Hwf Hl]; [apply Hs|done..|].
    split; [by eapply solvent_set_inc|eapply (rest_ok_mono n), Hr; lia].
  - by eapply WithdrawReward_solvent.
  - destruct (FpSlashed_step n (w_inc w) fp s') as [[Hwf _ Hl] _]; [apply Hs|done|lia|done|].
    split; [|eapply (rest_ok_mono n), Hr; lia]. eapply solvent_set_inc; [done..|]. intros d. specialize (Hl d). lia.
  - unfold SetWithdrawAddress in H. destruct (AccFromBech32 delegator), (AccFromBech32 withdraw); try done.
    destruct (BlockedAddr _); [done|]. injection H as <-. split; [|done]. apply (solvent_frame n); [done| |done].
    destruct Hs as [[] _]. by split.
  - unfold UpdateParams_incentive in H. destruct (negb _); [done|].
    destruct (ValidateIncentiveParams p) as [[]|e|e] eqn:Hv; [|done|done]. unfold SetParams_incentive in H.
    rewrite Hv in H. injection H as <-. split; [|done]. destruct Hs as (Hwf & _ & Hl).
    split_and!; [done|by apply ValidateIncentiveParams_ok|done].
  - split; [|done]. apply (solvent_frame n); [done| |done]. by apply tracker_wf_refundable, Hs.
  - by eapply PostHandle_ok.
  - pose proof (rest_step_cost _ _ _ H). split; [done|]. apply (rest_step_law n) in H as [Hs' Hr']; [|done..].
    split; [|done]. eapply solvent_mono; [|done]. lia.
  - split; [|by apply H0]. destruct Hs as (Hwf & Hp & Hl). split_and!; [done..|]. intros d. simpl. etrans; [apply Hl|].
    pose proof DecimalRewards_pos. specialize (H d). nia.
Qed.

Lemma inc_step_cost {M} {kind : M → MsgKind} {HashMsg : M → bytes} k w w' :
  inc_step (kind := kind) (HashMsg := HashMsg) k w w' → 0 ≤ k.
Proof using HL. destruct 1; try lia. by eapply rest_step_cost. Qed.
Lemma inc_run_cost {M} {kind : M → MsgKind} {HashMsg : M → bytes} k w w' :
  inc_run (kind := kind) (HashMsg := HashMsg) k w w' → 0 ≤ k.
Proof using HL. induction 1 as [|k1 k2 w1 w2 w3 Hs%inc_step_cost]; lia. Qed.

Lemma inc_run_ok {M} {kind : M → MsgKind} {HashMsg : M → bytes} k w w' :
  inc_run (kind := kind) (HashMsg := HashMsg) k w w' → ∀ n, module_ok n w → 1 ≤ n → n + k < 2 ^ 64 → module_ok (n + k) w'.
Proof using SL KL HL.
  induction 1 as [w|k1 k2 w1 w2 w3 Hstep Hrun IH]; intros n Hok H1 Hn; [by rewrite Z.add_0_r|].
  pose proof (inc_run_cost _ _ _ Hrun). destruct (inc_step_ok n _ _ _ Hstep) as [Hk Hok2]; [done|done|lia|].
  rewrite Z.add_assoc. apply IH; [done|lia|lia].
Qed.

(** In a solvent state each gauge can be paid out. *)
Lemma solvent_gauge n w t a rg d : solvent n w → GetRewardGauge (w_inc w) t a = Some rg →
  withdrawable rg d ≤ balance (w_bank w) IncentiveModule d.
Proof using.
  intros (Hwf & _ & Hl) Hrg. specialize (Hl d). unfold liabilities in Hl.
  pose proof (owed_total_nonneg n _ d Hwf). pose proof DecimalRewards_pos.
  assert (0 ≤ pending_total (w_inc w) d).
  { unfold pending_total.
    pose proof (sum_map_nonneg (λ _ c, AmountOf c d) (btcStakingGauges (w_inc w))
      (λ h c E, AmountOf_nonneg c d (tw_btcGauges _ _ Hwf h c E))).
    pose proof (sum_map_nonneg (λ _ c, AmountOf c d) (fpDirectGauges (w_inc w))
      (λ h c E, AmountOf_nonneg c d (tw_fpGauges _ _ Hwf h c E))). lia. }
  assert (withdrawable rg d ≤ gauge_total (w_inc w) d); [|nia].
  assert (∀ t m a rg, rewardGauges (w_inc w) !! t = Some m → m !! a = Some rg → 0 ≤ withdrawable rg d) as Hnn.
  { intros t' m a' rg' Hm Ha. assert (gauge_ok rg') as Hok by (apply (tw_gauge _ _ Hwf t' a'); unfold get2; by rewrite Hm).
    pose proof (go_le _ Hok d). unfold withdrawable. lia. }
  unfold GetRewardGauge, get2 in Hrg. destruct (rewardGauges (w_inc w) !! t) as [m|] eqn:Hm; [|done]. simpl in Hrg.
  transitivity (sum_map (λ _ rg, withdrawable rg d) m).
  - pose proof (sum_map_part_le (λ _ rg, withdrawable rg d) m a (λ a rg, Hnn t m a rg Hm)) as Hp.
    unfold part in Hp. rewrite Hrg in Hp. simpl in Hp. lia.
  - pose proof (sum_map_part_le (λ _ m, sum_map (λ _ rg, withdrawable rg d) m) (rewardGauges (w_inc w)) t) as Hp.
    unfold part in Hp. rewrite Hm in Hp. simpl in Hp. unfold gauge_total, sum2. apply Hp.
    intros t' m' Hm'. apply sum_map_nonneg. intros a' rg'. by eapply Hnn.
Qed.

End module.

(** ** An example *)

Definition no_hooks {B} : IncentiveHooks B unit := {| BeforeRewardWithdraw w _ _ := Ok (w, None) |}.
Lemma no_hooks_laws {B} {KB : Bank B} : IncentiveHooksLaws B unit no_hooks.
Proof.
  refine {| rest_ok := λ _ _ _, True; rest_step := λ _ _ _, False |}; simpl; try done.
  by intros n w t a w' err Hs _ _ _ [= <- _].
Defined.

Module Example.
#[local] Existing Instances simple_coins simple_coins_laws simple_bank simple_bank_laws hex_addresses.
#[local] Existing Instances no_hooks no_hooks_laws.

Definition fp : bytes := replicate 20 x01.
Definition del : bytes := replicate 20 x02.
Definition ctx : Ctx := mkCtx 1 [] 0.
Definition coins (l : list (string * Z)) : gmap string Z := list_to_map l.

Definition w0 : World SimpleBank unit :=
  mkWorld empty_incentive DefaultIncentiveParams {[FeeCollector := coins [("ubbn", 1000)]]} tt.
Definition w1 : World SimpleBank unit := set_inc w0 (AfterBtcDelegationActivated_inc ctx (w_inc w0) fp del 100).
Definition w2 : World SimpleBank unit := get_ok w1 (BeginBlocker_incentive ctx w1).

(** One provider with a commission of 10% voted. *)
Definition dc : VotingPowerDistCache :=
  mkDistCache 100 [mkDistInfo example_pk fp (Some (10 ^ 17)) 100 true false false] 1.
Definition voters : gset string := {[MarshalHex example_pk]}.
Definition s3 : IncentiveState :=
  get_ok (w_inc w2) (RewardBTCStaking_incentive (w_inc w2) 1 dc voters).
Definition w3 : World SimpleBank unit := set_inc w2 s3.
Definition r4 : World SimpleBank unit * Coins :=
  get_ok (w3, []) (WithdrawReward w3 "btc_staker" (AccString del)).
Definition w4 : World SimpleBank unit := r4.1.

(** Rewards for a provider with delegations of 1 and 9 satoshis. *)
Definition tracked (c : Coins) : outcome IncentiveState :=
  s ← BtcDelegationActivated empty_incentive fp del 1; s ← BtcDelegationActivated s fp (replicate 20 x03) 9;
  AddFinalityProviderRewardsForBtcDelegations s fp c.

Definition one_coin : Coins := [("ubbn", 108)].
Definition t0 : IncentiveState := get_ok empty_incentive (tracked one_coin).
Definition t1 : IncentiveState := get_ok empty_incentive (btcDelegationModified t0 fp del).

Definition two_coins : Coins := [("ubbn", 108); ("uatom", 5)].
Definition u0 : IncentiveState := get_ok empty_incentive (tracked two_coins).
Definition u1 : IncentiveState := get_ok empty_incentive (btcDelegationModified u0 fp del).

Lemma tracked_wf c s : coins_ok c → tracked c = Ok s → tracker_wf 3 s.
Proof.
  intros Hc H. unfold tracked in H. apply bind_Ok in H as (s1 & H1 & H). apply bind_Ok in H as (s2 & H2 & H).
  apply (BtcDelegationActivated_paid 1) in H1; [|apply tracker_wf_empty|done|done|done].
  apply (BtcDelegationActivated_paid 2) in H2; [|apply H1|done|done|done].
  apply (AddFinalityProviderRewards_step 3) in H as [Hwf _]; [done|apply H2|done].
Qed.

Lemma w0_ok : module_ok 1 w0.
Proof.
  split; [|done]. split_and!.
  - apply tracker_wf_empty.
  - intros x. simpl. intros [[= <-]|[= <-]]; done.
  - intros d. change (w_inc w0) with empty_incentive. rewrite liabilities_empty.
    pose proof (AmountOf_nonneg _ d (bank_coins_ok (w_bank w0) IncentiveModule)) as Hb. pose proof DecimalRewards_pos.
    apply Z.mul_nonneg_nonneg; [exact Hb|lia].
Qed.

Lemma dc_valid : dist_valid dc voters.
Proof.
  split.
  - repeat constructor; [done|]. simpl. by intros c [= <-].
  - apply Z.ltb_lt. vm_compute. reflexivity.
Qed.

Lemma example_run : inc_run (kind := λ _ : unit, KindOther) (HashMsg := λ _, []) (0 + (0 + (1 + (3 + 0)))) w0 w4.
Proof.
  eapply run_step; [by apply (step_activated ctx w0 fp del 100)|].
  eapply (run_step _ _ _ w2).
  { apply (step_begin ctx). unfold w2. apply is_ok_get. vm_compute. reflexivity. }
  eapply (run_step _ _ _ w3).
  { assert (1 = Z.of_nat (length (events_in (w_inc w2) (heightsToProcess (w_inc w2) 1)))) as -> by (vm_compute; reflexivity).
    apply (step_reward w2 1 dc voters s3); [apply dc_valid|]. unfold s3. apply is_ok_get. vm_compute. reflexivity. }
  eapply (run_step _ _ _ w4); [|apply run_refl].
  apply (step_withdraw 3 w3 "btc_staker" (AccString del) w4 r4.2); [done| |].
  - intros a. rewrite AccFromBech32_String. intros [= <-]. apply Z.leb_le. vm_compute. reflexivity.
  - unfold w4. rewrite <- surjective_pairing. unfold r4. apply is_ok_get. vm_compute. reflexivity.
Qed.
End Example.

(** ** Properties *)

(** C16: Solvency of the incentive module. Whatever sequence of its operations
    runs (interception of fees, queued activations and unbondings, rewarding of
    finalised heights, withdrawals with the hook of another module, slashing,
    refunds, and actions of other modules that do not spend its coins), the
    module account holds, in every denomination, at least the sum of all reward
    gauges, of the gauges of heights not rewarded yet and of what the tracker
    owes to delegations; in particular every reward gauge can be paid out in
    full. [k] counts the reward periods the run ends: the period counter is a
    uint64. *)
Theorem module_account_covers_rewards {SC : SdkCoins} {SL : SdkCoinsLaws SC} {BA : Bech32}
    {B X M : Type} {KB : Bank B} {KL : BankLaws B KB} {HK : IncentiveHooks B X} {HL : IncentiveHooksLaws B X HK}
    (kind : M → MsgKind) (HashMsg : M → bytes) (n k : Z) (w w' : World B X) :
  module_ok n w → 1 ≤ n → n + k < 2 ^ 64 → inc_run (kind := kind) (HashMsg := HashMsg) k w w' →
  (∀ d, liabilities (w_inc w') d ≤ balance (w_bank w') IncentiveModule d * DecimalRewards) ∧
  (∀ t a rg d, GetRewardGauge (w_inc w') t a = Some rg →
     withdrawable rg d ≤ balance (w_bank w') IncentiveModule d).
Proof.
  intros Hok H1 Hn Hrun. destruct (inc_run_ok k w w' Hrun n Hok H1 Hn) as [Hs _]. split; [apply Hs|].
  intros t a rg d. by apply (solvent_gauge (n + k)).
Qed.

Lemma module_account_covers_rewards_witness :
  (∀ d, liabilities (w_inc Example.w4) d ≤
     balance (H := simple_bank) (w_bank Example.w4) IncentiveModule d * DecimalRewards) ∧ Example.r4.2 = [("ubbn", 163)].
Proof.
  split; [|vm_compute; reflexivity].
  exact (proj1 (module_account_covers_rewards (SC := simple_coins) (SL := simple_coins_laws) (BA := hex_addresses)
    (KB := simple_bank) (KL := simple_bank_laws) (HK := no_hooks) (HL := no_hooks_laws)
    (λ _ : unit, KindOther) (λ _, []) 1 (0 + (0 + (1 + (3 + 0)))) Example.w0 Example.w4 Example.w0_ok ltac:(lia) ltac:(lia) Example.example_run)).
Defined.

(** What a delegation is owed when a period of its provider ends, in units of
    [1 / DecimalRewards] of a coin: from the periods that ended before, and its
    share of the current rewards. *)
Definition accrued (s : IncentiveState) (fp : bytes) (cur : FinalityProviderCurrentRewards)
    (tr : BTCDelegationRewardsTracker) (d : string) : Z :=
  dueOf (view s fp) d tr
  + dt_TotalActiveSat tr * ((AmountOf (fc_CurrentRewards cur) d * DecimalRewards) `quot` fc_TotalActiveSat cur).

(** C17: Accuracy of a payment. When the trackers are well formed, the provider has
    active satoshis and the period counter, below [n], stays a uint64, a
    delegation of at most 10^20 satoshis that is paid ([btcDelegationModified])
    has accrued, in each coin, what it was owed from ended periods plus its share
    of the current rewards of the provider. The whole part of what it has accrued
    is never above the exact amount and never below it by two coins or more. Its
    gauge is credited exactly this whole part in every coin, unless it has
    accrued less than one whole coin, but not nothing, in some denomination: then
    its gauge is not credited at all, in any coin. Either way it is then owed
    nothing, and its satoshis, the other delegations and the other gauges are
    unchanged. *)
Theorem btcDelegationModified_accuracy {SC : SdkCoins} {SL : SdkCoinsLaws SC} n s fp del s' cur tr :
  tracker_wf n s → 1 ≤ n → n < 2 ^ 64 - 1 →
  fpCurrent s !! fp = Some cur → substore (delTrackers s) fp !! del = Some tr →
  0 < fc_TotalActiveSat cur → dt_TotalActiveSat tr ≤ DecimalRewards →
  btcDelegationModified s fp del = Ok s' →
  let owed := accrued s fp cur tr in
  (∀ d, let exact := dueOf (view s fp) d tr * fc_TotalActiveSat cur
                     + dt_TotalActiveSat tr * AmountOf (fc_CurrentRewards cur) d * DecimalRewards in
        let unit := DecimalRewards * fc_TotalActiveSat cur in
        owed d `quot` DecimalRewards * unit ≤ exact < (owed d `quot` DecimalRewards + 2) * unit) ∧
  ((∀ d, 0 < owed d → DecimalRewards ≤ owed d) →
     ∀ d, gaugeOf s' BTC_STAKER del d = gaugeOf s BTC_STAKER del d + owed d `quot` DecimalRewards) ∧
  ((∃ d, 0 < owed d < DecimalRewards) → ∀ d, gaugeOf s' BTC_STAKER del d = gaugeOf s BTC_STAKER del d) ∧
  (∀ d, default 0 (dueOf (view s' fp) d <$> substore (delTrackers s') fp !! del) = 0) ∧
  satOf s' fp del = dt_TotalActiveSat tr ∧
  (∀ del', del' ≠ del → substore (delTrackers s') fp !! del' = substore (delTrackers s) fp !! del') ∧
  (∀ t a, (t, a) ≠ (BTC_STAKER, del) → GetRewardGauge s' t a = GetRewardGauge s t a).
Proof.
  intros Hwf H1 Hn Hcur Htr HT Hx H owed.
  pose proof (btcDelegationModified_paid n s fp del s' Hwf H1 Hn H) as Hpaid.
  destruct (dp_gauge _ _ _ _ _ _ Hpaid) as (r & Hr & Hrd & Hg).
  pose proof (tw_pool _ _ Hwf fp) as Hok. unfold pool_ok in Hok. simpl in Hok. rewrite Hcur in Hok.
  destruct (po_trk _ _ _ Hok del tr Htr) as [_ Hs].
  apply (rounded_ext _ _ owed) in Hrd; [|intros d; unfold owed, accrued, per_sat; rewrite Htr; simpl; rewrite Hcur;
    by rewrite (proj2 (Z.eqb_neq _ _)) by lia].
  assert (∀ d, 0 ≤ owed d) as Hnn.
  { intros d. pose proof (dueOf_nonneg n (view s fp) cur d del tr Hok Hcur Htr).
    pose proof (AmountOf_nonneg _ d (po_cur _ _ _ Hok)). pose proof DecimalRewards_pos.
    apply Z.add_nonneg_nonneg; [done|]. apply Z.mul_nonneg_nonneg; [done|]. apply Z.quot_pos; nia. }
  pose proof (rounded_credit _ _ _ DecimalRewards_pos Hnn Hrd) as Hcredit. split_and!.
  - intros d. apply payout_bounds; [by apply (dueOf_nonneg n _ cur d del)|done|done|apply AmountOf_nonneg, Hok|done].
  - intros Hall d. rewrite <- (proj1 Hcredit Hall d). exact (ga_amount _ _ _ _ _ Hg d).
  - intros Hex d. pose proof (ga_amount _ _ _ _ _ Hg d) as Hd. rewrite (proj2 Hcredit Hex) in Hd.
    etrans; [exact Hd|apply Z.add_0_r].
  - apply Hpaid.
  - rewrite (dp_sat _ _ _ _ _ _ Hpaid). unfold satOf. by rewrite Htr.
  - apply Hpaid.
  - intros t a. apply (ga_others _ _ _ _ _ Hg).
Qed.

Lemma btcDelegationModified_accuracy_witness :
  default 0 (flip withdrawable "ubbn" <$> GetRewardGauge Example.t1 BTC_STAKER Example.del) = 10 ∧
  satOf Example.t1 Example.fp Example.del = 1.
Proof.
  split; [vm_compute; reflexivity|].
  assert (∃ cur, fpCurrent Example.t0 !! Example.fp = Some cur ∧ 0 < fc_TotalActiveSat cur) as (cur & Hcur & HT)
    by (eexists; split; [vm_compute; reflexivity|done]).
  assert (∃ tr, substore (delTrackers Example.t0) Example.fp !! Example.del = Some tr ∧ dt_TotalActiveSat tr = 1)
    as (tr & Htr & H1) by (eexists; split; [vm_compute; reflexivity|done]).
  assert (tracker_wf 3 Example.t0) as Hwf.
  { apply (Example.tracked_wf Example.one_coin); [|unfold Example.t0; apply is_ok_get; vm_compute; reflexivity]. split; [apply NoDup_singleton|].
    by repeat constructor. }
  destruct (btcDelegationModified_accuracy (SC := simple_coins) (SL := simple_coins_laws) 3 Example.t0 Example.fp
    Example.del Example.t1 cur tr Hwf ltac:(done) ltac:(done) Hcur Htr HT ltac:(rewrite H1; done)) as (_ & _ & _ & _ & Hs & _).
  - unfold Example.t1. apply is_ok_get. vm_compute. reflexivity.
  - by rewrite Hs.
Defined.

(** The rewards of a delegation are lost when one of its coins rounds down
    to zero: here 10 ubbn are computed for it next to 0 uatom, its gauge is not
    credited since not every amount is positive, and its starting period moves
    on, so that it is owed nothing any more. *)
Theorem truncated_coin_loses_rewards :
  (r ← IncrementFinalityProviderPeriod (SC := simple_coins) Example.u0 Example.fp;
   CalculateBTCDelegationRewards (SC := simple_coins) r.2 Example.fp Example.del r.1) = Ok [("uatom", 0); ("ubbn", 10)] ∧
  btcDelegationModified (SC := simple_coins) Example.u0 Example.fp Example.del = Ok Example.u1 ∧
  GetRewardGauge Example.u1 BTC_STAKER Example.del = None ∧
  default 0 (dueOf (view Example.u1 Example.fp) "ubbn" <$> substore (delTrackers Example.u1) Example.fp !! Example.del) = 0.
Proof.
  split_and!; [vm_compute; reflexivity|unfold Example.u1; apply is_ok_get|..]; vm_compute; reflexivity.
Qed.
