(* ===== verification/IncentiveGenesis.v ===== *)
(** * x/incentive: genesis

    Validation, import and export of the module's state (types/genesis.go, the
    Validate methods of types/rewards.go and types/incentive.go, keeper/genesis.go,
    genesis.go). The export validates what it writes, and the validation refuses
    coins that are empty: once a provider has a delegation, the export panics. *)

From S2P Require Import Prelude Bytes Store BbnTypes BtcStaking Coins RewardTracker Incentive.

(** [Coins.IsValid] and [Coins.IsAnyGT] of the SDK. *)
Class SdkCoinChecks := { CoinsIsValid : Coins → bool; CoinsIsAnyGT : Coins → Coins → bool }.

(** ** Records

    [None] is a nil pointer. *)
Record RewardGaugeEntry := mkRewardGaugeEntry { rge_StakeholderType : StakeholderType; rge_Address : string; rge_RewardGauge : option RewardGauge }.
Record WithdrawAddressEntry := mkWithdrawEntry { wa_DelegatorAddress : string; wa_WithdrawAddress : string }.
Record FpCurrentRewardsEntry := mkFpCurrentEntry { fce_Address : string; fce_Rewards : option FinalityProviderCurrentRewards }.
Record FpHistoricalRewardsEntry := mkFpHistoricalEntry { fhe_Address : string; fhe_Period : Z; fhe_Rewards : option Coins }.
Record DelegationTrackerEntry := mkTrackerEntry { bde_FpAddress : string; bde_DelAddress : string; bde_Tracker : option BTCDelegationRewardsTracker }.
Record DelegatorToFpEntry := mkDelToFpEntry { dfe_DelAddress : string; dfe_FpAddress : string }.
Record IncentiveGenesis := mkIncentiveGenesis {
  ig_Params : IncentiveParams;
  ig_BtcStakingGauges : list (Z * option Coins);
  ig_RewardGauges : list RewardGaugeEntry;
  ig_WithdrawAddresses : list WithdrawAddressEntry;
  ig_RefundableMsgHashes : list string;
  ig_FpCurrentRewards : list FpCurrentRewardsEntry;
  ig_FpHistoricalRewards : list FpHistoricalRewardsEntry;
  ig_Trackers : list DelegationTrackerEntry;
  ig_DelegatorsToFps : list DelegatorToFpEntry;
  ig_EventRewardTracker : list (Z * option (list EventPowerUpdate));
  ig_LastProcessedHeight : Z;
  ig_FpDirectGauges : list (Z * option Coins)
}.
Definition DefaultIncentiveGenesis : IncentiveGenesis := mkIncentiveGenesis DefaultIncentiveParams [] [] [] [] [] [] [] [] [] 0 [].

Definition nonNilPtr {A} (x : option A) : outcome A := match x with Some a => Ok a | None => Panic (Errorf "nil pointer dereference") end.

Section genesis.
Context {SC : SdkCoins} {CC : SdkCoinChecks} {BA : Bech32}.

(** ** Validation of the records *)

(** Amounts are never nil in the model. *)
Definition validateCoins (what : string) (c : Coins) : outcome unit :=
  if negb (CoinsIsValid c) then Err (Errorf (what +:+ " has invalid coins"))
  else if (length c =? 0)%nat then Err (Errorf (what +:+ " has no coins")) else Ok tt.
Definition Gauge_Validate (g : Coins) : outcome unit := validateCoins "gauge" g.
Definition RewardGauge_Validate (rg : RewardGauge) : outcome unit :=
  if negb (CoinsIsValid (rg_Coins rg)) then Err (Errorf "reward gauge has invalid or negative coins")
  else if negb (CoinsIsValid (rg_WithdrawnCoins rg)) then Err (Errorf "reward gauge has invalid or negative withdrawn coins")
  else if CoinsIsAnyGT (rg_WithdrawnCoins rg) (rg_Coins rg) then Err (Errorf "withdrawn coins cannot exceed total coins")
  else if (length (rg_Coins rg) =? 0)%nat && (length (rg_WithdrawnCoins rg) =? 0)%nat then Err (Errorf "reward gauge has no coins")
  else foldM (λ _ (wc : string * Z),
    if negb (0 <? AmountOf (rg_Coins rg) wc.1) then Err (Errorf "withdrawn coin denomination does not exist in reward coins") else Ok tt)
    tt (rg_WithdrawnCoins rg).
Definition FpCurrentRewards_Validate (f : FinalityProviderCurrentRewards) : outcome unit :=
  _ ← validateCoins "current rewards" (fc_CurrentRewards f);
  if fc_TotalActiveSat f <? 0 then Err (Errorf "current rewards has a negative total active satoshi delegated value")
  else if fc_Period f <=? 0 then Err (Errorf "fp current rewards period must be positive") else Ok tt.
Definition Tracker_Validate (t : BTCDelegationRewardsTracker) : outcome unit :=
  if dt_TotalActiveSat t <? 0 then Err (Errorf "btc delegation rewards tracker has a negative total active satoshi delegated value") else Ok tt.
Definition FpHistoricalRewards_Validate (hr : Coins) : outcome unit := validateCoins "cummulative rewards per sat" hr.
Definition validateAddrStr_inc (addr : string) : outcome unit :=
  if bool_decide (addr = ""%string) then Err (Errorf "empty address")
  else match AccFromBech32 addr with None => Err (Errorf "invalid address") | Some _ => Ok tt end.
Definition EventsPowerUpdate_Validate (events : list EventPowerUpdate) : outcome unit :=
  foldM (λ _ ev,
    let '(fpAddr, delAddr, totalSat) := match ev with BtcActivated a b c | BtcUnbonded a b c => (a, b, c) end in
    _ ← wrapf "invalid event finality provider" (validateAddrStr_inc fpAddr);
    _ ← wrapf "invalid event btc delegator" (validateAddrStr_inc delAddr);
    if totalSat <=? 0 then Err (Errorf "invalid event total_sat: must be positive") else Ok tt) tt events.

(** ** Validation of the entries *)

Definition GaugeEntry_Validate (e : Z * option Coins) : outcome unit :=
  match e.2 with None => Err (Errorf "gauge at height has nil Gauge") | Some g => wrapf "invalid gauge at height" (Gauge_Validate g) end.
Definition RewardGaugeEntry_Validate (e : RewardGaugeEntry) : outcome unit :=
  _ ← validateAddrStr_inc (rge_Address e);
  match rge_RewardGauge e with
  | None => Err (Errorf "reward gauge for address is nil")
  | Some rg => wrapf "invalid reward gauge for address" (RewardGauge_Validate rg)
  end.
Definition WithdrawAddressEntry_Validate (e : WithdrawAddressEntry) : outcome unit :=
  _ ← wrapf "invalid delegator" (validateAddrStr_inc (wa_DelegatorAddress e)); wrapf "invalid withdrawer" (validateAddrStr_inc (wa_WithdrawAddress e)).
Definition FpCurrentRewardsEntry_Validate (e : FpCurrentRewardsEntry) : outcome unit :=
  _ ← wrapf "invalid finality provider" (validateAddrStr_inc (fce_Address e));
  match fce_Rewards e with
  | None => Err (Errorf "current rewards for address is nil")
  | Some r => wrapf "invalid current rewards for address" (FpCurrentRewards_Validate r)
  end.
Definition FpHistoricalRewardsEntry_Validate (e : FpHistoricalRewardsEntry) : outcome unit :=
  _ ← wrapf "invalid finality provider" (validateAddrStr_inc (fhe_Address e));
  match fhe_Rewards e with
  | None => Err (Errorf "historical rewards for address is nil")
  | Some r => wrapf "invalid historical rewards for address" (FpHistoricalRewards_Validate r)
  end.
Definition DelegationTrackerEntry_Validate (e : DelegationTrackerEntry) : outcome unit :=
  _ ← wrapf "invalid finality provider" (validateAddrStr_inc (bde_FpAddress e));
  _ ← wrapf "invalid delegator" (validateAddrStr_inc (bde_DelAddress e));
  match bde_Tracker e with None => Err (Errorf "tracker is nil") | Some t => wrapf "invalid tracker" (Tracker_Validate t) end.
Definition DelegatorToFpEntry_Validate (e : DelegatorToFpEntry) : outcome unit :=
  _ ← wrapf "invalid finality provider" (validateAddrStr_inc (dfe_FpAddress e)); wrapf "invalid delegator" (validateAddrStr_inc (dfe_DelAddress e)).
Definition EventsEntry_Validate (e : Z * option (list EventPowerUpdate)) : outcome unit := events ← nonNilPtr e.2; EventsPowerUpdate_Validate events.

(** ** Validation of the lists *)

Definition validateRewardGauges (entries : list RewardGaugeEntry) : outcome unit :=
  m ← foldM (λ (addressTypeMap : gset (string * StakeholderType)) entry,
    if bool_decide ((rge_Address entry, rge_StakeholderType entry) ∈ addressTypeMap) then Err (Errorf "duplicate reward gauge for address and type")
    else _ ← RewardGaugeEntry_Validate entry; Ok ({[(rge_Address entry, rge_StakeholderType entry)]} ∪ addressTypeMap)) ∅ entries;
  let _ : gset (string * StakeholderType) := m in Ok tt.
Fixpoint validateMsgHashes_from (hashMap : gset string) (hashes : list string) : outcome unit :=
  match hashes with
  | [] => Ok tt
  | hash :: hashes =>
    if bool_decide (hash = ""%string) then Err (Errorf "empty hash")
    else match hex_decode hash with
         | None => Err (Errorf "error decoding msg hash")
         | Some bz =>
           if bool_decide (length bz ≠ 32%nat) then Err (Errorf "hash size")
           else if bool_decide (hash ∈ hashMap) then Err (Errorf "duplicate hash")
           else validateMsgHashes_from ({[hash]} ∪ hashMap) hashes
         end
  end.
Definition validateMsgHashes (hashes : list string) : outcome unit := validateMsgHashes_from ∅ hashes.

(** The current period of each provider; the entries have been validated. *)
Definition fpCurrentPeriods (entries : list FpCurrentRewardsEntry) : outcome (gmap string Z) :=
  foldM (λ m e, r ← nonNilPtr (fce_Rewards e); Ok (<[fce_Address e := fc_Period r]> m)) ∅ entries.

(** The loops over maps stop at the first error; their order only decides which. *)
Definition validateFPHistoricalRewards (entries : list FpHistoricalRewardsEntry) (periodsOf : gmap string Z) : outcome unit :=
  addressPeriodMap ← foldM (λ (m : gmap string (gset Z)) entry,
    let periods := default ∅ (m !! fhe_Address entry) in
    if bool_decide (fhe_Period entry ∈ periods) then Err (Errorf "duplicate historical rewards for address and period")
    else _ ← FpHistoricalRewardsEntry_Validate entry; Ok (<[fhe_Address entry := {[fhe_Period entry]} ∪ periods]> m)) ∅ entries;
  _ ← foldM (λ _ '(fpAddr, currentPeriod),
    if 0 <? currentPeriod then
      match (addressPeriodMap : gmap string (gset Z)) !! fpAddr with
      | None => Err (Errorf "finality provider has current rewards but no historical rewards")
      | Some periods =>
        if forallb (λ p, bool_decide (p ∈ periods)) (seqZ 0 currentPeriod) then Ok tt else Err (Errorf "finality provider is missing historical rewards")
      end
    else Ok tt) tt (map_to_list periodsOf);
  foldM (λ _ '(fpAddr, periods),
    match periodsOf !! fpAddr with
    | None => Err (Errorf "finality provider has historical rewards but no current rewards")
    | Some currentPeriod =>
      if existsb (λ p, currentPeriod <=? p) (elements (periods : gset Z)) then Err (Errorf "historical rewards for a period which is >= current period") else Ok tt
    end) tt (map_to_list addressPeriodMap).

(** A set of pairs is Go's map of maps, in which no inner map is empty. *)
Definition validateBTCDelegationsRewardsTrackers (entries : list DelegationTrackerEntry) (periodsOf : gmap string Z) : outcome (gset (string * string)) :=
  foldM (λ m entry,
    if bool_decide ((bde_FpAddress entry, bde_DelAddress entry) ∈ (m : gset (string * string))) then Err (Errorf "duplicate btc delegation rewards tracker")
    else
      _ ← DelegationTrackerEntry_Validate entry;
      match periodsOf !! bde_FpAddress entry with
      | None => Err (Errorf "delegation tracker exists but FP has no current rewards")
      | Some currentPeriod =>
        tracker ← nonNilPtr (bde_Tracker entry);
        if currentPeriod <=? dt_StartPeriod tracker then Err (Errorf "StartPeriodCumulativeReward >= FP's current period")
        else Ok ({[(bde_FpAddress entry, bde_DelAddress entry)]} ∪ m)
      end) ∅ entries.
Definition validateBTCDelegatorsToFps (entries : list DelegatorToFpEntry) : outcome (gset (string * string)) :=
  foldM (λ m entry,
    if bool_decide ((dfe_FpAddress entry, dfe_DelAddress entry) ∈ (m : gset (string * string))) then Err (Errorf "duplicate entry")
    else _ ← DelegatorToFpEntry_Validate entry; Ok ({[(dfe_FpAddress entry, dfe_DelAddress entry)]} ∪ m)) ∅ entries.

Definition IncentiveGenesis_Validate (gs : IncentiveGenesis) : outcome unit :=
  _ ← wrapf "invalid BTC staking gauges" (ValidateEntries fst GaugeEntry_Validate (ig_BtcStakingGauges gs));
  _ ← wrapf "invalid reward gauges" (validateRewardGauges (ig_RewardGauges gs));
  _ ← wrapf "invalid withdraw addresses" (ValidateEntries wa_DelegatorAddress WithdrawAddressEntry_Validate (ig_WithdrawAddresses gs));
  _ ← wrapf "invalid msg hashes" (validateMsgHashes (ig_RefundableMsgHashes gs));
  _ ← wrapf "invalid finality providers current rewards" (ValidateEntries fce_Address FpCurrentRewardsEntry_Validate (ig_FpCurrentRewards gs));
  periodsOf ← fpCurrentPeriods (ig_FpCurrentRewards gs);
  _ ← wrapf "invalid finality providers historical rewards" (validateFPHistoricalRewards (ig_FpHistoricalRewards gs) periodsOf);
  _ ← wrapf "invalid events from reward tracker" (ValidateEntries fst EventsEntry_Validate (ig_EventRewardTracker gs));
  btcRewardsAddrMap ← wrapf "invalid BTC delegations rewards trackers" (validateBTCDelegationsRewardsTrackers (ig_Trackers gs) periodsOf);
  addrMap ← wrapf "invalid BTC delegators to finality providers" (validateBTCDelegatorsToFps (ig_DelegatorsToFps gs));
  if bool_decide (btcRewardsAddrMap ≠ addrMap) then Err (Errorf "BTC delegators to finality providers map is not equal to the btc delegations data")
  else
    _ ← wrapf "invalid FP direct gauges" (ValidateEntries fst GaugeEntry_Validate (ig_FpDirectGauges gs));
    ValidateIncentiveParams (ig_Params gs).
End genesis.

(** ** keeper/genesis.go *)

Section keeper.
Context {SC : SdkCoins} {CC : SdkCoinChecks} {BA : Bech32} {B X : Type}.
(** [accountKeeper.GetAccount] finds an account. *)
Context (HasAccount : bytes → bool).

Definition accountOf (addr : string) : outcome bytes :=
  a ← mustAddr addr; if negb (HasAccount a) then Err (Errorf "account does not exist") else Ok a.

Definition initStakingGauge (ctx : Ctx) (s : IncentiveState) (e : Z * option Coins) : outcome IncentiveState :=
  if u64 (HeaderHeight ctx) <? e.1 then Err (Errorf "BTC staking gauge height is higher than current block height")
  else g ← nonNilPtr e.2; Ok (SetBTCStakingGauge s e.1 g).
Definition initDirectGauge (s : IncentiveState) (e : Z * option Coins) : outcome IncentiveState :=
  g ← nonNilPtr e.2; Ok (SetFPDirectGauge s e.1 g).
Definition initRewardGauge (s : IncentiveState) (e : RewardGaugeEntry) : outcome IncentiveState :=
  accAddr ← accountOf (rge_Address e); rg ← nonNilPtr (rge_RewardGauge e); Ok (SetRewardGauge s (rge_StakeholderType e) accAddr rg).
Definition initWithdrawAddress (s : IncentiveState) (e : WithdrawAddressEntry) : outcome IncentiveState :=
  delAddr ← accountOf (wa_DelegatorAddress e); withdrawAddr ← mustAddr (wa_WithdrawAddress e); Ok (SetWithdrawAddr s delAddr withdrawAddr).
Definition initMsgHash (s : IncentiveState) (hash : string) : outcome IncentiveState :=
  match hex_decode hash with
  | None => Err (Errorf "error decoding msg hash")
  | Some bz => Ok (set_refundableMsgs s ({[bz]} ∪ refundableMsgs s))
  end.
Definition initCurrentRewards (s : IncentiveState) (e : FpCurrentRewardsEntry) : outcome IncentiveState :=
  fpAddr ← accountOf (fce_Address e); r ← nonNilPtr (fce_Rewards e); Ok (SetFinalityProviderCurrentRewards s fpAddr r).
Definition initHistoricalRewards (s : IncentiveState) (e : FpHistoricalRewardsEntry) : outcome IncentiveState :=
  fpAddr ← accountOf (fhe_Address e); r ← nonNilPtr (fhe_Rewards e); Ok (setFinalityProviderHistoricalRewards s fpAddr (fhe_Period e) r).
Definition initTracker (s : IncentiveState) (e : DelegationTrackerEntry) : outcome IncentiveState :=
  fpAddr ← accountOf (bde_FpAddress e); delAddr ← accountOf (bde_DelAddress e); t ← nonNilPtr (bde_Tracker e);
  Ok (setBTCDelegationRewardsTracker s fpAddr delAddr t).
Definition SetRewardTrackerEvent (s : IncentiveState) (height : Z) (ev : list EventPowerUpdate) : IncentiveState :=
  set_rewardTrackerEvents s (<[height := ev]> (rewardTrackerEvents s)).
Definition initEvents (s : IncentiveState) (e : Z * option (list EventPowerUpdate)) : outcome IncentiveState :=
  ev ← nonNilPtr e.2; Ok (SetRewardTrackerEvent s e.1 ev).
Definition SetRewardTrackerEventLastProcessedHeight (s : IncentiveState) (blkHeight : Z) : IncentiveState := set_lastProcessedHeight s (Some blkHeight).

Definition InitGenesis_inc_keeper (ctx : Ctx) (w : World B X) (gs : IncentiveGenesis) : outcome (World B X) :=
  s ← foldM (initStakingGauge ctx) (w_inc w) (ig_BtcStakingGauges gs);
  s ← foldM initDirectGauge s (ig_FpDirectGauges gs);
  s ← foldM initRewardGauge s (ig_RewardGauges gs);
  s ← foldM initWithdrawAddress s (ig_WithdrawAddresses gs);
  s ← foldM initMsgHash s (ig_RefundableMsgHashes gs);
  s ← foldM initCurrentRewards s (ig_FpCurrentRewards gs);
  s ← foldM initHistoricalRewards s (ig_FpHistoricalRewards gs);
  s ← foldM initTracker s (ig_Trackers gs);
  s ← foldM initEvents s (ig_EventRewardTracker gs);
  if u64 (HeaderHeight ctx) <? ig_LastProcessedHeight gs then Err (Errorf "invalid latest processed block height")
  else SetParams_incentive (set_inc w (SetRewardTrackerEventLastProcessedHeight s (ig_LastProcessedHeight gs))) (ig_Params gs).
Definition InitGenesis_incentive (ctx : Ctx) (w : World B X) (gs : IncentiveGenesis) : outcome (World B X) :=
  _ ← must (IncentiveGenesis_Validate gs); must (InitGenesis_inc_keeper ctx w gs).

(** *** Export

    An entry is appended after its validation. *)
Definition validated {E} (validate : E → outcome unit) (e : E) : outcome E := _ ← validate e; Ok e.

Definition exportStakingGauges (s : IncentiveState) : outcome (list (Z * option Coins)) :=
  mapM (λ kv : Z * Coins, validated GaugeEntry_Validate (kv.1, Some kv.2)) (iterZ (btcStakingGauges s)).
Definition exportDirectGauges (s : IncentiveState) : outcome (list (Z * option Coins)) :=
  mapM (λ kv : Z * Coins, validated GaugeEntry_Validate (kv.1, Some kv.2)) (iterZ (fpDirectGauges s)).
Definition GetAllStakeholderTypes : list StakeholderType := [FINALITY_PROVIDER; BTC_STAKER; COSTAKER].
Definition exportRewardGauges (s : IncentiveState) : outcome (list RewardGaugeEntry) :=
  mapM (λ e : StakeholderType * (bytes * RewardGauge), validated RewardGaugeEntry_Validate (mkRewardGaugeEntry e.1 (AccString e.2.1) (Some e.2.2)))
    (GetAllStakeholderTypes ≫= λ st, pair st <$> iterB (substore (rewardGauges s) st)).
Definition exportWithdrawAddresses (s : IncentiveState) : list WithdrawAddressEntry :=
  (λ kv, mkWithdrawEntry (AccString kv.1) (AccString kv.2)) <$> iterB (withdrawAddrs s).
Definition exportMsgHashes (s : IncentiveState) : list string := hex_encode <$> sort_stable bytes_less (elements (refundableMsgs s)).
Definition finalityProvidersCurrentRewards (s : IncentiveState) : outcome (list FpCurrentRewardsEntry) :=
  mapM (λ kv : bytes * FinalityProviderCurrentRewards, validated FpCurrentRewardsEntry_Validate (mkFpCurrentEntry (AccString kv.1) (Some kv.2)))
    (iterB (fpCurrent s)).
Definition finalityProvidersHistoricalRewards (s : IncentiveState) : outcome (list FpHistoricalRewardsEntry) :=
  mapM (λ e : bytes * (Z * Coins), validated FpHistoricalRewardsEntry_Validate (mkFpHistoricalEntry (AccString e.1) e.2.1 (Some e.2.2)))
    (iterB (fpHistorical s) ≫= λ km, pair km.1 <$> iterZ km.2).
Definition btcDelegationRewardsTrackers (s : IncentiveState) : outcome (list DelegationTrackerEntry) :=
  mapM (λ e : bytes * (bytes * BTCDelegationRewardsTracker),
    validated DelegationTrackerEntry_Validate (mkTrackerEntry (AccString e.1) (AccString e.2.1) (Some e.2.2)))
    (iterB (delTrackers s) ≫= λ km, pair km.1 <$> iterB km.2).
(** The key is the delegator followed by the provider; the first 20 bytes are taken
    for the delegator. *)
Definition btcDelegatorsToFps (s : IncentiveState) : outcome (list DelegatorToFpEntry) :=
  mapM (λ e : bytes * bytes,
    let key := e.1 ++ e.2 in
    if (length key <? 40)%nat then Err (Errorf "invalid key length")
    else validated DelegatorToFpEntry_Validate (mkDelToFpEntry (AccString (take 20 key)) (AccString (drop 20 key))))
    (iterB (delToFp s) ≫= λ km, pair km.1 <$> (iterB km.2).*1).
Definition rewardTrackerEventsEntry (s : IncentiveState) : outcome (list (Z * option (list EventPowerUpdate))) :=
  mapM (λ kv : Z * list EventPowerUpdate, validated EventsEntry_Validate (kv.1, Some kv.2)) (iterZ (rewardTrackerEvents s)).

Definition ExportGenesis_inc_keeper (w : World B X) : outcome IncentiveGenesis :=
  let s := w_inc w in
  bsg ← exportStakingGauges s;
  rg ← exportRewardGauges s;
  fpCurrentRwd ← finalityProvidersCurrentRewards s;
  fpHistRwd ← finalityProvidersHistoricalRewards s;
  bdrt ← btcDelegationRewardsTrackers s;
  d2fp ← btcDelegatorsToFps s;
  evtsRwdTracker ← rewardTrackerEventsEntry s;
  fpDirect ← exportDirectGauges s;
  Ok (mkIncentiveGenesis (w_params w) bsg rg (exportWithdrawAddresses s) (exportMsgHashes s) fpCurrentRwd fpHistRwd bdrt d2fp evtsRwdTracker
        (GetRewardTrackerEventLastProcessedHeight s) fpDirect).
Definition ExportGenesis_incentive (w : World B X) : outcome IncentiveGenesis := must (ExportGenesis_inc_keeper w).

(** ** Theorems *)

(** A provider without current rewards, or with an empty entry of its history. *)
Definition unexportable (s : IncentiveState) : Prop :=
  (∃ fp cur, fpCurrent s !! fp = Some cur ∧ fc_CurrentRewards cur = []) ∨ (∃ fp p, get2 fp p (fpHistorical s) = Some []).

Lemma mapM_elem_fails {A E} (f : A → outcome E) l x : x ∈ l → is_ok (f x) = false → is_ok (mapM f l) = false.
Proof.
  intros Hx Hf. induction l as [|y l IH]; [by apply elem_of_nil in Hx|]. simpl. apply elem_of_cons in Hx as [<-|Hx].
  - by destruct (f x).
  - destruct (f y); [|done..]. simpl. specialize (IH Hx). by destruct (mapM f l).
Qed.

Lemma empty_coins_invalid what : is_ok (validateCoins what []) = false.
Proof. unfold validateCoins. by destruct (CoinsIsValid []). Qed.

Lemma current_fails s fp cur :
  fpCurrent s !! fp = Some cur → fc_CurrentRewards cur = [] → is_ok (finalityProvidersCurrentRewards s) = false.
Proof.
  intros Hc E. eapply mapM_elem_fails; [by apply elem_of_iterB|]. unfold validated, FpCurrentRewardsEntry_Validate. cbn.
  destruct (wrapf _ (validateAddrStr_inc _)) as [[]| |]; [|done..]. cbn. unfold FpCurrentRewards_Validate. rewrite E.
  pose proof (empty_coins_invalid "current rewards") as Hv. by destruct (validateCoins _ []).
Qed.

Lemma historical_fails s fp p : get2 fp p (fpHistorical s) = Some [] → is_ok (finalityProvidersHistoricalRewards s) = false.
Proof.
  intros Hp. unfold get2 in Hp. destruct (fpHistorical s !! fp) as [m|] eqn:Hm; simpl in Hp; [|by rewrite lookup_empty in Hp].
  eapply (mapM_elem_fails _ _ (fp, (p, []))).
  - apply list_elem_of_bind. exists (fp, m). rewrite elem_of_iterB. split; [|done]. apply list_elem_of_fmap. exists (p, []). by rewrite elem_of_iterZ.
  - unfold validated, FpHistoricalRewardsEntry_Validate. cbn. destruct (wrapf _ (validateAddrStr_inc _)) as [[]| |]; [|done..]. cbn.
    unfold FpHistoricalRewards_Validate. pose proof (empty_coins_invalid "cummulative rewards per sat") as Hv. by destruct (validateCoins _ []).
Qed.

Lemma unexportable_panics w : unexportable (w_inc w) → ∃ e, ExportGenesis_incentive w = Panic e.
Proof.
  intros Hu. assert (Hf : is_ok (ExportGenesis_inc_keeper w) = false).
  { unfold ExportGenesis_inc_keeper. destruct (exportStakingGauges _); [|done..]. destruct (exportRewardGauges _); [|done..].
    cbn [mbind outcome_bind]. destruct Hu as [(fp & cur & Hc & E)|(fp & p & Hp)].
    - apply current_fails in Hc; [|done]. by destruct (finalityProvidersCurrentRewards _).
    - destruct (finalityProvidersCurrentRewards _); [|done..]. cbn [mbind outcome_bind]. apply historical_fails in Hp.
      by destruct (finalityProvidersHistoricalRewards _). }
  unfold ExportGenesis_incentive. destruct (ExportGenesis_inc_keeper w); [done|by eexists..].
Qed.
End keeper.

Section history.
Context {SC : SdkCoins} {CC : SdkCoinChecks} {BA : Bech32}.

(** [fp] has just started a period. *)
Definition fresh (s : IncentiveState) (fp : bytes) : Prop := ∃ cur, fpCurrent s !! fp = Some cur ∧ fc_CurrentRewards cur = [].

Lemma fresh_ext s s' fp : fpCurrent s' = fpCurrent s → fresh s fp → fresh s' fp.
Proof. intros E (cur & Hc & Hn). exists cur. by rewrite E. Qed.

Lemma fresh_set s fp c p t : c = [] → fresh (SetFinalityProviderCurrentRewards s fp (mkFpCurrentRewards c p t)) fp.
Proof. intros ->. eexists. unfold SetFinalityProviderCurrentRewards. simpl. by rewrite lookup_insert_eq. Qed.

Lemma Increment_fresh s fp e s' : IncrementFinalityProviderPeriod s fp = Ok (e, s') → fresh s' fp.
Proof.
  unfold IncrementFinalityProviderPeriod. destruct (fpCurrent s !! fp) as [cur|]; intros H.
  - do 3 (apply bind_Ok in H as (? & _ & H)). injection H as _ <-. by apply fresh_set.
  - injection H as _ <-. by apply fresh_set.
Qed.

Lemma sendToGauge_current s fp del e s' : CalculateBTCDelegationRewardsAndSendToGauge s fp del e = Ok s' → fpCurrent s' = fpCurrent s.
Proof.
  unfold CalculateBTCDelegationRewardsAndSendToGauge. intros H. apply bind_Ok in H as (rewards & _ & H).
  destruct (CoinsIsZero rewards); [by injection H as <-|]. unfold accumulateRewardGauge in H.
  destruct (negb _); [by injection H as <-|]. by apply bind_Ok in H as (rg & _ & [= <-]).
Qed.

Lemma addDelegationSat_fresh amt s fp del s' : fresh s fp → addDelegationSat amt s fp del = Ok s' → fresh s' fp.
Proof.
  intros (cur & Hc & Hn). unfold addDelegationSat, addFinalityProviderStaked. simpl. rewrite Hc. intros [= <-]. by apply fresh_set.
Qed.

Lemma subDelegationSat_fresh amt s fp del s' : fresh s fp → subDelegationSat amt s fp del = Ok s' → fresh s' fp.
Proof.
  intros (cur & Hc & Hn). unfold subDelegationSat, subFinalityProviderStaked, GetFinalityProviderCurrentRewards. intros H.
  apply bind_Ok in H as (tr & _ & H). destruct (_ <? 0); [done|]. simpl in H. rewrite Hc in H. simpl in H.
  destruct (_ <? 0); [done|]. injection H as <-. by apply fresh_set.
Qed.

Lemma modified_fresh s fp del pre s' :
  (∀ s1 s2, fresh s1 fp → pre s1 fp del = Ok s2 → fresh s2 fp) → btcDelegationModifiedWithPreInitDel s fp del pre = Ok s' → fresh s' fp.
Proof.
  intros Hpre H. unfold btcDelegationModifiedWithPreInitDel in H. apply bind_Ok in H as ([e s1] & H1 & H).
  apply bind_Ok in H as (s2 & H2 & H). apply bind_Ok in H as (s3 & H3 & H).
  apply Increment_fresh in H1. apply sendToGauge_current in H2. apply (Hpre s2) in H3; [|by eapply fresh_ext].
  unfold initializeBTCDelegation in H. do 2 (apply bind_Ok in H as (? & _ & H)). injection H as <-. by eapply fresh_ext.
Qed.

(** Right after any delegation has become active or has been unbonded, from any
    state, the export of the module's genesis panics: the new period of the
    provider has no rewards yet, and the validation of the exported entry refuses
    empty coins. The same holds as long as the history of some provider has an
    empty entry, such as the one of period 0, which is written empty. *)
Theorem incentive_export_panics {B X} (w : World B X) s' fp del sat :
  BtcDelegationActivated (w_inc w) fp del sat = Ok s' ∨ BtcDelegationUnbonded (w_inc w) fp del sat = Ok s' ∨ unexportable s' →
  ∃ e, ExportGenesis_incentive (set_inc w s') = Panic e.
Proof.
  intros H. apply unexportable_panics. simpl. destruct H as [H|[H|H]]; [| |done]; left; exists fp.
  - eapply modified_fresh; [|exact H]. intros s1 s2. apply addDelegationSat_fresh.
  - eapply modified_fresh; [|exact H]. intros s1 s2. apply subDelegationSat_fresh.
Qed.

Lemma initialized_unexportable s fp : unexportable (initializeFinalityProvider s fp).1.
Proof.
  right. exists fp, 0. unfold initializeFinalityProvider, setFinalityProviderHistoricalRewards. simpl. apply get2_set2_eq.
Qed.
End history.
