(* ===== verification/LightClient.v ===== *)
(** * x/btclightclient: the Bitcoin header chain

    The module keeps one chain of Bitcoin headers, from a base header to the
    tip. Headers extend the tip or, when they fork off below it, replace the
    headers above the fork point if their chain has more work. The file
    translates types/btc_light_client.go, work.go, btc_header_info.go, utils.go,
    params.go and msgs.go, keeper/state.go, keeper.go, base_btc_header.go,
    triggers.go and msg_server.go, and genesis.go.

    Parsing and hashing of headers, the work of a difficulty and the consensus
    checks of a header are those of btcd and enter as classes. *)

From S2P Require Import Prelude Bytes Store BbnTypes Coins.

(** ** btcd *)

(** [wire.BlockHeader] and [blockchain.CalcWork]. *)
Class BtcWire (H : Type) := {
  Deserialize : bytes → option H;
  Serialize : H → bytes;
  BlockHash : H → bytes;
  PrevBlock : H → bytes;
  Bits : H → Z;
  Timestamp : H → Z;          (* seconds *)
  CalcWork : Z → Z
}.

(** [blockchain.HeaderCtx]: height, difficulty and time of a header, and those of
    its ancestor at a distance. *)
Record HeaderCtx := mkHeaderCtx {
  hc_Height : Z;
  hc_Bits : Z;
  hc_Timestamp : Z;
  hc_RelativeAncestorCtx : Z → outcome (option (Z * Z * Z))
}.

(** The checks of a header against its parent and on its own, for the network
    of the chain; the second gets the adjusted time. *)
Class BtcChecks (H : Type) := {
  CheckBlockHeaderContext : H → HeaderCtx → outcome unit;
  CheckBlockHeaderSanity : H → Z → outcome unit
}.

(** ** Headers *)

Record BTCHeaderInfo := mkHeaderInfo { hi_Header : bytes; hi_Hash : bytes; hi_Height : Z; hi_Work : Z }.
Record localHeaderInfo (H : Type) := mkLocalInfo { li_header : H; li_height : Z; li_totalWork : Z }.
Arguments mkLocalInfo {H} _ _ _.
Arguments li_header {H} _.
Arguments li_height {H} _.
Arguments li_totalWork {H} _.

(** The two stores of [headersState]: height to header, hash to height. *)
Record headersState := mkHeaders { headers : gmap Z BTCHeaderInfo; hashToHeight : gmap bytes Z }.
Definition empty_headers : headersState := mkHeaders ∅ ∅.

Definition BTCHeaderLen : nat := 80.
Definition BTCHeaderHashLen : nat := 32.
Definition emptyHash : bytes := replicate 32 x00.

(** *** keeper/state.go *)

Definition insertHeader (s : headersState) (h : BTCHeaderInfo) : headersState :=
  mkHeaders (<[hi_Height h := h]> (headers s)) (<[hi_Hash h := hi_Height h]> (hashToHeight s)).
Definition deleteHeader (s : headersState) (h : BTCHeaderInfo) : headersState :=
  mkHeaders (delete (hi_Height h) (headers s)) (delete (hi_Hash h) (hashToHeight s)).

(** The headers of a [ReverseIterator] and of an [Iterator] from a height. *)
Definition reverseHeaders (s : headersState) : list BTCHeaderInfo := reverse (iterZ (headers s)).*2.
Definition forwardHeaders (s : headersState) (startPoint : Z) : list BTCHeaderInfo :=
  filter (λ h, startPoint ≤ hi_Height h) (iterZ (headers s)).*2.

Fixpoint collectAbove (height : Z) (first : bool) (l : list BTCHeaderInfo) : list BTCHeaderInfo :=
  match l with
  | [] => []
  | header :: l =>
    if first && (hi_Height header <=? height) then []
    else if hi_Height header =? height then []
    else header :: collectAbove height false l
  end.
Definition rollBackHeadersUpTo (s : headersState) (height : Z) : headersState :=
  foldl deleteHeader s (collectAbove height true (reverseHeaders s)).

Definition GetHeaderByHeight_state (s : headersState) (height : Z) : outcome BTCHeaderInfo :=
  match headers s !! height with Some h => Ok h | None => Err ErrHeaderDoesNotExist end.

Definition GetHeaderByHash (s : headersState) (hash : bytes) : outcome BTCHeaderInfo :=
  match hashToHeight s !! hash with
  | None => Err ErrHeaderDoesNotExist
  | Some height =>
    match headers s !! height with
    | Some h => Ok h
    | None => Panic (Errorf "header height exists but header does not")
    end
  end.

Definition GetTip (s : headersState) : option BTCHeaderInfo := head (reverseHeaders s).
Definition BaseHeader (s : headersState) : option BTCHeaderInfo := head (forwardHeaders s 0).

(** *** keeper/keeper.go: queries *)

Definition BlockHeight (s : headersState) (headerHash : option bytes) : outcome Z :=
  match headerHash with
  | None => Err ErrEmptyMessage
  | Some hash => h ← GetHeaderByHash s hash; Ok (hi_Height h)
  end.

Definition MainChainDepth (s : headersState) (headerHash : option bytes) : outcome Z :=
  match headerHash with
  | None => Err ErrEmptyMessage
  | Some hash =>
    h ← GetHeaderByHash s hash;
    match GetTip s with
    | None => Panic (Errorf "nil pointer dereference")
    | Some tip =>
      if hi_Height tip <? hi_Height h then Panic (Errorf "tip height is less than header height")
      else Ok (hi_Height tip - hi_Height h)
    end
  end.

Definition GetHeaderByHeight (s : headersState) (height : Z) : option BTCHeaderInfo :=
  match GetHeaderByHeight_state s height with Ok h => Some h | _ => None end.
Definition GetMainChainFrom (s : headersState) (startHeight : Z) : list BTCHeaderInfo := forwardHeaders s startHeight.
Definition GetMainChainFromWithLimit (s : headersState) (startHeight limit : Z) : list BTCHeaderInfo :=
  take (Z.to_nat limit) (forwardHeaders s startHeight).
Definition GetMainChainUpTo (s : headersState) (depth : Z) : list BTCHeaderInfo :=
  take (Z.to_nat (depth + 1)) (reverseHeaders s).
Definition GetMainChainReverse (s : headersState) : list BTCHeaderInfo := reverseHeaders s.

Definition SetBaseBTCHeader (s : headersState) (baseBTCHeader : BTCHeaderInfo) : outcome headersState :=
  match BaseHeader s with
  | Some _ => Panic (Errorf "A base BTC Header has already been set")
  | None => Ok (insertHeader s baseBTCHeader)
  end.
Definition InsertHeaderInfos (s : headersState) (infos : list BTCHeaderInfo) : headersState := foldl insertHeader s infos.

Section light_client.
Context {H : Type} {BW : BtcWire H} {BC : BtcChecks H}.

(** *** types/btc_header_bytes.go *)

(** A panic when the bytes do not parse. *)
Definition ToBlockHeader (m : bytes) : outcome H :=
  match Deserialize m with
  | Some h => Ok h
  | None => Panic (Errorf "BTCHeaderBytes cannot be converted to a block header object")
  end.
Definition BTCHeaderBytes_Unmarshal (data : bytes) : outcome bytes :=
  if negb (length data =? BTCHeaderLen)%nat then Err (Errorf "invalid header length")
  else match Deserialize data with
       | None => Err (Errorf "bytes do not correspond to a *wire.BlockHeader object")
       | Some _ => Ok data
       end.
Definition FromBlockHeader (header : H) : outcome bytes := must (BTCHeaderBytes_Unmarshal (Serialize header)).
Definition BTCHeaderHashBytes_Unmarshal (bz : bytes) : outcome bytes :=
  if negb (length bz =? BTCHeaderHashLen)%nat then Err (Errorf "invalid header hash length") else Ok bz.
Definition FromChainhash (hash : bytes) : outcome bytes := must (BTCHeaderHashBytes_Unmarshal hash).
Definition HasParent (m parent : bytes) : outcome bool :=
  current ← ToBlockHeader m; p ← ToBlockHeader parent; Ok (bool_decide (PrevBlock current = BlockHash p)).

(** *** types/work.go *)

(** [sdkmath.Uint] panics above 256 bits. *)
Definition UintAdd (a b : Z) : outcome Z :=
  if a + b <? 2 ^ 256 then Ok (a + b) else Panic (Errorf "Uint overflow").
Definition CalcHeaderWork (header : H) : Z := CalcWork (Bits header).
Definition CumulativeWork (childWork parentWork : Z) : outcome Z := sum ← UintAdd 0 childWork; UintAdd sum parentWork.

(** *** types/btc_light_client.go *)

Definition toLocalInfo (i : BTCHeaderInfo) : outcome (localHeaderInfo H) :=
  h ← ToBlockHeader (hi_Header i); Ok (mkLocalInfo h (hi_Height i) (hi_Work i)).
Definition toBTCHeaderInfo (i : localHeaderInfo H) : outcome BTCHeaderInfo :=
  headerBytes ← FromBlockHeader (li_header i);
  headerHash ← FromChainhash (BlockHash (li_header i));
  Ok (mkHeaderInfo headerBytes headerHash (li_height i) (li_totalWork i)).
Definition toBTCHeaderInfos (infos : list (localHeaderInfo H)) : outcome (list BTCHeaderInfo) :=
  foldM (λ result i, h ← toBTCHeaderInfo i; Ok (result ++ [h])) [] infos.

(** The chain the new headers form, on top of the stored one. *)
Record storeWithExtensionChain := mkExtension { ext_headers : list (localHeaderInfo H); ext_store : headersState }.
Definition addHeader (s : storeWithExtensionChain) (header : localHeaderInfo H) : storeWithExtensionChain :=
  mkExtension (ext_headers s ++ [header]) (ext_store s).

Definition getHeaderAtHeight (s : storeWithExtensionChain) (height : Z) : outcome (option (localHeaderInfo H)) :=
  let stored :=
    match GetHeaderByHeight_state (ext_store s) height with
    | Ok h => header ← ToBlockHeader (hi_Header h); Ok (Some (mkLocalInfo header height (hi_Work h)))
    | _ => Ok None
    end in
  match ext_headers s with
  | [] => stored
  | h0 :: _ =>
    if height <? li_height h0 then stored
    else match ext_headers s !! Z.to_nat (u32 (height - li_height h0)) with
         | Some h => Ok (Some h)
         | None => Panic (Errorf "index out of range")
         end
  end.

Definition RelativeAncestorCtx (s : storeWithExtensionChain) (height distance : Z) : outcome (option (Z * Z * Z)) :=
  let ancestorHeight := i32 (i32 height - distance) in
  if ancestorHeight <? 0 then Ok None
  else
    let ancU32 := u32 ancestorHeight in
    ancestor ← getHeaderAtHeight s ancU32;
    match (ancestor : option (localHeaderInfo H)) with
    | None => Ok None
    | Some a => Ok (Some (ancU32, Bits (li_header a), Timestamp (li_header a)))
    end.

Definition newLightHeaderCtx (height : Z) (header : H) (store : storeWithExtensionChain) : HeaderCtx :=
  mkHeaderCtx (i32 height) (Bits header) (Timestamp header) (RelativeAncestorCtx store height).

(** The adjusted time is the header's own. *)
Definition checkHeader (s : storeWithExtensionChain) (parentHeaderInfo : localHeaderInfo H) (blockHeader : H)
    : outcome unit :=
  let parentHeaderCtx := newLightHeaderCtx (li_height parentHeaderInfo) (li_header parentHeaderInfo) s in
  _ ← CheckBlockHeaderContext blockHeader parentHeaderCtx;
  CheckBlockHeaderSanity blockHeader (Timestamp blockHeader).

Definition processHeader (acc : storeWithExtensionChain * localHeaderInfo H) (h : H)
    : outcome (storeWithExtensionChain * localHeaderInfo H) :=
  let '(store, parentHeaderInfo) := acc in
  match checkHeader store parentHeaderInfo h with
  | Err _ => Err ErrInvalidHeader
  | Panic e => Panic e
  | Ok _ =>
    totalWork ← CumulativeWork (li_totalWork parentHeaderInfo) (CalcHeaderWork h);
    let newHeaderInfo := mkLocalInfo h (u32 (li_height parentHeaderInfo + 1)) totalWork in
    Ok (addHeader store newHeaderInfo, newHeaderInfo)
  end.
Definition processNewHeadersChain (store : storeWithExtensionChain) (chainParent : localHeaderInfo H)
    (chain : list H) : outcome storeWithExtensionChain :=
  r ← foldM processHeader (store, chainParent) chain; Ok (r : storeWithExtensionChain * localHeaderInfo H).1.

(** [lastHeader] starts as the zero hash. *)
Fixpoint headersFormChain_from (lastHeader : bytes) (hs : list H) : bool :=
  match hs with
  | [] => true
  | h :: hs =>
    if bool_decide (lastHeader = emptyHash) then headersFormChain_from (BlockHash h) hs
    else if negb (bool_decide (PrevBlock h = lastHeader)) then false
    else headersFormChain_from (BlockHash h) hs
  end.
Definition headersFormChain (hs : list H) : bool := headersFormChain_from emptyHash hs.

Record InsertResult := mkInsertResult { HeadersToInsert : list BTCHeaderInfo; HeaderToRollbackTo : option BTCHeaderInfo }.

Definition InsertHeaders_client (readStore : headersState) (hs : list H) : outcome InsertResult :=
  match hs with
  | [] => Err (Errorf "cannot insert empty headers")
  | first :: _ =>
    if negb (headersFormChain hs) then Err (Errorf "headers do not form a chain")
    else match GetTip readStore with
    | None => Err (Errorf "cannot insert headers when tip is nil")
    | Some tip =>
      currentTip ← toLocalInfo tip;
      let store := mkExtension [] readStore in
      if bool_decide (PrevBlock first = BlockHash (li_header currentTip)) then
        store ← processNewHeadersChain store currentTip hs;
        infos ← toBTCHeaderInfos (ext_headers store);
        Ok (mkInsertResult infos None)
      else
        firstExtHeaderHash ← FromChainhash (BlockHash first);
        match GetHeaderByHash readStore firstExtHeaderHash with
        | Ok _ => Err ErrForkStartWithKnownHeader
        | Panic e => Panic e
        | Err _ =>
          parentHash ← FromChainhash (PrevBlock first);
          match GetHeaderByHash readStore parentHash with
          | Err _ => Err ErrHeaderParentDoesNotExist
          | Panic e => Panic e
          | Ok forkParent =>
            forkParentInfo ← toLocalInfo forkParent;
            store ← processNewHeadersChain store forkParentInfo hs;
            match last (ext_headers store) with
            | None => Panic (Errorf "index out of range")
            | Some tipOfNewChain =>
              if li_totalWork tipOfNewChain <=? li_totalWork currentTip then Err ErrChainWithNotEnoughWork
              else infos ← toBTCHeaderInfos (ext_headers store);
                   Ok (mkInsertResult infos (Some forkParent))
            end
          end
        end
    end
  end.

End light_client.
Arguments storeWithExtensionChain : clear implicits.

(** ** The keeper *)

Record MsgInsertHeaders := mkMsgInsertHeaders { mih_Signer : string; mih_Headers : list bytes }.

(** The other modules ([E]): the hooks, which may read the headers, and the
    index of refundable messages. *)
Class BTCLightClientHooks (E : Type) := {
  AfterBTCHeaderInserted : headersState → E → BTCHeaderInfo → outcome E;
  AfterBTCRollBack : headersState → E → BTCHeaderInfo → BTCHeaderInfo → outcome E;
  AfterBTCRollForward : headersState → E → BTCHeaderInfo → outcome E;
  IndexRefundableHeaders : E → MsgInsertHeaders → E
}.

Section keeper.
Context {H : Type} {BW : BtcWire H} {BC : BtcChecks H} {BA : Bech32}.
Context {E : Type} {LH : BTCLightClientHooks E}.

Definition CheckRollBackInvariants (rollbackFrom rollbackTo : option BTCHeaderInfo) : outcome unit :=
  match rollbackFrom with
  | None => Err (Errorf "Call BTC rollback without tip")
  | Some from =>
    match rollbackTo with
    | None => Err (Errorf "Call BTC rollback without rollbackTo")
    | Some to =>
      if hi_Height from <=? hi_Height to then Err (Errorf "BTC rollback with rollback 'To' higher or equal than 'From'")
      else Ok tt
    end
  end.

Definition triggerRollBack (s : headersState) (e : E) (rollbackFrom : option BTCHeaderInfo) (rollbackTo : BTCHeaderInfo)
    : outcome E :=
  _ ← must (CheckRollBackInvariants rollbackFrom (Some rollbackTo));
  match rollbackFrom with
  | Some from => AfterBTCRollBack s e from rollbackTo
  | None => Panic (Errorf "nil pointer dereference")
  end.

Definition insertHandler (s : headersState) (result : InsertResult) : outcome headersState :=
  match HeaderToRollbackTo result with
  | Some _ => Err (Errorf "rollback should not happen")
  | None => Ok (foldl insertHeader s (HeadersToInsert result))
  end.

(** A header stored and announced. *)
Definition insertAndTrigger (acc : headersState * E) (h : BTCHeaderInfo) : outcome (headersState * E) :=
  let '(s, e) := acc in
  let s := insertHeader s h in
  e ← AfterBTCHeaderInserted s e h;
  e ← AfterBTCRollForward s e h;
  Ok (s, e).

Definition triggerEventAndHandleHooksHandler (s : headersState) (e : E) (result : InsertResult)
    : outcome (headersState * E) :=
  r ← match HeaderToRollbackTo result with
      | None => Ok (s, e)
      | Some to =>
        let lastTip := GetTip s in
        let s := rollBackHeadersUpTo s (hi_Height to) in
        e ← triggerRollBack s e lastTip to;
        Ok (s, e)
      end;
  foldM insertAndTrigger r (HeadersToInsert result).

Definition insertHeadersWithHookAndEvents (s : headersState) (e : E) (hs : list H) : outcome (headersState * E) :=
  result ← InsertHeaders_client s hs; triggerEventAndHandleHooksHandler s e result.
Definition insertHeaders (s : headersState) (hs : list H) : outcome headersState :=
  result ← InsertHeaders_client s hs; insertHandler s result.

Definition BtcHeadersBytesToBlockHeader (hs : list bytes) : outcome (list H) :=
  foldM (λ acc b, h ← ToBlockHeader b; Ok (acc ++ [h])) [] hs.

Definition InsertHeadersWithHookAndEvents (s : headersState) (e : E) (hs : list bytes) : outcome (headersState * E) :=
  match hs with
  | [] => Err ErrEmptyMessage
  | _ => blockHeaders ← BtcHeadersBytesToBlockHeader hs; insertHeadersWithHookAndEvents s e blockHeaders
  end.
Definition InsertHeaders_keeper (s : headersState) (hs : list bytes) : outcome headersState :=
  match hs with
  | [] => Err ErrEmptyMessage
  | _ => blockHeaders ← BtcHeadersBytesToBlockHeader hs; insertHeaders s blockHeaders
  end.

(** *** Parameters and messages *)

Definition LightClientParams := list string.  (* InsertHeadersAllowList *)
Definition AllowAllReporters (p : LightClientParams) : bool := match p with [] => true | _ => false end.
Definition ValidateLightClientParams (p : LightClientParams) : outcome unit :=
  if forallb (λ a, bool_decide (is_Some (AccFromBech32 a))) p then Ok tt else Err (Errorf "invalid address").

Definition canInsertHeaders (params : LightClientParams) (reporterAddress : bytes) : outcome bool :=
  if AllowAllReporters params then Ok true
  else foldM (λ allow addr,
    match AccFromBech32 addr with
    | None => Panic (Errorf "MustAccAddressFromBech32")
    | Some a => Ok (allow || bool_decide (a = reporterAddress))
    end) false params.

Definition MsgInsertHeaders_ValidateStateless (msg : MsgInsertHeaders) : outcome unit :=
  match AccFromBech32 (mih_Signer msg) with
  | None => Err (Errorf "AccAddressFromBech32")
  | Some _ => match mih_Headers msg with [] => Err (Errorf "empty headers list") | _ => Ok tt end
  end.

Definition MsgInsertHeaders_ReporterAddress (msg : MsgInsertHeaders) : outcome bytes :=
  match AccFromBech32 (mih_Signer msg) with Some a => Ok a | None => Panic (Errorf "AccAddressFromBech32") end.

Definition InsertHeaders (params : LightClientParams) (s : headersState) (e : E) (msg : option MsgInsertHeaders)
    : outcome (headersState * E) :=
  match msg with
  | None => Err ErrEmptyMessage
  | Some msg =>
    match MsgInsertHeaders_ValidateStateless msg with
    | Err _ => Err ErrInvalidMessageFormat
    | Panic e => Panic e
    | Ok _ =>
      reporterAddress ← MsgInsertHeaders_ReporterAddress msg;
      allowed ← canInsertHeaders params reporterAddress;
      if negb allowed then Err ErrUnauthorizedReporter
      else
        r ← InsertHeadersWithHookAndEvents s e (mih_Headers msg);
        let '(s, e) := (r : headersState * E) in
        Ok (s, IndexRefundableHeaders e msg)
    end
  end.

Definition SetParams_lightclient (p : LightClientParams) : outcome LightClientParams :=
  _ ← ValidateLightClientParams p; Ok p.
Definition UpdateParams_lightclient (authority reqAuthority : string) (p : LightClientParams) : outcome LightClientParams :=
  if negb (String.eqb authority reqAuthority) then Err ErrInvalidSigner
  else match ValidateLightClientParams p with
       | Err _ => Err ErrInvalidProposalMsg
       | Panic e => Panic e
       | Ok _ => SetParams_lightclient p
       end.

(** *** Genesis *)

(** A header of the genesis file: its pointers may be nil. *)
Record GenesisHeader := mkGenesisHeader {
  gh_Header : option bytes; gh_Hash : option bytes; gh_Height : Z; gh_Work : option Z
}.

Definition BTCHeaderInfo_Validate (m : GenesisHeader) : outcome BTCHeaderInfo :=
  match gh_Header m with
  | None => Err (Errorf "header is nil")
  | Some header =>
    match gh_Hash m with
    | None => Err (Errorf "hash is nil")
    | Some hash =>
      match gh_Work m with
      | None => Err (Errorf "work is nil")
      | Some work =>
        if work =? 0 then Err (Errorf "work is zero")
        else match Deserialize header with
             | None => Err (Errorf "header.Deserialize")
             | Some btcHeader =>
               headerHash ← FromChainhash (BlockHash btcHeader);
               if negb (length hash =? BTCHeaderHashLen)%nat
               then Panic (Errorf "BTCHeaderHashBytes cannot be converted to chainhash")
               else if negb (bool_decide (hash = headerHash))
               then Err (Errorf "BTC header hash is not equal to generated hash from header")
               else Ok (mkHeaderInfo header hash (gh_Height m) work)
             end
      end
    end
  end.

(** [chaincfg.Params]: two durations in nanoseconds. *)
Definition BlocksPerRetarget (TargetTimespan TargetTimePerBlock : Z) : Z :=
  i32 ((TargetTimespan `quot` 10 ^ 9) `quot` (TargetTimePerBlock `quot` 10 ^ 9)).
Definition IsRetargetBlock (height blocksPerRetarget : Z) : outcome bool :=
  if blocksPerRetarget <? 0 then Panic (Errorf "Invalid blocks per retarget value")
  else Ok (height `mod` u32 blocksPerRetarget =? 0).

Definition GenesisState_Validate (blocksPerRetarget : Z) (params : LightClientParams) (BtcHeaders : list GenesisHeader)
    : outcome (list BTCHeaderInfo) :=
  _ ← wrapf "invalid params in genesis" (ValidateLightClientParams params);
  match BtcHeaders with
  | [] => Err (Errorf "no btc header set on genesis")
  | h0 :: _ =>
    isRetarget ← IsRetargetBlock (gh_Height h0) blocksPerRetarget;
    if negb isRetarget then Err (Errorf "genesis block must be a difficulty adjustment block")
    else foldM (λ acc h, i ← BTCHeaderInfo_Validate h; Ok (acc ++ [i])) [] BtcHeaders
  end.

Definition InitGenesis_lightclient (blocksPerRetarget : Z) (params : LightClientParams) (BtcHeaders : list GenesisHeader)
    : outcome (LightClientParams * headersState) :=
  infos ← must (GenesisState_Validate blocksPerRetarget params BtcHeaders);
  params ← must (SetParams_lightclient params);
  Ok (params, InsertHeaderInfos empty_headers infos).
Definition ExportGenesis_lightclient (params : LightClientParams) (s : headersState)
    : LightClientParams * list BTCHeaderInfo := (params, GetMainChainFrom s 0).

End keeper.
