(* ===== verification/LightChain.v ===== *)
(** * x/btclightclient: the chain the stores represent

    The specification is a list of headers, from the base to the tip, with one
    operation: replace what follows one of its headers by new ones. The stores
    and the handlers of the module refine it, and the operation keeps the list
    a valid chain whose work only grows. *)

From S2P Require Import Prelude Bytes Store BbnTypes Coins LightClient.

(** What the module relies on of btcd: a header survives serialisation, which
    takes 80 bytes, hashes have 32 bytes, the checks of a header only look at
    ancestors of its parent, and a header that passes them has work. *)
Class BtcLaws (H : Type) (BW : BtcWire H) (BC : BtcChecks H) := {
  Deserialize_Serialize h : Deserialize (Serialize h) = Some h;
  Serialize_length h : length (Serialize h) = BTCHeaderLen;
  BlockHash_length h : length (BlockHash h) = BTCHeaderHashLen;
  PrevBlock_length h : length (PrevBlock h) = BTCHeaderHashLen;
  CheckBlockHeaderContext_ext h c1 c2 :
    hc_Height c1 = hc_Height c2 → hc_Bits c1 = hc_Bits c2 → hc_Timestamp c1 = hc_Timestamp c2 →
    (∀ d, 0 ≤ d < 2 ^ 31 → hc_RelativeAncestorCtx c1 d = hc_RelativeAncestorCtx c2 d) →
    CheckBlockHeaderContext h c1 = CheckBlockHeaderContext h c2;
  CheckBlockHeaderSanity_work h t : CheckBlockHeaderSanity h t = Ok tt → 0 < CalcWork (Bits h);
  CalcWork_nonneg b : 0 ≤ CalcWork b
}.

Definition linked {H} `{BtcWire H} (l : list H) : Prop :=
  ∀ i a b, l !! i = Some a → l !! S i = Some b → PrevBlock b = BlockHash a.

(** An idealisation of double SHA-256: the hashes of linked headers do not repeat
    within the heights a chain can have (a repetition would be a cycle of the hash,
    which nobody can compute), and no header hashes to zero. *)
Class HashAcyclic (H : Type) (BW : BtcWire H) := {
  linked_NoDup l : Z.of_nat (length l) < 2 ^ 31 → linked l → NoDup (BlockHash <$> l);
  BlockHash_nonzero h : BlockHash h ≠ emptyHash
}.

Lemma filter_all {A} (P : A → Prop) `{∀ x, Decision (P x)} (l : list A) : Forall P l → filter P l = l.
Proof. induction 1 as [|x l Hx _ IH]; [done|]. rewrite filter_cons, decide_True by done. by rewrite IH. Qed.

Section chain.
Context {H : Type} {BW : BtcWire H} {BC : BtcChecks H} {BL : BtcLaws H BW BC} {HA : HashAcyclic H BW}.
Implicit Types (c p ext : list (localHeaderInfo H)) (hs : list H).

(** ** The stores of a chain *)

Definition hashOf (x : localHeaderInfo H) : bytes := BlockHash (li_header x).
Definition info_of (x : localHeaderInfo H) : BTCHeaderInfo :=
  mkHeaderInfo (Serialize (li_header x)) (hashOf x) (li_height x) (li_totalWork x).
Definition repr c : headersState :=
  mkHeaders (list_to_map ((λ x, (li_height x, info_of x)) <$> c)) (list_to_map ((λ x, (hashOf x, li_height x)) <$> c)).

(** ** The specification *)

(** The ancestors of the last header of a chain. *)
Definition chain_at c (k : Z) : option (localHeaderInfo H) :=
  match c with
  | [] => None
  | x0 :: _ => if k <? li_height x0 then None else c !! Z.to_nat (k - li_height x0)
  end.
Definition chain_ctx c (x : localHeaderInfo H) : HeaderCtx :=
  mkHeaderCtx (li_height x) (Bits (li_header x)) (Timestamp (li_header x))
    (λ d, Ok ((λ a, (li_height x - d, Bits (li_header a), Timestamp (li_header a))) <$> chain_at c (li_height x - d))).

(** The checks of a header on top of a chain that ends with [x]. *)
Definition check_spec c (x : localHeaderInfo H) (h : H) : outcome unit :=
  _ ← CheckBlockHeaderContext h (chain_ctx c x); CheckBlockHeaderSanity h (Timestamp h).

Definition child (x : localHeaderInfo H) (h : H) : localHeaderInfo H :=
  mkLocalInfo h (li_height x + 1) (li_totalWork x + CalcHeaderWork h).

(** The new part of a chain [c] that ends with [x]. *)
Fixpoint extend_spec c (x : localHeaderInfo H) hs : outcome (list (localHeaderInfo H)) :=
  match hs with
  | [] => Ok []
  | h :: hs =>
    match check_spec c x h with
    | Err _ => Err ErrInvalidHeader
    | Panic e => Panic e
    | Ok _ =>
      if li_totalWork x + CalcHeaderWork h <? 2 ^ 256 then
        let y := child x h in
        ext ← extend_spec (c ++ [y]) y hs; Ok (y :: ext)
      else Panic (Errorf "Uint overflow")
    end
  end.

(** Which part of the chain is kept, and what follows it. *)
Definition plan_spec c hs : outcome (list (localHeaderInfo H) * list (localHeaderInfo H)) :=
  match hs with
  | [] => Err (Errorf "cannot insert empty headers")
  | first :: _ =>
    if negb (headersFormChain hs) then Err (Errorf "headers do not form a chain")
    else match last c with
    | None => Err (Errorf "cannot insert headers when tip is nil")
    | Some tip =>
      if bool_decide (PrevBlock first = hashOf tip) then ext ← extend_spec c tip hs; Ok (c, ext)
      else if bool_decide (BlockHash first ∈ hashOf <$> c) then Err ErrForkStartWithKnownHeader
      else match list_find (λ x, hashOf x = PrevBlock first) c with
           | None => Err ErrHeaderParentDoesNotExist
           | Some (i, parent) =>
             let p := take (S i) c in
             ext ← extend_spec p parent hs;
             match last ext with
             | None => Panic (Errorf "index out of range")
             | Some t => if li_totalWork t <=? li_totalWork tip then Err ErrChainWithNotEnoughWork else Ok (p, ext)
             end
           end
    end
  end.

(** A valid chain: consecutive heights that fit 31 bits, headers linked by their
    hashes, each after the first checked on top of the ones before it, with the
    work accumulated. *)
Record chain_ok c : Prop := {
  co_height i x x0 : c !! i = Some x → c !! 0%nat = Some x0 → li_height x = li_height x0 + Z.of_nat i;
  co_range x : x ∈ c → 0 ≤ li_height x < 2 ^ 31 - 1;
  co_work_range x : x ∈ c → 0 ≤ li_totalWork x < 2 ^ 256;
  co_linked : linked (li_header <$> c);
  co_checked i x y : c !! i = Some x → c !! S i = Some y →
    check_spec (take (S i) c) x (li_header y) = Ok tt ∧ li_totalWork y = li_totalWork x + CalcHeaderWork (li_header y)
}.

(** ** Facts about chains *)

Definition heights_from (b : Z) c : Prop := ∀ i x, c !! i = Some x → li_height x = b + Z.of_nat i.

Lemma heights_from_app b c1 c2 :
  heights_from b (c1 ++ c2) ↔ heights_from b c1 ∧ heights_from (b + Z.of_nat (length c1)) c2.
Proof using.
  unfold heights_from. split.
  - intros Hh. split; intros i x Hi.
    + apply Hh. by rewrite lookup_app_l by (by eapply lookup_lt_Some).
    + rewrite (Hh (length c1 + i)%nat x); [lia|]. rewrite lookup_app_r by lia. by replace (_ + i - _)%nat with i by lia.
  - intros [H1 H2] i x. destruct (decide (i < length c1)%nat).
    + rewrite lookup_app_l by done. apply H1.
    + rewrite lookup_app_r by lia. intros Hi. rewrite (H2 _ _ Hi). lia.
Qed.

Lemma heights_from_inj b c i j x y : heights_from b c → c !! i = Some x → c !! j = Some y →
  li_height x = li_height y → i = j.
Proof using. intros Hh Hi Hj. rewrite (Hh _ _ Hi), (Hh _ _ Hj). lia. Qed.

Lemma NoDup_heights b c : heights_from b c → NoDup (li_height <$> c).
Proof using.
  intros Hh. apply NoDup_alt. intros i j z. rewrite !list_lookup_fmap.
  intros (x & Hx & ->)%fmap_Some (y & Hy & Hxy)%fmap_Some. by eapply heights_from_inj.
Qed.

Lemma chain_ok_heights c : chain_ok c → ∃ b, heights_from b c ∧ (c ≠ [] → 0 ≤ b ∧ b + Z.of_nat (length c) ≤ 2 ^ 31 - 1).
Proof using.
  intros Hok. destruct c as [|x0 c]; [by exists 0|]. exists (li_height x0). split.
  - intros i x Hi. by apply (co_height _ Hok).
  - intros _. split; [apply (co_range _ Hok); left|].
    destruct (lookup_lt_is_Some_2 (x0 :: c) (length c)) as [y Hy]; [simpl; lia|].
    pose proof (co_height _ Hok _ _ x0 Hy eq_refl). assert (y ∈ x0 :: c) as Hin by (by eapply list_elem_of_lookup_2).
    apply (co_range _ Hok) in Hin. simpl length. lia.
Qed.

Lemma chain_ok_NoDup c : chain_ok c → NoDup (hashOf <$> c).
Proof using HA.
  intros Hok. destruct (decide (c = [])) as [->|Hne]; [constructor|]. destruct (chain_ok_heights c Hok) as (b & _ & Hb).
  assert (Hlen : Z.of_nat (length (li_header <$> c)) < 2 ^ 31) by (rewrite length_fmap; specialize (Hb Hne); lia).
  pose proof (linked_NoDup _ Hlen (co_linked _ Hok)) as Hnd. by rewrite <- list_fmap_compose in Hnd.
Qed.

Lemma chain_ok_prefix p rest : chain_ok (p ++ rest) → chain_ok p.
Proof using.
  intros [H1 H2 H3 H4 H5].
  assert (∀ i x, p !! i = Some x → (p ++ rest) !! i = Some x) as Hl.
  { intros i x Hi. by rewrite lookup_app_l by (by eapply lookup_lt_Some). }
  split.
  - intros i x x0 Hi H0. by apply (H1 i x x0); apply Hl.
  - intros x Hx. apply H2, elem_of_app. by left.
  - intros x Hx. apply H3, elem_of_app. by left.
  - intros i a b. rewrite !list_lookup_fmap. intros (x & Hx & ->)%fmap_Some (y & Hy & ->)%fmap_Some.
    apply (H4 i); rewrite list_lookup_fmap; [by rewrite (Hl _ _ Hx)|by rewrite (Hl _ _ Hy)].
  - intros i x y Hi HSi. destruct (H5 i x y) as [Hc Hw]; [by apply Hl..|].
    rewrite take_app_le in Hc; [done|]. apply lookup_lt_Some in HSi. lia.
Qed.

(** *** Reading the stores *)

Lemma chain_at_heights b c k : heights_from b c → c ≠ [] →
  chain_at c k = if k <? b then None else c !! Z.to_nat (k - b).
Proof using.
  intros Hh Hne. destruct c as [|x0 c]; [done|]. simpl. by rewrite (Hh 0%nat x0 eq_refl), Z.add_0_r.
Qed.

Lemma heights_lookup b c k x : heights_from b c → x ∈ c → li_height x = k → c !! Z.to_nat (k - b) = Some x ∧ b ≤ k.
Proof using.
  intros Hh [i Hi]%list_elem_of_lookup Hk. pose proof (Hh _ _ Hi).
  split; [|lia]. by replace (Z.to_nat (k - b)) with i by lia.
Qed.

Lemma repr_headers b c k : heights_from b c →
  headers (repr c) !! k = info_of <$> (if k <? b then None else c !! Z.to_nat (k - b)).
Proof using.
  intros Hh. unfold repr. simpl.
  assert (NoDup ((λ x, (li_height x, info_of x)) <$> c).*1) as Hnd.
  { rewrite <- list_fmap_compose. by apply (NoDup_heights b). }
  destruct (list_to_map _ !! k) as [h|] eqn:Hk.
  - apply elem_of_list_to_map_2, list_elem_of_fmap in Hk as (x & [= -> ->] & Hx).
    destruct (heights_lookup b c (li_height x) x Hh Hx eq_refl) as [Hl Hb].
    destruct (Z.ltb_spec (li_height x) b); [lia|]. by rewrite Hl.
  - apply not_elem_of_list_to_map_2 in Hk. destruct (Z.ltb_spec k b); [done|].
    destruct (c !! Z.to_nat (k - b)) as [x|] eqn:Hx; [|done]. exfalso. apply Hk.
    rewrite <- list_fmap_compose. apply list_elem_of_fmap. exists x. split; [|by eapply list_elem_of_lookup_2].
    simpl. rewrite (Hh _ _ Hx). lia.
Qed.

Lemma repr_iterZ b c : heights_from b c → iterZ (headers (repr c)) = (λ x, (li_height x, info_of x)) <$> c.
Proof using.
  intros Hh. unfold iterZ. apply iterator_unique; [exact ltb_asym|exact ltb_neg_trans|exact ltb_total| |].
  - unfold repr. simpl. rewrite map_to_list_to_map; [done|]. rewrite <- list_fmap_compose. by apply (NoDup_heights b).
  - revert b Hh. induction c as [|x c IH]; intros b Hh; [constructor|]. rewrite fmap_cons.
    assert (heights_from (b + 1) c) as Hc.
    { intros i y Hy. rewrite (Hh (S i) y Hy). lia. }
    constructor; [by eapply IH|]. apply Forall_fmap, Forall_forall. intros y [i Hi]%list_elem_of_lookup. simpl.
    pose proof (Hh 0%nat x eq_refl). pose proof (Hc i y Hi). lia.
Qed.

Lemma repr_reverse b c : heights_from b c → reverseHeaders (repr c) = reverse (info_of <$> c).
Proof using. intros Hh. unfold reverseHeaders. rewrite (repr_iterZ b) by done. by rewrite <- list_fmap_compose. Qed.

Lemma repr_GetTip b c : heights_from b c → GetTip (repr c) = info_of <$> last c.
Proof using.
  intros Hh. unfold GetTip. rewrite (repr_reverse b) by done. by rewrite head_reverse, fmap_last.
Qed.

Lemma repr_forward b c : heights_from b c → 0 ≤ b → forwardHeaders (repr c) 0 = info_of <$> c.
Proof using.
  intros Hh Hb. unfold forwardHeaders. rewrite (repr_iterZ b) by done. rewrite <- list_fmap_compose.
  change ((λ x, (snd ∘ (λ x0, (li_height x0, info_of x0))) x) <$> c) with (info_of <$> c).
  apply filter_all. apply Forall_fmap, Forall_forall. intros x [i Hi]%list_elem_of_lookup. simpl.
  rewrite (Hh _ _ Hi). lia.
Qed.

Lemma repr_hash c h : NoDup (hashOf <$> c) →
  hashToHeight (repr c) !! h = li_height <$> (snd <$> list_find (λ x, hashOf x = h) c).
Proof using.
  intros Hnd. unfold repr. simpl. induction c as [|x c IH]; [done|].
  apply NoDup_cons in Hnd as [Hx Hnd]. rewrite fmap_cons. simpl. destruct (decide (hashOf x = h)) as [<-|Hne].
  - by rewrite lookup_insert_eq.
  - rewrite lookup_insert_ne by done. rewrite IH by done.
    destruct (list_find _ c) as [[j y]|]; done.
Qed.

Lemma repr_GetHeaderByHash b c h : heights_from b c → NoDup (hashOf <$> c) →
  GetHeaderByHash (repr c) h =
  match list_find (λ x, hashOf x = h) c with Some (_, x) => Ok (info_of x) | None => Err ErrHeaderDoesNotExist end.
Proof using.
  intros Hh Hnd. unfold GetHeaderByHash. rewrite repr_hash by done.
  destruct (list_find (λ x, hashOf x = h) c) as [[j x]|] eqn:Hf; [|done]. cbn [fmap option_fmap option_map snd].
  apply list_find_Some in Hf as (Hj & _ & _). rewrite (repr_headers b) by done. pose proof (Hh _ _ Hj).
  destruct (Z.ltb_spec (li_height x) b); [lia|]. replace (Z.to_nat (li_height x - b)) with j by lia. by rewrite Hj.
Qed.

(** *** Writing the stores *)

Lemma repr_snoc c x : li_height x ∉ li_height <$> c → hashOf x ∉ hashOf <$> c →
  repr (c ++ [x]) = insertHeader (repr c) (info_of x).
Proof using.
  intros H1 H2. unfold repr, insertHeader. simpl. rewrite !fmap_app. cbn [fmap list_fmap].
  f_equal; apply list_to_map_snoc; by rewrite <- list_fmap_compose.
Qed.

Lemma repr_insert c ext : NoDup (li_height <$> c ++ ext) → NoDup (hashOf <$> c ++ ext) →
  foldl insertHeader (repr c) (info_of <$> ext) = repr (c ++ ext).
Proof using.
  revert c. induction ext as [|x ext IH]; intros c H1 H2; [by rewrite app_nil_r|].
  rewrite fmap_cons. cbn [foldl]. replace (c ++ x :: ext) with ((c ++ [x]) ++ ext) in * by (by rewrite <- app_assoc).
  rewrite <- repr_snoc; [by apply IH|..].
  - rewrite !fmap_app in H1. apply NoDup_app in H1 as [H1 _]. apply NoDup_app in H1 as (_ & H1 & _).
    intros Hin. apply (H1 _ Hin). left.
  - rewrite !fmap_app in H2. apply NoDup_app in H2 as [H2 _]. apply NoDup_app in H2 as (_ & H2 & _).
    intros Hin. apply (H2 _ Hin). left.
Qed.

Lemma repr_delete_last c x : li_height x ∉ li_height <$> c → hashOf x ∉ hashOf <$> c →
  deleteHeader (repr (c ++ [x])) (info_of x) = repr c.
Proof using.
  intros H1 H2. rewrite repr_snoc by done. unfold deleteHeader, insertHeader. simpl.
  rewrite !delete_insert_id; [done|..].
  - apply not_elem_of_list_to_map_1. by rewrite <- list_fmap_compose.
  - apply not_elem_of_list_to_map_1. by rewrite <- list_fmap_compose.
Qed.

Lemma repr_delete p rest : NoDup (li_height <$> p ++ rest) → NoDup (hashOf <$> p ++ rest) →
  foldl deleteHeader (repr (p ++ rest)) (reverse (info_of <$> rest)) = repr p.
Proof using.
  induction rest as [|x rest IH] using rev_ind; intros H1 H2; [by rewrite app_nil_r|].
  rewrite app_assoc in *. rewrite !(fmap_app _ (p ++ rest)) in *.
  apply NoDup_app in H1 as (H1 & H1' & _). apply NoDup_app in H2 as (H2 & H2' & _).
  rewrite fmap_app, reverse_app. cbn [fmap list_fmap]. rewrite reverse_singleton. cbn [app foldl].
  rewrite repr_delete_last; [by apply IH|..].
  - intros Hin. apply (H1' _ Hin). left.
  - intros Hin. apply (H2' _ Hin). left.
Qed.

Lemma collectAbove_app b k l first : (∀ x, x ∈ l → b ≤ hi_Height x ∧ k < hi_Height x) →
  ∀ h l2, hi_Height h = k → (l ≠ [] ∨ first = true) → collectAbove k first (l ++ h :: l2) = l.
Proof using.
  revert first. induction l as [|x l IH]; intros first Hl h l2 Hh Hf; simpl.
  - destruct Hf as [Hf| ->]; [done|]. rewrite Hh, Z.leb_refl. done.
  - destruct (Hl x) as [_ Hx]; [left|]. destruct (Z.leb_spec (hi_Height x) k); [lia|]. rewrite andb_false_r.
    destruct (Z.eqb_spec (hi_Height x) k); [lia|]. f_equal.
    destruct l as [|y l].
    + simpl. rewrite Hh, Z.eqb_refl. by destruct (k <=? k).
    + apply IH; [|done|by left]. intros z Hz. apply Hl. by right.
Qed.

Lemma repr_rollback b p x rest : heights_from b (p ++ [x] ++ rest) → NoDup (hashOf <$> p ++ [x] ++ rest) →
  rollBackHeadersUpTo (repr (p ++ [x] ++ rest)) (li_height x) = repr (p ++ [x]).
Proof using.
  intros Hh Hnd. unfold rollBackHeadersUpTo. rewrite (repr_reverse b) by done.
  rewrite !fmap_app, !reverse_app. cbn [fmap list_fmap]. rewrite reverse_singleton, <- app_assoc. cbn [app].
  rewrite (collectAbove_app b); [|intros i|done|by right].
  - replace (p ++ x :: rest) with ((p ++ [x]) ++ rest) by (by rewrite <- app_assoc). rewrite app_assoc in *.
    apply repr_delete; [by apply (NoDup_heights b)|done].
  - intros Hin. apply elem_of_reverse, list_elem_of_fmap in Hin as (y & -> & [j Hj]%list_elem_of_lookup). simpl.
    rewrite app_assoc in Hh. apply heights_from_app in Hh as [Hp Hr]. apply heights_from_app in Hp as [_ Hx].
    rewrite (Hr _ _ Hj), (Hx 0%nat x eq_refl), length_app. simpl. lia.
Qed.

(** ** The checks of the code and of the specification *)

Lemma ToBlockHeader_Serialize h : ToBlockHeader (Serialize h) = Ok h.
Proof using BL. unfold ToBlockHeader. by rewrite Deserialize_Serialize. Qed.

Lemma toLocalInfo_info x : toLocalInfo (info_of x) = Ok x.
Proof using BL. unfold toLocalInfo. simpl. rewrite ToBlockHeader_Serialize. by destruct x. Qed.

Lemma FromChainhash_BlockHash h : FromChainhash (BlockHash h) = Ok (BlockHash h).
Proof using BL. unfold FromChainhash, BTCHeaderHashBytes_Unmarshal. by rewrite BlockHash_length. Qed.
Lemma FromChainhash_PrevBlock h : FromChainhash (PrevBlock h) = Ok (PrevBlock h).
Proof using BL. unfold FromChainhash, BTCHeaderHashBytes_Unmarshal. by rewrite PrevBlock_length. Qed.

Lemma toBTCHeaderInfos_info ext : toBTCHeaderInfos ext = Ok (info_of <$> ext).
Proof using BL.
  unfold toBTCHeaderInfos. assert (∀ acc, foldM (λ result i, h ← toBTCHeaderInfo i; Ok (result ++ [h])) acc ext =
    Ok (acc ++ (info_of <$> ext))) as Hg; [|by rewrite Hg].
  induction ext as [|x ext IH]; intros acc; [by rewrite app_nil_r|]. cbn [foldM].
  assert (toBTCHeaderInfo x = Ok (info_of x)) as ->.
  { unfold toBTCHeaderInfo, FromBlockHeader, BTCHeaderBytes_Unmarshal. rewrite Serialize_length, Deserialize_Serialize.
    simpl. by rewrite FromChainhash_BlockHash. }
  cbn [mbind outcome_bind]. rewrite IH, fmap_cons, <- app_assoc. done.
Qed.

(** A chain [c] of which [p] is kept, with [e] on top of [p]. *)
Section extension.
Context (b : Z) (p rest e : list (localHeaderInfo H)).
Context (Hc : heights_from b (p ++ rest)) (He : heights_from b (p ++ e)) (Hp : p ≠ []) (Hb : 0 ≤ b).

Lemma stored_at k : k < b + Z.of_nat (length p) →
  match GetHeaderByHeight_state (repr (p ++ rest)) k with
  | Ok h => header ← ToBlockHeader (hi_Header h); Ok (Some (mkLocalInfo header k (hi_Work h)))
  | _ => Ok None
  end = Ok (chain_at (p ++ e) k).
Proof using BL Hc He Hp Hb.
  intros Hk. unfold GetHeaderByHeight_state. rewrite (repr_headers b) by done.
  rewrite (chain_at_heights b) by (done || by destruct p). destruct (Z.ltb_spec k b); [done|].
  rewrite !lookup_app_l by lia. destruct (p !! Z.to_nat (k - b)) as [x|] eqn:Hx; [|done].
  cbn [fmap option_fmap option_map]. simpl. rewrite ToBlockHeader_Serialize. simpl.
  apply heights_from_app in Hc as [Hcp _]. pose proof (Hcp _ _ Hx).
  assert (k = li_height x) as -> by lia. by destruct x.
Qed.

Lemma getHeaderAtHeight_chain k : k < b + Z.of_nat (length (p ++ e)) →
  b + Z.of_nat (length (p ++ e)) ≤ 2 ^ 32 →
  getHeaderAtHeight (mkExtension e (repr (p ++ rest))) k = Ok (chain_at (p ++ e) k).
Proof using BL Hc He Hp Hb.
  intros Hk Hmax. unfold getHeaderAtHeight. simpl ext_headers. simpl ext_store. cbv zeta.
  pose proof (proj1 (heights_from_app b p e) He) as [_ He']. pose proof stored_at as Hst. clear He.
  destruct e as [|x0 e0] eqn:Ee; [apply Hst; rewrite length_app in Hk; simpl in Hk; lia|]. rewrite <- Ee in *.
  assert (li_height x0 = b + Z.of_nat (length p)) as Hx0 by (rewrite (He' 0%nat x0) by (by rewrite Ee); lia).
  destruct (Z.ltb_spec k (li_height x0)); [apply Hst; lia|].
  rewrite (chain_at_heights b) by (by apply heights_from_app in Hc as [? _]; apply heights_from_app || by destruct p).
  destruct (Z.ltb_spec k b); [lia|]. rewrite lookup_app_r by lia. rewrite length_app in *.
  rewrite u32_small by (unfold in_u32; lia).
  replace (Z.to_nat (k - b) - length p)%nat with (Z.to_nat (k - li_height x0)) by lia.
  destruct (e !! Z.to_nat (k - li_height x0)) eqn:Hl; [done|]. apply lookup_ge_None in Hl. lia.
Qed.

Lemma checkHeader_chain x h : last (p ++ e) = Some x → b + Z.of_nat (length (p ++ e)) ≤ 2 ^ 31 →
  checkHeader (mkExtension e (repr (p ++ rest))) x h = check_spec (p ++ e) x h.
Proof using BL Hc He Hp Hb.
  intros Hx Hmax. assert (li_height x = b + Z.of_nat (length (p ++ e)) - 1) as Hh.
  { rewrite last_lookup in Hx. rewrite (He _ _ Hx). apply lookup_lt_Some in Hx. lia. }
  assert (0 < Z.of_nat (length (p ++ e))) by (rewrite length_app; destruct p; [done|simpl; lia]).
  unfold checkHeader, check_spec. f_equal. apply CheckBlockHeaderContext_ext; simpl; [|done|done|].
  - apply i32_small. lia.
  - intros d Hd. unfold RelativeAncestorCtx. rewrite (i32_small (li_height x)) by lia. rewrite i32_small by lia.
    destruct (Z.ltb_spec (li_height x - d) 0).
    + rewrite (chain_at_heights b) by (done || by destruct p). by destruct (Z.ltb_spec (li_height x - d) b); [|lia].
    + rewrite u32_small by (unfold in_u32; lia). rewrite getHeaderAtHeight_chain by lia. simpl.
      by destruct (chain_at (p ++ e) (li_height x - d)).
Qed.
End extension.

Lemma CumulativeWork_add a w : 0 ≤ a < 2 ^ 256 →
  CumulativeWork a w = if a + w <? 2 ^ 256 then Ok (a + w) else Panic (Errorf "Uint overflow").
Proof using. intros Ha. unfold CumulativeWork, UintAdd. rewrite Z.add_0_l. by destruct (Z.ltb_spec a (2 ^ 256)); [|lia]. Qed.

Lemma processHeaders_spec b p rest hs e x :
  heights_from b (p ++ rest) → heights_from b (p ++ e) → p ≠ [] → 0 ≤ b → last (p ++ e) = Some x →
  b + Z.of_nat (length (p ++ e)) + Z.of_nat (length hs) ≤ 2 ^ 31 → 0 ≤ li_totalWork x < 2 ^ 256 →
  (r ← foldM processHeader (mkExtension e (repr (p ++ rest)), x) hs; Ok (ext_headers r.1)) =
  (ext ← extend_spec (p ++ e) x hs; Ok (e ++ ext)).
Proof using BL.
  intros Hc He Hp Hb. revert e x He. induction hs as [|h hs IH]; intros e x He Hx Hmax Hw.
  { cbn. by rewrite app_nil_r. }
  cbn [foldM extend_spec length] in *. unfold processHeader at 2.
  rewrite (checkHeader_chain b p rest e) by (done || lia).
  destruct (check_spec (p ++ e) x h) as [u|er|er] eqn:Hchk; [|done|done].
  rewrite CumulativeWork_add by done. pose proof (CalcWork_nonneg (Bits h)).
  destruct (Z.ltb_spec (li_totalWork x + CalcHeaderWork h) (2 ^ 256)); [|done]. cbn [mbind outcome_bind].
  assert (li_height x = b + Z.of_nat (length (p ++ e)) - 1) as Hh.
  { pose proof Hx as Hx'. rewrite last_lookup in Hx'. rewrite (He _ _ Hx'). apply lookup_lt_Some in Hx'. lia. }
  rewrite u32_small by (unfold in_u32; lia). fold (child x h). unfold addHeader. cbn [ext_headers ext_store].
  rewrite IH.
  - rewrite app_assoc. destruct (extend_spec ((p ++ e) ++ [child x h]) (child x h) hs) as [ext|er|er]; [|done|done].
    cbn [mbind outcome_bind]. by rewrite <- app_assoc.
  - rewrite app_assoc. apply heights_from_app. split; [done|]. intros [|i] y Hy; [|done]. injection Hy as <-. simpl. lia.
  - by rewrite app_assoc, last_snoc.
  - rewrite app_assoc, length_app. simpl. lia.
  - simpl. unfold CalcHeaderWork in *. lia.
Qed.

Lemma processChain_spec b p rest hs x :
  heights_from b (p ++ rest) → 0 ≤ b → last p = Some x →
  b + Z.of_nat (length p) + Z.of_nat (length hs) ≤ 2 ^ 31 → 0 ≤ li_totalWork x < 2 ^ 256 →
  (store ← processNewHeadersChain (mkExtension [] (repr (p ++ rest))) x hs; Ok (ext_headers store)) = extend_spec p x hs.
Proof using BL.
  intros Hc Hb Hx Hmax Hw. pose proof (processHeaders_spec b p rest hs [] x) as Hs. rewrite !app_nil_r in Hs.
  specialize (Hs Hc ltac:(by apply heights_from_app in Hc as [? _]) ltac:(by destruct p) Hb Hx Hmax Hw).
  unfold processNewHeadersChain. destruct (foldM processHeader _ hs) as [r|er|er]; cbn [mbind outcome_bind] in *;
    rewrite Hs; by destruct (extend_spec p x hs).
Qed.

(** The client, on the stores of a chain, follows the plan. *)
Lemma InsertHeaders_client_spec c hs : chain_ok c → c ≠ [] →
  (∀ x, last c = Some x → li_height x + 1 + Z.of_nat (length hs) ≤ 2 ^ 31) →
  InsertHeaders_client (repr c) hs =
  match plan_spec c hs with
  | Ok (p, ext) => Ok (mkInsertResult (info_of <$> ext)
      (if (length p =? length c)%nat then None else info_of <$> last p))
  | Err e => Err e
  | Panic e => Panic e
  end.
Proof using BL HA.
  intros Hok Hne Hmax. destruct (chain_ok_heights c Hok) as (b & Hh & Hb). destruct (Hb Hne) as [Hb0 Hb1].
  pose proof (chain_ok_NoDup c Hok) as Hnd.
  destruct (last c) as [tip|] eqn:Htip; [|by apply last_None in Htip]. specialize (Hmax tip eq_refl).
  assert (tip ∈ c) as Htin by (by apply last_Some_elem_of in Htip).
  pose proof (co_work_range _ Hok tip Htin) as Hwt.
  assert (li_height tip = b + Z.of_nat (length c) - 1) as Hht.
  { pose proof Htip as Ht. rewrite last_lookup in Ht. rewrite (Hh _ _ Ht). apply lookup_lt_Some in Ht. lia. }
  unfold InsertHeaders_client, plan_spec. destruct hs as [|first hs']; [done|]. set (hs := first :: hs') in *.
  destruct (negb (headersFormChain hs)); [done|]. rewrite (repr_GetTip b), Htip by done. cbn [fmap option_fmap option_map].
  rewrite toLocalInfo_info. cbn [mbind outcome_bind]. change (BlockHash (li_header tip)) with (hashOf tip).
  case_bool_decide as Hprev.
  - pose proof (processChain_spec b c [] hs tip) as Hp. rewrite app_nil_r in Hp.
    specialize (Hp Hh Hb0 Htip ltac:(lia) Hwt).
    destruct (processNewHeadersChain (mkExtension [] (repr c)) tip hs) as [st|er|er];
      cbn [mbind outcome_bind] in *; rewrite <- Hp; [|done|done].
    cbn [mbind outcome_bind]. rewrite toBTCHeaderInfos_info. cbn [mbind outcome_bind]. by rewrite Nat.eqb_refl.
  - rewrite FromChainhash_BlockHash. cbn [mbind outcome_bind]. rewrite (repr_GetHeaderByHash b) by done.
    destruct (list_find (λ x, hashOf x = BlockHash first) c) as [[j y]|] eqn:Hknown.
    { apply list_find_Some in Hknown as (Hj & Hy & _). rewrite bool_decide_eq_true_2; [done|].
      rewrite <- Hy. by eapply list_elem_of_fmap_2, list_elem_of_lookup_2. }
    rewrite bool_decide_eq_false_2.
    2: { intros (y & Hy & Hin)%list_elem_of_fmap. apply list_find_None in Hknown. rewrite Forall_forall in Hknown.
         by apply (Hknown y). }
    rewrite FromChainhash_PrevBlock. cbn [mbind outcome_bind]. rewrite (repr_GetHeaderByHash b) by done.
    destruct (list_find (λ x, hashOf x = PrevBlock first) c) as [[i parent]|] eqn:Hfind; [|done].
    apply list_find_Some in Hfind as (Hi & Hph & _). rewrite toLocalInfo_info. cbn [mbind outcome_bind].
    assert (last (take (S i) c) = Some parent) as Hlast by (rewrite (take_S_r _ _ parent) by done; apply last_snoc).
    assert (S i < length c)%nat as Hlt.
    { pose proof (lookup_lt_Some _ _ _ Hi). destruct (decide (S i = length c)) as [E|]; [|lia]. exfalso. apply Hprev.
      rewrite last_lookup in Htip. replace (pred (length c)) with i in Htip by lia. congruence. }
    pose proof (processChain_spec b (take (S i) c) (drop (S i) c) hs parent) as Hp. rewrite take_drop in Hp.
    rewrite length_take in Hp. specialize (Hp Hh Hb0 Hlast ltac:(lia) ltac:(by apply Hok; eapply list_elem_of_lookup_2)).
    destruct (processNewHeadersChain (mkExtension [] (repr c)) parent hs) as [st|er|er];
      cbn [mbind outcome_bind] in *; rewrite <- Hp; [|done|done]. cbn [mbind outcome_bind].
    destruct (last (ext_headers st)) as [t|]; [|done].
    destruct (li_totalWork t <=? li_totalWork tip); [done|]. rewrite toBTCHeaderInfos_info. cbn [mbind outcome_bind].
    rewrite length_take. destruct (Nat.eqb_spec (S i `min` length c) (length c)); [lia|]. by rewrite Hlast.
Qed.

(** ** The specification keeps chains valid *)

Lemma linked_cons a hs : linked (a :: hs) ↔ (∀ h, head hs = Some h → PrevBlock h = BlockHash a) ∧ linked hs.
Proof using.
  split.
  - intros Hl. split.
    + intros h Hh. destruct hs as [|h' hs]; [done|]. injection Hh as ->. by apply (Hl 0%nat).
    + intros i x y Hx Hy. by apply (Hl (S i)).
  - intros [Hh Hl] [|i] x y Hx Hy.
    + injection Hx as <-. destruct hs as [|h hs]; [done|]. apply Hh. done.
    + by apply (Hl i).
Qed.

Lemma headersFormChain_linked hs : headersFormChain hs = true → linked hs.
Proof using HA.
  unfold headersFormChain. destruct hs as [|h hs]; [done|].
  cbn [headersFormChain_from]. rewrite (bool_decide_eq_true_2 (emptyHash = emptyHash)) by done.
  revert h. induction hs as [|h' hs IH]; intros h; cbn [headersFormChain_from]; [by intros _ [|i] ?? [=]|].
  rewrite bool_decide_eq_false_2 by apply BlockHash_nonzero. case_bool_decide as Hp; [|done]. simpl.
  intros Hf. apply linked_cons. split; [by intros ? [= <-]|]. by apply IH.
Qed.

Lemma chain_ok_snoc c x h : chain_ok c → last c = Some x → check_spec c x h = Ok tt →
  PrevBlock h = BlockHash (li_header x) → li_height x + 1 < 2 ^ 31 - 1 →
  0 ≤ li_totalWork x + CalcHeaderWork h < 2 ^ 256 → chain_ok (c ++ [child x h]).
Proof using.
  intros [H1 H2 H3 H4 H5] Hx Hchk Hprev Hh Hw. pose proof Hx as Hl. rewrite last_lookup in Hl.
  assert (x ∈ c) as Hin by (by eapply list_elem_of_lookup_2).
  assert (0 < length c)%nat as Hpos by (destruct c; [done|simpl; lia]).
  assert (∀ i y, (c ++ [child x h]) !! i = Some y → c !! i = Some y ∨ (i = length c ∧ y = child x h)) as Hcase.
  { intros i y [Hy|[Hge Hy]]%lookup_app_Some; [by left|right].
    apply list_lookup_singleton_Some in Hy as [? <-]. split; [lia|done]. }
  split.
  - intros i y x0 Hi H0. apply Hcase in H0 as [H0|[H0 _]]; [|lia].
    apply Hcase in Hi as [Hi|[-> ->]]; [by apply (H1 i y x0)|]. simpl.
    pose proof (H1 _ _ _ Hl H0). lia.
  - intros y [Hy|Hy]%elem_of_app; [by apply H2|]. apply list_elem_of_singleton in Hy as ->. simpl.
    apply H2 in Hin. lia.
  - intros y [Hy|Hy]%elem_of_app; [by apply H3|]. apply list_elem_of_singleton in Hy as ->. done.
  - intros i a b. rewrite !list_lookup_fmap. intros (y & Hy & ->)%fmap_Some (z & Hz & ->)%fmap_Some.
    apply Hcase in Hz as [Hz|[Hi ->]].
    + apply Hcase in Hy as [Hy|[-> _]]; [|apply lookup_lt_Some in Hz; lia].
      apply (H4 i); rewrite list_lookup_fmap; [by rewrite Hy|by rewrite Hz].
    + apply Hcase in Hy as [Hy|[-> _]]; [|lia]. replace (pred (length c)) with i in Hl by lia. simplify_eq. done.
  - intros i y z Hy Hz. apply Hcase in Hz as [Hz|[Hi ->]].
    + apply Hcase in Hy as [Hy|[-> _]]; [|apply lookup_lt_Some in Hz; lia].
      rewrite take_app_le by (apply lookup_lt_Some in Hz; lia). by apply H5.
    + apply Hcase in Hy as [Hy|[-> _]]; [|lia]. replace (pred (length c)) with i in Hl by lia. simplify_eq.
      rewrite take_app_length' by done. done.
Qed.

Lemma check_spec_work c x h u : check_spec c x h = Ok u → 0 < CalcHeaderWork h.
Proof using BL.
  unfold check_spec. intros Hk. apply bind_Ok in Hk as (_ & _ & Hk). destruct u. by eapply CheckBlockHeaderSanity_work.
Qed.

Lemma extend_ok hs c x ext : chain_ok c → last c = Some x → linked (li_header x :: hs) →
  li_height x + Z.of_nat (length hs) < 2 ^ 31 - 1 → extend_spec c x hs = Ok ext →
  li_header <$> ext = hs ∧ chain_ok (c ++ ext) ∧
  ∀ t, last ext = Some t → li_totalWork x < li_totalWork t ∧ li_height x < li_height t.
Proof using BL.
  revert c x ext. induction hs as [|h hs IH]; intros c x ext Hok Hx Hlink Hmax.
  { intros [= <-]. by rewrite app_nil_r. }
  cbn [extend_spec length] in *. destruct (check_spec c x h) as [[]|er|er] eqn:Hchk; [|done|done].
  pose proof (check_spec_work _ _ _ _ Hchk) as Hw.
  destruct (Z.ltb_spec (li_totalWork x + CalcHeaderWork h) (2 ^ 256)) as [Hlt|]; [|done].
  intros Hk. apply bind_Ok in Hk as (ext' & Hext & Hk). injection Hk as <-.
  apply linked_cons in Hlink as [Hprev Hlink].
  assert (0 ≤ li_totalWork x) by (apply (co_work_range _ Hok); by apply last_Some_elem_of in Hx).
  destruct (IH (c ++ [child x h]) (child x h) ext') as (Hmap & Hok' & Hlast).
  - apply chain_ok_snoc; [done|done|done|by apply Hprev|lia|lia].
  - apply last_snoc.
  - exact Hlink.
  - simpl. lia.
  - exact Hext.
  - split_and!; [by rewrite fmap_cons, Hmap| |].
    + by rewrite <- app_assoc in Hok'.
    + intros t Ht. destruct ext' as [|y ext'].
      * injection Ht as <-. simpl. lia.
      * rewrite last_cons_cons in Ht. destruct (Hlast t Ht) as [? ?]. simpl in *. lia.
Qed.

Lemma extend_length hs c x ext : extend_spec c x hs = Ok ext → length ext = length hs.
Proof using.
  revert c x ext. induction hs as [|h hs IH]; intros c x ext; cbn [extend_spec]; [by intros [= <-]|].
  destruct (check_spec c x h); [|done|done]. destruct (_ <? _); [|done]. intros Hk.
  apply bind_Ok in Hk as (ext' & Hext & Hk). injection Hk as <-. simpl. by rewrite (IH _ _ _ Hext).
Qed.

(** What a plan does to a valid chain. *)
Record replaced c hs p ext : Prop := {
  rp_prefix : ∃ rest, c = p ++ rest;
  rp_kept : p ≠ [];
  rp_headers : li_header <$> ext = hs;
  rp_new : ext ≠ [];
  rp_ok : chain_ok (p ++ ext);
  rp_work x y : last c = Some x → last (p ++ ext) = Some y → li_totalWork x < li_totalWork y
}.

Lemma last_app_r {A} (l1 l2 : list A) : l2 ≠ [] → last (l1 ++ l2) = last l2.
Proof using. intros Hne. destruct l2 as [|a l2 _] using rev_ind; [done|]. by rewrite app_assoc, !last_snoc. Qed.

Lemma plan_replaced c hs p ext : chain_ok c → (∀ x, last c = Some x → li_height x + Z.of_nat (length hs) < 2 ^ 31 - 1) →
  plan_spec c hs = Ok (p, ext) → replaced c hs p ext.
Proof using BL HA.
  intros Hok Hmax. unfold plan_spec. destruct hs as [|first hs']; [done|]. set (hs := first :: hs') in *.
  destruct (headersFormChain hs) eqn:Hform; [|done]. apply headersFormChain_linked in Hform. simpl negb. cbv iota.
  destruct (last c) as [tip|] eqn:Htip; [|done]. specialize (Hmax tip eq_refl).
  case_bool_decide as Hprev.
  - intros Hk. apply bind_Ok in Hk as (e & Hext & Hk). injection Hk as <- <-.
    assert (linked (li_header tip :: hs)) as Hl by (apply linked_cons; split; [by intros ? [= <-]|done]).
    destruct (extend_ok hs c tip e Hok Htip Hl ltac:(lia) Hext) as (Hm & Hok' & Hw).
    assert (e ≠ []) as Hne by (intros ->; done).
    split; [exists []; by rewrite app_nil_r|by intros ->|done|done|done|].
    intros x y Hx. rewrite Htip in Hx. injection Hx as <-. rewrite last_app_r by done. apply Hw.
  - case_bool_decide; [done|]. destruct (list_find _ c) as [[i parent]|] eqn:Hfind; [|done].
    apply list_find_Some in Hfind as (Hi & Hph & _). cbv zeta. intros Hk. apply bind_Ok in Hk as (e & Hext & Hk).
    destruct (last e) as [t|] eqn:Ht; [|done].
    destruct (Z.leb_spec (li_totalWork t) (li_totalWork tip)); [done|]. injection Hk as <- <-.
    assert (last (take (S i) c) = Some parent) as Hlast by (rewrite (take_S_r _ _ parent) by done; apply last_snoc).
    assert (linked (li_header parent :: hs)) as Hl by (apply linked_cons; split; [by intros ? [= <-]|done]).
    assert (chain_ok (take (S i) c)) as Hokp by (apply (chain_ok_prefix _ (drop (S i) c)); by rewrite take_drop).
    assert (li_height parent ≤ li_height tip) as Hle.
    { destruct (chain_ok_heights c Hok) as (b & Hh & _). rewrite last_lookup in Htip.
      rewrite (Hh _ _ Hi), (Hh _ _ Htip). apply lookup_lt_Some in Hi. lia. }
    destruct (extend_ok hs _ parent e Hokp Hlast Hl ltac:(lia) Hext) as (Hm & Hok' & Hw).
    assert (e ≠ []) as Hne by (intros ->; done).
    split; [exists (drop (S i) c); by rewrite take_drop| |done|done|done|].
    + intros Hnil. rewrite Hnil in Hlast. done.
    + intros x y Hx. rewrite Htip in Hx. injection Hx as <-. rewrite last_app_r by done. rewrite Ht. by intros [= <-].
Qed.

(** ** The handlers *)

Section handlers.
Context {BA : Bech32} {E : Type} {LH : BTCLightClientHooks E}.

(** The hooks of the headers that follow a chain. *)
Fixpoint announce p (e : E) ext : outcome E :=
  match ext with
  | [] => Ok e
  | y :: ext =>
    let p := p ++ [y] in
    e ← AfterBTCHeaderInserted (repr p) e (info_of y);
    e ← AfterBTCRollForward (repr p) e (info_of y);
    announce p e ext
  end.

(** The module as a function of its chain: the part of the chain that is not
    kept is dropped and announced, then each new header is added and announced. *)
Definition insert_spec c (e : E) hs : outcome (list (localHeaderInfo H) * E) :=
  '(p, ext) ← plan_spec c hs;
  e ← match last c, last p with
      | Some from, Some to =>
        if (length p =? length c)%nat then Ok e else AfterBTCRollBack (repr p) e (info_of from) (info_of to)
      | _, _ => Panic (Errorf "nil pointer dereference")
      end;
  e ← announce p e ext;
  Ok (p ++ ext, e).

Definition insert_msg_spec (params : LightClientParams) c (e : E) (msg : MsgInsertHeaders)
    : outcome (list (localHeaderInfo H) * E) :=
  match MsgInsertHeaders_ValidateStateless msg with
  | Err _ => Err ErrInvalidMessageFormat
  | Panic e => Panic e
  | Ok _ =>
    reporter ← MsgInsertHeaders_ReporterAddress msg;
    allowed ← canInsertHeaders params reporter;
    if negb allowed then Err ErrUnauthorizedReporter
    else hs ← BtcHeadersBytesToBlockHeader (mih_Headers msg);
         '(c, e) ← insert_spec c e hs;
         Ok (c, IndexRefundableHeaders e msg)
  end.

Lemma insertAndTrigger_announce p ext e : NoDup (li_height <$> p ++ ext) → NoDup (hashOf <$> p ++ ext) →
  foldM insertAndTrigger (repr p, e) (info_of <$> ext) = (e ← announce p e ext; Ok (repr (p ++ ext), e)).
Proof using.
  revert p e. induction ext as [|y ext IH]; intros p e H1 H2; [by rewrite app_nil_r|].
  cbn [fmap list_fmap foldM announce insertAndTrigger].
  replace (p ++ y :: ext) with ((p ++ [y]) ++ ext) in * by by rewrite <- app_assoc.
  rewrite <- repr_snoc.
  - destruct (AfterBTCHeaderInserted (repr (p ++ [y])) e (info_of y)) as [e1|er|er]; [|done|done].
    cbn [mbind outcome_bind]. destruct (AfterBTCRollForward (repr (p ++ [y])) e1 (info_of y)) as [e2|er|er]; [|done|done].
    cbn [mbind outcome_bind]. by apply IH.
  - rewrite !fmap_app in H1. apply NoDup_app in H1 as [H1 _]. apply NoDup_app in H1 as (_ & H1 & _).
    intros Hin. apply (H1 _ Hin). by apply list_elem_of_singleton.
  - rewrite !fmap_app in H2. apply NoDup_app in H2 as [H2 _]. apply NoDup_app in H2 as (_ & H2 & _).
    intros Hin. apply (H2 _ Hin). by apply list_elem_of_singleton.
Qed.

Lemma insertHeadersWithHook_spec c e hs : chain_ok c → c ≠ [] →
  (∀ x, last c = Some x → li_height x + Z.of_nat (length hs) < 2 ^ 31 - 1) →
  insertHeadersWithHookAndEvents (repr c) e hs = ('(c', e') ← insert_spec c e hs; Ok (repr c', e')).
Proof using BL HA.
  intros Hok Hne Hmax. unfold insertHeadersWithHookAndEvents, insert_spec.
  rewrite InsertHeaders_client_spec; [|done|done|intros x Hx; specialize (Hmax x Hx); lia].
  destruct (plan_spec c hs) as [[p ext]|er|er] eqn:Hplan; [|done|done]. cbn [mbind outcome_bind].
  destruct (plan_replaced c hs p ext Hok Hmax Hplan) as [(rest & ->) Hp Hm Hnew Hok' _].
  destruct (chain_ok_heights _ Hok) as (b & Hh & _). destruct (chain_ok_heights _ Hok') as (b' & Hh' & _).
  pose proof (chain_ok_NoDup _ Hok) as Hnd. pose proof (chain_ok_NoDup _ Hok') as Hnd'.
  pose proof (NoDup_heights _ _ Hh') as Hnh.
  destruct (last p) as [to|] eqn:Hto; [|by apply last_None in Hto].
  destruct (last (p ++ rest)) as [from|] eqn:Hfrom; [|by apply last_None in Hfrom].
  unfold triggerEventAndHandleHooksHandler. cbn [HeadersToInsert HeaderToRollbackTo].
  destruct (Nat.eqb_spec (length p) (length (p ++ rest))) as [Hlen|Hlen].
  - rewrite length_app in Hlen. destruct rest; [|simpl in Hlen; lia]. rewrite app_nil_r.
    cbn [mbind outcome_bind]. rewrite insertAndTrigger_announce by done. by destruct (announce p e ext).
  - cbn [fmap option_fmap option_map]. rewrite (repr_GetTip b), Hfrom by done.
    cbn [fmap option_fmap option_map hi_Height info_of].
    apply last_Some in Hto as [p0 ->]. rewrite <- app_assoc in *. rewrite (repr_rollback b) by (by rewrite app_assoc in * ).
    assert (rest ≠ []) as Hrest by (intros ->; by rewrite app_nil_r in Hlen).
    assert (li_height to < li_height from) as Hlt.
    { rewrite app_assoc, last_app_r, last_lookup in Hfrom by done.
      pose proof (Hh (length p0) to) as Ht. rewrite lookup_app_r, Nat.sub_diag in Ht by lia. specialize (Ht eq_refl).
      apply heights_from_app in Hh as [_ Hh]. apply heights_from_app in Hh as [_ Hh]. rewrite (Hh _ _ Hfrom), Ht.
      simpl. lia. }
    unfold triggerRollBack, CheckRollBackInvariants. cbn [hi_Height info_of].
    destruct (Z.leb_spec (li_height from) (li_height to)); [lia|]. cbn [must mbind outcome_bind].
    destruct (AfterBTCRollBack (repr (p0 ++ [to])) e (info_of from) (info_of to)) as [e1|er|er]; [|done|done].
    cbn [mbind outcome_bind]. rewrite insertAndTrigger_announce by (by rewrite <- app_assoc).
    by destruct (announce (p0 ++ [to]) e1 ext).
Qed.

Lemma BtcHeadersBytes_length bs hs : BtcHeadersBytesToBlockHeader bs = Ok hs → length hs = length bs.
Proof using.
  unfold BtcHeadersBytesToBlockHeader.
  assert (∀ acc, foldM (λ acc b, h ← ToBlockHeader b; Ok (acc ++ [h])) acc bs = Ok hs →
    length hs = (length acc + length bs)%nat) as Hg; [|apply (Hg [])].
  induction bs as [|b bs IH]; intros acc; simpl; [intros [= <-]; lia|].
  intros Hk. apply bind_Ok in Hk as (acc' & Hk & Hrest). apply bind_Ok in Hk as (h & _ & Hk). injection Hk as <-.
  rewrite (IH _ Hrest), length_app. simpl. lia.
Qed.

Lemma insert_spec_replaced c e hs c' e' : chain_ok c →
  (∀ x, last c = Some x → li_height x + Z.of_nat (length hs) < 2 ^ 31 - 1) →
  insert_spec c e hs = Ok (c', e') → ∃ p ext, c' = p ++ ext ∧ replaced c hs p ext.
Proof using BL HA.
  intros Hok Hmax Hk. unfold insert_spec in Hk. apply bind_Ok in Hk as ([p ext] & Hplan & Hk).
  apply bind_Ok in Hk as (e1 & _ & Hk). apply bind_Ok in Hk as (e2 & _ & Hk). injection Hk as <- _.
  exists p, ext. split; [done|]. by apply plan_replaced.
Qed.

(** The room a chain has for new headers: heights stay below [2 ^ 31 - 1]. *)
Definition room c (n : nat) : Prop := ∀ x, last c = Some x → li_height x + Z.of_nat n < 2 ^ 31 - 1.

Lemma InsertHeaders_msg_spec params c e msg : chain_ok c → c ≠ [] → room c (length (mih_Headers msg)) →
  InsertHeaders params (repr c) e (Some msg) = ('(c', e') ← insert_msg_spec params c e msg; Ok (repr c', e')).
Proof using BL HA.
  intros Hok Hne Hroom. unfold InsertHeaders, insert_msg_spec, InsertHeadersWithHookAndEvents.
  unfold MsgInsertHeaders_ValidateStateless. destruct (AccFromBech32 (mih_Signer msg)); [|done].
  destruct (mih_Headers msg) as [|b bs] eqn:Hb; [done|]. rewrite <- Hb in *.
  destruct (MsgInsertHeaders_ReporterAddress msg) as [r|er|er]; [|done|done]. cbn [mbind outcome_bind].
  destruct (canInsertHeaders params r) as [al|er|er]; [|done|done]. cbn [mbind outcome_bind].
  destruct (negb al); [done|].
  destruct (BtcHeadersBytesToBlockHeader (mih_Headers msg)) as [hs|er|er] eqn:Hhs; [|done|done].
  apply BtcHeadersBytes_length in Hhs. cbn [mbind outcome_bind].
  rewrite insertHeadersWithHook_spec; [|done|done|unfold room in Hroom; by rewrite Hhs].
  by destruct (insert_spec c e hs) as [[c' e']|er|er].
Qed.

Lemma insert_msg_spec_Ok params c e msg c' e' : insert_msg_spec params c e msg = Ok (c', e') →
  ∃ hs e1, length hs = length (mih_Headers msg) ∧ insert_spec c e hs = Ok (c', e1).
Proof using.
  unfold insert_msg_spec. destruct (MsgInsertHeaders_ValidateStateless msg); [|done|done].
  intros Hk. apply bind_Ok in Hk as (r & _ & Hk). apply bind_Ok in Hk as (al & _ & Hk).
  destruct (negb al); [done|]. apply bind_Ok in Hk as (hs & Hhs & Hk). apply bind_Ok in Hk as ([c1 e1] & Hi & Hk).
  injection Hk as <- <-. exists hs, e1. split; [by eapply BtcHeadersBytes_length|done].
Qed.

(** ** Histories *)

(** A message delivered in a transaction: a failure leaves the state as it was. *)
Definition deliver (params : LightClientParams) (st : headersState * E) (msg : MsgInsertHeaders) : headersState * E :=
  match InsertHeaders params st.1 st.2 (Some msg) with Ok st' => st' | _ => st end.

Definition deliver_spec (params : LightClientParams) (st : list (localHeaderInfo H) * E) (msg : MsgInsertHeaders)
    : list (localHeaderInfo H) * E :=
  match insert_msg_spec params st.1 st.2 msg with Ok st' => st' | _ => st end.

Definition headers_sent (msgs : list MsgInsertHeaders) : nat := sum_list ((λ m, length (mih_Headers m)) <$> msgs).
Definition tipWork c : Z := match last c with Some x => li_totalWork x | None => 0 end.
Definition tipHeight c : Z := match last c with Some x => li_height x | None => 0 end.

(** What a step of the specification keeps. *)
Record evolves c c' : Prop := {
  ev_ok : chain_ok c';
  ev_base : head c' = head c;
  ev_work : c' = c ∨ tipWork c < tipWork c'
}.

Lemma evolves_trans c1 c2 c3 : evolves c1 c2 → evolves c2 c3 → evolves c1 c3.
Proof using. intros [A1 B1 C1] [A2 B2 C2]. split; [done|congruence|]. naive_solver lia. Qed.

Lemma replaced_tip_height c hs p ext : chain_ok c → replaced c hs p ext →
  tipHeight (p ++ ext) ≤ tipHeight c + Z.of_nat (length hs).
Proof using.
  intros Hok [(rest & ->) Hp Hm Hnew Hok' _]. destruct (chain_ok_heights _ Hok) as (b & Hh & _).
  destruct (chain_ok_heights _ Hok') as (b' & Hh' & _). unfold tipHeight.
  destruct (last (p ++ ext)) as [y|] eqn:Hy; [|by apply last_None, app_eq_nil in Hy as [_ ?]].
  destruct (last (p ++ rest)) as [x|] eqn:Hx; [|by apply last_None, app_eq_nil in Hx as [? _]].
  rewrite last_lookup in Hx, Hy. rewrite (Hh _ _ Hx), (Hh' _ _ Hy). destruct p as [|a p]; [done|].
  pose proof (Hh 0%nat a eq_refl). pose proof (Hh' 0%nat a eq_refl).
  rewrite <- Hm, length_fmap, !length_app. simpl. lia.
Qed.

Lemma deliver_spec_evolves params c e msg : chain_ok c → c ≠ [] →
  tipHeight c + Z.of_nat (length (mih_Headers msg)) < 2 ^ 31 - 1 →
  let st := deliver_spec params (c, e) msg in
  deliver params (repr c, e) msg = (repr st.1, st.2) ∧ evolves c st.1 ∧ st.1 ≠ [] ∧
  tipHeight st.1 ≤ tipHeight c + Z.of_nat (length (mih_Headers msg)).
Proof using BL HA.
  intros Hok Hne Hmax. assert (room c (length (mih_Headers msg))) as Hroom.
  { intros x Hx. unfold tipHeight in Hmax. by rewrite Hx in Hmax. }
  unfold deliver, deliver_spec. cbn [fst snd]. rewrite InsertHeaders_msg_spec by done.
  destruct (insert_msg_spec params c e msg) as [[c' e']|er|er] eqn:Hm; cbn [mbind outcome_bind fst snd];
    [|split_and!; [done|by split; [| |left]|done|lia]..].
  apply insert_msg_spec_Ok in Hm as (hs & e1 & Hlen & Hi). rewrite <- Hlen in *.
  destruct (insert_spec_replaced _ _ _ _ _ Hok Hroom Hi) as (p & ext & -> & Hrep).
  pose proof (replaced_tip_height _ _ _ _ Hok Hrep) as Hth. destruct Hrep as [(rest & ->) Hp Hm Hnew Hok' Hw].
  split_and!; [done| |by destruct p|done]. split; [done|by destruct p|right]. unfold tipWork.
  destruct (last (p ++ rest)) as [x|] eqn:Hx; [|by apply last_None, app_eq_nil in Hx as [? _]].
  destruct (last (p ++ ext)) as [y|] eqn:Hy; [|by apply last_None, app_eq_nil in Hy as [_ ?]]. by apply Hw.
Qed.

(** ** Genesis *)

Definition genesis_of (h : BTCHeaderInfo) : GenesisHeader :=
  mkGenesisHeader (Some (hi_Header h)) (Some (hi_Hash h)) (hi_Height h) (Some (hi_Work h)).

Lemma BTCHeaderInfo_Validate_info x : li_totalWork x ≠ 0 → BTCHeaderInfo_Validate (genesis_of (info_of x)) = Ok (info_of x).
Proof using BL.
  intros Hw. unfold BTCHeaderInfo_Validate, genesis_of, info_of. cbn [gh_Header gh_Hash gh_Work gh_Height hi_Header hi_Hash hi_Work hi_Height].
  destruct (Z.eqb_spec (li_totalWork x) 0); [done|]. rewrite Deserialize_Serialize, FromChainhash_BlockHash.
  cbn [mbind outcome_bind]. unfold hashOf. rewrite BlockHash_length, Nat.eqb_refl. cbn [negb].
  by rewrite bool_decide_eq_true_2.
Qed.

Lemma Validate_infos c : (∀ x, x ∈ c → li_totalWork x ≠ 0) →
  foldM (λ acc h, i ← BTCHeaderInfo_Validate h; Ok (acc ++ [i])) [] (genesis_of <$> (info_of <$> c)) = Ok (info_of <$> c).
Proof using BL.
  intros Hw. assert (∀ acc, foldM (λ acc h, i ← BTCHeaderInfo_Validate h; Ok (acc ++ [i])) acc
    (genesis_of <$> (info_of <$> c)) = Ok (acc ++ (info_of <$> c))) as Hg; [|apply Hg].
  induction c as [|x c IH]; intros acc; [by rewrite app_nil_r|]. cbn [fmap list_fmap foldM].
  rewrite BTCHeaderInfo_Validate_info by (apply Hw; left). cbn [mbind outcome_bind].
  rewrite IH by (intros; apply Hw; by right). by rewrite <- app_assoc.
Qed.

(** ** Properties *)

(** C23: On the stores of a valid chain, the [InsertHeaders] message server computes exactly what
    the specification computes on the list of headers: the same error or panic, or the stores of the
    new chain with the hooks run on it (a roll back announced once, then each new header in order).
    When it accepts, the new chain is a non-empty prefix of the old one followed by exactly the
    headers of the message, it is valid, and its tip has strictly more work. The hash is idealised:
    linked headers of one chain do not repeat a hash and none hashes to zero; the wire format
    round-trips, and the contextual check of a header reads nothing but its ancestors. *)
Theorem InsertHeaders_refines params c e msg : chain_ok c → c ≠ [] → room c (length (mih_Headers msg)) →
  InsertHeaders params (repr c) e (Some msg) = ('(c', e') ← insert_msg_spec params c e msg; Ok (repr c', e')) ∧
  ∀ s' e', InsertHeaders params (repr c) e (Some msg) = Ok (s', e') →
    ∃ hs p ext, BtcHeadersBytesToBlockHeader (mih_Headers msg) = Ok hs ∧ s' = repr (p ++ ext) ∧ replaced c hs p ext.
Proof using BL HA.
  intros Hok Hne Hroom. rewrite InsertHeaders_msg_spec by done. split; [done|]. intros s' e' Hk.
  apply bind_Ok in Hk as ([c1 e1] & Hm & Hk). injection Hk as <- <-.
  unfold insert_msg_spec in Hm. destruct (MsgInsertHeaders_ValidateStateless msg); [|done|done].
  apply bind_Ok in Hm as (r & _ & Hm). apply bind_Ok in Hm as (al & _ & Hm). destruct (negb al); [done|].
  apply bind_Ok in Hm as (hs & Hhs & Hm). apply bind_Ok in Hm as ([c2 e2] & Hi & Hm). injection Hm as <- <-.
  assert (room c (length hs)) as Hr by (by rewrite (BtcHeadersBytes_length _ _ Hhs)).
  destruct (insert_spec_replaced _ _ _ _ _ Hok Hr Hi) as (p & ext & -> & Hrep). by exists hs, p, ext.
Qed.

(** C24: After any sequence of [InsertHeaders] messages, accepted or not, the stores hold the chain
    of the specification. That chain is valid: linked by hashes, of consecutive heights, each header
    checked against its ancestors and the work accumulated. Its base header never changes, and
    either nothing changed or the tip has strictly more work than at the start. As in the theorem
    above, linked headers of one chain are assumed not to repeat a hash. *)
Theorem light_client_history params msgs c e : chain_ok c → c ≠ [] →
  tipHeight c + Z.of_nat (headers_sent msgs) < 2 ^ 31 - 1 →
  let st := foldl (deliver_spec params) (c, e) msgs in
  foldl (deliver params) (repr c, e) msgs = (repr st.1, st.2) ∧ evolves c st.1.
Proof using BL HA.
  revert c e. induction msgs as [|msg msgs IH]; intros c e Hok Hne Hmax; [by split; [|split; [| |left]]|].
  assert (headers_sent (msg :: msgs) = (length (mih_Headers msg) + headers_sent msgs)%nat) as Hs by done.
  rewrite Hs in Hmax.
  destruct (deliver_spec_evolves params c e msg Hok Hne ltac:(lia)) as (Hd & Hev & Hne' & Hh).
  cbn [foldl]. rewrite Hd. destruct (deliver_spec params (c, e) msg) as [c1 e1]. simpl in *.
  destruct (IH c1 e1 (ev_ok _ _ Hev) Hne' ltac:(lia)) as [Hd' Hev']. split; [done|]. by eapply evolves_trans.
Qed.

(** Exporting the module's genesis and initialising from it restores the parameters and both
    stores, and the exported headers are the whole chain in order. *)
Theorem lightclient_genesis_roundtrip blocksPerRetarget params c x0 : chain_ok c → head c = Some x0 →
  (∀ x, x ∈ c → li_totalWork x ≠ 0) → ValidateLightClientParams params = Ok tt →
  IsRetargetBlock (li_height x0) blocksPerRetarget = Ok true →
  let g := ExportGenesis_lightclient params (repr c) in
  g.2 = info_of <$> c ∧
  InitGenesis_lightclient blocksPerRetarget g.1 (genesis_of <$> g.2) = Ok (params, repr c).
Proof using BL HA.
  intros Hok H0 Hw Hp Hr. unfold ExportGenesis_lightclient, GetMainChainFrom. cbn [fst snd].
  destruct (chain_ok_heights c Hok) as (b & Hh & Hb). assert (c ≠ []) as Hne by (by intros ->).
  rewrite (repr_forward b) by (done || by apply Hb). split; [done|].
  unfold InitGenesis_lightclient, GenesisState_Validate. rewrite Hp. cbn [wrapf mbind outcome_bind].
  pose proof (Validate_infos c Hw) as Hv. destruct c as [|x c]; [done|]. injection H0 as ->.
  destruct (genesis_of <$> (info_of <$> x0 :: c)) as [|g0 gs] eqn:Hg; [done|].
  assert (gh_Height g0 = li_height x0) as -> by (by injection Hg as <- _).
  rewrite Hr. cbn [mbind outcome_bind negb]. rewrite Hv. unfold SetParams_lightclient. rewrite Hp. cbn [must mbind outcome_bind].
  unfold InsertHeaderInfos. change empty_headers with (repr []). rewrite (repr_insert [] (x0 :: c)); [done| |].
  - by apply (NoDup_heights b).
  - by apply chain_ok_NoDup.
Qed.

End handlers.

End chain.

(** ** An instance *)

Module LightExample.

(** Four headers: a base, two that follow it in turn, and a heavier one that
    forks off after the base. *)
Inductive toy := Base | Next1 | Next2 | Fork.
Definition tag (h : toy) : byte := match h with Base => x01 | Next1 => x02 | Next2 => x03 | Fork => x04 end.
Definition toy_prev (h : toy) : bytes :=
  replicate 32 (match h with Base => x00 | Next1 => x01 | Next2 => x02 | Fork => x01 end).
Definition toy_rank (h : toy) : nat := match h with Base => 0 | Next1 => 1 | Next2 => 2 | Fork => 1 end.
Definition toy_decode (b : bytes) : option toy :=
  find (λ h, bool_decide (b = replicate 80 (tag h))) [Base; Next1; Next2; Fork].

#[export] Instance toy_wire : BtcWire toy :=
  {| Deserialize := toy_decode; Serialize h := replicate 80 (tag h); BlockHash h := replicate 32 (tag h);
     PrevBlock := toy_prev; Bits h := match h with Fork => 20 | _ => 5 end; Timestamp h := Z.of_nat (toy_rank h);
     CalcWork b := Z.max 1 b |}.
#[export] Instance toy_checks : BtcChecks toy :=
  {| CheckBlockHeaderContext h ctx := if hc_Timestamp ctx <? Timestamp h then Ok tt else Err (Errorf "time too old");
     CheckBlockHeaderSanity h t := Ok tt |}.
#[export] Instance toy_laws : BtcLaws toy toy_wire toy_checks.
Proof.
  split.
  - by intros [].
  - by intros [].
  - by intros [].
  - by intros [].
  - intros h c1 c2 _ _ Ht _. simpl. by rewrite Ht.
  - intros h t _. simpl. lia.
  - intros b. simpl. lia.
Qed.

Lemma toy_rank_lookup (l : list toy) i a : linked l → l !! i = Some a →
  ∀ j b, (j < i)%nat → l !! j = Some b → (toy_rank b < toy_rank a)%nat.
Proof.
  intros Hl. revert a. induction i as [|i IH]; intros a Ha j b Hj Hb; [lia|].
  destruct (lookup_lt_is_Some_2 l i) as [a' Ha']; [apply lookup_lt_Some in Ha; lia|].
  assert (toy_rank a' < toy_rank a)%nat as Hlt.
  { pose proof (Hl i a' a Ha' Ha) as Hp. destruct a, a'; simpl; first [lia | by vm_compute in Hp]. }
  destruct (decide (j = i)) as [->|]; [congruence|]. specialize (IH a' Ha' j b ltac:(lia) Hb). lia.
Qed.

#[export] Instance toy_acyclic : HashAcyclic toy toy_wire.
Proof.
  split; [|by intros []]. intros l _ Hl. apply NoDup_alt. intros i j z. rewrite !list_lookup_fmap.
  intros (a & Ha & ->)%fmap_Some (b & Hb & Hab)%fmap_Some.
  assert (a = b) as <- by (destruct a, b; first [done | by vm_compute in Hab]).
  destruct (lt_eq_lt_dec i j) as [[Hlt|]|Hlt]; [|done|].
  - pose proof (toy_rank_lookup l j a Hl Hb i a Hlt Ha). lia.
  - pose proof (toy_rank_lookup l i a Hl Ha j a Hlt Hb). lia.
Qed.

(** Hooks that log heights: inserted, rolled back to, rolled forward. *)
#[export] Instance toy_hooks : BTCLightClientHooks (list (string * Z)) :=
  {| AfterBTCHeaderInserted _ e h := Ok (e ++ [("inserted"%string, hi_Height h)]);
     AfterBTCRollBack _ e _ h := Ok (e ++ [("back"%string, hi_Height h)]);
     AfterBTCRollForward _ e h := Ok (e ++ [("forward"%string, hi_Height h)]);
     IndexRefundableHeaders e _ := e |}.
#[local] Existing Instance hex_addresses.

Definition start : list (localHeaderInfo toy) := [mkLocalInfo Base 2016 100].
Definition msg_of (l : list toy) : MsgInsertHeaders := {| mih_Signer := "aa"; mih_Headers := Serialize <$> l |}.

Lemma start_ok : chain_ok start.
Proof.
  split.
  - intros i x x0 Hx H0. destruct i; [|done]. simplify_eq/=. lia.
  - intros x ->%list_elem_of_singleton. simpl. lia.
  - intros x ->%list_elem_of_singleton. simpl. lia.
  - by intros [|i] ?? [=].
  - by intros [|i] ?? [=].
Qed.

(** Two headers on top of the base. *)
Lemma InsertHeaders_refines_witness :
  ∃ s', InsertHeaders [] (repr start) [] (Some (msg_of [Next1; Next2])) =
    Ok (s', [("inserted"%string, 2017); ("forward"%string, 2017); ("inserted"%string, 2018); ("forward"%string, 2018)]) ∧
  ∃ hs p ext, BtcHeadersBytesToBlockHeader (mih_Headers (msg_of [Next1; Next2])) = Ok hs ∧ s' = repr (p ++ ext) ∧
    replaced start hs p ext.
Proof.
  destruct (InsertHeaders_refines [] start [] (msg_of [Next1; Next2]) start_ok ltac:(done)) as [He Hs].
  { intros x [= <-]. vm_compute. done. }
  destruct (InsertHeaders [] (repr start) [] (Some (msg_of [Next1; Next2]))) as [[s' e']|er|er] eqn:Hi.
  - exists s'. split.
    + f_equal. f_equal. apply (f_equal (get_ok (repr start, []))) in Hi. apply (f_equal snd) in Hi. cbn [get_ok snd] in Hi.
      rewrite <- Hi. vm_compute. reflexivity.
    + exact (Hs s' e' eq_refl).
  - exfalso. apply (f_equal is_ok) in Hi. vm_compute in Hi. discriminate Hi.
  - exfalso. apply (f_equal is_ok) in Hi. vm_compute in Hi. discriminate Hi.
Defined.

(** A header, an unlinked pair that is refused, the fork, which replaces the header, and
    the replaced header again, which has too little work. *)
Lemma light_client_history_witness :
  let msgs := [msg_of [Next1]; msg_of [Next2; Fork]; msg_of [Fork]; msg_of [Next1]] in
  let st := foldl (deliver_spec []) (start, []) msgs in
  foldl (deliver []) (repr start, []) msgs = (repr st.1, st.2) ∧ evolves start st.1.
Proof. apply (light_client_history [] _ start []); [apply start_ok|done|vm_compute; done]. Defined.

Lemma lightclient_genesis_roundtrip_witness :
  let g := ExportGenesis_lightclient [hex_encode [xaa]] (repr start) in
  g.2 = info_of <$> start ∧
  InitGenesis_lightclient 2016 g.1 (genesis_of <$> g.2) = Ok ([hex_encode [xaa]], repr start).
Proof.
  apply (lightclient_genesis_roundtrip 2016 [hex_encode [xaa]] start (mkLocalInfo Base 2016 100)).
  - apply start_ok.
  - reflexivity.
  - intros x ->%list_elem_of_singleton. discriminate.
  - vm_compute. reflexivity.
  - vm_compute. reflexivity.
Defined.

End LightExample.
