(* ===== verification/SpvProofs.v ===== *)
(** * Merkle proofs: branches verify, and what verifies is in the tree

    The reference is the Merkle tree of Bitcoin: each level pairs the nodes of
    the one below, the last one with itself when there is no other. *)

From S2P Require Import Prelude Bytes Store BbnTypes Coins LightClient TxFormatter Spv.

Section merkle.
Context {DH : DoubleHash}.
Implicit Types (l : list bytes).

(** ** The tree *)

Fixpoint pair_up l : list bytes :=
  match l with
  | a :: b :: l => hashConcat a b :: pair_up l
  | [a] => [hashConcat a a]
  | [] => []
  end.
Definition level (k : nat) l : list bytes := Nat.iter k pair_up l.
Definition height l : nat := Nat.log2_up (length l).
Definition merkle_levels l : list (list bytes) := (λ k, level k l) <$> seq 0 (S (height l)).
Definition merkle_root l : option bytes := head (level (height l) l).

Lemma level_S k l : level (S k) l = level k (pair_up l).
Proof. unfold level. by rewrite Nat.iter_succ_r. Qed.

Lemma list_ind2 {A} (P : list A → Prop) :
  P [] → (∀ a, P [a]) → (∀ a b (l : list A), P l → P (a :: b :: l)) → ∀ l : list A, P l.
Proof.
  intros H0 H1 H2. assert (∀ l : list A, P l ∧ ∀ a, P (a :: l)) as Hg; [|intros l; apply Hg].
  induction l as [|a l [IH1 IH2]]; [done|]. split; [done|]. intros b. by apply H2.
Qed.

Lemma pair_up_length l : length (pair_up l) = ((length l + 1) / 2)%nat.
Proof.
  induction l as [|a|a b l IH] using list_ind2; [done|done|]. simpl length. rewrite IH.
  replace (S (S (length l)) + 1)%nat with (length l + 1 + 1 * 2)%nat by lia. rewrite Nat.div_add by lia. lia.
Qed.

Lemma log2_up_half n : (2 ≤ n)%nat → Nat.log2_up n = S (Nat.log2_up ((n + 1) / 2)).
Proof.
  intros Hn. apply Nat.log2_up_unique; [lia|]. pose proof (Nat.div_mod_eq (n + 1) 2) as Hd.
  pose proof (Nat.mod_upper_bound (n + 1) 2 ltac:(lia)) as Hm. set (m := ((n + 1) / 2)%nat) in *. cbn [Nat.pred].
  destruct (decide (m = 1)%nat) as [E|E].
  - rewrite E. simpl. lia.
  - pose proof (Nat.log2_up_spec m ltac:(lia)) as [H1 H2]. pose proof (Nat.log2_up_pos m ltac:(lia)).
    rewrite Nat.pow_succ_r'. split; [|lia]. destruct (Nat.log2_up m) as [|k]; [lia|]. cbn [Nat.pred] in H1.
    rewrite Nat.pow_succ_r'. lia.
Qed.

Lemma height_step l : (2 ≤ length l)%nat → height l = S (height (pair_up l)).
Proof. intros Hl. unfold height. by rewrite log2_up_half, pair_up_length. Qed.
Lemma height_small l : (length l ≤ 1)%nat → height l = 0%nat.
Proof. intros Hl. by apply Nat.log2_up_eqn0. Qed.

Lemma merkle_levels_step l : (2 ≤ length l)%nat → merkle_levels l = l :: merkle_levels (pair_up l).
Proof.
  intros Hl. unfold merkle_levels. rewrite (height_step l) by done.
  change (seq 0 (S (S (height (pair_up l))))) with (0%nat :: seq 1 (S (height (pair_up l)))).
  rewrite fmap_cons. f_equal. rewrite <- fmap_S_seq, <- list_fmap_compose.
  apply list_fmap_ext. intros _ k _. apply level_S.
Qed.
Lemma merkle_levels_one l : (length l ≤ 1)%nat → merkle_levels l = [l].
Proof. intros Hl. unfold merkle_levels. by rewrite height_small. Qed.

Lemma merkle_root_step l : (2 ≤ length l)%nat → merkle_root l = merkle_root (pair_up l).
Proof. intros Hl. unfold merkle_root. rewrite (height_step l) by done. by rewrite level_S. Qed.
Lemma merkle_root_one a : merkle_root [a] = Some a.
Proof. done. Qed.

(** The two children of a node. *)
Lemma pair_up_lookup l q : (2 ≤ length l)%nat → (q < length (pair_up l))%nat →
  ∃ a b, l !! (2 * q)%nat = Some a ∧ l !! Nat.min (2 * q + 1) (length l - 1) = Some b ∧
    pair_up l !! q = Some (hashConcat a b).
Proof.
  intros _. revert q. induction l as [|a|a b l IH] using list_ind2; intros q Hq; simpl in Hq.
  - lia.
  - destruct q; [|lia]. by exists a, a.
  - destruct q as [|q]; [by exists a, b|]. destruct (IH q ltac:(lia)) as (x & y & Hx & Hy & Hp).
    exists x, y. cbn [pair_up lookup list_lookup]. replace (2 * S q)%nat with (S (S (2 * q))) by lia. split_and!; [done| |done].
    cbn [length]. pose proof (lookup_lt_Some _ _ _ Hy).
    destruct l as [|c l]; [done|]. cbn [length] in *.
    replace (Nat.min (S (S (2 * q)) + 1) (S (S (S (length l))) - 1))%nat
      with (S (S (Nat.min (2 * q + 1) (S (length l) - 1)))) by lia. done.
Qed.

(** ** Climbing *)

Fixpoint climb (current : bytes) (idx : Z) (nexts : list bytes) : bytes :=
  match nexts with
  | [] => current
  | next :: nexts =>
    climb (if idx `mod` 2 =? 1 then hashConcat next current else hashConcat current next) (Z.shiftr idx 1) nexts
  end.

Lemma shiftr_half z : Z.shiftr z 1 = z / 2.
Proof. by rewrite Z.shiftr_div_pow2. Qed.
Lemma lxor_one k : 0 ≤ k → Z.lxor k 1 = if k `mod` 2 =? 1 then k - 1 else k + 1.
Proof.
  intros Hk.
  assert (Z.lxor k 1 = if Z.odd k then k - 1 else k + 1) as ->.
  { destruct k as [|[p|p|]|p]; try done; simpl; lia. }
  rewrite Zmod_odd. by destruct (Z.odd k).
Qed.

Lemma verifySteps_climb (nexts : list bytes) (pre suf current : bytes) idx : Forall (λ n, length n = 32%nat) nexts →
  (length pre mod 32 = 0)%nat →
  verifySteps (length nexts) (pre ++ concat nexts ++ suf) (length pre / 32) current idx = climb current idx nexts.
Proof.
  intros Hall. revert pre current idx. induction Hall as [|n nexts Hn _ IH]; intros pre current idx Hpre; [done|].
  cbn [length verifySteps climb concat].
  assert (length pre / 32 * 32 = length pre)%nat as Hp.
  { pose proof (Nat.div_mod_eq (length pre) 32). lia. }
  rewrite Hp, drop_app_length, <- app_assoc, take_app_length' by done.
  pose proof (IH (pre ++ n)) as IH'. rewrite <- app_assoc in IH'.
  replace (length (pre ++ n) / 32)%nat with (S (length pre / 32)) in IH'.
  2: { rewrite length_app, Hn. replace (length pre + 32)%nat with (length pre + 1 * 32)%nat by lia.
       rewrite Nat.div_add by lia. lia. }
  apply IH'. rewrite length_app, Hn. replace (length pre + 32)%nat with (length pre + 1 * 32)%nat by lia.
  by rewrite Nat.Div0.mod_add.
Qed.

Lemma concat_length32 (nexts : list bytes) : Forall (λ n, length n = 32%nat) nexts → length (concat nexts) = (32 * length nexts)%nat.
Proof. induction 1 as [|n nexts Hn _ IH]; [done|]. simpl. rewrite length_app, Hn, IH. lia. Qed.

(** [verify] climbs. *)
Lemma verify_climb (tx root : bytes) nexts idx : length tx = 32%nat → length root = 32%nat →
  Forall (λ n, length n = 32%nat) nexts →
  verify tx root (concat nexts) idx =
  if (length nexts =? 0)%nat then bool_decide (tx = root) && (idx =? 0) else bool_decide (climb tx idx nexts = root).
Proof.
  intros Htx Hroot Hall. pose proof (concat_length32 _ Hall) as Hlen. unfold verify.
  assert (length (tx ++ concat nexts ++ root) = 32 * (2 + length nexts))%nat as Hpl.
  { rewrite !length_app, Htx, Hroot, Hlen. lia. }
  rewrite Hpl, Hlen. destruct (Nat.eqb_spec (length nexts) 0) as [E|E].
  { rewrite E. simpl. rewrite andb_true_r. by destruct (bool_decide (tx = root) && (idx =? 0)). }
  destruct (Nat.eqb_spec (32 * length nexts) 0) as [E0|_]; [lia|]. rewrite andb_false_r.
  replace (32 * (2 + length nexts))%nat with (0 + (2 + length nexts) * 32)%nat by lia.
  rewrite Nat.Div0.mod_add, Nat.div_add by lia. cbn [Nat.modulo Nat.divmod fst snd Nat.sub negb Nat.eqb].
  destruct (Nat.eqb_spec (0 + (2 + length nexts) * 32) 64); [lia|].
  replace (0 mod 32 =? 0)%nat with true by done. cbn [negb].
  replace (0 / 32 + (2 + length nexts) - 1 - 1)%nat with (length nexts) by (simpl; lia).
  rewrite take_app_length' by done.
  pose proof (verifySteps_climb nexts tx root tx idx Hall ltac:(by rewrite Htx)) as Hs. rewrite Htx in Hs.
  change (32 / 32)%nat with 1%nat in Hs. rewrite Hs.
  replace (0 + (2 + length nexts) * 32 - 32)%nat with (length (tx ++ concat nexts)) by (rewrite length_app, Htx, Hlen; lia).
  by rewrite app_assoc, drop_app_length.
Qed.

Definition hashes32 l : Prop := Forall (λ n, length n = 32%nat) l.

Lemma hashes32_pair_up l : hashes32 (pair_up l).
Proof.
  unfold hashes32. induction l as [|a|a b l IH] using list_ind2; simpl; repeat constructor; try done; apply DoubleHashH_length.
Qed.

Lemma merkle_root_32 l r : hashes32 l → merkle_root l = Some r → length r = 32%nat.
Proof.
  intros Hl. unfold merkle_root. assert (hashes32 (level (height l) l)) as Hh.
  { destruct (height l); [done|]. rewrite level_S. induction n as [|n IH] in l |- *; [apply hashes32_pair_up|].
    rewrite level_S. apply IH. }
  destruct (level (height l) l); [done|]. intros [= ->]. by apply Forall_inv in Hh.
Qed.

(** ** A branch of the tree leads to its root *)

Lemma createBranch_climb fuel l pre k a : (height l ≤ fuel)%nat → hashes32 l → 0 ≤ k → l !! Z.to_nat k = Some a →
  ∃ nexts, createBranch_fuel fuel (pre ++ concat (merkle_levels l)) (Z.of_nat (length l)) k (Z.of_nat (length pre)) = Ok nexts ∧
    hashes32 nexts ∧ length nexts = height l ∧ merkle_root l = Some (climb a k nexts).
Proof.
  revert l pre k a. induction fuel as [|fuel IH]; intros l pre k a Hf H32 Hk Ha; pose proof (lookup_lt_Some _ _ _ Ha) as Hlt.
  { assert (length l = 1%nat) as Hl1.
    { destruct (decide (2 ≤ length l)%nat); [rewrite height_step in Hf by done; lia|lia]. }
    destruct l as [|x [|y l]]; simpl in Hl1; try lia. simpl in Hlt. replace (Z.to_nat k) with 0%nat in Ha by lia. injection Ha as ->.
    exists []. split_and!; [done|constructor|done|done]. }
  cbn [createBranch_fuel]. destruct (Z.ltb_spec 1 (Z.of_nat (length l))) as [Hlen|Hlen].
  2: { destruct l as [|x [|y l]]; simpl in Hlen, Hlt; try lia. replace (Z.to_nat k) with 0%nat in Ha by lia. injection Ha as ->.
       exists []. split_and!; [done|constructor|done|done]. }
  assert (2 ≤ length l)%nat as Hl2 by lia. rewrite height_step in Hf by done.
  assert (0 ≤ k / 2 ∧ Z.to_nat k = (2 * Z.to_nat (k / 2) + Z.to_nat (k `mod` 2))%nat) as [Hq Hkq].
  { pose proof (Z.div_mod k 2). pose proof (Z.mod_pos_bound k 2). split; [apply Z.div_pos; lia|]. lia. }
  destruct (pair_up_lookup l (Z.to_nat (k / 2)) Hl2) as (x & y & Hx & Hy & Hp).
  { rewrite pair_up_length. apply Nat.div_le_lower_bound; [lia|].
    pose proof (Z.mod_pos_bound k 2). lia. }
  rewrite lxor_one by done.
  assert (∃ sib, l !! Z.to_nat (Z.min (if k `mod` 2 =? 1 then k - 1 else k + 1) (Z.of_nat (length l) - 1)) = Some sib ∧
    (if k `mod` 2 =? 1 then hashConcat sib a else hashConcat a sib) = hashConcat x y) as (sib & Hsib & Hhash).
  { destruct (Z.eqb_spec (k `mod` 2) 1) as [Hm|Hm].
    - exists x. assert (Z.to_nat k = 2 * Z.to_nat (k / 2) + 1)%nat as Hk' by lia.
      replace (Z.to_nat (Z.min (k - 1) (Z.of_nat (length l) - 1))) with (2 * Z.to_nat (k / 2))%nat by lia.
      split; [done|]. rewrite <- Hk', Nat.min_l, Ha in Hy by lia. congruence.
    - exists y. pose proof (Z.mod_pos_bound k 2). assert (Z.to_nat k = 2 * Z.to_nat (k / 2))%nat as Hk' by lia.
      replace (Z.to_nat (Z.min (k + 1) (Z.of_nat (length l) - 1))) with (Nat.min (2 * Z.to_nat (k / 2) + 1) (length l - 1)) by lia.
      split; [done|]. rewrite <- Hk', Ha in Hx. congruence. }
  set (j := Z.min _ _) in *. rewrite merkle_levels_step by done. cbn [concat].
  assert ((pre ++ l ++ concat (merkle_levels (pair_up l))) !! Z.to_nat (Z.of_nat (length pre) + j) = Some sib) as ->.
  { assert (0 ≤ j) by (unfold j; destruct (Z.eqb_spec (k `mod` 2) 1); pose proof (Z.div_mod k 2); lia).
    rewrite lookup_app_r by lia. rewrite lookup_app_l; [|apply lookup_lt_Some in Hsib; lia].
    by replace (Z.to_nat (Z.of_nat (length pre) + j) - length pre)%nat with (Z.to_nat j) by lia. }
  destruct (IH (pair_up l) (pre ++ l) (k / 2) (hashConcat x y)) as (nexts & Hb & Hn32 & Hnl & Hroot);
    [lia|apply hashes32_pair_up|done|done|].
  rewrite !shiftr_half. rewrite <- app_assoc, length_app, Nat2Z.inj_add, pair_up_length in Hb.
  replace ((Z.of_nat (length l) + 1) / 2) with (Z.of_nat ((length l + 1) / 2)).
  2: { rewrite Nat2Z.inj_div, Nat2Z.inj_add. done. }
  rewrite Hb. exists (sib :: nexts). split_and!; [done| | |].
  - constructor; [|done]. by eapply (Forall_lookup_1 _ _ _ _ H32).
  - cbn [length]. rewrite (height_step l) by done. by rewrite Hnl.
  - cbn [climb]. rewrite merkle_root_step by done. by rewrite Hhash, shiftr_half.
Qed.

(** ** What verifies is in the tree, or the hash collides *)

(** The place of the tree where a proof for an index ends up. *)
Fixpoint position (n : nat) (idx : Z) (height : nat) : nat :=
  match height with
  | O => 0
  | S h =>
    let q := position ((n + 1) / 2) (idx / 2) h in
    if idx `mod` 2 =? 1 then Nat.min (2 * q + 1) (n - 1) else (2 * q)%nat
  end.

(** A collision of the double hash, found by comparing a proof with the tree from
    the root down: the first pair of hashed strings that differ. *)
Fixpoint collision l (current : bytes) (idx : Z) (nexts : list bytes) : option (bytes * bytes) :=
  match nexts with
  | [] => None
  | next :: nexts =>
    let proved := if idx `mod` 2 =? 1 then next ++ current else current ++ next in
    match collision (pair_up l) (DoubleHashH proved) (idx / 2) nexts with
    | Some c => Some c
    | None =>
      let q := position ((length l + 1) / 2) (idx / 2) (length nexts) in
      let stored := default [] (l !! (2 * q)%nat) ++ default [] (l !! Nat.min (2 * q + 1) (length l - 1)) in
      if bool_decide (proved = stored) then None else Some (proved, stored)
    end
  end.

Lemma position_lt n idx h : (1 ≤ n)%nat → h = Nat.log2_up n → (position n idx h < n)%nat.
Proof.
  intros Hn ->. remember (Nat.log2_up n) as h eqn:Hh. revert n idx Hn Hh. induction h as [|h IH]; intros n idx Hn Hh; cbn [position]; [lia|].
  assert (2 ≤ n)%nat as Hn2 by (destruct (decide (n = 1)%nat) as [->|]; [done|lia]).
  rewrite log2_up_half in Hh by done. injection Hh as Hh.
  pose proof (Nat.div_mod_eq (n + 1) 2). pose proof (Nat.mod_upper_bound (n + 1) 2 ltac:(lia)).
  specialize (IH ((n + 1) / 2)%nat (idx / 2) ltac:(lia) Hh). destruct (idx `mod` 2 =? 1); lia.
Qed.

Lemma position_exact n idx h : h = Nat.log2_up n → 0 ≤ idx → idx `mod` 2 ^ Z.of_nat h < Z.of_nat n →
  Z.of_nat (position n idx h) = idx `mod` 2 ^ Z.of_nat h.
Proof.
  intros ->. remember (Nat.log2_up n) as h eqn:Hh. revert n idx Hh. induction h as [|h IH]; intros n idx Hh Hi Hlt.
  { by rewrite Z.mod_1_r. }
  assert (2 ≤ n)%nat as Hn2 by (destruct n as [|[|n]]; [done|done|lia]).
  rewrite log2_up_half in Hh by done. injection Hh as Hh. cbn [position].
  assert (idx `mod` 2 ^ Z.of_nat (S h) = 2 * ((idx / 2) `mod` 2 ^ Z.of_nat h) + idx `mod` 2) as Hsplit.
  { rewrite Nat2Z.inj_succ, Z.pow_succ_r by lia. rewrite Z.rem_mul_r; [lia|lia|apply Z.pow_pos_nonneg; lia]. }
  rewrite Hsplit in *. pose proof (Nat.div_mod_eq (n + 1) 2). pose proof (Nat.mod_upper_bound (n + 1) 2 ltac:(lia)).
  pose proof (Z.mod_pos_bound idx 2 ltac:(lia)).
  set (m := ((n + 1) / 2)%nat) in *. set (X := (idx / 2) `mod` 2 ^ Z.of_nat h) in *.
  assert (X < Z.of_nat m) as HX by lia. assert (0 ≤ idx / 2) as Hi2 by (apply Z.div_pos; lia).
  specialize (IH m (idx / 2) Hh Hi2 HX). fold X in IH.
  destruct (Z.eqb_spec (idx `mod` 2) 1); lia.
Qed.

Lemma climb_sound nexts l current idx : hashes32 l → length current = 32%nat → hashes32 nexts →
  l ≠ [] → length nexts = height l → merkle_root l = Some (climb current idx nexts) →
  match collision l current idx nexts with
  | Some (x, y) => x ≠ y ∧ DoubleHashH x = DoubleHashH y
  | None => l !! position (length l) idx (height l) = Some current
  end.
Proof.
  intros H32 Hc Hn. revert l current idx H32 Hc. induction Hn as [|next nexts Hnext Hn IH]; intros l current idx H32 Hc Hne Hlen Hroot.
  { simpl in Hlen. rewrite <- Hlen. simpl. destruct l as [|a [|b l]]; [done| |].
    - rewrite merkle_root_one in Hroot. done.
    - rewrite height_step in Hlen by (simpl; lia). lia. }
  assert (2 ≤ length l)%nat as Hl2.
  { destruct (decide (2 ≤ length l)%nat); [done|]. rewrite height_small in Hlen by lia. done. }
  rewrite height_step in Hlen |- * by done. injection Hlen as Hlen. rewrite merkle_root_step in Hroot by done.
  cbn [climb collision position] in *. rewrite shiftr_half in Hroot. unfold hashConcat in Hroot.
  set (proved := if idx `mod` 2 =? 1 then next ++ current else current ++ next).
  assert ((if idx `mod` 2 =? 1 then DoubleHashH (next ++ current) else DoubleHashH (current ++ next)) = DoubleHashH proved)
    as Hpr by (unfold proved; by destruct (idx `mod` 2 =? 1)).
  rewrite Hpr in Hroot.
  assert (pair_up l ≠ []) as Hne' by (destruct l as [|? [|? ?]]; done).
  specialize (IH (pair_up l) (DoubleHashH proved) (idx / 2) (hashes32_pair_up l) (DoubleHashH_length _) Hne' Hlen Hroot).
  destruct (collision (pair_up l) (DoubleHashH proved) (idx / 2) nexts) as [[x y]|]; [done|].
  rewrite pair_up_length in IH. rewrite Hlen. set (q := position ((length l + 1) / 2) (idx / 2) (height (pair_up l))) in *.
  destruct (pair_up_lookup l q Hl2) as (a & b & Ha & Hb & Hp); [by eapply lookup_lt_Some|].
  rewrite Ha, Hb. cbn [default from_option id]. rewrite IH in Hp. injection Hp as Hp.
  case_bool_decide as Heq; [|split; [done|exact Hp]].
  assert (length a = 32%nat ∧ length b = 32%nat) as [Ha32 Hb32].
  { split; by eapply (Forall_lookup_1 _ _ _ _ H32). }
  unfold proved in Heq. destruct (idx `mod` 2 =? 1).
  - apply app_inj_1 in Heq as [_ ->]; [done|congruence].
  - apply app_inj_1 in Heq as [-> _]; [done|congruence].
Qed.

End merkle.

(** What the module relies on of btcd: hashes and roots have 32 bytes, and the
    nodes of the tree it stores for a block, without the empty ones, are the
    levels of the Merkle tree one after the other. *)
Class SpvLaws (T H : Type) {DH : DoubleHash} {BT : BtcTx T} {BP : BtcPow H} := {
  TxHash_length tx : length (TxHash tx) = 32%nat;
  MerkleRoot_length h : length (MerkleRoot h) = 32%nat;
  BuildMerkleTreeStore_levels txs : txs ≠ [] → omap id (BuildMerkleTreeStore txs) = concat (merkle_levels (TxHash <$> txs))
}.

Section properties.
Context {DH : DoubleHash} {T H : Type} {BT : BtcTx T} {BP : BtcPow H} {SL : SpvLaws T H} {BW : BtcWire H}.

Lemma txHashes_32 (txs : list T) : hashes32 (TxHash <$> txs).
Proof using SL. apply Forall_fmap, Forall_true. intros tx. apply TxHash_length. Qed.

Lemma parseTxs_Ok transactions (txs : list T) : Forall2 (λ b tx, NewTxFromBytes b = Some tx) transactions txs →
  foldM (λ acc b, match NewTxFromBytes b with None => Err (Errorf "NewTxFromBytes") | Some tx => Ok (acc ++ [tx]) end) [] transactions
  = Ok txs.
Proof using.
  intros Hall. assert (∀ acc, foldM (λ acc b, match NewTxFromBytes b with None => Err (Errorf "NewTxFromBytes")
    | Some tx => Ok (acc ++ [tx]) end) acc transactions = Ok (acc ++ txs)) as Hg; [|apply Hg].
  induction Hall as [|b tx bs txs Hb _ IH]; intros acc; simpl; [by rewrite app_nil_r|].
  rewrite Hb. cbn [mbind outcome_bind]. rewrite IH. by rewrite <- app_assoc.
Qed.

Lemma chunks32 n (b : bytes) : length b = (32 * n)%nat → ∃ ns, b = concat ns ∧ hashes32 ns ∧ length ns = n.
Proof using.
  revert b. induction n as [|n IH]; intros b Hb.
  - exists []. destruct b; [|done]. split_and!; [done|constructor|done].
  - destruct (IH (drop 32 b)) as (ns & Hd & H32 & Hl); [rewrite length_drop; lia|].
    exists (take 32 b :: ns). split_and!; [cbn [concat]; by rewrite <- Hd, take_drop| |simpl; by rewrite Hl].
    constructor; [rewrite length_take; lia|done].
Qed.

Lemma climb_mod nexts current idx k : climb current (idx + k * 2 ^ Z.of_nat (length nexts)) nexts = climb current idx nexts.
Proof using.
  revert current idx k. induction nexts as [|n nexts IH]; intros current idx k; [done|]. cbn [climb length].
  rewrite Nat2Z.inj_succ, Z.pow_succ_r by lia. rewrite !shiftr_half.
  replace (idx + k * (2 * 2 ^ Z.of_nat (length nexts))) with (idx + (k * 2 ^ Z.of_nat (length nexts)) * 2) by lia.
  rewrite Z.mod_add, Z.div_add by lia. by rewrite IH.
Qed.

(** C34: The proof that the module's tool builds for any transaction of a block, of any number of
    transactions, is accepted by the verifier for that transaction, its index and the block's root. *)
Theorem spv_roundtrip headerBytes transactions txs tx root idx :
  Forall2 (λ b tx, NewTxFromBytes b = Some tx) transactions txs → 0 ≤ idx < 2 ^ 32 → txs !! Z.to_nat idx = Some tx →
  merkle_root (TxHash <$> txs) = Some root →
  ∃ proof, SpvProofFromHeaderAndTransactions headerBytes transactions idx = Ok proof ∧
    NewTxFromBytes (BtcTransaction proof) = Some tx ∧ ConfirmingBtcHeader proof = Some headerBytes ∧
    VerifyInclusionProof tx root (MerkleNodes proof) (BtcTransactionIndex proof) = true.
Proof using SL.
  intros Hall Hidx Htx Hroot. unfold SpvProofFromHeaderAndTransactions, CreateProofForIdx.
  pose proof (Forall2_length _ _ _ Hall) as Hlen. pose proof (lookup_lt_Some _ _ _ Htx) as Hlt.
  destruct (Nat.eqb_spec (length transactions) 0); [lia|]. destruct (Z.leb_spec (Z.of_nat (length transactions)) idx); [lia|].
  rewrite (parseTxs_Ok _ _ Hall). cbn [mbind outcome_bind]. rewrite BuildMerkleTreeStore_levels by (by intros ->).
  destruct (createBranch_climb (Z.to_nat (Z.of_nat (length transactions))) (TxHash <$> txs) [] idx (TxHash tx))
    as (nexts & Hb & H32 & Hnl & Hr).
  { unfold height. rewrite length_fmap, <- Hlen, Nat2Z.id. apply Nat.log2_up_le_lin. lia. }
  { apply txHashes_32. }
  { lia. }
  { by rewrite list_lookup_fmap, Htx. }
  rewrite length_fmap, <- Hlen in Hb. unfold createBranch. change ([] ++ ?x) with x in Hb.
  change (Z.of_nat (length (@nil bytes))) with 0 in Hb. rewrite Hb. cbn [mbind outcome_bind].
  apply Forall2_flip in Hall. destruct (Forall2_lookup_l _ _ _ _ _ Hall Htx) as (b & Hb' & Hp). rewrite Hb'.
  eexists. split_and!; [done|exact Hp|done|]. unfold VerifyInclusionProof. cbn [MerkleNodes BtcTransactionIndex].
  rewrite u32_small by done. rewrite Hroot in Hr. injection Hr as ->.
  rewrite verify_climb; [|apply TxHash_length| |done].
  2: { eapply (merkle_root_32 (TxHash <$> txs)); [apply txHashes_32|done]. }
  destruct (Nat.eqb_spec (length nexts) 0) as [E|E]; [|by rewrite bool_decide_eq_true_2].
  destruct nexts; [|done]. simpl. rewrite bool_decide_eq_true_2 by done. simpl.
  rewrite Hnl in E. unfold height in E. rewrite length_fmap in E.
  assert (length txs ≤ 1)%nat as H1 by (destruct (decide (2 ≤ length txs)%nat) as [H2|]; [rewrite log2_up_half in E by done; lia|lia]).
  apply Z.eqb_eq. lia.
Qed.

(** C33: A proof as long as the block's tree is high that the verifier accepts shows that the
    transaction is one of the block: the one at the proof's index, when the index (of which the
    verifier reads as many bits as the tree has levels) is below the number of transactions.
    Otherwise comparing the proof with the tree yields two strings that collide under the double
    hash. *)
Theorem verify_sound (txs : list T) tx root nodes idx : txs ≠ [] → 0 ≤ idx →
  merkle_root (TxHash <$> txs) = Some root → hashes32 nodes → length nodes = height (TxHash <$> txs) →
  VerifyInclusionProof tx root (concat nodes) idx = true →
  match collision (TxHash <$> txs) (TxHash tx) idx nodes with
  | Some (x, y) => x ≠ y ∧ DoubleHashH x = DoubleHashH y
  | None =>
    TxHash tx ∈ TxHash <$> txs ∧
    let i := idx `mod` 2 ^ Z.of_nat (length nodes) in
    (i < Z.of_nat (length txs) → TxHash <$> txs !! Z.to_nat i = Some (TxHash tx))
  end.
Proof using SL.
  intros Hne Hidx Hroot H32 Hlen Hv. unfold VerifyInclusionProof in Hv.
  rewrite verify_climb in Hv; [|apply TxHash_length| |done].
  2: { eapply (merkle_root_32 (TxHash <$> txs)); [apply txHashes_32|done]. }
  assert (climb (TxHash tx) idx nodes = root) as Hc.
  { destruct nodes as [|n nodes]; simpl in Hv; [|by apply bool_decide_eq_true in Hv].
    apply andb_true_iff in Hv as [Hv _]. by apply bool_decide_eq_true in Hv. }
  pose proof (climb_sound nodes (TxHash <$> txs) (TxHash tx) idx (txHashes_32 txs) (TxHash_length tx) H32) as Hs.
  specialize (Hs ltac:(by destruct txs) Hlen ltac:(by rewrite Hc)).
  destruct (collision (TxHash <$> txs) (TxHash tx) idx nodes) as [[x y]|]; [done|].
  split; [by eapply list_elem_of_lookup_2|]. cbv zeta. intros Hi. rewrite <- list_lookup_fmap, <- Hs, Hlen. f_equal.
  rewrite Hlen in Hi. rewrite <- (position_exact (length (TxHash <$> txs)) idx (height (TxHash <$> txs)));
    [by rewrite Nat2Z.id|done|done|by rewrite length_fmap].
Qed.

(** The verifier only reads as many bits of the index as the proof has nodes: a proof that is
    accepted for an index is accepted for infinitely many, and each gives the same transaction of
    the same block another key. *)
Theorem ParseProof_index_malleable btcTx idx nodes n hdr powLimit (p : ParsedProof (T := T)) k :
  length nodes = (32 * S n)%nat → 0 ≤ idx →
  ParseProof (H := H) btcTx idx nodes hdr powLimit = Ok p →
  ∃ p', ParseProof (H := H) btcTx (idx + k * 2 ^ Z.of_nat (S n)) nodes hdr powLimit = Ok p' ∧
    pp_Transaction p' = pp_Transaction p ∧ pp_OpReturnData p' = pp_OpReturnData p ∧
    toTransactionKey p' = mkTxKey (idx + k * 2 ^ Z.of_nat (S n)) (tk_Hash (toTransactionKey p)).
Proof using SL.
  intros Hlen Hidx Hp. destruct (chunks32 (S n) nodes Hlen) as (ns & -> & H32 & Hns). unfold ParseProof in *.
  destruct (ParseTransaction btcTx) as [tx|e|e]; [|done|done]. cbn [mbind outcome_bind] in *.
  destruct hdr as [hb|]; [|done]. cbn [mbind outcome_bind] in *.
  destruct (ToBlockHeader hb) as [h|e|e]; [|done|done]. cbn [mbind outcome_bind] in *.
  destruct (ValidateBTCHeader h powLimit) as [u|e|e]; [|done|done]. cbn [mbind outcome_bind] in *.
  rewrite verify_climb in Hp |- * by (apply TxHash_length || apply MerkleRoot_length || done). rewrite Hns in *.
  cbn [Nat.eqb] in *. rewrite <- Hns, climb_mod. destruct (negb _); [done|].
  destruct (ExtractStandardOpReturnData tx) as [d|e|e]; [|done|done]. cbn [mbind outcome_bind] in *.
  destruct (length d =? 0)%nat; [done|]. destruct (FromChainhash (BlockHash h)) as [bh|e|e]; [|done|done].
  cbn [mbind outcome_bind] in *. injection Hp as <-. by eexists.
Qed.

End properties.

(** ** An instance *)

Module SpvExample.

#[local] Instance toy_hash : DoubleHash :=
  {| DoubleHashH b := be_bytes 32 (be_value b * 31 + 7); DoubleHashH_length b := be_bytes_length 32 _ |}.
(** A transaction is its only script. *)
#[local] Instance toy_tx : BtcTx bytes :=
  {| NewTxFromBytes := Some; TxHash b := DoubleHashH b; PkScripts b := [b]; CheckTransactionSanity _ := true;
     IsNullData b := bool_decide (head b = Some x6a);
     BuildMerkleTreeStore txs := Some <$> concat (merkle_levels (DoubleHashH <$> txs)) |}.
(** A header is its Merkle root. *)
#[local] Instance toy_pow : BtcPow bytes := {| MerkleRoot h := be_bytes 32 (be_value h); CheckProofOfWork _ _ := true |}.
#[local] Instance toy_header : BtcWire bytes :=
  {| Deserialize := Some; Serialize := id; BlockHash h := be_bytes 32 (be_value h + 1); PrevBlock h := be_bytes 32 0;
     Bits _ := 1; Timestamp _ := 0; CalcWork b := b |}.
#[local] Instance toy_spv_laws : SpvLaws bytes bytes.
Proof.
  split.
  - intros tx. apply be_bytes_length.
  - intros h. apply be_bytes_length.
  - intros txs _. set (l := concat (merkle_levels (TxHash <$> txs))).
    change (omap id (Some <$> l) = l). clearbody l. clear txs.
    induction l as [|x l IH]; [reflexivity|]. cbn. f_equal. exact IH.
Qed.

Definition block : list bytes := [[x6a; x01; x01]; [x6a; x01; x02]; [x6a; x01; x03]].
Definition root : bytes := default [] (merkle_root (TxHash <$> block)).
Definition nodes : list bytes := get_ok [] (CreateProofForIdx block 2).

Lemma spv_roundtrip_witness :
  ∃ proof, SpvProofFromHeaderAndTransactions root block 2 = Ok proof ∧
    NewTxFromBytes (BtcTransaction proof) = Some [x6a; x01; x03] ∧ ConfirmingBtcHeader proof = Some root ∧
    VerifyInclusionProof [x6a; x01; x03] root (MerkleNodes proof) (BtcTransactionIndex proof) = true.
Proof.
  apply (spv_roundtrip (H := bytes) root block block [x6a; x01; x03] root 2).
  - unfold block. repeat constructor.
  - lia.
  - reflexivity.
  - unfold root. vm_compute. reflexivity.
Defined.

Lemma verify_sound_witness :
  match collision (TxHash <$> block) (TxHash [x6a; x01; x03]) 2 nodes with
  | Some (x, y) => x ≠ y ∧ DoubleHashH x = DoubleHashH y
  | None =>
    TxHash [x6a; x01; x03] ∈ TxHash <$> block ∧
    let i := 2 `mod` 2 ^ Z.of_nat (length nodes) in
    (i < Z.of_nat (length block) → TxHash <$> block !! Z.to_nat i = Some (TxHash [x6a; x01; x03]))
  end.
Proof.
  apply (verify_sound (H := bytes) block [x6a; x01; x03] root nodes 2).
  - discriminate.
  - lia.
  - unfold root. vm_compute. reflexivity.
  - unfold nodes. vm_compute. repeat constructor.
  - unfold nodes. vm_compute. reflexivity.
  - unfold nodes, root. vm_compute. reflexivity.
Defined.

Lemma ParseProof_index_malleable_witness :
  ∃ p', ParseProof [x6a; x01; x03] (2 + 1 * 2 ^ Z.of_nat 2) (concat nodes) (Some root) 0 = Ok p' ∧
    pp_Transaction p' = [x6a; x01; x03] ∧ pp_OpReturnData p' = [x03] ∧
    toTransactionKey p' = mkTxKey (2 + 1 * 2 ^ Z.of_nat 2) (BlockHash root).
Proof.
  refine (ParseProof_index_malleable [x6a; x01; x03] 2 (concat nodes) 1 (Some root) 0
    (mkParsedProof (BlockHash root) [x6a; x01; x03] [x6a; x01; x03] 2 [x03]) 1 _ _ _).
  - unfold nodes. vm_compute. reflexivity.
  - lia.
  - unfold nodes, root. vm_compute. reflexivity.
Defined.

End SpvExample.
