(* ===== verification/StakingTx.v ===== *)
(** * btcstaking: scripts and transactions of Bitcoin staking

    The outputs that lock a stake commit to scripts: the staker can spend after a
    time lock, with the covenant committee, or, for slashing, with a finality
    provider and the covenant committee. The file translates the package
    btcstaking (scripts_utils.go, types.go, staking.go, witness_utils.go) and the
    functions of x/btcstaking/types/btc_slashing_tx.go that complete a slashing
    transaction. Transactions are wire.MsgTx; taproot trees, the script builder,
    signature hashes and the standardness rules are btcd's and enter as classes. *)

From S2P Require Import Prelude Bytes Store BbnTypes Sha256 Curve Eots AdaptorSig BtcStaking Coins TxFormatter LightClient Spv.

(** ** btcd *)

Record OutPoint := mkOutPoint { op_Hash : bytes; op_Index : Z }.
#[global] Instance OutPoint_eq_dec : EqDecision OutPoint.
Proof. solve_decision. Defined.
Record TxIn := mkTxIn { PreviousOutPoint : OutPoint; SignatureScript : bytes; Witness : list bytes; Sequence : Z }.
Record TxOut := mkTxOut { Value : Z; PkScript : bytes }.
#[global] Instance TxOut_eq_dec : EqDecision TxOut.
Proof. solve_decision. Defined.
Record MsgTx := mkMsgTx { Version : Z; TxIns : list TxIn; TxOuts : list TxOut; LockTime : Z }.

Definition MaxTxInSequenceNum : Z := 2 ^ 32 - 1.
Definition OP_RETURN : byte := x6a.

(** What the script builder is given: data, small integers and opcodes. *)
Inductive Opcode := OP_CHECKSIG | OP_CHECKSIGVERIFY | OP_CHECKSIGADD | OP_NUMEQUAL | OP_NUMEQUALVERIFY | OP_CHECKSEQUENCEVERIFY
  | OP_0 | OP_RETURN_op.
Inductive ScriptItem := AddData (data : bytes) | AddInt64 (n : Z) | AddOp (op : Opcode).

(** [TaprootPkScript] is the output script of a tree with the given leaves under the
    unspendable internal key; [ControlBlock] the proof of a leaf. [MulRate] is
    [btcutil.Amount.MulF64] of a rate converted to a float. [TapscriptSigHash] is
    [CalcTapscriptSignaturehash] with the default type, given the previous outputs. *)
Class StakingBtcd := {
  TransactionWeight : MsgTx → Z;
  IsDust : TxOut → bool;
  MulRate : Z → Z → outcome Z;
  BuilderScript : list ScriptItem → outcome bytes;
  TapLeafHash : bytes → bytes;
  TaprootPkScript : list bytes → outcome bytes;
  ControlBlock : list bytes → nat → outcome bytes;
  IsPayToTaproot : bytes → bool;
  TapscriptSigHash : MsgTx → nat → list (OutPoint * TxOut) → bytes → outcome bytes;
  RawTxInTapscriptSignature : MsgTx → nat → list (OutPoint * TxOut) → bytes → Z → outcome bytes;
  ParseSignature : bytes → outcome (Z * Z);
  SerializeSignature : Z * Z → bytes
}.

Section staking_tx.
Context {curve : Curve} {CP : CompressedPoints} {SV : SchnorrVerification} {BT : BtcTx MsgTx} {SB : StakingBtcd}.

Definition ToBTCPK (pk : bytes) : outcome point :=
  match ParsePubKey pk with Some P => Ok P | None => Err (Errorf "schnorr.ParsePubKey") end.
Definition MustToBTCPK (pk : bytes) : outcome point := must (ToBTCPK pk).
Definition NewBTCPKsFromBIP340PKs (pks : list bytes) : outcome (list point) :=
  foldM (λ acc pk, P ← ToBTCPK pk; Ok (acc ++ [P])) [] pks.

(** ** scripts_utils.go *)

Fixpoint multiSigKeys (first : bool) (pubkeys : list point) : list ScriptItem :=
  match pubkeys with
  | [] => []
  | key :: pubkeys => AddData (SerializePubKey key) :: AddOp (if first then OP_CHECKSIG else OP_CHECKSIGADD) :: multiSigKeys false pubkeys
  end.
Definition assembleMultiSigScript (pubkeys : list point) (threshold : Z) (withVerify : bool) : outcome bytes :=
  BuilderScript (multiSigKeys true pubkeys ++ [AddInt64 threshold; AddOp (if withVerify then OP_NUMEQUALVERIFY else OP_NUMEQUAL)]).
Definition SortKeys (keys : list point) : list point :=
  sort_stable (λ a b, bytes_less (SerializePubKey a) (SerializePubKey b)) keys.
Definition prepareKeysForMultisigScript (keys : list point) : outcome (list point) :=
  if (length keys <? 2)%nat then Err (Errorf "cannot create multisig script with less than 2 keys") else Ok (SortKeys keys).
Definition buildSingleKeySigScript (pubKey : point) (withVerify : bool) : outcome bytes :=
  BuilderScript [AddData (SerializePubKey pubKey); AddOp (if withVerify then OP_CHECKSIGVERIFY else OP_CHECKSIG)].
Definition buildMultiSigScript (keys : list point) (threshold : Z) (withVerify : bool) : outcome bytes :=
  match keys with
  | [] => Err (Errorf "no keys provided")
  | key :: rest =>
    if Z.of_nat (length keys) <? threshold then Err (Errorf "required number of valid signers is greater than number of provided keys")
    else match rest with
         | [] => buildSingleKeySigScript key withVerify
         | _ => sortedKeys ← prepareKeysForMultisigScript keys; assembleMultiSigScript sortedKeys threshold withVerify
         end
  end.
Definition buildTimeLockScript (pubKey : point) (lockTime : Z) : outcome bytes :=
  BuilderScript [AddData (SerializePubKey pubKey); AddOp OP_CHECKSIGVERIFY; AddInt64 lockTime; AddOp OP_CHECKSEQUENCEVERIFY].

(** ** types.go *)

(** A tree is the list of its scripts. *)
Record taprootScriptHolder := mkHolder { scriptTree : list bytes }.
Definition newTaprootScriptHolder (scripts : list bytes) : outcome taprootScriptHolder :=
  leafs ← foldM (λ createdLeafs script,
    if (length script =? 0)%nat then Err (Errorf "cannot build tree with empty script")
    else if bool_decide (TapLeafHash script ∈ createdLeafs) then Err (Errorf "duplicate script in provided scripts")
    else Ok (TapLeafHash script :: createdLeafs)) [] scripts;
  let _ : list bytes := leafs in Ok (mkHolder scripts).

Record SpendInfo := mkSpendInfo { si_ControlBlock : list bytes * nat; RevealedLeaf : bytes }.
Definition GetPkScriptPath (si : SpendInfo) : bytes := RevealedLeaf si.
Definition scriptSpendInfoByName (t : taprootScriptHolder) (leafHash : bytes) : outcome SpendInfo :=
  match list_find (λ script, TapLeafHash script = leafHash) (scriptTree t) with
  | None => Err (Errorf "script not found in script tree")
  | Some (scriptIdx, script) => Ok (mkSpendInfo (scriptTree t, scriptIdx) script)
  end.
Definition taprootPkScript (t : taprootScriptHolder) : outcome bytes := TaprootPkScript (scriptTree t).

Record babylonScriptPaths := mkPaths { timeLockPathScript : bytes; unbondingPathScript : bytes; slashingPathScript : bytes }.
Definition aggregateScripts (scripts : list bytes) : bytes := concat scripts.

(** Keys are compared as hexadecimal strings of their serialization. *)
Definition checkForDuplicateKeys (stakerKey : point) (fpKeys covenantKeys : list point) : outcome unit :=
  keyMap ← foldM (λ keyMap key,
    if bool_decide (hex_encode (SerializePubKey key) ∈ keyMap) then Err ErrDuplicatedKeyInScript
    else Ok ({[hex_encode (SerializePubKey key)]} ∪ keyMap)) ({[hex_encode (SerializePubKey stakerKey)]} : gset string) (fpKeys ++ covenantKeys);
  let _ : gset string := keyMap in Ok tt.

Definition newBabylonScriptPaths (stakerKey : point) (fpKeys covenantKeys : list point) (covenantQuorum lockTime : Z)
    : outcome babylonScriptPaths :=
  _ ← wrapf "error building scripts" (checkForDuplicateKeys stakerKey fpKeys covenantKeys);
  timeLockPathScript ← buildTimeLockScript stakerKey lockTime;
  covenantMultisigScript ← buildMultiSigScript covenantKeys covenantQuorum false;
  stakerSigScript ← buildSingleKeySigScript stakerKey true;
  fpMultisigScript ← buildMultiSigScript fpKeys 1 true;
  Ok (mkPaths timeLockPathScript (aggregateScripts [stakerSigScript; covenantMultisigScript])
        (aggregateScripts [stakerSigScript; fpMultisigScript; covenantMultisigScript])).

Record StakingInfo := mkStakingInfo {
  StakingOutput : TxOut; sti_scriptHolder : taprootScriptHolder;
  sti_timeLockPathLeafHash : bytes; sti_unbondingPathLeafHash : bytes; sti_slashingPathLeafHash : bytes }.
Definition BuildStakingInfo (stakerKey : point) (fpKeys covenantKeys : list point) (covenantQuorum stakingTime stakingAmount : Z)
    : outcome StakingInfo :=
  scripts ← wrapf "error building staking info" (newBabylonScriptPaths stakerKey fpKeys covenantKeys covenantQuorum stakingTime);
  sh ← wrapf "error building staking info"
         (newTaprootScriptHolder [timeLockPathScript scripts; unbondingPathScript scripts; slashingPathScript scripts]);
  pkScript ← wrapf "error building staking info" (taprootPkScript sh);
  Ok (mkStakingInfo (mkTxOut stakingAmount pkScript) sh (TapLeafHash (timeLockPathScript scripts))
        (TapLeafHash (unbondingPathScript scripts)) (TapLeafHash (slashingPathScript scripts))).
Definition TimeLockPathSpendInfo (i : StakingInfo) : outcome SpendInfo := scriptSpendInfoByName (sti_scriptHolder i) (sti_timeLockPathLeafHash i).
Definition UnbondingPathSpendInfo (i : StakingInfo) : outcome SpendInfo := scriptSpendInfoByName (sti_scriptHolder i) (sti_unbondingPathLeafHash i).
Definition SlashingPathSpendInfo (i : StakingInfo) : outcome SpendInfo := scriptSpendInfoByName (sti_scriptHolder i) (sti_slashingPathLeafHash i).

Record UnbondingInfo := mkUnbondingInfo {
  UnbondingOutput : TxOut; ui_scriptHolder : taprootScriptHolder; ui_timeLockPathLeafHash : bytes; ui_slashingPathLeafHash : bytes }.
Definition BuildUnbondingInfo (stakerKey : point) (fpKeys covenantKeys : list point) (covenantQuorum unbondingTime unbondingAmount : Z)
    : outcome UnbondingInfo :=
  scripts ← wrapf "error building unbonding info" (newBabylonScriptPaths stakerKey fpKeys covenantKeys covenantQuorum unbondingTime);
  sh ← wrapf "error building unbonding info" (newTaprootScriptHolder [timeLockPathScript scripts; slashingPathScript scripts]);
  pkScript ← wrapf "error building unbonding info" (taprootPkScript sh);
  Ok (mkUnbondingInfo (mkTxOut unbondingAmount pkScript) sh (TapLeafHash (timeLockPathScript scripts)) (TapLeafHash (slashingPathScript scripts))).
Definition ui_SlashingPathSpendInfo (i : UnbondingInfo) : outcome SpendInfo := scriptSpendInfoByName (ui_scriptHolder i) (ui_slashingPathLeafHash i).

(** Between 0 and 1, with at most four decimal places; the product with a whole number
    is exact. *)
Definition IsSlashingRateValid (rate : Z) : bool :=
  if (rate <=? 0) || (DecOne <=? rate) then false
  else
    let multipliedRate := rate * 10000 in
    let truncatedRate := multipliedRate / DecOne * DecOne in
    multipliedRate =? truncatedRate.

(** The output script of the time lock. *)
Definition BuildRelativeTimelockTaprootScript (pk : point) (lockTime : Z) : outcome bytes :=
  script ← buildTimeLockScript pk lockTime;
  sh ← newTaprootScriptHolder [script];
  taprootPkScript sh.

(** ** staking.go *)

Definition MaxTxVersion : Z := 2.
Definition MaxStandardTxWeight : Z := 400000.

Definition isOPReturn (script : bytes) : bool := bool_decide (head script = Some OP_RETURN).
Definition checkNoDust (outs : list TxOut) : outcome unit :=
  if existsb (λ out, negb (isOPReturn (PkScript out)) && IsDust out) outs then Err ErrDustOutputFound else Ok tt.

Definition buildSlashingTxFromOutpoint (stakingOutput : OutPoint) (stakingAmount fee : Z) (slashingPkScript changeAddrScript : bytes)
    (slashingRate : Z) : outcome MsgTx :=
  if stakingAmount <=? 0 then Err (Errorf "staking amount must be larger than 0")
  else if negb (IsSlashingRateValid slashingRate) then Err ErrInvalidSlashingRate
  else if (length slashingPkScript =? 0)%nat then Err (Errorf "slashing pk script must not be empty")
  else
    slashingAmount ← MulRate stakingAmount slashingRate;
    if slashingAmount <=? 0 then Err ErrInsufficientSlashingAmount
    else
      let changeAmount := i64 (i64 (stakingAmount - slashingAmount) - fee) in
      if changeAmount <=? 0 then Err ErrInsufficientChangeAmount
      else
        let tx := mkMsgTx 1 [mkTxIn stakingOutput [] [] MaxTxInSequenceNum]
                    [mkTxOut slashingAmount slashingPkScript; mkTxOut changeAmount changeAddrScript] 0 in
        _ ← checkNoDust (TxOuts tx); Ok tx.

Definition getPossibleStakingOutput (stakingTx : MsgTx) (stakingOutputIdx : Z) : outcome TxOut :=
  match TxOuts stakingTx !! Z.to_nat stakingOutputIdx with
  | None => Err (Errorf "invalid staking output index")
  | Some stakingOutput => if IsPayToTaproot (PkScript stakingOutput) then Ok stakingOutput else Err (Errorf "must be pay to taproot output")
  end.
Definition BuildSlashingTxFromStakingTxStrict (stakingTx : MsgTx) (stakingOutputIdx : Z) (slashingPkScript : bytes) (stakerPk : point)
    (slashChangeLockTime fee slashingRate : Z) : outcome MsgTx :=
  stakingOutput ← getPossibleStakingOutput stakingTx stakingOutputIdx;
  changeScript ← BuildRelativeTimelockTaprootScript stakerPk slashChangeLockTime;
  buildSlashingTxFromOutpoint (mkOutPoint (TxHash stakingTx) stakingOutputIdx) (Value stakingOutput) fee slashingPkScript changeScript slashingRate.

Definition IsTransferTx (tx : MsgTx) : outcome unit :=
  if negb (length (TxIns tx) =? 1)%nat then Err (Errorf "transfer transaction must have exactly one input")
  else if negb (length (TxOuts tx) =? 1)%nat then Err (Errorf "transfer transaction must have exactly one output")
  else Ok tt.
Definition IsSimpleTransfer (tx : MsgTx) : outcome unit :=
  _ ← wrapf "invalid simple transfer tx" (IsTransferTx tx);
  match TxIns tx with
  | [] => Panic (Errorf "index out of range")
  | txIn :: _ =>
    if negb (Sequence txIn =? MaxTxInSequenceNum) then Err (Errorf "simple transfer tx must not be replaceable")
    else if negb (LockTime tx =? 0) then Err (Errorf "simple transfer tx must not have locktime")
    else Ok tt
  end.

Fixpoint checkPreSignedInputs (ins : list TxIn) : outcome unit :=
  match ins with
  | [] => Ok tt
  | txIn :: ins =>
    if negb (Sequence txIn =? MaxTxInSequenceNum) then Err (Errorf "pre-signed tx must not be replaceable")
    else if negb (length (SignatureScript txIn) =? 0)%nat then Err (Errorf "pre-signed tx must not have signature script")
    else checkPreSignedInputs ins
  end.
Definition CheckPreSignedTxSanity (tx : MsgTx) (numInputs numOutputs : nat) (minTxVersion maxTxVersion : Z) : outcome unit :=
  if negb (CheckTransactionSanity tx) then Err (Errorf "btc transaction do not obey BTC rules")
  else if negb (length (TxIns tx) =? numInputs)%nat then Err (Errorf "tx must have exactly %d inputs")
  else if negb (length (TxOuts tx) =? numOutputs)%nat then Err (Errorf "tx must have exactly %d outputs")
  else if negb (LockTime tx =? 0) then Err (Errorf "pre-signed tx must not have locktime")
  else if (maxTxVersion <? Version tx) || (Version tx <? minTxVersion) then Err (Errorf "tx version must be between")
  else if MaxStandardTxWeight <? TransactionWeight tx then Err (Errorf "tx weight must not exceed")
  else checkPreSignedInputs (TxIns tx).
Definition CheckPreSignedUnbondingTxSanity (tx : MsgTx) : outcome unit := CheckPreSignedTxSanity tx 1 1 MaxTxVersion MaxTxVersion.
Definition CheckPreSignedSlashingTxSanity (tx : MsgTx) : outcome unit := CheckPreSignedTxSanity tx 1 2 1 MaxTxVersion.

(** Indexing past the end of a slice panics. *)
Definition index {A} (l : list A) (i : nat) : outcome A :=
  match l !! i with Some x => Ok x | None => Panic (Errorf "index out of range") end.

Definition sumValues (outs : list TxOut) : Z := foldl (λ acc out, i64 (acc + Value out)) 0 outs.
Definition validateSlashingTx (slashingTx : MsgTx) (slashingPkScript : bytes) (slashingRate slashingTxMinFee stakingOutputValue : Z)
    (stakerPk : point) (slashingChangeLockTime : Z) : outcome unit :=
  _ ← wrapf "invalid slashing tx" (CheckPreSignedSlashingTxSanity slashingTx);
  minSlashingAmount ← MulRate stakingOutputValue slashingRate;
  out0 ← index (TxOuts slashingTx) 0;
  if Value out0 <? minSlashingAmount then Err (Errorf "slashing transaction must slash at least staking output value * slashing rate")
  else if negb (bool_decide (PkScript out0 = slashingPkScript)) then Err (Errorf "slashing transaction must pay to the provided slashing address")
  else
    changeScript ← wrapf "error creating change timelock script" (BuildRelativeTimelockTaprootScript stakerPk slashingChangeLockTime);
    out1 ← index (TxOuts slashingTx) 1;
    if negb (bool_decide (PkScript out1 = changeScript)) then Err (Errorf "invalid slashing tx change output pkscript")
    else
      _ ← checkNoDust (TxOuts slashingTx);
      if (Value out0 <=? 0) || (stakingOutputValue <=? 0) then Err (Errorf "values of slashing and staking transaction must be larger than 0")
      else
        let slashingTxOutSum := sumValues (TxOuts slashingTx) in
        if stakingOutputValue <=? slashingTxOutSum then Err (Errorf "slashing transaction must not spend more than staking transaction")
        else if i64 (stakingOutputValue - slashingTxOutSum) <? slashingTxMinFee then Err (Errorf "slashing transaction fee must be larger than")
        else Ok tt.

Definition CheckSlashingTxMatchFundingTx (slashingTx fundingTransaction : MsgTx) (fundingOutputIdx slashingTxMinFee slashingRate : Z)
    (slashingPkScript : bytes) (stakerPk : point) (slashingChangeLockTime : Z) : outcome unit :=
  if negb (CheckTransactionSanity fundingTransaction) then Err (Errorf "funding transaction does not obey BTC rules")
  else if slashingTxMinFee <=? 0 then Err (Errorf "slashing transaction min fee must be larger than 0")
  else if negb (IsSlashingRateValid slashingRate) then Err ErrInvalidSlashingRate
  else match TxOuts fundingTransaction !! Z.to_nat fundingOutputIdx with
  | None => Err (Errorf "invalid funding output index")
  | Some stakingOutput =>
    _ ← validateSlashingTx slashingTx slashingPkScript slashingRate slashingTxMinFee (Value stakingOutput) stakerPk slashingChangeLockTime;
    in0 ← index (TxIns slashingTx) 0;
    if negb (bool_decide (op_Hash (PreviousOutPoint in0) = TxHash fundingTransaction)) then Err (Errorf "slashing transaction must spend staking output")
    else if negb (op_Index (PreviousOutPoint in0) =? fundingOutputIdx) then Err (Errorf "slashing transaction input must spend staking output")
    else Ok tt
  end.

(** *** Signatures *)

Definition verifyTaprootScriptSpendSignature (tx : MsgTx) (inputIdx : nat) (prevOutputs : list (OutPoint * TxOut)) (script : bytes)
    (pubKey : point) (signature : bytes) : outcome unit :=
  if (length (TxIns tx) <=? inputIdx)%nat then Err (Errorf "input index out of bounds")
  else
    sigHash ← TapscriptSigHash tx inputIdx prevOutputs script;
    parsedSig ← ParseSignature signature;
    if SchnorrVerify sigHash (SerializePubKey pubKey) parsedSig then Ok tt else Err (Errorf "signature is not valid").
Definition VerifyTransactionSigWithOutput (transaction : MsgTx) (fundingOutput : TxOut) (script : bytes) (pubKey : point) (signature : bytes)
    : outcome unit :=
  match TxIns transaction with
  | [txIn] => verifyTaprootScriptSpendSignature transaction 0 [(PreviousOutPoint txIn, fundingOutput)] script pubKey signature
  | _ => Err (Errorf "tx to sign must have exactly one input")
  end.
Definition VerifyTransactionSigStkExp (stkSpendTx : MsgTx) (fundingOutputSignedIdx0 fundingOutputIdx1 : TxOut) (script : bytes) (pubKey : point)
    (signatureOverPrevStkSpend : bytes) : outcome unit :=
  match TxIns stkSpendTx with
  | [in0; in1] =>
    verifyTaprootScriptSpendSignature stkSpendTx 0
      [(PreviousOutPoint in0, fundingOutputSignedIdx0); (PreviousOutPoint in1, fundingOutputIdx1)] script pubKey signatureOverPrevStkSpend
  | _ => Err (Errorf "stake spend tx must have exactly two inputs")
  end.
(** The fetcher returns the funding output for the input. *)
Definition EncVerifyTransactionSigWithOutput (transaction : MsgTx) (fundingOut : TxOut) (script : bytes) (pubKey encKey : point)
    (signature : AdaptorSignature) : outcome unit :=
  match TxIns transaction with
  | [txIn] =>
    sigHash ← TapscriptSigHash transaction 0 [(PreviousOutPoint txIn, fundingOut)] script;
    EncVerify signature pubKey encKey sigHash
  | _ => Err (Errorf "tx to sign must have exactly one input")
  end.

Definition checkTxBeforeSigning (txToSign fundingTx : MsgTx) (fundingOutputIdx : Z) : outcome TxOut :=
  match TxIns txToSign with
  | [txIn] =>
    match TxOuts fundingTx !! Z.to_nat fundingOutputIdx with
    | None => Err (Errorf "invalid funding output index")
    | Some fundingOutput =>
      if negb (bool_decide (op_Hash (PreviousOutPoint txIn) = TxHash fundingTx)) then Err (Errorf "txToSign must input point to fundingTx")
      else if negb (op_Index (PreviousOutPoint txIn) =? fundingOutputIdx)
      then Err (Errorf "txToSign inpunt index must point to output with provided script")
      else Ok fundingOutput
    end
  | _ => Err (Errorf "tx to sign must have exactly one input")
  end.
(** [SignTxWithOneScriptSpendInputFromTapLeaf] of a base leaf is the case of one previous output. *)
Definition signTaprootScriptSpendInput (txToSign : MsgTx) (inputIdxToSign : nat) (prevOutputs : list (OutPoint * TxOut)) (privKey : Z)
    (script : bytes) : outcome (Z * Z) :=
  match TxIns txToSign !! inputIdxToSign with
  | None => Err (Errorf "input index out of range")
  | Some inputToSign =>
    if bool_decide (PreviousOutPoint inputToSign ∉ prevOutputs.*1) then Err (Errorf "missing prev output for input")
    else sig ← RawTxInTapscriptSignature txToSign inputIdxToSign prevOutputs script privKey; ParseSignature sig
  end.
Definition SignTxWithOneScriptSpendInputFromScript (txToSign : MsgTx) (fundingOutput : TxOut) (privKey : Z) (script : bytes) : outcome (Z * Z) :=
  match TxIns txToSign with
  | [txIn] => signTaprootScriptSpendInput txToSign 0 [(PreviousOutPoint txIn, fundingOutput)] privKey script
  | _ => Err (Errorf "tx to sign must have exactly one input")
  end.
Definition SignTxForFirstScriptSpendWithTwoInputsFromScript (txToSign : MsgTx) (fundingOutputToSignIdx0 fundingOutputIdx1 : TxOut) (privKey : Z)
    (script : bytes) : outcome (Z * Z) :=
  match TxIns txToSign with
  | [in0; in1] =>
    signTaprootScriptSpendInput txToSign 0
      [(PreviousOutPoint in0, fundingOutputToSignIdx0); (PreviousOutPoint in1, fundingOutputIdx1)] privKey script
  | _ => Err (Errorf "tx to sign must have exactly two inputs")
  end.
Definition SignTxWithOneScriptSpendInputStrict (txToSign fundingTx : MsgTx) (fundingOutputIdx : Z) (signedScriptPath : bytes) (privKey : Z)
    : outcome (Z * Z) :=
  fundingOutput ← wrapf "invalid tx" (checkTxBeforeSigning txToSign fundingTx fundingOutputIdx);
  SignTxWithOneScriptSpendInputFromScript txToSign fundingOutput privKey signedScriptPath.
(** [asig.EncSign] with its random auxiliary data. *)
Definition EncSignTxWithOneScriptSpendInputStrict (blind1 blind2 : Z) (auxData : bytes) (txToSign fundingTx : MsgTx) (fundingOutputIdx : Z)
    (signedScriptPath : bytes) (privKey : Z) (encKey : point) : outcome AdaptorSignature :=
  fundingOutput ← wrapf "invalid tx" (checkTxBeforeSigning txToSign fundingTx fundingOutputIdx);
  match TxIns txToSign with
  | [] => Panic (Errorf "index out of range")
  | txIn :: _ =>
    sigHash ← TapscriptSigHash txToSign 0 [(PreviousOutPoint txIn, fundingOutput)] signedScriptPath;
    EncSignWithAuxData blind1 blind2 privKey encKey sigHash auxData
  end.

(** ** witness_utils.go *)

Definition witnessSig (sig : option (Z * Z)) : bytes := match sig with None => [] | Some s => SerializeSignature s end.
Definition CreateWitness (si : SpendInfo) (signatures : list bytes) : outcome (list bytes) :=
  controlBlockBytes ← ControlBlock (si_ControlBlock si).1 (si_ControlBlock si).2;
  Ok (signatures ++ [GetPkScriptPath si; controlBlockBytes]).
Definition CreateTimeLockPathWitness (si : SpendInfo) (delegatorSig : option (Z * Z)) : outcome (list bytes) :=
  match delegatorSig with
  | None => Err (Errorf "delegator signature should not be nil")
  | Some s => CreateWitness si [SerializeSignature s]
  end.
Definition CreateUnbondingPathWitness (si : SpendInfo) (covenantSigs : list (option (Z * Z))) (delegatorSig : option (Z * Z)) : outcome (list bytes) :=
  if (length covenantSigs =? 0)%nat then Err (Errorf "covenant signatures should not be empty")
  else match delegatorSig with
  | None => Err (Errorf "delegator signature should not be nil")
  | Some s => CreateWitness si ((witnessSig <$> covenantSigs) ++ [SerializeSignature s])
  end.
Definition CreateSlashingPathWitness (si : SpendInfo) (covenantSigs fpSigs : list (option (Z * Z))) (delegatorSig : option (Z * Z))
    : outcome (list bytes) :=
  if (length covenantSigs =? 0)%nat then Err (Errorf "covenant signatures should not be empty")
  else if (length fpSigs =? 0)%nat then Err (Errorf "finality provider signatures should not be empty")
  else match delegatorSig with
  | None => Err (Errorf "delegator signature should not be nil")
  | Some s => CreateWitness si ((witnessSig <$> covenantSigs) ++ (witnessSig <$> fpSigs) ++ [SerializeSignature s])
  end.

(** ** x/btcstaking/types/btc_slashing_tx.go *)

Definition NewBTCTxFromBytes (txBytes : bytes) : outcome MsgTx :=
  match NewTxFromBytes txBytes with Some tx => Ok tx | None => Err (Errorf "NewBTCTxFromBytes") end.

Definition BTCSlashingTx_Sign (tx : bytes) (fundingTx : MsgTx) (spendOutputIndex : Z) (slashingPkScriptPath : bytes) (sk : Z) : outcome bytes :=
  msgTx ← NewBTCTxFromBytes tx;
  schnorrSig ← SignTxWithOneScriptSpendInputStrict msgTx fundingTx spendOutputIndex slashingPkScriptPath sk;
  Ok (SerializeSignature schnorrSig).
Definition BTCSlashingTx_VerifySignature (tx : bytes) (fundingOut : TxOut) (slashingPkScriptPath : bytes) (pk : point) (sig : bytes) : outcome unit :=
  msgTx ← NewBTCTxFromBytes tx; VerifyTransactionSigWithOutput msgTx fundingOut slashingPkScriptPath pk sig.
Definition BTCSlashingTx_EncSign (blind1 blind2 : Z) (auxData tx : bytes) (fundingMsgTx : MsgTx) (spendOutputIndex : Z) (slashingPkScriptPath : bytes)
    (sk : Z) (encKey : point) : outcome AdaptorSignature :=
  msgTx ← NewBTCTxFromBytes tx;
  EncSignTxWithOneScriptSpendInputStrict blind1 blind2 auxData msgTx fundingMsgTx spendOutputIndex slashingPkScriptPath sk encKey.
Definition EncVerifyAdaptorSignature (tx : bytes) (fundingOut : TxOut) (slashingPkScriptPath : bytes) (pk encKey : point) (sig : AdaptorSignature)
    : outcome unit :=
  msgTx ← NewBTCTxFromBytes tx; EncVerifyTransactionSigWithOutput msgTx fundingOut slashingPkScriptPath pk encKey sig.
Definition ParseEncVerifyAdaptorSignatures (tx : bytes) (fundingOut : TxOut) (slashingSpendInfo : SpendInfo) (pk : bytes) (valPKs : list bytes)
    (sigs : list bytes) : outcome (list AdaptorSignature) :=
  foldM (λ acc ip,
    adaptorSig ← NewAdaptorSignatureFromBytes ip.2;
    valPK ← index valPKs ip.1;
    valP ← MustToBTCPK valPK;
    encKey ← NewEncryptionKeyFromBTCPK valP;
    P ← MustToBTCPK pk;
    _ ← match EncVerifyAdaptorSignature tx fundingOut (GetPkScriptPath slashingSpendInfo) P encKey adaptorSig with
        | Err _ => Err ErrInvalidCovenantSig
        | r => r
        end;
    Ok (acc ++ [adaptorSig])) [] (imap pair sigs).

Definition findFPIdxInWitness (fpSK : Z) (fpBTCPKs : list bytes) : outcome nat :=
  match list_find (λ pk, pk = SerializePubKey (pmul fpSK G)) (SortBIP340PKs fpBTCPKs) with
  | Some (i, _) => Ok i
  | None => Err (Errorf "the given finality provider's PK is not found in the BTC delegation")
  end.
(** The first quorum of signatures is decrypted, the others are left out. *)
Fixpoint decryptCovenantSigs (decKey : Z) (covenantSigs : list (option AdaptorSignature)) (numSigs covenantQuorum : Z)
    : outcome (list (option (Z * Z)) * Z) :=
  match covenantSigs with
  | [] => Ok ([], numSigs)
  | covenantSig :: covenantSigs =>
    r ← match covenantSig with
        | Some covenantSig => covSig ← wrapf "failed to decrypt covenant adaptor signature" (Decrypt covenantSig decKey); Ok (Some covSig, numSigs + 1)
        | None => Ok (None, numSigs)
        end;
    if r.2 =? covenantQuorum then Ok (r.1 :: (const None <$> covenantSigs), r.2)
    else rest ← decryptCovenantSigs decKey covenantSigs r.2 covenantQuorum; Ok (r.1 :: rest.1, rest.2)
  end.
Definition BuildSlashingTxWithWitness (blind : Z) (tx : bytes) (fpSK : Z) (fpBTCPKs : list bytes) (fundingMsgTx : MsgTx) (outputIdx : Z)
    (delegatorSig : bytes) (covenantSigs : list (option AdaptorSignature)) (covenantQuorum : Z) (slashingPathSpendInfo : SpendInfo)
    : outcome MsgTx :=
  decKey ← wrapf "failed to get decryption key from BTC SK" (NewDecryptionKeyFromBTCSK blind fpSK);
  covSigs ← decryptCovenantSigs decKey covenantSigs 0 covenantQuorum;
  if covSigs.2 <? covenantQuorum then Err (Errorf "not enough covenant signatures to reach quorum")
  else
    fpIdxInWitness ← findFPIdxInWitness fpSK fpBTCPKs;
    fpSigBytes ← wrapf "failed to sign slashing tx for the finality provider"
              (BTCSlashingTx_Sign tx fundingMsgTx outputIdx (GetPkScriptPath slashingPathSpendInfo) fpSK);
    fpSig ← must (ParseSignature fpSigBytes);
    let fpSigs := <[fpIdxInWitness := Some fpSig]> (replicate (length fpBTCPKs) None) in
    dSig ← must (ParseSignature delegatorSig);
    witness ← CreateSlashingPathWitness slashingPathSpendInfo covSigs.1 fpSigs (Some dSig);
    msgTx ← NewBTCTxFromBytes tx;
    match TxIns msgTx with
    | [] => Panic (Errorf "index out of range")
    | txIn :: ins =>
      Ok (mkMsgTx (Version msgTx) (mkTxIn (PreviousOutPoint txIn) (SignatureScript txIn) witness (Sequence txIn) :: ins) (TxOuts msgTx) (LockTime msgTx))
    end.

End staking_tx.
