(* ===== verification/Pop.v ===== *)
(** * Proofs of possession

    A staker or finality provider proves that it holds its Bitcoin key by a signature
    over its Babylon address, in one of three formats. The file translates
    x/btcstaking/types/pop.go with the packages it calls: crypto/bip322 (the
    transactions of BIP-322, and witnesses as simple signatures) and crypto/ecdsa
    (recovery of the key from a compact signature). Addresses, the script engine,
    key recovery and the variable length integers are btcd's and enter as a class. *)

From S2P Require Import Prelude Bytes Store BbnTypes Sha256 Curve Eots AdaptorSig BtcStaking Coins TxFormatter LightClient Spv StakingTx.

(** [ExecuteScript] is [NewEngine] with the standard flags and [Execute], for the first
    input of a transaction that spends an output with the given script and value.
    [UnmarshalBIP322Sig] decodes the address and the signature. *)
Class PopBtcd `{!Curve} := {
  Address : Type;
  DecodeAddress : string → outcome Address;
  PayToAddrScript : Address → outcome bytes;
  ScriptAddress : Address → bytes;
  NewAddressTaproot : bytes → outcome Address;
  IsPayToWitnessPubKeyHash : bytes → bool;
  ExecuteScript : bytes → MsgTx → Z → outcome unit;
  ParseCompressedPubKey : bytes → option point;
  ComputeTaprootKeyNoScript : point → point;
  RecoverCompact : bytes → bytes → option (point * bool);
  UnmarshalBIP322Sig : bytes → option (string * bytes);
  ReadVarInt : bytes → option (Z * bytes);
  WriteVarInt : Z → bytes;
  WriteVarBytes : bytes → bytes
}.

(** An integer is read back from what was written, and bytes are written with their
    length first. *)
Class VarIntLaws `{!Curve} (PB : PopBtcd) : Prop := {
  ReadVarInt_Write n rest : 0 ≤ n < 2 ^ 64 → ReadVarInt (WriteVarInt n ++ rest) = Some (n, rest);
  WriteVarBytes_eq b : WriteVarBytes b = WriteVarInt (Z.of_nat (length b)) ++ b
}.

Definition SchnorrSignatureSize : nat := 64.
Definition SigHashAll : byte := x01.

Section pop.
Context {curve : Curve} {CP : CompressedPoints} {SV : SchnorrVerification} {DH : DoubleHash} {BT : BtcTx MsgTx} {SB : StakingBtcd}
  {PB : PopBtcd} {addresses : Bech32}.

(** ** crypto/bip322/witness.go *)

Definition maxWitnessItemsPerInput : Z := 4000000.
Definition maxWitnessItemSize : Z := 4000000.

(** The value read and the bytes left. *)
Definition readScript (r : bytes) (maxAllowed : Z) : outcome (bytes * bytes) :=
  match ReadVarInt r with
  | None => Err (Errorf "ReadVarInt")
  | Some (count, r) =>
    if maxAllowed <? count then Err (Errorf "script witness item is larger than the max allowed size")
    else if (length r <? Z.to_nat count)%nat then Err (Errorf "io.ReadFull")
    else Ok (take (Z.to_nat count) r, drop (Z.to_nat count) r)
  end.
Fixpoint readWitness (witCount : nat) (buf : bytes) : outcome (list bytes) :=
  match witCount with
  | O => Ok []
  | S n => r ← readScript buf maxWitnessItemSize; rest ← readWitness n r.2; Ok (r.1 :: rest)
  end.
Definition SimpleSigToWitness (sig : bytes) : outcome (list bytes) :=
  match ReadVarInt sig with
  | None => Err (Errorf "ReadVarInt")
  | Some (witCount, buf) =>
    if maxWitnessItemsPerInput <? witCount then Err (Errorf "too many witness items to fit into max message size")
    else readWitness (Z.to_nat witCount) buf
  end.
Definition SerializeWitness (w : list bytes) : bytes := WriteVarInt (Z.of_nat (length w)) ++ concat (WriteVarBytes <$> w).

(** ** crypto/bip322/bip322.go *)

Definition bip322Tag : bytes := String.list_byte_of_string "BIP0322-signed-message".
Definition GetBIP340TaggedHash (msg : bytes) : bytes :=
  let tagHash := sha256 bip322Tag in sha256 (tagHash ++ tagHash ++ msg).
(** [OP_0] and the push of 32 bytes. *)
Definition toSpendSignatureScript (msg : bytes) : outcome bytes := BuilderScript [AddOp OP_0; AddData (GetBIP340TaggedHash msg)].
Definition toSignPkScript : outcome bytes := must (BuilderScript [AddOp OP_RETURN_op]).
Definition GetToSpendTx (msg : bytes) (address : Address) : outcome MsgTx :=
  script ← toSpendSignatureScript msg;
  pkScript ← PayToAddrScript address;
  Ok (mkMsgTx 0 [mkTxIn (mkOutPoint (replicate 32 x00) (2 ^ 32 - 1)) script [] 0] [mkTxOut 0 pkScript] 0).
Definition GetToSignTx (toSpend : MsgTx) : outcome MsgTx :=
  pkScript ← toSignPkScript;
  Ok (mkMsgTx 0 [mkTxIn (mkOutPoint (TxHash toSpend) 0) [] [] 0] [mkTxOut 0 pkScript] 0).

Definition validateSigHashType (witness : list bytes) (address : Address) : outcome unit :=
  match witness with
  | [] => Err (Errorf "empty witness")
  | sig :: _ =>
    if (length sig =? 0)%nat then Err (Errorf "empty signature in witness")
    else
      script ← PayToAddrScript address;
      if IsPayToTaproot script then
        if (length sig =? 64)%nat then Ok tt
        else if (length sig =? 65)%nat then
          if bool_decide (sig !! 64%nat = Some SigHashAll) then Ok tt else Err (Errorf "invalid sighash type for taproot")
        else Err (Errorf "invalid taproot signature length")
      else if IsPayToWitnessPubKeyHash script then
        if (length sig <? 9)%nat then Err (Errorf "signature too short for P2WPKH")
        else if bool_decide (last sig = Some SigHashAll) then Ok tt else Err (Errorf "invalid sighash type for P2WPKH")
      else Err (Errorf "unsupported address type")
  end.
Definition VerifyP2WPKHAndP2TR (msg : bytes) (witness : list bytes) (address : Address) : outcome unit :=
  _ ← wrapf "sighash validation failed" (validateSigHashType witness address);
  toSpend ← GetToSpendTx msg address;
  toSign ← GetToSignTx toSpend;
  out0 ← index (TxOuts toSpend) 0;
  let toSign := mkMsgTx (Version toSign)
                  ((λ i, mkTxIn (PreviousOutPoint i) (SignatureScript i) witness (Sequence i)) <$> TxIns toSign) (TxOuts toSign) (LockTime toSign) in
  ExecuteScript (PkScript out0) toSign (Value out0).
Definition PubKeyToP2TrSpendAddress (p : point) : outcome Address := NewAddressTaproot (SerializePubKey (ComputeTaprootKeyNoScript p)).

(** ** crypto/ecdsa/ecdsa.go *)

Definition MAGIC_MESSAGE_PREFIX : bytes := String.list_byte_of_string "Bitcoin Signed Message:" ++ [x0a].
Definition magicHash (msg : string) : bytes :=
  DoubleHashH (WriteVarBytes MAGIC_MESSAGE_PREFIX ++ WriteVarBytes (String.list_byte_of_string msg)).
(** A slice out of range panics; half the order is rounded down. *)
Definition RecoverPublicKey (msg : string) (sigBytes : bytes) : outcome (point * bool) :=
  match RecoverCompact sigBytes (magicHash msg) with
  | None => Err (Errorf "RecoverCompact")
  | Some recovered =>
    if (length sigBytes <? 65)%nat then Panic (Errorf "slice bounds out of range")
    else
      let s := be_value (take 32 (drop 33 sigBytes)) in
      if order <=? s then Err (Errorf "invalid signature: S >= group order")
      else if order / 2 <? s then Err (Errorf "invalid signature: S >= group order/2")
      else Ok recovered
  end.

(** ** x/btcstaking/types/pop.go *)

Definition NewBIP340Signature (data : bytes) : outcome bytes := _ ← wrapf "bytes cannot be converted" (ParseSignature data); Ok data.

Definition VerifyBIP340_sig (sigType : BTCSigType) (btcSigRaw bip340PK msg : bytes) : outcome unit :=
  match sigType with
  | BIP340 =>
    bip340Sig ← NewBIP340Signature btcSigRaw;
    btcSig ← ParseSignature bip340Sig;
    btcPK ← ToBTCPK bip340PK;
    if SchnorrVerify (sha256 msg) (SerializePubKey btcPK) btcSig then Ok tt else Err (Errorf "failed to verify pop.BtcSig")
  | _ => Err (Errorf "the Bitcoin signature in this proof of possession is not using BIP-340 encoding")
  end.

(** The check of the staker key that goes with a kind of address. *)
Definition isSupportedAddressAndWitness (address : Address) (witness : list bytes) : outcome (bytes → outcome unit) :=
  script ← PayToAddrScript address;
  if IsPayToTaproot script && (length witness =? 1)%nat then
    Ok (λ stakerKey,
      btcKey ← ToBTCPK stakerKey;
      keyAddress ← PubKeyToP2TrSpendAddress btcKey;
      if bool_decide (ScriptAddress keyAddress = ScriptAddress address) then Ok tt
      else Err (Errorf "bip322Sig.Address does not correspond to bip340PK"))
  else if IsPayToWitnessPubKeyHash script && (length witness =? 2)%nat then
    Ok (λ stakerKey,
      w1 ← index witness 1;
      match ParseCompressedPubKey w1 with
      | None => Err (Errorf "btcec.ParsePubKey")
      | Some keyFromWitness =>
        if bool_decide (SerializePubKey keyFromWitness = stakerKey) then Ok tt
        else Err (Errorf "bip322Sig.Address does not correspond to bip340PK")
      end)
  else Err (Errorf "unsupported bip322 address type").

Definition VerifyBIP322SigPop (msg : bytes) (address : string) (signature pubKeyNoCoord : bytes) : outcome unit :=
  if (length msg =? 0)%nat || (String.length address =? 0)%nat || (length signature =? 0)%nat || (length pubKeyNoCoord =? 0)%nat
  then Err (Errorf "cannot verify bip322 signature. One of the required parameters is empty")
  else
    witness ← SimpleSigToWitness signature;
    btcAddress ← DecodeAddress address;
    stakerKeyMatchesBtcAddressFn ← isSupportedAddressAndWitness btcAddress witness;
    _ ← VerifyP2WPKHAndP2TR msg witness btcAddress;
    key ← NewBIP340PubKey pubKeyNoCoord;
    stakerKeyMatchesBtcAddressFn key.
Definition VerifyBIP322_sig (sigType : BTCSigType) (btcSigRaw bip340PK signedMsg : bytes) : outcome unit :=
  match sigType with
  | BIP322 =>
    match UnmarshalBIP322Sig btcSigRaw with
    | None => Err (Errorf "Unmarshal")
    | Some (address, sig) => VerifyBIP322SigPop signedMsg address sig bip340PK
    end
  | _ => Err (Errorf "the Bitcoin signature in this proof of possession is not using BIP-322 encoding")
  end.
Definition MsgToSignBIP322 (addr : bytes) : bytes := String.list_byte_of_string (AccString addr).

Definition VerifyECDSA_sig (sigType : BTCSigType) (btcSigRaw bip340PK : bytes) (msg : string) : outcome unit :=
  match sigType with
  | ECDSA =>
    btcPK ← ToBTCPK bip340PK;
    recovered ← wrapf "failed to recover btc public key when verifying ECDSA PoP" (RecoverPublicKey msg btcSigRaw);
    if bool_decide (SerializePubKey btcPK = SerializePubKey recovered.1) then Ok tt
    else Err (Errorf "the recovered PK does not match the given PK")
  | _ => Err (Errorf "the Bitcoin signature in this proof of possession is not using ECDSA encoding")
  end.

Definition pop_Verify (pop : ProofOfPossessionBTC) (staker bip340PK : bytes) : outcome unit :=
  match pop_BtcSigType pop with
  | BIP340 => VerifyBIP340_sig (pop_BtcSigType pop) (pop_BtcSig pop) bip340PK staker
  | BIP322 => wrapf "failed to verify possession of babylon sig by the BTC key"
                (VerifyBIP322_sig (pop_BtcSigType pop) (pop_BtcSig pop) bip340PK (MsgToSignBIP322 staker))
  | ECDSA => VerifyECDSA_sig (pop_BtcSigType pop) (pop_BtcSig pop) bip340PK (AccString staker)
  end.

(** An absent signature is the empty one. *)
Definition pop_ValidateBasic (pop : ProofOfPossessionBTC) : outcome unit :=
  if (length (pop_BtcSig pop) =? 0)%nat then Err (Errorf "empty BTC signature")
  else match pop_BtcSigType pop with
  | BIP340 => _ ← wrapf "invalid BTC BIP340 signature" (NewBIP340Signature (pop_BtcSig pop)); Ok tt
  | BIP322 => if bool_decide (UnmarshalBIP322Sig (pop_BtcSig pop) = None) then Err (Errorf "invalid BTC BIP322 signature") else Ok tt
  | ECDSA => if (length (pop_BtcSig pop) =? 65)%nat then Ok tt else Err (Errorf "invalid BTC ECDSA signature size")
  end.

(** ** Lemmas *)

Context {VL : VarIntLaws PB}.

Lemma readWitness_write w rest : Forall (λ b, Z.of_nat (length b) ≤ maxWitnessItemSize) w →
  readWitness (length w) (concat (WriteVarBytes <$> w) ++ rest) = Ok w.
Proof using VL.
  induction 1 as [|b w Hb Hw IH]; [done|]. cbn [length readWitness fmap list_fmap concat].
  unfold readScript. rewrite WriteVarBytes_eq, <- !app_assoc. unfold maxWitnessItemSize in *.
  rewrite ReadVarInt_Write by lia. destruct (Z.ltb_spec 4000000 (Z.of_nat (length b))); [lia|].
  rewrite Nat2Z.id, length_app. destruct (Nat.ltb_spec (length b + length (concat (WriteVarBytes <$> w) ++ rest)) (length b)); [lia|].
  cbn [mbind outcome_bind fst snd]. rewrite drop_app_length, take_app_length, IH. done.
Qed.

(** A BIP-322 simple signature is the encoding of a witness stack: decoding what
    [SerializeWitness] wrote gives the stack back, for stacks within the limits on the
    number and the size of items. Bytes after the encoding are ignored. *)
Theorem SimpleSigToWitness_roundtrip w rest :
  Z.of_nat (length w) ≤ maxWitnessItemsPerInput → Forall (λ b, Z.of_nat (length b) ≤ maxWitnessItemSize) w →
  SimpleSigToWitness (SerializeWitness w ++ rest) = Ok w.
Proof using VL.
  intros Hn Hw. unfold SimpleSigToWitness, SerializeWitness. rewrite <- app_assoc. unfold maxWitnessItemsPerInput in *.
  rewrite ReadVarInt_Write by lia. destruct (Z.ltb_spec 4000000 (Z.of_nat (length w))); [lia|].
  rewrite Nat2Z.id. by apply readWitness_write.
Qed.

End pop.
