(* ===== verification/StakingParams.v ===== *)
(** * x/btcstaking: versioned parameters

    Each update of the parameters gets the next version and takes effect from its
    activation height on Bitcoin. The file translates the validation of the
    parameters and the map from heights to versions (types/params.go) and the
    parameter store (keeper/params.go). It shows that the map and the store stay
    aligned under every update, and that the binary search for a height gives the
    version with the largest activation height not above it. *)

From S2P Require Import Prelude Bytes Store BbnTypes Sha256 Curve Eots AdaptorSig BtcStaking Delegations Coins TxFormatter LightClient Spv StakingTx.

(** ** Maps from heights to versions

    A map is the list of its pairs of start height and version. *)

Notation HeightToVersionMap := (list (Z * Z)).
Definition NewHeightToVersionMap : HeightToVersionMap := [].

Definition AddPair (m : HeightToVersionMap) (newPair : Z * Z) : outcome HeightToVersionMap :=
  match last m with
  | None => if newPair.2 =? 0 then Ok (m ++ [newPair]) else Err (Errorf "version must be 0 for the first pair")
  | Some lastPair =>
    if newPair.1 <=? lastPair.1 then Err (Errorf "pairs must be sorted by start height in ascending order")
    else if negb (newPair.2 =? u32 (lastPair.2 + 1)) then Err (Errorf "versions must be strictly increasing")
    else Ok (m ++ [newPair])
  end.
Definition AddNewPair (m : HeightToVersionMap) (startHeight version : Z) : outcome HeightToVersionMap := AddPair m (startHeight, version).
Definition NewHeightToVersionMapFromPairs (pairs : list (Z * Z)) : outcome HeightToVersionMap :=
  if (length pairs =? 0)%nat then Err (Errorf "can't construct HeightToVersionMap from empty list of HeightVersionPair")
  else foldM AddPair NewHeightToVersionMap pairs.

(** [sort.Search(n, f)]; the interval halves in each turn, so [n] turns are enough. *)
Fixpoint sortSearch (fuel : nat) (f : nat → bool) (i j : nat) : nat :=
  match fuel with
  | O => i
  | S fuel =>
    if (i <? j)%nat then
      let h := ((i + j) / 2)%nat in
      if negb (f h) then sortSearch fuel f (S h) j else sortSearch fuel f i h
    else i
  end.
Definition pair_above (m : HeightToVersionMap) (height : Z) (i : nat) : bool :=
  match m !! i with Some pr => height <? pr.1 | None => false end.
Definition GetVersionForHeight (m : HeightToVersionMap) (height : Z) : outcome Z :=
  if (length m =? 0)%nat then Err (Errorf "height to version map is empty")
  else match sortSearch (length m) (pair_above m height) 0 (length m) with
  | O => Err (Errorf "no parameters found for block height %d")
  | S idx => pr ← index m idx; Ok pr.2
  end.

Fixpoint validatePairs (prev : Z * Z) (m : HeightToVersionMap) : outcome unit :=
  match m with
  | [] => Ok tt
  | pr :: m =>
    if pr.1 <=? prev.1 then Err (Errorf "pairs must be sorted by start height in ascending order")
    else if negb (pr.2 =? u32 (prev.2 + 1)) then Err (Errorf "versions must be strictly increasing")
    else validatePairs pr m
  end.
Definition HeightToVersionMap_Validate (m : HeightToVersionMap) : outcome unit :=
  match m with
  | [] => Err (Errorf "height to version map is empty")
  | [pr] => if pr.2 =? 0 then Ok tt else Err (Errorf "version must be 0 for the first pair")
  | pr :: m => validatePairs pr m
  end.

(** ** Parameters *)

Section params.
Context {curve : Curve} {SB : StakingBtcd}.

(** Keys that do not parse are refused before a duplicate is looked for. *)
Definition ExistsDup (btcPKs : list bytes) : outcome bool :=
  (fix go (seen : gset bytes) (l : list bytes) : outcome bool :=
     match l with
     | [] => Ok false
     | btcPK :: l =>
       _ ← ToBTCPK btcPK;
       if bool_decide (btcPK ∈ seen) then Ok true else go ({[btcPK]} ∪ seen) l
     end) ∅ btcPKs.

Definition MaxUint16 : Z := 2 ^ 16 - 1.
Definition validateMinSlashingTxFeeSat (fee : Z) : outcome unit :=
  if fee <=? 0 then Err (Errorf "minimum slashing tx fee has to be positive") else Ok tt.
Definition validateMinCommissionRate (rate : Z) : outcome unit :=
  if rate <? 0 then Err (Errorf "minimum commission rate cannot be negative")
  else if DecOne <? rate then Err (Errorf "minimum commission rate cannot be greater than 100%%")
  else Ok tt.
Definition validateCovenantPks (covenantPks : list bytes) : outcome unit :=
  duplicate ← ExistsDup covenantPks;
  if (duplicate : bool) then Err (Errorf "duplicate covenant key") else Ok tt.
Definition validateUnbondingTime (unbondingTimeBlocks : Z) : outcome unit :=
  if MaxUint16 <? unbondingTimeBlocks then Err (Errorf "minimum unbonding time blocks cannot be greater than %d") else Ok tt.
Definition validateStakingAmout (minStakingAmt maxStakingAmt : Z) : outcome unit :=
  if minStakingAmt <=? 0 then Err (Errorf "minimum staking amount has to be positive")
  else if maxStakingAmt <=? 0 then Err (Errorf "maximum staking amount has to be positive")
  else if maxStakingAmt <? minStakingAmt then Err (Errorf "minimum staking amount cannot be greater than maximum staking amount")
  else Ok tt.
Definition validateStakingTime (minStakingTime maxStakingTime : Z) : outcome unit :=
  if minStakingTime =? 0 then Err (Errorf "minimum staking time has to be positive")
  else if MaxUint16 <? minStakingTime then Err (Errorf "minimum staking time cannot be greater than %d")
  else if maxStakingTime =? 0 then Err (Errorf "maximum staking time has to be positive")
  else if MaxUint16 <? maxStakingTime then Err (Errorf "maximum staking time cannot be greater than %d")
  else if maxStakingTime <? minStakingTime then Err (Errorf "minimum staking time cannot be greater than maximum staking time")
  else Ok tt.
Definition validateNoDustSlashingOutput (p : StakingParams) : outcome unit :=
  if isOPReturn (sp_SlashingPkScript p) then Ok tt
  else
    minSlashingAmount ← MulRate (i64 (sp_MinStakingValueSat p - sp_UnbondingFeeSat p)) (sp_SlashingRate p);
    if IsDust (mkTxOut minSlashingAmount (sp_SlashingPkScript p))
    then Err (Errorf "invalid parameters configuration. Minimum slashing output is dust")
    else Ok tt.

Definition Params_Validate (p : StakingParams) : outcome unit :=
  if sp_CovenantQuorum p =? 0 then Err (Errorf "covenant quorum size has to be positive")
  else if sp_CovenantQuorum p * 2 <=? Z.of_nat (length (sp_CovenantPks p))
  then Err (Errorf "covenant quorum size has to be more than 1/2 of the covenant committee size")
  else
    _ ← validateStakingAmout (sp_MinStakingValueSat p) (sp_MaxStakingValueSat p);
    _ ← validateStakingTime (sp_MinStakingTimeBlocks p) (sp_MaxStakingTimeBlocks p);
    _ ← validateCovenantPks (sp_CovenantPks p);
    _ ← validateMinSlashingTxFeeSat (sp_MinSlashingTxFeeSat p);
    _ ← validateMinCommissionRate (sp_MinCommissionRate p);
    if negb (IsSlashingRateValid (sp_SlashingRate p)) then Err ErrInvalidSlashingRate
    else if (sp_UnbondingFeeSat p <=? 0) || (sp_MinStakingValueSat p <=? sp_UnbondingFeeSat p) then Err ErrInvalidUnbondingFee
    else
      _ ← validateNoDustSlashingOutput p;
      validateUnbondingTime (sp_UnbondingTimeBlocks p).

Definition HasCovenantPK (p : StakingParams) (pk : bytes) : bool := existsb (λ pk2, bool_decide (pk2 = pk)) (sp_CovenantPks p).
Definition MustGetCovenantPks (p : StakingParams) : outcome (list point) := must (NewBTCPKsFromBIP340PKs (sp_CovenantPks p)).

(** ** The parameter store *)

Definition nextParamsVersion (s : StakingState) : Z :=
  match last (iterZ (stakingParams s)) with None => 0 | Some (v, _) => u32 (v + 1) end.

Definition SetHeightToVersionMap (s : StakingState) (p : HeightToVersionMap) : outcome StakingState :=
  _ ← HeightToVersionMap_Validate p; Ok (set_heightToVersionMap s (Some p)).

Definition SetParams (s : StakingState) (p : StakingParams) : outcome StakingState :=
  _ ← Params_Validate p;
  let nextVersion := nextParamsVersion s in
  pairs ← AddNewPair (default NewHeightToVersionMap (heightToVersionMap s)) (sp_BtcActivationHeight p) nextVersion;
  SetHeightToVersionMap (set_stakingParams s (<[nextVersion := p]> (stakingParams s))) pairs.

Definition OverwriteParamsAtVersion (s : StakingState) (v : Z) (p : StakingParams) : outcome StakingState :=
  _ ← wrapf "cannot overwrite params at version %d" (Params_Validate p);
  let pairs := sort_stable (λ a b : Z * Z, a.2 <? b.2) (default NewHeightToVersionMap (heightToVersionMap s)) in
  pairs ← (if Z.of_nat (length pairs) <=? v then AddNewPair pairs (sp_BtcActivationHeight p) v
           else Ok (<[Z.to_nat v := (sp_BtcActivationHeight p, v)]> pairs));
  SetHeightToVersionMap (set_stakingParams s (<[v := p]> (stakingParams s))) pairs.

Definition GetAllParams (s : StakingState) : list StakingParams := (iterZ (stakingParams s)).*2.

Definition GetParamsForBtcHeight (s : StakingState) (height : Z) : outcome (option StakingParams * Z) :=
  match heightToVersionMap s with
  | None => Panic (Errorf "height to version map not found")
  | Some pairs => version ← GetVersionForHeight pairs height; Ok (GetParamsByVersion s version, version)
  end.

(** ** Binary search *)

Lemma sortSearch_spec (f : nat → bool) n fuel i j :
  (∀ a b, (a ≤ b < n)%nat → f a = true → f b = true) →
  (i ≤ j ≤ n)%nat → (j - i ≤ fuel)%nat → (∀ a, (a < i)%nat → f a = false) → (∀ a, (j ≤ a < n)%nat → f a = true) →
  let r := sortSearch fuel f i j in
  (r ≤ n)%nat ∧ (∀ a, (a < r)%nat → f a = false) ∧ (∀ a, (r ≤ a < n)%nat → f a = true).
Proof using.
  intros Hmono. revert i j. induction fuel as [|fuel IH]; intros i j Hij Hf Hlo Hhi; cbn [sortSearch].
  { split_and!; [lia|done|]. intros a ?. apply Hhi. lia. }
  destruct (Nat.ltb_spec i j).
  2: { split_and!; [lia|done|]. intros a ?. apply Hhi. lia. }
  assert (i ≤ (i + j) / 2 < j)%nat as Hh by (split; [apply Nat.div_le_lower_bound; lia|apply Nat.Div0.div_lt_upper_bound; lia]).
  set (h := ((i + j) / 2)%nat) in *. clearbody h. destruct (f h) eqn:E; simpl.
  - apply IH; [lia|lia|done|]. intros a ?. destruct (decide (a < j)%nat); [|apply Hhi; lia]. apply (Hmono h); [lia|done].
  - apply IH; [lia|lia| |done]. intros a ?. destruct (f a) eqn:Ea; [|done].
    destruct (decide (a < i)%nat); [rewrite Hlo in Ea; [done|lia]|].
    rewrite (Hmono a h) in E; [done|lia|done].
Qed.

Definition ascending (m : HeightToVersionMap) : Prop :=
  ∀ i j a b, (i < j)%nat → m !! i = Some a → m !! j = Some b → a.1 < b.1.

(** The search over an ascending map gives the last pair that does not start above the
    height. *)
Lemma GetVersionForHeight_spec m height : ascending m → m ≠ [] →
  (∃ i pr, GetVersionForHeight m height = Ok pr.2 ∧ m !! i = Some pr ∧ pr.1 ≤ height ∧
     ∀ j pr', m !! j = Some pr' → pr'.1 ≤ height → (j ≤ i)%nat) ∨
  (∃ e, GetVersionForHeight m height = Err e ∧ ∀ j pr', m !! j = Some pr' → height < pr'.1).
Proof using.
  intros Hasc Hne. unfold GetVersionForHeight. destruct (Nat.eqb_spec (length m) 0); [by destruct m|].
  destruct (sortSearch_spec (pair_above m height) (length m) (length m) 0 (length m)) as (Hr & Hlo & Hhi); [|lia|lia|lia|lia|].
  { intros a b Hab. unfold pair_above. destruct (m !! a) as [x|] eqn:Ex; [|done].
    destruct (m !! b) as [y|] eqn:Ey; [|apply lookup_ge_None in Ey; lia].
    intros ?%Z.ltb_lt. apply Z.ltb_lt. destruct (decide (a = b)) as [->|]; [congruence|].
    pose proof (Hasc a b x y ltac:(lia) Ex Ey). lia. }
  set (r := sortSearch _ _ _ _) in *. clearbody r. destruct r as [|r].
  - right. eexists. split; [done|]. intros j pr' Hj. pose proof (lookup_lt_Some _ _ _ Hj).
    specialize (Hhi j ltac:(lia)). unfold pair_above in Hhi. rewrite Hj in Hhi. by apply Z.ltb_lt.
  - left. destruct (lookup_lt_is_Some_2 m r) as [pr Hpr]; [lia|]. exists r, pr. unfold index. rewrite Hpr.
    split_and!; [done|done| |].
    + specialize (Hlo r ltac:(lia)). unfold pair_above in Hlo. rewrite Hpr in Hlo. by apply Z.ltb_ge.
    + intros j pr' Hj Hle. destruct (decide (j ≤ r)%nat); [done|]. pose proof (lookup_lt_Some _ _ _ Hj).
      specialize (Hhi j ltac:(lia)). unfold pair_above in Hhi. rewrite Hj in Hhi. apply Z.ltb_lt in Hhi. lia.
Qed.

(** ** Updates keep the map and the store aligned *)

Lemma validatePairs_step prev m i a b : validatePairs prev m = Ok tt →
  (prev :: m) !! i = Some a → (prev :: m) !! S i = Some b → a.1 < b.1.
Proof using.
  revert prev i. induction m as [|x m IH]; intros prev i H Ha Hb; [done|]. simpl in H.
  destruct (Z.leb_spec x.1 prev.1); [done|]. destruct (negb _); [done|]. destruct i as [|i].
  - simpl in Ha, Hb. congruence.
  - by apply (IH x i).
Qed.

Lemma Validate_ascending m : HeightToVersionMap_Validate m = Ok tt → ascending m ∧ m ≠ [].
Proof using.
  intros H. assert (∀ i a b, m !! i = Some a → m !! S i = Some b → a.1 < b.1) as Hstep.
  { intros i a b. destruct m as [|x [|y m]]; [done| |].
    - destruct i; simpl; done.
    - by apply (validatePairs_step x (y :: m)). }
  split; [|by intros ->]. intros i j a b Hij. revert b. induction Hij as [|j Hij IH]; intros b Ha Hb; [by apply (Hstep i)|].
  pose proof (lookup_lt_Some _ _ _ Hb). destruct (lookup_lt_is_Some_2 m j) as [c Hc]; [lia|].
  pose proof (IH c Ha Hc). pose proof (Hstep j c b Hc Hb). lia.
Qed.

Lemma AddPair_Ok m pr m' : AddPair m pr = Ok m' →
  m' = m ++ [pr] ∧ match last m with None => pr.2 = 0 | Some l => pr.2 = u32 (l.2 + 1) end.
Proof using.
  unfold AddPair. destruct (last m) as [l|]; intros H.
  - destruct (_ <=? _); [done|]. destruct (Z.eqb_spec pr.2 (u32 (l.2 + 1))); [|done]. by injection H as <-.
  - destruct (Z.eqb_spec pr.2 0); [|done]. by injection H as <-.
Qed.

Lemma sort_stable_id {A} (less : A → A → bool) l : StronglySorted (may_precede less) l → sort_stable less l = l.
Proof using.
  induction 1 as [|x l Hl IH Hx]; [done|]. simpl. rewrite IH. destruct l as [|y l]; [done|]. simpl.
  apply Forall_inv in Hx. by rewrite Hx.
Qed.

Definition pairs_of (s : StakingState) : HeightToVersionMap := default [] (heightToVersionMap s).

(** Version [i] is the pair at position [i], with the activation height of the
    parameters stored under it; nothing else is stored. *)
Record aligned (s : StakingState) : Prop := {
  al_pair i pr : pairs_of s !! i = Some pr → pr.2 = Z.of_nat i ∧ ∃ p, stakingParams s !! Z.of_nat i = Some p ∧ pr.1 = sp_BtcActivationHeight p;
  al_dom v p : stakingParams s !! v = Some p → Params_Validate p = Ok tt ∧ 0 ≤ v < Z.of_nat (length (pairs_of s));
  al_asc : ascending (pairs_of s);
  al_some m : heightToVersionMap s = Some m → m ≠ []
}.

Lemma aligned_next s : aligned s → Z.of_nat (length (pairs_of s)) < 2 ^ 32 → nextParamsVersion s = Z.of_nat (length (pairs_of s)).
Proof using.
  intros Hal Hlen. unfold nextParamsVersion. destruct (last (iterZ (stakingParams s))) as [[v p]|] eqn:E.
  - apply iterZ_last in E as [Hv Hmax]. destruct (al_dom s Hal v p Hv) as [_ ?].
    destruct (lookup_lt_is_Some_2 (pairs_of s) (length (pairs_of s) - 1)) as [pr Hpr]; [lia|].
    destruct (al_pair s Hal _ _ Hpr) as (_ & p' & Hp' & _). specialize (Hmax (Z.of_nat (length (pairs_of s) - 1)) (mk_is_Some _ _ Hp')).
    rewrite u32_small by (unfold in_u32; lia). lia.
  - apply iterZ_last_None in E. destruct (pairs_of s) as [|pr m] eqn:Em; [done|].
    destruct (al_pair s Hal 0 pr) as (_ & p & Hp & _); [by rewrite Em|]. by rewrite E in Hp.
Qed.

Lemma aligned_last s : aligned s → Z.of_nat (length (pairs_of s)) < 2 ^ 32 →
  match last (pairs_of s) with None => 0 | Some l => u32 (l.2 + 1) end = Z.of_nat (length (pairs_of s)).
Proof using.
  intros Hal Hlen. rewrite last_lookup. destruct (pairs_of s !! pred (length (pairs_of s))) as [l|] eqn:E.
  - pose proof (lookup_lt_Some _ _ _ E). destruct (al_pair s Hal _ _ E) as [-> _].
    rewrite u32_small by (unfold in_u32; lia). lia.
  - apply lookup_ge_None in E. destruct (pairs_of s); simpl in *; [done|lia].
Qed.

Lemma aligned_update s v p pairs s' : aligned s → Params_Validate p = Ok tt →
  (pairs = pairs_of s ++ [(sp_BtcActivationHeight p, v)] ∧ v = Z.of_nat (length (pairs_of s)) ∨
   pairs = <[Z.to_nat v := (sp_BtcActivationHeight p, v)]> (pairs_of s) ∧ 0 ≤ v < Z.of_nat (length (pairs_of s))) →
  SetHeightToVersionMap (set_stakingParams s (<[v := p]> (stakingParams s))) pairs = Ok s' →
  aligned s' ∧ (length (pairs_of s') ≤ S (length (pairs_of s)))%nat.
Proof using.
  intros Hal Hp Hv H. apply bind_Ok in H as ([] & Hval & [= <-]). destruct (Validate_ascending _ Hval) as [Hasc Hne].
  assert (∀ i pr, pairs !! i = Some pr → i = Z.to_nat v ∧ pr = (sp_BtcActivationHeight p, v) ∨ i ≠ Z.to_nat v ∧ pairs_of s !! i = Some pr) as Hpairs.
  { intros i pr Hi. destruct Hv as [[-> ->]|[-> Hr]].
    - rewrite Nat2Z.id. apply lookup_app_Some in Hi as [Hi|[? Hi]]; [right; split; [pose proof (lookup_lt_Some _ _ _ Hi); lia|done]|].
      apply list_lookup_singleton_Some in Hi as [? <-]. left. split; [lia|done].
    - destruct (decide (i = Z.to_nat v)) as [->|]; [left|right; by rewrite list_lookup_insert_ne in Hi].
      rewrite list_lookup_insert_eq in Hi by lia. by injection Hi as <-. }
  assert (0 ≤ v < Z.of_nat (length pairs) ∧ (length (pairs_of s) ≤ length pairs ≤ S (length (pairs_of s)))%nat) as (Hv0 & Hlen).
  { destruct Hv as [[-> ->]|[-> ?]]; [rewrite length_app; simpl; lia|rewrite length_insert; lia]. }
  split; [|exact (proj2 Hlen)]. split; [| |done|by intros m [= <-]].
  - change (∀ i pr, pairs !! i = Some pr → pr.2 = Z.of_nat i ∧ ∃ p0, <[v := p]> (stakingParams s) !! Z.of_nat i = Some p0 ∧ pr.1 = sp_BtcActivationHeight p0).
    intros i pr Hi. apply Hpairs in Hi as [[-> ->]|[Hne' Hi]].
    + simpl. rewrite Z2Nat.id by lia. split; [done|]. exists p. by rewrite lookup_insert_eq.
    + rewrite lookup_insert_ne by lia. by apply al_pair.
  - change (∀ v0 p0, <[v := p]> (stakingParams s) !! v0 = Some p0 → Params_Validate p0 = Ok tt ∧ 0 ≤ v0 < Z.of_nat (length pairs)).
    intros v0 p0 [[<- <-]|[_ Hl]]%lookup_insert_Some; [done|]. destruct (al_dom s Hal _ _ Hl). split; [done|lia].
Qed.

Lemma SetParams_aligned s p s' : aligned s → Z.of_nat (length (pairs_of s)) < 2 ^ 32 → SetParams s p = Ok s' →
  aligned s' ∧ (length (pairs_of s') ≤ S (length (pairs_of s)))%nat.
Proof using.
  intros Hal Hlen H. apply bind_Ok in H as ([] & Hp & H). apply bind_Ok in H as (pairs & Hadd & H).
  rewrite aligned_next in Hadd, H by done. apply AddPair_Ok in Hadd as [-> _].
  eapply aligned_update; [done|done| |exact H]. by left.
Qed.

Lemma StronglySorted_of_lookup {A} (R : A → A → Prop) (l : list A) :
  (∀ i j a b, (i < j)%nat → l !! i = Some a → l !! j = Some b → R a b) → StronglySorted R l.
Proof using.
  induction l as [|x l IH]; intros H; constructor.
  - apply IH. intros i j a b Hij Ha Hb. apply (H (S i) (S j)); [lia|done..].
  - apply Forall_lookup. intros j b Hb. apply (H 0%nat (S j)); [lia|done..].
Qed.

Lemma pairs_sorted s : aligned s → StronglySorted (may_precede (λ a b : Z * Z, a.2 <? b.2)) (pairs_of s).
Proof using.
  intros Hal. apply StronglySorted_of_lookup. intros i j a b Hij Ha Hb. unfold may_precede. apply Z.ltb_ge.
  destruct (al_pair s Hal _ _ Ha) as [-> _], (al_pair s Hal _ _ Hb) as [-> _]. lia.
Qed.

Lemma OverwriteParams_aligned s v p s' : aligned s → Z.of_nat (length (pairs_of s)) < 2 ^ 32 → 0 ≤ v →
  OverwriteParamsAtVersion s v p = Ok s' → aligned s' ∧ (length (pairs_of s') ≤ S (length (pairs_of s)))%nat.
Proof using.
  intros Hal Hlen Hv H. apply bind_Ok in H as ([] & Hp & H). apply wrapf_Ok in Hp.
  apply bind_Ok in H as (pairs & Hadd & H). 
  change (default NewHeightToVersionMap (heightToVersionMap s)) with (pairs_of s) in Hadd.
  rewrite (sort_stable_id _ _ (pairs_sorted s Hal)) in Hadd.
  eapply aligned_update; [done|done| |exact H].
  destruct (Z.leb_spec (Z.of_nat (length (pairs_of s))) v).
  - apply AddPair_Ok in Hadd as [-> Hl]. left. split; [done|]. pose proof (aligned_last s Hal Hlen) as Hlast.
    simpl in Hl. destruct (last (pairs_of s)); congruence.
  - injection Hadd as <-. right. split; [done|lia].
Qed.

(** A history of the parameters from genesis on: [n] updates, and any changes to the
    rest of the state. *)
Inductive params_history : nat → StakingState → Prop :=
  | ph_genesis s : stakingParams s = ∅ → heightToVersionMap s = None → params_history 0 s
  | ph_set n s p s' : params_history n s → SetParams s p = Ok s' → params_history (S n) s'
  | ph_overwrite n s v p s' : params_history n s → 0 ≤ v → OverwriteParamsAtVersion s v p = Ok s' → params_history (S n) s'
  | ph_other n s s' : params_history n s → stakingParams s' = stakingParams s → heightToVersionMap s' = heightToVersionMap s →
      params_history n s'.

Lemma history_aligned n s : params_history n s → Z.of_nat n < 2 ^ 32 → aligned s ∧ (length (pairs_of s) ≤ n)%nat.
Proof using.
  induction 1 as [s Hs Hm|n s p s' _ IH H|n s v p s' _ IH Hv H|n s s' _ IH Hs Hm]; intros Hn.
  - unfold pairs_of. rewrite Hm. split; [|simpl; lia]. split; unfold pairs_of; rewrite ?Hm, ?Hs; simpl; intros *; intros; done.
  - destruct IH as [Hal Hlen]; [lia|]. destruct (SetParams_aligned s p s' Hal ltac:(lia) H). split; [done|lia].
  - destruct IH as [Hal Hlen]; [lia|]. destruct (OverwriteParams_aligned s v p s' Hal ltac:(lia) Hv H). split; [done|lia].
  - destruct IH as [[Hp Hd Ha He] Hlen]; [done|]. unfold pairs_of in *. split; [|by rewrite Hm].
    split; unfold pairs_of; rewrite ?Hm, ?Hs; done.
Qed.

(** C8: The parameters in force at a Bitcoin height. After any history of parameter
    updates and overwrites, every stored version has parameters that pass validation,
    later versions have later activation heights, and the lookup for a height gives
    exactly the stored version with the largest activation height not above it. The
    lookup fails only when no stored version is active at the height, and it never
    refers to a version that is not stored. *)
Theorem params_in_force n s height : params_history n s → Z.of_nat n < 2 ^ 32 → is_Some (heightToVersionMap s) →
  (∀ v p, stakingParams s !! v = Some p → Params_Validate p = Ok tt ∧ 0 ≤ v < Z.of_nat n) ∧
  (∀ v v' p p', stakingParams s !! v = Some p → stakingParams s !! v' = Some p' →
     v < v' ↔ sp_BtcActivationHeight p < sp_BtcActivationHeight p') ∧
  ((∃ v p, GetParamsForBtcHeight s height = Ok (Some p, v) ∧ stakingParams s !! v = Some p ∧ sp_BtcActivationHeight p ≤ height ∧
      ∀ v' p', stakingParams s !! v' = Some p' → sp_BtcActivationHeight p' ≤ height → v' ≤ v) ∨
   (∃ e, GetParamsForBtcHeight s height = Err e ∧ ∀ v p, stakingParams s !! v = Some p → height < sp_BtcActivationHeight p)).
Proof using.
  intros Hh Hn [m Hm]. destruct (history_aligned n s Hh Hn) as [Hal Hlen].
  assert (pairs_of s = m) as Epairs by (unfold pairs_of; by rewrite Hm).
  assert (∀ v p, stakingParams s !! v = Some p → ∃ pr, pairs_of s !! Z.to_nat v = Some pr ∧ pr.1 = sp_BtcActivationHeight p ∧ 0 ≤ v) as Hpr.
  { intros v p Hv. destruct (al_dom s Hal v p Hv) as [_ ?]. destruct (lookup_lt_is_Some_2 (pairs_of s) (Z.to_nat v)) as [pr E]; [lia|].
    exists pr. destruct (al_pair s Hal _ _ E) as (_ & p' & Hp' & Ha). rewrite Z2Nat.id in Hp' by lia. split_and!; [done|congruence|lia]. }
  split_and!.
  - intros v p Hv. destruct (al_dom s Hal v p Hv). split; [done|lia].
  - assert (∀ v v' p p', stakingParams s !! v = Some p → stakingParams s !! v' = Some p' → v < v' → sp_BtcActivationHeight p < sp_BtcActivationHeight p') as Hlt.
    { intros v v' p p' (pr & E & <- & ?)%Hpr (pr' & E' & <- & ?)%Hpr ?. eapply (al_asc s Hal (Z.to_nat v) (Z.to_nat v')); [lia|done..]. }
    intros v v' p p' Hv Hv'. split; [by apply Hlt|]. intros ?. destruct (Z.lt_trichotomy v v') as [?|[->|Hgt]]; [done| |].
    + rewrite Hv in Hv'. injection Hv' as ->. lia.
    + pose proof (Hlt v' v p' p Hv' Hv Hgt). lia.
  - unfold GetParamsForBtcHeight. rewrite Hm, <- Epairs. rewrite <- Epairs in Hm.
    destruct (GetVersionForHeight_spec (pairs_of s) height (al_asc s Hal) (al_some s Hal _ Hm)) as [(i & pr & -> & Hi & Hle & Hmax)|(e & -> & Hall)].
    + left. destruct (al_pair s Hal _ _ Hi) as (Ev & p & Hp & Ea). exists pr.2, p. simpl. unfold GetParamsByVersion. rewrite Ev, Hp.
      split_and!; [done|done|lia|]. intros v' p' (pr' & E' & <- & ?)%Hpr ?. pose proof (Hmax _ _ E' ltac:(lia)). lia.
    + right. exists e. split; [done|]. intros v p (pr & E & <- & _)%Hpr. by apply Hall in E.
Qed.

End params.
