(* ===== verification/StakingMsgs.v ===== *)
(** * x/btcstaking: messages

    The message handlers of the BTC staking module: creating, expanding, activating and
    ending BTC delegations, covenant signatures, finality providers and parameters. The
    file translates types/create_delegation_parser.go, types/validate_parsed_message.go,
    the messages of types/msg.go, the methods of types/btc_delegation.go that build
    scripts and complete slashing transactions, and from the keeper msg_server.go,
    btc_delegations.go, btc_delegators.go, inclusion_proof.go,
    unbonding_transaction_sig_validation.go and allowed_transaction_index.go. Handlers
    run on the module's store, the light client's headers and an environment of gas and
    refunds. *)

From S2P Require Import Prelude Bytes Store BbnTypes Sha256 Curve Eots AdaptorSig BtcStaking Delegations Coins TxFormatter LightClient Spv StakingTx.
From S2P Require Import Pop StakingParams.

(** ** Messages *)

(** The index and header hash of a transaction, and its Merkle branch. *)
Record InclusionProof := mkInclusion { ip_Key : option (Z * bytes); ip_Proof : option bytes }.

Record MsgCreateBTCDelegation := mkMsgCreateDel {
  mcd_StakerAddr : string; mcd_Pop : option ProofOfPossessionBTC; mcd_BtcPk : option bytes; mcd_FpBtcPkList : list bytes;
  mcd_StakingTime : Z; mcd_StakingValue : Z; mcd_StakingTx : bytes; mcd_StakingTxInclusionProof : option InclusionProof;
  mcd_SlashingTx : option bytes; mcd_DelegatorSlashingSig : option bytes;
  mcd_UnbondingTime : Z; mcd_UnbondingTx : bytes; mcd_UnbondingValue : Z;
  mcd_UnbondingSlashingTx : option bytes; mcd_DelegatorUnbondingSlashingSig : option bytes }.

(** The fields of a new delegation, the staking transaction it expands, and the
    transaction that funds the expansion. *)
Record MsgBtcStakeExpand := mkMsgExpand {
  mse_Del : MsgCreateBTCDelegation; mse_PreviousStakingTxHash : string; mse_FundingTx : bytes }.

Record MsgAddCovenantSigs := mkMsgCovSigs {
  mcs_Pk : bytes; mcs_StakingTxHash : string; mcs_SlashingTxSigs : list bytes; mcs_UnbondingTxSig : bytes;
  mcs_SlashingUnbondingTxSigs : list bytes; mcs_StakeExpansionTxSig : option bytes }.
Record MsgBTCUndelegate := mkMsgUndelegate {
  mbu_StakingTxHash : string; mbu_StakeSpendingTx : bytes; mbu_StakeSpendingTxInclusionProof : option InclusionProof;
  mbu_FundingTransactions : list bytes }.
Record MsgAddBTCDelegationInclusionProof := mkMsgInclusion {
  mai_Signer : string; mai_StakingTxHash : string; mai_StakingTxInclusionProof : option InclusionProof }.
Record MsgSelectiveSlashingEvidence := mkMsgEvidence { mev_Signer : string; mev_RecoveredFpBtcSk : bytes }.
Record MsgEditFinalityProvider := mkMsgEditFP {
  mef_Addr : string; mef_BtcPk : bytes; mef_Description : bytes; mef_Commission : option Z }.

Inductive StakingRefundable :=
  | RefundInclusion (msg : MsgAddBTCDelegationInclusionProof)
  | RefundCovenantSigs (msg : MsgAddCovenantSigs)
  | RefundUndelegate (msg : MsgBTCUndelegate)
  | RefundEvidence (msg : MsgSelectiveSlashingEvidence).

(** Gas, where running out of it panics, and the index of messages whose fee is
    refunded. *)
Class StakingEnv (W : Type) := {
  ConsumeGas : W → Z → outcome W;
  IndexRefundableStaking : W → StakingRefundable → W
}.

(** [chainhash.Hash] as strings, [wire.TxOut] as bytes, the taproot commitment of a
    script in a witness, and the signature hash with a hash type and an annex. *)
Class SpendBtcd := {
  HashStr : bytes → string;
  HashFromStr : string → option bytes;
  WriteTxOut : TxOut → outcome bytes;
  ReadTxOut : bytes → outcome TxOut;
  ParseControlBlock : bytes → outcome unit;
  VerifyTaprootLeafCommitment : bytes → bytes → bytes → outcome unit;
  TapscriptSigHashWith : Z → bytes → MsgTx → nat → list (OutPoint * TxOut) → bytes → outcome bytes;
  PrivKeyFromBytes : bytes → Z
}.

Definition deref {A} (p : option A) : outcome A := match p with Some a => Ok a | None => Panic (Errorf "nil pointer dereference") end.

(** [strings.EqualFold] on ASCII. *)
Definition ascii_lower (c : Ascii.ascii) : Ascii.ascii :=
  let n := Ascii.nat_of_ascii c in if (65 <=? n)%nat && (n <=? 90)%nat then Ascii.ascii_of_nat (n + 32) else c.
Fixpoint string_lower (s : string) : string :=
  match s with EmptyString => EmptyString | String c s => String (ascii_lower c) (string_lower s) end.
Definition EqualFold (a b : string) : bool := bool_decide (string_lower a = string_lower b).

Section staking.
Context {curve : Curve} {CP : CompressedPoints} {SV : SchnorrVerification} {DH : DoubleHash} {BT : BtcTx MsgTx} {SB : StakingBtcd}
  {PB : PopBtcd} {addresses : Bech32} {SP : SpendBtcd} {H : Type} {BW : BtcWire H} {BP : BtcPow H}.

(** The hashes of stored delegations are those of their staking transactions. *)
#[export] Instance staking_hashing : BtcHashing :=
  {| Delegations.TxHash b := TxHash <$> NewTxFromBytes b; HashString := HashStr; NewHashFromStr := HashFromStr |}.

(** ** types/create_delegation_parser.go *)

Record ParsedCreateDelStkExp := mkParsedExp {
  PreviousActiveStkTxHash : bytes; OtherFundingOutput : TxOut; FundingTxHash : bytes; FundingOutputIndex : Z }.
Record ParsedProofOfInclusion := mkParsedInclusion { HeaderHash : bytes; pi_Proof : bytes; pi_Index : Z }.
Record ParsedCreateDelegationMessage := mkParsed {
  StakerAddress : bytes;
  pm_StakingTx : MsgTx * bytes;
  StakingTxProofOfInclusion : option ParsedProofOfInclusion;
  pm_StakingTime : Z;
  StakingValue : Z;
  StakingSlashingTx : MsgTx * bytes;
  StakerPK : point * bytes;
  StakerStakingSlashingTxSig : bytes;
  pm_UnbondingTx : MsgTx * bytes;
  pm_UnbondingTime : Z;
  UnbondingValue : Z;
  UnbondingSlashingTx : MsgTx * bytes;
  StakerUnbondingSlashingSig : bytes;
  FinalityProviderKeys : list point * list bytes;
  ParsedPop : ProofOfPossessionBTC;
  pm_StkExp : option ParsedCreateDelStkExp
}.

Definition NewParsedPublicKey (key : option bytes) : outcome (point * bytes) :=
  match key with
  | None => Err (Errorf "cannot parse nil *bbn.BIP340PubKey")
  | Some key => pk ← wrapf "failed to parse *bbn.BIP340PubKey" (ToBTCPK key); Ok (pk, key)
  end.
Definition NewParsedBIP340Signature (sig : option bytes) : outcome bytes :=
  match sig with
  | None => Err (Errorf "cannot parse nil *bbn.BIP340Signature")
  | Some sig => _ ← wrapf "failed to parse *bbn.BIP340Signature" (ParseSignature sig); Ok sig
  end.
Definition NewBtcTransaction (transactionBytes : bytes) : outcome (MsgTx * bytes) :=
  tx ← NewBTCTxFromBytes transactionBytes; Ok (tx, transactionBytes).
Definition NewParsedPublicKeyList (pks : list bytes) : outcome (list point * list bytes) :=
  if (length pks =? 0)%nat then Err (Errorf "cannot parse empty list of *bbn.BIP340PubKey")
  else parsedKeys ← wrapf "failed to parse list of *bbn.BIP340PubKey" (NewBTCPKsFromBIP340PKs pks); Ok (parsedKeys, pks).
Definition InclusionProof_ValidateBasic (ip : InclusionProof) : outcome unit :=
  match ip_Key ip, ip_Proof ip with
  | None, _ => Err (Errorf "key in InclusionProof is nil")
  | _, None => Err (Errorf "proof in InclussionProof is nil")
  | _, _ => Ok tt
  end.
Definition NewParsedProofOfInclusion (ip : option InclusionProof) : outcome (option ParsedProofOfInclusion) :=
  match ip with
  | None => Ok None
  | Some ip =>
    _ ← InclusionProof_ValidateBasic ip;
    key ← deref (ip_Key ip);
    Ok (Some (mkParsedInclusion key.2 (default [] (ip_Proof ip)) key.1))
  end.

Definition parseCreateDelegationMessage (msg : MsgCreateBTCDelegation) : outcome ParsedCreateDelegationMessage :=
  stakingTxProofOfInclusion ← wrapf "failed to parse staking tx proof of inclusion" (NewParsedProofOfInclusion (mcd_StakingTxInclusionProof msg));
  stakingTx ← wrapf "failed to deserialize staking tx" (NewBtcTransaction (mcd_StakingTx msg));
  slashingBytes ← deref (mcd_SlashingTx msg);
  stakingSlashingTx ← wrapf "failed to deserialize staking slashing tx" (NewBtcTransaction slashingBytes);
  unbondingTx ← wrapf "failed to deserialize unbonding tx" (NewBtcTransaction (mcd_UnbondingTx msg));
  unbondingSlashingBytes ← deref (mcd_UnbondingSlashingTx msg);
  unbondingSlashingTx ← wrapf "failed to deserialize unbonding slashing tx" (NewBtcTransaction unbondingSlashingBytes);
  if MaxUint16 <? mcd_UnbondingTime msg then Err (Errorf "unbonding time %d must be lower than %d")
  else if MaxUint16 <? mcd_StakingTime msg then Err (Errorf "staking time %d must be lower than %d")
  else match AccFromBech32 (mcd_StakerAddr msg) with
  | None => Err (Errorf "invalid staker address")
  | Some stakerAddr =>
    match mcd_Pop msg with
    | None => Err (Errorf "empty proof of possession")
    | Some pop =>
      _ ← pop_ValidateBasic pop;
      stakerStakingSlashingTxSig ← wrapf "failed to parse staker staking slashing signature" (NewParsedBIP340Signature (mcd_DelegatorSlashingSig msg));
      stakerUnbondingSlashingSig ← wrapf "failed to parse staker unbonding slashing signature"
                                     (NewParsedBIP340Signature (mcd_DelegatorUnbondingSlashingSig msg));
      fpPKs ← wrapf "failed to parse finality provider public keys" (NewParsedPublicKeyList (mcd_FpBtcPkList msg));
      duplicate ← wrapf "error in FPs public keys" (ExistsDup fpPKs.2);
      if (duplicate : bool) then Err ErrDuplicatedFp
      else if negb (length fpPKs.2 =? 1)%nat then Err ErrTooManyFpKeys
      else
        stakerPK ← wrapf "failed to parse staker public key" (NewParsedPublicKey (mcd_BtcPk msg));
        if mcd_StakingValue msg <? 0 then Err (Errorf "staking value must be positive")
        else if mcd_UnbondingValue msg <? 0 then Err (Errorf "unbonding value must be positive")
        else Ok (mkParsed stakerAddr stakingTx stakingTxProofOfInclusion (mcd_StakingTime msg) (mcd_StakingValue msg) stakingSlashingTx
                   stakerPK stakerStakingSlashingTxSig unbondingTx (mcd_UnbondingTime msg) (mcd_UnbondingValue msg) unbondingSlashingTx
                   stakerUnbondingSlashingSig fpPKs pop None)
    end
  end.

Definition GetStakeExpansion (m : MsgBtcStakeExpand) : outcome ParsedCreateDelStkExp :=
  match HashFromStr (mse_PreviousStakingTxHash m) with
  | None => Err (Errorf "NewHashFromStr")
  | Some previousActiveStkTxHash =>
    stkExpandTx ← NewBTCTxFromBytes (mcd_StakingTx (mse_Del m));
    fundingTx ← NewBTCTxFromBytes (mse_FundingTx m);
    match TxIns stkExpandTx with
    | [in0; in1] =>
      if negb (bool_decide (op_Hash (PreviousOutPoint in0) = previousActiveStkTxHash))
      then Err (Errorf "stake expansion first input must be the previous staking transaction hash %s")
      else if negb (bool_decide (op_Hash (PreviousOutPoint in1) = TxHash fundingTx))
      then Err (Errorf "stake expansion second input must be the given funding tx hash %s")
      else
        let idxOtherInput := op_Index (PreviousOutPoint in1) in
        match TxOuts fundingTx !! Z.to_nat idxOtherInput with
        | None => Err (Errorf "the given funding tx doesn't have the expected output index")
        | Some otherOutput =>
          if Value otherOutput <=? 0 then Err (Errorf "funding output has invalid value %d")
          else Ok (mkParsedExp previousActiveStkTxHash otherOutput (TxHash fundingTx) idxOtherInput)
        end
    | _ => Err (Errorf "stake expansion must have 2 inputs (TxIn)")
    end
  end.
(** The message that is parsed has no inclusion proof. *)
Definition parseBtcExpandMessage (msg : MsgBtcStakeExpand) : outcome ParsedCreateDelegationMessage :=
  let d := mse_Del msg in
  parsed ← parseCreateDelegationMessage
    (mkMsgCreateDel (mcd_StakerAddr d) (mcd_Pop d) (mcd_BtcPk d) (mcd_FpBtcPkList d) (mcd_StakingTime d) (mcd_StakingValue d) (mcd_StakingTx d)
       None (mcd_SlashingTx d) (mcd_DelegatorSlashingSig d) (mcd_UnbondingTime d) (mcd_UnbondingTx d) (mcd_UnbondingValue d)
       (mcd_UnbondingSlashingTx d) (mcd_DelegatorUnbondingSlashingSig d));
  stkExp ← GetStakeExpansion msg;
  Ok (mkParsed (StakerAddress parsed) (pm_StakingTx parsed) (StakingTxProofOfInclusion parsed) (pm_StakingTime parsed) (StakingValue parsed)
        (StakingSlashingTx parsed) (StakerPK parsed) (StakerStakingSlashingTxSig parsed) (pm_UnbondingTx parsed) (pm_UnbondingTime parsed)
        (UnbondingValue parsed) (UnbondingSlashingTx parsed) (StakerUnbondingSlashingSig parsed) (FinalityProviderKeys parsed) (ParsedPop parsed)
        (Some stkExp)).
Definition IsIncludedOnBTC (msg : ParsedCreateDelegationMessage) : bool := bool_decide (is_Some (StakingTxProofOfInclusion msg)).

(** ** types/validate_parsed_message.go *)

(** [GetOutputIdxInBTCTx]: the position of the only output that is equal to the given
    one; positions fit in a [uint32]. *)
Definition GetOutputIdxInBTCTx (tx : MsgTx) (output : TxOut) : outcome Z :=
  matchIdx ← foldM (λ (matchIdx : option nat) (ito : nat * TxOut),
    if bool_decide (ito.2 = output) then
      match matchIdx with Some _ => Err ErrMultipleOutputsMatch | None => Ok (Some ito.1) end
    else Ok matchIdx) None (imap pair (TxOuts tx));
  match matchIdx with
  | None => Err ErrOutputNotFound
  | Some i => if 2 ^ 32 - 1 <? Z.of_nat i then Err (Errorf "output index out of acceptable range") else Ok (Z.of_nat i)
  end.

(** The result is the index of the staking output. *)
Definition ValidateParsedMessageAgainstTheParams (pm : ParsedCreateDelegationMessage) (parameters : StakingParams) : outcome Z :=
  if negb (pm_UnbondingTime pm =? sp_UnbondingTimeBlocks parameters) then Err ErrInvalidUnbondingTx
  else
    let stakingTx := (pm_StakingTx pm).1 in
    let unbondingTx := (pm_UnbondingTx pm).1 in
    covenantPks ← MustGetCovenantPks parameters;
    stakingInfo ← wrap_as ErrInvalidStakingTx
      (BuildStakingInfo (StakerPK pm).1 (FinalityProviderKeys pm).1 covenantPks (sp_CovenantQuorum parameters) (pm_StakingTime pm) (StakingValue pm));
    stakingOutputIdx ← wrap_as ErrInvalidStakingTx (GetOutputIdxInBTCTx stakingTx (StakingOutput stakingInfo));
    if (pm_StakingTime pm <? sp_MinStakingTimeBlocks parameters) || (sp_MaxStakingTimeBlocks parameters <? pm_StakingTime pm)
    then Err ErrInvalidStakingTx
    else
      stakingOut ← index (TxOuts stakingTx) (Z.to_nat stakingOutputIdx);
      if (Value stakingOut <? sp_MinStakingValueSat parameters) || (sp_MaxStakingValueSat parameters <? Value stakingOut)
      then Err ErrInvalidStakingTx
      else
        _ ← wrap_as ErrInvalidStakingTx
              (CheckSlashingTxMatchFundingTx (StakingSlashingTx pm).1 stakingTx stakingOutputIdx (sp_MinSlashingTxFeeSat parameters)
                 (sp_SlashingRate parameters) (sp_SlashingPkScript parameters) (StakerPK pm).1 (pm_UnbondingTime pm));
        slashingSpendInfo ← must (SlashingPathSpendInfo stakingInfo);
        _ ← wrap_as ErrInvalidSlashingTx
              (VerifyTransactionSigWithOutput (StakingSlashingTx pm).1 stakingOut (RevealedLeaf slashingSpendInfo) (StakerPK pm).1
                 (StakerStakingSlashingTxSig pm));
        _ ← wrap_as ErrInvalidUnbondingTx (CheckPreSignedUnbondingTxSanity unbondingTx);
        unbondingInfo ← wrap_as ErrInvalidUnbondingTx
          (BuildUnbondingInfo (StakerPK pm).1 (FinalityProviderKeys pm).1 covenantPks (sp_CovenantQuorum parameters) (pm_UnbondingTime pm)
             (UnbondingValue pm));
        unbondingOut ← index (TxOuts unbondingTx) 0;
        if negb (bool_decide (PkScript unbondingOut = PkScript (UnbondingOutput unbondingInfo))) then Err ErrInvalidUnbondingTx
        else if negb (Value unbondingOut =? Value (UnbondingOutput unbondingInfo)) then Err ErrInvalidUnbondingTx
        else
          _ ← wrap_as ErrInvalidUnbondingTx
                (CheckSlashingTxMatchFundingTx (UnbondingSlashingTx pm).1 unbondingTx 0 (sp_MinSlashingTxFeeSat parameters)
                   (sp_SlashingRate parameters) (sp_SlashingPkScript parameters) (StakerPK pm).1 (pm_UnbondingTime pm));
          unbondingSlashingSpendInfo ← must (ui_SlashingPathSpendInfo unbondingInfo);
          _ ← wrap_as ErrInvalidSlashingTx
                (VerifyTransactionSigWithOutput (UnbondingSlashingTx pm).1 unbondingOut (RevealedLeaf unbondingSlashingSpendInfo) (StakerPK pm).1
                   (StakerUnbondingSlashingSig pm));
          in0 ← index (TxIns unbondingTx) 0;
          if negb (bool_decide (op_Hash (PreviousOutPoint in0) = TxHash stakingTx)) then Err ErrInvalidUnbondingTx
          else if negb (op_Index (PreviousOutPoint in0) =? stakingOutputIdx) then Err ErrInvalidUnbondingTx
          else if Value stakingOut <=? Value unbondingOut then Err ErrInvalidUnbondingTx
          else if negb (i64 (Value stakingOut - Value unbondingOut) =? sp_UnbondingFeeSat parameters) then Err ErrInvalidUnbondingTx
          else Ok stakingOutputIdx.

(** ** types/btc_delegation.go: scripts and slashing transactions *)

Definition MustGetValidStakingTime (d : BTCDelegation) : outcome Z :=
  if MaxUint16 <? d_StakingTime d then Panic (Errorf "invalid delegation in database") else Ok (d_StakingTime d).
Definition MustGetStakingTx (d : BTCDelegation) : outcome MsgTx := must (NewBTCTxFromBytes (d_StakingTx d)).
Definition MustGetUnbondingTx (d : BTCDelegation) : outcome MsgTx := must (NewBTCTxFromBytes (ud_UnbondingTx (d_BtcUndelegation d))).

Definition GetStakingInfo (d : BTCDelegation) (bsParams : StakingParams) : outcome StakingInfo :=
  fpBtcPkList ← wrapf "failed to convert finality provider pks to BTC pks" (NewBTCPKsFromBIP340PKs (d_FpBtcPkList d));
  covenantBtcPkList ← wrapf "failed to convert covenant pks to BTC pks" (NewBTCPKsFromBIP340PKs (sp_CovenantPks bsParams));
  stakerPk ← MustToBTCPK (d_BtcPk d);
  stakingTime ← MustGetValidStakingTime d;
  wrapf "could not create BTC staking info"
    (BuildStakingInfo stakerPk fpBtcPkList covenantBtcPkList (sp_CovenantQuorum bsParams) stakingTime (i64 (d_TotalSat d))).
Definition GetUnbondingInfo (d : BTCDelegation) (bsParams : StakingParams) : outcome UnbondingInfo :=
  fpBtcPkList ← wrapf "failed to convert finality provider pks to BTC pks" (NewBTCPKsFromBIP340PKs (d_FpBtcPkList d));
  covenantBtcPkList ← wrapf "failed to convert covenant pks to BTC pks" (NewBTCPKsFromBIP340PKs (sp_CovenantPks bsParams));
  unbondingTx ← wrapf "failed to parse unbonding transaction" (NewBTCTxFromBytes (ud_UnbondingTx (d_BtcUndelegation d)));
  stakerPk ← MustToBTCPK (d_BtcPk d);
  out0 ← index (TxOuts unbondingTx) 0;
  wrapf "could not create BTC staking info"
    (BuildUnbondingInfo stakerPk fpBtcPkList covenantBtcPkList (sp_CovenantQuorum bsParams) (d_UnbondingTime d `mod` 2 ^ 16) (Value out0)).

Definition findFPIdx (d : BTCDelegation) (fpBTCPK : bytes) : outcome nat :=
  match list_find (λ pk, pk = fpBTCPK) (d_FpBtcPkList d) with
  | Some (i, _) => Ok i
  | None => Err (Errorf "the given finality provider's PK is not found in the BTC delegation")
  end.

(** The signatures of the committee in the order of the witness, each the one encrypted
    to the finality provider at [fpIdx]. *)
Definition GetOrderedCovenantSignatures (fpIdx : nat) (covSigsList : list CovenantAdaptorSignatures) (params : StakingParams)
    : outcome (list (option AdaptorSignature)) :=
  covSigsMap ← foldM (λ (covSigsMap : gmap string AdaptorSignature) covSigs,
    covSig ← match (cas_AdaptorSigs covSigs !! fpIdx : option bytes) with
             | None => Err (Errorf "finality provider index is out of the scope")
             | Some covSigBytes => NewAdaptorSignatureFromBytes covSigBytes
             end;
    Ok (<[MarshalHex (cas_CovPk covSigs) := covSig]> covSigsMap)) ∅ covSigsList;
  Ok ((λ covPK, covSigsMap !! MarshalHex covPK) <$> SortBIP340PKs (sp_CovenantPks params)).

Definition GetCovSlashingAdaptorSig (d : BTCDelegation) (covBTCPK : bytes) (valIdx : nat) (quorum quorumPreviousStk : Z) : outcome AdaptorSignature :=
  if negb (HasCovenantQuorums d quorum quorumPreviousStk) then Err ErrInvalidDelegationState
  else match list_find (λ covASigs, cas_CovPk covASigs = covBTCPK) (d_CovenantSigs d) with
  | None => Err ErrInvalidCovenantPK
  | Some (_, covASigs) =>
    match cas_AdaptorSigs covASigs !! valIdx with
    | None => Err ErrFpNotFound
    | Some sigBytes => NewAdaptorSignatureFromBytes sigBytes
    end
  end.

Definition del_BuildSlashingTxWithWitness (blind : Z) (d : BTCDelegation) (bsParams : StakingParams) (fpSK : Z) : outcome MsgTx :=
  stakingMsgTx ← wrapf "failed to convert a Babylon staking tx to wire.MsgTx" (NewBTCTxFromBytes (d_StakingTx d));
  stakingInfo ← wrapf "could not create BTC staking info" (GetStakingInfo d bsParams);
  slashingSpendInfo ← wrapf "could not get slashing spend info" (SlashingPathSpendInfo stakingInfo);
  fpIdx ← findFPIdx d (SerializePubKey (pmul fpSK G));
  covAdaptorSigs ← wrapf "failed to get ordered covenant adaptor signatures" (GetOrderedCovenantSignatures fpIdx (d_CovenantSigs d) bsParams);
  wrapf "failed to build witness for BTC delegation"
    (BuildSlashingTxWithWitness blind (d_SlashingTx d) fpSK (d_FpBtcPkList d) stakingMsgTx (d_StakingOutputIdx d) (d_DelegatorSig d) covAdaptorSigs
       (sp_CovenantQuorum bsParams) slashingSpendInfo).
Definition BuildUnbondingSlashingTxWithWitness (blind : Z) (d : BTCDelegation) (bsParams : StakingParams) (fpSK : Z) : outcome MsgTx :=
  let ud := d_BtcUndelegation d in
  unbondingMsgTx ← wrapf "failed to convert a Babylon unbonding tx to wire.MsgTx" (NewBTCTxFromBytes (ud_UnbondingTx ud));
  unbondingInfo ← wrapf "could not create BTC unbonding info" (GetUnbondingInfo d bsParams);
  slashingSpendInfo ← wrapf "could not get unbonding slashing spend info" (ui_SlashingPathSpendInfo unbondingInfo);
  fpIdx ← findFPIdx d (SerializePubKey (pmul fpSK G));
  covAdaptorSigs ← wrapf "failed to get ordered covenant adaptor signatures" (GetOrderedCovenantSignatures fpIdx (ud_CovenantSlashingSigs ud) bsParams);
  wrapf "failed to build witness for unbonding BTC delegation"
    (BuildSlashingTxWithWitness blind (ud_SlashingTx ud) fpSK (d_FpBtcPkList d) unbondingMsgTx 0 (ud_DelegatorSlashingSig ud) covAdaptorSigs
       (sp_CovenantQuorum bsParams) slashingSpendInfo).
Definition SignUnbondingTx (d : BTCDelegation) (bsParams : StakingParams) (sk : Z) : outcome (Z * Z) :=
  stakingTx ← wrapf "failed to parse staking transaction" (NewBTCTxFromBytes (d_StakingTx d));
  unbondingTx ← wrapf "failed to parse unbonding transaction" (NewBTCTxFromBytes (ud_UnbondingTx (d_BtcUndelegation d)));
  stakingInfo ← GetStakingInfo d bsParams;
  unbondingPath ← UnbondingPathSpendInfo stakingInfo;
  SignTxWithOneScriptSpendInputStrict unbondingTx stakingTx (d_StakingOutputIdx d) (GetPkScriptPath unbondingPath) sk.

(** ** keeper/btc_delegators.go and allowed_transaction_index.go *)

Definition getBTCDelegatorDelegationIndex (s : StakingState) (fpBTCPK delBTCPK : bytes) : option (list bytes) :=
  if negb (HasFinalityProvider s fpBTCPK) then None
  else btcDelegators s !! fpBTCPK ≫= (.!! delBTCPK).
Definition setBTCDelegatorDelegationIndex (s : StakingState) (fpBTCPK delBTCPK : bytes) (btcDelIndex : list bytes) : StakingState :=
  set_btcDelegators s (<[fpBTCPK := <[delBTCPK := btcDelIndex]> (default ∅ (btcDelegators s !! fpBTCPK))]> (btcDelegators s)).
Definition BTCDelegatorDelegationIndex_Add (i : list bytes) (stakingTxHash : bytes) : outcome (list bytes) :=
  if bool_decide (stakingTxHash ∈ i) then Err (Errorf "the given stakingTxHash %s is duplicated") else Ok (i ++ [stakingTxHash]).
(** Hashes of another length than 32 do not parse. *)
Definition HandleFPBTCDelegations {A} (s : StakingState) (fpBTCPK : bytes) (handler : A → BTCDelegation → outcome A) (a : A) : outcome A :=
  if negb (HasFinalityProvider s fpBTCPK) then Err ErrFpNotFound
  else foldM (λ a stakingTxHash,
         if negb (length stakingTxHash =? 32)%nat then Err (Errorf "chainhash.NewHash")
         else match btcDelegations s !! stakingTxHash with Some btcDel => handler a btcDel | None => Ok a end)
         a (concat (iterB (default ∅ (btcDelegators s !! fpBTCPK))).*2).
Definition FpTotalSatsStaked (s : StakingState) (fpBTCPK : bytes) : outcome Z :=
  totalVp ← HandleFPBTCDelegations s fpBTCPK (λ totalVp b, Ok (i64 (totalVp + i64 (d_TotalSat b)))) 0; Ok (u64 totalVp).

Definition IndexAllowedStakingTransaction (s : StakingState) (txHash : bytes) : StakingState :=
  set_allowedStakingTxHashes s ({[txHash]} ∪ allowedStakingTxHashes s).
Definition IsStakingTransactionAllowed (s : StakingState) (txHash : bytes) : bool := bool_decide (txHash ∈ allowedStakingTxHashes s).
Definition isAllowListEnabled (ctx : Ctx) (p : StakingParams) : bool :=
  (0 <? sp_AllowListExpirationHeight p) && (CtxHeight ctx <? sp_AllowListExpirationHeight p).

(** ** keeper/inclusion_proof.go

    [k] is the confirmation depth, a parameter of the btccheckpoint module. *)

Record DelegationTimeRangeInfo := mkTimeInfo { ti_StartHeight : Z; ti_EndHeight : Z; ti_TipHeight : Z }.
Definition tipHeight (hs : headersState) : outcome Z := tip ← deref (GetTip hs); Ok (hi_Height tip).

Definition VerifyInclusionProofAndGetHeight (hs : headersState) (stakingTx : MsgTx) (confirmationDepth stakingTime unbondingTime : Z)
    (inclusionProof : ParsedProofOfInclusion) : outcome DelegationTimeRangeInfo :=
  stakingTxHeader ← wrapf "staking tx inclusion proof header %s is not found in BTC light client state"
                      (GetHeaderByHash hs (HeaderHash inclusionProof));
  btcHeader ← ToBlockHeader (hi_Header stakingTxHeader);
  if negb (VerifyInclusionProof stakingTx (MerkleRoot (btcHeader : H)) (pi_Proof inclusionProof) (pi_Index inclusionProof))
  then Err ErrInvalidStakingTx
  else if pi_Index inclusionProof =? 0 then Err ErrInvalidStakingTx
  else
    let startHeight := hi_Height stakingTxHeader in
    let endHeight := u32 (hi_Height stakingTxHeader + stakingTime) in
    tip ← tipHeight hs;
    if u32 (tip - hi_Height stakingTxHeader) <? confirmationDepth then Err ErrInvalidStakingTx
    else if endHeight <=? u32 (tip + unbondingTime) then Err ErrInvalidStakingTx
    else Ok (mkTimeInfo startHeight endHeight tip).

Definition AddBTCDelegationInclusionProof_keeper (k : Z) (hs : headersState) (s : StakingState) (btcDel : BTCDelegation)
    (stakingTxInclusionProof : option InclusionProof) : outcome StakingState :=
  match stakingTxInclusionProof with
  | None => Err (Errorf "nil inclusion proof")
  | Some proof =>
    stakingTx ← NewBTCTxFromBytes (d_StakingTx btcDel);
    let stakingTxHash := TxHash stakingTx in
    if HasInclusionProof btcDel then Err (Errorf "the delegation %s already has inclusion proof")
    else match GetParamsByVersion s (d_ParamsVersion btcDel) with
    | None => Panic (Errorf "params version in BTC delegation is not found")
    | Some params =>
      hasQuorum ← BtcDelHasCovenantQuorums s btcDel (sp_CovenantQuorum params);
      if negb hasQuorum then Err (Errorf "the delegation %s has not received a quorum of covenant signatures")
      else if IsUnbondedEarly btcDel then Err (Errorf "the delegation %s is already unbonded")
      else
        parsedInclusionProof ← NewParsedProofOfInclusion (Some proof);
        parsedInclusionProof ← deref parsedInclusionProof;
        timeInfo ← wrapf "invalid inclusion proof"
          (VerifyInclusionProofAndGetHeight hs stakingTx k (d_StakingTime btcDel) (sp_UnbondingTimeBlocks params) parsedInclusionProof);
        if ti_StartHeight timeInfo <? d_BtcTipHeight btcDel then Err ErrStakingTxIncludedTooEarly
        else
          let btcDel := with_heights btcDel (ti_StartHeight timeInfo) (ti_EndHeight timeInfo) in
          s ← setBTCDelegation s btcDel;
          let s := addPowerDistUpdateEvent s (ti_TipHeight timeInfo) (BtcDelStateUpdate (HashStr stakingTxHash) ACTIVE) in
          Ok (addPowerDistUpdateEvent s (u32 (d_EndHeight btcDel - sp_UnbondingTimeBlocks params))
                (BtcDelStateUpdate (HashStr stakingTxHash) EXPIRED))
    end
  end.

(** ** keeper/btc_delegations.go *)

(** The parameters are those of the inclusion height, or of the tip before inclusion. *)
Definition getTimeInfoAndParams (k : Z) (hs : headersState) (s : StakingState) (parsedMsg : ParsedCreateDelegationMessage)
    : outcome (DelegationTimeRangeInfo * option StakingParams * Z) :=
  match StakingTxProofOfInclusion parsedMsg with
  | Some proof =>
    timeInfo ← wrapf "invalid inclusion proof"
      (VerifyInclusionProofAndGetHeight hs (pm_StakingTx parsedMsg).1 k (pm_StakingTime parsedMsg) (pm_UnbondingTime parsedMsg) proof);
    pv ← GetParamsForBtcHeight s (ti_StartHeight timeInfo);
    Ok (timeInfo, pv.1, pv.2)
  | None =>
    tip ← tipHeight hs;
    pv ← GetParamsForBtcHeight s tip;
    Ok (mkTimeInfo 0 0 tip, pv.1, pv.2)
  end.

Definition buildStakeExpansion (stkExp : option ParsedCreateDelStkExp) : outcome (option StakeExpansion) :=
  match stkExp with
  | None => Ok None
  | Some stkExp =>
    fundingOut ← wrapf "failed to serialize tx out for other funding output" (WriteTxOut (OtherFundingOutput stkExp));
    Ok (Some (mkStkExp (PreviousActiveStkTxHash stkExp) fundingOut []))
  end.

Definition AddBTCDelegation (s : StakingState) (btcDel : BTCDelegation) : outcome StakingState :=
  stakingTx ← NewBTCTxFromBytes (d_StakingTx btcDel);
  let stakingTxHash := TxHash stakingTx in
  s ← foldM (λ s fpBTCPK,
        let btcDelIndex := default [] (getBTCDelegatorDelegationIndex s fpBTCPK (d_BtcPk btcDel)) in
        btcDelIndex ← wrap_as ErrInvalidStakingTx (BTCDelegatorDelegationIndex_Add btcDelIndex stakingTxHash);
        Ok (setBTCDelegatorDelegationIndex s fpBTCPK (d_BtcPk btcDel) btcDelIndex)) s (d_FpBtcPkList btcDel);
  s ← setBTCDelegation s btcDel;
  Ok (if HasInclusionProof btcDel
      then addPowerDistUpdateEvent s (u32 (d_EndHeight btcDel - d_UnbondingTime btcDel)) (BtcDelStateUpdate (HashStr stakingTxHash) EXPIRED)
      else s).

Section env.
Context {W : Type} {env : StakingEnv W}.

Definition CreateBTCDelegation_keeper (ctx : Ctx) (k : Z) (hs : headersState) (sw : StakingState * W) (parsedMsg : ParsedCreateDelegationMessage)
    : outcome (StakingState * W) :=
  let '(s, w) := sw in
  _ ← wrap_as ErrInvalidProofOfPossession (pop_Verify (ParsedPop parsedMsg) (StakerAddress parsedMsg) (StakerPK parsedMsg).2);
  let stakingTxHash := TxHash (pm_StakingTx parsedMsg).1 in
  if bool_decide (is_Some (btcDelegations s !! stakingTxHash)) then Err ErrReusedStakingTx
  else
    _ ← validateStakedFPs s (FinalityProviderKeys parsedMsg).2;
    tpv ← getTimeInfoAndParams k hs s parsedMsg;
    let '(timeInfo, params, paramsVersion) := tpv in
    params ← deref params;
    stakingOutputIdx ← ValidateParsedMessageAgainstTheParams parsedMsg params;
    if isAllowListEnabled ctx params && negb (IsStakingTransactionAllowed s stakingTxHash) then Err ErrInvalidStakingTx
    else
      w ← (if negb (IsIncludedOnBTC parsedMsg) then ConsumeGas w (sp_DelegationCreationBaseGasFee params) else Ok w);
      stkExp ← wrapf "error building stake expansion" (buildStakeExpansion (pm_StkExp parsedMsg));
      let newBTCDel := mkDel (AccString (StakerAddress parsedMsg)) (StakerPK parsedMsg).2 (ParsedPop parsedMsg) (FinalityProviderKeys parsedMsg).2
            (pm_StakingTime parsedMsg) (ti_StartHeight timeInfo) (ti_EndHeight timeInfo) (u64 (StakingValue parsedMsg)) (pm_StakingTx parsedMsg).2
            stakingOutputIdx (StakingSlashingTx parsedMsg).2 (StakerStakingSlashingTxSig parsedMsg) [] (pm_UnbondingTime parsedMsg)
            (mkUndel (pm_UnbondingTx parsedMsg).2 (UnbondingSlashingTx parsedMsg).2 (StakerUnbondingSlashingSig parsedMsg) [] [] None)
            paramsVersion (ti_TipHeight timeInfo) stkExp in
      s ← wrapf "failed to add BTC delegation that has passed verification" (AddBTCDelegation s newBTCDel);
      Ok (s, w).

(** ** keeper/msg_server.go *)

Definition CreateBTCDelegation (ctx : Ctx) (k : Z) (hs : headersState) (sw : StakingState * W) (req : MsgCreateBTCDelegation)
    : outcome (StakingState * W) :=
  parsedMsg ← wrapf "InvalidArgument" (parseCreateDelegationMessage req);
  CreateBTCDelegation_keeper ctx k hs sw parsedMsg.

(** The loop stops as soon as the overlap is reached. *)
Fixpoint overlapReached (newSet : gset string) (covCommittee1 : list bytes) (intersection requiredOverlap : Z) : bool :=
  match covCommittee1 with
  | [] => false
  | oldPk :: covCommittee1 =>
    if bool_decide (MarshalHex oldPk ∈ newSet) then
      let intersection := intersection + 1 in
      if requiredOverlap <=? u32 intersection then true else overlapReached newSet covCommittee1 intersection requiredOverlap
    else overlapReached newSet covCommittee1 intersection requiredOverlap
  end.
Definition hasSufficientCovenantOverlap (covCommittee1 covCommittee2 : list bytes) (requiredOverlap : Z) : bool :=
  if (requiredOverlap =? 0) || (length covCommittee1 =? 0)%nat || (length covCommittee2 =? 0)%nat then false
  else overlapReached (list_to_set (MarshalHex <$> covCommittee2)) covCommittee1 0 requiredOverlap.

Definition validateStakeExpansionAmt (parsedMsg : ParsedCreateDelegationMessage) (newStakingAmt oldStakingAmt : Z) : outcome unit :=
  match pm_StkExp parsedMsg with
  | None => Err (Errorf "missing stake expansion data")
  | Some stkExp =>
    if newStakingAmt <? oldStakingAmt then Err (Errorf "staking expansion output amount %d is less than previous delegation amount %d")
    else
      let fundingInputValue := Value (OtherFundingOutput stkExp) in
      if fundingInputValue <=? 0 then Err (Errorf "stake expansion funding output has invalid value %d")
      else
        let totalInputValue := i64 (oldStakingAmt + fundingInputValue) in
        let totalOutputValue := sumValues (TxOuts (pm_StakingTx parsedMsg).1) in
        if i64 (totalInputValue - totalOutputValue) <=? 0 then Err (Errorf "invalid transaction fee: inputs %d <= outputs %d")
        else Ok tt
  end.
Definition validateStakerBtcPk (parsedMsg : ParsedCreateDelegationMessage) (prevBtcDel : BTCDelegation) : outcome unit :=
  if bool_decide (MarshalHex (d_BtcPk prevBtcDel) = MarshalHex (StakerPK parsedMsg).2) then Ok tt
  else Err (Errorf "staker pk %s does not match previous staker pk %s").

Definition IsBtcDelegationActive (hs : headersState) (s : StakingState) (stakingTxHash : string) : outcome btcDelegationWithParams :=
  delWithParams ← getBTCDelWithParams s stakingTxHash;
  st ← BtcDelStatusWithTip (hi_Height <$> GetTip hs) delWithParams;
  if bool_decide (st.1 = ACTIVE) then Ok delWithParams else Err (Errorf "BTC delegation %s is not active").

Definition BtcStakeExpand (ctx : Ctx) (k : Z) (hs : headersState) (sw : StakingState * W) (req : MsgBtcStakeExpand) : outcome (StakingState * W) :=
  let s := sw.1 in
  delInfo ← IsBtcDelegationActive hs s (mse_PreviousStakingTxHash req);
  let prevBtcDel := di_Delegation delInfo in
  if negb (EqualFold (d_StakerAddr prevBtcDel) (mcd_StakerAddr (mse_Del req))) then Err (Errorf "InvalidArgument")
  else
    parsedMsg ← wrapf "InvalidArgument" (parseBtcExpandMessage req);
    fp ← index (mcd_FpBtcPkList (mse_Del req)) 0;
    prevFp ← index (d_FpBtcPkList prevBtcDel) 0;
    if negb (bool_decide (fp = prevFp)) then Err (Errorf "InvalidArgument")
    else
      _ ← wrapf "InvalidArgument" (validateStakerBtcPk parsedMsg prevBtcDel);
      if IsFinalityProviderDeleted s fp then Err ErrFinalityProviderIsDeleted
      else
        stkExp ← deref (pm_StkExp parsedMsg);
        if (match btcDelegations s !! FundingTxHash stkExp with
            | Some fundingTxDel => d_StakingOutputIdx fundingTxDel =? FundingOutputIndex stkExp
            | None => false
            end) then Err (Errorf "the funding output cannot be a staking output")
        else
          in0 ← index (TxIns (pm_StakingTx parsedMsg).1) 0;
          if negb (d_StakingOutputIdx prevBtcDel =? op_Index (PreviousOutPoint in0)) then Err (Errorf "InvalidArgument")
          else
            _ ← wrapf "InvalidArgument" (validateStakeExpansionAmt parsedMsg (StakingValue parsedMsg) (i64 (d_TotalSat prevBtcDel)));
            let oldParams := di_Params delInfo in
            tip ← tipHeight hs;
            pv ← GetParamsForBtcHeight s tip;
            currentParams ← deref pv.1;
            if negb (hasSufficientCovenantOverlap (sp_CovenantPks oldParams) (sp_CovenantPks currentParams) (sp_CovenantQuorum oldParams))
            then Err (Errorf "insufficient covenant committee overlap")
            else CreateBTCDelegation_keeper ctx k hs sw parsedMsg.

Definition AddBTCDelegationInclusionProof (k : Z) (hs : headersState) (sw : StakingState * W) (req : MsgAddBTCDelegationInclusionProof)
    : outcome (StakingState * W) :=
  btcDel ← GetBTCDelegation sw.1 (mai_StakingTxHash req);
  if IsStakeExpansion btcDel then Err (Errorf "the BTC delegation %s is a stake expansion")
  else
    s ← AddBTCDelegationInclusionProof_keeper k hs sw.1 btcDel (mai_StakingTxInclusionProof req);
    Ok (s, IndexRefundableStaking sw.2 (RefundInclusion req)).

Definition se_IsSignedByCovMember (se : StakeExpansion) (covPk : bytes) : bool :=
  existsb (λ sigInfo, bool_decide (covPk = si_Pk sigInfo)) (se_PreviousStkCovenantSigs se).

Definition validateStakeExpansionSig (delInfo : btcDelegationWithParams) (req : MsgAddCovenantSigs) : outcome unit :=
  let btcDel := di_Delegation delInfo in
  match d_StkExp btcDel, mcs_StakeExpansionTxSig req with
  | None, Some _ => Err (Errorf "stake expansion tx signature provided for non-stake expansion delegation")
  | None, None => Ok tt
  | Some _, None => Err (Errorf "empty stake expansion covenant signature")
  | Some stkExp, Some stkExpSig =>
    if se_IsSignedByCovMember stkExp (mcs_Pk req) then Err ErrDuplicatedCovenantSig
    else
      prevBtcDel ← deref (di_PrevDel delInfo);
      prevParams ← deref (di_PrevParams delInfo);
      if negb (HasCovenantPK prevParams (mcs_Pk req)) then Err ErrInvalidCovenantSig
      else if negb (hasSufficientCovenantOverlap (sp_CovenantPks prevParams) (sp_CovenantPks (di_Params delInfo)) (sp_CovenantQuorum prevParams))
      then Err ErrInvalidCovenantSig
      else
        otherFundingTxOut ← wrapf "failed to deserialize other funding txout" (ReadTxOut (se_OtherFundingTxOut stkExp));
        prevDelStakingInfo ← wrapf "failed to get staking info of previous delegation" (GetStakingInfo prevBtcDel prevParams);
        spendInfo ← wrapf "failed to get unbonding path spend info" (UnbondingPathSpendInfo prevDelStakingInfo);
        stkTx ← MustGetStakingTx btcDel;
        prevTx ← MustGetStakingTx prevBtcDel;
        prevOut ← index (TxOuts prevTx) (Z.to_nat (d_StakingOutputIdx prevBtcDel));
        pk ← MustToBTCPK (mcs_Pk req);
        wrap_as ErrInvalidCovenantSig (VerifyTransactionSigStkExp stkTx prevOut otherFundingTxOut (GetPkScriptPath spendInfo) pk stkExpSig)
  end.

Definition AddCovenantSigs_msg (hs : headersState) (sw : StakingState * W) (req : MsgAddCovenantSigs) : outcome (StakingState * W) :=
  let '(s, w) := sw in
  delInfo ← getBTCDelWithParams s (mcs_StakingTxHash req);
  let btcDel := di_Delegation delInfo in
  let params := di_Params delInfo in
  let ud := d_BtcUndelegation btcDel in
  if negb (HasCovenantPK params (mcs_Pk req)) then Err ErrInvalidCovenantPK
  else if IsSignedByCovMember btcDel (mcs_Pk req) && ud_IsSignedByCovMember ud (mcs_Pk req) then Err ErrDuplicatedCovenantSig
  else
    st ← wrapf "failed to get BTC delegation status" (BtcDelStatusWithTip (hi_Height <$> GetTip hs) delInfo);
    if bool_decide (st.1 = UNBONDED) || bool_decide (st.1 = EXPIRED) then Err ErrInvalidCovenantSig
    else if negb (length (mcs_SlashingTxSigs req) =? length (d_FpBtcPkList btcDel))%nat then Err ErrInvalidCovenantSig
    else
      stakingInfo ← must (GetStakingInfo btcDel params);
      slashingSpendInfo ← must (SlashingPathSpendInfo stakingInfo);
      parsedSlashingAdaptorSignatures ← wrap_as ErrInvalidCovenantSig
        (ParseEncVerifyAdaptorSignatures (d_SlashingTx btcDel) (StakingOutput stakingInfo) slashingSpendInfo (mcs_Pk req) (d_FpBtcPkList btcDel)
           (mcs_SlashingTxSigs req));
      if negb (length (mcs_SlashingUnbondingTxSigs req) =? length (d_FpBtcPkList btcDel))%nat then Err ErrInvalidCovenantSig
      else
        unbondingMsgTx ← must (NewBTCTxFromBytes (ud_UnbondingTx ud));
        unbondingSpendInfo ← must (UnbondingPathSpendInfo stakingInfo);
        pk ← MustToBTCPK (mcs_Pk req);
        _ ← wrap_as ErrInvalidCovenantSig
              (VerifyTransactionSigWithOutput unbondingMsgTx (StakingOutput stakingInfo) (GetPkScriptPath unbondingSpendInfo) pk (mcs_UnbondingTxSig req));
        unbondingOutput ← index (TxOuts unbondingMsgTx) 0;
        unbondingInfo ← must (GetUnbondingInfo btcDel params);
        unbondingSlashingSpendInfo ← must (ui_SlashingPathSpendInfo unbondingInfo);
        parsedUnbondingSlashingAdaptorSignatures ← wrap_as ErrInvalidCovenantSig
          (ParseEncVerifyAdaptorSignatures (ud_SlashingTx ud) unbondingOutput unbondingSlashingSpendInfo (mcs_Pk req) (d_FpBtcPkList btcDel)
             (mcs_SlashingUnbondingTxSigs req));
        _ ← wrap_as ErrInvalidCovenantSig (validateStakeExpansionSig delInfo req);
        s ← addCovenantSigsToBTCDelegation s delInfo (mcs_Pk req) (AdaptorSignature_Marshal <$> parsedSlashingAdaptorSignatures)
              (mcs_UnbondingTxSig req) (AdaptorSignature_Marshal <$> parsedUnbondingSlashingAdaptorSignatures)
              (default [] (mcs_StakeExpansionTxSig req)) st.2;
        Ok (s, IndexRefundableStaking w (RefundCovenantSigs req)).

(** ** keeper/unbonding_transaction_sig_validation.go *)

Definition TaprootAnnexTag : byte := x50.
Definition isAnnexedWitness (witness : list bytes) : bool :=
  if (length witness <? 2)%nat then false
  else match last witness with Some lastElement => bool_decide (head lastElement = Some TaprootAnnexTag) | None => false end.

(** The signature and the hash type; 0 is the default type. *)
Definition parseSchnorrSigFromWitness (rawSig : bytes) : outcome ((Z * Z) * Z) :=
  if (length rawSig =? SchnorrSignatureSize)%nat then sig ← ParseSignature rawSig; Ok (sig, 0)
  else if (length rawSig =? S SchnorrSignatureSize)%nat && negb (bool_decide (rawSig !! 64%nat = Some x00)) then
    sigHashType ← index rawSig 64;
    sig ← ParseSignature (take SchnorrSignatureSize rawSig);
    Ok (sig, byte_code sigHashType)
  else Err (Errorf "invalid sig len: %d").

(** A later funding transaction replaces an earlier one with the same hash. *)
Definition buildOutputFetcher (fundingTransactions : list MsgTx) (spendStakeTx : MsgTx) : outcome (list (OutPoint * TxOut)) :=
  let fundingTxs := foldl (λ (m : gmap bytes MsgTx) tx, <[TxHash tx := tx]> m) ∅ fundingTransactions in
  foldM (λ prevOuts txIn,
    match fundingTxs !! op_Hash (PreviousOutPoint txIn) with
    | None => Err (Errorf "input references transaction %s which is not in funding transactions")
    | Some tx =>
      match TxOuts tx !! Z.to_nat (op_Index (PreviousOutPoint txIn)) with
      | None => Err (Errorf "input references transaction %s which has fewer outputs than the input index %d")
      | Some out => Ok (prevOuts ++ [(PreviousOutPoint txIn, out)])
      end
    end) [] (TxIns spendStakeTx).

Definition VerifySpendStakeTxStakerSig (stakerPubKey : point) (stakingOutput : TxOut) (stakingInputIdx : nat) (fundingTransactions : list MsgTx)
    (spendStakeTx : MsgTx) : outcome unit :=
  if negb (IsPayToTaproot (PkScript stakingOutput)) then Err (Errorf "staking output must be a pay-to-taproot output")
  else match TxIns spendStakeTx !! stakingInputIdx with
  | None => Err (Errorf "idx %d but %d txins")
  | Some stakingInput =>
    let annexed := isAnnexedWitness (Witness stakingInput) in
    let annex := if annexed then default [] (last (Witness stakingInput)) else [] in
    let stakeSpendWitness := if annexed then take (pred (length (Witness stakingInput))) (Witness stakingInput) else Witness stakingInput in
    let n := length stakeSpendWitness in
    if (n <? 3)%nat then Err (Errorf "Expected at least 3 elements in the witness stack")
    else
      controlBlock ← index stakeSpendWitness (n - 1);
      _ ← wrapf "failed to parse control block in witness" (ParseControlBlock controlBlock);
      let stakingWitnessProgram := drop 2 (PkScript stakingOutput) in
      witnessScript ← index stakeSpendWitness (n - 2);
      _ ← wrapf "failed to verify taproot leaf commitment in witness"
            (VerifyTaprootLeafCommitment controlBlock stakingWitnessProgram witnessScript);
      stakerRawSig ← index stakeSpendWitness (n - 3);
      st ← wrapf "failed to parse schnorr signature from witness" (parseSchnorrSigFromWitness stakerRawSig);
      prevOuts ← wrapf "failed to build output fetcher from provided funding transactions" (buildOutputFetcher fundingTransactions spendStakeTx);
      sigHash ← wrapf "failed to calculate tapscript signature hash"
                  (TapscriptSigHashWith st.2 annex spendStakeTx stakingInputIdx prevOuts witnessScript);
      if SchnorrVerify sigHash (SerializePubKey stakerPubKey) st.1 then Ok tt else Err (Errorf "failed to verify schnorr signature")
  end.

Definition findInputIdx (tx : MsgTx) (fundingTxHash : bytes) (fundingOutputIdx : Z) : outcome nat :=
  match list_find (λ txIn, PreviousOutPoint txIn = mkOutPoint fundingTxHash fundingOutputIdx) (TxIns tx) with
  | Some (idx, _) => Ok idx
  | None => Err (Errorf "transaction does not spend the expected output %s:%d")
  end.
Definition getFundingTxTransactions (txs : list bytes) : outcome (list MsgTx) :=
  if (length txs =? 0)%nat then Err (Errorf "no funding transactions provided")
  else foldM (λ fundingTxs tx, fundingTx ← wrapf "failed to parse funding transaction" (NewBTCTxFromBytes tx); Ok (fundingTxs ++ [fundingTx])) [] txs.

Definition BTCUndelegate (k : Z) (hs : headersState) (sw : StakingState * W) (req : MsgBTCUndelegate) : outcome (StakingState * W) :=
  let '(s, w) := sw in
  delInfo ← getBTCDelWithParams s (mbu_StakingTxHash req);
  st ← BtcDelStatusWithTip (hi_Height <$> GetTip hs) delInfo;
  if bool_decide (st.1 = UNBONDED) || bool_decide (st.1 = EXPIRED) then Err ErrInvalidBTCUndelegateReq
  else
    stakeSpendingTx ← wrap_as ErrInvalidBTCUndelegateReq (NewBTCTxFromBytes (mbu_StakeSpendingTx req));
    proof ← deref (mbu_StakeSpendingTxInclusionProof req);
    key ← deref (ip_Key proof);
    stakerSpendigTxHeader ← wrap_as ErrInvalidBTCUndelegateReq (GetHeaderByHash hs key.2);
    btcHeader ← ToBlockHeader (hi_Header stakerSpendigTxHeader);
    let spendStakeTxHash := TxHash stakeSpendingTx in
    let shouldActivateStkExp :=
      match btcDelegations s !! spendStakeTxHash with
      | Some stakeExpansionDel => IsStakeExpansion stakeExpansionDel && negb (IsUnbondedEarly stakeExpansionDel)
      | None => false
      end in
    s ← (if shouldActivateStkExp then
           stakeExpansionDel ← deref (btcDelegations s !! spendStakeTxHash);
           wrap_as ErrInvalidBTCUndelegateReq (AddBTCDelegationInclusionProof_keeper k hs s stakeExpansionDel (Some proof))
         else if negb (VerifyInclusionProof stakeSpendingTx (MerkleRoot (btcHeader : H)) (default [] (ip_Proof proof)) key.1)
         then Err ErrInvalidBTCUndelegateReq
         else Ok s);
    let btcDel := di_Delegation delInfo in
    stakingTx ← MustGetStakingTx btcDel;
    stakingTxInputIdx ← wrap_as ErrInvalidBTCUndelegateReq (findInputIdx stakeSpendingTx (TxHash stakingTx) (d_StakingOutputIdx btcDel));
    fundingTxs ← wrap_as ErrInvalidBTCUndelegateReq (getFundingTxTransactions (mbu_FundingTransactions req));
    stakerPk ← MustToBTCPK (d_BtcPk btcDel);
    stakingOut ← index (TxOuts stakingTx) (Z.to_nat (d_StakingOutputIdx btcDel));
    _ ← wrap_as ErrInvalidBTCUndelegateReq (VerifySpendStakeTxStakerSig stakerPk stakingOut stakingTxInputIdx fundingTxs stakeSpendingTx);
    registeredUnbondingTx ← MustGetUnbondingTx btcDel;
    let spendStakeTx := if bool_decide (spendStakeTxHash = TxHash registeredUnbondingTx) then [] else mbu_StakeSpendingTx req in
    s ← btcUndelegate (hi_Height <$> GetTip hs) s btcDel spendStakeTx;
    Ok (s, IndexRefundableStaking w (RefundUndelegate req)).

Definition SelectiveSlashingEvidence (ctx : Ctx) (hs : headersState) (sw : StakingState * W) (req : MsgSelectiveSlashingEvidence)
    : outcome (StakingState * W) :=
  let fpSK := PrivKeyFromBytes (mev_RecoveredFpBtcSk req) in
  let fpBTCPK := SerializePubKey (pmul fpSK G) in
  s ← SlashFinalityProvider ctx (hi_Height <$> GetTip hs) sw.1 fpBTCPK;
  Ok (s, IndexRefundableStaking sw.2 (RefundEvidence req)).

End env.

(** [w] is the finalization timeout, a parameter of the btccheckpoint module. *)
Definition UpdateParams (authority : string) (w : Z) (s : StakingState) (reqAuthority : string) (params : StakingParams) : outcome StakingState :=
  if negb (bool_decide (authority = reqAuthority)) then Err ErrInvalidSigner
  else if sp_UnbondingTimeBlocks params <=? w then Err ErrInvalidProposalMsg
  else SetParams s params.

Definition CreateFinalityProvider (ctx : Ctx) (s : StakingState) (req : MsgCreateFinalityProvider) : outcome StakingState :=
  match AccFromBech32 (mcf_Addr req) with
  | None => Err (Errorf "InvalidArgument")
  | Some fpAddr =>
    _ ← wrapf "InvalidArgument" (pop_Verify (mcf_Pop req) fpAddr (mcf_BtcPk req));
    AddFinalityProvider AccFromBech32 ctx s req
  end.

Definition with_description (fp : FinalityProvider) (d : bytes) : FinalityProvider :=
  mkFP (fp_Addr fp) d (fp_Commission fp) (fp_BtcPk fp) (fp_Pop fp) (fp_SlashedBabylonHeight fp) (fp_SlashedBtcHeight fp) (fp_Jailed fp)
    (fp_HighestVotedHeight fp) (fp_CommissionInfo fp).
Definition EditFinalityProvider (ctx : Ctx) (s : StakingState) (req : MsgEditFinalityProvider) : outcome StakingState :=
  match AccFromBech32 (mef_Addr req) with
  | None => Err (Errorf "InvalidArgument")
  | Some fpAddr =>
    fp ← GetFinalityProvider s (mef_BtcPk req);
    if negb (EqualFold (AccString fpAddr) (fp_Addr fp)) then Err (Errorf "PermissionDenied")
    else
      fp ← UpdateFinalityProviderCommission ctx s (mef_Commission req) fp;
      Ok (SetFinalityProvider s (with_description fp (mef_Description req)))
  end.

(** ** types/msg.go: stateless checks *)

Definition MaxHashStringSize : nat := 64.
Definition MsgAddCovenantSigs_ValidateBasic (m : MsgAddCovenantSigs) : outcome unit :=
  _ ← wrapf "invalid BTC public key" (ToBTCPK (mcs_Pk m));
  if (length (mcs_SlashingTxSigs m) =? 0)%nat then Err (Errorf "empty covenant signatures on slashing tx")
  else if negb (String.length (mcs_StakingTxHash m) =? MaxHashStringSize)%nat then Err (Errorf "staking tx hash is not %d")
  else
    _ ← wrapf "invalid covenant unbonding signature" (ParseSignature (mcs_UnbondingTxSig m));
    if (length (mcs_SlashingUnbondingTxSigs m) =? 0)%nat then Err (Errorf "empty covenant signature") else Ok tt.
Definition MsgBTCUndelegate_ValidateBasic (m : MsgBTCUndelegate) : outcome unit :=
  if negb (String.length (mbu_StakingTxHash m) =? MaxHashStringSize)%nat then Err (Errorf "staking tx hash is not %d")
  else match mbu_StakeSpendingTxInclusionProof m with
  | None => Err (Errorf "empty inclusion proof")
  | Some proof =>
    _ ← wrapf "invalid inclusion proof" (InclusionProof_ValidateBasic proof);
    if (length (mbu_StakeSpendingTx m) =? 0)%nat then Err (Errorf "empty delegator unbonding signature")
    else
      tx ← wrapf "invalid stake spending tx tx" (NewBTCTxFromBytes (mbu_StakeSpendingTx m));
      if CheckTransactionSanity tx then Ok tt else Err (Errorf "invalid stake spending tx")
  end.
Definition MsgAddBTCDelegationInclusionProof_ValidateBasic (m : MsgAddBTCDelegationInclusionProof) : outcome unit :=
  if negb (String.length (mai_StakingTxHash m) =? MaxHashStringSize)%nat then Err (Errorf "staking tx hash is not %d")
  else match mai_StakingTxInclusionProof m with
  | None => Err (Errorf "empty inclusion proof")
  | Some proof =>
    _ ← wrapf "invalid inclusion proof" (InclusionProof_ValidateBasic proof);
    if bool_decide (AccFromBech32 (mai_Signer m) = None) then Err (Errorf "invalid signer addr") else Ok tt
  end.
Definition MsgSelectiveSlashingEvidence_ValidateBasic (m : MsgSelectiveSlashingEvidence) : outcome unit :=
  if bool_decide (AccFromBech32 (mev_Signer m) = None) then Err (Errorf "invalid signer addr")
  else if negb (length (mev_RecoveredFpBtcSk m) =? 32)%nat then Err (Errorf "malformed BTC SK") else Ok tt.

End staking.
