(* ===== verification/StakingProofs.v ===== *)
(** * BTC staking: accepted delegations can be slashed

    What a delegation accepted by the message handlers guarantees: its slashing and
    unbonding transactions spend the stake, pay what the parameters demand, and carry
    the staker's signatures over the right scripts. The guarantee is an invariant of
    the module: every handler keeps it for all stored delegations, together with the
    validity of every stored covenant signature. *)

From S2P Require Import Prelude Bytes Store BbnTypes Sha256 Curve Eots AdaptorSig BtcStaking Delegations Coins TxFormatter LightClient Spv StakingTx.
From S2P Require Import Pop StakingParams StakingMsgs.

(** [CheckTransactionSanity] bounds the values of outputs. *)
Class SanityLaws (BT : BtcTx MsgTx) : Prop := {
  sanity_values tx : CheckTransactionSanity tx = true → Forall (λ out, 0 ≤ Value out ≤ 21 * 10 ^ 14) (TxOuts tx)
}.

Section proofs.
Context {curve : Curve} {CP : CompressedPoints} {SV : SchnorrVerification} {DH : DoubleHash} {BT : BtcTx MsgTx} {SB : StakingBtcd}
  {PB : PopBtcd} {addresses : Bech32} {SP : SpendBtcd} {H : Type} {BW : BtcWire H} {BP : BtcPow H} {W : Type} {env : StakingEnv W}.

(** ** Slashing transactions *)

(** [slashingTx] spends the output [idx] of [fundingTx] and nothing else: it pays at
    least the slashing rate of the value to the slashing script, gives the rest to the
    staker under a time lock, and leaves at least the minimum fee. *)
Record slashes (p : StakingParams) (staker : point) (lock : Z) (slashingTx fundingTx : MsgTx) (idx : Z) (funding : TxOut) : Prop := {
  sl_funding : TxOuts fundingTx !! Z.to_nat idx = Some funding;
  sl_input : ∃ i, TxIns slashingTx = [i] ∧ PreviousOutPoint i = mkOutPoint (TxHash fundingTx) idx ∧
    Sequence i = MaxTxInSequenceNum ∧ SignatureScript i = [];
  sl_final : LockTime slashingTx = 0;
  sl_outputs : ∃ amount change script least, TxOuts slashingTx = [mkTxOut amount (sp_SlashingPkScript p); mkTxOut change script] ∧
    BuildRelativeTimelockTaprootScript staker lock = Ok script ∧
    MulRate (Value funding) (sp_SlashingRate p) = Ok least ∧ least ≤ amount ∧ 0 < amount ∧ 0 ≤ change ∧
    amount + change + sp_MinSlashingTxFeeSat p ≤ Value funding
}.

Lemma checkPreSignedInputs_Ok ins : checkPreSignedInputs ins = Ok tt →
  Forall (λ i, Sequence i = MaxTxInSequenceNum ∧ SignatureScript i = []) ins.
Proof using.
  induction ins as [|i ins IH]; intros HC; [constructor|]. simpl in HC.
  destruct (Z.eqb_spec (Sequence i) MaxTxInSequenceNum); [|done]. destruct (Nat.eqb_spec (length (SignatureScript i)) 0); [|done].
  constructor; [|by apply IH]. split; [done|]. by apply nil_length_inv.
Qed.

Lemma CheckPreSignedTxSanity_Ok tx n m lo hi : CheckPreSignedTxSanity tx n m lo hi = Ok tt →
  CheckTransactionSanity tx = true ∧ length (TxIns tx) = n ∧ length (TxOuts tx) = m ∧ LockTime tx = 0 ∧
  Forall (λ i, Sequence i = MaxTxInSequenceNum ∧ SignatureScript i = []) (TxIns tx).
Proof using.
  unfold CheckPreSignedTxSanity. intros HC. destruct (CheckTransactionSanity tx); [|done].
  destruct (Nat.eqb_spec (length (TxIns tx)) n); [|done]. destruct (Nat.eqb_spec (length (TxOuts tx)) m); [|done].
  destruct (Z.eqb_spec (LockTime tx) 0); [|done]. cbn [negb] in HC. destruct (_ || _) in HC; [done|]. destruct (_ <? _) in HC; [done|].
  split_and!; [done..|]. by apply checkPreSignedInputs_Ok.
Qed.

Context {SL : SanityLaws BT}.

Lemma CheckSlashingTx_slashes p staker lock slashingTx fundingTx idx funding :
  CheckSlashingTxMatchFundingTx slashingTx fundingTx idx (sp_MinSlashingTxFeeSat p) (sp_SlashingRate p) (sp_SlashingPkScript p) staker lock = Ok tt →
  TxOuts fundingTx !! Z.to_nat idx = Some funding → slashes p staker lock slashingTx fundingTx idx funding.
Proof using SL.
  unfold CheckSlashingTxMatchFundingTx. intros HC Hf. rewrite Hf in HC.
  destruct (CheckTransactionSanity fundingTx) eqn:Hsf; [|done]. cbn [negb] in HC. destruct (_ <=? 0) in HC; [done|]. destruct (IsSlashingRateValid _); [|done].
  cbn [negb] in HC. apply bind_Ok in HC as ([] & Hval & HC). apply bind_Ok in Hval as ([] & Hsan & Hval). apply wrapf_Ok in Hsan.
  apply CheckPreSignedTxSanity_Ok in Hsan as (Hsane & Hins & Houts & Hlock & Hseq).
  destruct (TxIns slashingTx) as [|i [|]] eqn:Eins; [done| |done]. destruct (TxOuts slashingTx) as [|o0 [|o1 [|]]] eqn:Eouts; try done.
  apply sanity_values in Hsane. rewrite Eouts in Hsane. apply sanity_values in Hsf. pose proof (Forall_lookup_1 _ _ _ _ Hsf Hf) as Hfund.
  pose proof (Forall_inv Hsane) as H0. pose proof (Forall_inv (Forall_inv_tail Hsane)) as H1. cbn beta in Hfund, H0, H1.
  apply bind_Ok in Hval as (least & Hleast & Hval). cbn [index lookup list_lookup mbind outcome_bind] in Hval.
  destruct (Z.ltb_spec (Value o0) least); [done|]. case_bool_decide as Hpk; [|done]. cbn [negb] in Hval.
  apply bind_Ok in Hval as (script & Hscript & Hval). apply wrapf_Ok in Hscript. cbn [index lookup list_lookup mbind outcome_bind] in Hval.
  case_bool_decide as Hch; [|done]. cbn [negb] in Hval. apply bind_Ok in Hval as ([] & _ & Hval).
  destruct (Z.leb_spec (Value o0) 0); [done|]. destruct (Z.leb_spec (Value funding) 0); [done|]. cbn [orb] in Hval.
  assert (Hsum : sumValues [o0; o1] = Value o0 + Value o1).
  { unfold sumValues. cbn [foldl]. rewrite Z.add_0_l, (i64_small (Value o0)), i64_small by (unfold in_i64; lia). done. }
  rewrite Hsum in Hval. destruct (Z.leb_spec (Value funding) (Value o0 + Value o1)); [done|].
  rewrite i64_small in Hval by (unfold in_i64; lia). destruct (Z.ltb_spec (Value funding - (Value o0 + Value o1)) (sp_MinSlashingTxFeeSat p)); [done|].
  cbn [index lookup list_lookup mbind outcome_bind] in HC. case_bool_decide as Hh; [|done]. cbn [negb] in HC.
  destruct (Z.eqb_spec (op_Index (PreviousOutPoint i)) idx) as [Hi|]; [|done].
  split; [done| |done|].
  - exists i. apply Forall_inv in Hseq as [? ?]. split_and!; [done| |done..]. destruct (PreviousOutPoint i); simpl in *; congruence.
  - exists (Value o0), (Value o1), script, least. split_and!; [|done|done|lia|lia|lia|lia].
    destruct o0, o1; simpl in *; congruence.
Qed.

(** ** The staking output *)

Lemma GetOutputIdxInBTCTx_Ok tx out idx : GetOutputIdxInBTCTx tx out = Ok idx →
  0 ≤ idx < 2 ^ 32 ∧ TxOuts tx !! Z.to_nat idx = Some out ∧ ∀ j, TxOuts tx !! j = Some out → j = Z.to_nat idx.
Proof using.
  unfold GetOutputIdxInBTCTx. intros HC. apply bind_Ok in HC as (m & Hm & HC).
  set (f := λ (matchIdx : option nat) (ito : nat * TxOut), _) in Hm.
  assert (Hinv : ∀ l r, foldM f None (imap pair l) = Ok r →
    match r with
    | Some i => l !! i = Some out ∧ ∀ j, l !! j = Some out → j = i
    | None => ∀ j, l !! j ≠ Some out
    end).
  { intros l. induction l as [|o l IH] using rev_ind; intros r Hr.
    { injection Hr as <-. done. }
    rewrite imap_app, foldM_app in Hr. apply bind_Ok in Hr as (r0 & Hr0 & Hr). specialize (IH r0 Hr0). cbn [imap foldM] in Hr.
    apply bind_Ok in Hr as (r1 & Hr1 & [= <-]). unfold f in Hr1. cbn [fst snd compose] in Hr1. rewrite Nat.add_0_r in Hr1.
    case_bool_decide as Ho.
    - destruct r0 as [i|]; [done|]. injection Hr1 as <-. split; [by rewrite list_lookup_middle, Ho|].
      intros j Hj. apply lookup_app_Some in Hj as [Hj|[Hle Hj]]; [by apply IH in Hj|].
      apply list_lookup_singleton_Some in Hj as [? _]. lia.
    - injection Hr1 as <-. destruct r0 as [i|].
      + destruct IH as [Hi Hu]. split; [by apply lookup_app_l_Some|]. intros j Hj.
        apply lookup_app_Some in Hj as [Hj|[_ Hj]]; [by apply Hu|]. apply list_lookup_singleton_Some in Hj as [_ ?]. done.
      + intros j Hj. apply lookup_app_Some in Hj as [Hj|[_ Hj]]; [by apply IH in Hj|]. apply list_lookup_singleton_Some in Hj as [_ ?]. done. }
  apply Hinv in Hm. destruct m as [i|]; [|done]. destruct (Z.ltb_spec (2 ^ 32 - 1) (Z.of_nat i)); [done|]. injection HC as <-.
  rewrite Nat2Z.id. split; [lia|]. exact Hm.
Qed.

(** ** Accepted delegations *)

(** A stored delegation [d] under the parameters [p], with its four transactions, its
    scripts and the staker's key. *)
Record accepted (p : StakingParams) (d : BTCDelegation) (stx sltx utx usltx : MsgTx) (info : StakingInfo) (uinfo : UnbondingInfo)
    (staker : point) : Prop := {
  ac_stx : NewBTCTxFromBytes (d_StakingTx d) = Ok stx;
  ac_sltx : NewBTCTxFromBytes (d_SlashingTx d) = Ok sltx;
  ac_utx : NewBTCTxFromBytes (ud_UnbondingTx (d_BtcUndelegation d)) = Ok utx;
  ac_usltx : NewBTCTxFromBytes (ud_SlashingTx (d_BtcUndelegation d)) = Ok usltx;
  ac_staker : ToBTCPK (d_BtcPk d) = Ok staker;
  ac_fp : ∃ fp P, d_FpBtcPkList d = [fp] ∧ ToBTCPK fp = Ok P;
  ac_info : GetStakingInfo d p = Ok info;
  ac_uinfo : GetUnbondingInfo d p = Ok uinfo;
  ac_output : 0 ≤ d_StakingOutputIdx d ∧ ∀ j, TxOuts stx !! j = Some (StakingOutput info) ↔ j = Z.to_nat (d_StakingOutputIdx d);
  ac_value : Value (StakingOutput info) = d_TotalSat d ∧ sp_MinStakingValueSat p ≤ d_TotalSat d ≤ sp_MaxStakingValueSat p;
  ac_time : sp_MinStakingTimeBlocks p ≤ d_StakingTime d ≤ sp_MaxStakingTimeBlocks p ∧ d_UnbondingTime d = sp_UnbondingTimeBlocks p;
  ac_slashes : slashes p staker (d_UnbondingTime d) sltx stx (d_StakingOutputIdx d) (StakingOutput info);
  ac_sig : ∃ si, SlashingPathSpendInfo info = Ok si ∧
    VerifyTransactionSigWithOutput sltx (StakingOutput info) (GetPkScriptPath si) staker (d_DelegatorSig d) = Ok tt;
  ac_unbonds : (∃ i, TxIns utx = [i] ∧ PreviousOutPoint i = mkOutPoint (TxHash stx) (d_StakingOutputIdx d)) ∧
    TxOuts utx = [UnbondingOutput uinfo] ∧ d_TotalSat d - Value (UnbondingOutput uinfo) = sp_UnbondingFeeSat p ∧
    Value (UnbondingOutput uinfo) < d_TotalSat d;
  ac_uslashes : slashes p staker (d_UnbondingTime d) usltx utx 0 (UnbondingOutput uinfo);
  ac_usig : ∃ si, ui_SlashingPathSpendInfo uinfo = Ok si ∧
    VerifyTransactionSigWithOutput usltx (UnbondingOutput uinfo) (GetPkScriptPath si) staker (ud_DelegatorSlashingSig (d_BtcUndelegation d)) = Ok tt
}.

Definition slashable (p : StakingParams) (d : BTCDelegation) : Prop :=
  ∃ stx sltx utx usltx info uinfo staker, accepted p d stx sltx utx usltx info uinfo staker.

(** *** Parsed messages *)

(** The fields are in the range of their types. *)
Definition typed_create (msg : MsgCreateBTCDelegation) : Prop :=
  0 ≤ mcd_StakingTime msg ∧ 0 ≤ mcd_UnbondingTime msg ∧ mcd_StakingValue msg < 2 ^ 63.

Record parsed_ok (pm : ParsedCreateDelegationMessage) : Prop := {
  po_stx : NewBTCTxFromBytes (pm_StakingTx pm).2 = Ok (pm_StakingTx pm).1;
  po_sltx : NewBTCTxFromBytes (StakingSlashingTx pm).2 = Ok (StakingSlashingTx pm).1;
  po_utx : NewBTCTxFromBytes (pm_UnbondingTx pm).2 = Ok (pm_UnbondingTx pm).1;
  po_usltx : NewBTCTxFromBytes (UnbondingSlashingTx pm).2 = Ok (UnbondingSlashingTx pm).1;
  po_times : 0 ≤ pm_StakingTime pm ≤ MaxUint16 ∧ 0 ≤ pm_UnbondingTime pm ≤ MaxUint16;
  po_staker : ToBTCPK (StakerPK pm).2 = Ok (StakerPK pm).1;
  po_fp : ∃ fp P, FinalityProviderKeys pm = ([P], [fp]) ∧ ToBTCPK fp = Ok P;
  po_value : 0 ≤ StakingValue pm < 2 ^ 63 ∧ 0 ≤ UnbondingValue pm
}.

Lemma NewBtcTransaction_Ok b tx : NewBtcTransaction b = Ok tx → NewBTCTxFromBytes tx.2 = Ok tx.1.
Proof using. intros HC. apply bind_Ok in HC as (t & Ht & [= <-]). done. Qed.

Lemma parseCreate_ok msg pm : typed_create msg → parseCreateDelegationMessage msg = Ok pm →
  parsed_ok pm ∧ (pm_StakingTx pm).2 = mcd_StakingTx msg ∧ pm_StkExp pm = None.
Proof using.
  intros (Ht1 & Ht2 & Hv) HC. unfold parseCreateDelegationMessage in HC.
  apply bind_Ok in HC as (incl & _ & HC). apply bind_Ok in HC as (stx & Hstx & HC). apply bind_Ok in HC as (b1 & _ & HC).
  apply bind_Ok in HC as (sltx & Hsltx & HC). apply bind_Ok in HC as (utx & Hutx & HC). apply bind_Ok in HC as (b2 & _ & HC).
  apply bind_Ok in HC as (usltx & Husltx & HC). apply wrapf_Ok in Hstx, Hsltx, Hutx, Husltx.
  destruct (Z.ltb_spec MaxUint16 (mcd_UnbondingTime msg)); [done|]. destruct (Z.ltb_spec MaxUint16 (mcd_StakingTime msg)); [done|].
  destruct (AccFromBech32 (mcd_StakerAddr msg)) as [addr|]; [|done]. destruct (mcd_Pop msg) as [pop|]; [|done].
  apply bind_Ok in HC as ([] & _ & HC). apply bind_Ok in HC as (sig1 & _ & HC). apply bind_Ok in HC as (sig2 & _ & HC).
  apply bind_Ok in HC as (fps & Hfps & HC). apply wrapf_Ok in Hfps. apply bind_Ok in HC as (dup & _ & HC). destruct dup; [done|].
  destruct (Nat.eqb_spec (length fps.2) 1) as [Hlen|]; [|done]. cbn [negb] in HC. apply bind_Ok in HC as (staker & Hstaker & HC). apply wrapf_Ok in Hstaker.
  destruct (Z.ltb_spec (mcd_StakingValue msg) 0); [done|]. destruct (Z.ltb_spec (mcd_UnbondingValue msg) 0); [done|]. injection HC as <-.
  assert (Hfp : ∃ fp P, fps = ([P], [fp]) ∧ ToBTCPK fp = Ok P).
  { unfold NewParsedPublicKeyList in Hfps. destruct (length (mcd_FpBtcPkList msg) =? 0)%nat; [done|].
    apply bind_Ok in Hfps as (pts & Hpts & [= <-]). apply wrapf_Ok in Hpts. simpl in Hlen.
    destruct (mcd_FpBtcPkList msg) as [|fp [|]]; [done| |done]. unfold NewBTCPKsFromBIP340PKs in Hpts. cbn [foldM] in Hpts.
    apply bind_Ok in Hpts as (x & Hx & [= <-]). apply bind_Ok in Hx as (P & HP & [= <-]). by exists fp, P. }
  assert (Hst : ToBTCPK staker.2 = Ok staker.1).
  { unfold NewParsedPublicKey in Hstaker. destruct (mcd_BtcPk msg) as [k|]; [|done]. apply bind_Ok in Hstaker as (P & HP & [= <-]).
    by apply wrapf_Ok in HP. }
  split_and!; [| |done].
  - split; cbn [pm_StakingTx StakingSlashingTx pm_UnbondingTx UnbondingSlashingTx pm_StakingTime pm_UnbondingTime StakerPK FinalityProviderKeys StakingValue UnbondingValue];
      [by eapply NewBtcTransaction_Ok..|lia|done|done|lia].
  - cbn [pm_StakingTx]. apply bind_Ok in Hstx as (t & _ & [= <-]). done.
Qed.

Lemma parseExpand_ok msg pm : typed_create (mse_Del msg) → parseBtcExpandMessage msg = Ok pm → parsed_ok pm.
Proof using.
  intros Ht HC. apply bind_Ok in HC as (parsed & Hp & HC). apply parseCreate_ok in Hp as (Hok & _); [|done].
  apply bind_Ok in HC as (e & _ & [= <-]). destruct Hok. by split.
Qed.

(** *** Validation *)

Lemma Validate_accepted pm p idx start en pv tip exp : parsed_ok pm → ValidateParsedMessageAgainstTheParams pm p = Ok idx →
  slashable p
    (mkDel (AccString (StakerAddress pm)) (StakerPK pm).2 (ParsedPop pm) (FinalityProviderKeys pm).2 (pm_StakingTime pm) start en
       (u64 (StakingValue pm)) (pm_StakingTx pm).2 idx (StakingSlashingTx pm).2 (StakerStakingSlashingTxSig pm) [] (pm_UnbondingTime pm)
       (mkUndel (pm_UnbondingTx pm).2 (UnbondingSlashingTx pm).2 (StakerUnbondingSlashingSig pm) [] [] None) pv tip exp).
Proof using SL.
  intros [Hstx Hsltx Hutx Husltx Htimes Hstaker (fp & P & Hfps & Hfp) Hval] HC.
  assert (HP : NewBTCPKsFromBIP340PKs [fp] = Ok [P]) by (unfold NewBTCPKsFromBIP340PKs; cbn [foldM]; rewrite Hfp; done).
  assert (Hu64 : u64 (StakingValue pm) = StakingValue pm) by (apply u64_small; unfold in_u64; lia).
  unfold ValidateParsedMessageAgainstTheParams in HC. destruct (Z.eqb_spec (pm_UnbondingTime pm) (sp_UnbondingTimeBlocks p)); [|done]. cbn [negb] in HC.
  apply bind_Ok in HC as (covs & Hcovs & HC). unfold MustGetCovenantPks in Hcovs. rewrite must_Ok in Hcovs.
  apply bind_Ok in HC as (info & Hinfo & HC). apply wrap_as_Ok in Hinfo. apply bind_Ok in HC as (i & Hi & HC). apply wrap_as_Ok in Hi.
  pose proof Hi as (Hi0 & Hiout & Hiu)%GetOutputIdxInBTCTx_Ok.
  destruct (Z.ltb_spec (pm_StakingTime pm) (sp_MinStakingTimeBlocks p)); [done|]. destruct (Z.ltb_spec (sp_MaxStakingTimeBlocks p) (pm_StakingTime pm)); [done|].
  cbn [orb] in HC. apply bind_Ok in HC as (out & Hout & HC). unfold index in Hout. rewrite Hiout in Hout. injection Hout as <-.
  destruct (Z.ltb_spec (Value (StakingOutput info)) (sp_MinStakingValueSat p)); [done|].
  destruct (Z.ltb_spec (sp_MaxStakingValueSat p) (Value (StakingOutput info))); [done|]. cbn [orb] in HC.
  apply bind_Ok in HC as ([] & Hsl & HC). apply wrap_as_Ok in Hsl. eapply CheckSlashingTx_slashes in Hsl; [|exact Hiout].
  apply bind_Ok in HC as (si & Hsi & HC). rewrite must_Ok in Hsi. apply bind_Ok in HC as ([] & Hsig & HC). apply wrap_as_Ok in Hsig.
  apply bind_Ok in HC as ([] & Hus & HC). apply wrap_as_Ok in Hus. apply CheckPreSignedTxSanity_Ok in Hus as (_ & Huin & Huout & _ & _).
  apply bind_Ok in HC as (uinfo & Huinfo & HC). apply wrap_as_Ok in Huinfo. apply bind_Ok in HC as (uout & Hu0 & HC).
  destruct (TxOuts (pm_UnbondingTx pm).1) as [|o [|]] eqn:Euouts; [done| |done]. injection Hu0 as ->.
  case_bool_decide as Hpk; [|done]. destruct (Z.eqb_spec (Value uout) (Value (UnbondingOutput uinfo))) as [Hv|]; [|done]. cbn [negb] in HC.
  assert (uout = UnbondingOutput uinfo) as -> by (destruct uout, (UnbondingOutput uinfo); simpl in *; congruence). clear Hpk Hv.
  apply bind_Ok in HC as ([] & Husl & HC). apply wrap_as_Ok in Husl. eapply CheckSlashingTx_slashes in Husl; [|by rewrite Euouts].
  apply bind_Ok in HC as (usi & Husi & HC). rewrite must_Ok in Husi. apply bind_Ok in HC as ([] & Husig & HC). apply wrap_as_Ok in Husig.
  apply bind_Ok in HC as (in0 & Hin0 & HC). destruct (TxIns (pm_UnbondingTx pm).1) as [|x [|]] eqn:Euins; [done| |done]. injection Hin0 as ->.
  case_bool_decide as Hh; [|done]. destruct (Z.eqb_spec (op_Index (PreviousOutPoint in0)) i) as [Hix|]; [|done]. cbn [negb] in HC.
  destruct (Z.leb_spec (Value (StakingOutput info)) (Value (UnbondingOutput uinfo))); [done|].
  assert (HvS : Value (StakingOutput info) = StakingValue pm).
  { unfold BuildStakingInfo in Hinfo. apply bind_Ok in Hinfo as (? & _ & Hinfo). apply bind_Ok in Hinfo as (? & _ & Hinfo).
    apply bind_Ok in Hinfo as (? & _ & [= <-]). done. }
  assert (HvU : Value (UnbondingOutput uinfo) = UnbondingValue pm).
  { unfold BuildUnbondingInfo in Huinfo. apply bind_Ok in Huinfo as (? & _ & Huinfo). apply bind_Ok in Huinfo as (? & _ & Huinfo).
    apply bind_Ok in Huinfo as (? & _ & [= <-]). done. }
  rewrite HvS, HvU in *. rewrite i64_small in HC by (unfold in_i64; lia).
  destruct (Z.eqb_spec (StakingValue pm - UnbondingValue pm) (sp_UnbondingFeeSat p)); [|done]. injection HC as <-.
  exists (pm_StakingTx pm).1, (StakingSlashingTx pm).1, (pm_UnbondingTx pm).1, (UnbondingSlashingTx pm).1, info, uinfo, (StakerPK pm).1.
  split; cbn [d_StakingTx d_SlashingTx d_BtcUndelegation ud_UnbondingTx ud_SlashingTx d_BtcPk d_FpBtcPkList d_StakingOutputIdx d_TotalSat d_StakingTime
    d_UnbondingTime d_DelegatorSig ud_DelegatorSlashingSig]; rewrite ?HvS, ?HvU, ?Hu64, ?Hfps; try done.
  - eauto.
  - unfold GetStakingInfo, MustToBTCPK, MustGetValidStakingTime.
    cbn [d_FpBtcPkList d_BtcPk d_StakingTime d_TotalSat snd]. rewrite HP, Hcovs, Hstaker. cbn [wrapf must mbind outcome_bind].
    rewrite (proj2 (Z.ltb_ge _ _)) by lia. cbn [mbind outcome_bind]. rewrite i64_small by (unfold in_i64; lia).
    rewrite Hfps in Hinfo. cbn [fst] in Hinfo. by rewrite Hinfo.
  - unfold GetUnbondingInfo, MustToBTCPK. cbn [d_FpBtcPkList d_BtcPk d_UnbondingTime d_BtcUndelegation ud_UnbondingTx snd].
    rewrite HP, Hcovs, Hstaker, Hutx. cbn [wrapf must mbind outcome_bind]. rewrite Euouts. cbn [index lookup list_lookup mbind outcome_bind].
    unfold MaxUint16 in Htimes. rewrite Z.mod_small by lia. rewrite Hfps in Huinfo. cbn [fst] in Huinfo. by rewrite HvU, Huinfo.
  - split; [lia|]. intros j. split; [apply Hiu|by intros ->].
  - eauto.
  - split_and!; [|done|lia|lia]. exists in0. split; [done|]. destruct (PreviousOutPoint in0); simpl in *; congruence.
  - eauto.
Qed.

(** ** Scripts of an output *)

Lemma newTaprootScriptHolder_Ok scripts sh : newTaprootScriptHolder scripts = Ok sh →
  scriptTree sh = scripts ∧ NoDup (TapLeafHash <$> scripts).
Proof using.
  intros HC. apply bind_Ok in HC as (leafs & Hl & [= <-]). split; [done|].
  set (f := λ (createdLeafs : list bytes) (script : bytes), _) in Hl.
  assert (Hinv : ∀ l acc r, NoDup acc → foldM f acc l = Ok r → NoDup r ∧ r = reverse (TapLeafHash <$> l) ++ acc).
  { induction l as [|x l IH]; intros acc r Hacc Hr; [by injection Hr as <-|].
    cbn [foldM] in Hr. apply bind_Ok in Hr as (acc' & Ha & Hr). unfold f in Ha. destruct (length x =? 0)%nat; [done|].
    case_bool_decide as Hin; [done|]. injection Ha as <-. apply IH in Hr as [? ->]; [|by constructor]. split; [done|].
    by rewrite fmap_cons, reverse_cons, <- app_assoc. }
  apply Hinv in Hl as [Hnd ->]; [|constructor]. rewrite app_nil_r in Hnd. by rewrite <- (reverse_Permutation (TapLeafHash <$> scripts)).
Qed.

(** A script of the tree is found by its leaf hash. *)
Lemma scriptSpendInfo_found sh i script : NoDup (TapLeafHash <$> scriptTree sh) → scriptTree sh !! i = Some script →
  scriptSpendInfoByName sh (TapLeafHash script) = Ok (mkSpendInfo (scriptTree sh, i) script).
Proof using.
  intros Hnd Hi. unfold scriptSpendInfoByName.
  assert (list_find (λ x, TapLeafHash x = TapLeafHash script) (scriptTree sh) = Some (i, script)) as ->; [|done].
  apply list_find_Some. split_and!; [done|done|]. intros j y Hj Hlt E.
  assert (j = i); [|lia]. eapply NoDup_lookup; [exact Hnd| |]; rewrite list_lookup_fmap; [rewrite Hj|rewrite Hi]; simpl; by rewrite ?E.
Qed.

Lemma BuildStakingInfo_spec staker fps covs q time amount info : BuildStakingInfo staker fps covs q time amount = Ok info →
  ∃ scripts, newBabylonScriptPaths staker fps covs q time = Ok scripts ∧
    let leaves := [timeLockPathScript scripts; unbondingPathScript scripts; slashingPathScript scripts] in
    (∃ pk, TaprootPkScript leaves = Ok pk ∧ StakingOutput info = mkTxOut amount pk) ∧
    TimeLockPathSpendInfo info = Ok (mkSpendInfo (leaves, 0%nat) (timeLockPathScript scripts)) ∧
    SlashingPathSpendInfo info = Ok (mkSpendInfo (leaves, 2%nat) (slashingPathScript scripts)) ∧
    UnbondingPathSpendInfo info = Ok (mkSpendInfo (leaves, 1%nat) (unbondingPathScript scripts)).
Proof using.
  intros HC. apply bind_Ok in HC as (scripts & Hs & HC). apply wrapf_Ok in Hs. apply bind_Ok in HC as (sh & Hsh & HC). apply wrapf_Ok in Hsh.
  apply bind_Ok in HC as (pk & Hpk & [= <-]). apply wrapf_Ok in Hpk. apply newTaprootScriptHolder_Ok in Hsh as [Et Hnd].
  exists scripts. split; [done|]. cbn zeta. unfold taprootPkScript in Hpk. rewrite Et in Hpk. split; [by exists pk|].
  destruct sh as [tree]. cbn [scriptTree] in Et. subst tree.
  split_and!; eapply (scriptSpendInfo_found (mkHolder _)); done.
Qed.

Lemma BuildUnbondingInfo_spec staker fps covs q time amount uinfo : BuildUnbondingInfo staker fps covs q time amount = Ok uinfo →
  ∃ scripts, newBabylonScriptPaths staker fps covs q time = Ok scripts ∧
    let leaves := [timeLockPathScript scripts; slashingPathScript scripts] in
    (∃ pk, TaprootPkScript leaves = Ok pk ∧ UnbondingOutput uinfo = mkTxOut amount pk) ∧
    ui_SlashingPathSpendInfo uinfo = Ok (mkSpendInfo (leaves, 1%nat) (slashingPathScript scripts)).
Proof using.
  intros HC. apply bind_Ok in HC as (scripts & Hs & HC). apply wrapf_Ok in Hs. apply bind_Ok in HC as (sh & Hsh & HC). apply wrapf_Ok in Hsh.
  apply bind_Ok in HC as (pk & Hpk & [= <-]). apply wrapf_Ok in Hpk. apply newTaprootScriptHolder_Ok in Hsh as [Et Hnd].
  exists scripts. split; [done|]. cbn zeta. unfold taprootPkScript in Hpk. rewrite Et in Hpk. split; [by exists pk|].
  destruct sh as [tree]. cbn [scriptTree] in Et. subst tree. eapply (scriptSpendInfo_found (mkHolder _)); done.
Qed.

(** ** Covenant signatures *)

(** One member of the committee has given verified adaptor signatures over a slashing
    transaction, one for each finality provider. *)
Definition cov_valid (p : StakingParams) (fps : list bytes) (tx : bytes) (out : TxOut) (si : SpendInfo) (cas : CovenantAdaptorSignatures) : Prop :=
  cas_CovPk cas ∈ sp_CovenantPks p ∧ ∃ raw sigs, length raw = length fps ∧
    ParseEncVerifyAdaptorSignatures tx out si (cas_CovPk cas) fps raw = Ok sigs ∧ cas_AdaptorSigs cas = AdaptorSignature_Marshal <$> sigs.
Definition unbond_valid (utx : MsgTx) (out : TxOut) (si : SpendInfo) (s : SignatureInfo) : Prop :=
  ∃ P, ToBTCPK (si_Pk s) = Ok P ∧ VerifyTransactionSigWithOutput utx out (GetPkScriptPath si) P (si_Sig s) = Ok tt.

(** The signatures of a delegation: no member signs twice, and each member that signs
    covers both slashing transactions and the unbonding transaction. *)
Record signed_with (p : StakingParams) (d : BTCDelegation) (info : StakingInfo) (uinfo : UnbondingInfo) (si ui usi : SpendInfo) (utx : MsgTx)
    : Prop := {
  sg_info : GetStakingInfo d p = Ok info;
  sg_uinfo : GetUnbondingInfo d p = Ok uinfo;
  sg_si : SlashingPathSpendInfo info = Ok si;
  sg_ui : UnbondingPathSpendInfo info = Ok ui;
  sg_usi : ui_SlashingPathSpendInfo uinfo = Ok usi;
  sg_utx : NewBTCTxFromBytes (ud_UnbondingTx (d_BtcUndelegation d)) = Ok utx;
  sg_uout : TxOuts utx !! 0%nat = Some (UnbondingOutput uinfo);
  sg_slash : Forall (cov_valid p (d_FpBtcPkList d) (d_SlashingTx d) (StakingOutput info) si) (d_CovenantSigs d);
  sg_uslash : Forall (cov_valid p (d_FpBtcPkList d) (ud_SlashingTx (d_BtcUndelegation d)) (UnbondingOutput uinfo) usi)
                (ud_CovenantSlashingSigs (d_BtcUndelegation d));
  sg_unbond : Forall (unbond_valid utx (StakingOutput info) ui) (ud_CovenantUnbondingSigList (d_BtcUndelegation d));
  sg_nodup : NoDup (cas_CovPk <$> d_CovenantSigs d);
  sg_same : cas_CovPk <$> ud_CovenantSlashingSigs (d_BtcUndelegation d) = cas_CovPk <$> d_CovenantSigs d ∧
            si_Pk <$> ud_CovenantUnbondingSigList (d_BtcUndelegation d) = cas_CovPk <$> d_CovenantSigs d
}.
Definition signed (p : StakingParams) (d : BTCDelegation) : Prop := ∃ info uinfo si ui usi utx, signed_with p d info uinfo si ui usi utx.

(** What the signatures and the checks of a delegation depend on. *)
Definition stake_core (d : BTCDelegation) :=
  (d_BtcPk d, d_FpBtcPkList d, d_StakingTime d, d_TotalSat d, d_StakingTx d, d_StakingOutputIdx d, d_SlashingTx d, d_DelegatorSig d, d_UnbondingTime d,
   (ud_UnbondingTx (d_BtcUndelegation d), ud_SlashingTx (d_BtcUndelegation d), ud_DelegatorSlashingSig (d_BtcUndelegation d))).
Definition sig_core (d : BTCDelegation) :=
  (d_CovenantSigs d, ud_CovenantSlashingSigs (d_BtcUndelegation d), ud_CovenantUnbondingSigList (d_BtcUndelegation d)).

Lemma GetStakingInfo_core d d' p : stake_core d = stake_core d' → GetStakingInfo d p = GetStakingInfo d' p.
Proof using.
  unfold stake_core, GetStakingInfo, MustGetValidStakingTime. intros [= E1 E2 E3 E4 _]. by rewrite E1, E2, E3, E4.
Qed.
Lemma GetUnbondingInfo_core d d' p : stake_core d = stake_core d' → GetUnbondingInfo d p = GetUnbondingInfo d' p.
Proof using.
  unfold stake_core, GetUnbondingInfo. intros [= E1 E2 _ _ _ _ _ _ E9 E10 _ _]. by rewrite E1, E2, E9, E10.
Qed.

Lemma slashable_core d d' p : stake_core d = stake_core d' → slashable p d → slashable p d'.
Proof using.
  intros Hc (stx & sltx & utx & usltx & info & uinfo & staker & [? ? ? ? ? ? Hi Hu ? ? ? ? ? ? ? ?]).
  rewrite (GetStakingInfo_core d d' p Hc) in Hi. rewrite (GetUnbondingInfo_core d d' p Hc) in Hu.
  exists stx, sltx, utx, usltx, info, uinfo, staker. unfold stake_core in Hc.
  injection Hc as Ec1 Ec2 Ec3 Ec4 Ec5 Ec6 Ec7 Ec8 Ec9 Ec10 Ec11 Ec12.
  split; rewrite <- ?Ec1, <- ?Ec2, <- ?Ec3, <- ?Ec4, <- ?Ec5, <- ?Ec6, <- ?Ec7, <- ?Ec8, <- ?Ec9, <- ?Ec10, <- ?Ec11, <- ?Ec12; assumption.
Qed.

Lemma signed_core d d' p : stake_core d = stake_core d' → sig_core d = sig_core d' → signed p d → signed p d'.
Proof using.
  intros Hc Hs (info & uinfo & si & ui & usi & utx & [Hi Hu ? ? ? ? ? ? ? ? ? ?]).
  rewrite (GetStakingInfo_core d d' p Hc) in Hi. rewrite (GetUnbondingInfo_core d d' p Hc) in Hu.
  exists info, uinfo, si, ui, usi, utx. unfold stake_core in Hc. unfold sig_core in Hs.
  injection Hc as Ec1 Ec2 Ec3 Ec4 Ec5 Ec6 Ec7 Ec8 Ec9 Ec10 Ec11 Ec12. injection Hs as Es1 Es2 Es3.
  split; rewrite <- ?Ec2, <- ?Ec7, <- ?Ec10, <- ?Ec11, <- ?Es1, <- ?Es2, <- ?Es3; assumption.
Qed.

(** A new delegation has no covenant signatures. *)
Lemma slashable_unsigned p d : slashable p d → sig_core d = ([], [], []) → signed p d.
Proof using.
  intros (stx & sltx & utx & usltx & info & uinfo & staker & Hac) Hs. destruct Hac as [? ? Hutx ? ? ? Hi Hu ? ? ? ? (si & Hsi & _) (_ & Hout & _) ? (usi & Husi & _)].
  assert (∃ ui, UnbondingPathSpendInfo info = Ok ui) as [ui Eui].
  { pose proof Hi as Hb. unfold GetStakingInfo in Hb. do 4 (apply bind_Ok in Hb as (? & _ & Hb)). apply wrapf_Ok in Hb.
    apply BuildStakingInfo_spec in Hb as (scripts & _ & _ & _ & _ & Hfind). eexists. by apply Hfind. }
  unfold sig_core in Hs. injection Hs as Es1 Es2 Es3. exists info, uinfo, si, ui, usi, utx.
  split; rewrite ?Es1, ?Es2, ?Es3; try done; try constructor. by rewrite Hout.
Qed.

(** ** The invariant *)

(** A delegation is stored under the hash of its staking transaction, with parameters of
    a stored version. *)
Definition del_ok (s : StakingState) (h : bytes) (d : BTCDelegation) : Prop :=
  (∃ stx, NewBTCTxFromBytes (d_StakingTx d) = Ok stx ∧ TxHash stx = h) ∧
  ∃ p, GetParamsByVersion s (d_ParamsVersion d) = Some p ∧ slashable p d ∧ signed p d.
Definition dels_ok (s : StakingState) : Prop := ∀ h d, btcDelegations s !! h = Some d → del_ok s h d.

Lemma MustGetStakingTxHash_eq d stx : NewBTCTxFromBytes (d_StakingTx d) = Ok stx → MustGetStakingTxHash d = Ok (TxHash stx).
Proof using.
  unfold NewBTCTxFromBytes, MustGetStakingTxHash. cbn [Delegations.TxHash staking_hashing].
  destruct (NewTxFromBytes (d_StakingTx d)) as [t|]; [|done]. by intros [= ->].
Qed.

Lemma del_ok_core s h d d' : stake_core d = stake_core d' → sig_core d = sig_core d' → d_ParamsVersion d = d_ParamsVersion d' →
  del_ok s h d → del_ok s h d'.
Proof using.
  intros Hc Hs Hv [(stx & Hstx & Hh) (p & Hp & Hsl & Hsg)]. split.
  - exists stx. split; [|done]. unfold stake_core in Hc. injection Hc as _ _ _ _ E _ _ _ _ _ _ _. by rewrite <- E.
  - exists p. split_and!; [by rewrite <- Hv|by eapply slashable_core|by eapply signed_core].
Qed.

(** Steps that replace one delegation, keep the parameters and change other stores. *)
Lemma dels_ok_insert s s' h d : dels_ok s → del_ok s h d → btcDelegations s' = <[h := d]> (btcDelegations s) → stakingParams s' = stakingParams s →
  dels_ok s'.
Proof using.
  intros Hok Hd Hb Hp h' d' Hl. rewrite Hb in Hl. unfold del_ok, GetParamsByVersion in *. rewrite Hp.
  apply lookup_insert_Some in Hl as [[<- <-]|[_ Hl]]; [done|by apply Hok].
Qed.
Lemma dels_ok_same s s' : dels_ok s → btcDelegations s' = btcDelegations s → stakingParams s' = stakingParams s → dels_ok s'.
Proof using. intros Hok Hb Hp h d Hl. rewrite Hb in Hl. unfold del_ok, GetParamsByVersion. rewrite Hp. by apply Hok. Qed.

(** What the operations that store a delegation leave alone. *)
Definition params_kept (s s' : StakingState) : Prop := stakingParams s' = stakingParams s ∧ heightToVersionMap s' = heightToVersionMap s.
Lemma params_kept_trans s1 s2 s3 : params_kept s1 s2 → params_kept s2 s3 → params_kept s1 s3.
Proof using. unfold params_kept. intros [-> ->] [-> ->]. done. Qed.

Lemma setBTCDelegation_Ok s d h s' : (∃ stx, NewBTCTxFromBytes (d_StakingTx d) = Ok stx ∧ TxHash stx = h) → setBTCDelegation s d = Ok s' →
  s' = set_btcDelegations s (<[h := d]> (btcDelegations s)).
Proof using. intros (stx & Hs & <-) HC. apply bind_Ok in HC as (h & Hh & [= <-]). rewrite (MustGetStakingTxHash_eq _ _ Hs) in Hh. by injection Hh as <-. Qed.

Lemma AddBTCDelegation_Ok s d stx s' : NewBTCTxFromBytes (d_StakingTx d) = Ok stx → AddBTCDelegation s d = Ok s' →
  btcDelegations s' = <[TxHash stx := d]> (btcDelegations s) ∧ params_kept s s'.
Proof using.
  intros Hs HC. unfold AddBTCDelegation in HC. rewrite Hs in HC. cbn [mbind outcome_bind] in HC. apply bind_Ok in HC as (s1 & H1 & HC).
  assert (Hk : btcDelegations s1 = btcDelegations s ∧ params_kept s s1).
  { set (f := λ (s : StakingState) (fpBTCPK : bytes), _) in H1. clear HC. revert s H1. induction (d_FpBtcPkList d) as [|fp l IH]; intros s H1.
    - by injection H1 as <-.
    - cbn [foldM] in H1. apply bind_Ok in H1 as (s2 & H2 & H1). unfold f in H2. apply bind_Ok in H2 as (i & _ & [= <-]).
      apply IH in H1. exact H1. }
  apply bind_Ok in HC as (s2 & H2 & HC). apply (setBTCDelegation_Ok _ _ (TxHash stx)) in H2; [|by exists stx]. subst s2.
  destruct Hk as [<- Hk]. injection HC as <-. by destruct (HasInclusionProof d).
Qed.

Lemma AddInclusion_ok k hs s d h proof s' : dels_ok s → btcDelegations s !! h = Some d →
  AddBTCDelegationInclusionProof_keeper k hs s d proof = Ok s' → dels_ok s' ∧ params_kept s s'.
Proof using.
  intros Hok Hl HC. pose proof (Hok _ _ Hl) as Hd. unfold AddBTCDelegationInclusionProof_keeper in HC. destruct proof as [proof|]; [|done].
  apply bind_Ok in HC as (stx & _ & HC). destruct (HasInclusionProof d); [done|]. destruct (GetParamsByVersion _ _) as [p|]; [|done].
  apply bind_Ok in HC as (q & _ & HC). destruct q; [|done]. cbn [negb] in HC. destruct (IsUnbondedEarly d); [done|].
  apply bind_Ok in HC as (pp & _ & HC). apply bind_Ok in HC as (pp2 & _ & HC). apply bind_Ok in HC as (ti & _ & HC).
  destruct (_ <? _); [done|]. apply bind_Ok in HC as (s1 & H1 & [= <-]). pose proof Hd as [Hh _].
  apply (setBTCDelegation_Ok _ _ h) in H1; [|exact Hh]. subst s1. split; [|done].
  eapply (dels_ok_insert s _ h (with_heights d (ti_StartHeight ti) (ti_EndHeight ti))); [done| |done|done].
  by apply (del_ok_core s h d).
Qed.

Lemma btcUndelegate_ok tip s d h u s' : dels_ok s → del_ok s h d → btcUndelegate tip s d u = Ok s' → dels_ok s' ∧ params_kept s s'.
Proof using.
  intros Hok Hd HC. apply bind_Ok in HC as (s1 & H1 & HC). pose proof Hd as [Hh _]. apply (setBTCDelegation_Ok _ _ h) in H1; [|exact Hh]. subst s1.
  assert (dels_ok (set_btcDelegations s (<[h := with_unbonding_info d u]> (btcDelegations s)))) as Hok'.
  { eapply (dels_ok_insert s _ h); [done| |done|done]. by apply (del_ok_core s h d). }
  destruct (negb _); [by injection HC as <-|]. apply bind_Ok in HC as (x & _ & HC). destruct tip as [tip|]; [|done]. injection HC as <-.
  split; [|done]. by eapply dels_ok_same.
Qed.

Lemma getBTCDelWithParams_Ok s str i : getBTCDelWithParams s str = Ok i →
  ∃ h, btcDelegations s !! h = Some (di_Delegation i) ∧ GetParamsByVersion s (d_ParamsVersion (di_Delegation i)) = Some (di_Params i).
Proof using.
  unfold getBTCDelWithParams. simpl. intros HC. apply bind_Ok in HC as (d & Hd & HC). unfold GetBTCDelegation in Hd.
  destruct (NewHashFromStr str) as [h|]; [|done]. destruct (btcDelegations s !! h) as [d'|] eqn:Hl; [|done]. injection Hd as ->.
  destruct (GetParamsByVersion s (d_ParamsVersion d)) as [p|] eqn:Hp; [|done]. exists h. destruct (d_StkExp d) as [se|].
  - apply bind_Ok in HC as (x & _ & HC). apply bind_Ok in HC as (y & _ & [= <-]). done.
  - by injection HC as <-.
Qed.

(** *** Covenant signatures are added only after verification *)

Lemma elem_of_pks_existsb {A} (f : A → bytes) (l : list A) pk (g : A → bool) : (∀ x, g x = bool_decide (pk = f x)) →
  existsb g l = bool_decide (pk ∈ f <$> l).
Proof using.
  intros Hg. induction l as [|x l IH]; [done|]. cbn [existsb fmap list_fmap]. rewrite IH, Hg.
  rewrite (bool_decide_ext (pk ∈ f x :: (f <$> l)) (pk = f x ∨ pk ∈ f <$> l)) by apply elem_of_cons.
  by rewrite bool_decide_or.
Qed.

Lemma not_signed_twice p d pk info uinfo si ui usi utx : signed_with p d info uinfo si ui usi utx →
  IsSignedByCovMember d pk && ud_IsSignedByCovMember (d_BtcUndelegation d) pk = false → pk ∉ cas_CovPk <$> d_CovenantSigs d.
Proof using.
  intros Hs Hn. destruct (sg_same _ _ _ _ _ _ _ _ Hs) as [E1 E2].
  unfold ud_IsSignedByCovMember, IsSignedByCovMember, IsSignedByCovMemberOnUnbonding, IsSignedByCovMemberOnSlashing in Hn.
  rewrite (elem_of_pks_existsb cas_CovPk (d_CovenantSigs d) pk) in Hn by done.
  rewrite (elem_of_pks_existsb si_Pk _ pk), (elem_of_pks_existsb cas_CovPk _ pk), E1, E2 in Hn by (intros x; apply bool_decide_ext; naive_solver).
  case_bool_decide; done.
Qed.

Lemma covenant_signed p d pk raw sigs usig uraw usigs P xsig info uinfo si ui usi utx : signed_with p d info uinfo si ui usi utx →
  pk ∈ sp_CovenantPks p → pk ∉ cas_CovPk <$> d_CovenantSigs d →
  length raw = length (d_FpBtcPkList d) → ParseEncVerifyAdaptorSignatures (d_SlashingTx d) (StakingOutput info) si pk (d_FpBtcPkList d) raw = Ok sigs →
  ToBTCPK pk = Ok P → VerifyTransactionSigWithOutput utx (StakingOutput info) (GetPkScriptPath ui) P usig = Ok tt →
  length uraw = length (d_FpBtcPkList d) →
  ParseEncVerifyAdaptorSignatures (ud_SlashingTx (d_BtcUndelegation d)) (UnbondingOutput uinfo) usi pk (d_FpBtcPkList d) uraw = Ok usigs →
  signed p (AddCovenantSigs d pk (AdaptorSignature_Marshal <$> sigs) usig (AdaptorSignature_Marshal <$> usigs) xsig).
Proof using.
  intros [] Hpk Hnew Hl Hv HP Hu Hul Huv. exists info, uinfo, si, ui, usi, utx.
  split; try assumption.
  - apply Forall_app. split; [done|]. apply Forall_singleton. split; [done|]. by exists raw, sigs.
  - apply Forall_app. split; [done|]. apply Forall_singleton. split; [done|]. by exists uraw, usigs.
  - apply Forall_app. split; [done|]. apply Forall_singleton. by exists P.
  - cbn [AddCovenantSigs d_CovenantSigs]. rewrite fmap_app. apply NoDup_app. split_and!; [done| |apply NoDup_singleton].
    intros x Hx ->%list_elem_of_singleton. done.
  - cbn. rewrite !fmap_app. destruct sg_same0 as [-> ->]. done.
Qed.

Lemma AddCovenantSigs_ok hs s w req s' w' : dels_ok s → AddCovenantSigs_msg hs (s, w) req = Ok (s', w') → dels_ok s' ∧ params_kept s s'.
Proof using.
  intros Hok HC. unfold AddCovenantSigs_msg in HC. apply bind_Ok in HC as (di & Hdi & HC).
  apply getBTCDelWithParams_Ok in Hdi as (h & Hl & Hp). pose proof (Hok _ _ Hl) as [Hh (p & Hp' & Hsl & Hsg)]. rewrite Hp in Hp'. injection Hp' as <-.
  set (d := di_Delegation di) in *. set (p := di_Params di) in *. destruct Hsg as (info & uinfo & si & ui & usi & utx & Hsg). pose proof Hsg as [].
  destruct (HasCovenantPK p (mcs_Pk req)) eqn:Hpk; [|done]. cbn [negb] in HC.
  destruct (IsSignedByCovMember d (mcs_Pk req) && _) eqn:Hdup; [done|]. pose proof (not_signed_twice _ _ _ _ _ _ _ _ _ Hsg Hdup) as Hnew.
  apply bind_Ok in HC as (st & _ & HC). destruct (_ || _) in HC; [done|].
  destruct (Nat.eqb_spec (length (mcs_SlashingTxSigs req)) (length (d_FpBtcPkList d))) as [Hlen|]; [|done]. cbn [negb] in HC.
  rewrite sg_info0 in HC. cbn [must mbind outcome_bind] in HC. rewrite sg_si0 in HC. cbn [must mbind outcome_bind] in HC.
  apply bind_Ok in HC as (sigs & Hsigs & HC). apply wrap_as_Ok in Hsigs.
  destruct (Nat.eqb_spec (length (mcs_SlashingUnbondingTxSigs req)) (length (d_FpBtcPkList d))) as [Hulen|]; [|done]. cbn [negb] in HC.
  rewrite sg_utx0 in HC. cbn [must mbind outcome_bind] in HC. rewrite sg_ui0 in HC. cbn [must mbind outcome_bind] in HC.
  apply bind_Ok in HC as (P & HP & HC). unfold MustToBTCPK in HP. rewrite must_Ok in HP. apply bind_Ok in HC as ([] & Hu & HC). apply wrap_as_Ok in Hu.
  unfold index in HC. rewrite sg_uout0 in HC. cbn [mbind outcome_bind] in HC. rewrite sg_uinfo0 in HC. cbn [must mbind outcome_bind] in HC.
  rewrite sg_usi0 in HC. cbn [must mbind outcome_bind] in HC. apply bind_Ok in HC as (usigs & Husigs & HC). apply wrap_as_Ok in Husigs.
  apply bind_Ok in HC as ([] & _ & HC). apply bind_Ok in HC as (s1 & Hadd & HC). injection HC as <- <-.
  unfold addCovenantSigsToBTCDelegation in Hadd. apply bind_Ok in Hadd as (q & _ & Hadd). apply bind_Ok in Hadd as (s2 & Hset & Hadd).
  set (d' := AddCovenantSigs _ _ _ _ _ _) in Hset, Hadd. apply (setBTCDelegation_Ok _ _ h) in Hset; [|exact Hh]. subst s2.
  assert (Hok' : dels_ok (set_btcDelegations s (<[h := d']> (btcDelegations s)))).
  { eapply (dels_ok_insert s _ h d'); [done| |done|done]. split; [exact Hh|]. exists p. split_and!; [exact Hp|by apply (slashable_core d)|].
    apply existsb_exists in Hpk as (x & Hin & Hx). apply bool_decide_eq_true in Hx as ->. apply list_elem_of_In in Hin.
    eapply covenant_signed; [exact Hsg|exact Hin|exact Hnew|exact Hlen|exact Hsigs|exact HP|exact Hu|exact Hulen|exact Husigs]. }
  destruct (_ && _ && _) in Hadd; [|by injection Hadd as <-]. apply bind_Ok in Hadd as (x & _ & [= <-]). split; [|done]. by eapply dels_ok_same.
Qed.

(** *** New delegations *)

Lemma CreateKeeper_ok ctx k hs s w pm s' w' : dels_ok s → parsed_ok pm → CreateBTCDelegation_keeper ctx k hs (s, w) pm = Ok (s', w') →
  dels_ok s' ∧ params_kept s s'.
Proof using SL.
  intros Hok Hpm HC. unfold CreateBTCDelegation_keeper in HC. apply bind_Ok in HC as ([] & _ & HC). case_bool_decide; [done|].
  apply bind_Ok in HC as ([] & _ & HC). apply bind_Ok in HC as ([[ti po] pv] & Hti & HC). apply bind_Ok in HC as (p & Hp & HC).
  destruct po as [p'|]; [|done]. injection Hp as ->. apply bind_Ok in HC as (idx & Hval & HC). destruct (_ && _) in HC; [done|].
  apply bind_Ok in HC as (w1 & _ & HC). apply bind_Ok in HC as (se & _ & HC). apply bind_Ok in HC as (s1 & Hadd & HC). injection HC as <- <-.
  apply wrapf_Ok in Hadd. set (d := mkDel _ _ _ _ _ _ _ _ _ _ _ _ _ _ _ _ _ _) in Hadd.
  assert (Hgp : GetParamsByVersion s pv = Some p).
  { unfold getTimeInfoAndParams, GetParamsForBtcHeight in Hti. destruct (StakingTxProofOfInclusion pm).
    - apply bind_Ok in Hti as (x & _ & Hti). apply bind_Ok in Hti as ([y z] & Hy & Hti). injection Hti as -> -> ->.
      destruct (heightToVersionMap s); [|done]. apply bind_Ok in Hy as (v & _ & [= ? ?]). by subst.
    - apply bind_Ok in Hti as (x & _ & Hti). apply bind_Ok in Hti as ([y z] & Hy & Hti). injection Hti as <- -> ->.
      destruct (heightToVersionMap s); [|done]. apply bind_Ok in Hy as (v & _ & [= ? ?]). by subst. }
  pose proof (po_stx _ Hpm) as Hstx. destruct (AddBTCDelegation_Ok s d _ s1 Hstx Hadd) as [Hb Hk]. split; [|done].
  eapply (dels_ok_insert s s1 _ d Hok); [|done|apply Hk]. split; [by eexists|]. exists p. split; [done|].
  assert (slashable p d) as Hsl by (by apply Validate_accepted). split; [done|]. by apply slashable_unsigned.
Qed.

(** ** Histories *)

(** The steps of the module from its genesis: message handlers, with [n] parameter
    updates, and changes of other stores by the begin blocker and the finality module. *)
Inductive staking_history : nat → StakingState → Prop :=
  | sh_genesis s : btcDelegations s = ∅ → stakingParams s = ∅ → heightToVersionMap s = None → staking_history 0 s
  | sh_create n s ctx k hs w req s' w' : staking_history n s → typed_create req → CreateBTCDelegation ctx k hs (s, w) req = Ok (s', w') → staking_history n s'
  | sh_expand n s ctx k hs w req s' w' : staking_history n s → typed_create (mse_Del req) → BtcStakeExpand ctx k hs (s, w) req = Ok (s', w') →
      staking_history n s'
  | sh_include n s k hs w req s' w' : staking_history n s → AddBTCDelegationInclusionProof k hs (s, w) req = Ok (s', w') → staking_history n s'
  | sh_covenant n s hs w req s' w' : staking_history n s → AddCovenantSigs_msg hs (s, w) req = Ok (s', w') → staking_history n s'
  | sh_undelegate n s k hs w req s' w' : staking_history n s → BTCUndelegate k hs (s, w) req = Ok (s', w') → staking_history n s'
  | sh_params n s authority w r p s' : staking_history n s → UpdateParams authority w s r p = Ok s' → staking_history (S n) s'
  | sh_other n s s' : staking_history n s → btcDelegations s' = btcDelegations s → params_kept s s' → staking_history n s'.

Lemma aligned_kept s s' : params_kept s s' → aligned s → aligned s'.
Proof using.
  intros [Ep Em] [Hp Hd Ha He]. split; unfold pairs_of; rewrite ?Ep, ?Em; done.
Qed.

Lemma SetParams_kept s p s' : aligned s → Z.of_nat (length (pairs_of s)) < 2 ^ 32 → SetParams s p = Ok s' →
  btcDelegations s' = btcDelegations s ∧ ∀ v q, GetParamsByVersion s v = Some q → GetParamsByVersion s' v = Some q.
Proof using.
  intros Hal Hlen HC. apply bind_Ok in HC as ([] & _ & HC). apply bind_Ok in HC as (pairs & _ & HC). apply bind_Ok in HC as ([] & _ & [= <-]).
  split; [done|]. intros v q Hq. unfold GetParamsByVersion in *. cbn. rewrite lookup_insert_ne; [done|].
  destruct (al_dom s Hal v q Hq) as [_ ?]. rewrite aligned_next by done. lia.
Qed.

Lemma dels_ok_params s s' : dels_ok s → btcDelegations s' = btcDelegations s →
  (∀ v q, GetParamsByVersion s v = Some q → GetParamsByVersion s' v = Some q) → dels_ok s'.
Proof using.
  intros Hok Hb Hp h d Hl. rewrite Hb in Hl. destruct (Hok h d Hl) as [? (p & ? & ? & ?)]. split; [done|]. exists p. auto.
Qed.

Lemma BtcStakeExpand_ok ctx k hs s w req s' w' : dels_ok s → typed_create (mse_Del req) → BtcStakeExpand ctx k hs (s, w) req = Ok (s', w') →
  dels_ok s' ∧ params_kept s s'.
Proof using SL.
  intros Hok Ht HC. unfold BtcStakeExpand in HC. apply bind_Ok in HC as (di & _ & HC). destruct (EqualFold _ _); [|done]. cbn [negb] in HC.
  apply bind_Ok in HC as (pm & Hpm & HC). apply wrapf_Ok in Hpm. apply parseExpand_ok in Hpm; [|done]. apply bind_Ok in HC as (fp & _ & HC).
  apply bind_Ok in HC as (pfp & _ & HC). case_bool_decide; [|done]. cbn [negb] in HC. apply bind_Ok in HC as ([] & _ & HC).
  destruct (IsFinalityProviderDeleted _ _); [done|]. apply bind_Ok in HC as (se & _ & HC).
  match type of HC with (if ?b then _ else _) = _ => destruct b end; [done|].
  apply bind_Ok in HC as (in0 & _ & HC). destruct (_ =? _) in HC; [|done]. cbn [negb] in HC. apply bind_Ok in HC as ([] & _ & HC).
  apply bind_Ok in HC as (tip & _ & HC). apply bind_Ok in HC as (pv & _ & HC). apply bind_Ok in HC as (cp & _ & HC).
  destruct (hasSufficientCovenantOverlap _ _ _); [|done]. cbn [negb] in HC. by eapply CreateKeeper_ok.
Qed.

Lemma BTCUndelegate_ok k hs s w req s' w' : dels_ok s → BTCUndelegate k hs (s, w) req = Ok (s', w') → dels_ok s' ∧ params_kept s s'.
Proof using.
  intros Hok HC. unfold BTCUndelegate in HC. apply bind_Ok in HC as (di & Hdi & HC). apply getBTCDelWithParams_Ok in Hdi as (h & Hl & _).
  apply bind_Ok in HC as (st & _ & HC). destruct (_ || _) in HC; [done|]. apply bind_Ok in HC as (stx & _ & HC). apply bind_Ok in HC as (proof & _ & HC).
  apply bind_Ok in HC as (key & _ & HC). apply bind_Ok in HC as (hdr & _ & HC). apply bind_Ok in HC as (bh & _ & HC).
  apply bind_Ok in HC as (s1 & H1 & HC).
  assert (Hs1 : dels_ok s1 ∧ params_kept s s1).
  { match type of H1 with (if ?b then _ else _) = _ => destruct b end.
    - apply bind_Ok in H1 as (ed & Hed & H1). unfold deref in Hed. destruct (btcDelegations s !! TxHash stx) as [x|] eqn:Hx; [|done]. injection Hed as ->.
      apply wrap_as_Ok in H1. by eapply AddInclusion_ok.
    - destruct (negb _); [done|]. by injection H1 as <-. }
  destruct Hs1 as [Hok1 Hk1].
  do 6 (apply bind_Ok in HC as (? & _ & HC)). apply bind_Ok in HC as (utx & _ & HC). apply bind_Ok in HC as (s2 & H2 & HC). injection HC as <- <-.
  assert (del_ok s1 h (di_Delegation di)) as Hd.
  { destruct (Hok h _ Hl) as [? (p & Hp & ? & ?)]. split; [done|]. exists p. unfold GetParamsByVersion in *. destruct Hk1 as [-> _]. done. }
  destruct (btcUndelegate_ok _ _ _ _ _ _ Hok1 Hd H2) as [? ?]. split; [done|]. by eapply params_kept_trans.
Qed.

Lemma history_ok n s : staking_history n s → Z.of_nat n < 2 ^ 32 → dels_ok s ∧ aligned s ∧ (length (pairs_of s) ≤ n)%nat.
Proof using SL.
  assert (Hkeep : ∀ n s s', aligned s ∧ (length (pairs_of s) ≤ n)%nat → dels_ok s' ∧ params_kept s s' →
    dels_ok s' ∧ aligned s' ∧ (length (pairs_of s') ≤ n)%nat).
  { intros m s0 s' [Ha Hl] [Hd Hk]. split_and!; [done|by eapply aligned_kept|]. destruct Hk as [_ Em]. unfold pairs_of. by rewrite Em. }
  induction 1 as [s Hb Hp Hm|n s ctx k hs w req s' w' _ IH Ht HC|n s ctx k hs w req s' w' _ IH Ht HC|n s k hs w req s' w' _ IH HC
    |n s hs w req s' w' _ IH HC|n s k hs w req s' w' _ IH HC|n s authority w r p s' _ IH HC|n s s' _ IH Hb Hk]; intros Hn.
  { split_and!; [intros h d Hl; by rewrite Hb in Hl| |unfold pairs_of; rewrite Hm; simpl; lia].
    split; unfold pairs_of; rewrite ?Hm, ?Hp; simpl; intros *; intros; done. }
  all: destruct IH as (Hok & Hal & Hlen); [lia|].
  - eapply Hkeep; [done|]. apply bind_Ok in HC as (pm & Hpm & HC). apply wrapf_Ok in Hpm. apply parseCreate_ok in Hpm as [? _]; [|done]. by eapply CreateKeeper_ok.
  - eapply Hkeep; [done|]. by eapply BtcStakeExpand_ok.
  - eapply Hkeep; [done|]. apply bind_Ok in HC as (d & Hd & HC). unfold GetBTCDelegation in Hd. destruct (NewHashFromStr _) as [h|]; [|done].
    cbn [fst] in Hd. destruct (btcDelegations s !! h) as [x|] eqn:Hx; [|done]. injection Hd as ->. destruct (IsStakeExpansion d); [done|].
    apply bind_Ok in HC as (s1 & H1 & HC). injection HC as <- <-. by eapply AddInclusion_ok.
  - eapply Hkeep; [done|]. by eapply AddCovenantSigs_ok.
  - eapply Hkeep; [done|]. by eapply BTCUndelegate_ok.
  - unfold UpdateParams in HC. destruct (negb _); [done|]. destruct (_ <=? _); [done|].
    destruct (SetParams_aligned s p s' Hal ltac:(lia) HC). destruct (SetParams_kept s p s' Hal ltac:(lia) HC).
    split_and!; [by eapply dels_ok_params|done|lia].
  - eapply Hkeep; [done|]. split; [|done]. eapply dels_ok_same; [done|done|apply Hk].
Qed.

(** C4: Every stored BTC delegation can be slashed. After any history of messages and
    parameter updates, a stored delegation has parameters of a stored version under
    which: its slashing transaction spends exactly its staking output, pays at least the
    slashing rate to the slashing script and the rest to the staker under the unbonding
    time lock, within the fee; its unbonding transaction spends the same output for
    exactly the unbonding fee, and has a slashing transaction of its own; the staker has
    signed both slashing transactions over the slashing path. Every covenant member
    recorded is in the committee, has signed once, and its signatures over both slashing
    transactions and the unbonding transaction were verified. *)
Theorem delegations_slashable n s h d : staking_history n s → Z.of_nat n < 2 ^ 32 → btcDelegations s !! h = Some d →
  (∃ stx, NewBTCTxFromBytes (d_StakingTx d) = Ok stx ∧ TxHash stx = h) ∧
  ∃ p, GetParamsByVersion s (d_ParamsVersion d) = Some p ∧ slashable p d ∧ signed p d.
Proof using SL. intros Hh Hn Hl. destruct (history_ok n s Hh Hn) as [Hok _]. by apply Hok. Qed.

End proofs.
