(* ===== verification/SlashingPath.v ===== *)
(** * Slashing a stake on Bitcoin

    The end of the slashing story: once the secret key of a finality provider is known,
    the slashing transaction of each of its delegations can be completed, and the
    witness that the code assembles satisfies the script that the code put into the
    staking output. The script opcodes have the meaning that BIP-342 gives them; btcd's
    builder and engine are related to it by a class. *)

From S2P Require Import Prelude Bytes Store BbnTypes Sha256 Curve Eots AdaptorSig BtcStaking Delegations Coins TxFormatter LightClient Spv StakingTx.
From S2P Require Import Pop StakingParams StakingMsgs StakingProofs.

(** ** Tapscript

    Elements of the stack are data or numbers. A signature check of an empty signature
    is false; any other signature has to be valid. *)

Inductive stack_item := SNum (n : Z) | SBytes (b : bytes).

Section tapscript.
Context {curve : Curve} {SV : SchnorrVerification} {SB : StakingBtcd}.

Definition checksig (hash pk sig : bytes) : option Z :=
  if (length sig =? 0)%nat then Some 0
  else match ParseSignature sig with
  | Ok z => if SchnorrVerify hash pk z then Some 1 else None
  | _ => None
  end.

Definition run_item (hash : bytes) (item : ScriptItem) (st : list stack_item) : option (list stack_item) :=
  match item, st with
  | AddData b, _ => Some (SBytes b :: st)
  | AddInt64 n, _ => Some (SNum n :: st)
  | AddOp OP_CHECKSIG, SBytes pk :: SBytes sig :: st => b ← checksig hash pk sig; Some (SNum b :: st)
  | AddOp OP_CHECKSIGVERIFY, SBytes pk :: SBytes sig :: st => b ← checksig hash pk sig; if b =? 1 then Some st else None
  | AddOp OP_CHECKSIGADD, SBytes pk :: SNum n :: SBytes sig :: st => b ← checksig hash pk sig; Some (SNum (n + b) :: st)
  | AddOp OP_NUMEQUAL, SNum a :: SNum b :: st => Some (SNum (if a =? b then 1 else 0) :: st)
  | AddOp OP_NUMEQUALVERIFY, SNum a :: SNum b :: st => if a =? b then Some st else None
  | _, _ => None
  end.
Fixpoint run (hash : bytes) (items : list ScriptItem) (st : list stack_item) : option (list stack_item) :=
  match items with
  | [] => Some st
  | item :: items => st ← run_item hash item st; run hash items st
  end.

Lemma run_app hash l1 l2 st : run hash (l1 ++ l2) st = (st' ← run hash l1 st; run hash l2 st').
Proof using. revert st. induction l1 as [|x l1 IH]; intros st; [done|]. simpl. destruct (run_item hash x st); simpl; auto. Qed.

(** [Tapscript] executes a script on a stack, given from its top, for a signature hash. *)
Class TapscriptEngine := {
  Tapscript : bytes → bytes → list bytes → bool;
  Tapscript_run hash scripts items stack : Forall2 (λ it b, BuilderScript it = Ok b) items scripts →
    run hash (concat items) (SBytes <$> stack) = Some [SNum 1] → Tapscript hash (concat scripts) stack = true
}.

(** Signing and serialization in btcd, and signature hashes that do not cover the
    witness. *)
Definition with_witness (tx : MsgTx) (w : list bytes) : MsgTx :=
  mkMsgTx (Version tx) ((λ i, mkTxIn (PreviousOutPoint i) (SignatureScript i) w (Sequence i)) <$> TxIns tx) (TxOuts tx) (LockTime tx).
Class SigningLaws : Prop := {
  order_32 : order ≤ 2 ^ 256;
  ParseSignature_range b r s : ParseSignature b = Ok (r, s) → 0 ≤ r < field_size ∧ 0 ≤ s < order;
  ParseSignature_Serialize r s : 0 ≤ r < field_size → 0 ≤ s < order → ParseSignature (SerializeSignature (r, s)) = Ok (r, s);
  SerializeSignature_length z : length (SerializeSignature z) = 64%nat;
  RawTxInTapscriptSignature_ok tx i prev script sk h : TapscriptSigHash tx i prev script = Ok h → modn sk ≠ 0 →
    ∃ b z, RawTxInTapscriptSignature tx i prev script sk = Ok b ∧ ParseSignature b = Ok z ∧ SchnorrVerify h (SerializePubKey (pmul sk G)) z = true;
  TapscriptSigHash_witness tx i prev script w : TapscriptSigHash (with_witness tx w) i prev script = TapscriptSigHash tx i prev script;
  ControlBlock_ok leaves i : is_Some (leaves !! i) → ∃ b, ControlBlock leaves i = Ok b
}.

Context {SL : SigningLaws}.

Lemma checksig_serialized hash pk r s : 0 ≤ r < field_size → 0 ≤ s < order → SchnorrVerify hash pk (r, s) = true →
  checksig hash pk (SerializeSignature (r, s)) = Some 1.
Proof using SL.
  intros Hr Hs HV. unfold checksig. rewrite SerializeSignature_length. cbn [Nat.eqb]. by rewrite ParseSignature_Serialize, HV.
Qed.

(** The signature slots of a multisig: empty, or valid for the key. *)
Definition slot_ok (hash pk : bytes) (sig : option (Z * Z)) : Prop :=
  match sig with
  | None => True
  | Some (r, s) => 0 ≤ r < field_size ∧ 0 ≤ s < order ∧ SchnorrVerify hash pk (r, s) = true
  end.
Definition slots (sigs : list (option (Z * Z))) : Z := Z.of_nat (length (omap id sigs)).

Lemma slot_checksig hash pk sig : slot_ok hash pk sig → checksig hash pk (witnessSig sig) = Some (if sig then 1 else 0).
Proof using SL. destruct sig as [[r s]|]; [|done]. intros (Hr & Hs & HV). by apply checksig_serialized. Qed.

Lemma run_multisig_add hash pts sigs n rest : Forall2 (λ P sig, slot_ok hash (SerializePubKey P) sig) pts sigs →
  run hash (multiSigKeys false pts) (SNum n :: (SBytes <$> (witnessSig <$> sigs)) ++ rest) = Some (SNum (n + slots sigs) :: rest).
Proof using SL.
  intros HF. revert n. induction HF as [|P sig pts sigs Hs HF IH]; intros n; [by rewrite Z.add_0_r|].
  cbn [multiSigKeys run run_item fmap list_fmap app mbind option_bind]. rewrite slot_checksig by done. cbn [mbind option_bind].
  rewrite IH. do 3 f_equal. unfold slots. destruct sig; cbn [omap list_omap id]; [cbn [length]|]; lia.
Qed.
Lemma run_multisig hash P pts sig sigs rest : Forall2 (λ P sig, slot_ok hash (SerializePubKey P) sig) (P :: pts) (sig :: sigs) →
  run hash (multiSigKeys true (P :: pts)) ((SBytes <$> (witnessSig <$> (sig :: sigs))) ++ rest) = Some (SNum (slots (sig :: sigs)) :: rest).
Proof using SL.
  intros [Hs HF]%Forall2_cons. cbn [multiSigKeys run run_item fmap list_fmap app mbind option_bind]. rewrite slot_checksig by done.
  cbn [mbind option_bind]. rewrite (run_multisig_add hash pts sigs) by done. do 3 f_equal. unfold slots. destruct sig; cbn [omap list_omap id]; [cbn [length]|]; lia.
Qed.

(** ** Order of keys and signatures

    The script lists the keys in ascending order; the witness has the signatures in
    descending order of keys, so that the first key finds its signature on top. *)

Lemma StronglySorted_reverse {A} (R : A → A → Prop) (l : list A) : StronglySorted R l → StronglySorted (flip R) (reverse l).
Proof using.
  induction 1 as [|x l Hl IH Hx]; [constructor|]. rewrite reverse_cons. clear Hl. rewrite Forall_forall in Hx.
  assert (Forall (λ y, flip R y x) (reverse l)) as Hr by (apply Forall_forall; intros y Hy; apply Hx; by rewrite elem_of_reverse in Hy).
  clear Hx. induction IH as [|y m Hm IHm Hy]; [repeat constructor|]. apply Forall_cons in Hr as [Hyx Hr]. simpl. constructor; [by apply IHm|].
  apply Forall_app. split; [done|]. by apply Forall_singleton.
Qed.

Lemma SortKeys_order pts : SerializePubKey <$> SortKeys pts = reverse (SortBIP340PKs (SerializePubKey <$> pts)).
Proof using.
  eapply (StronglySorted_unique_strong (λ a b, bytes_less b a = false)).
  - intros a b _ _ Hab Hba. by apply bytes_less_total.
  - unfold SortKeys. assert (Hs : StronglySorted (λ P Q, bytes_less (SerializePubKey Q) (SerializePubKey P) = false)
      (sort_stable (λ a b, bytes_less (SerializePubKey a) (SerializePubKey b)) pts)).
    { apply sort_stable_sorted; [intros ? ?; apply bytes_less_asym|]. unfold may_precede. intros ? ? ? ? ?. eapply bytes_less_neg_trans; eauto. }
    induction Hs as [|P l Hl IH HP]; [constructor|]. rewrite fmap_cons. constructor; [done|]. by apply Forall_fmap.
  - apply (StronglySorted_reverse (λ a b, bytes_less a b = false)). unfold SortBIP340PKs.
    apply sort_stable_sorted; [intros ? ?; apply bytes_less_asym|]. unfold may_precede. intros ? ? ? ? ?. eapply bytes_less_neg_trans; eauto.
  - rewrite reverse_Permutation, SortBIP340PKs_perm. unfold SortKeys. by rewrite sort_stable_perm.
Qed.

End tapscript.

Section covenant.
Context {curve : Curve} {claws : CurveLaws} {CP : CompressedPoints} {CL : CompressedLaws CP} {SV : SchnorrVerification}
  {BT : BtcTx MsgTx} {SB : StakingBtcd} {SL : SigningLaws}.

(** ** The committee's part of the witness *)

Lemma NewAdaptorSignatureFromBytes_range b sig : NewAdaptorSignatureFromBytes b = Ok sig → as_R0 sig ≠ infinity ∧ 0 ≤ as_s sig < order.
Proof using.
  intros HC. apply bind_Ok in HC as (a & _ & HC). destruct (ParseJacobian _) as [r0|]; [|done]. cbn zeta in HC. destruct (Z.leb_spec order (be_value (take 32 (drop 33 a)))); [done|].
  unfold newAdaptorSignature in HC. case_bool_decide; [done|]. injection HC as <-. split; [done|]. split; [apply be_value_nonneg|done].
Qed.

(** The verified signature of one member for a single finality provider. *)
Lemma cov_valid_one p fp FP tx sltx i out si cas h : cov_valid p [fp] tx out si cas → NewBTCTxFromBytes tx = Ok sltx → TxIns sltx = [i] →
  TapscriptSigHash sltx 0 [(PreviousOutPoint i, out)] (GetPkScriptPath si) = Ok h → ToBTCPK fp = Ok FP →
  ∃ sig P ek, cas_AdaptorSigs cas = [AdaptorSignature_Marshal sig] ∧ NewAdaptorSignatureFromBytes (AdaptorSignature_Marshal sig) = Ok sig ∧
    ToBTCPK (cas_CovPk cas) = Ok P ∧ NewEncryptionKeyFromBTCPK FP = Ok ek ∧ EncVerify sig P ek h = Ok tt.
Proof using CL SL.
  intros (_ & raw & sigs & Hlen & Hv & Hm) Htx Hin Hh HFP. destruct raw as [|r [|]]; [done| |done].
  unfold ParseEncVerifyAdaptorSignatures in Hv. cbn [imap foldM] in Hv. apply bind_Ok in Hv as (acc & Hacc & [= <-]). cbn [fst snd compose] in Hacc.
  apply bind_Ok in Hacc as (sig & Hsig & Hacc). cbn [index lookup list_lookup mbind outcome_bind] in Hacc.
  unfold MustToBTCPK in Hacc. rewrite HFP in Hacc. cbn [must mbind outcome_bind] in Hacc.
  apply bind_Ok in Hacc as (ek & Hek & Hacc). apply bind_Ok in Hacc as (P & HP & Hacc). rewrite must_Ok in HP.
  apply bind_Ok in Hacc as ([] & Hver & [= <-]).
  destruct (EncVerifyAdaptorSignature _ _ _ _ _ _) as [[]| |] eqn:Hev in Hver; [|done..]. unfold EncVerifyAdaptorSignature in Hev.
  rewrite Htx in Hev. cbn [mbind outcome_bind] in Hev. unfold EncVerifyTransactionSigWithOutput in Hev. rewrite Hin, Hh in Hev. cbn [mbind outcome_bind] in Hev.
  pose proof (NewAdaptorSignatureFromBytes_range _ _ Hsig) as [HR Hs].
  exists sig, P, ek. split_and!; [done| |done|done|done]. apply NewAdaptorSignature_Marshal; [done|done|apply order_32].
Qed.

Lemma filter_subset_perm (a b : list bytes) : NoDup a → NoDup b → (∀ x, x ∈ b → x ∈ a) → filter (.∈ b) a ≡ₚ b.
Proof using.
  intros Ha Hb Hsub. apply NoDup_Permutation; [by apply NoDup_filter|done|]. intros x. rewrite list_elem_of_filter. naive_solver.
Qed.

Lemma omap_lookup_count {A} (m : gmap string A) (l : list bytes) (b : list bytes) : (∀ pk, is_Some (m !! MarshalHex pk) ↔ pk ∈ b) →
  length (omap id ((λ pk, m !! MarshalHex pk) <$> l)) = length (filter (.∈ b) l).
Proof using.
  intros Hm. induction l as [|x l IH]; [done|]. rewrite filter_cons. cbn [fmap list_fmap omap list_omap id].
  destruct (m !! MarshalHex x) as [a|] eqn:E.
  - rewrite decide_True by (apply Hm; by rewrite E). cbn [length]. by f_equal.
  - rewrite decide_False by (rewrite <- Hm, E; by intros [? ?]). done.
Qed.

(** The map keeps one valid signature per member that signed. *)
Lemma GetOrderedCovenantSignatures_Ok (Q : bytes → AdaptorSignature → Prop) l p :
  Forall (λ cas, ∃ b sig, cas_AdaptorSigs cas !! 0%nat = Some b ∧ NewAdaptorSignatureFromBytes b = Ok sig ∧ Q (cas_CovPk cas) sig) l →
  NoDup (cas_CovPk <$> l) → (∀ pk, pk ∈ cas_CovPk <$> l → pk ∈ sp_CovenantPks p) → NoDup (sp_CovenantPks p) →
  ∃ ordered, GetOrderedCovenantSignatures 0 l p = Ok ordered ∧
    Forall2 (λ pk o, match o with Some sig => Q pk sig | None => True end) (SortBIP340PKs (sp_CovenantPks p)) ordered ∧
    length (omap id ordered) = length l.
Proof using.
  intros Hl Hnd Hsub Hcov. unfold GetOrderedCovenantSignatures. set (f := λ (m : gmap string AdaptorSignature) cas, _).
  assert (∃ m, foldM f ∅ l = Ok m ∧ (∀ pk, is_Some (m !! MarshalHex pk) ↔ pk ∈ cas_CovPk <$> l) ∧ (∀ pk sig, m !! MarshalHex pk = Some sig → Q pk sig)) as (m & -> & Hdom & HQ).
  { clear Hnd Hsub Hcov. induction l as [|cas l IH] using rev_ind.
    { exists ∅. split_and!; [done| |done]. intros pk. rewrite lookup_empty. split; [by intros [? ?]|by intros ?%not_elem_of_nil]. }
    apply Forall_app in Hl as [Hl Hc]. apply Forall_inv in Hc as (b & sig & Hb & Hs & Hq). destruct (IH Hl) as (m & Hm & Hdom & HQ).
    exists (<[MarshalHex (cas_CovPk cas) := sig]> m). rewrite foldM_app, Hm. cbn [mbind outcome_bind foldM]. unfold f at 1. rewrite Hb, Hs. split_and!; [done| |].
    - intros pk. rewrite lookup_insert_is_Some, Hdom, fmap_app, elem_of_app. cbn [fmap list_fmap]. rewrite list_elem_of_singleton.
      destruct (decide (pk = cas_CovPk cas)) as [->|Hne]; [tauto|].
      assert (MarshalHex (cas_CovPk cas) ≠ MarshalHex pk) by (intros E; apply Hne; symmetry; by apply (inj MarshalHex)). naive_solver.
    - intros pk s [[E <-]|[_ Hs']]%lookup_insert_Some; [by apply (inj MarshalHex) in E as <-|by apply HQ]. }
  cbn [mbind outcome_bind]. eexists. split; [done|]. split.
  - apply Forall2_fmap_r, Forall_Forall2_diag, Forall_forall. intros pk _. unfold compose. cbn beta.
    pose proof (HQ pk) as HQpk. destruct (m !! MarshalHex pk) as [a|]; [by apply HQpk|done].
  - rewrite (omap_lookup_count m _ (cas_CovPk <$> l)) by done. rewrite filter_subset_perm; [by rewrite length_fmap| |done|].
    + by rewrite SortBIP340PKs_perm.
    + intros x Hx. rewrite SortBIP340PKs_perm. by apply Hsub.
Qed.

(** Decryption stops at the quorum; the signatures after it are left out. *)
Lemma decryptCovenantSigs_Ok dk (R : bytes → Z * Z → Prop) pks ordered n q : 0 ≤ n < q → q ≤ n + Z.of_nat (length (omap id ordered)) →
  Forall2 (λ pk o, match o with Some sig => ∃ z, Decrypt sig dk = Ok z ∧ R pk z | None => True end) pks ordered →
  ∃ dsigs, decryptCovenantSigs dk ordered n q = Ok (dsigs, q) ∧ slots dsigs = q - n ∧
    Forall2 (λ pk ds, match ds with Some z => R pk z | None => True end) pks dsigs.
Proof using.
  intros Hn Hq HF. revert n Hn Hq. induction HF as [|pk o pks ordered Ho HF IH]; intros n Hn Hq; [simpl in Hq; lia|].
  assert (Hnone : Forall2 (λ pk ds, match ds with Some z => R pk z | None => True end) pks (const None <$> ordered)).
  { clear -HF. induction HF; constructor; done. }
  assert (Hzero : ∀ l : list (option AdaptorSignature), slots (const None <$> l) = 0) by (intros l; induction l as [|x l IHl]; [done|exact IHl]).
  cbn [decryptCovenantSigs]. destruct o as [sig|].
  - destruct Ho as (z & -> & HR). cbn [wrapf mbind outcome_bind fst snd]. cbn [omap list_omap id length] in Hq.
    destruct (Z.eqb_spec (n + 1) q) as [E|Hne].
    + exists (Some z :: (const None <$> ordered)). rewrite E. split_and!; [done| |by constructor].
      unfold slots in *. cbn [omap list_omap id length]. specialize (Hzero ordered). lia.
    + destruct (IH (n + 1)) as (ds & -> & Hsl & Hds); [lia|lia|]. exists (Some z :: ds). cbn [mbind outcome_bind fst snd]. split_and!; [done| |by constructor].
      unfold slots in *. cbn [omap list_omap id length]. lia.
  - cbn [mbind outcome_bind fst snd]. destruct (Z.eqb_spec n q); [lia|]. destruct (IH n) as (ds & -> & Hsl & Hds); [lia|exact Hq|].
    exists (None :: ds). cbn [mbind outcome_bind fst snd]. split_and!; [done|exact Hsl|by constructor].
Qed.

Lemma slots_reverse sigs : slots (reverse sigs) = slots sigs.
Proof using. unfold slots. f_equal. apply Permutation_length. by rewrite reverse_Permutation. Qed.

(** ** The script of the slashing path *)

Definition covenantItems (covs : list point) (q : Z) : list ScriptItem :=
  match covs with
  | [k] => [AddData (SerializePubKey k); AddOp OP_CHECKSIG]
  | _ => multiSigKeys true (SortKeys covs) ++ [AddInt64 q; AddOp OP_NUMEQUAL]
  end.

Lemma checkForDuplicateKeys_NoDup staker fps covs : checkForDuplicateKeys staker fps covs = Ok tt → NoDup (SerializePubKey <$> covs).
Proof using.
  intros (m & Hm & _)%bind_Ok.
  assert (Hinv : ∀ l (acc r : gset string), foldM (λ keyMap key,
    if bool_decide (hex_encode (SerializePubKey key) ∈ keyMap) then Err ErrDuplicatedKeyInScript
    else Ok ({[hex_encode (SerializePubKey key)]} ∪ keyMap)) acc l = Ok r →
    NoDup (SerializePubKey <$> l) ∧ ∀ k, k ∈ l → hex_encode (SerializePubKey k) ∉ acc).
  { clear Hm m. induction l as [|k l IH]; intros acc r Hr; [split; [constructor|by intros k ?%not_elem_of_nil]|].
    cbn [foldM] in Hr. apply bind_Ok in Hr as (acc' & Ha & Hr). case_bool_decide as Hin; [done|].
    assert (acc' = {[hex_encode (SerializePubKey k)]} ∪ acc) as -> by congruence. clear Ha.
    apply IH in Hr as [Hnd Hno]. split.
    - rewrite fmap_cons. constructor; [|done]. intros (k' & E & Hk')%list_elem_of_fmap. apply (Hno k' Hk'). rewrite <- E. apply elem_of_union_l. by apply elem_of_singleton.
    - intros k' [->|Hk']%elem_of_cons; [done|]. intros Hin'. apply (Hno k' Hk'). by apply elem_of_union_r. }
  apply Hinv in Hm as [Hnd _]. rewrite fmap_app in Hnd. by apply NoDup_app in Hnd as (_ & _ & ?).
Qed.

Lemma slashing_script staker FP covs q time scripts : newBabylonScriptPaths staker [FP] covs q time = Ok scripts →
  covs ≠ [] ∧ q ≤ Z.of_nat (length covs) ∧ NoDup (SerializePubKey <$> covs) ∧
  ∃ b1 b2 b3, slashingPathScript scripts = concat [b1; b2; b3] ∧
    Forall2 (λ it b, BuilderScript it = Ok b)
      [[AddData (SerializePubKey staker); AddOp OP_CHECKSIGVERIFY]; [AddData (SerializePubKey FP); AddOp OP_CHECKSIGVERIFY]; covenantItems covs q] [b1; b2; b3].
Proof using.
  intros HC. apply bind_Ok in HC as ([] & Hdup & HC). apply wrapf_Ok in Hdup. apply bind_Ok in HC as (tl & _ & HC). apply bind_Ok in HC as (b3 & H3 & HC).
  apply bind_Ok in HC as (b1 & H1 & HC). apply bind_Ok in HC as (b2 & H2 & [= <-]).
  assert (Hcov : covs ≠ [] ∧ q ≤ Z.of_nat (length covs) ∧ BuilderScript (covenantItems covs q) = Ok b3).
  { unfold buildMultiSigScript in H3. destruct covs as [|k rest]; [done|]. destruct (Z.ltb_spec (Z.of_nat (length (k :: rest))) q); [done|].
    split_and!; [done|lia|]. destruct rest as [|k2 rest]; [exact H3|]. apply bind_Ok in H3 as (sorted & Hs & H3).
    unfold prepareKeysForMultisigScript in Hs. destruct (_ <? 2)%nat; [done|]. injection Hs as <-. exact H3. }
  destruct Hcov as (Hne & Hq & Hb3). split_and!; [done|done| |].
  - by eapply checkForDuplicateKeys_NoDup.
  - exists b1, b2, b3. split; [done|]. repeat constructor; [exact H1| |exact Hb3].
    unfold buildMultiSigScript in H2. by destruct (Z.of_nat (length [FP]) <? 1).
Qed.

Lemma run_covenant hash covs q sigs : covs ≠ [] → 0 < q ≤ Z.of_nat (length covs) → slots sigs = q →
  Forall2 (λ P sig, slot_ok hash (SerializePubKey P) sig) (SortKeys covs) sigs →
  run hash (covenantItems covs q) (SBytes <$> (witnessSig <$> sigs)) = Some [SNum 1].
Proof using SL.
  intros Hne Hq Hsl HF. rewrite <- (app_nil_r (SBytes <$> (witnessSig <$> sigs))). destruct covs as [|k [|k2 rest]]; [done| |].
  - change (SortKeys [k]) with [k] in HF. destruct sigs as [|sig [|]]; [by inversion HF| |by inversion HF as [|? ? ? ? _ HF2]; inversion HF2].
    simpl in Hq. assert (q = 1) as -> by lia.
    change (covenantItems [k] 1) with (multiSigKeys true [k]). by rewrite run_multisig, Hsl.
  - cbn [covenantItems]. rewrite run_app. destruct (SortKeys (k :: k2 :: rest)) as [|P pts] eqn:E.
    { assert (Hl : length (SortKeys (k :: k2 :: rest)) = S (S (length rest))) by (unfold SortKeys; by rewrite sort_stable_length). by rewrite E in Hl. }
    destruct sigs as [|sig sigs]; [by inversion HF|]. rewrite run_multisig by done. rewrite Hsl. cbn [mbind option_bind run run_item]. by rewrite Z.eqb_refl.
Qed.

(** ** Keys *)

Lemma NewBTCPKs_serialize pks pts : NewBTCPKsFromBIP340PKs pks = Ok pts → SerializePubKey <$> pts = pks.
Proof using claws.
  unfold NewBTCPKsFromBIP340PKs. revert pts. induction pks as [|pk pks IH] using rev_ind; intros pts HC; [by injection HC as <-|].
  rewrite foldM_app in HC. apply bind_Ok in HC as (pts0 & H0 & HC). cbn [foldM] in HC. apply bind_Ok in HC as (pts1 & H1 & [= <-]).
  apply bind_Ok in H1 as (P & HP & [= <-]). unfold ToBTCPK in HP. destruct (ParsePubKey pk) as [Q|] eqn:E; [|done]. injection HP as <-.
  apply ParsePubKey_spec in E as (_ & _ & E). by rewrite fmap_app, (IH _ H0), <- E.
Qed.

Lemma ToBTCPK_Ok pk P : ToBTCPK pk = Ok P → SerializePubKey P = pk.
Proof using claws. unfold ToBTCPK. destruct (ParsePubKey pk) eqn:E; [|done]. intros [= <-]. by apply ParsePubKey_spec in E as (_ & _ & ?). Qed.

(** A key in its x-only form encrypts to the same secret. *)
Lemma encryption_key sk FP ek : modn sk ≠ 0 → ToBTCPK (SerializePubKey (pmul sk G)) = Ok FP → NewEncryptionKeyFromBTCPK FP = Ok ek →
  NewEncryptionKeyFromBTCPK (pmul sk G) = Ok ek.
Proof using claws.
  intros Hsk HFP Hek. pose proof (pmul_G_finite sk Hsk) as Hfin. unfold ToBTCPK in HFP. rewrite Parse_Serialize in HFP by done. injection HFP as <-.
  unfold NewEncryptionKeyFromBTCPK, NewEncryptionKeyFromJacobianPoint in *. rewrite bool_decide_eq_false_2 by done.
  case_bool_decide; [done|]. unfold even_point in Hek. destruct (py_odd (pmul sk G)) eqn:Hodd.
  - rewrite py_neg in Hek by done. rewrite Hodd in Hek. exact Hek.
  - rewrite Hodd in Hek. exact Hek.
Qed.

End covenant.

(** ** Completing a slashing transaction *)

Section spend.
Context {curve : Curve} {claws : CurveLaws} {CP : CompressedPoints} {CL : CompressedLaws CP} {SV : SchnorrVerification}
  {BT : BtcTx MsgTx} {SB : StakingBtcd} {SL : SigningLaws} {TE : TapscriptEngine}.

(** [tx] is [sltx] with a witness for its one input: the input spends [out] through one
    of the scripts the output commits to, and the script accepts the stack for the
    signature hash [h] of the transaction. *)
Definition spends (sltx : MsgTx) (out : TxOut) (h : bytes) (tx : MsgTx) : Prop :=
  ∃ i leaves n script sigs cb, TxIns sltx = [i] ∧ tx = with_witness sltx (sigs ++ [script; cb]) ∧
    TaprootPkScript leaves = Ok (PkScript out) ∧ leaves !! n = Some script ∧ ControlBlock leaves n = Ok cb ∧
    TapscriptSigHash tx 0 [(PreviousOutPoint i, out)] script = Ok h ∧ Tapscript h script (reverse sigs) = true.

(** The challenges of the signatures in [l] over the message [h] are scalars. *)
Definition challenges_ok (l : list CovenantAdaptorSignatures) (h : bytes) : Prop :=
  ∀ cas b sig, cas ∈ l → b ∈ cas_AdaptorSigs cas → NewAdaptorSignatureFromBytes b = Ok sig →
    be_value (TaggedHash (be_bytes 32 (px (as_R0 sig)) ++ cas_CovPk cas ++ h)) < order.

Context (p : StakingParams) (fpSK : Z) (staker FP : point) (covs : list point) (time lock : Z) (scripts : babylonScriptPaths)
  (leaves : list bytes) (n : nat) (tx : bytes) (sltx fundingTx : MsgTx) (idx : Z) (out : TxOut) (delSig : bytes) (l : list CovenantAdaptorSignatures)
  (i : TxIn) (h : bytes).
Let fp := SerializePubKey (pmul fpSK G).
Let script := slashingPathScript scripts.
Let si := mkSpendInfo (leaves, n) script.
Hypothesis Hsk : modn fpSK ≠ 0.
Hypothesis HFP : ToBTCPK fp = Ok FP.
Hypothesis Hcovs : SerializePubKey <$> covs = sp_CovenantPks p.
Hypothesis Hscripts : newBabylonScriptPaths staker [FP] covs (sp_CovenantQuorum p) time = Ok scripts.
Hypothesis Hleaf : leaves !! n = Some script.
Hypothesis Hout : TaprootPkScript leaves = Ok (PkScript out).
Hypothesis Hsltx : NewBTCTxFromBytes tx = Ok sltx.
Hypothesis Hslash : slashes p staker lock sltx fundingTx idx out.
Hypothesis Hdel : VerifyTransactionSigWithOutput sltx out script staker delSig = Ok tt.
Hypothesis Hin : TxIns sltx = [i].
Hypothesis Hh : TapscriptSigHash sltx 0 [(PreviousOutPoint i, out)] script = Ok h.
Hypothesis Hl : Forall (cov_valid p [fp] tx out si) l.
Hypothesis Hnd : NoDup (cas_CovPk <$> l).
Hypothesis Hq : 0 < sp_CovenantQuorum p ≤ Z.of_nat (length l).
Hypothesis Hch : challenges_ok l h.

(** The staker's signature, and the one made with the extracted key. *)
Lemma staker_sig : ∃ z, ParseSignature delSig = Ok z ∧ slot_ok h (SerializePubKey staker) (Some z).
Proof using Hdel Hin Hh SL.
  pose proof Hdel as HC. unfold VerifyTransactionSigWithOutput in HC. rewrite Hin in HC. unfold verifyTaprootScriptSpendSignature in HC. rewrite Hin, Hh in HC.
  cbn [length Nat.leb mbind outcome_bind] in HC. apply bind_Ok in HC as ([r s] & Hz & HC).
  destruct (SchnorrVerify _ _ _) eqn:E in HC; [|done]. exists (r, s). split; [done|]. destruct (ParseSignature_range _ _ _ Hz). done.
Qed.

Lemma fp_sig : ∃ z, BTCSlashingTx_Sign tx fundingTx idx script fpSK = Ok (SerializeSignature z) ∧ ParseSignature (SerializeSignature z) = Ok z ∧
  slot_ok h fp (Some z).
Proof using Hsk Hsltx Hslash Hin Hh SL.
  destruct Hslash as [Hf (i' & Hi & Hprev & _) _ _]. rewrite Hin in Hi. injection Hi as <-.
  destruct (RawTxInTapscriptSignature_ok _ _ _ _ fpSK _ Hh Hsk) as (b & [r s] & Hraw & Hz & HV). destruct (ParseSignature_range _ _ _ Hz) as [Hr Hs].
  exists (r, s). split_and!; [|by apply ParseSignature_Serialize|done].
  unfold BTCSlashingTx_Sign. rewrite Hsltx. cbn [mbind outcome_bind]. unfold SignTxWithOneScriptSpendInputStrict, checkTxBeforeSigning.
  rewrite Hin, Hf, Hprev. cbn [op_Hash op_Index]. rewrite bool_decide_eq_true_2, Z.eqb_refl by done. cbn [negb wrapf mbind outcome_bind].
  unfold SignTxWithOneScriptSpendInputFromScript, signTaprootScriptSpendInput. rewrite Hin. cbn [lookup list_lookup fmap list_fmap fst].
  rewrite bool_decide_eq_false_2 by (intros Hn; apply Hn; by apply list_elem_of_singleton). by rewrite Hraw; cbn [mbind outcome_bind]; rewrite Hz.
Qed.

(** The committee's signatures, decrypted with the extracted key. *)
Lemma cov_sigs blind : ∃ dk ordered dsigs, NewDecryptionKeyFromBTCSK blind fpSK = Ok dk ∧ GetOrderedCovenantSignatures 0 l p = Ok ordered ∧
  decryptCovenantSigs dk ordered 0 (sp_CovenantQuorum p) = Ok (dsigs, sp_CovenantQuorum p) ∧ slots dsigs = sp_CovenantQuorum p ∧
  Forall2 (slot_ok h) (SortBIP340PKs (sp_CovenantPks p)) dsigs.
Proof using All.
  assert (∃ dk, NewDecryptionKeyFromBTCSK blind fpSK = Ok dk) as [dk Hdk].
  { unfold NewDecryptionKeyFromBTCSK, NewDecryptionKeyFromModNScalar. destruct (Z.eqb_spec fpSK 0) as [->|]; [done|]. destruct (py_odd _); eauto. }
  destruct (slashing_script _ _ _ _ _ _ Hscripts) as (_ & _ & Hndc & _). rewrite Hcovs in Hndc.
  destruct (GetOrderedCovenantSignatures_Ok (λ pk sig, ∃ z, Decrypt sig dk = Ok z ∧ slot_ok h pk (Some z)) l p) as (ordered & Hord & HF & Hlen).
  { apply Forall_forall. intros cas Hcas. rewrite Forall_forall in Hl. specialize (Hl cas Hcas).
    destruct (cov_valid_one _ _ _ _ _ _ _ _ _ _ Hl Hsltx Hin Hh HFP) as (sig & P & ek & Hsigs & Hpar & HP & Hek & Hver).
    exists (AdaptorSignature_Marshal sig), sig. split_and!; [by rewrite Hsigs|done|].
    apply (encryption_key fpSK) in Hek; [|done..]. apply ToBTCPK_Ok in HP. rewrite <- HP.
    destruct (decrypt_verifies _ _ _ _ _ _ _ Hdk Hek Hver) as (_ & HR & Hdec & HV).
    { rewrite HP. eapply Hch; [done| |done]. rewrite Hsigs. by apply list_elem_of_singleton. }
    eexists. split; [done|]. simpl. split_and!; [by apply field_range|by apply field_range|unfold decrypted_s; destruct (py_odd _); apply modn_range..|done]. }
  { done. }
  { intros pk (cas & -> & Hcas)%list_elem_of_fmap. rewrite Forall_forall in Hl. by apply Hl. }
  { done. }
  destruct (decryptCovenantSigs_Ok dk (λ pk z, slot_ok h pk (Some z)) (SortBIP340PKs (sp_CovenantPks p)) ordered 0 (sp_CovenantQuorum p))
    as (dsigs & Hdec & Hsl & HF2); [lia|rewrite Hlen; lia|exact HF|].
  exists dk, ordered, dsigs. split_and!; [done..|lia|]. eapply Forall2_impl; [exact HF2|]. intros pk [z|]; done.
Qed.

(** The stack satisfies the script. *)
Lemma slashing_stack dz fz dsigs : slot_ok h (SerializePubKey staker) (Some dz) → slot_ok h fp (Some fz) → slots dsigs = sp_CovenantQuorum p →
  Forall2 (slot_ok h) (SortBIP340PKs (sp_CovenantPks p)) dsigs →
  Tapscript h script (reverse ((witnessSig <$> dsigs) ++ [SerializeSignature fz; SerializeSignature dz])) = true.
Proof using All.
  intros Hd Hf Hsl HF. destruct (slashing_script _ _ _ _ _ _ Hscripts) as (Hne & Hle & _ & b1 & b2 & b3 & Es & HB).
  unfold script. rewrite Es. eapply Tapscript_run; [exact HB|]. cbn [concat app]. rewrite app_nil_r, reverse_app, <- fmap_reverse.
  change (reverse [SerializeSignature fz; SerializeSignature dz]) with (witnessSig <$> [Some dz; Some fz]).
  rewrite fmap_app. cbn [fmap list_fmap app]. cbn [run run_item mbind option_bind]. rewrite (slot_checksig h _ (Some dz)) by done.
  cbn [mbind option_bind Z.eqb Pos.eqb run run_item]. assert (SerializePubKey FP = fp) as -> by (by apply ToBTCPK_Ok).
  rewrite (slot_checksig h _ (Some fz)) by done. cbn [mbind option_bind Z.eqb Pos.eqb].
  apply run_covenant; [done|lia|by rewrite slots_reverse|].
  apply (Forall2_fmap_l SerializePubKey (slot_ok h)). rewrite SortKeys_order, Hcovs. by apply Forall2_reverse.
Qed.

Lemma build_spends blind : ∃ ordered w, GetOrderedCovenantSignatures 0 l p = Ok ordered ∧
  BuildSlashingTxWithWitness blind tx fpSK [fp] fundingTx idx delSig ordered (sp_CovenantQuorum p) si = Ok w ∧ spends sltx out h w.
Proof using All.
  destruct staker_sig as (dz & Hdz & Hdok), fp_sig as (fz & Hsign & Hfz & Hfok). destruct (cov_sigs blind) as (dk & ordered & dsigs & Hdk & Hord & Hdec & Hsl & HF).
  destruct (ControlBlock_ok leaves n) as [cb Hcb]; [by rewrite Hleaf|].
  exists ordered, (with_witness sltx (((witnessSig <$> dsigs) ++ [SerializeSignature fz; SerializeSignature dz]) ++ [script; cb])). split; [done|]. split.
  - unfold BuildSlashingTxWithWitness. rewrite Hdk. cbn [wrapf mbind outcome_bind]. rewrite Hdec. cbn [mbind outcome_bind fst snd]. rewrite Z.ltb_irrefl.
    assert (findFPIdxInWitness fpSK [fp] = Ok 0%nat) as ->.
    { unfold findFPIdxInWitness. change (SortBIP340PKs [fp]) with [fp]. cbn [list_find]. unfold fp. by rewrite decide_True. }
    cbn [mbind outcome_bind]. change (GetPkScriptPath si) with script. rewrite Hsign. cbn [wrapf mbind outcome_bind]. rewrite Hfz, Hdz. cbn [must mbind outcome_bind length replicate insert list_insert].
    unfold CreateSlashingPathWitness, CreateWitness. destruct dsigs as [|ds dsigs]; [unfold slots in Hsl; simpl in Hsl; lia|].
    cbn [length Nat.eqb si_ControlBlock fst snd si]. rewrite Hcb, Hsltx. cbn [mbind outcome_bind]. rewrite Hin. unfold with_witness. rewrite Hin. done.
  - exists i, leaves, n, script, ((witnessSig <$> dsigs) ++ [SerializeSignature fz; SerializeSignature dz]), cb.
    split_and!; [done..| |by eapply slashing_stack]. by rewrite TapscriptSigHash_witness.
Qed.

End spend.

(** ** Every delegation of an exposed finality provider *)

Section complete.
Context {curve : Curve} {claws : CurveLaws} {CP : CompressedPoints} {CL : CompressedLaws CP} {SV : SchnorrVerification} {DH : DoubleHash}
  {BT : BtcTx MsgTx} {SB : StakingBtcd} {PB : PopBtcd} {addresses : Bech32} {SP : SpendBtcd} {H : Type} {BW : BtcWire H} {BP : BtcPow H}
  {W : Type} {env : StakingEnv W} {SanL : SanityLaws BT} {SL : SigningLaws} {TE : TapscriptEngine}.

(** The messages that the committee signs for the two slashing transactions. *)
Definition slashing_hash (tx : bytes) (out : TxOut) (script : bytes) : outcome bytes :=
  sltx ← NewBTCTxFromBytes tx; i ← index (TxIns sltx) 0; TapscriptSigHash sltx 0 [(PreviousOutPoint i, out)] script.
Definition stake_slashing_hash (d : BTCDelegation) (p : StakingParams) : outcome bytes :=
  info ← GetStakingInfo d p; si ← SlashingPathSpendInfo info; slashing_hash (d_SlashingTx d) (StakingOutput info) (GetPkScriptPath si).
Definition unbonding_slashing_hash (d : BTCDelegation) (p : StakingParams) : outcome bytes :=
  info ← GetUnbondingInfo d p; si ← ui_SlashingPathSpendInfo info;
  slashing_hash (ud_SlashingTx (d_BtcUndelegation d)) (UnbondingOutput info) (GetPkScriptPath si).

Lemma verified_hash tx sltx i out script pk sig : NewBTCTxFromBytes tx = Ok sltx → TxIns sltx = [i] →
  VerifyTransactionSigWithOutput sltx out script pk sig = Ok tt →
  ∃ h, TapscriptSigHash sltx 0 [(PreviousOutPoint i, out)] script = Ok h ∧ slashing_hash tx out script = Ok h.
Proof using.
  intros Htx Hin HC. unfold VerifyTransactionSigWithOutput in HC. rewrite Hin in HC. unfold verifyTaprootScriptSpendSignature in HC. rewrite Hin in HC.
  cbn [length Nat.leb] in HC. apply bind_Ok in HC as (h & Hh & _). exists h. split; [done|]. unfold slashing_hash. rewrite Htx. cbn [mbind outcome_bind]. by rewrite Hin.
Qed.

(** The scripts of both outputs come from the same keys. *)
Lemma staking_scripts d p fp info : d_FpBtcPkList d = [fp] → GetStakingInfo d p = Ok info →
  ∃ staker FP covs time amount, ToBTCPK (d_BtcPk d) = Ok staker ∧ ToBTCPK fp = Ok FP ∧ SerializePubKey <$> covs = sp_CovenantPks p ∧
    BuildStakingInfo staker [FP] covs (sp_CovenantQuorum p) time amount = Ok info.
Proof using claws.
  intros Hfp HC. unfold GetStakingInfo in HC. rewrite Hfp in HC. apply bind_Ok in HC as (fps & Hfps & HC). apply wrapf_Ok in Hfps.
  apply bind_Ok in HC as (covs & Hcovs & HC). apply wrapf_Ok, NewBTCPKs_serialize in Hcovs. apply bind_Ok in HC as (staker & Hst & HC).
  unfold MustToBTCPK in Hst. rewrite must_Ok in Hst. apply bind_Ok in HC as (time & _ & HC). apply wrapf_Ok in HC.
  unfold NewBTCPKsFromBIP340PKs in Hfps. cbn [foldM] in Hfps. apply bind_Ok in Hfps as (l & Hl & [= <-]). apply bind_Ok in Hl as (FP & HFP & [= <-]). eauto 10.
Qed.
Lemma unbonding_scripts d p fp info : d_FpBtcPkList d = [fp] → GetUnbondingInfo d p = Ok info →
  ∃ staker FP covs time amount, ToBTCPK (d_BtcPk d) = Ok staker ∧ ToBTCPK fp = Ok FP ∧ SerializePubKey <$> covs = sp_CovenantPks p ∧
    BuildUnbondingInfo staker [FP] covs (sp_CovenantQuorum p) time amount = Ok info.
Proof using claws.
  intros Hfp HC. unfold GetUnbondingInfo in HC. rewrite Hfp in HC. apply bind_Ok in HC as (fps & Hfps & HC). apply wrapf_Ok in Hfps.
  apply bind_Ok in HC as (covs & Hcovs & HC). apply wrapf_Ok, NewBTCPKs_serialize in Hcovs. apply bind_Ok in HC as (? & _ & HC).
  apply bind_Ok in HC as (staker & Hst & HC). unfold MustToBTCPK in Hst. rewrite must_Ok in Hst. apply bind_Ok in HC as (o & _ & HC). apply wrapf_Ok in HC.
  unfold NewBTCPKsFromBIP340PKs in Hfps. cbn [foldM] in Hfps. apply bind_Ok in Hfps as (l & Hl & [= <-]). apply bind_Ok in Hl as (FP & HFP & [= <-]). eauto 10.
Qed.

Lemma stake_completes d p stx sltx utx usltx info uinfo staker si ui usi utx' uinfo' fpSK blind :
  accepted p d stx sltx utx usltx info uinfo staker → signed_with p d info uinfo' si ui usi utx' →
  d_FpBtcPkList d = [SerializePubKey (pmul fpSK G)] → modn fpSK ≠ 0 → 0 < sp_CovenantQuorum p ≤ Z.of_nat (length (d_CovenantSigs d)) →
  (∀ h, stake_slashing_hash d p = Ok h → challenges_ok (d_CovenantSigs d) h) →
  ∃ h tx, stake_slashing_hash d p = Ok h ∧ del_BuildSlashingTxWithWitness blind d p fpSK = Ok tx ∧ spends sltx (StakingOutput info) h tx.
Proof using claws CL SL.
  intros Hac Hsg Hfp Hsk Hq Hch. destruct (staking_scripts d p _ info Hfp (ac_info _ _ _ _ _ _ _ _ _ Hac)) as (st & FP & covs & time & amount & Hst & HFP & Hcovs & HB).
  apply BuildStakingInfo_spec in HB as (scripts & Hscripts & (pk & Hpk & Hout) & _ & Hsi & _).
  destruct Hac as [Hstx Hsltx _ _ Hstaker _ Hinfo _ _ _ _ Hslash (si' & Hsi' & Hdel) _ _ _]. rewrite Hsi in Hsi'. injection Hsi' as <-. cbn [GetPkScriptPath RevealedLeaf] in Hdel.
  rewrite Hstaker in Hst. injection Hst as <-. destruct (sl_input _ _ _ _ _ _ _ Hslash) as (i & Hin & _).
  destruct (verified_hash _ _ _ _ _ _ _ Hsltx Hin Hdel) as (h & Hh & Hhash).
  assert (Hsh : stake_slashing_hash d p = Ok h) by (unfold stake_slashing_hash; rewrite Hinfo; cbn [mbind outcome_bind]; by rewrite Hsi).
  destruct Hsg as [_ _ Hsi2 _ _ _ _ Hl _ _ Hnd _]. rewrite Hsi in Hsi2. injection Hsi2 as <-. rewrite Hfp in Hl.
  destruct (build_spends p fpSK staker FP covs time (d_UnbondingTime d) scripts
    [timeLockPathScript scripts; unbondingPathScript scripts; slashingPathScript scripts] 2 _ sltx stx (d_StakingOutputIdx d) (StakingOutput info) (d_DelegatorSig d)
    (d_CovenantSigs d) i h Hsk HFP Hcovs Hscripts eq_refl ltac:(by rewrite Hout) Hsltx Hslash Hdel Hin Hh Hl Hnd Hq (Hch h Hsh) blind) as (ordered & w & Hord & Hbuild & Hsp).
  exists h, w. split_and!; [done| |done]. unfold del_BuildSlashingTxWithWitness, findFPIdx. rewrite Hstx, Hinfo. cbn [wrapf mbind outcome_bind]. rewrite Hsi, Hfp.
  cbn [list_find wrapf mbind outcome_bind]. rewrite decide_True by done. cbn [mbind outcome_bind]. rewrite Hord. cbn [wrapf mbind outcome_bind]. by rewrite Hbuild.
Qed.

Lemma unbonding_completes d p stx sltx utx usltx info uinfo staker si ui usi utx' info' fpSK blind :
  accepted p d stx sltx utx usltx info uinfo staker → signed_with p d info' uinfo si ui usi utx' →
  d_FpBtcPkList d = [SerializePubKey (pmul fpSK G)] → modn fpSK ≠ 0 → 0 < sp_CovenantQuorum p ≤ Z.of_nat (length (d_CovenantSigs d)) →
  (∀ h, unbonding_slashing_hash d p = Ok h → challenges_ok (ud_CovenantSlashingSigs (d_BtcUndelegation d)) h) →
  ∃ h tx, unbonding_slashing_hash d p = Ok h ∧ BuildUnbondingSlashingTxWithWitness blind d p fpSK = Ok tx ∧ spends usltx (UnbondingOutput uinfo) h tx.
Proof using claws CL SL.
  intros Hac Hsg Hfp Hsk Hq Hch. destruct (unbonding_scripts d p _ uinfo Hfp (ac_uinfo _ _ _ _ _ _ _ _ _ Hac)) as (st & FP & covs & time & amount & Hst & HFP & Hcovs & HB).
  apply BuildUnbondingInfo_spec in HB as (scripts & Hscripts & (pk & Hpk & Hout) & Hsi).
  destruct Hac as [_ _ Hutx Husltx Hstaker _ _ Hinfo _ _ _ _ _ _ Hslash (si' & Hsi' & Hdel)]. rewrite Hsi in Hsi'. injection Hsi' as <-. cbn [GetPkScriptPath RevealedLeaf] in Hdel.
  rewrite Hstaker in Hst. injection Hst as <-. destruct (sl_input _ _ _ _ _ _ _ Hslash) as (i & Hin & _).
  destruct (verified_hash _ _ _ _ _ _ _ Husltx Hin Hdel) as (h & Hh & Hhash).
  assert (Hsh : unbonding_slashing_hash d p = Ok h) by (unfold unbonding_slashing_hash; rewrite Hinfo; cbn [mbind outcome_bind]; by rewrite Hsi).
  destruct Hsg as [_ _ _ _ Hsi2 _ _ _ Hl _ Hnd [Hsame _]]. rewrite Hsi in Hsi2. injection Hsi2 as <-. rewrite Hfp in Hl.
  assert (Hlen : length (ud_CovenantSlashingSigs (d_BtcUndelegation d)) = length (d_CovenantSigs d)) by (by rewrite <- !(length_fmap cas_CovPk), Hsame).
  rewrite <- Hsame in Hnd. rewrite <- Hlen in Hq.
  destruct (build_spends p fpSK staker FP covs time (d_UnbondingTime d) scripts
    [timeLockPathScript scripts; slashingPathScript scripts] 1 _ usltx utx 0 (UnbondingOutput uinfo) (ud_DelegatorSlashingSig (d_BtcUndelegation d))
    (ud_CovenantSlashingSigs (d_BtcUndelegation d)) i h Hsk HFP Hcovs Hscripts eq_refl ltac:(by rewrite Hout) Husltx Hslash Hdel Hin Hh Hl Hnd Hq (Hch h Hsh) blind)
    as (ordered & w & Hord & Hbuild & Hsp).
  exists h, w. split_and!; [done| |done]. unfold BuildUnbondingSlashingTxWithWitness, findFPIdx. rewrite Hutx, Hinfo. cbn [wrapf mbind outcome_bind]. rewrite Hsi, Hfp.
  cbn [list_find wrapf mbind outcome_bind]. rewrite decide_True by done. cbn [mbind outcome_bind]. rewrite Hord. cbn [wrapf mbind outcome_bind]. by rewrite Hbuild.
Qed.

(** C2: A stake delegated to an exposed finality provider can be slashed on Bitcoin. After
    any history of messages, take a stored delegation with a covenant quorum whose
    finality provider has the secret key fpSK. Then both functions that complete its
    slashing transactions with that key succeed. The completed transactions differ from
    the agreed ones in the witness only; they spend the staking output and the output of
    the unbonding transaction, through a script that the output commits to, and the
    script accepts the witness for the signature hash of the transaction: the covenant
    signatures, decrypted with the key, stand in the order in which the script checks
    them, and exactly a quorum of them is filled in. *)
Theorem slashing_completes n s hd d p fpSK blind : staking_history n s → Z.of_nat n < 2 ^ 32 → btcDelegations s !! hd = Some d →
  GetParamsByVersion s (d_ParamsVersion d) = Some p → d_FpBtcPkList d = [SerializePubKey (pmul fpSK G)] → modn fpSK ≠ 0 →
  0 < sp_CovenantQuorum p ≤ Z.of_nat (length (d_CovenantSigs d)) →
  (∀ h, stake_slashing_hash d p = Ok h → challenges_ok (d_CovenantSigs d) h) →
  (∀ h, unbonding_slashing_hash d p = Ok h → challenges_ok (ud_CovenantSlashingSigs (d_BtcUndelegation d)) h) →
  ∃ staker stx sltx utx usltx out uout h uh tx tx',
    NewBTCTxFromBytes (d_StakingTx d) = Ok stx ∧ TxHash stx = hd ∧ NewBTCTxFromBytes (d_SlashingTx d) = Ok sltx ∧
    NewBTCTxFromBytes (ud_UnbondingTx (d_BtcUndelegation d)) = Ok utx ∧ NewBTCTxFromBytes (ud_SlashingTx (d_BtcUndelegation d)) = Ok usltx ∧
    slashes p staker (d_UnbondingTime d) sltx stx (d_StakingOutputIdx d) out ∧ slashes p staker (d_UnbondingTime d) usltx utx 0 uout ∧
    del_BuildSlashingTxWithWitness blind d p fpSK = Ok tx ∧ spends sltx out h tx ∧
    BuildUnbondingSlashingTxWithWitness blind d p fpSK = Ok tx' ∧ spends usltx uout uh tx'.
Proof using claws CL SL SanL.
  intros Hhist Hn Hd Hp Hfp Hsk Hq Hc1 Hc2. destruct (history_ok n s Hhist Hn) as [Hok _].
  destruct (Hok hd d Hd) as [(stx0 & Hstx0 & Hhd) (p' & Hp' & (stx & sltx & utx & usltx & info & uinfo & staker & Hac) & (info' & uinfo' & si & ui & usi & utx' & Hsg))].
  rewrite Hp in Hp'. injection Hp' as <-.
  assert (info' = info) as -> by (pose proof (sg_info _ _ _ _ _ _ _ _ Hsg); pose proof (ac_info _ _ _ _ _ _ _ _ _ Hac); congruence).
  assert (uinfo' = uinfo) as -> by (pose proof (sg_uinfo _ _ _ _ _ _ _ _ Hsg); pose proof (ac_uinfo _ _ _ _ _ _ _ _ _ Hac); congruence).
  destruct (stake_completes _ _ _ _ _ _ _ _ _ _ _ _ _ _ _ blind Hac Hsg Hfp Hsk Hq Hc1) as (h & tx & _ & Htx & Hsp).
  destruct (unbonding_completes _ _ _ _ _ _ _ _ _ _ _ _ _ _ _ blind Hac Hsg Hfp Hsk Hq Hc2) as (uh & tx' & _ & Htx' & Hsp').
  destruct Hac as [Hstx ? ? ? _ _ _ _ _ _ _ ? _ _ ? _]. rewrite Hstx in Hstx0. injection Hstx0 as <-.
  exists staker, stx, sltx, utx, usltx, (StakingOutput info), (UnbondingOutput uinfo), h, uh, tx, tx'. by split_and!.
Qed.

End complete.
