(* ===== verification/StakingEdges.v ===== *)
(** * BTC staking: what the status checks let through

    Two conditions that the message handlers of the BTC staking module state and do not
    enforce: no covenant quorum after the expiry of a delegation, and no staking
    transaction that is a coinbase. *)

From S2P Require Import Prelude Bytes Store BbnTypes Sha256 Curve Eots AdaptorSig BtcStaking Delegations FinalityTypes PowerTable FinalityStore PubRand PowerDist.
From S2P Require Import Coins TxFormatter LightClient Spv SpvProofs StakingTx Pop StakingParams StakingMsgs StakingProofs.

Section edges.
Context {curve : Curve} {CP : CompressedPoints} {SV : SchnorrVerification} {DH : DoubleHash} {BT : BtcTx MsgTx} {SB : StakingBtcd}
  {PB : PopBtcd} {addresses : Bech32} {SP : SpendBtcd} {H : Type} {BW : BtcWire H} {BP : BtcPow H} {W : Type} {env : StakingEnv W}.

(** ** A quorum after the expiry *)

Lemma AddCovenantSigs_msg_adds hs s w req s' w' di stx : getBTCDelWithParams s (mcs_StakingTxHash req) = Ok di →
  NewBTCTxFromBytes (d_StakingTx (di_Delegation di)) = Ok stx → AddCovenantSigs_msg hs (s, w) req = Ok (s', w') →
  ∃ st sigs usigs, BtcDelStatusWithTip (hi_Height <$> GetTip hs) di = Ok st ∧ st.1 ≠ UNBONDED ∧
    addCovenantSigsToBTCDelegation s di (mcs_Pk req) sigs (mcs_UnbondingTxSig req) usigs (default [] (mcs_StakeExpansionTxSig req)) st.2 = Ok s'.
Proof using.
  intros Hdi Hstx HC. unfold AddCovenantSigs_msg in HC. rewrite Hdi in HC. cbn [mbind outcome_bind] in HC.
  destruct (HasCovenantPK _ _); [|done]. cbn [negb] in HC. destruct (_ && _) in HC; [done|].
  apply bind_Ok in HC as (st & Hst & HC). apply wrapf_Ok in Hst. case_bool_decide as Hu; [done|]. cbn [orb] in HC. case_bool_decide; [done|].
  destruct (negb _) in HC; [done|]. do 2 (apply bind_Ok in HC as (? & _ & HC)). apply bind_Ok in HC as (sigs & _ & HC). destruct (negb _) in HC; [done|].
  do 7 (apply bind_Ok in HC as (? & _ & HC)). apply bind_Ok in HC as (usigs & _ & HC). apply bind_Ok in HC as (? & _ & HC).
  apply bind_Ok in HC as (s1 & Hadd & [= <- _]). eauto 10.
Qed.

Lemma event_added s h ev : ev ∈ PowerDistUpdateEventsAt (addPowerDistUpdateEvent s h ev) h.
Proof using.
  unfold PowerDistUpdateEventsAt, powerDistUpdateEventBtcHeightStore. cbn. rewrite lookup_insert_eq. cbn.
  apply list_elem_of_fmap. eexists (_, ev). split; [done|]. apply elem_of_iterZ. by rewrite lookup_insert_eq.
Qed.

(** C38: A covenant quorum reached after the expiry activates the delegation. The handler
    rejects signatures for expired delegations by their status, but the status of a
    delegation without a quorum is pending at every height. If the signature that
    completes the quorum arrives when the time lock has less than the unbonding time
    left, it is accepted: the delegation then is expired and has no voting power by its
    status, and yet an activation is queued at the tip, whose processing adds its
    satoshis to its finality providers. *)
Theorem late_quorum_activates hs s w req s' w' di stx tip d' :
  let d := di_Delegation di in
  let q := sp_CovenantQuorum (di_Params di) in
  getBTCDelWithParams s (mcs_StakingTxHash req) = Ok di → NewBTCTxFromBytes (d_StakingTx d) = Ok stx →
  HashFromStr (HashStr (TxHash stx)) = Some (TxHash stx) → d_StkExp d = None → HasInclusionProof d = true → HasCovenantQuorums d q 0 = false →
  GetTip hs = Some tip → d_StartHeight d ≤ hi_Height tip → d_EndHeight d ≤ u32 (hi_Height tip + d_UnbondingTime d) →
  AddCovenantSigs_msg hs (s, w) req = Ok (s', w') → btcDelegations s' !! TxHash stx = Some d' → HasCovenantQuorums d' q 0 = true →
  let event := BtcDelStateUpdate (HashStr (TxHash stx)) ACTIVE in
  GetStatus d' (hi_Height tip) q 0 = EXPIRED ∧ VotingPower d' (hi_Height tip) q 0 = 0 ∧ event ∈ PowerDistUpdateEventsAt s' (hi_Height tip) ∧
  ∀ ps ps', deltas_wf ps → processEvent AccFromBech32 s' ps event = Ok ps' → ∀ pk, delta_of ps' pk = i64 (delta_of ps pk + del_sats d pk).
Proof using.
  intros d q Hdi Hstx Hhash Hexp Hinc Hno Htip Hstart Hend HC Hd' Hyes event.
  destruct (AddCovenantSigs_msg_adds _ _ _ _ _ _ _ _ Hdi Hstx HC) as (st & sigs & usigs & Hst & Hu & Hadd).
  unfold BtcDelStatusWithTip in Hst. fold d q in Hst. unfold IsStakeExpansion in Hst. rewrite Hexp, Htip in Hst. cbn [mbind outcome_bind fmap option_fmap option_map] in Hst.
  injection Hst as <-. cbn [fst snd] in Hu, Hadd. unfold addCovenantSigsToBTCDelegation in Hadd. fold d q in Hadd. unfold IsStakeExpansion in Hadd. rewrite Hexp in Hadd.
  cbn [mbind outcome_bind] in Hadd. rewrite Hno in Hadd. apply bind_Ok in Hadd as (s1 & Hset & Hadd).
  set (d1 := AddCovenantSigs _ _ _ _ _ _) in Hset, Hadd. apply (setBTCDelegation_Ok _ _ (TxHash stx)) in Hset; [|by exists stx]. subst s1.
  assert (d' = d1) as ->.
  { destruct (_ && _ && _) in Hadd; [apply bind_Ok in Hadd as (? & _ & Hadd)|]; injection Hadd as <-; cbn in Hd'; rewrite lookup_insert_eq in Hd'; by injection Hd'. }
  rewrite Hyes in Hadd. cbn [negb andb] in Hadd. change (HasInclusionProof d1) with (HasInclusionProof d) in Hadd. rewrite Hinc in Hadd.
  rewrite (MustGetStakingTxHash_eq d1 stx Hstx) in Hadd. cbn [mbind outcome_bind] in Hadd. injection Hadd as <-.
  assert (Hs : GetStatus d1 (hi_Height tip) q 0 = EXPIRED).
  { unfold GetStatus in Hu |- *. change (IsUnbondedEarly d1) with (IsUnbondedEarly d). destruct (IsUnbondedEarly d); [done|]. rewrite Hyes. cbn [negb].
    change (HasInclusionProof d1) with (HasInclusionProof d). rewrite Hinc. cbn [negb]. change (d_StartHeight d1) with (d_StartHeight d).
    change (d_EndHeight d1) with (d_EndHeight d). change (d_UnbondingTime d1) with (d_UnbondingTime d). by rewrite (proj2 (Z.ltb_ge _ _)), (proj2 (Z.leb_le _ _)). }
  split_and!; [done|unfold VotingPower; by rewrite Hs|apply event_added|].
  intros ps ps' Hwf Hev pk. rewrite (pst_delta _ _ _ _ _ _ (processEvent_steps _ _ _ _ _ Hwf Hev) pk). do 2 f_equal.
  unfold immediate_sats, event_sats. cbn [is_expiry event]. unfold GetBTCDelegation. cbn [NewHashFromStr staking_hashing]. rewrite Hhash. cbn. by rewrite lookup_insert_eq.
Qed.

(** ** The coinbase check *)

Context {SpvL : SpvLaws MsgTx H}.

(** C39: A coinbase can be staked. The verifier of inclusion proofs reads as many bits of
    the index as the proof has nodes, and the check for a coinbase compares the whole
    index to zero. A proof for the first transaction of a block is rejected with the
    index zero and accepted with any other multiple of two to the number of nodes. *)
Theorem coinbase_check_bypassed hs (tx : MsgTx) k stakingTime unbondingTime hash nodes n hdr (header : H) tip m :
  length nodes = (32 * S n)%nat → GetHeaderByHash hs hash = Ok hdr → ToBlockHeader (hi_Header hdr) = Ok header → GetTip hs = Some tip →
  VerifyInclusionProof tx (MerkleRoot header) nodes 0 = true →
  k ≤ u32 (hi_Height tip - hi_Height hdr) → u32 (hi_Height tip + unbondingTime) < u32 (hi_Height hdr + stakingTime) →
  0 < m → m * 2 ^ Z.of_nat (S n) < 2 ^ 32 →
  VerifyInclusionProofAndGetHeight hs tx k stakingTime unbondingTime (mkParsedInclusion hash nodes 0) = Err ErrInvalidStakingTx ∧
  VerifyInclusionProofAndGetHeight hs tx k stakingTime unbondingTime (mkParsedInclusion hash nodes (m * 2 ^ Z.of_nat (S n))) =
    Ok (mkTimeInfo (hi_Height hdr) (u32 (hi_Height hdr + stakingTime)) (hi_Height tip)).
Proof using SpvL.
  intros Hlen Hhdr Hheader Htip Hv Hdeep Htime Hm Hmax. unfold VerifyInclusionProofAndGetHeight. cbn [HeaderHash pi_Proof pi_Index].
  rewrite Hhdr. cbn [wrapf mbind outcome_bind]. rewrite Hheader. cbn [mbind outcome_bind]. rewrite Hv. split; [done|].
  destruct (chunks32 (S n) nodes Hlen) as (ns & -> & H32 & Hns). unfold VerifyInclusionProof in *.
  rewrite verify_climb in Hv |- * by (apply TxHash_length || apply MerkleRoot_length || done). rewrite Hns in *. cbn [Nat.eqb] in *.
  rewrite <- Hns, <- (Z.add_0_l (m * _)), climb_mod, Hv. cbn [negb]. rewrite Z.add_0_l, (proj2 (Z.eqb_neq _ _)) by (pose proof (Z.pow_pos_nonneg 2 (Z.of_nat (length ns))); nia).
  unfold tipHeight. rewrite Htip. cbn [deref mbind outcome_bind]. by rewrite (proj2 (Z.ltb_ge _ _)), (proj2 (Z.leb_gt _ _)).
Qed.

End edges.
