(* ===== verification/StakingExample.v ===== *)
(** * BTC staking: an instance

    The parameters of the staking theorems instantiated on the toy curve: scripts are
    encoded and decoded, the engine runs them, transactions are looked up by name, and
    signatures are BIP-340 signatures of the toy group. A stake goes through the
    handlers: parameters, creation, the covenant signature; the hypotheses of the
    theorems hold along the way. *)

From S2P Require Import Prelude Bytes Store BbnTypes Sha256 Curve Eots AdaptorSig BtcStaking Delegations FinalityTypes PowerTable FinalityStore PubRand PowerDist.
From S2P Require Import Coins TxFormatter LightClient Spv SpvProofs StakingTx Pop StakingParams StakingMsgs StakingProofs SlashingPath StakingEdges.

Module StakingExample.

#[local] Existing Instances toy_curve toy_laws AdaptorExample.toy_schnorr AdaptorExample.toy_compressed SpvExample.toy_hash SpvExample.toy_pow
  SpvExample.toy_header hex_addresses.

(** ** Scripts *)

Definition op_code (o : Opcode) : byte :=
  match o with
  | OP_CHECKSIG => x00 | OP_CHECKSIGVERIFY => x01 | OP_CHECKSIGADD => x02 | OP_NUMEQUAL => x03 | OP_NUMEQUALVERIFY => x04
  | OP_CHECKSEQUENCEVERIFY => x05 | OP_0 => x06 | OP_RETURN_op => x07
  end.
Definition op_decode (b : byte) : option Opcode :=
  match b with
  | x00 => Some OP_CHECKSIG | x01 => Some OP_CHECKSIGVERIFY | x02 => Some OP_CHECKSIGADD | x03 => Some OP_NUMEQUAL | x04 => Some OP_NUMEQUALVERIFY
  | x05 => Some OP_CHECKSEQUENCEVERIFY | x06 => Some OP_0 | x07 => Some OP_RETURN_op | _ => None
  end.
Definition encode (it : ScriptItem) : option bytes :=
  match it with
  | AddData b => if (length b <? 256)%nat then Some (x01 :: be_bytes 1 (Z.of_nat (length b)) ++ b) else None
  | AddInt64 n => if (0 <=? n) && (n <? 2 ^ 63) then Some (x02 :: be_bytes 8 n) else None
  | AddOp o => Some [x03; op_code o]
  end.
Definition decode_item (b : bytes) : option (ScriptItem * bytes) :=
  match b with
  | x01 :: b => let n := Z.to_nat (be_value (take 1 b)) in Some (AddData (take n (drop 1 b)), drop n (drop 1 b))
  | x02 :: b => Some (AddInt64 (be_value (take 8 b)), drop 8 b)
  | x03 :: o :: b => o ← op_decode o; Some (AddOp o, b)
  | _ => None
  end.
Fixpoint decode (fuel : nat) (b : bytes) : option (list ScriptItem) :=
  match b, fuel with
  | [], _ => Some []
  | _, O => None
  | _, S fuel => '(it, b) ← decode_item b; its ← decode fuel b; Some (it :: its)
  end.

Lemma decode_encode it b rest : encode it = Some b → decode_item (b ++ rest) = Some (it, rest) ∧ b ≠ [].
Proof.
  destruct it as [d|n|o]; cbn [encode]; intros HC.
  - destruct (Nat.ltb_spec (length d) 256); [|done].
    assert (b = x01 :: be_bytes 1 (Z.of_nat (length d)) ++ d) as -> by congruence. split; [|done]. rewrite <- app_comm_cons, <- app_assoc. cbn [decode_item]. rewrite (take_app_length' (be_bytes 1 _)), (drop_app_length' (be_bytes 1 _)) by (by rewrite be_bytes_length).
    rewrite be_value_be_bytes, Z.mod_small, Nat2Z.id by lia. by rewrite take_app_length, drop_app_length.
  - destruct (Z.leb_spec 0 n); [|done]. destruct (Z.ltb_spec n (2 ^ 63)); [|done]. assert (b = x02 :: be_bytes 8 n) as -> by (cbn [andb] in HC; congruence).
    split; [|done]. rewrite <- app_comm_cons. cbn [decode_item]. rewrite (take_app_length' (be_bytes 8 _)), (drop_app_length' (be_bytes 8 _)) by (by rewrite be_bytes_length).
    rewrite be_value_be_bytes, Z.mod_small by (change (256 ^ Z.of_nat 8) with (2 ^ 64); lia). done.
  - injection HC as <-. split; [|done]. by destruct o.
Qed.
Lemma decode_all its l fuel : mapM encode its = Some l → (length (concat l) ≤ fuel)%nat → decode fuel (concat l) = Some its.
Proof.
  intros Hl%mapM_Some. revert fuel. induction Hl as [|it b its l Hb Hl IH]; intros fuel Hf; [by destruct fuel|].
  destruct (decode_encode it b (concat l) Hb) as [Hd Hne]. destruct b as [|x b]; [done|]. cbn [concat app length] in Hf |- *.
  destruct fuel as [|fuel]; [lia|]. change (x :: b ++ concat l) with ((x :: b) ++ concat l). cbn [decode]. cbn [app] in Hd |- *. rewrite Hd. cbn [mbind option_bind].
  rewrite IH; [done|]. rewrite length_app in Hf. lia.
Qed.

(** ** Signatures *)

Definition serialize_sig (z : Z * Z) : bytes := be_bytes 32 z.1 ++ be_bytes 32 z.2.
Definition parse_sig (b : bytes) : outcome (Z * Z) :=
  let r := be_value (take 32 b) in
  let s := be_value (drop 32 b) in
  if negb (length b =? 64)%nat || (field_size <=? r) || (order <=? s) then Err (Errorf "malformed signature") else Ok (r, s).
(** The nonce is one. *)
Definition sign (sk : Z) (h : bytes) : bytes :=
  let d := if py_odd (pmul sk G) then - sk else sk in
  serialize_sig (1, modn (1 + be_value (TaggedHash (be_bytes 32 1 ++ SerializePubKey (pmul sk G) ++ h)) * d)).

(** ** Transactions *)

Definition total (tx : MsgTx) : Z := sumZ (Value <$> TxOuts tx).
#[local] Instance toy_btcd : StakingBtcd := {|
  TransactionWeight tx := Z.of_nat (length (TxOuts tx));
  IsDust out := Value out <? 100;
  MulRate v rate := Ok (v * rate / DecOne);
  BuilderScript its := match mapM encode its with Some l => Ok (concat l) | None => Err (Errorf "too long") end;
  TapLeafHash := id;
  TaprootPkScript leaves := Ok (be_bytes 34 (sumZ (byte_code <$> concat leaves)));
  ControlBlock leaves i := if leaves !! i then Ok [x00] else Err (Errorf "no leaf");
  IsPayToTaproot _ := true;
  TapscriptSigHash tx _ _ _ := Ok (be_bytes 32 (total tx));
  RawTxInTapscriptSignature tx _ _ _ sk := Ok (sign sk (be_bytes 32 (total tx)));
  ParseSignature := parse_sig;
  SerializeSignature := serialize_sig
|}.

#[local] Instance toy_compressed_laws : CompressedLaws AdaptorExample.toy_compressed.
Proof.
  split.
  - intros P HP. by destruct P; vm_compute.
  - intros [|x b] P; [done|]. cbn. destruct (toy_parse b) as [Q|] eqn:E; [|done]. intros [= <-].
    apply toy_parse_spec in E as [[-> _]|[[-> _]|[-> _]]]; by case_bool_decide.
Defined.

Lemma challenge_small b : be_value (TaggedHash b) < order.
Proof.
  cbn [TaggedHash order toy_curve]. rewrite be_value_be_bytes. pose proof (Z.mod_pos_bound (sumZ (byte_code <$> b)) 6 ltac:(lia)).
  rewrite Z.mod_small; [lia|]. change (256 ^ Z.of_nat 32) with (2 ^ 256). lia.
Qed.

Lemma sign_verifies sk h : modn sk ≠ 0 → ∃ z, parse_sig (sign sk h) = Ok z ∧ SchnorrVerify h (SerializePubKey (pmul sk G)) z = true.
Proof.
  intros Hsk. unfold sign. set (P := pmul sk G). set (d := if py_odd P then - sk else sk).
  set (e := be_value (TaggedHash (be_bytes 32 1 ++ SerializePubKey P ++ h))). set (s := modn (1 + e * d)).
  assert (Hs : 0 ≤ s < 7) by (apply (modn_range (curve := toy_curve))). exists (1, s). split.
  - unfold parse_sig, serialize_sig. cbn [fst snd]. rewrite length_app, !be_bytes_length, (take_app_length' (be_bytes 32 1)), (drop_app_length' (be_bytes 32 1)), !be_value_be_bytes
      by (by rewrite be_bytes_length). rewrite !Z.mod_small by (change (256 ^ Z.of_nat 32) with (2 ^ 256); lia).
    cbn. by rewrite (proj2 (Z.leb_gt 7 s)) by lia.
  - assert (Hfin : P ≠ infinity) by (by apply pmul_G_finite). change (AdaptorExample.schnorr_ok h (SerializePubKey P) (1, s) = true).
    unfold AdaptorExample.schnorr_ok. rewrite (Parse_Serialize P Hfin). cbn [fst snd]. fold e.
    assert (even_point P = pmul d G) as ->.
    { unfold even_point, d, P. destruct (py_odd (pmul sk G)); [|done]. rewrite <- pmul_mul. by replace (- sk) with (-1 * sk) by lia. }
    assert (padd (pmul s G) (pmul (- e) (pmul d G)) = G) as ->; [|done].
    unfold s. rewrite pmul_modn, <- pmul_mul, <- pmul_add. replace (1 + e * d + - e * d) with 1 by lia. apply pmul_1.
Qed.

#[local] Instance toy_signing : SigningLaws.
Proof.
  split.
  - cbn. lia.
  - intros b r s HC. cbn in HC. unfold parse_sig in HC. destruct (negb _); [done|]. cbn [orb] in HC.
    destruct (Z.leb_spec field_size (be_value (take 32 b))); [done|]. destruct (Z.leb_spec order (be_value (drop 32 b))); [done|]. injection HC as <- <-.
    pose proof (be_value_nonneg (take 32 b)). pose proof (be_value_nonneg (drop 32 b)). lia.
  - intros r s Hr Hs. cbn in Hr, Hs. cbn [ParseSignature SerializeSignature toy_btcd]. unfold parse_sig, serialize_sig. cbn [fst snd].
    rewrite length_app, !be_bytes_length, (take_app_length' (be_bytes 32 r)), (drop_app_length' (be_bytes 32 r)), !be_value_be_bytes by (by rewrite be_bytes_length).
    rewrite !Z.mod_small by (change (256 ^ Z.of_nat 32) with (2 ^ 256); lia). cbn. by rewrite (proj2 (Z.leb_gt 4 r)), (proj2 (Z.leb_gt 7 s)) by lia.
  - intros z. change (SerializeSignature z) with (be_bytes 32 z.1 ++ be_bytes 32 z.2). by rewrite length_app, !be_bytes_length.
  - intros tx i prev script sk h HC Hsk. assert (h = be_bytes 32 (total tx)) as -> by (cbn [TapscriptSigHash toy_btcd] in HC; congruence).
    destruct (sign_verifies sk (be_bytes 32 (total tx)) Hsk) as (z & Hz & HV). exact (ex_intro _ _ (ex_intro _ z (conj eq_refl (conj Hz HV)))).
  - intros tx i prev script w. reflexivity.
  - intros leaves i [x Hx]. exists [x00]. cbn. by rewrite Hx.
Defined.

Definition engine (h script : bytes) (stack : list bytes) : bool :=
  match decode (length script) script with
  | Some its => match run h its (SBytes <$> stack) with Some [SNum 1] => true | _ => false end
  | None => false
  end.
#[local] Instance toy_engine : TapscriptEngine.
Proof.
  refine {| Tapscript := engine |}. intros h scripts its stack HB HR. unfold engine.
  assert (∃ l, mapM encode (concat its) = Some l ∧ concat scripts = concat l) as (l & Hl & ->).
  { clear HR. induction HB as [|it b its scripts Hb HB (l & Hl & IH)]; [by exists []|]. cbn in Hb. destruct (mapM encode it) as [l0|] eqn:E; [|done]. injection Hb as <-.
    exists (l0 ++ l). cbn [concat]. split; [|by rewrite concat_app, IH]. apply mapM_Some. apply Forall2_app; by apply mapM_Some. }
  rewrite (decode_all _ _ _ Hl) by done. by rewrite HR.
Defined.

(** ** A stake *)

Definition staker : point := pmul 1 G.
Definition fpSK : Z := 2.
Definition fp : bytes := SerializePubKey (pmul fpSK G).
Definition cov : bytes := SerializePubKey (pmul 3 G).
Definition params : StakingParams := mkStakingParams [cov] 1 5000 20000 10 1000 [x6a; x01] 500 (DecOne / 10) 20 500 0 0 0 100.

(** The staking transaction, its slashing transaction, the unbonding transaction and its
    slashing transaction. *)
Definition fundingIn : TxIn := mkTxIn (mkOutPoint (replicate 32 x00) 0) [] [] MaxTxInSequenceNum.
Definition no_out : TxOut := mkTxOut 0 [].
Definition info : StakingInfo := get_ok (mkStakingInfo no_out (mkHolder []) [] [] []) (BuildStakingInfo staker [pmul fpSK G] [pmul 3 G] 1 100 10000).
Definition uinfo : UnbondingInfo := get_ok (mkUnbondingInfo no_out (mkHolder []) [] []) (BuildUnbondingInfo staker [pmul fpSK G] [pmul 3 G] 1 20 9500).
Definition change : bytes := get_ok [] (BuildRelativeTimelockTaprootScript staker 20).
Definition toy_txhash (tx : MsgTx) : bytes := be_bytes 32 (total tx).
Definition stx : MsgTx := mkMsgTx 2 [fundingIn] [StakingOutput info] 0.
Definition slashing (funding : MsgTx) (rest : Z) : MsgTx :=
  mkMsgTx 2 [mkTxIn (mkOutPoint (toy_txhash funding) 0) [] [] MaxTxInSequenceNum] [mkTxOut 1000 [x6a; x01]; mkTxOut rest change] 0.
Definition sltx : MsgTx := slashing stx 8000.
Definition utx : MsgTx := mkMsgTx 2 [mkTxIn (mkOutPoint (toy_txhash stx) 0) [] [] MaxTxInSequenceNum] [UnbondingOutput uinfo] 0.
Definition usltx : MsgTx := slashing utx 7999.

#[local] Instance toy_txs : BtcTx MsgTx := {|
  NewTxFromBytes b := match b with [x01] => Some stx | [x02] => Some sltx | [x03] => Some utx | [x04] => Some usltx | _ => None end;
  TxHash := toy_txhash;
  PkScripts tx := PkScript <$> TxOuts tx;
  CheckTransactionSanity tx := forallb (λ out, (0 <=? Value out) && (Value out <=? 21 * 10 ^ 14)) (TxOuts tx);
  IsNullData _ := false;
  BuildMerkleTreeStore txs := Some <$> concat (merkle_levels (toy_txhash <$> txs))
|}.
#[local] Instance toy_sanity : SanityLaws toy_txs.
Proof.
  split. intros tx Hs. apply Forall_forall. intros out Hout. cbn in Hs. rewrite forallb_forall in Hs. apply list_elem_of_In, Hs in Hout.
  apply andb_true_iff in Hout as [?%Z.leb_le ?%Z.leb_le]. split; done.
Defined.
#[local] Instance toy_spv : SpvLaws MsgTx bytes.
Proof.
  split.
  - intros tx. apply be_bytes_length.
  - intros h. apply be_bytes_length.
  - intros txs _. change (omap id (Some <$> concat (merkle_levels (TxHash <$> txs))) = concat (merkle_levels (TxHash <$> txs))).
    generalize (concat (merkle_levels (TxHash <$> txs))). intros l. induction l as [|x l IH]; [reflexivity|]. cbn. f_equal. exact IH.
Defined.
#[local] Instance toy_pop : PopBtcd := {|
  Address := unit; DecodeAddress _ := Ok tt; PayToAddrScript _ := Ok []; ScriptAddress _ := []; NewAddressTaproot _ := Ok tt;
  IsPayToWitnessPubKeyHash _ := false; ExecuteScript _ _ _ := Ok tt; ParseCompressedPubKey b := ParseJacobian b; ComputeTaprootKeyNoScript P := P;
  RecoverCompact _ _ := None; UnmarshalBIP322Sig _ := None;
  ReadVarInt b := if (length b <? 8)%nat then None else Some (be_value (take 8 b), drop 8 b);
  WriteVarInt n := be_bytes 8 n;
  WriteVarBytes b := be_bytes 8 (Z.of_nat (length b)) ++ b
|}.
#[local] Instance toy_varint : VarIntLaws toy_pop.
Proof.
  split; [|done]. intros n rest Hn. cbn [ReadVarInt WriteVarInt toy_pop]. rewrite length_app, be_bytes_length. destruct (Nat.ltb_spec (8 + length rest) 8); [lia|].
  rewrite take_app_length', drop_app_length' by (by rewrite be_bytes_length). by rewrite be_value_be_bytes, Z.mod_small by (change (256 ^ Z.of_nat 8) with (2 ^ 64); lia).
Defined.
#[local] Instance toy_spend : SpendBtcd := {|
  HashStr := hex_encode; HashFromStr := hex_decode; WriteTxOut _ := Ok []; ReadTxOut _ := Ok no_out; ParseControlBlock _ := Ok tt;
  VerifyTaprootLeafCommitment _ _ _ := Ok tt; TapscriptSigHashWith _ _ tx _ _ _ := Ok (be_bytes 32 (total tx)); PrivKeyFromBytes b := be_value b
|}.
#[local] Instance toy_env : StakingEnv unit := {| ConsumeGas w _ := Ok w; IndexRefundableStaking w _ := w |}.

(** The light client has a header at height 150 whose block starts with the staking
    transaction, and its tip at height 200. *)
Definition node : bytes := replicate 32 x07.
Definition block_header : bytes := DoubleHashH (toy_txhash stx ++ node).
Definition hs : headersState :=
  mkHeaders (<[150 := LightClient.mkHeaderInfo block_header [x0a] 150 1]> {[200 := LightClient.mkHeaderInfo [] [x0b] 200 2]}) {[[x0a] := 150]}.
Definition ctx : Ctx := mkCtx 10 [] 0.
Definition addr : bytes := replicate 20 x01.
Definition pop : ProofOfPossessionBTC := mkPopBTC BIP340 (sign 1 (sha256 addr)).
Definition s0 : StakingState := set_finalityProviders empty_staking {[fp := mkFP "fp" [] None fp pop 0 0 false 0 None]}.
Definition s1 : StakingState := get_ok s0 (UpdateParams "gov" 10 s0 "gov" params).
Definition create : MsgCreateBTCDelegation :=
  mkMsgCreateDel (hex_encode addr) (Some pop) (Some (SerializePubKey staker)) [fp] 100 10000 [x01] None (Some [x02]) (Some (sign 1 (be_bytes 32 9000)))
    20 [x03] 9500 (Some [x04]) (Some (sign 1 (be_bytes 32 8999))).
Definition s2 : StakingState := (get_ok (s1, tt) (CreateBTCDelegation ctx 10 hs (s1, tt) create)).1.
Definition adaptor (h : bytes) : bytes :=
  AdaptorSignature_Marshal (get_ok (mkAdaptorSig G 0) (EncSignWithAuxData 3 2 3 (pmul fpSK G) h (be_bytes 32 1))).
Definition covenant : MsgAddCovenantSigs :=
  mkMsgCovSigs cov (hex_encode (toy_txhash stx)) [adaptor (be_bytes 32 9000)] (sign 3 (be_bytes 32 9500)) [adaptor (be_bytes 32 8999)] None.
Definition s3 : StakingState := (get_ok (s2, tt) (AddCovenantSigs_msg hs (s2, tt) covenant)).1.

(** ** Witnesses *)

Lemma s1_Ok : UpdateParams "gov" 10 s0 "gov" params = Ok s1.
Proof. apply is_ok_get. vm_compute. reflexivity. Qed.
Lemma step_Ok {A} (a0 a : A) (m : outcome (A * unit)) : is_ok m = true → (get_ok (a0, tt) m).1 = a → m = Ok (a, tt).
Proof. destruct m as [[x []]| |]; [|done..]. simpl. by intros _ ->. Qed.
Lemma s3_history : staking_history 1 s3.
Proof.
  eapply (sh_covenant 1 s2 hs tt covenant s3 tt).
  - eapply (sh_create 1 s1 ctx 10 hs tt create s2 tt).
    + eapply (sh_params 0 s0); [by apply sh_genesis|exact s1_Ok].
    + split_and!; vm_compute; congruence.
    + apply (step_Ok s1); [vm_compute; reflexivity|reflexivity].
  - apply (step_Ok s2); [vm_compute; reflexivity|reflexivity].
Qed.
Lemma s3_delegation : ∃ d, btcDelegations s3 !! toy_txhash stx = Some d ∧ d_FpBtcPkList d = [fp] ∧
  GetParamsByVersion s3 (d_ParamsVersion d) = Some params ∧ length (d_CovenantSigs d) = 1%nat.
Proof.
  destruct (btcDelegations s3 !! toy_txhash stx) as [d|] eqn:E; [|by vm_compute in E].
  assert (Ed : (λ d, (d_FpBtcPkList d, d_ParamsVersion d, length (d_CovenantSigs d))) <$> (btcDelegations s3 !! toy_txhash stx) = Some ([fp], 0, 1%nat)) by (vm_compute; reflexivity).
  rewrite E in Ed. injection Ed as E1 E2 E3. exists d. split; [reflexivity|]. split; [exact E1|]. split; [|exact E3].
  rewrite E2. vm_compute. reflexivity.
Qed.

Lemma delegations_slashable_witness :
  ∃ d p, btcDelegations s3 !! toy_txhash stx = Some d ∧ GetParamsByVersion s3 (d_ParamsVersion d) = Some p ∧ slashable p d ∧ signed p d.
Proof.
  destruct s3_delegation as (d & Hd & _). destruct (delegations_slashable 1 s3 (toy_txhash stx) d s3_history ltac:(lia) Hd) as (_ & p & Hp). exact (ex_intro _ d (ex_intro _ p (conj Hd Hp))).
Defined.

Lemma slashing_completes_witness :
  ∃ d out h tx, btcDelegations s3 !! toy_txhash stx = Some d ∧ del_BuildSlashingTxWithWitness 5 d params fpSK = Ok tx ∧ spends sltx out h tx.
Proof.
  destruct s3_delegation as (d & Hd & Hfp & Hp & Hlen).
  destruct (slashing_completes 1 s3 (toy_txhash stx) d params fpSK 5 s3_history ltac:(lia) Hd Hp Hfp) as (st & stx' & sltx' & utx' & usltx' & out & uout & h & uh & tx & tx' & HR).
  - vm_compute. congruence.
  - rewrite Hlen. vm_compute. split; congruence.
  - intros h _ cas b sig _ _ _. apply challenge_small.
  - intros h _ cas b sig _ _ _. apply challenge_small.
  - destruct HR as (_ & _ & Hsl & _ & _ & _ & _ & Htx & Hsp & _). exists d, out, h, tx. split; [exact Hd|]. split; [exact Htx|].
    assert (Ed : d_SlashingTx <$> (btcDelegations s3 !! toy_txhash stx) = Some [x02]) by (vm_compute; reflexivity).
    rewrite Hd in Ed. injection Ed as Ed. rewrite Ed in Hsl. change (Ok sltx = Ok sltx') in Hsl. assert (sltx = sltx') as -> by congruence. exact Hsp.
Defined.

Lemma params_in_force_witness : ∃ v p, GetParamsForBtcHeight s1 200 = Ok (Some p, v) ∧ sp_BtcActivationHeight p ≤ 200.
Proof.
  destruct (params_in_force 1 s1 200) as (_ & _ & [(v & p & Hg & _ & Ha & _)|(e & He & _)]).
  - eapply (ph_set 0 s0 params); [by apply ph_genesis|]. exact s1_Ok.
  - lia.
  - vm_compute. eauto.
  - exact (ex_intro _ v (ex_intro _ p (conj Hg Ha))).
  - exfalso. vm_compute in He. congruence.
Defined.

Lemma SimpleSigToWitness_roundtrip_witness : SimpleSigToWitness (SerializeWitness [[x01; x02]; [x03]] ++ [x09]) = Ok [[x01; x02]; [x03]].
Proof. apply (SimpleSigToWitness_roundtrip [[x01; x02]; [x03]] [x09]); [vm_compute; congruence|repeat constructor; vm_compute; congruence]. Defined.

(** The same stake, included at height 150 with a time lock until 210, when the tip is at
    200 and 20 blocks are needed to unbond. *)
Definition late : StakingState :=
  set_btcDelegations s2 ((λ d, with_heights d 150 210) <$> btcDelegations s2).
Definition late_info : btcDelegationWithParams := get_ok (mkDelInfo (mkDel "" [] pop [] 0 0 0 0 [] 0 [] [] [] 0 (mkUndel [] [] [] [] [] None) 0 0 None) params None None)
  (getBTCDelWithParams late (mcs_StakingTxHash covenant)).
Definition late' : StakingState := (get_ok (late, tt) (AddCovenantSigs_msg hs (late, tt) covenant)).1.

Lemma late_quorum_activates_witness :
  ∃ d, btcDelegations late' !! toy_txhash stx = Some d ∧ GetStatus d 200 1 0 = EXPIRED ∧
    BtcDelStateUpdate (hex_encode (toy_txhash stx)) ACTIVE ∈ PowerDistUpdateEventsAt late' 200.
Proof.
  destruct (btcDelegations late' !! toy_txhash stx) as [d|] eqn:E; [|by vm_compute in E].
  assert (Eq : (λ d, HasCovenantQuorums d 1 0) <$> (btcDelegations late' !! toy_txhash stx) = Some true) by (vm_compute; reflexivity).
  rewrite E in Eq. injection Eq as Eq. exists d. split; [reflexivity|].
  destruct (late_quorum_activates hs late tt covenant late' tt late_info stx (LightClient.mkHeaderInfo [] [x0b] 200 2) d) as (H1 & _ & H2 & _).
  - apply is_ok_get. vm_compute. reflexivity.
  - vm_compute. reflexivity.
  - apply hex_decode_encode.
  - vm_compute. reflexivity.
  - vm_compute. reflexivity.
  - vm_compute. reflexivity.
  - vm_compute. reflexivity.
  - vm_compute. congruence.
  - vm_compute. congruence.
  - apply (step_Ok late); [vm_compute; reflexivity|reflexivity].
  - exact E.
  - exact Eq.
  - split; [exact H1|exact H2].
Defined.

Lemma coinbase_check_bypassed_witness :
  VerifyInclusionProofAndGetHeight hs stx 10 100 20 (mkParsedInclusion [x0a] node 0) = Err ErrInvalidStakingTx ∧
  VerifyInclusionProofAndGetHeight hs stx 10 100 20 (mkParsedInclusion [x0a] node (1 * 2 ^ Z.of_nat 1)) = Ok (mkTimeInfo 150 (u32 (150 + 100)) 200).
Proof.
  apply (coinbase_check_bypassed hs stx 10 100 20 [x0a] node 0 (LightClient.mkHeaderInfo block_header [x0a] 150 1) block_header
    (LightClient.mkHeaderInfo [] [x0b] 200 2) 1); first [reflexivity|vm_compute; reflexivity|vm_compute; congruence].
Defined.

End StakingExample.
