(* ===== verification/IdentifiableStaking.v ===== *)
(** * btcstaking: identifiable staking transactions

    The staking transactions of the first phase announce the keys and the time of
    the stake in an OP_RETURN output (identifiable_staking.go,
    identifiable_staking_types.go). The parser recovers what the builder was
    given; the cheap filter in front of the parser accepts what the builder makes,
    but refuses some transactions that the parser accepts. *)

From S2P Require Import Prelude Bytes Store BbnTypes Sha256 Curve Eots AdaptorSig BtcStaking Coins TxFormatter LightClient Spv SpvProofs StakingTx StakingExample.

Definition TagLen : nat := 4.
Definition V0OpReturnDataSize : nat := 71.
Definition PubKeyBytesLen : nat := 32.

(** [txscript.NullDataScript] is OP_RETURN followed by a push of the data, which
    [IsNullData] recognises; taproot output scripts have 34 bytes. *)
Class NullData := { NullDataScript : bytes → outcome bytes }.
Class NullDataLaws `{!Curve} {BT : BtcTx MsgTx} {SB : StakingBtcd} {ND : NullData} : Prop := {
  NullDataScript_push data : (2 ≤ length data ≤ 75)%nat →
    NullDataScript data = Ok (OP_RETURN :: byte_of_Z (Z.of_nat (length data)) :: data);
  IsNullData_push data : (2 ≤ length data ≤ 75)%nat → IsNullData (OP_RETURN :: byte_of_Z (Z.of_nat (length data)) :: data) = true;
  TaprootPkScript_length leaves script : TaprootPkScript leaves = Ok script → length script = 34%nat
}.

Definition uint16ToBytes (v : Z) : bytes := be_bytes 2 v.
Definition uint16FromBytes (b : bytes) : outcome Z :=
  if bool_decide (length b ≠ 2%nat) then Err (Errorf "invalid uint16 bytes length") else Ok (be_value b).

Section identifiable.
Context {curve : Curve} {CP : CompressedPoints} {SV : SchnorrVerification} {BT : BtcTx MsgTx} {SB : StakingBtcd} {ND : NullData}.

(** ** The data of the OP_RETURN output *)

Record V0OpReturnData := mkV0Data { d_Tag : bytes; d_Version : byte; d_StakerPublicKey : point; d_FinalityProviderPublicKey : point; d_StakingTime : Z }.

Definition XOnlyPublicKeyFromBytes (pkBytes : bytes) : outcome point := ToBTCPK pkBytes.
Definition XonlyPubKey_Marshall (p : point) : bytes := SerializePubKey p.

(** A key is [None] where the Go code is given nil. *)
Definition NewV0OpReturnDataFromParsed (tag : bytes) (stakerPublicKey finalityProviderPublicKey : option point) (stakingTime : Z) : outcome V0OpReturnData :=
  if bool_decide (length tag ≠ TagLen) then Err (Errorf "invalid tag length")
  else match stakerPublicKey, finalityProviderPublicKey with
       | None, _ => Err (Errorf "nil staker public key")
       | Some _, None => Err (Errorf "nil finality provider public key")
       | Some stk, Some fp => Ok (mkV0Data tag x00 stk fp stakingTime)
       end.
Definition NewV0OpReturnData (tag stakerPublicKey finalityProviderPublicKey stakingTime : bytes) : outcome V0OpReturnData :=
  if bool_decide (length tag ≠ TagLen) then Err (Errorf "invalid tag length")
  else
    stakerKey ← wrapf "invalid staker public key" (XOnlyPublicKeyFromBytes stakerPublicKey);
    fpKey ← wrapf "invalid finality provider public key" (XOnlyPublicKeyFromBytes finalityProviderPublicKey);
    stakingTimeValue ← wrapf "invalid staking time" (uint16FromBytes stakingTime);
    NewV0OpReturnDataFromParsed tag (Some stakerKey) (Some fpKey) stakingTimeValue.
Definition NewV0OpReturnDataFromBytes (b : bytes) : outcome V0OpReturnData :=
  if bool_decide (length b ≠ V0OpReturnDataSize) then Err (Errorf "invalid op return data length")
  else
    version ← index b TagLen;
    if bool_decide (version ≠ x00) then Err (Errorf "invalid op return version")
    else NewV0OpReturnData (take TagLen b) (take PubKeyBytesLen (drop (TagLen + 1) b)) (take PubKeyBytesLen (drop (TagLen + 1 + PubKeyBytesLen) b))
           (drop (TagLen + 1 + PubKeyBytesLen * 2) b).
Definition getV0OpReturnBytes (out : TxOut) : outcome bytes :=
  if bool_decide (length (PkScript out) ≠ (V0OpReturnDataSize + 2)%nat) then Err (Errorf "invalid op return data length")
  else if negb (IsNullData (PkScript out)) then Err (Errorf "invalid op return script")
  else Ok (drop 2 (PkScript out)).
Definition NewV0OpReturnDataFromTxOutput (out : TxOut) : outcome V0OpReturnData :=
  data ← wrapf "cannot parse op return data" (getV0OpReturnBytes out); NewV0OpReturnDataFromBytes data.
Definition V0OpReturnData_Marshall (d : V0OpReturnData) : bytes :=
  d_Tag d ++ [d_Version d] ++ XonlyPubKey_Marshall (d_StakerPublicKey d) ++ XonlyPubKey_Marshall (d_FinalityProviderPublicKey d) ++ uint16ToBytes (d_StakingTime d).
Definition ToTxOutput (d : V0OpReturnData) : outcome TxOut :=
  dataScript ← NullDataScript (V0OpReturnData_Marshall d); Ok (mkTxOut 0 dataScript).

(** ** Building *)

Record IdentifiableStakingInfo := mkIdInfo {
  idi_StakingOutput : TxOut; idi_scriptHolder : taprootScriptHolder;
  idi_timeLockPathLeafHash : bytes; idi_unbondingPathLeafHash : bytes; idi_slashingPathLeafHash : bytes; OpReturnOutput : TxOut }.

Definition BuildV0IdentifiableStakingOutputs (tag : bytes) (stakerKey fpKey : point) (covenantKeys : list point) (covenantQuorum stakingTime stakingAmount : Z)
    : outcome IdentifiableStakingInfo :=
  info ← BuildStakingInfo stakerKey [fpKey] covenantKeys covenantQuorum stakingTime stakingAmount;
  opReturnData ← NewV0OpReturnDataFromParsed tag (Some stakerKey) (Some fpKey) stakingTime;
  dataOutput ← ToTxOutput opReturnData;
  Ok (mkIdInfo (StakingOutput info) (sti_scriptHolder info) (sti_timeLockPathLeafHash info) (sti_unbondingPathLeafHash info)
        (sti_slashingPathLeafHash info) dataOutput).
Definition BuildV0IdentifiableStakingOutputsAndTx (tag : bytes) (stakerKey fpKey : point) (covenantKeys : list point)
    (covenantQuorum stakingTime stakingAmount : Z) : outcome (IdentifiableStakingInfo * MsgTx) :=
  info ← BuildV0IdentifiableStakingOutputs tag stakerKey fpKey covenantKeys covenantQuorum stakingTime stakingAmount;
  Ok (info, mkMsgTx 2 [] [idi_StakingOutput info; OpReturnOutput info] 0).
Definition idi_TimeLockPathSpendInfo (i : IdentifiableStakingInfo) : outcome SpendInfo := scriptSpendInfoByName (idi_scriptHolder i) (idi_timeLockPathLeafHash i).
Definition idi_UnbondingPathSpendInfo (i : IdentifiableStakingInfo) : outcome SpendInfo := scriptSpendInfoByName (idi_scriptHolder i) (idi_unbondingPathLeafHash i).
Definition idi_SlashingPathSpendInfo (i : IdentifiableStakingInfo) : outcome SpendInfo := scriptSpendInfoByName (idi_scriptHolder i) (idi_slashingPathLeafHash i).

(** ** Parsing *)

Record ParsedV0StakingTx := mkParsedV0 {
  pt_StakingOutput : TxOut; pt_StakingOutputIdx : Z; pt_OpReturnOutput : TxOut; pt_OpReturnOutputIdx : Z; pt_OpReturnData : V0OpReturnData }.

(** The loops keep what was found and its index, which is 0 before. *)
Fixpoint opReturnLoop (i : Z) (found : option V0OpReturnData) (idx : Z) (outputs : list TxOut) : outcome (option V0OpReturnData * Z) :=
  match outputs with
  | [] => Ok (found, idx)
  | output :: outputs =>
    match NewV0OpReturnDataFromTxOutput output with
    | Panic e => Panic e
    | Err _ => opReturnLoop (i + 1) found idx outputs
    | Ok d => match found with
              | Some _ => Err (Errorf "multiple op return outputs found")
              | None => opReturnLoop (i + 1) (Some d) i outputs
              end
    end
  end.
Definition tryToGetOpReturnDataFromOutputs (outputs : list TxOut) : outcome (option V0OpReturnData * Z) :=
  if (length outputs =? 0)%nat then Ok (None, -1) else opReturnLoop 0 None 0 outputs.

Fixpoint stakingOutputLoop (stakingOutputPkScript : bytes) (i : Z) (found : option TxOut) (idx : Z) (outputs : list TxOut) : outcome (option TxOut * Z) :=
  match outputs with
  | [] => Ok (found, idx)
  | output :: outputs =>
    if bool_decide (PkScript output ≠ stakingOutputPkScript) then stakingOutputLoop stakingOutputPkScript (i + 1) found idx outputs
    else match found with
         | Some _ => Err (Errorf "multiple staking outputs found")
         | None => stakingOutputLoop stakingOutputPkScript (i + 1) (Some output) i outputs
         end
  end.
Definition tryToGetStakingOutput (outputs : list TxOut) (stakingOutputPkScript : bytes) : outcome (option TxOut * Z) :=
  if (length outputs =? 0)%nat then Ok (None, -1) else stakingOutputLoop stakingOutputPkScript 0 None 0 outputs.

Definition ParseV0StakingTxWithoutTag (tx : MsgTx) (covenantKeys : list point) (covenantQuorum : Z) : outcome ParsedV0StakingTx :=
  if (length covenantKeys =? 0)%nat then Err (Errorf "no covenant keys specified")
  else if Z.of_nat (length covenantKeys) <? covenantQuorum then Err (Errorf "covenant quorum is greater than the number of covenant keys")
  else if (length (TxOuts tx) <? 2)%nat then Err (Errorf "staking tx must have at least 2 outputs")
  else
    '(opReturnData, opReturnOutputIdx) ← wrapf "cannot parse staking transaction" (tryToGetOpReturnDataFromOutputs (TxOuts tx));
    match opReturnData with
    | None => Err (Errorf "transaction does not have expected op return output")
    | Some d =>
      if bool_decide (d_Version d ≠ x00) then Err (Errorf "unexpected version")
      else
        stakingInfo ← wrapf "cannot build staking info"
          (BuildStakingInfo (d_StakerPublicKey d) [d_FinalityProviderPublicKey d] covenantKeys covenantQuorum (d_StakingTime d) 0);
        '(stakingOutput, stakingOutputIdx) ← wrapf "cannot parse staking transaction"
          (tryToGetStakingOutput (TxOuts tx) (PkScript (StakingOutput stakingInfo)));
        match stakingOutput with
        | None => Err (Errorf "staking output not found in potential staking transaction")
        | Some o =>
          opReturnOutput ← index (TxOuts tx) (Z.to_nat opReturnOutputIdx);
          Ok (mkParsedV0 o stakingOutputIdx opReturnOutput opReturnOutputIdx d)
        end
    end.
Definition ParseV0StakingTx (tx : MsgTx) (expectedTag : bytes) (covenantKeys : list point) (covenantQuorum : Z) : outcome ParsedV0StakingTx :=
  if bool_decide (length expectedTag ≠ TagLen) then Err (Errorf "invalid tag length")
  else
    v0StakingTx ← ParseV0StakingTxWithoutTag tx covenantKeys covenantQuorum;
    if bool_decide (d_Tag (pt_OpReturnData v0StakingTx) ≠ expectedTag) then Err (Errorf "unexpected tag") else Ok v0StakingTx.

(** [data[TagLen]] is in range: the data have 71 bytes. *)
Fixpoint possibleLoop (expectedTag : bytes) (possibleStakingTx : bool) (outputs : list TxOut) : bool :=
  match outputs with
  | [] => possibleStakingTx
  | output :: outputs =>
    match getV0OpReturnBytes output with
    | Ok data =>
      if bool_decide (take TagLen data ≠ expectedTag) then possibleLoop expectedTag possibleStakingTx outputs
      else if bool_decide (data !! TagLen ≠ Some x00) then possibleLoop expectedTag possibleStakingTx outputs
      else if possibleStakingTx then false else possibleLoop expectedTag true outputs
    | _ => possibleLoop expectedTag possibleStakingTx outputs
    end
  end.
Definition IsPossibleV0StakingTx (tx : MsgTx) (expectedTag : bytes) : bool :=
  if bool_decide (length expectedTag ≠ TagLen) then false
  else if (length (TxOuts tx) <? 2)%nat then false
  else possibleLoop expectedTag false (TxOuts tx).
End identifiable.

(** ** Theorems *)

Section proofs.
Context {curve : Curve} {claws : CurveLaws} {CP : CompressedPoints} {SV : SchnorrVerification} {BT : BtcTx MsgTx} {SB : StakingBtcd}
  {ND : NullData} {laws : NullDataLaws}.

(** *** Marshalling *)

Lemma SerializePubKey_length (P : point) : length (SerializePubKey P) = PubKeyBytesLen.
Proof using. apply be_bytes_length. Qed.

Lemma SerializePubKey_even (P : point) : P ≠ infinity → SerializePubKey (even_point P) = SerializePubKey P.
Proof using claws. intros HP. unfold SerializePubKey. by destruct (even_point_spec P HP) as (_ & _ & ->). Qed.

Lemma Marshall_length d : length (d_Tag d) = TagLen → length (V0OpReturnData_Marshall d) = V0OpReturnDataSize.
Proof using.
  intros Ht. unfold V0OpReturnData_Marshall, XonlyPubKey_Marshall, uint16ToBytes.
  by rewrite !length_app, !SerializePubKey_length, be_bytes_length, Ht.
Qed.

Lemma lookup_version (tag r : bytes) v : length tag = TagLen → (tag ++ [v] ++ r) !! TagLen = Some v.
Proof using. intros Ht. rewrite lookup_app_r by lia. by rewrite Ht. Qed.

(** The bytes of a stake, cut into their fields. *)
Lemma FromBytes_fields tag v pk1 pk2 t :
  length tag = TagLen → length pk1 = PubKeyBytesLen → length pk2 = PubKeyBytesLen → length t = 2%nat →
  NewV0OpReturnDataFromBytes (tag ++ [v] ++ pk1 ++ pk2 ++ t) =
  if bool_decide (v ≠ x00) then Err (Errorf "invalid op return version") else NewV0OpReturnData tag pk1 pk2 t.
Proof using.
  intros Ht H1 H2 H3. unfold NewV0OpReturnDataFromBytes, index. rewrite bool_decide_false by (rewrite !length_app, Ht, H1, H2, H3; auto).
  rewrite lookup_version by done. cbn [app mbind outcome_bind].
  rewrite take_app_length' by done.
  replace (tag ++ v :: pk1 ++ pk2 ++ t) with ((tag ++ [v]) ++ pk1 ++ pk2 ++ t) by by rewrite <- app_assoc.
  rewrite (drop_app_length' (tag ++ [v])) by (by rewrite length_app, Ht). rewrite take_app_length' by done.
  replace ((tag ++ [v]) ++ pk1 ++ pk2 ++ t) with ((tag ++ [v] ++ pk1) ++ pk2 ++ t) by by rewrite <- !app_assoc.
  rewrite (drop_app_length' (tag ++ [v] ++ pk1)) by (by rewrite !length_app, Ht, H1). rewrite take_app_length' by done.
  replace ((tag ++ [v] ++ pk1) ++ pk2 ++ t) with ((tag ++ [v] ++ pk1 ++ pk2) ++ t) by by rewrite <- !app_assoc.
  by rewrite (drop_app_length' (tag ++ [v] ++ pk1 ++ pk2)) by (by rewrite !length_app, Ht, H1, H2).
Qed.

Definition even_data (d : V0OpReturnData) : V0OpReturnData :=
  mkV0Data (d_Tag d) (d_Version d) (even_point (d_StakerPublicKey d)) (even_point (d_FinalityProviderPublicKey d)) (d_StakingTime d).

Lemma FromBytes_Marshall tag P Q t :
  length tag = TagLen → P ≠ infinity → Q ≠ infinity → 0 ≤ t < 2 ^ 16 →
  NewV0OpReturnDataFromBytes (V0OpReturnData_Marshall (mkV0Data tag x00 P Q t)) = Ok (even_data (mkV0Data tag x00 P Q t)).
Proof using claws.
  intros Ht HP HQ Hr. unfold V0OpReturnData_Marshall, XonlyPubKey_Marshall, uint16ToBytes. cbn [d_Tag d_Version d_StakerPublicKey d_FinalityProviderPublicKey d_StakingTime].
  rewrite FromBytes_fields by (done || apply SerializePubKey_length || apply be_bytes_length). rewrite bool_decide_false by auto.
  unfold NewV0OpReturnData, XOnlyPublicKeyFromBytes, ToBTCPK, uint16FromBytes, NewV0OpReturnDataFromParsed.
  rewrite !bool_decide_false by (rewrite ?be_bytes_length; auto). rewrite !Parse_Serialize by done. cbn [wrapf mbind outcome_bind].
  rewrite be_value_be_bytes, Z.mod_small; [done|]. change (256 ^ Z.of_nat 2) with (2 ^ 16). done.
Qed.

(** An output that pushes 71 bytes. *)
Definition pushOut (data : bytes) : TxOut := mkTxOut 0 (OP_RETURN :: byte_of_Z 71 :: data).

Lemma getV0OpReturnBytes_push data : length data = V0OpReturnDataSize → getV0OpReturnBytes (pushOut data) = Ok data.
Proof using laws.
  intros Hl. unfold getV0OpReturnBytes, pushOut. cbn [PkScript]. rewrite bool_decide_false by (cbn [length]; rewrite Hl; auto).
  pose proof (IsNullData_push data) as Hn. rewrite Hl in Hn. change (Z.of_nat V0OpReturnDataSize) with 71 in Hn.
  rewrite Hn by (unfold V0OpReturnDataSize; lia). done.
Qed.

Lemma ToTxOutput_push d : length (d_Tag d) = TagLen → ToTxOutput d = Ok (pushOut (V0OpReturnData_Marshall d)).
Proof using laws.
  intros Ht. apply Marshall_length in Ht. unfold ToTxOutput. rewrite NullDataScript_push by (rewrite Ht; unfold V0OpReturnDataSize; lia).
  by rewrite Ht.
Qed.

(** *** The staking output depends on the keys through their serialization *)

Lemma BuildStakingInfo_ext stk fp stk' fp' cov q t a a' info :
  SerializePubKey stk' = SerializePubKey stk → SerializePubKey fp' = SerializePubKey fp →
  BuildStakingInfo stk [fp] cov q t a = Ok info →
  ∃ info', BuildStakingInfo stk' [fp'] cov q t a' = Ok info' ∧ PkScript (StakingOutput info') = PkScript (StakingOutput info).
Proof using.
  intros E1 E2 H. assert (Hp : newBabylonScriptPaths stk' [fp'] cov q t = newBabylonScriptPaths stk [fp] cov q t).
  { unfold newBabylonScriptPaths, checkForDuplicateKeys, buildTimeLockScript, buildSingleKeySigScript, buildMultiSigScript.
    cbn [app foldM]. unfold buildSingleKeySigScript. by rewrite E1, E2. }
  unfold BuildStakingInfo in *. rewrite Hp. apply bind_Ok in H as (scripts & H1 & H). rewrite H1. cbn [mbind outcome_bind].
  apply bind_Ok in H as (sh & H2 & H). rewrite H2. cbn [mbind outcome_bind]. apply bind_Ok in H as (pks & H3 & [= <-]).
  rewrite H3. by eexists.
Qed.

Lemma BuildStakingInfo_facts stk fp cov q t a info :
  BuildStakingInfo stk [fp] cov q t a = Ok info →
  length (PkScript (StakingOutput info)) = 34%nat ∧ (0 < length cov)%nat ∧ q ≤ Z.of_nat (length cov).
Proof using laws.
  unfold BuildStakingInfo. intros H. apply bind_Ok in H as (scripts & H1 & H). apply bind_Ok in H as (sh & _ & H).
  apply bind_Ok in H as (pks & H3 & [= <-]). apply wrapf_Ok in H1, H3. split; [by eapply TaprootPkScript_length|].
  unfold newBabylonScriptPaths in H1. apply bind_Ok in H1 as (? & _ & H1). apply bind_Ok in H1 as (? & _ & H1).
  apply bind_Ok in H1 as (cs & H1 & _). unfold buildMultiSigScript in H1. destruct cov as [|k cov]; [done|].
  destruct (Z.ltb_spec (Z.of_nat (length (k :: cov))) q); [done|]. cbn [length] in *. lia.
Qed.

(** *** The loops *)

Definition unrecognised (o : TxOut) : Prop := ∃ e, NewV0OpReturnDataFromTxOutput o = Err e.

Lemma opReturnLoop_skip i found idx outs : Forall unrecognised outs → opReturnLoop i found idx outs = Ok (found, idx).
Proof using. intros Ho. revert i. induction Ho as [|o outs [e He] _ IH]; intros i; [done|]. cbn. rewrite He. apply IH. Qed.

Lemma stakingOutputLoop_skip script i found idx outs :
  Forall (λ o, PkScript o ≠ script) outs → stakingOutputLoop script i found idx outs = Ok (found, idx).
Proof using.
  intros Ho. revert i. induction Ho as [|o outs He _ IH]; intros i; [done|]. cbn. rewrite bool_decide_true by done. apply IH.
Qed.

Lemma possibleLoop_skip tag b outs : Forall (λ o, is_ok (getV0OpReturnBytes o) = false) outs → possibleLoop tag b outs = b.
Proof using.
  intros Ho. induction Ho as [|o outs He _ IH]; [done|]. cbn. destruct (getV0OpReturnBytes o); [done|apply IH..].
Qed.

Lemma getV0OpReturnBytes_cases o : is_ok (getV0OpReturnBytes o) = false → unrecognised o.
Proof using.
  unfold unrecognised, NewV0OpReturnDataFromTxOutput, getV0OpReturnBytes. intros H.
  case_bool_decide; [by eexists|]. destruct (IsNullData (PkScript o)); [done|by eexists].
Qed.

Lemma short_unrecognised o : length (PkScript o) = 34%nat → is_ok (getV0OpReturnBytes o) = false.
Proof using. intros Hl. unfold getV0OpReturnBytes. rewrite bool_decide_true by (rewrite Hl; unfold V0OpReturnDataSize; lia). done. Qed.

(** *** What the builder makes *)

Lemma built_outputs tag stk fp cov q t a info tx :
  BuildV0IdentifiableStakingOutputsAndTx tag stk fp cov q t a = Ok (info, tx) →
  ∃ si, BuildStakingInfo stk [fp] cov q t a = Ok si ∧ length tag = TagLen ∧ idi_StakingOutput info = StakingOutput si ∧
    OpReturnOutput info = pushOut (V0OpReturnData_Marshall (mkV0Data tag x00 stk fp t)) ∧
    TxOuts tx = [idi_StakingOutput info; OpReturnOutput info].
Proof using laws.
  unfold BuildV0IdentifiableStakingOutputsAndTx, BuildV0IdentifiableStakingOutputs. intros H.
  apply bind_Ok in H as (info' & H & [= -> <-]). apply bind_Ok in H as (si & Hsi & H). apply bind_Ok in H as (d & Hd & H).
  unfold NewV0OpReturnDataFromParsed in Hd. case_bool_decide as Ht; [done|]. injection Hd as <-.
  rewrite ToTxOutput_push in H by done. injection H as <-. exists si. done.
Qed.

(** The parser finds the two outputs among outputs that are neither. *)
Lemma parse_built tag stk fp cov q t a info tx v ins extra lock :
  BuildV0IdentifiableStakingOutputsAndTx tag stk fp cov q t a = Ok (info, tx) →
  stk ≠ infinity → fp ≠ infinity → 0 ≤ t < 2 ^ 16 →
  Forall (λ o, unrecognised o ∧ PkScript o ≠ PkScript (idi_StakingOutput info)) extra →
  ParseV0StakingTx (mkMsgTx v ins (TxOuts tx ++ extra) lock) tag cov q =
  Ok (mkParsedV0 (idi_StakingOutput info) 0 (OpReturnOutput info) 1 (mkV0Data tag x00 (even_point stk) (even_point fp) t)).
Proof using claws laws.
  intros Hb HP HQ Ht Hextra. destruct (built_outputs _ _ _ _ _ _ _ _ _ Hb) as (si & Hsi & Htag & Es & Eo & Etx).
  destruct (BuildStakingInfo_facts _ _ _ _ _ _ _ Hsi) as (Hlen & Hc & Hq).
  destruct (BuildStakingInfo_ext stk fp (even_point stk) (even_point fp) cov q t a 0 si) as (si' & Hsi' & Epk); [by apply SerializePubKey_even..|done|].
  apply Forall_and in Hextra as [Hun Hne].
  unfold ParseV0StakingTx, ParseV0StakingTxWithoutTag. rewrite bool_decide_false by auto. rewrite Etx. cbn [TxOuts app length].
  destruct (Nat.eqb_spec (length cov) 0); [lia|]. destruct (Z.ltb_spec (Z.of_nat (length cov)) q); [lia|]. cbn [Nat.ltb Nat.leb].
  unfold tryToGetOpReturnDataFromOutputs, tryToGetStakingOutput. cbn [length Nat.eqb].
  assert (Hfirst : unrecognised (idi_StakingOutput info)) by (apply getV0OpReturnBytes_cases, short_unrecognised; by rewrite Es).
  destruct Hfirst as [e He]. cbn [opReturnLoop]. rewrite He.
  assert (Hsecond : NewV0OpReturnDataFromTxOutput (OpReturnOutput info) = Ok (even_data (mkV0Data tag x00 stk fp t))).
  { unfold NewV0OpReturnDataFromTxOutput. rewrite Eo, getV0OpReturnBytes_push by (by apply Marshall_length). by apply FromBytes_Marshall. }
  rewrite Hsecond, opReturnLoop_skip by done. unfold even_data. cbn [wrapf mbind outcome_bind d_Version d_StakerPublicKey d_FinalityProviderPublicKey d_StakingTime d_Tag].
  rewrite bool_decide_false by auto. rewrite Hsi'. cbn [wrapf mbind outcome_bind stakingOutputLoop]. rewrite Epk, <- Es.
  rewrite bool_decide_false by auto. rewrite bool_decide_true; [|rewrite Eo; unfold pushOut; cbn [PkScript]; intros Ec; rewrite <- Es, <- Ec in Hlen;
    cbn [length] in Hlen; rewrite Marshall_length in Hlen; done].
  rewrite stakingOutputLoop_skip by done. cbn. change (Z.to_nat (0 + 1)) with 1%nat. change (0 + 1) with 1. unfold index.
  cbn [lookup list_lookup mbind outcome_bind pt_OpReturnData d_Tag]. by rewrite bool_decide_false by auto.
Qed.

(** C32: The parser inverts the builder. A transaction that carries the two outputs
    built for a stake, with any inputs and further outputs that are neither
    OP_RETURN outputs of the same size nor the staking output, is parsed as a
    staking transaction with the tag: the staking output is at 0, the OP_RETURN
    output at 1, and the data are the tag, version 0, the x-only keys of the staker
    and the provider, and the staking time. The fast filter accepts it too. *)
Theorem identifiable_roundtrip tag stk fp cov q t a info tx v ins extra lock :
  BuildV0IdentifiableStakingOutputsAndTx tag stk fp cov q t a = Ok (info, tx) →
  stk ≠ infinity → fp ≠ infinity → 0 ≤ t < 2 ^ 16 →
  Forall (λ o, is_ok (getV0OpReturnBytes o) = false ∧ PkScript o ≠ PkScript (idi_StakingOutput info)) extra →
  ParseV0StakingTx (mkMsgTx v ins (TxOuts tx ++ extra) lock) tag cov q =
    Ok (mkParsedV0 (idi_StakingOutput info) 0 (OpReturnOutput info) 1 (mkV0Data tag x00 (even_point stk) (even_point fp) t)) ∧
  IsPossibleV0StakingTx (mkMsgTx v ins (TxOuts tx ++ extra) lock) tag = true.
Proof using claws laws.
  intros Hb HP HQ Ht Hextra. split.
  - eapply parse_built; [eassumption..|]. eapply Forall_impl; [exact Hextra|]. intros o [Ho ?]. split; [by apply getV0OpReturnBytes_cases|done].
  - apply Forall_and in Hextra as [Hun _]. destruct (built_outputs _ _ _ _ _ _ _ _ _ Hb) as (si & Hsi & Htag & Es & Eo & Etx).
    destruct (BuildStakingInfo_facts _ _ _ _ _ _ _ Hsi) as (Hlen & _ & _). rewrite <- Es in Hlen.
    unfold IsPossibleV0StakingTx. rewrite bool_decide_false by auto. rewrite Etx. cbn [TxOuts app length Nat.ltb Nat.leb possibleLoop].
    apply short_unrecognised in Hlen. destruct (getV0OpReturnBytes (idi_StakingOutput info)); [done|..];
    (rewrite Eo, getV0OpReturnBytes_push by (by apply Marshall_length); unfold V0OpReturnData_Marshall; cbn [d_Tag d_Version];
     rewrite take_app_length' by done; rewrite bool_decide_false by auto; rewrite lookup_version by done;
     rewrite bool_decide_false by auto; by apply possibleLoop_skip).
Qed.

(** *** What the parser accepts *)

Lemma opReturnLoop_found i d idx outs r :
  opReturnLoop i (Some d) idx outs = Ok r → r = (Some d, idx) ∧ Forall unrecognised outs.
Proof using.
  revert i. induction outs as [|o outs IH]; intros i H; [injection H as <-; by repeat constructor|]. cbn in H.
  destruct (NewV0OpReturnDataFromTxOutput o) as [?|e|] eqn:E; [done| |done]. apply IH in H as [-> H].
  split; [done|]. constructor; [by exists e|done].
Qed.

Lemma opReturnLoop_search i outs d k :
  opReturnLoop i None 0 outs = Ok (Some d, k) →
  ∃ n o, k = i + Z.of_nat n ∧ outs !! n = Some o ∧ NewV0OpReturnDataFromTxOutput o = Ok d ∧
    ∀ n' o', outs !! n' = Some o' → n' ≠ n → unrecognised o'.
Proof using.
  revert i. induction outs as [|o outs IH]; intros i H; [done|]. cbn in H.
  destruct (NewV0OpReturnDataFromTxOutput o) as [d'|e|] eqn:E; [| |done].
  - apply opReturnLoop_found in H as [[= -> ->] H]. exists 0%nat, o. split; [lia|]. split; [done|]. split; [done|].
    intros [|n'] o' Hn Hne; [done|]. rewrite Forall_forall in H. eapply H, list_elem_of_lookup_2, Hn.
  - apply IH in H as (n & o' & -> & Hn & Hd & Hall). exists (S n), o'. split; [lia|]. split; [done|]. split; [done|].
    intros [|n'] o2 Hn' Hne; [injection Hn' as ->; by exists e|]. eapply Hall; [exact Hn'|congruence].
Qed.

Lemma stakingOutputLoop_found script i o idx outs r :
  stakingOutputLoop script i (Some o) idx outs = Ok r → r = (Some o, idx) ∧ Forall (λ o, PkScript o ≠ script) outs.
Proof using.
  revert i. induction outs as [|o' outs IH]; intros i H; [injection H as <-; by repeat constructor|]. cbn in H.
  case_bool_decide as E; [|done]. apply IH in H as [-> H]. split; [done|]. by constructor.
Qed.

Lemma stakingOutputLoop_search script i outs o k :
  stakingOutputLoop script i None 0 outs = Ok (Some o, k) →
  ∃ n, k = i + Z.of_nat n ∧ outs !! n = Some o ∧ PkScript o = script ∧ ∀ n' o', outs !! n' = Some o' → PkScript o' = script → n' = n.
Proof using.
  revert i. induction outs as [|o' outs IH]; intros i H; [done|]. cbn in H. case_bool_decide as E.
  - apply IH in H as (n & -> & Hn & Ho & Hall). exists (S n). split; [lia|]. split; [done|]. split; [done|].
    intros [|n'] o2 Hn' Ho2; [by injection Hn' as ->|]. f_equal. by eapply Hall.
  - apply stakingOutputLoop_found in H as [[= -> ->] H]. exists 0%nat. split; [lia|]. split; [done|]. split; [done|].
    intros [|n'] o2 Hn' Ho2; [done|]. rewrite Forall_forall in H. by destruct (H o2 (list_elem_of_lookup_2 outs n' o2 Hn')).
Qed.

(** Every transaction that the parser accepts has exactly one output with V0 data,
    at the reported index and with the expected tag and version; and exactly one
    output with the script of the stake that these data describe. *)
Theorem ParseV0StakingTx_sound tx tag cov q p :
  ParseV0StakingTx tx tag cov q = Ok p →
  let d := pt_OpReturnData p in
  ∃ n m info,
    pt_OpReturnOutputIdx p = Z.of_nat n ∧ TxOuts tx !! n = Some (pt_OpReturnOutput p) ∧
    NewV0OpReturnDataFromTxOutput (pt_OpReturnOutput p) = Ok d ∧ d_Tag d = tag ∧ d_Version d = x00 ∧
    (∀ n' o, TxOuts tx !! n' = Some o → n' ≠ n → unrecognised o) ∧
    BuildStakingInfo (d_StakerPublicKey d) [d_FinalityProviderPublicKey d] cov q (d_StakingTime d) 0 = Ok info ∧
    pt_StakingOutputIdx p = Z.of_nat m ∧ TxOuts tx !! m = Some (pt_StakingOutput p) ∧
    PkScript (pt_StakingOutput p) = PkScript (StakingOutput info) ∧
    (∀ m' o, TxOuts tx !! m' = Some o → PkScript o = PkScript (StakingOutput info) → m' = m).
Proof using.
  unfold ParseV0StakingTx, ParseV0StakingTxWithoutTag. case_bool_decide as Hl; [done|]. intros H. apply bind_Ok in H as (p' & H & Htag).
  case_bool_decide as Et; [done|]. injection Htag as ->.
  destruct (length cov =? 0)%nat; [done|]. destruct (_ <? q); [done|]. destruct (length (TxOuts tx) <? 2)%nat eqn:El; [done|].
  apply bind_Ok in H as ([[d|] k] & Hd & H); [|done]. case_bool_decide as Ev; [done|].
  apply bind_Ok in H as (info & Hi & H). apply bind_Ok in H as ([[o|] k'] & Ho & H); [|done]. apply bind_Ok in H as (oo & Hoo & [= <-]).
  apply wrapf_Ok in Hd, Hi, Ho. unfold tryToGetOpReturnDataFromOutputs, tryToGetStakingOutput in *.
  destruct (length (TxOuts tx) =? 0)%nat; [done|]. apply opReturnLoop_search in Hd as (n & o1 & -> & Hn & Hd & Hall).
  apply stakingOutputLoop_search in Ho as (m & -> & Hm & Hs & Hall'). unfold index in Hoo. rewrite Z.add_0_l, Nat2Z.id, Hn in Hoo.
  injection Hoo as <-. exists n, m, info. cbn. split_and!; done.
Qed.

(** The fast filter is stricter than the parser: a third output of the same tag
    and version whose key is not on the curve makes the filter answer that the
    transaction cannot be a staking transaction, while the parser accepts it. *)
Theorem filter_misses_parsed tag stk fp cov q t a info tx bad fpk :
  BuildV0IdentifiableStakingOutputsAndTx tag stk fp cov q t a = Ok (info, tx) →
  stk ≠ infinity → fp ≠ infinity → 0 ≤ t < 2 ^ 16 →
  length bad = PubKeyBytesLen → ParsePubKey bad = None → length fpk = PubKeyBytesLen →
  let tx' := mkMsgTx 2 [] (TxOuts tx ++ [pushOut (tag ++ [x00] ++ bad ++ fpk ++ uint16ToBytes t)]) 0 in
  is_ok (ParseV0StakingTx tx' tag cov q) = true ∧ IsPossibleV0StakingTx tx' tag = false.
Proof using claws laws.
  intros Hb HP HQ Ht Hbad Hnone Hfpk tx'. destruct (built_outputs _ _ _ _ _ _ _ _ _ Hb) as (si & Hsi & Htag & Es & Eo & Etx).
  destruct (BuildStakingInfo_facts _ _ _ _ _ _ _ Hsi) as (Hlen & _ & _). rewrite <- Es in Hlen.
  assert (Hl : length (tag ++ [x00] ++ bad ++ fpk ++ uint16ToBytes t) = V0OpReturnDataSize).
  { unfold uint16ToBytes. by rewrite !length_app, Htag, Hbad, Hfpk, be_bytes_length. }
  split.
  - unfold tx'. erewrite parse_built; [done|eassumption..|]. apply Forall_singleton. split.
    + unfold unrecognised, NewV0OpReturnDataFromTxOutput. rewrite getV0OpReturnBytes_push by done. cbn [wrapf mbind outcome_bind].
      rewrite FromBytes_fields by (done || apply be_bytes_length). rewrite bool_decide_false by auto. unfold NewV0OpReturnData.
      rewrite bool_decide_false by auto. unfold XOnlyPublicKeyFromBytes, ToBTCPK. rewrite Hnone. by eexists.
    + intros Ec. rewrite <- Ec in Hlen. unfold pushOut in Hlen. cbn [PkScript length] in Hlen. rewrite Hl in Hlen. done.
  - unfold tx', IsPossibleV0StakingTx. rewrite bool_decide_false by auto. rewrite Etx. cbn [TxOuts app length Nat.ltb Nat.leb possibleLoop].
    apply short_unrecognised in Hlen. destruct (getV0OpReturnBytes (idi_StakingOutput info)); [done|..];
    (rewrite Eo, !getV0OpReturnBytes_push by (done || by apply Marshall_length); unfold V0OpReturnData_Marshall; cbn [d_Tag d_Version];
     rewrite !take_app_length' by done; rewrite !bool_decide_false by auto; rewrite !lookup_version by done;
     rewrite !bool_decide_false by auto; rewrite bool_decide_false; [done|]; intros Hx; exact (Hx (lookup_version tag (bad ++ fpk ++ uint16ToBytes t) x00 Htag))).
Qed.
End proofs.

(** ** An example *)

Module IdentifiableExample.

#[local] Existing Instances toy_curve toy_laws AdaptorExample.toy_schnorr AdaptorExample.toy_compressed StakingExample.toy_btcd.
#[local] Instance toy_txs : BtcTx MsgTx := {|
  NewTxFromBytes := @NewTxFromBytes MsgTx StakingExample.toy_txs; TxHash := @TxHash MsgTx StakingExample.toy_txs;
  PkScripts := @PkScripts MsgTx StakingExample.toy_txs; CheckTransactionSanity := @CheckTransactionSanity MsgTx StakingExample.toy_txs;
  IsNullData b := bool_decide (head b = Some OP_RETURN); BuildMerkleTreeStore := @BuildMerkleTreeStore MsgTx StakingExample.toy_txs |}.
#[local] Instance toy_null : NullData := {| NullDataScript data := Ok (OP_RETURN :: byte_of_Z (Z.of_nat (length data)) :: data) |}.
#[local] Instance toy_null_laws : NullDataLaws.
Proof.
  split; [done|done|]. intros leaves script E.
  assert (script = be_bytes 34 (sumZ (byte_code <$> concat leaves))) as -> by (cbn [TaprootPkScript StakingExample.toy_btcd] in E; congruence).
  apply be_bytes_length.
Defined.

Definition tag : bytes := [x01; x02; x03; x04].
Definition stk : point := pmul 1 G.
Definition fpk : point := pmul 2 G.
Definition covs : list point := [pmul 3 G].
Definition built : IdentifiableStakingInfo * MsgTx :=
  get_ok (mkIdInfo (mkTxOut 0 []) (mkHolder []) [] [] [] (mkTxOut 0 []), mkMsgTx 0 [] [] 0) (BuildV0IdentifiableStakingOutputsAndTx tag stk fpk covs 1 1000 5000).
Definition change : TxOut := mkTxOut 700 [x00; x14].

Lemma built_eq : BuildV0IdentifiableStakingOutputsAndTx tag stk fpk covs 1 1000 5000 = Ok built.
Proof. apply is_ok_get. vm_compute. reflexivity. Qed.

Lemma identifiable_roundtrip_witness :
  ∃ p, ParseV0StakingTx (mkMsgTx 2 [] (TxOuts built.2 ++ [change]) 0) tag covs 1 = Ok p ∧ pt_OpReturnData p = mkV0Data tag x00 (even_point stk) (even_point fpk) 1000 ∧
    IsPossibleV0StakingTx (mkMsgTx 2 [] (TxOuts built.2 ++ [change]) 0) tag = true.
Proof.
  destruct (identifiable_roundtrip tag stk fpk covs 1 1000 5000 built.1 built.2 2 [] [change] 0) as [H1 H2].
  - rewrite <- surjective_pairing. exact built_eq.
  - vm_compute. discriminate.
  - vm_compute. discriminate.
  - lia.
  - apply Forall_singleton. split; [vm_compute; reflexivity|]. vm_compute. discriminate.
  - eexists. split; [exact H1|]. split; [reflexivity|exact H2].
Defined.

Lemma filter_misses_parsed_witness :
  ∃ tx, is_ok (ParseV0StakingTx tx tag covs 1) = true ∧ IsPossibleV0StakingTx tx tag = false.
Proof.
  eexists. apply (filter_misses_parsed tag stk fpk covs 1 1000 5000 built.1 built.2 (replicate 32 xff) (replicate 32 xff)).
  - rewrite <- surjective_pairing. exact built_eq.
  - vm_compute. discriminate.
  - vm_compute. discriminate.
  - lia.
  - reflexivity.
  - vm_compute. reflexivity.
  - reflexivity.
Defined.
End IdentifiableExample.
