(* ===== verification/StakingGenesis.v ===== *)
(** * x/btcstaking: genesis

    Import and export of the module's stores (keeper/genesis.go). The import
    refuses delegations to slashed providers, which the export contains. *)

From S2P Require Import Prelude Bytes Store BbnTypes Sha256 Curve Eots AdaptorSig BtcStaking Delegations Coins TxFormatter LightClient Spv StakingTx Pop StakingParams StakingMsgs.

(** The state that is exported. [None] is a nil pointer. *)
Record StakingGenesis := mkStakingGenesis {
  sg_Params : list StakingParams;
  sg_FinalityProviders : list FinalityProvider;
  sg_BtcDelegations : list BTCDelegation;
  sg_BlockHeightChains : list (Z * Z);
  sg_BtcDelegators : list (bytes * bytes * list bytes);
  sg_Events : list (Z * Z * EventPowerDistUpdate);
  sg_AllowedStakingTxHashes : list string;
  sg_LargestBtcReorg : option LargestBtcReOrg;
  sg_FpBbnAddr : list string;
  sg_DeletedFpsBtcPkHex : list string
}.

Section genesis.
Context {curve : Curve} {SB : StakingBtcd} {hashing : BtcHashing} {BA : Bech32}.

(** ** Import *)

Definition initDelegation (s : StakingState) (btcDel : BTCDelegation) : outcome StakingState :=
  _ ← foldM (λ _ fpBtcPk,
    fp ← wrapf "error getting BTC delegation finality provider" (GetFinalityProvider s fpBtcPk);
    if IsSlashed fp then Err ErrFpAlreadySlashed else Ok tt) tt (d_FpBtcPkList btcDel);
  setBTCDelegation s btcDel.
Definition setBlockHeightChains (s : StakingState) (blocks : Z * Z) : StakingState :=
  set_btcHeights s (<[blocks.1 := blocks.2]> (btcHeights s)).
Definition setEventIdx (s : StakingState) (evt : Z * Z * EventPowerDistUpdate) : StakingState :=
  set_powerDistUpdateEvents s (set2 evt.1.1 evt.1.2 evt.2 (powerDistUpdateEvents s)).
Definition initAllowedTx (s : StakingState) (hStr : string) : outcome StakingState :=
  match hex_decode hStr with
  | None => Err (Errorf "error decoding tx hash")
  | Some bz => Ok (set_allowedStakingTxHashes s ({[bz]} ∪ allowedStakingTxHashes s))
  end.
Definition SetFpBbnAddr (s : StakingState) (fpAddr : bytes) : StakingState := set_fpBbnAddr s ({[fpAddr]} ∪ fpBbnAddr s).
Definition initFpAddr (s : StakingState) (fpAddrStr : string) : outcome StakingState :=
  match AccFromBech32 fpAddrStr with
  | None => Err (Errorf "error decoding fp addr")
  | Some fpAddr => Ok (SetFpBbnAddr s fpAddr)
  end.
Definition initDeletedFp (s : StakingState) (pkHex : string) : outcome StakingState :=
  pk ← wrapf "error decoding blocked fp btc pk hex" (NewBIP340PubKeyFromHex pkHex); Ok (SoftDeleteFinalityProvider s pk).

(** The largest reorganisation is set twice. *)
Definition InitGenesis_stk_keeper (s : StakingState) (gs : StakingGenesis) : outcome StakingState :=
  s ← foldM SetParams s (sg_Params gs);
  let s := foldl SetFinalityProvider s (sg_FinalityProviders gs) in
  s ← foldM initDelegation s (sg_BtcDelegations gs);
  let s := foldl setBlockHeightChains s (sg_BlockHeightChains gs) in
  let s := foldl (λ s del, setBTCDelegatorDelegationIndex s del.1.1 del.1.2 del.2) s (sg_BtcDelegators gs) in
  let s := foldl setEventIdx s (sg_Events gs) in
  s ← foldM initAllowedTx s (sg_AllowedStakingTxHashes gs);
  s ← foldM initFpAddr s (sg_FpBbnAddr gs);
  s ← foldM initDeletedFp s (sg_DeletedFpsBtcPkHex gs);
  match sg_LargestBtcReorg gs with
  | None => Ok s
  | Some r => Ok (SetLargestBtcReorg (SetLargestBtcReorg s r) r)
  end.

(** ** Export *)

Definition exportFinalityProviders (s : StakingState) : list FinalityProvider := (iterB (finalityProviders s)).*2.
Definition exportDelegations (s : StakingState) : list BTCDelegation := (iterB (btcDelegations s)).*2.
Definition blockHeightChains (s : StakingState) : outcome (list (Z * Z)) :=
  mapM (λ kv : Z * Z, if 2 ^ 32 - 1 <? kv.2 then Panic (Errorf "block height value in storage is larger than math.MaxUint64") else Ok kv)
    (iterZ (btcHeights s)).
(** The key is the provider followed by the delegator. *)
Definition parseBIP340PubKeysFromStoreKey (key : bytes) : outcome (bytes * bytes) :=
  if (length key <? 2 * BIP340PubKeyLen)%nat then Err (Errorf "key not long enough to parse two BIP340PubKey")
  else
    fpBTCPK ← wrapf "failed to parse pub key from key" (NewBIP340PubKey (take BIP340PubKeyLen key));
    delBTCPK ← wrapf "failed to parse pub key from key" (NewBIP340PubKey (drop BIP340PubKeyLen key));
    Ok (fpBTCPK, delBTCPK).
Definition exportDelegators (s : StakingState) : outcome (list (bytes * bytes * list bytes)) :=
  mapM (λ e : bytes * (bytes * list bytes), keys ← parseBIP340PubKeysFromStoreKey (e.1 ++ e.2.1); Ok (keys.1, keys.2, e.2.2))
    (iterB (btcDelegators s) ≫= λ km, pair km.1 <$> iterB km.2).
Definition exportAllowedTxHashes (s : StakingState) : list string := hex_encode <$> sort_stable bytes_less (elements (allowedStakingTxHashes s)).
Definition parseUintsFromStoreKey (key : bytes) : outcome (Z * Z) :=
  if (length key <? 16)%nat then Err (Errorf "key not long enough to parse two uint64")
  else
    let blkHeight := be_value (take 8 key) in
    if 2 ^ 32 - 1 <? blkHeight then Err (Errorf "block height is larger than math.MaxUint32")
    else Ok (blkHeight, be_value (drop 8 key)).
Definition eventIdxs (s : StakingState) : outcome (list (Z * Z * EventPowerDistUpdate)) :=
  mapM (λ e : Z * (Z * EventPowerDistUpdate),
    key ← parseUintsFromStoreKey (Uint64ToBigEndian e.1 ++ Uint64ToBigEndian e.2.1); Ok (key.1, key.2, e.2.2))
    (iterZ (powerDistUpdateEvents s) ≫= λ hm, pair hm.1 <$> iterZ hm.2).
Definition deletedFps (s : StakingState) : outcome (list string) :=
  mapM (λ key, pk ← NewBIP340PubKey key; Ok (MarshalHex pk)) (sort_stable bytes_less (elements (finalityProvidersDeleted s))).
Definition fpBbnAddrs (s : StakingState) : list string :=
  AccString <$> filter (λ key : bytes, length key ≠ 0%nat) (sort_stable bytes_less (elements (fpBbnAddr s))).

Definition ExportGenesis_stk_keeper (s : StakingState) : outcome StakingGenesis :=
  btcDels ← exportDelegators s;
  evts ← eventIdxs s;
  deletedFps ← deletedFps s;
  chains ← blockHeightChains s;
  Ok (mkStakingGenesis (GetAllParams s) (exportFinalityProviders s) (exportDelegations s) chains btcDels evts (exportAllowedTxHashes s)
        (largestBtcReorg s) (fpBbnAddrs s) deletedFps).

(** ** Theorems *)

(** The last provider written under a key is found under it. *)
Lemma imported_provider l s fp :
  fp ∈ l → (∀ a, a ∈ l → fp_BtcPk a = fp_BtcPk fp → a = fp) →
  finalityProviders (foldl SetFinalityProvider s l) !! fp_BtcPk fp = Some fp.
Proof using.
  induction l as [|a l IH] using rev_ind; intros Hin Hl; [by apply elem_of_nil in Hin|]. rewrite foldl_app. simpl.
  destruct (decide (fp_BtcPk a = fp_BtcPk fp)) as [E|E].
  - rewrite (Hl a) by (done || apply elem_of_app; right; by left). apply lookup_insert_eq.
  - rewrite lookup_insert_ne by done. apply elem_of_app in Hin as [Hin|Hin%list_elem_of_singleton]; [|congruence].
    apply IH; [done|]. intros b Hb. apply Hl, elem_of_app. by left.
Qed.

Lemma initDelegation_providers s d s' : initDelegation s d = Ok s' → finalityProviders s' = finalityProviders s.
Proof using.
  unfold initDelegation, setBTCDelegation. intros H. apply bind_Ok in H as (? & _ & H). by apply bind_Ok in H as (h & _ & [= <-]).
Qed.

Lemma initDelegation_slashed s d pk fp :
  pk ∈ d_FpBtcPkList d → finalityProviders s !! pk = Some fp → IsSlashed fp = true → is_ok (initDelegation s d) = false.
Proof using.
  intros Hpk Hfp Hs. unfold initDelegation.
  assert (Hf : is_ok (foldM (λ _ fpBtcPk, fp ← wrapf "error getting BTC delegation finality provider" (GetFinalityProvider s fpBtcPk);
    if IsSlashed fp then Err ErrFpAlreadySlashed else Ok tt) tt (d_FpBtcPkList d)) = false).
  { eapply foldM_fails; [exact Hpk|]. intros []. unfold GetFinalityProvider. rewrite Hfp. simpl. by rewrite Hs. }
  by destruct (foldM _ tt _).
Qed.

Lemma initDelegations_fail l s d pk fp :
  d ∈ l → pk ∈ d_FpBtcPkList d → finalityProviders s !! pk = Some fp → IsSlashed fp = true → is_ok (foldM initDelegation s l) = false.
Proof using.
  intros Hd Hpk Hfp Hs. revert s Hfp. induction l as [|x l IH]; intros s Hfp; [by apply elem_of_nil in Hd|]. simpl.
  apply elem_of_cons in Hd as [<-|Hd].
  - pose proof (initDelegation_slashed s d pk fp Hpk Hfp Hs) as H. by destruct (initDelegation s d).
  - destruct (initDelegation s x) as [s1| |] eqn:E; [|done..]. simpl. apply IH; [done|]. by rewrite (initDelegation_providers _ _ _ E).
Qed.

(** A chain on which a provider with delegations has been slashed cannot be
    started again from its export: the import of any of the provider's
    delegations fails. *)
Theorem slashed_export_rejected s s0 gs h d pk fp :
  (∀ k a, finalityProviders s !! k = Some a → fp_BtcPk a = k) →
  ExportGenesis_stk_keeper s = Ok gs →
  btcDelegations s !! h = Some d → pk ∈ d_FpBtcPkList d → finalityProviders s !! pk = Some fp → IsSlashed fp = true →
  is_ok (InitGenesis_stk_keeper s0 gs) = false.
Proof using.
  intros Hkeys He Hd Hpk Hfp Hs. unfold ExportGenesis_stk_keeper in He. do 4 (apply bind_Ok in He as (? & _ & He)). injection He as <-.
  unfold InitGenesis_stk_keeper. cbn [sg_Params sg_FinalityProviders sg_BtcDelegations]. destruct (foldM SetParams s0 _) as [s1| |]; [|done..].
  cbn [mbind outcome_bind].
  assert (Hl : is_ok (foldM initDelegation (foldl SetFinalityProvider s1 (exportFinalityProviders s)) (exportDelegations s)) = false);
    [|by destruct (foldM initDelegation _ _)].
  eapply (initDelegations_fail _ _ d pk fp); [|done| |done].
  - apply list_elem_of_fmap. exists (h, d). by rewrite elem_of_iterB.
  - rewrite <- (Hkeys pk fp Hfp). apply imported_provider.
    + apply list_elem_of_fmap. exists (pk, fp). by rewrite elem_of_iterB.
    + intros a ([k a'] & -> & Ha%elem_of_iterB)%list_elem_of_fmap E. simpl in *. rewrite (Hkeys k a' Ha), (Hkeys pk fp Hfp) in E. congruence.
Qed.
End genesis.
