(* ===== verification/Epochs.v ===== *)
(** * x/epoching: epochs, validator sets and the queue of staking messages

    Blocks are grouped into epochs. The validator set of an epoch is the one at
    its first block, and staking messages received during an epoch wait in a
    queue until its last block. The file translates types/epoching.go and
    validator.go, keeper/epochs.go, epoch_val_set.go, epoch_slashed_val_set.go,
    epoch_msg_queue.go, delegation_pool.go, lifecycle_delegation.go and
    lifecycle_validator.go, the staking hooks of keeper/hooks.go, and abci.go.

    The staking module of the Cosmos SDK, the bank and the other modules that
    listen to epochs enter as classes. *)

From S2P Require Import Prelude Bytes Store BbnTypes Coins.

(** ** types/epoching.go *)

Record Epoch := mkEpoch {
  EpochNumber : Z;
  CurrentEpochInterval : Z;
  FirstBlockHeight : Z;
  LastBlockTime : option Z;
  SealerAppHash : bytes;
  SealerBlockHash : bytes
}.

Definition NewEpoch (epochNumber epochInterval firstBlockHeight : Z) (lastBlockTime : option Z) : Epoch :=
  mkEpoch epochNumber epochInterval firstBlockHeight lastBlockTime [] [].

Definition GetLastBlockHeight (e : Epoch) : Z :=
  if EpochNumber e =? 0 then 0 else u64 (FirstBlockHeight e + CurrentEpochInterval e - 1).
Definition IsLastBlockByHeight (e : Epoch) (height : Z) : bool := GetLastBlockHeight e =? u64 height.
Definition IsLastBlock (e : Epoch) (ctx : Ctx) : bool := GetLastBlockHeight e =? CtxHeight ctx.
Definition IsFirstBlock (e : Epoch) (ctx : Ctx) : bool := FirstBlockHeight e =? CtxHeight ctx.
Definition IsFirstBlockOfNextEpoch (e : Epoch) (ctx : Ctx) : bool :=
  if EpochNumber e =? 0 then HeaderHeight ctx =? 1
  else u64 (FirstBlockHeight e + CurrentEpochInterval e) =? CtxHeight ctx.
Definition IsVoteExtensionProposal (e : Epoch) (ctx : Ctx) : bool :=
  if EpochNumber e =? 0 then false else IsFirstBlockOfNextEpoch e ctx.
Definition WithinBoundary (e : Epoch) (height : Z) : bool :=
  negb ((height <? FirstBlockHeight e) || (GetLastBlockHeight e <? height)).

(** ** types/validator.go *)

Record Validator := mkValidator { val_Addr : bytes; val_Power : Z }.
Abbreviation ValidatorSet := (list Validator).

Definition NewSortedValidatorSet (vals : list Validator) : ValidatorSet :=
  sort_stable (λ a b, bytes_less (val_Addr a) (val_Addr b)) vals.

(** [bytes.Compare] as its two tests. *)
Fixpoint binarySearch_fuel (fuel : nat) (vs : ValidatorSet) (target : bytes) (lo hi : Z) : Z :=
  match fuel with
  | O => -1
  | S fuel =>
    if hi <? lo then -1
    else
      let mid := lo + (hi - lo) `quot` 2 in
      match vs !! Z.to_nat mid with
      | None => -1
      | Some v =>
        if bool_decide (val_Addr v = target) then mid
        else if bytes_less target (val_Addr v) then binarySearch_fuel fuel vs target lo (mid - 1)
        else binarySearch_fuel fuel vs target (mid + 1) hi
      end
  end.
Definition binarySearch (vs : ValidatorSet) (target : bytes) : Z :=
  binarySearch_fuel (S (length vs)) vs target 0 (Z.of_nat (length vs) - 1).

Definition FindValidatorWithIndex (vs : ValidatorSet) (valAddr : bytes) : outcome (Validator * Z) :=
  let index := binarySearch vs valAddr in
  if index =? -1 then Err (Errorf "validator address does not exist in the validator set")
  else match vs !! Z.to_nat index with
       | Some v => Ok (v, index)
       | None => Panic (Errorf "index out of range")
       end.

(** [github.com/boljen/go-bitmap]: bits by position; [Len] is the number of bits. *)
Class GoBitmap := {
  bitmap_New : nat → bytes;
  bitmap_Get : bytes → nat → bool;
  bitmap_Set : bytes → nat → bool → bytes
}.
Definition bitmap_Len (b : bytes) : nat := 8 * length b.

Definition FindSubset {BM : GoBitmap} (vs : ValidatorSet) (bm : bytes) : outcome ValidatorSet :=
  if (bitmap_Len bm <? length vs)%nat then Err (Errorf "bitmap is not large enough to contain the validator set")
  else Ok (omap (λ i, if bitmap_Get bm i then vs !! i else None) (seq 0 (length vs))).

(** ** Messages *)

(** [sdk.ValAddress]: another bech32 prefix than account addresses. *)
Class ValBech32 := {
  ValString : bytes → string;
  ValFromBech32 : string → option bytes
}.

(** The messages of the staking module that are queued; the fields the module
    reads, the others in [raw]. *)
Inductive StakingMsg :=
  | MsgCreateValidator (validatorAddress : string) (value : string * Z) (raw : bytes)
  | MsgDelegate (delegatorAddress validatorAddress : string) (amount : string * Z)
  | MsgUndelegate (delegatorAddress validatorAddress : string) (amount : string * Z)
  | MsgBeginRedelegate (delegatorAddress validatorSrcAddress validatorDstAddress : string) (amount : string * Z)
  | MsgCancelUnbondingDelegation (delegatorAddress validatorAddress : string) (amount : string * Z) (creationHeight : Z)
  | MsgEditValidator (raw : bytes)
  | MsgStakingUpdateParams (raw : bytes).
Record QueuedMessage := mkQueued {
  qm_TxId : bytes; qm_MsgId : bytes; qm_BlockHeight : Z; qm_BlockTime : Z; qm_Msg : StakingMsg
}.

Inductive BondState := BS_CREATED | BS_BONDED | BS_UNBONDING | BS_UNBONDED | BS_REMOVED.
Record ValStateUpdate := mkValUpdate { vsu_State : BondState; vsu_BlockHeight : Z; vsu_BlockTime : Z }.
Record DelegationStateUpdate := mkDelUpdate {
  dsu_State : BondState; dsu_ValAddr : bytes; dsu_Amount : option (string * Z); dsu_BlockHeight : Z; dsu_BlockTime : Z
}.

(** ** The state *)

Record EpochingState := mkEpoching {
  es_Interval : Z;                               (* Params.EpochInterval *)
  es_EpochInfo : gmap Z Epoch;
  es_ValSet : gmap Z (gmap bytes Z);
  es_VotingPower : gmap Z Z;
  es_SlashedPower : gmap Z Z;
  es_SlashedSet : gmap Z (gmap bytes Z);
  es_Queue : gmap Z (gmap Z QueuedMessage);
  es_QueueLen : gmap Z Z;
  es_ValLife : gmap bytes (list ValStateUpdate);
  es_DelLife : gmap bytes (list DelegationStateUpdate)
}.

Definition with_EpochInfo (f : gmap Z Epoch → gmap Z Epoch) (s : EpochingState) : EpochingState :=
  mkEpoching (es_Interval s) (f (es_EpochInfo s)) (es_ValSet s) (es_VotingPower s) (es_SlashedPower s) (es_SlashedSet s)
    (es_Queue s) (es_QueueLen s) (es_ValLife s) (es_DelLife s).
Definition with_ValSet (v : gmap Z (gmap bytes Z)) (p : gmap Z Z) (s : EpochingState) : EpochingState :=
  mkEpoching (es_Interval s) (es_EpochInfo s) v p (es_SlashedPower s) (es_SlashedSet s)
    (es_Queue s) (es_QueueLen s) (es_ValLife s) (es_DelLife s).
Definition with_Slashed (p : gmap Z Z) (v : gmap Z (gmap bytes Z)) (s : EpochingState) : EpochingState :=
  mkEpoching (es_Interval s) (es_EpochInfo s) (es_ValSet s) (es_VotingPower s) p v
    (es_Queue s) (es_QueueLen s) (es_ValLife s) (es_DelLife s).
Definition with_Queue (q : gmap Z (gmap Z QueuedMessage)) (l : gmap Z Z) (s : EpochingState) : EpochingState :=
  mkEpoching (es_Interval s) (es_EpochInfo s) (es_ValSet s) (es_VotingPower s) (es_SlashedPower s) (es_SlashedSet s)
    q l (es_ValLife s) (es_DelLife s).
Definition with_Life (v : gmap bytes (list ValStateUpdate)) (d : gmap bytes (list DelegationStateUpdate))
    (s : EpochingState) : EpochingState :=
  mkEpoching (es_Interval s) (es_EpochInfo s) (es_ValSet s) (es_VotingPower s) (es_SlashedPower s) (es_SlashedSet s)
    (es_Queue s) (es_QueueLen s) v d.

(** ** keeper/epochs.go *)

Definition setEpochInfo (s : EpochingState) (epochNumber : Z) (epoch : Epoch) : EpochingState :=
  with_EpochInfo (insert epochNumber epoch) s.
Definition GetHistoricalEpoch (s : EpochingState) (epochNumber : Z) : outcome Epoch :=
  match es_EpochInfo s !! epochNumber with Some e => Ok e | None => Err ErrUnknownEpochNumber end.

Definition InitEpoch (s : EpochingState) (ctx : Ctx) (genEpochs : list Epoch) : outcome EpochingState :=
  match genEpochs with
  | _ :: _ => Ok (foldl (λ s e, setEpochInfo s (EpochNumber e) e) s genEpochs)
  | [] =>
    if 0 <? HeaderHeight ctx then Err (Errorf "InitEpoch can be invoked only at genesis")
    else Ok (setEpochInfo s 0 (NewEpoch 0 1 0 (Some (HeaderTime ctx))))
  end.

(** [iter.Value()] of an iterator over nothing panics. *)
Definition GetEpoch (s : EpochingState) : outcome Epoch :=
  match last (iterZ (es_EpochInfo s)) with
  | Some (_, e) => Ok e
  | None => Panic (Errorf "iterator is invalid")
  end.

(** A division by zero panics. *)
Definition CalculateEpochNumber (height epochInterval : Z) : outcome Z :=
  if height =? 0 then Ok 0
  else if epochInterval =? 0 then Panic (Errorf "integer divide by zero")
  else Ok (u64 ((height - 1) / epochInterval + 1)).
Definition GetEpochNumByHeight (s : EpochingState) (height : Z) : outcome Z := CalculateEpochNumber height (es_Interval s).

Definition RecordLastHeaderTime (s : EpochingState) (ctx : Ctx) : outcome EpochingState :=
  epoch ← GetEpoch s;
  if negb (IsLastBlock epoch ctx) then Err ErrInvalidHeight
  else Ok (setEpochInfo s (EpochNumber epoch)
    (mkEpoch (EpochNumber epoch) (CurrentEpochInterval epoch) (FirstBlockHeight epoch) (Some (HeaderTime ctx))
       (SealerAppHash epoch) (SealerBlockHash epoch))).

Definition RecordSealerAppHashForPrevEpoch (s : EpochingState) (ctx : Ctx) : outcome EpochingState :=
  epoch ← GetEpoch s;
  if negb (IsFirstBlock epoch ctx) then Panic (Errorf "RecordSealerAppHashForPrevEpoch at the first header only")
  else
    sealed ← must (GetHistoricalEpoch s (u64 (EpochNumber epoch - 1)));
    Ok (setEpochInfo s (EpochNumber sealed)
      (mkEpoch (EpochNumber sealed) (CurrentEpochInterval sealed) (FirstBlockHeight sealed) (LastBlockTime sealed)
         (HeaderAppHash ctx) (SealerBlockHash sealed))).

(** [blockHash] is [HeaderInfo().Hash]. *)
Definition RecordSealerBlockHashForEpoch (s : EpochingState) (ctx : Ctx) (blockHash : bytes) : outcome EpochingState :=
  epoch ← GetEpoch s;
  if negb (IsLastBlock epoch ctx) then Panic (Errorf "RecordSealerBlockHashForEpoch at the last header only")
  else Ok (setEpochInfo s (EpochNumber epoch)
    (mkEpoch (EpochNumber epoch) (CurrentEpochInterval epoch) (FirstBlockHeight epoch) (LastBlockTime epoch)
       (SealerAppHash epoch) blockHash)).

Definition IncEpoch (s : EpochingState) (ctx : Ctx) : outcome (EpochingState * Epoch) :=
  epoch ← GetEpoch s;
  let n := u64 (EpochNumber epoch + 1) in
  let newEpoch := NewEpoch n (es_Interval s) (CtxHeight ctx) None in
  Ok (setEpochInfo s n newEpoch, newEpoch).

(** ** keeper/epoch_val_set.go *)

Definition GetValidatorSet (s : EpochingState) (epochNumber : Z) : ValidatorSet :=
  NewSortedValidatorSet ((λ kv, mkValidator kv.1 kv.2) <$> iterB (substore (es_ValSet s) epochNumber)).

(** The last validator powers of the staking module, stored for the current
    epoch with their total. *)
Definition storeValidators (s : EpochingState) (epochNumber : Z) (vals : list (bytes * Z)) : EpochingState :=
  let v := foldl (λ m kv, set2 epochNumber kv.1 kv.2 m) (es_ValSet s) vals in
  let totalPower := foldl (λ acc (kv : bytes * Z), i64 (acc + kv.2)) 0 vals in
  with_ValSet v (<[epochNumber := totalPower]> (es_VotingPower s)) s.
Definition InitValidatorSet (s : EpochingState) (lastPowers : list (bytes * Z)) : outcome EpochingState :=
  epoch ← GetEpoch s; Ok (storeValidators s (EpochNumber epoch) lastPowers).
Definition setEpochValSet (s : EpochingState) (epochNumber : Z) (vals : list Validator) : EpochingState :=
  storeValidators s epochNumber ((λ v, (val_Addr v, val_Power v)) <$> vals).
Definition InitGenValidatorSet (s : EpochingState) (genEpochsValSet : list (Z * list Validator)) (lastPowers : list (bytes * Z))
    : outcome EpochingState :=
  match genEpochsValSet with
  | _ :: _ => Ok (foldl (λ s ev, setEpochValSet s ev.1 ev.2) s genEpochsValSet)
  | [] => InitValidatorSet s lastPowers
  end.

Definition ClearValidatorSet (s : EpochingState) (epochNumber : Z) : EpochingState :=
  with_ValSet (delete epochNumber (es_ValSet s)) (delete epochNumber (es_VotingPower s)) s.

Definition GetValidatorVotingPower (s : EpochingState) (epochNumber : Z) (valAddr : bytes) : outcome Z :=
  match get2 epochNumber valAddr (es_ValSet s) with Some p => Ok p | None => Err ErrUnknownValidator end.
Definition GetTotalVotingPower (s : EpochingState) (epochNumber : Z) : outcome Z :=
  match es_VotingPower s !! epochNumber with Some p => Ok p | None => Panic ErrUnknownTotalVotingPower end.

(** ** keeper/epoch_slashed_val_set.go *)

Definition setSlashedVotingPower (s : EpochingState) (epochNumber power : Z) : EpochingState :=
  with_Slashed (<[epochNumber := power]> (es_SlashedPower s)) (es_SlashedSet s) s.
Definition InitSlashedVotingPower (s : EpochingState) : outcome EpochingState :=
  epoch ← GetEpoch s; Ok (setSlashedVotingPower s (EpochNumber epoch) 0).
Definition GetSlashedVotingPower (s : EpochingState) (epochNumber : Z) : outcome Z :=
  match es_SlashedPower s !! epochNumber with Some p => Ok p | None => Panic ErrUnknownSlashedVotingPower end.

Definition AddSlashedValidator (s : EpochingState) (valAddr : bytes) : outcome EpochingState :=
  epoch ← GetEpoch s;
  let epochNumber := EpochNumber epoch in
  thisVotingPower ← must (GetValidatorVotingPower s epochNumber valAddr);
  let s := with_Slashed (es_SlashedPower s) (set2 epochNumber valAddr thisVotingPower (es_SlashedSet s)) s in
  slashedVotingPower ← GetSlashedVotingPower s epochNumber;
  Ok (setSlashedVotingPower s epochNumber (i64 (slashedVotingPower + thisVotingPower))).

Definition GetSlashedValidators (s : EpochingState) (epochNumber : Z) : ValidatorSet :=
  (λ kv, mkValidator kv.1 kv.2) <$> iterB (substore (es_SlashedSet s) epochNumber).
Definition ClearSlashedValidators (s : EpochingState) (epochNumber : Z) : EpochingState :=
  with_Slashed (delete epochNumber (es_SlashedPower s)) (delete epochNumber (es_SlashedSet s)) s.

(** ** keeper/epoch_msg_queue.go: the queue *)

Definition InitMsgQueue (s : EpochingState) : outcome EpochingState :=
  epoch ← GetEpoch s; Ok (with_Queue (es_Queue s) (<[EpochNumber epoch := 0]> (es_QueueLen s)) s).
Definition GetQueueLength (s : EpochingState) (epochNumber : Z) : Z := default 0 (es_QueueLen s !! epochNumber).
Definition EnqueueMsg (s : EpochingState) (msg : QueuedMessage) : outcome EpochingState :=
  epoch ← GetEpoch s;
  let epochNumber := EpochNumber epoch in
  let queueLen := GetQueueLength s epochNumber in
  Ok (with_Queue (set2 epochNumber queueLen msg (es_Queue s)) (<[epochNumber := u64 (queueLen + 1)]> (es_QueueLen s)) s).
Definition GetEpochMsgs (s : EpochingState) (epochNumber : Z) : list QueuedMessage :=
  (iterZ (substore (es_Queue s) epochNumber)).*2.
Definition GetCurrentEpochMsgs (s : EpochingState) : outcome (list QueuedMessage) :=
  epoch ← GetEpoch s; Ok (GetEpochMsgs s (EpochNumber epoch)).

(** ** Lifecycles *)

Definition RecordNewValState (s : EpochingState) (ctx : Ctx) (valAddr : bytes) (state : BondState) : EpochingState :=
  let life := default [] (es_ValLife s !! valAddr) in
  with_Life (<[valAddr := life ++ [mkValUpdate state (CtxHeight ctx) (HeaderTime ctx)]]> (es_ValLife s)) (es_DelLife s) s.
Definition RecordNewDelegationState (s : EpochingState) (ctx : Ctx) (delAddr valAddr : bytes) (amount : option (string * Z))
    (state : BondState) : EpochingState :=
  let life := default [] (es_DelLife s !! delAddr) in
  with_Life (es_ValLife s)
    (<[delAddr := life ++ [mkDelUpdate state valAddr amount (CtxHeight ctx) (HeaderTime ctx)]]> (es_DelLife s)) s.

(** ** The staking module, the bank and the listeners *)

(** What the staking module reports while it executes a message. *)
Inductive StakingHookCall :=
  | AfterValidatorCreated (valAddr : bytes)
  | AfterValidatorRemoved (valAddr : bytes)
  | AfterValidatorBonded (valAddr : bytes)
  | AfterValidatorBeginUnbonding (valAddr : bytes)
  | BeforeDelegationRemoved (delAddr valAddr : bytes)
  | BeforeValidatorSlashed (valAddr : bytes).

(** [S] holds the staking module and the bank. *)
Class Staking (S : Type) := {
  LastValidatorPowers : S → list (bytes * Z);
  StkMsgServer : S → StakingMsg → outcome (S * list StakingHookCall);
  StkApplyAndReturnValidatorSetUpdates : S → outcome (S * list StakingHookCall * list (bytes * Z));
  SendCoinsToDelegatePool : S → bytes → Coins → outcome S;
  SendCoinsFromDelegatePool : S → bytes → Coins → outcome S
}.

(** [E]: the modules with epoching hooks. *)
Class EpochingHooks (E : Type) := {
  AfterEpochBegins : EpochingState → E → Z → E;
  BeforeEpochEnds : EpochingState → E → Z → E;
  AfterEpochEnds : EpochingState → E → Z → E;
  BeforeSlashThreshold : EpochingState → E → ValidatorSet → E
}.

Section keeper.
Context {BA : Bech32} {VA : ValBech32} {S : Type} {ST : Staking S} {E : Type} {EH : EpochingHooks E}.

Record EpWorld := mkEpWorld { ew_ep : EpochingState; ew_stk : S; ew_ext : E }.

(** ** keeper/hooks.go *)

(** The two thresholds of a slash, in hundredths: [0.33] and [0.67] of a total
    that is a whole number need no rounding. *)
Definition crossesThreshold (threshold totalVotingPower slashed this : Z) : bool :=
  (slashed * 100 <? totalVotingPower * threshold) && (totalVotingPower * threshold <=? i64 (slashed + this) * 100).

Definition BeforeValidatorSlashed_hook (s : EpochingState) (e : E) (valAddr : bytes) : outcome (EpochingState * E) :=
  epoch ← GetEpoch s;
  let epochNumber := EpochNumber epoch in
  totalVotingPower ← GetTotalVotingPower s epochNumber;
  slashedVotingPower ← GetSlashedVotingPower s epochNumber;
  thisVotingPower ← GetValidatorVotingPower s epochNumber valAddr;
  let slashedVals := GetSlashedValidators s epochNumber ++ [mkValidator valAddr thisVotingPower] in
  let e := foldl (λ e threshold,
    if crossesThreshold threshold totalVotingPower slashedVotingPower thisVotingPower
    then BeforeSlashThreshold s e slashedVals else e) e [33; 67] in
  s ← AddSlashedValidator s valAddr;
  Ok (s, e).

(** The staking module logs an error of the last hook and goes on. *)
Definition stakingHook (ctx : Ctx) (acc : EpochingState * E) (h : StakingHookCall) : outcome (EpochingState * E) :=
  let '(s, e) := acc in
  match h with
  | AfterValidatorCreated v => Ok (RecordNewValState s ctx v BS_CREATED, e)
  | AfterValidatorRemoved v => Ok (RecordNewValState s ctx v BS_REMOVED, e)
  | AfterValidatorBonded v => Ok (RecordNewValState s ctx v BS_BONDED, e)
  | AfterValidatorBeginUnbonding v => Ok (RecordNewValState s ctx v BS_UNBONDING, e)
  | BeforeDelegationRemoved d v => Ok (RecordNewDelegationState s ctx d v None BS_REMOVED, e)
  | BeforeValidatorSlashed v =>
    match BeforeValidatorSlashed_hook s e v with Err _ => Ok (s, e) | r => r end
  end.

(** ** keeper/delegation_pool.go *)

(** [sdk.NewCoins] drops a zero amount. *)
Definition NewCoins1 (c : string * Z) : Coins := if c.2 =? 0 then [] else [c].

Definition extractAddrAndCoinsFromMsg (msg : QueuedMessage) : outcome (option (bytes * Coins)) :=
  match qm_Msg msg with
  | MsgDelegate d _ amount =>
    match AccFromBech32 d with None => Err ErrInvalidAddress | Some a => Ok (Some (a, NewCoins1 amount)) end
  | MsgCreateValidator v value _ =>
    match ValFromBech32 v with None => Err ErrInvalidAddress | Some a => Ok (Some (a, NewCoins1 value)) end
  | _ => Ok None
  end.
Definition LockFundsForDelegateMsgs (st : S) (msg : QueuedMessage) : outcome S :=
  ac ← extractAddrAndCoinsFromMsg msg;
  match ac with None => Ok st | Some (addr, coins) => SendCoinsToDelegatePool st addr coins end.
Definition UnlockFundsForDelegateMsgs (st : S) (msg : QueuedMessage) : outcome S :=
  ac ← extractAddrAndCoinsFromMsg msg;
  match ac with None => Ok st | Some (addr, coins) => SendCoinsFromDelegatePool st addr coins end.

(** ** keeper/epoch_msg_queue.go: execution *)

Definition parseDelValAddr (delAddr valAddr : string) : outcome (bytes * bytes) :=
  match AccFromBech32 delAddr with
  | None => Err ErrInvalidAddress
  | Some del => match ValFromBech32 valAddr with None => Err ErrInvalidAddress | Some val => Ok (del, val) end
  end.

(** The delegation states a message records once it is executed. *)
Definition recordStates (ctx : Ctx) (s : EpochingState) (delAddr valAddr : string) (amount : string * Z) (states : list BondState)
    : outcome EpochingState :=
  '(del, val) ← parseDelValAddr delAddr valAddr;
  Ok (foldl (λ s st, RecordNewDelegationState s ctx del val (Some amount) st) s states).
Definition recordAfter (ctx : Ctx) (s : EpochingState) (m : StakingMsg) : outcome EpochingState :=
  match m with
  | MsgCreateValidator v value _ => recordStates ctx s v v value [BS_CREATED; BS_BONDED]
  | MsgDelegate d v amount => recordStates ctx s d v amount [BS_CREATED; BS_BONDED]
  | MsgUndelegate d v amount => recordStates ctx s d v amount [BS_UNBONDING]
  | MsgBeginRedelegate d src _ amount => recordStates ctx s d src amount [BS_UNBONDING]
  | MsgCancelUnbondingDelegation d v amount _ => recordStates ctx s d v amount [BS_BONDED]
  | MsgEditValidator _ | MsgStakingUpdateParams _ => Ok s
  end.

(** The message runs on a cache that is written when the staking module accepts
    it; what the module records afterwards goes to the state itself, so an error
    there does not undo the message. The result is the state and the error. *)
Definition runUnwrappedMsg (ctx : Ctx) (w : EpWorld) (qMsg : QueuedMessage) : outcome (EpWorld * option error) :=
  match
    '(st, hooks) ← StkMsgServer (ew_stk w) (qm_Msg qMsg);
    '(s, e) ← foldM (stakingHook ctx) (ew_ep w, ew_ext w) hooks;
    Ok (mkEpWorld s st e)
  with
  | Panic e => Panic e
  | Err e => Ok (w, Some e)
  | Ok w =>
    match recordAfter ctx (ew_ep w) (qm_Msg qMsg) with
    | Panic e => Panic e
    | Err e => Ok (w, Some e)
    | Ok s => Ok (mkEpWorld s (ew_stk w) (ew_ext w), None)
    end
  end.
Definition HandleQueuedMsg := runUnwrappedMsg.

(** [Params.EpochInterval] through [UpdateParams]: it only applies to the epochs
    that start later, but [GetEpochNumByHeight] uses it for all heights. *)
Definition validateEpochInterval (v : Z) : outcome unit :=
  if v <? 2 then Err (Errorf "epoch interval must be at least 2") else Ok tt.
Definition UpdateParams_epoching (authority reqAuthority : string) (s : EpochingState) (interval : Z) : outcome EpochingState :=
  if negb (String.eqb authority reqAuthority) then Err ErrInvalidSigner
  else match validateEpochInterval interval with
       | Err _ => Err ErrInvalidProposalMsg
       | Panic e => Panic e
       | Ok _ => Ok (mkEpoching interval (es_EpochInfo s) (es_ValSet s) (es_VotingPower s) (es_SlashedPower s)
                       (es_SlashedSet s) (es_Queue s) (es_QueueLen s) (es_ValLife s) (es_DelLife s))
       end.

(** ** abci.go *)

Definition BeginBlocker_epoching (ctx : Ctx) (blockHash : bytes) (w : EpWorld) : outcome EpWorld :=
  epoch ← GetEpoch (ew_ep w);
  w ← (if IsFirstBlockOfNextEpoch epoch ctx then
         '(s, incEpoch) ← IncEpoch (ew_ep w) ctx;
         s ← RecordSealerAppHashForPrevEpoch s ctx;
         s ← InitMsgQueue s;
         s ← InitSlashedVotingPower s;
         s ← InitValidatorSet s (LastValidatorPowers (ew_stk w));
         Ok (mkEpWorld s (ew_stk w) (AfterEpochBegins s (ew_ext w) (EpochNumber incEpoch)))
       else Ok w);
  if IsLastBlock epoch ctx then
    s ← RecordSealerBlockHashForEpoch (ew_ep w) ctx blockHash;
    Ok (mkEpWorld s (ew_stk w) (ew_ext w))
  else Ok w.

(** A queued message: its funds come back first; a failure of either skips it.
    The second component collects the errors that become events. *)
Definition runQueued (ctx : Ctx) (acc : EpWorld * list (bytes * error)) (msg : QueuedMessage)
    : outcome (EpWorld * list (bytes * error)) :=
  let '(w, evs) := acc in
  match UnlockFundsForDelegateMsgs (ew_stk w) msg with
  | Panic e => Panic e
  | Err e => Ok (w, evs ++ [(qm_MsgId msg, e)])
  | Ok st =>
    r ← HandleQueuedMsg ctx (mkEpWorld (ew_ep w) st (ew_ext w)) msg;
    let '(w, err) := (r : EpWorld * option error) in
    Ok (w, match err with Some e => evs ++ [(qm_MsgId msg, e)] | None => evs end)
  end.

Definition EndBlocker_epoching (ctx : Ctx) (w : EpWorld) : outcome (EpWorld * list (bytes * error) * list (bytes * Z)) :=
  epoch ← GetEpoch (ew_ep w);
  if IsLastBlock epoch ctx then
    let w := mkEpWorld (ew_ep w) (ew_stk w) (BeforeEpochEnds (ew_ep w) (ew_ext w) (EpochNumber epoch)) in
    s ← RecordLastHeaderTime (ew_ep w) ctx;
    let w := mkEpWorld s (ew_stk w) (ew_ext w) in
    queuedMsgs ← GetCurrentEpochMsgs (ew_ep w);
    '(w, evs) ← foldM (runQueued ctx) (w, []) queuedMsgs;
    '(st, hooks, updates) ← must (StkApplyAndReturnValidatorSetUpdates (ew_stk w));
    '(s, e) ← must (foldM (stakingHook ctx) (ew_ep w, ew_ext w) hooks);
    Ok (mkEpWorld s st (AfterEpochEnds s e (EpochNumber epoch)), evs, updates)
  else Ok (w, [], []).

End keeper.
