(* ===== verification/EpochTiling.v ===== *)
(** * x/epoching: epochs tile the chain

    Over any history of blocks, messages and parameter changes, the recorded
    epochs are consecutive ranges of heights and the current one contains the
    current height; the epoch looked up from a height is the recorded one as long
    as the interval does not change. The validator set of an epoch is the
    staking module's at its first block, searched by bisection. *)

From S2P Require Import Prelude Bytes Store BbnTypes Coins Epochs.

(** ** Searching a validator set *)

Definition sorted_set (vs : ValidatorSet) : Prop :=
  ∀ i j a b, (i < j)%nat → vs !! i = Some a → vs !! j = Some b → bytes_less (val_Addr a) (val_Addr b) = true.

Lemma bytes_less_irrefl b : bytes_less b b = false.
Proof. apply lex_less_irrefl. Qed.

Lemma sorted_set_inj vs i j a b : sorted_set vs → vs !! i = Some a → vs !! j = Some b → val_Addr a = val_Addr b → i = j.
Proof.
  intros Hs Ha Hb Heq. destruct (lt_eq_lt_dec i j) as [[Hlt|]|Hlt]; [|done|].
  - pose proof (Hs _ _ _ _ Hlt Ha Hb) as H. by rewrite Heq, bytes_less_irrefl in H.
  - pose proof (Hs _ _ _ _ Hlt Hb Ha) as H. by rewrite Heq, bytes_less_irrefl in H.
Qed.

Lemma binarySearch_fuel_spec fuel vs target lo hi : sorted_set vs →
  0 ≤ lo → hi < Z.of_nat (length vs) → hi - lo + 1 < Z.of_nat fuel →
  (∀ i v, vs !! i = Some v → val_Addr v = target → lo ≤ Z.of_nat i ≤ hi) →
  let r := binarySearch_fuel fuel vs target lo hi in
  (r = -1 ∧ ∀ v, v ∈ vs → val_Addr v ≠ target) ∨
  (0 ≤ r ∧ ∃ v, vs !! Z.to_nat r = Some v ∧ val_Addr v = target).
Proof.
  intros Hs. revert lo hi. induction fuel as [|fuel IH]; intros lo hi Hlo Hhi Hf Hrange.
  { left. split; [done|]. intros v [i Hi]%list_elem_of_lookup Hv. pose proof (Hrange _ _ Hi Hv). lia. }
  cbn [binarySearch_fuel]. destruct (Z.ltb_spec hi lo).
  { left. split; [done|]. intros v [i Hi]%list_elem_of_lookup Hv. pose proof (Hrange _ _ Hi Hv). lia. }
  set (mid := lo + (hi - lo) `quot` 2).
  assert (lo ≤ mid ≤ hi) as Hmid.
  { unfold mid. rewrite Z.quot_div_nonneg by lia. pose proof (Z.div_pos (hi - lo) 2). pose proof (Z.div_le_upper_bound (hi - lo) 2 (hi - lo)). lia. }
  destruct (vs !! Z.to_nat mid) as [v|] eqn:Hv; [|apply lookup_ge_None in Hv; lia].
  case_bool_decide as Heq; [right; split; [lia|]; by exists v|].
  destruct (bytes_less target (val_Addr v)) eqn:Hless; apply IH; try lia.
  - intros i w Hi Hw. pose proof (Hrange _ _ Hi Hw). split; [lia|].
    destruct (decide (i < Z.to_nat mid)%nat); [lia|]. exfalso.
    destruct (decide (i = Z.to_nat mid)) as [->|]; [congruence|].
    pose proof (Hs (Z.to_nat mid) i _ _ ltac:(lia) Hv Hi) as Hl. rewrite Hw in Hl. apply bytes_less_asym in Hl. congruence.
  - intros i w Hi Hw. pose proof (Hrange _ _ Hi Hw). split; [|lia].
    destruct (decide (Z.to_nat mid + 1 ≤ i)%nat); [lia|]. exfalso.
    destruct (decide (i = Z.to_nat mid)) as [->|]; [congruence|].
    pose proof (Hs i (Z.to_nat mid) _ _ ltac:(lia) Hi Hv) as Hl. rewrite Hw in Hl. congruence.
Qed.

(** The bisection finds exactly the validator with the address. *)
Lemma FindValidatorWithIndex_spec vs addr : sorted_set vs →
  (∃ v i, FindValidatorWithIndex vs addr = Ok (v, i) ∧ 0 ≤ i ∧ vs !! Z.to_nat i = Some v ∧ val_Addr v = addr) ∨
  (FindValidatorWithIndex vs addr = Err (Errorf "validator address does not exist in the validator set") ∧
   ∀ v, v ∈ vs → val_Addr v ≠ addr).
Proof.
  intros Hs. unfold FindValidatorWithIndex, binarySearch.
  destruct (binarySearch_fuel_spec (S (length vs)) vs addr 0 (Z.of_nat (length vs) - 1) Hs) as [[-> Hn]|(Hr & v & Hv & Ha)];
    [lia|lia|lia|intros i v Hi _; apply lookup_lt_Some in Hi; lia|by right|].
  left. set (r := binarySearch_fuel _ _ _ _ _) in *. destruct (Z.eqb_spec r (-1)); [lia|]. rewrite Hv. by exists v, r.
Qed.

(** What is stored under distinct addresses comes out sorted by them. *)
Lemma GetValidatorSet_perm s n :
  GetValidatorSet s n ≡ₚ (λ kv, mkValidator kv.1 kv.2) <$> map_to_list (substore (es_ValSet s) n).
Proof. unfold GetValidatorSet, NewSortedValidatorSet. rewrite sort_stable_perm. unfold iterB. by rewrite iterator_perm. Qed.

Lemma GetValidatorSet_sorted s n : sorted_set (GetValidatorSet s n).
Proof.
  intros i j a b Hij Ha Hb. set (less := λ a b : Validator, bytes_less (val_Addr a) (val_Addr b)).
  assert (StronglySorted (may_precede less) (GetValidatorSet s n)) as Hsort.
  { apply sort_stable_sorted; unfold may_precede, less.
    - intros x y. apply bytes_less_asym.
    - intros x y z. apply bytes_less_neg_trans. }
  assert (NoDup (val_Addr <$> GetValidatorSet s n)) as Hnd.
  { rewrite GetValidatorSet_perm, <- list_fmap_compose. exact (NoDup_fst_map_to_list (substore (es_ValSet s) n)). }
  destruct (less a b) eqn:E; [done|]. exfalso.
  assert (less b a = false) as E'.
  { eapply (StronglySorted_app_1_elem_of (may_precede less) (take (S i) (GetValidatorSet s n)) (drop (S i) (GetValidatorSet s n))).
    - by rewrite take_drop.
    - apply (list_elem_of_lookup_2 _ i). by rewrite lookup_take_lt by lia.
    - apply (list_elem_of_lookup_2 _ (j - S i)). rewrite lookup_drop. by replace (S i + (j - S i))%nat with j by lia. }
  pose proof (bytes_less_total _ _ E E') as Heq. rewrite NoDup_alt in Hnd.
  assert (i = j) as ->; [|lia]. apply (Hnd i j (val_Addr a)); rewrite list_lookup_fmap; [by rewrite Ha|].
  rewrite Hb. simpl. by rewrite Heq.
Qed.

(** ** Tiling *)

Definition view (e : Epoch) : Z * Z * Z := (EpochNumber e, CurrentEpochInterval e, FirstBlockHeight e).
Definition views (s : EpochingState) (k : Z) : option (Z * Z * Z) := view <$> es_EpochInfo s !! k.

(** Epochs [0] to [n] are recorded; from the first on they are consecutive ranges
    of heights, and the last one contains the height [h]. *)
Record tiles (s : EpochingState) (h n : Z) : Prop := {
  ti_n : 0 ≤ n ≤ h;
  ti_dom k : is_Some (views s k) ↔ 0 ≤ k ≤ n;
  ti_num k m i f : views s k = Some (m, i, f) → m = k;
  ti_first m i f : views s 1 = Some (m, i, f) → f = 1;
  ti_next k m i f m' i' f' : 1 ≤ k → views s k = Some (m, i, f) → views s (k + 1) = Some (m', i', f') → f' = f + i;
  ti_interval k m i f : 1 ≤ k → views s k = Some (m, i, f) → 2 ≤ i < 2 ^ 63;
  ti_current : if n =? 0 then h = 0 else ∃ m i f, views s n = Some (m, i, f) ∧ 1 ≤ f ≤ h ∧ h < f + i
}.

Lemma tiles_views s s' h n : (∀ k, views s' k = views s k) → tiles s h n → tiles s' h n.
Proof.
  intros Hv [H1 H2 H3 H4 H5 H6 H7]. split.
  - done.
  - intros k. by rewrite Hv.
  - intros k m i f. rewrite Hv. apply H3.
  - intros m i f. rewrite Hv. apply H4.
  - intros k m i f m' i' f'. rewrite !Hv. apply H5.
  - intros k m i f. rewrite Hv. apply H6.
  - destruct (n =? 0); [done|]. by rewrite Hv.
Qed.

Lemma views_Some s k v : views s k = Some v ↔ ∃ e, es_EpochInfo s !! k = Some e ∧ view e = v.
Proof. unfold views. rewrite fmap_Some. naive_solver. Qed.

Lemma GetEpoch_tiles s h n : tiles s h n → ∃ e, GetEpoch s = Ok e ∧ es_EpochInfo s !! n = Some e ∧ EpochNumber e = n.
Proof.
  intros Ht. unfold GetEpoch. destruct (last (iterZ (es_EpochInfo s))) as [[k e]|] eqn:Hl.
  - apply iterZ_last in Hl as [Hk Hmax]. exists e.
    assert (k = n) as ->.
    { assert (0 ≤ k ≤ n) by (apply (ti_dom _ _ _ Ht); unfold views; by rewrite Hk).
      destruct (proj2 (ti_dom _ _ _ Ht n)) as [v Hv]; [pose proof (ti_n _ _ _ Ht); lia|].
      apply views_Some in Hv as (e' & He' & _). specialize (Hmax n ltac:(by rewrite He')). lia. }
    split_and!; [done|done|]. apply (ti_num _ _ _ Ht n _ (CurrentEpochInterval e) (FirstBlockHeight e)). unfold views. by rewrite Hk.
  - apply iterZ_last_None in Hl. destruct (proj2 (ti_dom _ _ _ Ht n)) as [v Hv]; [pose proof (ti_n _ _ _ Ht); lia|].
    unfold views in Hv. by rewrite Hl in Hv.
Qed.

(** Rewriting the current epoch without its range. *)
Lemma setEpochInfo_views s n e e' : es_EpochInfo s !! n = Some e → view e' = view e → ∀ k, views (setEpochInfo s n e') k = views s k.
Proof.
  intros He Hv k. unfold views, setEpochInfo. simpl. destruct (decide (k = n)) as [->|].
  - rewrite lookup_insert_eq, He. simpl. by rewrite Hv.
  - by rewrite lookup_insert_ne.
Qed.

(** The new epoch at the height after the last one. *)
Lemma tiles_extend s h n e : tiles s h n → 0 ≤ h → h + 1 < 2 ^ 63 → EpochNumber e = n + 1 → 2 ≤ CurrentEpochInterval e < 2 ^ 63 →
  FirstBlockHeight e = h + 1 →
  (if n =? 0 then True else ∀ m i f, views s n = Some (m, i, f) → f + i = h + 1) →
  tiles (setEpochInfo s (n + 1) e) (h + 1) (n + 1).
Proof.
  intros Ht Hh Hmax He Hi Hf Hnext. pose proof (ti_n _ _ _ Ht) as Hn. pose proof (ti_current _ _ _ Ht) as Hcur.
  assert (∀ k, views (setEpochInfo s (n + 1) e) k = if decide (k = n + 1) then Some (n + 1, CurrentEpochInterval e, h + 1) else views s k) as Hv.
  { intros k. unfold views, setEpochInfo. simpl. case_decide as E; [subst|by rewrite lookup_insert_ne].
    rewrite lookup_insert_eq. unfold view. simpl. by rewrite He, Hf. }
  split.
  - lia.
  - intros k. rewrite Hv. case_decide; [split; [lia|done]|]. rewrite (ti_dom _ _ _ Ht). lia.
  - intros k m i f. rewrite Hv. case_decide; [intros [= <- _ _]; lia|]. apply (ti_num _ _ _ Ht).
  - intros m i f. rewrite Hv. case_decide; [|apply (ti_first _ _ _ Ht)]. intros [= _ _ <-].
    destruct (Z.eqb_spec n 0); [lia|lia].
  - intros k m i f m' i' f' Hk. rewrite !Hv. case_decide; [intros _|].
    + case_decide; [lia|]. intros Hs. assert (is_Some (views s (k + 1))) as Hd by (by rewrite Hs). apply (ti_dom _ _ _ Ht) in Hd. lia.
    + intros Hk'. case_decide as E.
      * intros [= _ _ <-]. assert (k = n) as -> by lia. destruct (Z.eqb_spec n 0); [lia|]. by rewrite (Hnext _ _ _ Hk').
      * by eapply (ti_next _ _ _ Ht).
  - intros k m i f Hk. rewrite Hv. case_decide; [intros [= _ <- _]; lia|]. by apply (ti_interval _ _ _ Ht).
  - destruct (Z.eqb_spec (n + 1) 0); [lia|]. exists (n + 1), (CurrentEpochInterval e), (h + 1).
    rewrite Hv, decide_True by done. split; [done|lia].
Qed.

(** A height inside the current epoch. *)
Lemma tiles_stay s h n : tiles s h n → (if n =? 0 then False else ∀ m i f, views s n = Some (m, i, f) → h + 1 < f + i) →
  tiles s (h + 1) n.
Proof.
  intros Ht Hin. pose proof (ti_n _ _ _ Ht) as Hn. pose proof (ti_current _ _ _ Ht) as Hc. destruct (Z.eqb_spec n 0) as [->|Hn0]; [done|].
  destruct Hc as (m & i & f & Hs & Hf & Hlt). specialize (Hin _ _ _ Hs). destruct Ht as [H1 H2 H3 H4 H5 H6 _].
  split; [lia|done|done|done|done|done|]. destruct (Z.eqb_spec n 0); [done|]. exists m, i, f. split; [done|lia].
Qed.

(** ** The operations *)

Section steps.
Context {BA : Bech32} {VA : ValBech32} {S : Type} {ST : Staking S} {E : Type} {EH : EpochingHooks E}.
Implicit Types w : EpWorld (S := S) (E := E).

(** What slashing and the lifecycles do not touch, executing a queued message
    keeps. *)
Section kept.
Context {X : Type} (part : EpochingState → X).
Context (part_life : ∀ v d s, part (with_Life v d s) = part s).
Context (part_slashed : ∀ p v s, part (with_Slashed p v s) = part s).

Lemma stakingHook_part ctx acc h acc' : stakingHook (E := E) ctx acc h = Ok acc' → part acc'.1 = part acc.1.
Proof using part_life part_slashed.
  destruct acc as [s e], h; cbn [stakingHook]; try (intros [= <-]; apply part_life).
  destruct (BeforeValidatorSlashed_hook s e valAddr) as [[s' e']|er|er] eqn:Hb; [|by intros [= <-]|done].
  intros [= <-]. unfold BeforeValidatorSlashed_hook in Hb.
  apply bind_Ok in Hb as (ep & _ & Hb). apply bind_Ok in Hb as (? & _ & Hb). apply bind_Ok in Hb as (? & _ & Hb).
  apply bind_Ok in Hb as (? & _ & Hb). apply bind_Ok in Hb as (s1 & Ha & Hb). injection Hb as <- <-.
  unfold AddSlashedValidator in Ha. apply bind_Ok in Ha as (? & _ & Ha). apply bind_Ok in Ha as (? & _ & Ha).
  apply bind_Ok in Ha as (? & _ & Ha). injection Ha as <-. unfold setSlashedVotingPower. cbn [fst]. by rewrite !part_slashed.
Qed.

Lemma stakingHooks_part ctx l acc acc' : foldM (stakingHook (E := E) ctx) acc l = Ok acc' → part acc'.1 = part acc.1.
Proof using part_life part_slashed.
  revert acc. induction l as [|h l IH]; intros acc; [by intros [= <-]|]. cbn [foldM]. intros Hk.
  apply bind_Ok in Hk as (acc1 & H1 & Hk). rewrite (IH _ Hk). by eapply stakingHook_part.
Qed.

Lemma recordAfter_part ctx s m s' : recordAfter ctx s m = Ok s' → part s' = part s.
Proof using part_life.
  assert (∀ d v a l, recordStates ctx s d v a l = Ok s' → part s' = part s) as Hr.
  { intros d v a l Hk. unfold recordStates in Hk. apply bind_Ok in Hk as ([del val] & _ & Hk). injection Hk as <-.
    induction l as [|b l IH] using rev_ind; [done|]. rewrite foldl_app. cbn [foldl]. unfold RecordNewDelegationState at 1. by rewrite part_life. }
  destruct m; cbn [recordAfter]; first [apply Hr | by intros [= <-]].
Qed.

Lemma runUnwrappedMsg_part ctx w m w' err : runUnwrappedMsg ctx w m = Ok (w', err) → part (ew_ep w') = part (ew_ep w).
Proof using part_life part_slashed.
  intros Hr. unfold runUnwrappedMsg in Hr.
  destruct (_ ≫= _) as [w2|er|er] eqn:Hm in Hr; [|by injection Hr as <- _|done].
  assert (part (ew_ep w2) = part (ew_ep w)) as H2.
  { apply bind_Ok in Hm as ([st1 hooks] & _ & Hm). apply bind_Ok in Hm as ([s2 e2] & Hf & Hm). injection Hm as <-.
    apply stakingHooks_part in Hf. exact Hf. }
  destruct (recordAfter ctx (ew_ep w2) (qm_Msg m)) as [s3|er|er] eqn:Ha; [|by injection Hr as <- _|done].
  injection Hr as <- _. cbn [ew_ep]. rewrite <- H2. by eapply recordAfter_part.
Qed.

Lemma runQueued_part ctx acc m acc' : runQueued ctx acc m = Ok acc' → part (ew_ep acc'.1) = part (ew_ep acc.1).
Proof using part_life part_slashed.
  destruct acc as [w evs]. unfold runQueued. destruct (UnlockFundsForDelegateMsgs (ew_stk w) m) as [st|er|er]; [|by intros [= <-]|done].
  intros Hk. apply bind_Ok in Hk as ([w1 err] & Hr & Hk). injection Hk as <-. cbn [fst]. apply runUnwrappedMsg_part in Hr. exact Hr.
Qed.

Lemma runQueueds_part ctx l acc acc' : foldM (runQueued ctx) acc l = Ok acc' → part (ew_ep acc'.1) = part (ew_ep acc.1).
Proof using part_life part_slashed.
  revert acc. induction l as [|m l IH]; intros acc; [by intros [= <-]|]. cbn [foldM]. intros Hk.
  apply bind_Ok in Hk as (acc1 & H1 & Hk). rewrite (IH _ Hk). by eapply runQueued_part.
Qed.
End kept.

(** What only the ends of epochs change. *)
Definition fixed_part (s : EpochingState) : Z * gmap Z Epoch := (es_Interval s, es_EpochInfo s).

Lemma CtxHeight_small ctx h : HeaderHeight ctx = h → 0 ≤ h < 2 ^ 63 → CtxHeight ctx = h.
Proof using. intros <- Hh. unfold CtxHeight. apply u64_small. unfold in_u64. lia. Qed.

Lemma EndBlocker_views ctx w w' evs ups h n : tiles (ew_ep w) h n → EndBlocker_epoching ctx w = Ok (w', evs, ups) →
  (∀ k, views (ew_ep w') k = views (ew_ep w) k) ∧ es_Interval (ew_ep w') = es_Interval (ew_ep w).
Proof using.
  intros Ht Hk. unfold EndBlocker_epoching in Hk. destruct (GetEpoch_tiles _ _ _ Ht) as (e & Hge & He & Hen). rewrite Hge in Hk.
  cbn [mbind outcome_bind] in Hk. destruct (IsLastBlock e ctx) eqn:Hlast; [|by injection Hk as <- _ _].
  apply bind_Ok in Hk as (s1 & Hs1 & Hk). apply bind_Ok in Hk as (msgs & _ & Hk). apply bind_Ok in Hk as ([w2 evs2] & Hf & Hk).
  apply bind_Ok in Hk as ([[st hooks] upd] & _ & Hk). apply bind_Ok in Hk as ([s3 e3] & Hh & Hk). injection Hk as <- _ _.
  unfold RecordLastHeaderTime in Hs1. cbn [ew_ep] in Hs1. rewrite Hge in Hs1. cbn [mbind outcome_bind] in Hs1. rewrite Hlast in Hs1.
  injection Hs1 as Hs1. apply must_Ok, (stakingHooks_part fixed_part) in Hh; [|done..]. apply (runQueueds_part fixed_part) in Hf; [|done..]. cbn [fst ew_ep] in *.
  rewrite Hf in Hh. injection Hh as Hi Hinfo. split; [|by rewrite Hi, <- Hs1].
  intros k. trans (views s1 k); [unfold views; by rewrite Hinfo|].
  rewrite <- Hs1. apply (setEpochInfo_views _ _ e); [by rewrite Hen|done].
Qed.

(** Beginning the block after the height [h]. *)
Lemma BeginBlocker_tiles ctx bh w w' h n : tiles (ew_ep w) h n → 2 ≤ es_Interval (ew_ep w) < 2 ^ 63 → h + 1 < 2 ^ 63 →
  HeaderHeight ctx = h + 1 → BeginBlocker_epoching ctx bh w = Ok w' →
  ∃ e n', GetEpoch (ew_ep w) = Ok e ∧ n' = (if IsFirstBlockOfNextEpoch e ctx then n + 1 else n) ∧
    tiles (ew_ep w') (h + 1) n' ∧ (∀ k, k ≤ n → views (ew_ep w') k = views (ew_ep w) k) ∧
    es_Interval (ew_ep w') = es_Interval (ew_ep w).
Proof using.
  intros Ht Hint Hmax Hctx Hk. pose proof (ti_n _ _ _ Ht) as Hn. pose proof (ti_current _ _ _ Ht) as Hcur.
  pose proof (CtxHeight_small ctx (h + 1) Hctx ltac:(lia)) as Hch.
  unfold BeginBlocker_epoching in Hk. destruct (GetEpoch_tiles _ _ _ Ht) as (e & Hge & He & Hen). rewrite Hge in Hk.
  cbn [mbind outcome_bind] in Hk. exists e.
  assert (views (ew_ep w) n = Some (view e)) as Hvn by (unfold views; by rewrite He).
  assert (n ≠ 0 → 1 ≤ FirstBlockHeight e ≤ h ∧ h < FirstBlockHeight e + CurrentEpochInterval e ∧ 2 ≤ CurrentEpochInterval e < 2 ^ 63) as Hcur'.
  { intros Hn0. destruct (Z.eqb_spec n 0); [done|]. destruct Hcur as (m & i & f & Hs & Hf & Hlt). rewrite Hs in Hvn. injection Hvn as -> -> ->.
    split_and!; try lia; eapply (ti_interval _ _ _ Ht n); [lia|exact Hs|lia|exact Hs]. }
  destruct (IsFirstBlockOfNextEpoch e ctx) eqn:Hfirst.
  - apply bind_Ok in Hk as (w1 & Hk & Hlast).
    apply bind_Ok in Hk as ([s1 inc] & Hinc & Hk). apply bind_Ok in Hk as (s2 & Hs2 & Hk). apply bind_Ok in Hk as (s3 & Hs3 & Hk).
    apply bind_Ok in Hk as (s4 & Hs4 & Hk). apply bind_Ok in Hk as (s5 & Hs5 & Hk). injection Hk as <-.
    unfold IncEpoch in Hinc. rewrite Hge in Hinc. cbn [mbind outcome_bind] in Hinc. rewrite Hen, Hch in Hinc.
    rewrite (u64_small (n + 1)) in Hinc by (unfold in_u64; lia). injection Hinc as <- <-.
    set (ne := NewEpoch (n + 1) (es_Interval (ew_ep w)) (h + 1) None) in *.
    assert (tiles (setEpochInfo (ew_ep w) (n + 1) ne) (h + 1) (n + 1)) as Ht1.
    { apply tiles_extend; try done; [lia|]. destruct (Z.eqb_spec n 0) as [|Hn0]; [done|]. intros m i f Hs. rewrite Hvn in Hs.
      injection Hs as _ <- <-. unfold IsFirstBlockOfNextEpoch in Hfirst. rewrite Hen, Hch in Hfirst.
      destruct (Z.eqb_spec n 0); [done|]. apply Z.eqb_eq in Hfirst. rewrite u64_small in Hfirst by (unfold in_u64; specialize (Hcur' Hn0); lia). done. }
    assert (∀ k, views s2 k = views (setEpochInfo (ew_ep w) (n + 1) ne) k) as Hv2.
    { unfold RecordSealerAppHashForPrevEpoch in Hs2. apply bind_Ok in Hs2 as (ep & Hep & Hs2).
      destruct (GetEpoch_tiles _ _ _ Ht1) as (ep' & Hep' & _ & Hepn). rewrite Hep' in Hep. injection Hep as <-.
      destruct (negb _); [done|]. apply bind_Ok in Hs2 as (sealed & Hsl & Hs2). injection Hs2 as <-.
      apply must_Ok in Hsl. unfold GetHistoricalEpoch in Hsl. rewrite Hepn in Hsl.
      replace (u64 (n + 1 - 1)) with n in Hsl by (rewrite u64_small; [lia|unfold in_u64; lia]).
      destruct (es_EpochInfo (setEpochInfo (ew_ep w) (n + 1) ne) !! n) as [e2|] eqn:He2; [|done]. injection Hsl as ->.
      assert (EpochNumber sealed = n) as Hsn.
      { eapply (ti_num _ _ _ Ht1 n _ (CurrentEpochInterval sealed) (FirstBlockHeight sealed)). unfold views. by rewrite He2. }
      apply (setEpochInfo_views _ _ sealed); [by rewrite Hsn|done]. }
    assert (tiles s2 (h + 1) (n + 1)) as Ht2 by (eapply tiles_views; [exact Hv2|exact Ht1]).
    assert (fixed_part s5 = fixed_part s2) as Heq.
    { unfold InitMsgQueue in Hs3. apply bind_Ok in Hs3 as (? & _ & Hs3). injection Hs3 as <-.
      unfold InitSlashedVotingPower in Hs4. apply bind_Ok in Hs4 as (? & _ & Hs4). injection Hs4 as <-.
      unfold InitValidatorSet in Hs5. apply bind_Ok in Hs5 as (? & _ & Hs5). by injection Hs5 as <-. }
    assert (tiles s5 (h + 1) (n + 1)) as Ht5 by (eapply tiles_views; [|exact Ht2]; intros k; unfold views; by injection Heq as _ ->).
    assert (∀ k, k ≤ n → views s5 k = views (ew_ep w) k) as Hv5.
    { intros k Hkn. trans (views s2 k); [unfold views; by injection Heq as _ ->|]. rewrite Hv2. unfold views, setEpochInfo. simpl.
      by rewrite lookup_insert_ne by lia. }
    assert (es_Interval s5 = es_Interval (ew_ep w)) as Hi5.
    { injection Heq as -> _. unfold RecordSealerAppHashForPrevEpoch in Hs2. apply bind_Ok in Hs2 as (? & _ & Hs2).
      destruct (negb _); [done|]. apply bind_Ok in Hs2 as (? & _ & Hs2). by injection Hs2 as <-. }
    cbn [ew_ep ew_stk ew_ext] in Hlast. destruct (IsLastBlock e ctx) eqn:Hl; [|injection Hlast as <-; by exists (n + 1)].
    exfalso. unfold IsLastBlock, GetLastBlockHeight in Hl. rewrite Hen, Hch in Hl. apply Z.eqb_eq in Hl.
    unfold IsFirstBlockOfNextEpoch in Hfirst. rewrite Hen, Hch in Hfirst. destruct (Z.eqb_spec n 0); [lia|].
    apply Z.eqb_eq in Hfirst. specialize (Hcur' ltac:(done)). rewrite u64_small in Hl, Hfirst by (unfold in_u64; lia). lia.
  - cbn [mbind outcome_bind] in Hk.
    assert (tiles (ew_ep w) (h + 1) n) as Ht1.
    { apply tiles_stay; [done|]. unfold IsFirstBlockOfNextEpoch in Hfirst. rewrite Hen, Hch, Hctx in Hfirst.
      destruct (Z.eqb_spec n 0) as [->|Hn0]; [apply Z.eqb_neq in Hfirst; lia|]. intros m i f Hs. rewrite Hvn in Hs. injection Hs as _ <- <-.
      apply Z.eqb_neq in Hfirst. specialize (Hcur' Hn0). rewrite u64_small in Hfirst by (unfold in_u64; lia). lia. }
    exists n. destruct (IsLastBlock e ctx) eqn:Hl; [|by injection Hk as <-].
    apply bind_Ok in Hk as (s1 & Hs1 & Hk). injection Hk as <-. unfold RecordSealerBlockHashForEpoch in Hs1. rewrite Hge in Hs1.
    cbn [mbind outcome_bind] in Hs1. rewrite Hl in Hs1. injection Hs1 as <-. cbn [ew_ep]. split; [done|]. split; [done|].
    pose proof (setEpochInfo_views (ew_ep w) (EpochNumber e) e (mkEpoch (EpochNumber e) (CurrentEpochInterval e) (FirstBlockHeight e)
      (LastBlockTime e) (SealerAppHash e) bh) ltac:(by rewrite Hen) eq_refl) as Hv.
    split; [by eapply tiles_views|]. by split; [intros k _|].
Qed.

(** ** Histories *)

(** Blocks begin and end in order; in between messages are queued, validators
    slashed and the parameters changed. The second component is the height of
    the last block begun. *)
Inductive ep_step : EpWorld (S := S) (E := E) * Z → EpWorld (S := S) (E := E) * Z → Prop :=
  | step_begin w h ctx bh w' :
      HeaderHeight ctx = h + 1 → BeginBlocker_epoching ctx bh w = Ok w' → ep_step (w, h) (w', h + 1)
  | step_end w h ctx w' evs ups :
      HeaderHeight ctx = h → EndBlocker_epoching ctx w = Ok (w', evs, ups) → ep_step (w, h) (w', h)
  | step_enqueue w h msg s' :
      EnqueueMsg (ew_ep w) msg = Ok s' → ep_step (w, h) (mkEpWorld s' (ew_stk w) (ew_ext w), h)
  | step_hook w h ctx hk s' e' :
      stakingHook ctx (ew_ep w, ew_ext w) hk = Ok (s', e') → ep_step (w, h) (mkEpWorld s' (ew_stk w) e', h)
  | step_staking w h st' : ep_step (w, h) (mkEpWorld (ew_ep w) st' (ew_ext w), h)
  | step_params w h authority req i s' :
      UpdateParams_epoching authority req (ew_ep w) i = Ok s' → i < 2 ^ 63 →
      ep_step (w, h) (mkEpWorld s' (ew_stk w) (ew_ext w), h).

Definition ep_inv (st : EpWorld (S := S) (E := E) * Z) : Prop :=
  st.2 < 2 ^ 63 → 2 ≤ es_Interval (ew_ep st.1) < 2 ^ 63 ∧ ∃ n, tiles (ew_ep st.1) st.2 n.

Lemma fixed_part_tiles s s' h n : fixed_part s' = fixed_part s → tiles s h n → tiles s' h n.
Proof using. intros Hf. injection Hf as _ Hf. apply tiles_views. intros k. unfold views. by rewrite Hf. Qed.

Lemma ep_step_inv st st' : ep_inv st → ep_step st st' → ep_inv st'.
Proof using.
  intros Hinv Hstep Hlt. destruct Hstep as [w h ctx bh w' Hc Hb|w h ctx w' evs ups Hc He|w h msg s' He|w h ctx hk s' e' Hk|w h st'|w h au rq i s' Hu Hi];
    cbn [fst snd] in *; destruct (Hinv ltac:(simpl; lia)) as [Hint [n Hn]]; cbn [fst snd ew_ep] in *.
  - destruct (BeginBlocker_tiles _ _ _ _ _ _ Hn Hint Hlt Hc Hb) as (e & n' & _ & _ & Hn' & _ & Hi'). rewrite Hi'. split; [done|by exists n'].
  - destruct (EndBlocker_views _ _ _ _ _ _ _ Hn He) as [Hv Hi']. rewrite Hi'. split; [done|]. exists n. by eapply tiles_views.
  - unfold EnqueueMsg in He. apply bind_Ok in He as (ep & _ & He). injection He as <-. split; [done|]. exists n. by apply (fixed_part_tiles (ew_ep w)).
  - apply (stakingHook_part fixed_part) in Hk; [|done..]. cbn [fst] in Hk. pose proof Hk as Hk'. injection Hk' as -> _. split; [done|]. exists n. by apply (fixed_part_tiles (ew_ep w)).
  - split; [done|by exists n].
  - unfold UpdateParams_epoching, validateEpochInterval in Hu. destruct (negb _); [done|]. destruct (Z.ltb_spec i 2); [done|].
    injection Hu as <-. cbn [es_Interval]. split; [lia|]. exists n. eapply tiles_views; [|exact Hn]. done.
Qed.

Lemma ep_steps_inv st st' : rtc ep_step st st' → ep_inv st → ep_inv st'.
Proof using. induction 1 as [|st1 st2 st3 Hs _ IH]; [done|]. intros Hi. apply IH. by eapply ep_step_inv. Qed.

(** ** What tiling gives *)

Lemma tiles_lookup s h n k : tiles s h n → 0 ≤ k ≤ n → ∃ e, es_EpochInfo s !! k = Some e ∧ EpochNumber e = k.
Proof using.
  intros Ht Hk. destruct (proj2 (ti_dom _ _ _ Ht k) Hk) as [[[m i] f] Hv]. pose proof (ti_num _ _ _ Ht _ _ _ _ Hv) as ->.
  apply views_Some in Hv as (e & He & Hv). exists e. split; [done|]. by injection Hv.
Qed.

(** The heights of an epoch, without wrap-around. *)
Definition covers (e : Epoch) (x : Z) : Prop := FirstBlockHeight e ≤ x < FirstBlockHeight e + CurrentEpochInterval e.

Lemma tiles_up s h n (P : Z → Epoch → Prop) : tiles s h n →
  (∀ e, es_EpochInfo s !! 1 = Some e → FirstBlockHeight e = 1 → P 1 e) →
  (∀ k e e', 1 ≤ k → k + 1 ≤ n → es_EpochInfo s !! k = Some e → es_EpochInfo s !! (k + 1) = Some e' →
     FirstBlockHeight e' = FirstBlockHeight e + CurrentEpochInterval e → P k e → P (k + 1) e') →
  ∀ k e, 1 ≤ k ≤ n → es_EpochInfo s !! k = Some e → P k e.
Proof using.
  intros Ht H1 Hs k e Hk. revert e. replace k with (Z.of_nat (Z.to_nat (k - 1)) + 1) in * by lia. revert Hk.
  generalize (Z.to_nat (k - 1)) as d. intros d. induction d as [|d IH]; intros Hd e He.
  - change (Z.of_nat 0 + 1) with 1 in He. apply H1; [done|]. apply (ti_first _ _ _ Ht (EpochNumber e) (CurrentEpochInterval e)). unfold views. by rewrite He.
  - destruct (tiles_lookup s h n (Z.of_nat d + 1) Ht ltac:(lia)) as (e0 & He0 & _).
    replace (Z.of_nat (Datatypes.S d) + 1) with (Z.of_nat d + 1 + 1) in * by lia.
    apply (Hs (Z.of_nat d + 1) e0); [lia|lia|done|done| |apply IH; [lia|done]].
    eapply (ti_next _ _ _ Ht (Z.of_nat d + 1)); [lia|unfold views; by rewrite He0|unfold views; by rewrite He].
Qed.

Lemma tiles_cover s h n x : tiles s h n → 1 ≤ x ≤ h → ∃ k e, 1 ≤ k ≤ n ∧ es_EpochInfo s !! k = Some e ∧ covers e x.
Proof using.
  intros Ht Hx. pose proof (ti_current _ _ _ Ht) as Hc. pose proof (ti_n _ _ _ Ht) as Hn. destruct (Z.eqb_spec n 0); [lia|].
  destruct Hc as (m & i & f & Hv & Hf & Hlt). apply views_Some in Hv as (e & He & Hv). injection Hv as _ <- <-.
  revert Hlt. assert (∀ k e, 1 ≤ k ≤ n → es_EpochInfo s !! k = Some e → x < FirstBlockHeight e + CurrentEpochInterval e →
    ∃ k e, 1 ≤ k ≤ n ∧ es_EpochInfo s !! k = Some e ∧ covers e x) as Hg; [|intros; apply (Hg n e); [lia|done|lia]].
  apply (tiles_up s h n (λ _ e, x < FirstBlockHeight e + CurrentEpochInterval e →
    ∃ k e, 1 ≤ k ≤ n ∧ es_EpochInfo s !! k = Some e ∧ covers e x) Ht).
  - intros e1 He1 Hf1 Hlt1. exists 1, e1. split_and!; [lia|lia|done|]. unfold covers. lia.
  - intros k e1 e2 Hk1 Hk2 He1 He2 Hnext IH Hlt2. destruct (decide (FirstBlockHeight e2 ≤ x)).
    + exists (k + 1), e2. split_and!; [lia|lia|done|]. unfold covers. lia.
    + apply IH. lia.
Qed.

Lemma tiles_apart s h n j ej k e : tiles s h n → 1 ≤ j → es_EpochInfo s !! j = Some ej → 1 ≤ k ≤ n → es_EpochInfo s !! k = Some e →
  j < k → FirstBlockHeight ej + CurrentEpochInterval ej ≤ FirstBlockHeight e.
Proof using.
  intros Ht Hj Hej. revert k e. apply (tiles_up s h n (λ k e, j < k → FirstBlockHeight ej + CurrentEpochInterval ej ≤ FirstBlockHeight e) Ht).
  - lia.
  - intros k e1 e2 Hk1 Hk2 He1 He2 Hnext IH Hlt.
    assert (2 ≤ CurrentEpochInterval e1).
    { eapply (ti_interval _ _ _ Ht k); [lia|unfold views; by rewrite He1]. }
    destruct (decide (j = k)) as [->|]; [|specialize (IH ltac:(lia)); lia]. rewrite He1 in Hej. injection Hej as ->. lia.
Qed.

Lemma tiles_const s h n : tiles s h n → (∀ k e, 1 ≤ k → es_EpochInfo s !! k = Some e → CurrentEpochInterval e = es_Interval s) →
  ∀ k e, 1 ≤ k ≤ n → es_EpochInfo s !! k = Some e → FirstBlockHeight e = (k - 1) * es_Interval s + 1.
Proof using.
  intros Ht Hc. apply (tiles_up s h n (λ k e, FirstBlockHeight e = (k - 1) * es_Interval s + 1) Ht).
  - lia.
  - intros k e1 e2 Hk1 Hk2 He1 He2 Hnext IH. rewrite Hnext, IH, (Hc k e1) by done. lia.
Qed.

Lemma genesis_tiles s t : es_EpochInfo s = <[0 := NewEpoch 0 1 0 t]> ∅ → tiles s 0 0 ∧ views s 0 = Some (0, 1, 0).
Proof using.
  intros He. assert (∀ k, views s k = if decide (k = 0) then Some (0, 1, 0) else None) as Hv.
  { intros k. unfold views. rewrite He. case_decide as E0; [subst; by rewrite lookup_insert_eq|].
    by rewrite lookup_insert_ne by done. }
  split; [|by rewrite Hv]. split.
  - lia.
  - intros k. rewrite Hv. case_decide; [split; [lia|done]|]. split; [by intros [? ?]|lia].
  - intros k m i f. rewrite Hv. case_decide; [|done]. intros [= <- _ _]. done.
  - intros m i f. by rewrite Hv.
  - intros k m i f m' i' f' Hk. rewrite Hv. case_decide; [lia|done].
  - intros k m i f Hk. rewrite Hv. case_decide; [lia|done].
  - done.
Qed.

Lemma genesis_inv s0 ctx w0 : es_EpochInfo s0 = ∅ → 2 ≤ es_Interval s0 < 2 ^ 63 → InitEpoch s0 ctx [] = Ok (ew_ep w0) →
  ep_inv (w0, 0).
Proof using.
  intros He Hi Hk _. cbn [fst snd]. unfold InitEpoch in Hk. destruct (0 <? HeaderHeight ctx); [done|]. injection Hk as <-.
  split; [done|]. exists 0. eapply genesis_tiles. unfold setEpochInfo. cbn [with_EpochInfo es_EpochInfo]. by rewrite He.
Qed.

Lemma lookup_const s h n k e x : tiles s h n →
  (∀ j ej, 1 ≤ j → es_EpochInfo s !! j = Some ej → CurrentEpochInterval ej = es_Interval s) →
  1 ≤ k ≤ n → es_EpochInfo s !! k = Some e → covers e x → h < 2 ^ 63 → 1 ≤ x ≤ h → 2 ≤ es_Interval s < 2 ^ 63 →
  Ok k = GetEpochNumByHeight s x.
Proof using.
  intros Ht Hconst Hk He Hcov Hh Hx Hi. pose proof (tiles_const _ _ _ Ht Hconst k e Hk He) as Hf. pose proof (Hconst k e ltac:(lia) He) as Hci.
  pose proof (ti_n _ _ _ Ht). unfold GetEpochNumByHeight, CalculateEpochNumber. destruct (Z.eqb_spec x 0); [lia|].
  destruct (Z.eqb_spec (es_Interval s) 0); [lia|]. unfold covers in Hcov. rewrite Hci, Hf in Hcov.
  replace ((x - 1) / es_Interval s) with (k - 1); [rewrite u64_small; [f_equal; lia|unfold in_u64; lia]|].
  apply (Z.div_unique _ _ _ (x - 1 - (k - 1) * es_Interval s)); lia.
Qed.

(** C29: Over any history of blocks, queued messages, slashes and parameter changes from genesis, the
    recorded epochs from the first on are disjoint consecutive ranges of heights: every height up to
    the current one lies in exactly one of them, and the epoch [GetEpoch] returns is the one that
    contains the current height. While every recorded epoch has the interval of the current
    parameters, [GetEpochNumByHeight] returns that epoch for every height. *)
Theorem epochs_tile w0 s0 ctx w h : es_EpochInfo s0 = ∅ → 2 ≤ es_Interval s0 < 2 ^ 63 →
  InitEpoch s0 ctx [] = Ok (ew_ep w0) → rtc ep_step (w0, 0) (w, h) → h < 2 ^ 63 →
  ∃ cur, GetEpoch (ew_ep w) = Ok cur ∧ (1 ≤ h → covers cur h) ∧
    ∀ x, 1 ≤ x ≤ h → ∃ k ek, es_EpochInfo (ew_ep w) !! k = Some ek ∧ EpochNumber ek = k ∧ covers ek x ∧
      (∀ k' ek', 1 ≤ k' → es_EpochInfo (ew_ep w) !! k' = Some ek' → covers ek' x → k' = k) ∧
      ((∀ j ej, 1 ≤ j → es_EpochInfo (ew_ep w) !! j = Some ej → CurrentEpochInterval ej = es_Interval (ew_ep w)) →
       GetEpochNumByHeight (ew_ep w) x = Ok k).
Proof using.
  intros Hempty Hint Hinit Hsteps Hh.
  destruct (ep_steps_inv _ _ Hsteps (genesis_inv _ _ _ Hempty Hint Hinit) Hh) as [Hint' [n Ht]]. cbn [fst snd] in *.
  destruct (GetEpoch_tiles _ _ _ Ht) as (cur & Hcur & Hinfo & Hnum). exists cur. split_and!; [done| |].
  - intros H1. pose proof (ti_current _ _ _ Ht) as Hc. pose proof (ti_n _ _ _ Ht). destruct (Z.eqb_spec n 0); [lia|].
    destruct Hc as (m & i & f & Hv & Hf & Hlt). unfold views in Hv. rewrite Hinfo in Hv. injection Hv as _ <- <-. unfold covers. lia.
  - intros x Hx. destruct (tiles_cover _ _ _ x Ht Hx) as (k & ek & Hk & Hek & Hcov). exists k, ek.
    assert (EpochNumber ek = k) as Hkn.
    { eapply (ti_num _ _ _ Ht k _ (CurrentEpochInterval ek) (FirstBlockHeight ek)). unfold views. by rewrite Hek. }
    split_and!; [done|done|done| |].
    + intros k' ek' Hk' Hek' Hcov'. assert (k' ≤ n) by (apply (ti_dom _ _ _ Ht); unfold views; by rewrite Hek').
      unfold covers in *. destruct (decide (k' < k)); [pose proof (tiles_apart _ _ _ k' ek' k ek Ht Hk' Hek' Hk Hek); lia|].
      destruct (decide (k < k')); [pose proof (tiles_apart _ _ _ k ek k' ek' Ht ltac:(lia) Hek ltac:(lia) Hek'); lia|lia].
    + intros Hconst. rewrite <- (lookup_const _ _ _ k ek x Ht Hconst Hk Hek Hcov Hh Hx Hint'). done.
Qed.

(** A shorter interval set by governance makes [GetEpochNumByHeight] place heights of the epochs
    already recorded, here the last one of the first epoch, in other epochs than the recorded ones. *)
Theorem epoch_lookup_after_update s h n e1 authority i s' : tiles s h n → es_EpochInfo s !! 1 = Some e1 →
  i < CurrentEpochInterval e1 → UpdateParams_epoching authority authority s i = Ok s' →
  let x := CurrentEpochInterval e1 in
  es_EpochInfo s' !! 1 = Some e1 ∧ covers e1 x ∧ ∃ k, GetEpochNumByHeight s' x = Ok k ∧ k ≠ 1.
Proof using.
  intros Ht He1 Hi Hu x. unfold UpdateParams_epoching, validateEpochInterval in Hu. rewrite String.eqb_refl in Hu. cbn [negb] in Hu.
  destruct (Z.ltb_spec i 2); [done|]. injection Hu as <-. split; [done|].
  assert (FirstBlockHeight e1 = 1) as Hf.
  { apply (ti_first _ _ _ Ht (EpochNumber e1) (CurrentEpochInterval e1)). unfold views. by rewrite He1. }
  assert (2 ≤ x < 2 ^ 63) as Hx by (eapply (ti_interval _ _ _ Ht 1); [lia|unfold views; by rewrite He1]).
  split; [unfold covers; fold x; lia|]. unfold GetEpochNumByHeight, CalculateEpochNumber. cbn [es_Interval].
  destruct (Z.eqb_spec x 0); [lia|]. destruct (Z.eqb_spec i 0); [lia|]. eexists. split; [done|].
  assert (1 ≤ (x - 1) / i) by (apply Z.div_le_lower_bound; lia).
  assert ((x - 1) / i ≤ x - 1) by (apply Z.div_le_upper_bound; nia).
  rewrite u64_small by (unfold in_u64; lia). lia.
Qed.

(** A queued [MsgCreateValidator] that the staking module accepts is executed and yet reported
    as failed: the module parses the validator's address as an account address, which its prefix
    rules out, so the self-delegation is never recorded and a failure event is emitted. *)
Theorem create_validator_reported_as_failed ctx w m v value raw st hooks s1 e1 :
  (∀ a b, ValFromBech32 a = Some b → AccFromBech32 a = None) →
  qm_Msg m = MsgCreateValidator v value raw → is_Some (ValFromBech32 v) →
  StkMsgServer (ew_stk w) (qm_Msg m) = Ok (st, hooks) →
  foldM (stakingHook ctx) (ew_ep w, ew_ext w) hooks = Ok (s1, e1) →
  HandleQueuedMsg ctx w m = Ok (mkEpWorld s1 st e1, Some ErrInvalidAddress).
Proof using.
  intros Hprefix Hm [b Hv] Hst Hh. unfold HandleQueuedMsg, runUnwrappedMsg. rewrite Hst. cbn [mbind outcome_bind]. rewrite Hh.
  cbn [mbind outcome_bind ew_ep]. rewrite Hm. cbn [recordAfter]. unfold recordStates, parseDelValAddr. by rewrite (Hprefix _ _ Hv).
Qed.

End steps.

(** ** An instance *)

Module EpochExample.

#[local] Existing Instance hex_addresses.
(** Operator addresses: a prefix that no hexadecimal string has. *)
Definition val_prefix : Ascii.ascii := Ascii.ascii_of_nat 118.
#[local] Instance val_addresses : ValBech32 :=
  {| ValString b := String val_prefix (hex_encode b);
     ValFromBech32 s := match s with String c r => if bool_decide (c = val_prefix) then hex_decode r else None | _ => None end |}.
(** A staking module that accepts everything and has one validator. *)
#[local] Instance one_validator : Staking unit :=
  {| LastValidatorPowers _ := [([x01], 5)]; StkMsgServer _ m := Ok ((), match m with MsgCreateValidator _ _ _ => [AfterValidatorCreated [x02]] | _ => [] end);
     StkApplyAndReturnValidatorSetUpdates _ := Ok ((), [], []);
     SendCoinsToDelegatePool _ _ _ := Ok (); SendCoinsFromDelegatePool _ _ _ := Ok () |}.
#[local] Instance no_listeners : EpochingHooks unit :=
  {| AfterEpochBegins _ e _ := e; BeforeEpochEnds _ e _ := e; AfterEpochEnds _ e _ := e; BeforeSlashThreshold _ e _ := e |}.

Definition empty_epoching (interval : Z) : EpochingState := mkEpoching interval ∅ ∅ ∅ ∅ ∅ ∅ ∅ ∅ ∅.
Definition at_height (h : Z) : Ctx := mkCtx h [] (h * 10).
Definition w0 : EpWorld (S := unit) (E := unit) := mkEpWorld (get_ok (empty_epoching 3) (InitEpoch (empty_epoching 3) (at_height 0) [])) () ().
Definition w1 : EpWorld (S := unit) (E := unit) := get_ok w0 (BeginBlocker_epoching (at_height 1) [] w0).
Definition w2 : EpWorld (S := unit) (E := unit) := get_ok w0 (BeginBlocker_epoching (at_height 2) [] w1).

Lemma epochs_tile_witness :
  ∃ cur, GetEpoch (ew_ep w2) = Ok cur ∧ (1 ≤ 2 → covers cur 2) ∧
    ∀ x, 1 ≤ x ≤ 2 → ∃ k ek, es_EpochInfo (ew_ep w2) !! k = Some ek ∧ EpochNumber ek = k ∧ covers ek x ∧
      (∀ k' ek', 1 ≤ k' → es_EpochInfo (ew_ep w2) !! k' = Some ek' → covers ek' x → k' = k) ∧
      ((∀ j ej, 1 ≤ j → es_EpochInfo (ew_ep w2) !! j = Some ej → CurrentEpochInterval ej = es_Interval (ew_ep w2)) →
       GetEpochNumByHeight (ew_ep w2) x = Ok k).
Proof.
  apply (epochs_tile w0 (empty_epoching 3) (at_height 0) w2 2).
  - reflexivity.
  - simpl. lia.
  - reflexivity.
  - apply (rtc_l _ _ (w1, 1)).
    { apply (step_begin w0 0 (at_height 1) [] w1); [reflexivity|]. unfold w1. apply is_ok_get. vm_compute. reflexivity. }
    apply (rtc_l _ _ (w2, 2)); [|reflexivity].
    apply (step_begin w1 1 (at_height 2) [] w2); [reflexivity|]. unfold w2. apply is_ok_get. vm_compute. reflexivity.
  - lia.
Defined.

Definition s1' : EpochingState := get_ok (ew_ep w1) (UpdateParams_epoching "gov" "gov" (ew_ep w1) 2).

Lemma epoch_lookup_after_update_witness :
  ∃ e1, es_EpochInfo s1' !! 1 = Some e1 ∧ covers e1 (CurrentEpochInterval e1) ∧
    ∃ k, GetEpochNumByHeight s1' (CurrentEpochInterval e1) = Ok k ∧ k ≠ 1.
Proof.
  destruct (ep_steps_inv (w0, 0) (w1, 1)) as [_ [n Hn]].
  - eapply rtc_l; [|reflexivity]. apply (step_begin w0 0 (at_height 1) [] w1); [reflexivity|]. unfold w1. apply is_ok_get. vm_compute. reflexivity.
  - apply (genesis_inv (empty_epoching 3) (at_height 0)); [reflexivity|simpl; lia|reflexivity].
  - simpl. lia.
  - exists (mkEpoch 1 3 1 None [] []).
    apply (epoch_lookup_after_update (ew_ep w1) 1 n (mkEpoch 1 3 1 None [] []) "gov" 2).
    + exact Hn.
    + vm_compute. reflexivity.
    + simpl. lia.
    + unfold s1'. apply is_ok_get. vm_compute. reflexivity.
Defined.

Lemma create_validator_reported_as_failed_witness :
  let m := mkQueued [] [] 1 0 (MsgCreateValidator "v02" ("ubbn"%string, 7) []) in
  HandleQueuedMsg (at_height 1) w1 m =
    Ok (mkEpWorld (RecordNewValState (ew_ep w1) (at_height 1) [x02] BS_CREATED) () (), Some ErrInvalidAddress).
Proof.
  apply (create_validator_reported_as_failed (at_height 1) w1 (mkQueued [] [] 1 0 (MsgCreateValidator "v02" ("ubbn"%string, 7) []))
    "v02" ("ubbn"%string, 7) [] () [AfterValidatorCreated [x02]]).
  - intros a b Hv. destruct a as [|c r]; [done|]. cbn in Hv. case_bool_decide as Hc; [|done]. subst c. by destruct r.
  - reflexivity.
  - by exists [x02].
  - reflexivity.
  - reflexivity.
Defined.

End EpochExample.
