(* ===== verification/Costaking.v ===== *)
(** * x/costaking: rewards for staking both coins

    An account that stakes BTC and BABY has a score, the minimum of its active
    satoshis and of its active BABY divided by a ratio. A share of the fees of
    every block is accumulated for costakers; each change of a score ends a
    period, whose rewards per score are added to the cumulative rewards, and a
    costaker is owed its score times the growth of the cumulative rewards since
    its own starting period. The file translates keeper/reward_tracker.go,
    rewards_store.go, score.go, params.go, msg_server.go, validator.go,
    intercept_fee_collector.go, the hooks of the finality, staking, epoching and
    incentive modules, genesis.go and abci.go, and types/rewards.go, score.go,
    params.go and staking_cache.go. *)

From S2P Require Import Prelude Bytes Store BbnTypes BtcStaking FinalityTypes PowerTable FinalityStore Coins RewardTracker RewardLedger Incentive Epochs.

(** ** Stateful computations

    An error does not undo the changes made before it: the hooks of the
    epoching module log errors and go on. *)
Definition St (W A : Type) : Type := W → W * outcome A.
Definition st_ret {W A} (a : A) : St W A := λ w, (w, Ok a).
Definition st_lift {W A} (o : outcome A) : St W A := λ w, (w, o).
Definition st_err {W A} (e : error) : St W A := λ w, (w, Err e).
Definition st_bind {W A B} (m : St W A) (k : A → St W B) : St W B := λ w,
  let '(w', r) := m w in
  match r with Ok a => k a w' | Err e => (w', Err e) | Panic e => (w', Panic e) end.
Definition st_catch {W A} (m : St W A) (k : error → St W A) : St W A := λ w,
  let '(w', r) := m w in match r with Err e => k e w' | _ => (w', r) end.
(** A computation whose changes an error undoes. *)
Definition st_run {W A} (m : St W A) (w : W) : outcome W :=
  let '(w', r) := m w in match r with Ok _ => Ok w' | Err e => Err e | Panic e => Panic e end.
Fixpoint st_forM {W A} (f : A → St W unit) (l : list A) : St W unit :=
  match l with [] => st_ret tt | x :: l => st_bind (f x) (λ _, st_forM f l) end.

Declare Scope keeper_scope.
Delimit Scope keeper_scope with keeper.
Notation "x ⇐ m ; k" := (st_bind m (λ x, k)) (at level 20, m at level 100, k at level 200, only parsing) : keeper_scope.
#[local] Open Scope keeper_scope.

(** ** Data *)

(** Amounts are [math.Int]; sums stay far below 256 bits. *)
Record CostakerRewardsTracker := mkCostaker {
  ct_StartPeriod : Z;          (* StartPeriodCumulativeReward, uint64 *)
  ct_ActiveSatoshis : Z;
  ct_ActiveBaby : Z;
  ct_TotalScore : Z
}.

Record CurrentRewards := mkCurrentRewards {
  cr_Rewards : Coins;          (* scaled by [DecimalRewards] *)
  cr_Period : Z;               (* uint64 *)
  cr_TotalScore : Z
}.

(** [LegacyDec] and [math.Int] parameters may be nil. *)
Record CostakingParams := mkCostakingParams {
  CostakingPortion : option Z;
  ScoreRatioBtcByBaby : option Z;
  ValidatorsPortion : option Z
}.

(** [types.Validator]: address, tokens and shares at the start of the epoch. *)
Record CoValidator := mkCoValidator { cv_Addr : bytes; cv_Tokens : Z; cv_Shares : Z }.

Record StakeInfo := mkStakeInfo { si_Amount : Z; si_Shares : Z }.
Definition zeroStakeInfo : StakeInfo := mkStakeInfo 0 0.

(** The in-memory cache: delegator, then validator; the set of active
    validators is nil until it is fetched. *)
Record StakingCache := mkCache {
  stkInfoByValByDel : gmap string (gmap string StakeInfo);
  activeValSet : option (gset string)
}.
Definition NewStakingCache : StakingCache := mkCache ∅ None.

Record CostakingState := mkCostaking {
  co_params : option CostakingParams;
  currentRewards : option CurrentRewards;
  historicalRewards : gmap Z Coins;
  costakerRewardsTracker : gmap bytes CostakerRewardsTracker;
  validatorSet : option (list CoValidator);
  stkCache : StakingCache
}.

Definition empty_costaking : CostakingState := mkCostaking None None ∅ ∅ None NewStakingCache.

Definition set_co_params (c : CostakingState) x := mkCostaking x (currentRewards c) (historicalRewards c)
  (costakerRewardsTracker c) (validatorSet c) (stkCache c).
Definition set_currentRewards (c : CostakingState) x := mkCostaking (co_params c) x (historicalRewards c)
  (costakerRewardsTracker c) (validatorSet c) (stkCache c).
Definition set_historicalRewards (c : CostakingState) x := mkCostaking (co_params c) (currentRewards c) x
  (costakerRewardsTracker c) (validatorSet c) (stkCache c).
Definition set_costakerRewardsTracker (c : CostakingState) x := mkCostaking (co_params c) (currentRewards c)
  (historicalRewards c) x (validatorSet c) (stkCache c).
Definition set_validatorSet (c : CostakingState) x := mkCostaking (co_params c) (currentRewards c)
  (historicalRewards c) (costakerRewardsTracker c) x (stkCache c).
Definition set_stkCache (c : CostakingState) x := mkCostaking (co_params c) (currentRewards c)
  (historicalRewards c) (costakerRewardsTracker c) (validatorSet c) x.

Definition CostakingModule : string := "costaking".

(** ** The other modules

    [sdk.Coins] beyond [Coins.v]: [SafeSub] returns the difference and whether
    it has a negative amount, and panics beyond 256 bits; [IsValid]. *)
Class SdkSafeCoins := {
  coinsSafeSub : Coins → Coins → option (Coins * bool);
  CoinsIsValid : Coins → bool
}.
Class SdkSafeCoinsLaws (S : SdkSafeCoins) := {
  coinsSafeSub_law a b c neg : coins_ok a → coins_ok b → coinsSafeSub a b = Some (c, neg) →
    (neg = true ↔ ∃ d, AmountOf a d < AmountOf b d) ∧
    (neg = false → coins_pos c ∧ StronglySorted (λ x y, string_less x y = true) (denoms c) ∧
                   ∀ d, AmountOf c d = AmountOf a d - AmountOf b d);
  CoinsIsValid_nil : CoinsIsValid [] = true
}.

Record SdkValidator := mkSdkValidator {
  OperatorAddress : string; ValTokens : Z; DelegatorShares : Z; CommissionRate : Z
}.
Record SdkDelegation := mkSdkDelegation { DelegatorAddress : string; DelShares : Z }.

(** The staking keeper. [LastValidatorPowers] lists the operators
    [IterateLastValidatorPowers] visits; [ValidatorByConsAddr] returns an
    interface, [None] a value that is not a [stktypes.Validator]. Shares and
    tokens of a delegation are [LegacyDec]. *)
Class StakingKeeper (S : Type) := {
  GetDelegation : S → bytes → bytes → outcome SdkDelegation;
  GetValidatorDelegations : S → bytes → outcome (list SdkDelegation);
  LastValidatorPowers : S → outcome (list bytes);
  ValidatorByConsAddr : S → bytes → outcome (option SdkValidator);
  GetSdkValidator : S → bytes → outcome SdkValidator;
  SharesToTokens : SdkValidator → Z → outcome Z
}.

(** The distribution keeper and [sdk.DecCoins]. *)
Class DistributionKeeper (D : Type) := {
  DecCoins : Type;
  NewDecCoinsFromCoins : Coins → DecCoins;
  DecCoinsMulDecTruncate : DecCoins → Z → outcome DecCoins;
  AllocateTokensToValidator : D → SdkValidator → DecCoins → outcome D
}.

Definition DistributionModule : string := "distribution".

(** [TruncateInt] of a [LegacyDec]. *)
Definition TruncateInt (x : Z) : Z := x `quot` DecOne.

(** ** types/rewards.go, types/score.go and types/params.go *)

(** [Quo] panics when the ratio is zero. *)
Definition CalculateScore (scoreRatioBtcByBaby activeBaby activeSats : Z) : outcome Z :=
  if scoreRatioBtcByBaby =? 0 then Panic (Errorf "division by zero")
  else Ok (Z.min activeSats (activeBaby `quot` scoreRatioBtcByBaby)).

(** The tracker with its new score, and the change of the score. *)
Definition UpdateScore (c : CostakerRewardsTracker) (scoreRatioBtcByBaby : Z) : outcome (CostakerRewardsTracker * Z) :=
  score ← CalculateScore scoreRatioBtcByBaby (ct_ActiveBaby c) (ct_ActiveSatoshis c);
  Ok (mkCostaker (ct_StartPeriod c) (ct_ActiveSatoshis c) (ct_ActiveBaby c) score, score - ct_TotalScore c).

Definition Costaker_Validate (c : CostakerRewardsTracker) : outcome unit :=
  if ct_TotalScore c <? 0 then Err ErrInvalidCostakerRwdTracker
  else if ct_ActiveBaby c <? 0 then Err ErrInvalidCostakerRwdTracker
  else if ct_ActiveSatoshis c <? 0 then Err ErrInvalidCostakerRwdTracker
  else Ok tt.

Definition Sanitize (c : CostakerRewardsTracker) : CostakerRewardsTracker :=
  if ct_ActiveBaby c <? 0 then mkCostaker (ct_StartPeriod c) (ct_ActiveSatoshis c) 0 (ct_TotalScore c) else c.

Definition CurrentRewards_Validate {SS : SdkSafeCoins} (r : CurrentRewards) : outcome unit :=
  if negb (CoinsIsValid (cr_Rewards r)) then Err (Errorf "invalid rewards")
  else if CoinsIsAnyNegative (cr_Rewards r) then Err (Errorf "rewards cannot be negative")
  else if cr_TotalScore r <? 0 then Err (Errorf "total score must be non-negative")
  else Ok tt.

Definition HistoricalRewards_Validate {SS : SdkSafeCoins} (r : Coins) : outcome unit :=
  if negb (CoinsIsValid r) then Err (Errorf "invalid cumulative rewards per score")
  else if CoinsIsAnyNegative r then Err (Errorf "cumulative rewards per score cannot be negative")
  else Ok tt.

(** The addition is under a [recover]: its panic is an error. *)
Definition AddRewards {SC : SdkCoins} (validDenom : string → bool) (f : CurrentRewards) (coinsToAdd : Coins)
    : outcome CurrentRewards :=
  coinsToAddWithDecimals ← CoinsSafeMulInt validDenom coinsToAdd DecimalRewards;
  match CoinsAdd (cr_Rewards f) coinsToAddWithDecimals with
  | Ok rwd => Ok (mkCurrentRewards rwd (cr_Period f) (cr_TotalScore f))
  | Err e => Err e
  | Panic _ => Err ErrInvalidAmount
  end.

Definition validatePercentage (percentage : option Z) : outcome unit :=
  match percentage with
  | None => Err ErrInvalidPercentage
  | Some p => if DecOne <=? p then Err ErrPercentageTooHigh
              else if p <? 0 then Err ErrInvalidPercentage else Ok tt
  end.

Definition CostakingParams_Validate (p : CostakingParams) : outcome unit :=
  _ ← validatePercentage (CostakingPortion p);
  _ ← validatePercentage (ValidatorsPortion p);
  _ ← validatePercentage (x ← CostakingPortion p; y ← ValidatorsPortion p; Some (x + y));
  match ScoreRatioBtcByBaby p with
  | None => Err ErrInvalidScoreRatioBtcByBaby
  | Some r => if r <? 1 then Err ErrScoreRatioTooLow else Ok tt
  end.

Definition DefaultCostakingParams : CostakingParams :=
  mkCostakingParams (Some 531073446000000000) (Some 200) (Some 16949153000000000).

(** ** types/staking_cache.go *)

Section cache.
Context {BA : Bech32} {VA : ValBech32}.

Definition SetStakedInfo (sc : StakingCache) (delAddr valAddr : bytes) (amtStaked delShares : Z) : StakingCache :=
  mkCache (set2 (AccString delAddr) (ValString valAddr) (mkStakeInfo amtStaked delShares) (stkInfoByValByDel sc))
    (activeValSet sc).
Definition GetStakedInfo (sc : StakingCache) (delAddr valAddr : bytes) : StakeInfo :=
  default zeroStakeInfo (get2 (AccString delAddr) (ValString valAddr) (stkInfoByValByDel sc)).
Definition Cache_Delete (sc : StakingCache) (delAddr valAddr : bytes) : StakingCache :=
  match stkInfoByValByDel sc !! AccString delAddr with
  | None => sc
  | Some m => mkCache (<[AccString delAddr := delete (ValString valAddr) m]> (stkInfoByValByDel sc)) (activeValSet sc)
  end.
Definition Cache_Clear (sc : StakingCache) : StakingCache := mkCache ∅ None.
End cache.

(** ** The keeper *)

Section keeper.
Context {SC : SdkCoins} {SS : SdkSafeCoins} {BA : Bech32} {VA : ValBech32}.
Context {B D S : Type} {KB : Bank B} {KS : StakingKeeper S} {KD : DistributionKeeper D}.
Variable validDenom : string → bool.

(** The incentive module, the bank, and the stores of this module next to the
    state of the distribution module. *)
Abbreviation CoWorld := (World B (CostakingState * D)).
Implicit Types w : CoWorld.

Definition co w : CostakingState := (w_rest w).1.
Definition distr w : D := (w_rest w).2.
Definition set_co w (c : CostakingState) : CoWorld := mkWorld (w_inc w) (w_params w) (w_bank w) (c, distr w).
Definition set_distr w (x : D) : CoWorld := mkWorld (w_inc w) (w_params w) (w_bank w) (co w, x).
Definition co_get : St CoWorld CostakingState := λ w, (w, Ok (co w)).
Definition co_put (f : CostakingState → CostakingState) : St CoWorld unit := λ w, (set_co w (f (co w)), Ok tt).
Definition cache_put (f : StakingCache → StakingCache) : St CoWorld unit :=
  co_put (λ c, set_stkCache c (f (stkCache c))).

(** *** rewards_store.go and params.go *)

Definition found {A} (x : option A) : outcome A := match x with Some v => Ok v | None => Err ErrCollectionsNotFound end.

Definition GetHistoricalRewards (period : Z) : St CoWorld Coins :=
  c ⇐ co_get; st_lift (found (historicalRewards c !! period)).
Definition setHistoricalRewards (period : Z) (histRwd : Coins) : St CoWorld unit :=
  co_put (λ c, set_historicalRewards c (<[period := histRwd]> (historicalRewards c))).
Definition setCostakerRewardsTracker (addr : bytes) (rwdTracker : CostakerRewardsTracker) : St CoWorld unit :=
  co_put (λ c, set_costakerRewardsTracker c (<[addr := rwdTracker]> (costakerRewardsTracker c))).
Definition SetCurrentRewards (currentRwd : CurrentRewards) : St CoWorld unit :=
  co_put (λ c, set_currentRewards c (Some currentRwd)).
Definition GetCurrentRewards : St CoWorld CurrentRewards := c ⇐ co_get; st_lift (found (currentRewards c)).
Definition GetCostakerRewards (costaker : bytes) : St CoWorld CostakerRewardsTracker :=
  c ⇐ co_get; st_lift (found (costakerRewardsTracker c !! costaker)).

Definition GetParams_co : St CoWorld CostakingParams := c ⇐ co_get; st_lift (must (found (co_params c))).
Definition SetParams_co (p : CostakingParams) : St CoWorld unit :=
  _ ⇐ st_lift (CostakingParams_Validate p); co_put (λ c, set_co_params c (Some p)).
(** A nil [math.Int] is a nil pointer. *)
Definition notNil {A} (x : option A) : outcome A :=
  match x with Some v => Ok v | None => Panic (Errorf "nil pointer dereference") end.

(** *** reward_tracker.go *)

Definition initializeCurrentRewards : St CoWorld CurrentRewards :=
  _ ⇐ setHistoricalRewards 0 [];
  let curRwd := mkCurrentRewards [] 1 0 in
  _ ⇐ SetCurrentRewards curRwd; st_ret curRwd.

Definition GetCurrentRewardsInitialized : St CoWorld CurrentRewards :=
  c ⇐ co_get;
  match currentRewards c with Some r => st_ret r | None => initializeCurrentRewards end.

Definition GetCostakerRewardsOrInitialize (costaker : bytes) : St CoWorld CostakerRewardsTracker :=
  c ⇐ co_get;
  match costakerRewardsTracker c !! costaker with
  | Some tr => st_ret tr
  | None => currentRwd ⇐ GetCurrentRewardsInitialized; st_ret (mkCostaker (cr_Period currentRwd) 0 0 0)
  end.

Definition AddRewardsForCostakers (rwdToAdd : Coins) : St CoWorld unit :=
  currentRwd ⇐ GetCurrentRewardsInitialized;
  currentRwd ⇐ st_lift (AddRewards validDenom currentRwd rwdToAdd);
  SetCurrentRewards currentRwd.

Definition IncrementRewardsPeriod : St CoWorld Z :=
  currentRwd ⇐ GetCurrentRewardsInitialized;
  currentRewardsPerScore ⇐
    (if cr_TotalScore currentRwd =? 0 then st_ret []
     else st_lift (CoinsQuoInt (cr_Rewards currentRwd) (cr_TotalScore currentRwd)));
  historicalRwd ⇐ GetHistoricalRewards (u64 (cr_Period currentRwd - 1));
  newHistoricalRwd ⇐ st_lift (CoinsAdd historicalRwd currentRewardsPerScore);
  _ ⇐ setHistoricalRewards (cr_Period currentRwd) newHistoricalRwd;
  _ ⇐ SetCurrentRewards (mkCurrentRewards [] (u64 (cr_Period currentRwd + 1)) (cr_TotalScore currentRwd));
  st_ret (cr_Period currentRwd).

Definition calculateCoStakerRewardsBetween (tr : CostakerRewardsTracker) (endingPeriod : Z) : St CoWorld Coins :=
  if endingPeriod <? ct_StartPeriod tr then st_err ErrInvalidPeriod
  else
    starting ⇐ GetHistoricalRewards (ct_StartPeriod tr);
    ending ⇐ GetHistoricalRewards endingPeriod;
    diff ⇐ st_lift (orPanic (coinsSafeSub ending starting));
    let '(differenceWithDecimals, isNegative) := (diff : Coins * bool) in
    if isNegative then st_err ErrNegativeRewards
    else
      rewardsWithDecimals ⇐ st_lift (CoinsSafeMulInt validDenom differenceWithDecimals (ct_TotalScore tr));
      st_lift (CoinsQuoInt rewardsWithDecimals DecimalRewards).

Definition CalculateCostakerRewards (costaker : bytes) (endPeriod : Z) : St CoWorld Coins :=
  c ⇐ co_get;
  match costakerRewardsTracker c !! costaker with
  | None => st_ret []
  | Some tr => if ct_TotalScore tr =? 0 then st_ret [] else calculateCoStakerRewardsBetween tr endPeriod
  end.

(** The calls to the incentive module and to the bank. *)
Definition accumulateForCostaker (costaker : bytes) (rewards : Coins) : St CoWorld unit := λ w,
  match AccumulateRewardGaugeForCostaker (w_inc w) costaker rewards with
  | Ok s => (set_inc w s, Ok tt)
  | Err e => (w, Err e)
  | Panic e => (w, Panic e)
  end.
Definition sendModuleToModule (from to : string) (amt : Coins) : St CoWorld unit := λ w,
  match SendCoinsFromModuleToModule (w_bank w) from to amt with
  | Ok b => (set_bank w b, Ok tt)
  | Err e => (w, Err e)
  | Panic e => (w, Panic e)
  end.

Definition CalculateCostakerRewardsAndSendToGauge (costaker : bytes) (endPeriod : Z) : St CoWorld unit :=
  rewards ⇐ CalculateCostakerRewards costaker endPeriod;
  if CoinsIsZero rewards then st_ret tt
  else
    _ ⇐ accumulateForCostaker costaker rewards;
    sendModuleToModule CostakingModule IncentiveModule rewards.

Definition initializeCoStakerRwdTracker (costaker : bytes) : St CoWorld unit :=
  currentRwd ⇐ GetCurrentRewards;
  let previousPeriod := u64 (cr_Period currentRwd - 1) in
  tr ⇐ GetCostakerRewards costaker;
  setCostakerRewardsTracker costaker
    (mkCostaker previousPeriod (ct_ActiveSatoshis tr) (ct_ActiveBaby tr) (ct_TotalScore tr)).

Definition costakerModifiedScoreWithPreInitalization (costaker : bytes) (preInitializeCostaker : bytes → St CoWorld unit)
    : St CoWorld unit :=
  endedPeriod ⇐ IncrementRewardsPeriod;
  _ ⇐ CalculateCostakerRewardsAndSendToGauge costaker endedPeriod;
  _ ⇐ preInitializeCostaker costaker;
  initializeCoStakerRwdTracker costaker.

(** The new tracker and the change of the pool's score, saved between the
    payment and the restart of the tracker. *)
Definition saveModified (rwdTracker : CostakerRewardsTracker) (deltaScoreChange : Z) (costaker : bytes) : St CoWorld unit :=
  _ ⇐ setCostakerRewardsTracker costaker rwdTracker;
  curRwd ⇐ GetCurrentRewards;
  let curRwd := mkCurrentRewards (cr_Rewards curRwd) (cr_Period curRwd) (cr_TotalScore curRwd + deltaScoreChange) in
  _ ⇐ st_lift (CurrentRewards_Validate curRwd);
  SetCurrentRewards curRwd.

Definition costakerModified (costaker : bytes) (modifyCostaker : CostakerRewardsTracker → CostakerRewardsTracker)
    : St CoWorld unit :=
  rwdTracker ⇐ GetCostakerRewardsOrInitialize costaker;
  let rwdTracker := Sanitize (modifyCostaker rwdTracker) in
  _ ⇐ st_lift (Costaker_Validate rwdTracker);
  params ⇐ GetParams_co;
  r ⇐ st_lift (ratio ← notNil (ScoreRatioBtcByBaby params); UpdateScore rwdTracker ratio);
  let '(rwdTracker, deltaScoreChange) := (r : CostakerRewardsTracker * Z) in
  if deltaScoreChange =? 0 then setCostakerRewardsTracker costaker rwdTracker
  else costakerModifiedScoreWithPreInitalization costaker (saveModified rwdTracker deltaScoreChange).

Definition setAmounts (newActiveSatoshi newActiveBaby : Z) (tr : CostakerRewardsTracker) : CostakerRewardsTracker :=
  mkCostaker (ct_StartPeriod tr) newActiveSatoshi newActiveBaby (ct_TotalScore tr).
Definition costakerModifiedActiveAmounts (costaker : bytes) (newActiveSatoshi newActiveBaby : Z) : St CoWorld unit :=
  costakerModified costaker (setAmounts newActiveSatoshi newActiveBaby).

Definition costakerWithdrawRewards (costaker : bytes) : St CoWorld unit :=
  costakerModifiedScoreWithPreInitalization costaker (λ _, st_ret tt).

(** *** score.go and msg_server.go *)

Definition UpdateCurrentRewardsTotalScore (totalScore : Z) : St CoWorld unit :=
  _ ⇐ IncrementRewardsPeriod;
  currentRwd ⇐ GetCurrentRewards;
  SetCurrentRewards (mkCurrentRewards (cr_Rewards currentRwd) (cr_Period currentRwd) totalScore).

(** One costaker of the walk: its new score is added to the total. *)
Definition updateCostakerScore (scoreRatioBtcByBaby endedPeriod : Z) (totalScore : Z) (e : bytes * CostakerRewardsTracker)
    : St CoWorld Z :=
  r ⇐ st_lift (UpdateScore e.2 scoreRatioBtcByBaby);
  let '(rwdTracker, deltaScoreChange) := (r : CostakerRewardsTracker * Z) in
  let totalScore := totalScore + ct_TotalScore rwdTracker in
  if deltaScoreChange =? 0 then _ ⇐ setCostakerRewardsTracker e.1 rwdTracker; st_ret totalScore
  else
    _ ⇐ CalculateCostakerRewardsAndSendToGauge e.1 endedPeriod;
    _ ⇐ setCostakerRewardsTracker e.1 rwdTracker;
    _ ⇐ initializeCoStakerRwdTracker e.1;
    st_ret totalScore.

Fixpoint IterateCostakers {A} (it : A → bytes * CostakerRewardsTracker → St CoWorld A) (a : A)
    (l : list (bytes * CostakerRewardsTracker)) : St CoWorld A :=
  match l with [] => st_ret a | e :: l => a' ⇐ it a e; IterateCostakers it a' l end.

(** The walk visits the trackers in the order of their keys; it writes only the
    key it is at. *)
Definition UpdateAllCostakersScore (scoreRatioBtcByBaby : Z) : St CoWorld unit :=
  endedPeriod ⇐ IncrementRewardsPeriod;
  currentRwd ⇐ GetCurrentRewards;
  c ⇐ co_get;
  totalScore ⇐ IterateCostakers (updateCostakerScore scoreRatioBtcByBaby endedPeriod) 0 (iterB (costakerRewardsTracker c));
  _ ⇐ st_lift (CurrentRewards_Validate (mkCurrentRewards (cr_Rewards currentRwd) (cr_Period currentRwd) totalScore));
  UpdateCurrentRewardsTotalScore totalScore.

Definition UpdateParams_co (authority reqAuthority : string) (p : CostakingParams) : St CoWorld unit :=
  if negb (String.eqb authority reqAuthority) then st_err ErrInvalidSigner
  else
    _ ⇐ st_lift (wrap_as ErrInvalidProposalMsg (CostakingParams_Validate p));
    currentParams ⇐ GetParams_co;
    newRatio ⇐ st_lift (notNil (ScoreRatioBtcByBaby p));
    oldRatio ⇐ st_lift (notNil (ScoreRatioBtcByBaby currentParams));
    _ ⇐ (if newRatio =? oldRatio then st_ret tt
         else st_catch (UpdateAllCostakersScore newRatio) (λ _, st_err ErrInvalidProposalMsg));
    st_catch (SetParams_co p) (λ _, st_err ErrInvalidProposalMsg).

(** *** intercept_fee_collector.go *)

(** [bondedVotes]: consensus address and voting power of [ctx.VoteInfos()]. *)
Definition allocateVote (totalPwr : Z) (valsRwds : DecCoins) (stk : S) (vote : bytes * Z) : St CoWorld unit :=
  validator ⇐ st_lift (ValidatorByConsAddr stk vote.1);
  powerFraction ⇐ st_lift (QuoTruncate (vote.2 * DecOne) (totalPwr * DecOne));
  rwd ⇐ st_lift (DecCoinsMulDecTruncate valsRwds powerFraction);
  match validator with
  | None => st_err (Errorf "ErrInvalidType")
  | Some val =>
    let updatedVal := mkSdkValidator (OperatorAddress val) (ValTokens val) (DelegatorShares val) DecOne in
    λ w, match AllocateTokensToValidator (distr w) updatedVal rwd with
         | Ok x => (set_distr w x, Ok tt)
         | Err e => (w, Err e)
         | Panic e => (w, Panic e)
         end
  end.

Definition allocateValidatorsRewards (stk : S) (bondedVotes : list (bytes * Z)) (rwds : Coins) : St CoWorld unit :=
  if negb (CoinsIsAllPositive rwds) then st_ret tt
  else
    let totalPwr := foldl (λ t vote, i64 (t + vote.2)) 0 bondedVotes in
    if totalPwr =? 0 then st_ret tt
    else
      _ ⇐ sendModuleToModule FeeCollector DistributionModule rwds;
      st_forM (allocateVote totalPwr (NewDecCoinsFromCoins rwds) stk) bondedVotes.

Definition accumulateCostakingRewards (costakingRewards : Coins) : St CoWorld unit :=
  if negb (CoinsIsAllPositive costakingRewards) then st_ret tt
  else
    _ ⇐ sendModuleToModule FeeCollector CostakingModule costakingRewards;
    AddRewardsForCostakers costakingRewards.

Definition HandleCoinsInFeeCollector_co (stk : S) (bondedVotes : list (bytes * Z)) : St CoWorld unit := λ w,
  let feesCollectedInt := ModuleBalances (w_bank w) FeeCollector in
  if negb (CoinsIsAllPositive feesCollectedInt) then (w, Ok tt)
  else
    (params ⇐ GetParams_co;
     valDirectRwds ⇐ st_lift (p ← notNil (ValidatorsPortion params); GetCoinsPortion feesCollectedInt p);
     _ ⇐ allocateValidatorsRewards stk bondedVotes valDirectRwds;
     costakingRewards ⇐ st_lift (p ← notNil (CostakingPortion params); GetCoinsPortion feesCollectedInt p);
     accumulateCostakingRewards costakingRewards) w.

Definition BeginBlocker_costaking (ctx : Ctx) (stk : S) (bondedVotes : list (bytes * Z)) : St CoWorld unit :=
  if HeaderHeight ctx <=? 0 then st_ret tt else HandleCoinsInFeeCollector_co stk bondedVotes.

Definition EndBlocker_costaking : St CoWorld unit := cache_put Cache_Clear.

(** *** hooks_finality.go and hooks_incentive.go *)

Definition addSats (x : Z) (tr : CostakerRewardsTracker) : CostakerRewardsTracker :=
  mkCostaker (ct_StartPeriod tr) (ct_ActiveSatoshis tr + x) (ct_ActiveBaby tr) (ct_TotalScore tr).
Definition addBaby (x : Z) (tr : CostakerRewardsTracker) : CostakerRewardsTracker :=
  mkCostaker (ct_StartPeriod tr) (ct_ActiveSatoshis tr) (ct_ActiveBaby tr + x) (ct_TotalScore tr).

(** The satoshis, a uint64, are converted to an int64. *)
Definition AfterBtcDelegationUnbonded_co (btcDelAddr : bytes) (isFpActiveInPrevSet : bool) (sats : Z) : St CoWorld unit :=
  if negb isFpActiveInPrevSet then st_ret tt else costakerModified btcDelAddr (addSats (- i64 sats)).
Definition AfterBtcDelegationActivated_co (btcDelAddr : bytes) (isFpActiveInPrevSet : bool) (sats : Z) : St CoWorld unit :=
  if negb isFpActiveInPrevSet then st_ret tt else costakerModified btcDelAddr (addSats (i64 sats)).
Definition AfterBbnFpEntersActiveSet_co (ctx : Ctx) (fpAddr : bytes) (w : CoWorld) : outcome CoWorld :=
  IterateBTCDelegationSatsUpdated ctx (w_inc w) fpAddr
    (λ w del activeSats, st_run (costakerModified del (addSats activeSats)) w) w.
Definition AfterBbnFpRemovedFromActiveSet_co (ctx : Ctx) (fpAddr : bytes) (w : CoWorld) : outcome CoWorld :=
  IterateBTCDelegationSatsUpdated ctx (w_inc w) fpAddr
    (λ w del activeSats, st_run (costakerModified del (addSats (- activeSats))) w) w.

(** The hooks the finality module calls. *)
Definition costaking_finality_hooks : FinalityHooks CoWorld := {|
  AfterBtcDelegationUnbonded _ w _ btcDelAddr isFpActiveInPrevSet _ sats :=
    st_run (AfterBtcDelegationUnbonded_co btcDelAddr isFpActiveInPrevSet sats) w;
  AfterBtcDelegationActivated _ w _ btcDelAddr isFpActiveInPrevSet _ sats :=
    st_run (AfterBtcDelegationActivated_co btcDelAddr isFpActiveInPrevSet sats) w;
  AfterBbnFpEntersActiveSet ctx w fpAddr := AfterBbnFpEntersActiveSet_co ctx fpAddr w;
  AfterBbnFpRemovedFromActiveSet ctx w fpAddr := AfterBbnFpRemovedFromActiveSet_co ctx fpAddr w
|}.

Definition BeforeRewardWithdraw_co (sType : StakeholderType) (addr : bytes) : St CoWorld unit :=
  if negb (bool_decide (sType = COSTAKER)) then st_ret tt else costakerWithdrawRewards addr.

(** The hook the incentive module calls. *)
Definition costaking_incentive_hooks : IncentiveHooks B (CostakingState * D) := {|
  BeforeRewardWithdraw w sType addr :=
    match BeforeRewardWithdraw_co sType addr w with
    | (w', Ok _) => Ok (w', None)
    | (w', Err e) => Ok (w', Some e)
    | (_, Panic e) => Panic e
    end
|}.

(** *** hooks_staking.go *)

Definition TokensFromShares (stk : S) (valAddr : bytes) (delShares : Z) : outcome Z :=
  val ← GetSdkValidator stk valAddr; SharesToTokens val delShares.

Definition buildCurrEpochValSetMap (ctx : Ctx) : St CoWorld (gset string) :=
  if HeaderHeight ctx =? 0 then st_ret ∅
  else
    c ⇐ co_get;
    valSet ⇐ st_lift (found (validatorSet c));
    st_ret (list_to_set ((λ val, ValString (cv_Addr val)) <$> valSet)).

Definition GetActiveValidatorSet (fetchFn : St CoWorld (gset string)) : St CoWorld (gset string) :=
  c ⇐ co_get;
  match activeValSet (stkCache c) with
  | Some s => st_ret s
  | None =>
    valSet ⇐ fetchFn;
    _ ⇐ cache_put (λ sc, mkCache (stkInfoByValByDel sc) (Some valSet));
    st_ret valSet
  end.

(** The map returned is the cached one: a validator assumed active at genesis is
    added to the cache. *)
Definition assumeActiveValidatorIfGenesis (ctx : Ctx) (valSet : gset string) (valAddr : bytes) : St CoWorld (gset string) :=
  if HeaderHeight ctx =? 0
  then
    let valSet := {[ValString valAddr]} ∪ valSet in
    _ ⇐ cache_put (λ sc, mkCache (stkInfoByValByDel sc) (Some valSet));
    st_ret valSet
  else st_ret valSet.

Definition isActiveValidator (ctx : Ctx) (valAddr : bytes) : St CoWorld bool :=
  valSet ⇐ GetActiveValidatorSet (buildCurrEpochValSetMap ctx);
  valSet ⇐ assumeActiveValidatorIfGenesis ctx valSet valAddr;
  st_ret (bool_decide (ValString valAddr ∈ valSet)).

(** The deferred deletion runs however the hook returns. *)
Definition deferDelete (delAddr valAddr : bytes) (m : St CoWorld unit) : St CoWorld unit := λ w,
  let '(w', r) := m w in ((cache_put (λ sc, Cache_Delete sc delAddr valAddr) w').1, r).

Definition AfterDelegationModified_co (ctx : Ctx) (stk : S) (delAddr valAddr : bytes) : St CoWorld unit :=
  deferDelete delAddr valAddr (
    active ⇐ isActiveValidator ctx valAddr;
    if negb active then st_ret tt
    else
      del ⇐ st_lift (GetDelegation stk delAddr valAddr);
      delTokens ⇐ st_lift (TokensFromShares stk valAddr (DelShares del));
      c ⇐ co_get;
      let infoBefore := GetStakedInfo (stkCache c) delAddr valAddr in
      let delTokenChange := TruncateInt (delTokens - si_Amount infoBefore) in
      costakerModified delAddr (addBaby delTokenChange)).

Definition BeforeDelegationRemoved_co (ctx : Ctx) (stk : S) (delAddr valAddr : bytes) : St CoWorld unit :=
  deferDelete delAddr valAddr (
    active ⇐ isActiveValidator ctx valAddr;
    if negb active then st_ret tt
    else
      del ⇐ st_lift (GetDelegation stk delAddr valAddr);
      delTokens ⇐ st_lift (TokensFromShares stk valAddr (DelShares del));
      let delTokenChange := TruncateInt delTokens in
      if delTokenChange =? 0 then st_ret tt
      else costakerModified delAddr (addBaby (- delTokenChange))).

Definition BeforeDelegationSharesModified_co (ctx : Ctx) (stk : S) (delAddr valAddr : bytes) : St CoWorld unit :=
  active ⇐ isActiveValidator ctx valAddr;
  if negb active then st_ret tt
  else
    match GetDelegation stk delAddr valAddr with
    | Err _ => st_ret tt
    | Panic e => st_lift (Panic e)
    | Ok del =>
      delTokens ⇐ st_lift (TokensFromShares stk valAddr (DelShares del));
      cache_put (λ sc, SetStakedInfo sc delAddr valAddr delTokens (DelShares del))
    end.

(** [fraction] is a [LegacyDec]. *)
Definition slashDelegator (val : SdkValidator) (fraction : Z) (del : SdkDelegation) : St CoWorld unit :=
  delAddr ⇐ st_lift (mustAddr (DelegatorAddress del));
  tokens ⇐ st_lift (SharesToTokens val (DelShares del));
  let slashAmount := TruncateInt (fraction * TruncateInt tokens) in
  costakerModified delAddr (addBaby (- slashAmount)).

Definition BeforeValidatorSlashed_co (ctx : Ctx) (stk : S) (valAddr : bytes) (fraction : Z) : St CoWorld unit :=
  active ⇐ isActiveValidator ctx valAddr;
  if negb active then st_ret tt
  else
    delegations ⇐ st_lift (GetValidatorDelegations stk valAddr);
    val ⇐ st_lift (GetSdkValidator stk valAddr);
    st_forM (slashDelegator val fraction) delegations.

(** *** validator.go and hooks_epoching.go *)

Definition updateValidatorSet (stk : S) (newValAddrs : list bytes) : St CoWorld unit :=
  vals ⇐ st_lift (foldM (λ acc valAddr,
    val ← GetSdkValidator stk valAddr;
    Ok (acc ++ [mkCoValidator valAddr (ValTokens val) (DelegatorShares val)])) [] newValAddrs);
  co_put (λ c, set_validatorSet c (Some vals)).

(** An error that is logged. *)
Definition st_log (m : St CoWorld unit) : St CoWorld unit := st_catch m (λ _, st_ret tt).

Definition buildNewActiveValSetMap (stk : S) : outcome (gset string * list bytes) :=
  valAddrs ← LastValidatorPowers stk; Ok (list_to_set (ValString <$> valAddrs), valAddrs).

Definition AfterEpochBegins_co (stk : S) : St CoWorld unit :=
  c ⇐ co_get;
  match validatorSet c with
  | Some _ => st_ret tt
  | None => st_log (m ⇐ st_lift (buildNewActiveValSetMap stk);
                    updateValidatorSet stk (m : gset string * list bytes).2)
  end.

Definition BeforeEpochEnds_co (ctx : Ctx) : St CoWorld unit :=
  st_log (_ ⇐ GetActiveValidatorSet (buildCurrEpochValSetMap ctx); st_ret tt).

Definition updateDelegator (val : SdkValidator) (updateFn : Z → CostakerRewardsTracker → CostakerRewardsTracker)
    (del : SdkDelegation) : St CoWorld unit :=
  delAddr ⇐ st_lift (mustAddr (DelegatorAddress del));
  delTokens ⇐ st_lift (SharesToTokens val (DelShares del));
  costakerModified delAddr (updateFn (TruncateInt delTokens)).

Definition updateCoStkTrackerForDelegators (stk : S) (val : SdkValidator)
    (updateFn : Z → CostakerRewardsTracker → CostakerRewardsTracker) : St CoWorld unit :=
  match ValFromBech32 (OperatorAddress val) with
  | None => st_err (Errorf "ValAddressFromBech32")
  | Some valAddr =>
    delegations ⇐ st_lift (GetValidatorDelegations stk valAddr);
    st_forM (updateDelegator val updateFn) delegations
  end.

Definition mustValAddr (a : string) : outcome bytes :=
  match ValFromBech32 a with Some v => Ok v | None => Panic (Errorf "invalid bech32 address") end.

Definition addBabyForDelegators (stk : S) (valAddrStr : string) : St CoWorld unit :=
  valAddr ⇐ st_lift (mustValAddr valAddrStr);
  val ⇐ st_lift (wrapf "failed to get validator" (GetSdkValidator stk valAddr));
  updateCoStkTrackerForDelegators stk val addBaby.
Definition removeBabyForDelegators (stk : S) (valAddr : bytes) : St CoWorld unit :=
  val ⇐ st_lift (wrapf "failed to get validator" (GetSdkValidator stk valAddr));
  updateCoStkTrackerForDelegators stk val (λ x, addBaby (- x)).

(** Additions stop at the first error, removals go on. *)
Definition AfterEpochEnds_co (ctx : Ctx) (stk : S) : St CoWorld unit :=
  st_log (
    prevValMap ⇐ GetActiveValidatorSet (buildCurrEpochValSetMap ctx);
    let prevValAddrs := sort_stable string_less (elements prevValMap) in
    new ⇐ st_lift (buildNewActiveValSetMap stk);
    let '(newValMap, newValAddrs) := (new : gset string * list bytes) in
    _ ⇐ st_forM (λ valAddr,
          if bool_decide (ValString valAddr ∈ prevValMap) then st_ret tt
          else addBabyForDelegators stk (ValString valAddr)) newValAddrs;
    _ ⇐ st_forM (λ prevValAddr,
          if bool_decide (prevValAddr ∈ newValMap) then st_ret tt
          else valAddr ⇐ st_lift (mustValAddr prevValAddr); st_log (removeBabyForDelegators stk valAddr)) prevValAddrs;
    updateValidatorSet stk newValAddrs).

(** *** genesis.go *)

(** Rewards and trackers are pointers; the validators of an absent set are an
    empty list. *)
Record CostakingGenesis := mkCostakingGenesis {
  cg_Params : CostakingParams;
  cg_CurrentRewards : option CurrentRewards;
  cg_HistoricalRewards : list (Z * option Coins);
  cg_CostakersRewardsTracker : list (string * option CostakerRewardsTracker);
  cg_ValidatorSet : list CoValidator
}.

Definition InitGenesis_costaking (gs : CostakingGenesis) : St CoWorld unit :=
  _ ⇐ st_forM (λ e : string * option CostakerRewardsTracker,
        costakerAddr ⇐ st_lift (match AccFromBech32 e.1 with Some a => Ok a | None => Err (Errorf "AccAddressFromBech32") end);
        tr ⇐ st_lift (notNil e.2);
        setCostakerRewardsTracker costakerAddr tr) (cg_CostakersRewardsTracker gs);
  _ ⇐ st_forM (λ e : Z * option Coins,
        rwd ⇐ st_lift (notNil e.2); setHistoricalRewards e.1 rwd) (cg_HistoricalRewards gs);
  _ ⇐ match cg_CurrentRewards gs with Some r => SetCurrentRewards r | None => st_ret tt end;
  _ ⇐ match cg_ValidatorSet gs with [] => st_ret tt | vs => co_put (λ c, set_validatorSet c (Some vs)) end;
  SetParams_co (cg_Params gs).

Definition validateAddrStr (addr : string) : outcome unit :=
  if String.eqb addr "" then Err (Errorf "empty address")
  else match AccFromBech32 addr with None => Err (Errorf "invalid address") | Some _ => Ok tt end.

Definition CostakingGenesis_Validate (gs : CostakingGenesis) : outcome unit :=
  _ ← wrapf "invalid current rewards" (match cg_CurrentRewards gs with Some r => CurrentRewards_Validate r | None => Ok tt end);
  _ ← wrapf "invalid historical rewards" (ValidateEntries fst (λ e : Z * option Coins,
        match e.2 with None => Err (Errorf "historical rewards is nil") | Some r => HistoricalRewards_Validate r end)
        (cg_HistoricalRewards gs));
  _ ← wrapf "invalid costakers rewards tracker" (ValidateEntries fst (λ e : string * option CostakerRewardsTracker,
        _ ← wrapf "invalid costaker address" (validateAddrStr e.1);
        match e.2 with None => Err (Errorf "tracker is nil") | Some tr => Costaker_Validate tr end)
        (cg_CostakersRewardsTracker gs));
  CostakingParams_Validate (cg_Params gs).

Definition getHistoricalRewardsEntries (c : CostakingState) : outcome (list (Z * option Coins)) :=
  foldM (λ acc (e : Z * Coins), _ ← HistoricalRewards_Validate e.2; Ok (acc ++ [(e.1, Some e.2)])) []
    (iterZ (historicalRewards c)).
Definition getCostakerRewardsTrackerEntries (c : CostakingState) : outcome (list (string * option CostakerRewardsTracker)) :=
  foldM (λ acc (e : bytes * CostakerRewardsTracker),
    _ ← wrapf "invalid costaker address" (validateAddrStr (AccString e.1));
    _ ← Costaker_Validate e.2;
    Ok (acc ++ [(AccString e.1, Some e.2)])) [] (iterB (costakerRewardsTracker c)).

Definition ExportGenesis_costaking (c : CostakingState) : outcome CostakingGenesis :=
  historicalRewards ← getHistoricalRewardsEntries c;
  costakersRewardsTracker ← getCostakerRewardsTrackerEntries c;
  params ← must (found (co_params c));
  Ok (mkCostakingGenesis params (currentRewards c) historicalRewards costakersRewardsTracker (default [] (validatorSet c))).

End keeper.
