(* ===== verification/CostakingLedger.v ===== *)
(** * x/costaking: the module account covers what the module owes

    An invariant of the whole module, kept by every sequence of its operations
    also where an error is only logged: the score of the pool is the sum of the
    scores of the costakers, each the minimum of satoshis and BABY by the ratio
    in force, and the module account holds what is accumulated for the pool and
    owed to the costakers. Together with the invariant of the incentive module
    it makes both modules solvent, since the withdrawal hook and the payments
    move coins from one to the other. *)

From S2P Require Import Prelude Bytes Store BbnTypes BtcStaking FinalityTypes PowerTable FinalityStore Coins RewardTracker RewardLedger Incentive IncentiveSafety Epochs Costaking.
#[local] Open Scope keeper_scope.

(** ** Reasoning about stateful computations

    What holds after a computation: [Q] of the result, [E] after an error. *)
Definition runs {W A} (m : St W A) (w : W) (Q : W → A → Prop) (E : W → Prop) : Prop :=
  let '(w', r) := m w in match r with Ok a => Q w' a | Err _ => E w' | Panic _ => True end.

Lemma runs_bind {W A C} (m : St W A) (k : A → St W C) w Q E :
  runs m w (λ w' a, runs (k a) w' Q E) E → runs (st_bind m k) w Q E.
Proof. unfold runs, st_bind. by destruct (m w) as [w' [a|e|e]]. Qed.

Lemma runs_lift {W A} (o : outcome A) (w : W) (Q : W → A → Prop) (E : W → Prop) :
  (∀ a, o = Ok a → Q w a) → (∀ e, o = Err e → E w) → runs (st_lift o) w Q E.
Proof. unfold runs, st_lift. destruct o; intros HQ HE; [by apply HQ|by eapply HE|done]. Qed.

Lemma runs_mono {W A} (m : St W A) w (Q Q' : W → A → Prop) (E E' : W → Prop) :
  runs m w Q E → (∀ w' a, Q w' a → Q' w' a) → (∀ w', E w' → E' w') → runs m w Q' E'.
Proof. unfold runs. destruct (m w) as [w' [a|e|e]]; auto. Qed.

Lemma runs_catch {W A} (m : St W A) k w (Q : W → A → Prop) (E : W → Prop) :
  runs m w Q (λ w', ∀ e, runs (k e) w' Q E) → runs (st_catch m k) w Q E.
Proof. unfold runs, st_catch. destruct (m w) as [w' [a|e|e]]; intros H; [done|apply H|done]. Qed.

Lemma runs_Ok {W A} (m : St W A) w w' a (Q : W → A → Prop) (E : W → Prop) : runs m w Q E → m w = (w', Ok a) → Q w' a.
Proof. unfold runs. intros H Hm. by rewrite Hm in H. Qed.

Lemma st_run_Ok {W A} (m : St W A) w w' (Q : W → Prop) (E : W → Prop) :
  runs m w (λ w' _, Q w') E → st_run m w = Ok w' → Q w'.
Proof. unfold runs, st_run. destruct (m w) as [w1 [a|e|e]]; [|done|done]. by intros HQ [= <-]. Qed.

(** A loop whose body adds at most [k] to the bound of an invariant. *)
Lemma runs_forM {W A} (f : A → St W unit) (P : Z → W → Prop) (E : W → Prop) k l n N w : 0 ≤ k →
  (∀ x n w, n + k ≤ N → P n w → runs (f x) w (λ w' _, P (n + k) w') E) →
  P n w → n + k * Z.of_nat (length l) ≤ N → runs (st_forM f l) w (λ w' _, P (n + k * Z.of_nat (length l)) w') E.
Proof.
  intros Hk Hf. revert n w. induction l as [|x l IH]; intros n w HP HN.
  - simpl. unfold runs. simpl. by rewrite Z.mul_0_r, Z.add_0_r.
  - simpl st_forM. cbn [length] in *. rewrite Nat2Z.inj_succ in *. apply runs_bind.
    eapply runs_mono; [apply (Hf x n w); [nia|done]| |done]. intros w' u HP'.
    eapply runs_mono; [apply (IH (n + k)); [done|nia]| |done]. intros w2 u2 H2.
    by replace (n + k * Z.succ (Z.of_nat (length l))) with (n + k + k * Z.of_nat (length l)) by lia.
Qed.

(** ** Coins *)

Lemma CoinsSafeMulInt_spec vd c x r : CoinsSafeMulInt vd c x = Ok r →
  x ≠ 0 ∧ r = prod_map id (λ z, z * x) <$> c ∧ Forall (λ y, vd y.1 = true) r.
Proof.
  unfold CoinsSafeMulInt. destruct (Z.eqb_spec x 0) as [|Hx]; [done|]. intros H. split; [done|].
  assert (∀ acc, foldM (λ res coin,
    match SafeMul coin.2 x with
    | None => Err ErrInvalidAmount
    | Some amt => newCoin ← wrapf "unable to create new coin" (SafeNewCoin vd coin.1 amt); Ok (res ++ [newCoin])
    end) acc c = Ok r → r = acc ++ (prod_map id (λ z, z * x) <$> c) ∧ Forall (λ y : string * Z, vd y.1 = true) (prod_map id (λ z, z * x) <$> c)) as Hgen.
  { clear H. induction c as [|[k z] c IH]; intros acc.
    - simpl. intros [= <-]. split; [by rewrite app_nil_r|constructor].
    - cbn [foldM fst snd]. intros H. apply bind_Ok in H as (acc1 & H1 & H). unfold SafeMul in H1.
      destruct (Z.abs (z * x) <? 2 ^ 256); [|done]. apply bind_Ok in H1 as (nc & Hnc & H1). injection H1 as <-.
      apply wrapf_Ok in Hnc. unfold SafeNewCoin in Hnc. destruct (vd k) eqn:Hk; [|done]. destruct (z * x <? 0); [done|].
      injection Hnc as <-. apply IH in H as [-> Hall]. rewrite <- app_assoc. split; [done|]. by constructor. }
  destruct (Hgen [] H) as [-> Hall]. by split.
Qed.

(** Coins the bank accepts: sorted, of valid denominations, positive. *)
Definition valid_coins (vd : string → bool) (c : Coins) : Prop :=
  StronglySorted (λ x y, string_less x y = true) (denoms c) ∧ Forall (λ y, vd y.1 = true ∧ 0 < y.2) c.

(** A transfer of valid coins the sender has is not refused. *)
Class BankPays (B : Type) (K : Bank B) (vd : string → bool) := {
  SendToModule_pays b from to c e : valid_coins vd c → (∀ d, AmountOf c d ≤ balance b from d) →
    SendCoinsFromModuleToModule b from to c ≠ Err e
}.

(** ** The ledger of the pool *)

Definition cum (c : CostakingState) (p : Z) (d : string) : Z := AmountOf (default [] (historicalRewards c !! p)) d.
Definition due (c : CostakingState) (r : CurrentRewards) (d : string) (tr : CostakerRewardsTracker) : Z :=
  ct_TotalScore tr * (cum c (cr_Period r - 1) d - cum c (ct_StartPeriod tr) d).
(** What the module owes, scaled by [DecimalRewards]. *)
Definition owed (c : CostakingState) (r : CurrentRewards) (d : string) : Z :=
  AmountOf (cr_Rewards r) d + sum_map (λ _ tr, due c r d tr) (costakerRewardsTracker c).
Definition score_sum (c : CostakingState) : Z := sum_map (λ _ tr, ct_TotalScore tr) (costakerRewardsTracker c).

Definition trk_ok (r : CurrentRewards) (tr : CostakerRewardsTracker) : Prop :=
  0 ≤ ct_ActiveSatoshis tr ∧ 0 ≤ ct_ActiveBaby tr ∧ 0 ≤ ct_TotalScore tr ∧
  (ct_TotalScore tr ≠ 0 → 0 ≤ ct_StartPeriod tr < cr_Period r).

Record base_ok (n : Z) (c : CostakingState) (r : CurrentRewards) : Prop := {
  bo_cur : currentRewards c = Some r;
  bo_period : 1 ≤ cr_Period r ≤ n;
  bo_rwd : coins_ok (cr_Rewards r);
  bo_total : 0 ≤ cr_TotalScore r;
  bo_hist p : 0 ≤ p < cr_Period r → ∃ h, historicalRewards c !! p = Some h ∧ coins_ok h;
  bo_mono p q d : 0 ≤ p ≤ q → q < cr_Period r → cum c p d ≤ cum c q d;
  bo_trk a tr : costakerRewardsTracker c !! a = Some tr → trk_ok r tr
}.

Lemma base_ok_mono n m c r : n ≤ m → base_ok n c r → base_ok m c r.
Proof. intros Hle []. split; try done. lia. Qed.

(** The score the parameters give. *)
Definition scored (ratio : Z) (tr : CostakerRewardsTracker) : Prop :=
  ct_TotalScore tr = Z.min (ct_ActiveSatoshis tr) (ct_ActiveBaby tr `quot` ratio).
Definition params_in (c : CostakingState) (ratio : Z) : Prop :=
  ∃ p, co_params c = Some p ∧ ScoreRatioBtcByBaby p = Some ratio.

Record pool_good (n : Z) (c : CostakingState) (r : CurrentRewards) : Prop := {
  pg_base : base_ok n c r;
  pg_total : cr_TotalScore r = score_sum c;
  pg_scored ratio a tr : params_in c ratio → costakerRewardsTracker c !! a = Some tr → scored ratio tr
}.

(** The state before the first reward has no costaker. *)
Definition state_ok (n : Z) (c : CostakingState) : Prop :=
  (∀ p, co_params c = Some p → CostakingParams_Validate p = Ok tt) ∧
  match currentRewards c with Some r => pool_good n c r | None => costakerRewardsTracker c = ∅ end.

Definition state_owed (c : CostakingState) (d : string) : Z :=
  match currentRewards c with Some r => owed c r d | None => 0 end.

Lemma pool_good_mono n m c r : n ≤ m → pool_good n c r → pool_good m c r.
Proof. intros Hle []. split; try done. by eapply base_ok_mono. Qed.
Lemma state_ok_mono n m c : n ≤ m → state_ok n c → state_ok m c.
Proof. intros Hle [Hp H]. split; [done|]. destruct (currentRewards c); [by eapply pool_good_mono|done]. Qed.

Lemma params_ratio p ratio : CostakingParams_Validate p = Ok tt → ScoreRatioBtcByBaby p = Some ratio → 1 ≤ ratio.
Proof.
  unfold CostakingParams_Validate. intros H E. do 3 (apply bind_Ok in H as (? & _ & H)). rewrite E in H.
  destruct (Z.ltb_spec ratio 1); [done|lia].
Qed.

Lemma params_portion p x : CostakingParams_Validate p = Ok tt →
  CostakingPortion p = Some x ∨ ValidatorsPortion p = Some x → 0 ≤ x.
Proof.
  unfold CostakingParams_Validate. intros H. apply bind_Ok in H as (? & H1 & H). apply bind_Ok in H as (? & H2 & _).
  intros [E|E]; [rewrite E in H1; revert H1|rewrite E in H2; revert H2]; unfold validatePercentage;
    (destruct (DecOne <=? x); [done|]); (destruct (Z.ltb_spec x 0); [done|]); lia.
Qed.

Lemma due_nonneg n c r d a tr : base_ok n c r → costakerRewardsTracker c !! a = Some tr → 0 ≤ due c r d tr.
Proof.
  intros Hb Ha. destruct (bo_trk _ _ _ Hb a tr Ha) as (_ & _ & Hs & Hst). unfold due.
  destruct (decide (ct_TotalScore tr = 0)) as [->|Hne]; [lia|]. specialize (Hst Hne). pose proof (bo_period _ _ _ Hb).
  pose proof (bo_mono _ _ _ Hb (ct_StartPeriod tr) (cr_Period r - 1) d). nia.
Qed.

Definition dueOf_co (c : CostakingState) (r : CurrentRewards) (d : string) (a : bytes) : Z :=
  part (λ _ tr, due c r d tr) (costakerRewardsTracker c) a.

Lemma dueOf_bounds n c r d a : base_ok n c r → 0 ≤ dueOf_co c r d a ≤ owed c r d.
Proof.
  intros Hb. pose proof (sum_map_part_le (λ _ tr, due c r d tr) (costakerRewardsTracker c) a
    (λ a tr, due_nonneg n c r d a tr Hb)) as [H1 H2].
  split; [done|]. unfold owed. pose proof (AmountOf_nonneg _ d (bo_rwd _ _ _ Hb)). unfold dueOf_co. lia.
Qed.

Lemma score_sum_nonneg n c r : base_ok n c r → 0 ≤ score_sum c.
Proof. intros Hb. apply sum_map_nonneg. intros a tr Ha. by apply (bo_trk _ _ _ Hb a tr). Qed.

(** *** The end of a period *)

Definition per_score (r : CurrentRewards) (d : string) : Z :=
  if cr_TotalScore r =? 0 then 0 else AmountOf (cr_Rewards r) d `quot` cr_TotalScore r.
Definition ended_rewards (r : CurrentRewards) : CurrentRewards := mkCurrentRewards [] (cr_Period r + 1) (cr_TotalScore r).
Definition ended_state (c : CostakingState) (r : CurrentRewards) (h : Coins) : CostakingState :=
  set_currentRewards (set_historicalRewards c (<[cr_Period r := h]> (historicalRewards c))) (Some (ended_rewards r)).

Section period_end.
Context (n : Z) (c : CostakingState) (r : CurrentRewards) (h : Coins).
Hypothesis Hb : base_ok n c r.
Hypothesis Hh : coins_ok h.
Hypothesis Hamt : ∀ d, AmountOf h d = cum c (cr_Period r - 1) d + per_score r d.

Lemma period_q_bounds d : 0 ≤ per_score r d ∧ cr_TotalScore r * per_score r d ≤ AmountOf (cr_Rewards r) d.
Proof using Hb Hamt.
  unfold per_score. pose proof (AmountOf_nonneg _ d (bo_rwd _ _ _ Hb)). pose proof (bo_total _ _ _ Hb).
  destruct (Z.eqb_spec (cr_TotalScore r) 0); [lia|]. split; [apply Z.quot_pos; lia|]. apply Z.mul_quot_le; lia.
Qed.

Lemma period_cum p d : cum (ended_state c r h) p d = if decide (p = cr_Period r) then cum c (cr_Period r - 1) d + per_score r d else cum c p d.
Proof using Hamt.
  unfold cum at 1. simpl. case_decide as E; [subst; by rewrite lookup_insert_eq|by rewrite lookup_insert_ne].
Qed.

Lemma period_base : base_ok (n + 1) (ended_state c r h) (ended_rewards r).
Proof using Hb Hh Hamt.
  pose proof Hb as [_ Hp Hr Ht Hhist Hmono Htrk]. split; simpl; try done.
  - lia.
  - apply coins_ok_nil.
  - intros p Hp'. destruct (decide (p = cr_Period r)) as [->|Hne]; [rewrite lookup_insert_eq; by eexists|].
    rewrite lookup_insert_ne by done. apply Hhist. lia.
  - intros p p' d Hle Hlt. rewrite !period_cum. destruct (period_q_bounds d) as [Hq _].
    repeat case_decide; subst; try lia.
    + etrans; [apply (Hmono p (cr_Period r - 1) d)|]; lia.
    + apply Hmono; lia.
  - intros a tr Ha. destruct (Htrk a tr Ha) as (? & ? & ? & Hst). split_and!; [done..|]. simpl.
    intros Hne. specialize (Hst Hne). lia.
Qed.

Lemma period_due d a tr : costakerRewardsTracker c !! a = Some tr → due (ended_state c r h) (ended_rewards r) d tr = due c r d tr + ct_TotalScore tr * per_score r d.
Proof using Hb Hamt.
  intros Ha. destruct (bo_trk _ _ _ Hb a tr Ha) as (_ & _ & _ & Hst). unfold due.
  destruct (decide (ct_TotalScore tr = 0)) as [->|Hne]; [lia|]. specialize (Hst Hne).
  rewrite !period_cum. simpl. repeat case_decide; try lia.
Qed.

(** Nothing more is owed, provided the pool's score is the sum of the scores or
    there is nothing to share. *)
Lemma period_owed d : cr_TotalScore r = score_sum c ∨ AmountOf (cr_Rewards r) d = 0 → owed (ended_state c r h) (ended_rewards r) d ≤ owed c r d.
Proof using Hb Hamt.
  intros Hsum. unfold owed. simpl. rewrite AmountOf_nil.
  rewrite (sum_map_ext _ (λ _ tr, due c r d tr + ct_TotalScore tr * per_score r d) (costakerRewardsTracker c));
    [|intros a tr Ha; by apply (period_due d a)].
  rewrite sum_map_add, (sum_map_scale (λ _ tr, ct_TotalScore tr)). fold (score_sum c). destruct (period_q_bounds d) as [_ Hq].
  destruct Hsum as [Hsum|Hz]; [rewrite <- Hsum; lia|].
  assert (per_score r d = 0) as ->; [|lia]. unfold per_score. rewrite Hz. destruct (Z.eqb_spec (cr_TotalScore r) 0); [done|]. by apply Z.quot_0_l.
Qed.

End period_end.

(** *** A costaker that restarts *)

Definition with_total (r : CurrentRewards) (total : Z) : CurrentRewards := mkCurrentRewards (cr_Rewards r) (cr_Period r) total.
Definition saved_state (c : CostakingState) (r : CurrentRewards) (a : bytes) (tr : CostakerRewardsTracker) (total : Z)
    : CostakingState :=
  set_currentRewards (set_costakerRewardsTracker c (<[a := tr]> (costakerRewardsTracker c))) (Some (with_total r total)).

Section restart.
Context (n : Z) (c : CostakingState) (r : CurrentRewards) (a : bytes) (tr : CostakerRewardsTracker) (total : Z).
Hypothesis Hb : base_ok n c r.
Hypothesis Htotal : 0 ≤ total.
Hypothesis Htr : trk_ok r tr.

Lemma restart_base : base_ok n (saved_state c r a tr total) (with_total r total).
Proof using Hb Htotal Htr.
  pose proof Hb as [_ Hp Hr Ht Hhist Hmono Htrk]. split; simpl; try done.
  intros a' tr'. destruct (decide (a = a')) as [<-|Hne]; [rewrite lookup_insert_eq|rewrite lookup_insert_ne by done; apply Htrk].
  by intros [= <-].
Qed.

Lemma restart_owed d : owed (saved_state c r a tr total) (with_total r total) d = owed c r d - dueOf_co c r d a + due c r d tr.
Proof using. unfold owed, dueOf_co. simpl. rewrite sum_map_insert. unfold due, cum. simpl. lia. Qed.

Lemma restart_sum : score_sum (saved_state c r a tr total) = score_sum c - part (λ _ tr, ct_TotalScore tr) (costakerRewardsTracker c) a + ct_TotalScore tr.
Proof using. unfold score_sum. simpl. by rewrite sum_map_insert. Qed.

Lemma restart_due_zero d : ct_StartPeriod tr = cr_Period r - 1 → due c r d tr = 0.
Proof using. unfold due. intros ->. lia. Qed.

End restart.

(** ** The operations *)

Section keeper.
Context {SC : SdkCoins} {SL : SdkCoinsLaws SC} {SS : SdkSafeCoins} {SSL : SdkSafeCoinsLaws SS}.
Context {BA : Bech32} {VA : ValBech32} {B D S : Type}.
Context {KB : Bank B} {KL : BankLaws B KB} {KS : StakingKeeper S} {KD : DistributionKeeper D}.
Context (vd : string → bool) {KP : BankPays B KB vd}.
Abbreviation CoWorld := (World B (CostakingState * D)).
Implicit Types w : CoWorld.

Lemma runs_eq {A} (m : St CoWorld A) w w' a (Q : CoWorld → A → Prop) (E : CoWorld → Prop) :
  m w = (w', Ok a) → Q w' a → runs m w Q E.
Proof using. unfold runs. by intros ->. Qed.

Lemma runs_state {A} (m : St CoWorld A) w w1 (Q : CoWorld → A → Prop) (E : CoWorld → Prop) :
  m w = m w1 → runs m w1 Q E → runs m w Q E.
Proof using. unfold runs. by intros ->. Qed.
Lemma st_bind_eq {A C} (m : St CoWorld A) (k : A → St CoWorld C) w w1 a : m w = (w1, Ok a) → st_bind m k w = k a w1.
Proof using. unfold st_bind. by intros ->. Qed.

(** The invariant of both modules. *)
Definition account w (d : string) : Z := balance (w_bank w) CostakingModule d * DecimalRewards.
Definition both_ok (m n : Z) w : Prop :=
  solvent m w ∧ state_ok n (co w) ∧ ∀ d, state_owed (co w) d ≤ account w d.

(** *** Reading and writing *)

Lemma initialized_some w r : currentRewards (co w) = Some r → GetCurrentRewardsInitialized w = (w, Ok r).
Proof using. intros H. unfold GetCurrentRewardsInitialized, st_bind, co_get. by rewrite H. Qed.
Lemma current_some w r : currentRewards (co w) = Some r → GetCurrentRewards w = (w, Ok r).
Proof using. intros H. unfold GetCurrentRewards, st_bind, co_get, st_lift. by rewrite H. Qed.
Lemma historical_some w p h : historicalRewards (co w) !! p = Some h → GetHistoricalRewards p w = (w, Ok h).
Proof using. intros H. unfold GetHistoricalRewards, st_bind, co_get, st_lift. by rewrite H. Qed.

(** Only the rewards, the trackers and the parameters matter. *)
Lemma state_ok_ext n c c' : co_params c' = co_params c → currentRewards c' = currentRewards c →
  historicalRewards c' = historicalRewards c → costakerRewardsTracker c' = costakerRewardsTracker c →
  state_ok n c → state_ok n c' ∧ ∀ d, state_owed c' d = state_owed c d.
Proof using.
  destruct c as [p r h t v k], c' as [p' r' h' t' v' k']. simpl. intros -> -> -> ->. intros [Hp H]. split; [|done].
  split; [done|]. simpl in *. destruct r; [|done]. destruct H as [[] ? ?]. split; [by split|done|done].
Qed.

Lemma both_ok_rest m n w c : co_params c = co_params (co w) → currentRewards c = currentRewards (co w) →
  historicalRewards c = historicalRewards (co w) → costakerRewardsTracker c = costakerRewardsTracker (co w) →
  both_ok m n w → both_ok m n (set_co w c).
Proof using.
  intros H1 H2 H3 H4 (Hs & Hst & Ho). destruct (state_ok_ext n (co w) c) as [Hok Howed]; [done..|].
  split_and!; [done|done|]. intros d. simpl. rewrite Howed. apply Ho.
Qed.

(** *** The first reward period *)

Lemma base_ok_initial n c : 1 ≤ n → costakerRewardsTracker c = ∅ →
  base_ok n (set_currentRewards (set_historicalRewards c (<[0 := []]> (historicalRewards c))) (Some (mkCurrentRewards [] 1 0)))
    (mkCurrentRewards [] 1 0).
Proof using.
  intros Hn Ht. split; simpl; try done.
  - apply coins_ok_nil.
  - intros p Hp. assert (p = 0) as -> by lia. rewrite lookup_insert_eq. eexists. split; [done|apply coins_ok_nil].
  - intros p q d Hle Hlt. assert (p = 0 ∧ q = 0) as [-> ->] by lia. done.
  - rewrite Ht. intros a tr. by rewrite lookup_empty.
Qed.

Lemma initialized_spec m n w : both_ok m n w → 1 ≤ n →
  ∃ w' r, GetCurrentRewardsInitialized w = (w', Ok r) ∧ both_ok m n w' ∧ currentRewards (co w') = Some r ∧
    costakerRewardsTracker (co w') = costakerRewardsTracker (co w) ∧ co_params (co w') = co_params (co w).
Proof using.
  intros Hok Hn. destruct (currentRewards (co w)) as [r|] eqn:Hr.
  - exists w, r. by rewrite (initialized_some w r Hr).
  - destruct Hok as (Hs & [Hp Ht] & Ho). rewrite Hr in Ht.
    set (c1 := set_currentRewards (set_historicalRewards (co w) (<[0 := []]> (historicalRewards (co w)))) (Some (mkCurrentRewards [] 1 0))).
    exists (set_co w c1), (mkCurrentRewards [] 1 0). split_and!; [|split_and!; [done|split; [done|]|]|done..].
    + unfold GetCurrentRewardsInitialized, st_bind, co_get. by rewrite Hr.
    + simpl. split; [by apply base_ok_initial|unfold score_sum; simpl; by rewrite Ht, sum_map_empty|].
      intros ratio a tr _. simpl. rewrite Ht. by rewrite lookup_empty.
    + intros d. specialize (Ho d). unfold state_owed in Ho. rewrite Hr in Ho. unfold state_owed. simpl. unfold owed. simpl.
      by rewrite Ht, sum_map_empty, AmountOf_nil.
Qed.

(** *** The end of a period *)

Lemma increment_some n w r : base_ok n (co w) r → n + 1 < 2 ^ 64 →
  runs IncrementRewardsPeriod w (λ w' e, e = cr_Period r ∧ ∃ h, w' = set_co w (ended_state (co w) r h) ∧ coins_ok h ∧
    ∀ d, AmountOf h d = cum (co w) (cr_Period r - 1) d + per_score r d) (λ _, False).
Proof using SL.
  intros Hb Hn. pose proof (bo_period _ _ _ Hb) as Hp. unfold IncrementRewardsPeriod. apply runs_bind.
  eapply runs_eq; [by apply initialized_some, Hb|]. apply runs_bind.
  assert (runs (if cr_TotalScore r =? 0 then st_ret [] else st_lift (CoinsQuoInt (cr_Rewards r) (cr_TotalScore r))) w
    (λ w' q, w' = w ∧ coins_ok q ∧ ∀ d, AmountOf q d = per_score r d) (λ _, False)) as Hq.
  { unfold per_score. pose proof (bo_rwd _ _ _ Hb) as Hr. destruct (Z.eqb_spec (cr_TotalScore r) 0) as [|Hne].
    - unfold runs. simpl. split_and!; [done|apply coins_ok_nil|intros; by rewrite AmountOf_nil].
    - apply runs_lift; [|by unfold CoinsQuoInt, orPanic; destruct (coinsQuoInt _ _)]. intros q Hq.
      pose proof (bo_total _ _ _ Hb). apply CoinsQuoInt_law in Hq as [_ ->]; [|done|done]. split_and!; [done| |].
      + apply coins_ok_fmap; [|done]. intros z Hz. apply Z.quot_pos; lia.
      + intros d. rewrite AmountOf_fmap; [done|]. by apply Z.quot_0_l. }
  eapply runs_mono; [exact Hq| |done]. intros w1 q (-> & Hqok & Hqa). apply runs_bind.
  destruct (bo_hist _ _ _ Hb (cr_Period r - 1) ltac:(lia)) as (h0 & Hh0 & Hok0).
  rewrite u64_small by (unfold in_u64; lia). eapply runs_eq; [by apply historical_some|]. apply runs_bind.
  apply runs_lift; [|by unfold CoinsAdd, orPanic; destruct (coinsAdd _ _)]. intros h Hh.
  apply CoinsAdd_law in Hh as [Hhok Hha]; [|done|done]. rewrite u64_small by (unfold in_u64; lia).
  unfold runs. simpl. split; [done|]. exists h. split_and!; [done|by apply coins_pos_ok|]. intros d. rewrite Hha, Hqa.
  unfold cum. by rewrite Hh0.
Qed.

(** A pool whose accounts are settled stays so. *)
Lemma increment_good m n w : both_ok m n w → 1 ≤ n → n + 1 < 2 ^ 64 →
  runs IncrementRewardsPeriod w (λ w' e, both_ok m (n + 1) w' ∧ costakerRewardsTracker (co w') = costakerRewardsTracker (co w) ∧
    co_params (co w') = co_params (co w) ∧
    ∃ r, currentRewards (co w') = Some r ∧ cr_Rewards r = [] ∧ e = cr_Period r - 1 ∧ 1 ≤ e) (λ _, False).
Proof using SL.
  intros Hok H1 Hn. destruct (initialized_spec m n w Hok H1) as (w1 & r & Hi & (Hs & [Hp Hg] & Ho) & Hr & Ht & Hpar).
  rewrite Hr in Hg. destruct Hg as [Hb Htot Hsc].
  apply (runs_state _ w w1).
  { unfold IncrementRewardsPeriod. by rewrite (st_bind_eq _ _ w w1 r Hi), (st_bind_eq _ _ w1 w1 r (initialized_some w1 r Hr)). }
  eapply runs_mono; [by apply (increment_some n)| |done]. intros w2 e (-> & h & -> & Hh & Ha).
  rewrite <- Ht, <- Hpar. split_and!; [split_and!; [done|split; [done|]|]|done|done|].
  - simpl. split; [by apply period_base|done|done].
  - intros d. specialize (Ho d). unfold state_owed in *. rewrite Hr in Ho. simpl. etrans; [|exact Ho]. apply (period_owed n); [done..|]. by left.
  - exists (ended_rewards r). pose proof (bo_period _ _ _ Hb). simpl. split_and!; [done|done|lia|lia].
Qed.

(** *** Payments *)

Lemma AllPositive_Forall c : CoinsIsAllPositive c = true → Forall (λ y : string * Z, 0 < y.2) c.
Proof using.
  intros H. assert (forallb (λ x : string * Z, 0 <? x.2) c = true) as Hf by (by destruct c).
  apply Forall_forall. intros x Hx%list_elem_of_In. rewrite forallb_forall in Hf. specialize (Hf x Hx). simpl in Hf. lia.
Qed.

Lemma between_spec n w r a tr : base_ok n (co w) r → costakerRewardsTracker (co w) !! a = Some tr → ct_TotalScore tr ≠ 0 →
  runs (calculateCoStakerRewardsBetween vd tr (cr_Period r - 1)) w
    (λ w' rw, w' = w ∧ coins_ok rw ∧ rounded DecimalRewards (λ d, due (co w) r d tr) rw ∧
      (CoinsIsAllPositive rw = true → valid_coins vd rw)) (λ w', w' = w).
Proof using SL SSL.
  intros Hb Ha Hne. destruct (bo_trk _ _ _ Hb a tr Ha) as (_ & _ & Hs & Hst). specialize (Hst Hne).
  pose proof (bo_period _ _ _ Hb) as Hp. pose proof DecimalRewards_pos as HD. unfold calculateCoStakerRewardsBetween.
  destruct (Z.ltb_spec (cr_Period r - 1) (ct_StartPeriod tr)); [lia|].
  destruct (bo_hist _ _ _ Hb (ct_StartPeriod tr) ltac:(lia)) as (h0 & Hh0 & Hok0).
  destruct (bo_hist _ _ _ Hb (cr_Period r - 1) ltac:(lia)) as (h1 & Hh1 & Hok1).
  apply runs_bind. eapply runs_eq; [by apply historical_some|]. apply runs_bind. eapply runs_eq; [by apply historical_some|].
  apply runs_bind. apply runs_lift; [|by unfold orPanic; destruct (coinsSafeSub _ _)]. intros [diff neg] Hd.
  unfold orPanic in Hd. destruct (coinsSafeSub h1 h0) as [x|] eqn:Hsub; [|done]. injection Hd as ->.
  destruct (coinsSafeSub_law _ _ _ _ Hok1 Hok0 Hsub) as [_ Hpos]. destruct neg; [done|].
  destruct (Hpos eq_refl) as (Hdpos & Hsorted & Hda). apply runs_bind. apply runs_lift; [|done]. intros rd Hrd.
  apply CoinsSafeMulInt_spec in Hrd as (_ & -> & Hvd).
  assert (coins_pos (prod_map id (λ z, z * ct_TotalScore tr) <$> diff)) as Hrpos.
  { destruct Hdpos as [Hnd Hp0]. split; [by rewrite denoms_fmap|]. apply Forall_fmap.
    eapply Forall_impl; [exact Hp0|]. intros [k z]. simpl. nia. }
  pose proof (coins_pos_ok _ Hrpos) as Hrok.
  apply runs_lift; [|by unfold CoinsQuoInt, orPanic; destruct (coinsQuoInt _ _)]. intros rw Hrw.
  apply CoinsQuoInt_law in Hrw as [_ ->]; [|done|lia]. split_and!; [done| | |].
  - apply coins_ok_fmap; [|done]. intros z Hz. apply Z.quot_pos; lia.
  - apply rounded_quot; [done|done|]. intros d. rewrite AmountOf_fmap by lia. rewrite Hda.
    assert (AmountOf h1 d = cum (co w) (cr_Period r - 1) d) as -> by (unfold cum; by rewrite Hh1).
    assert (AmountOf h0 d = cum (co w) (ct_StartPeriod tr) d) as -> by (unfold cum; by rewrite Hh0).
    unfold due. lia.
  - intros Hall%AllPositive_Forall. split; [by rewrite !denoms_fmap|]. rewrite Forall_forall in Hall, Hvd |- *.
    intros x Hx. split; [|by apply Hall]. apply list_elem_of_fmap in Hx as (y & -> & Hy). by apply (Hvd y).
Qed.

Lemma calculate_spec n w r a : base_ok n (co w) r →
  runs (CalculateCostakerRewards vd a (cr_Period r - 1)) w
    (λ w' rw, w' = w ∧ coins_ok rw ∧ rounded DecimalRewards (λ d, dueOf_co (co w) r d a) rw ∧
      (CoinsIsAllPositive rw = true → valid_coins vd rw)) (λ w', w' = w).
Proof using SL SSL.
  intros Hb. unfold CalculateCostakerRewards. apply runs_bind. eapply runs_eq; [done|].
  assert ((∀ d, dueOf_co (co w) r d a = 0) → ∀ w', w' = w → w' = w ∧ coins_ok [] ∧
    rounded DecimalRewards (λ d, dueOf_co (co w) r d a) [] ∧ (CoinsIsAllPositive [] = true → valid_coins vd [])) as Hnil.
  { intros Hz w' ->. split_and!; [done|apply coins_ok_nil|by apply rounded_nil|done]. }
  destruct (costakerRewardsTracker (co w) !! a) as [tr|] eqn:Ha;
    [|apply Hnil; [|done]; intros d; unfold dueOf_co, part; by rewrite Ha].
  destruct (Z.eqb_spec (ct_TotalScore tr) 0) as [Hz|Hne];
    [apply Hnil; [|done]; intros d; unfold dueOf_co, part, due; rewrite Ha; simpl; lia|].
  eapply runs_mono; [by eapply between_spec| |done]. intros w' rw (-> & H1 & H2 & H3). split_and!; [done..| |done].
  eapply rounded_ext; [|exact H2]. intros d. unfold dueOf_co, part. by rewrite Ha.
Qed.

(** The rewards of a payment, as they are booked: out of this module's account,
    into the incentive module's account and, unless an amount is zero, into the
    costaker's gauge. *)
Definition booked (rw : Coins) (a : bytes) w w' : Prop :=
  (∀ d, balance (w_bank w') CostakingModule d = balance (w_bank w) CostakingModule d - AmountOf rw d) ∧
  (∀ d, balance (w_bank w') IncentiveModule d = balance (w_bank w) IncentiveModule d + AmountOf rw d) ∧
  ∀ d, default 0 (flip withdrawable d <$> GetRewardGauge (w_inc w') COSTAKER a) =
       default 0 (flip withdrawable d <$> GetRewardGauge (w_inc w) COSTAKER a) + (if CoinsIsAllPositive rw then AmountOf rw d else 0).

Lemma IsZero_not_positive c : CoinsIsZero c = true → CoinsIsAllPositive c = false.
Proof using. destruct c as [|[k z] c]; [done|]. unfold CoinsIsZero. simpl. intros [->%Z.eqb_eq _]%andb_true_iff. done. Qed.

(** What a payment does; when it fails, nothing changed: the coins suffice, and
    a gauge is credited only with coins the bank accepts. *)
Lemma pay_exact m n w r a : solvent m w → base_ok n (co w) r → (∀ d, owed (co w) r d ≤ account w d) →
  runs (CalculateCostakerRewardsAndSendToGauge vd a (cr_Period r - 1)) w
    (λ w' _, co w' = co w ∧ solvent m w' ∧ ∃ rw, coins_ok rw ∧
      rounded DecimalRewards (λ d, dueOf_co (co w) r d a) rw ∧ booked rw a w w')
    (λ w', w' = w).
Proof using SL SSL KL KP.
  intros Hs Hb Ho. pose proof DecimalRewards_pos as HD. unfold CalculateCostakerRewardsAndSendToGauge. apply runs_bind.
  eapply runs_mono; [by apply (calculate_spec n)| |done]. intros w' rw (-> & Hok & Hrd & Hvalid).
  pose proof (proj2 (proj2 Hrd)) as Hdue. cbv beta in Hdue.
  destruct (CoinsIsZero rw) eqn:Hz.
  { pose proof (CoinsIsZero_spec rw Hok Hz) as Hzero. unfold runs. simpl. split_and!; [done|done|]. exists rw.
    split_and!; [done..|]. unfold booked. rewrite (IsZero_not_positive rw Hz). split_and!; intros d; rewrite ?Hzero; lia. }
  unfold runs, st_bind, accumulateForCostaker, AccumulateRewardGaugeForCostaker.
  destruct (accumulateRewardGauge (w_inc w) COSTAKER a rw) as [s'|e|e] eqn:Hacc; [|done|done].
  unfold sendModuleToModule. cbn [w_bank set_inc].
  destruct (SendCoinsFromModuleToModule (w_bank w) CostakingModule IncentiveModule rw) as [b|e|e] eqn:Hb'; [| |done].
  - assert (CostakingModule ≠ IncentiveModule) as Hne by done.
    pose proof (SendToModule_law _ _ _ _ _ Hok Hne Hb') as Hbal. clear Hb'.
    destruct Hs as (Hwf & Hp & Hl). pose proof (accumulateRewardGauge_step m _ _ _ _ _ Hwf Hok Hacc) as (Hwf' & _ & Hl').
    split_and!; [done|split_and!; [done|done|]|].
    + intros d. simpl. destruct (Hbal d) as (-> & _). specialize (Hl d). specialize (Hl' d). nia.
    + exists rw. split_and!; [done..|]. split_and!; intros d; [apply (Hbal d)|apply (Hbal d)|].
      apply accumulateRewardGauge_spec in Hacc; [|apply Hwf|done]. apply (ga_amount _ _ _ _ _ Hacc d).
  - destruct (CoinsIsAllPositive rw) eqn:Hpos.
    + exfalso. revert Hb'. apply SendToModule_pays; [by apply Hvalid|]. intros d. specialize (Hdue d). specialize (Ho d).
      pose proof (dueOf_bounds n (co w) r d a Hb). pose proof (Z.mul_quot_le (dueOf_co (co w) r d a) DecimalRewards). unfold account in Ho. nia.
    + unfold accumulateRewardGauge in Hacc. rewrite Hpos in Hacc. injection Hacc as <-. by destruct w.
Qed.

(** A payment takes no more than what is due. *)
Lemma pay_spec m n w r a : solvent m w → base_ok n (co w) r → (∀ d, owed (co w) r d ≤ account w d) →
  runs (CalculateCostakerRewardsAndSendToGauge vd a (cr_Period r - 1)) w
    (λ w' _, co w' = co w ∧ solvent m w' ∧ ∀ d, account w d - dueOf_co (co w) r d a ≤ account w' d)
    (λ w', w' = w).
Proof using SL SSL KL KP.
  intros Hs Hb Ho. eapply runs_mono; [by apply (pay_exact m n)| |done]. intros w' u (Hco & Hs' & rw & Hok & (_ & _ & Hamt) & Hc & _).
  split_and!; [done..|]. intros d. unfold account. rewrite Hc, Hamt. pose proof DecimalRewards_pos.
  pose proof (dueOf_bounds n (co w) r d a Hb). pose proof (Z.mul_quot_le (dueOf_co (co w) r d a) DecimalRewards). nia.
Qed.

(** *** A changed costaker *)

Definition scoreOf (c : CostakingState) (a : bytes) : Z := part (λ _ tr, ct_TotalScore tr) (costakerRewardsTracker c) a.

Lemma settled m n w r a tr total :
  solvent m w → (∀ p, co_params (co w) = Some p → CostakingParams_Validate p = Ok tt) → pool_good n (co w) r →
  (∀ d, owed (co w) r d - dueOf_co (co w) r d a + due (co w) r d tr ≤ account w d) → trk_ok r tr →
  (∀ ratio, params_in (co w) ratio → scored ratio tr) → total = cr_TotalScore r - scoreOf (co w) a + ct_TotalScore tr →
  both_ok m n (set_co w (saved_state (co w) r a tr total)).
Proof using.
  intros Hs Hp [Hb Htot Hsc] Ho Htr Hscored Htotal.
  assert (total = score_sum (saved_state (co w) r a tr total)) as Hsum by (rewrite restart_sum, <- Htot; exact Htotal).
  assert (0 ≤ total) as Hnn.
  { rewrite Htotal, Htot. assert (scoreOf (co w) a ≤ score_sum (co w)).
    { apply sum_map_part_le. intros a' tr' Ha'. by apply (bo_trk _ _ _ Hb a' tr'). }
    destruct Htr as (_ & _ & ? & _). lia. }
  split_and!; [done|split; [done|]|].
  - simpl. split; [by apply restart_base|done|]. intros ratio a' tr' Hr. simpl.
    destruct (decide (a = a')) as [<-|Hne]; [rewrite lookup_insert_eq|rewrite lookup_insert_ne by done; by apply Hsc].
    intros [= <-]. by apply Hscored.
  - intros d. change (state_owed _ d) with (owed (saved_state (co w) r a tr total) (with_total r total) d).
    rewrite restart_owed. apply Ho.
Qed.

Lemma saved_same c r a tr : currentRewards c = Some r →
  saved_state c r a tr (cr_TotalScore r) = set_costakerRewardsTracker c (<[a := tr]> (costakerRewardsTracker c)).
Proof using. destruct c as [p r' h t v k]. simpl. intros ->. by destruct r. Qed.

Lemma both_ok_mono m n n' w : n ≤ n' → both_ok m n w → both_ok m n' w.
Proof using. intros Hle (Hs & Hst & Ho). split_and!; [done|by eapply state_ok_mono|done]. Qed.

Lemma both_ok_good m n w r : both_ok m n w → currentRewards (co w) = Some r →
  pool_good n (co w) r ∧ ∀ d, owed (co w) r d ≤ account w d.
Proof using.
  intros (_ & [_ Hg] & Ho) Hr. rewrite Hr in Hg. split; [done|]. intros d. specialize (Ho d). unfold state_owed in Ho. by rewrite Hr in Ho.
Qed.

Lemma orInitialize_spec m n w a : both_ok m n w → 1 ≤ n →
  ∃ w1 tr r, GetCostakerRewardsOrInitialize a w = (w1, Ok tr) ∧ both_ok m n w1 ∧ currentRewards (co w1) = Some r ∧
    (costakerRewardsTracker (co w1) !! a = Some tr ∨
     costakerRewardsTracker (co w1) !! a = None ∧ tr = mkCostaker (cr_Period r) 0 0 0).
Proof using.
  intros Hok Hn. unfold GetCostakerRewardsOrInitialize. rewrite (st_bind_eq co_get _ w w (co w)) by done.
  destruct (costakerRewardsTracker (co w) !! a) as [tr|] eqn:Ha.
  - pose proof Hok as (_ & [_ Hg] & _). destruct (currentRewards (co w)) as [r|] eqn:Hr.
    + exists w, tr, r. split_and!; [done..|]. by left.
    + by rewrite Hg, lookup_empty in Ha.
  - destruct (initialized_spec m n w Hok Hn) as (w1 & r & Hi & Hok1 & Hr & Ht & _).
    exists w1, (mkCostaker (cr_Period r) 0 0 0), r. rewrite (st_bind_eq _ _ w w1 r Hi). split_and!; [done..|].
    right. by rewrite Ht.
Qed.

Lemma Costaker_Validate_Ok tr : Costaker_Validate tr = Ok tt →
  0 ≤ ct_TotalScore tr ∧ 0 ≤ ct_ActiveBaby tr ∧ 0 ≤ ct_ActiveSatoshis tr.
Proof using.
  unfold Costaker_Validate. destruct (Z.ltb_spec (ct_TotalScore tr) 0); [done|].
  destruct (Z.ltb_spec (ct_ActiveBaby tr) 0); [done|]. by destruct (Z.ltb_spec (ct_ActiveSatoshis tr) 0).
Qed.

Lemma UpdateScore_spec tr ratio : 1 ≤ ratio → 0 ≤ ct_ActiveBaby tr → 0 ≤ ct_ActiveSatoshis tr →
  ∃ s, UpdateScore tr ratio =
    Ok (mkCostaker (ct_StartPeriod tr) (ct_ActiveSatoshis tr) (ct_ActiveBaby tr) s, s - ct_TotalScore tr) ∧
    0 ≤ s ∧ s = Z.min (ct_ActiveSatoshis tr) (ct_ActiveBaby tr `quot` ratio).
Proof using.
  intros Hr Hb Hs. unfold UpdateScore, CalculateScore. destruct (Z.eqb_spec ratio 0); [lia|].
  eexists. split_and!; [done| |done]. pose proof (Z.quot_pos (ct_ActiveBaby tr) ratio Hb). lia.
Qed.

Lemma initialize_spec w r a tr : 1 ≤ cr_Period r < 2 ^ 64 → currentRewards (co w) = Some r →
  costakerRewardsTracker (co w) !! a = Some tr →
  initializeCoStakerRwdTracker a w = (set_co w (saved_state (co w) r a
    (mkCostaker (cr_Period r - 1) (ct_ActiveSatoshis tr) (ct_ActiveBaby tr) (ct_TotalScore tr)) (cr_TotalScore r)), Ok tt).
Proof using.
  intros Hp Hr Ha. unfold initializeCoStakerRwdTracker. rewrite (st_bind_eq _ _ w w r) by (by apply current_some).
  rewrite (st_bind_eq _ _ w w tr) by (unfold GetCostakerRewards, st_bind, co_get, st_lift; by rewrite Ha).
  rewrite u64_small by (unfold in_u64; lia). rewrite saved_same by done. done.
Qed.

(** The pool's score follows the costaker's, so that it stays valid. *)
Lemma saveModified_spec n w r a tr delta : base_ok n (co w) r → cr_Rewards r = [] → 0 ≤ cr_TotalScore r + delta →
  saveModified tr delta a w = (set_co w (saved_state (co w) r a tr (cr_TotalScore r + delta)), Ok tt).
Proof using SSL.
  intros Hb Hrw Hnn. pose proof (bo_cur _ _ _ Hb) as Hr. unfold saveModified.
  rewrite (st_bind_eq _ _ w (set_co w (set_costakerRewardsTracker (co w) (<[a := tr]> (costakerRewardsTracker (co w))))) tt) by done.
  rewrite (st_bind_eq GetCurrentRewards _ _ _ r) by (by apply current_some).
  unfold CurrentRewards_Validate, st_bind, st_lift. cbn [cr_Rewards cr_TotalScore]. rewrite Hrw, CoinsIsValid_nil. cbn [negb CoinsIsAnyNegative existsb].
  destruct (Z.ltb_spec (cr_TotalScore r + delta) 0); [lia|]. unfold saved_state, with_total. by rewrite Hrw.
Qed.

Lemma saved_twice c r a tr1 tr2 total : saved_state (saved_state c r a tr1 total) (with_total r total) a tr2 total = saved_state c r a tr2 total.
Proof using. unfold saved_state. simpl. by rewrite insert_insert_eq. Qed.

Lemma params_in_ext c c' ratio : co_params c = co_params c' → params_in c ratio → params_in c' ratio.
Proof using. intros E (p & Hp & Hr). exists p. by rewrite <- E. Qed.

(** The costaker is paid, then restarts with its new score. *)
Lemma modifiedScore_save m n w a tr delta : both_ok m n w → 1 ≤ n → n + 1 < 2 ^ 64 →
  0 ≤ ct_ActiveSatoshis tr → 0 ≤ ct_ActiveBaby tr → 0 ≤ ct_TotalScore tr →
  (∀ ratio, params_in (co w) ratio → scored ratio tr) → delta = ct_TotalScore tr - scoreOf (co w) a →
  runs (costakerModifiedScoreWithPreInitalization vd a (saveModified tr delta)) w (λ w' _, both_ok m (n + 1) w') (both_ok m (n + 1)).
Proof using SL SSL KL KP.
  intros Hok H1 Hn Hsat Hbaby Hsc Hscored Hdelta. unfold costakerModifiedScoreWithPreInitalization.
  apply runs_bind. eapply runs_mono; [by apply (increment_good m n)| |done].
  intros w1 e (Hok1 & Ht1 & Hpar1 & r & Hr & Hrw & -> & He). destruct (both_ok_good m (n + 1) w1 r Hok1 Hr) as [Hg Ho].
  pose proof (pg_base _ _ _ Hg) as Hb. pose proof (bo_period _ _ _ Hb) as Hp. destruct Hok1 as (Hs1 & [Hv1 Hst1] & Ho1).
  apply runs_bind. eapply runs_mono; [by apply (pay_spec m (n + 1) w1 r a)| |intros w' ->; split_and!; [done|by split|done]].
  intros w2 u (Hco & Hs2 & Hacc). apply runs_bind.
  assert (scoreOf (co w1) a = scoreOf (co w) a) as Hscore by (unfold scoreOf; by rewrite Ht1).
  assert (0 ≤ cr_TotalScore r + delta) as Hnn.
  { rewrite Hdelta, <- Hscore, (pg_total _ _ _ Hg). assert (scoreOf (co w1) a ≤ score_sum (co w1)); [|lia].
    apply sum_map_part_le. intros a' tr' Ha'. by apply (bo_trk _ _ _ Hb a' tr'). }
  rewrite <- Hco in Hb, Hg, Hr, Hv1. eapply runs_eq; [by apply (saveModified_spec (n + 1))|].
  eapply runs_eq; [apply (initialize_spec _ (with_total r (cr_TotalScore r + delta)) a tr); [simpl; lia|done|by apply lookup_insert_eq]|].
  change (co (set_co w2 ?c)) with c. cbn [with_total cr_Period cr_TotalScore]. fold (with_total r (cr_TotalScore r + delta)).
  rewrite saved_twice. change (set_co (set_co w2 ?c) ?c') with (set_co w2 c').
  apply settled; [done|done|done| | | |].
  - intros d. rewrite restart_due_zero by done. specialize (Ho d). specialize (Hacc d). rewrite Hco. lia.
  - split_and!; [done..|]. intros _. simpl. lia.
  - intros ratio Hra. apply (Hscored ratio). eapply params_in_ext, Hra. by rewrite Hco.
  - rewrite Hdelta, Hco, Hscore. simpl. lia.
Qed.

(** A modification of the amounts leaves the score to the keeper. *)
Definition amounts_only (f : CostakerRewardsTracker → CostakerRewardsTracker) : Prop :=
  ∀ tr, ct_StartPeriod (f tr) = ct_StartPeriod tr ∧ ct_TotalScore (f tr) = ct_TotalScore tr.

Lemma Sanitize_amounts : amounts_only Sanitize.
Proof using. intros tr. unfold Sanitize. by destruct (ct_ActiveBaby tr <? 0). Qed.

Lemma costakerModified_spec m n w a f : amounts_only f → both_ok m n w → 1 ≤ n → n + 1 < 2 ^ 64 →
  runs (costakerModified vd a f) w (λ w' _, both_ok m (n + 1) w') (both_ok m (n + 1)).
Proof using SL SSL KL KP.
  intros Hf Hok0 H1 Hn. destruct (orInitialize_spec m n w a Hok0 H1) as (w1 & tr0 & r & Hi & Hok & Hr & Htr0).
  unfold costakerModified. apply runs_bind. eapply runs_eq; [exact Hi|]. set (tr := Sanitize (f tr0)).
  assert (ct_StartPeriod tr = ct_StartPeriod tr0 ∧ ct_TotalScore tr = ct_TotalScore tr0) as [Hstart Hscore].
  { destruct (Sanitize_amounts (f tr0)) as [E1 E2], (Hf tr0) as [E3 E4]. unfold tr. by rewrite E1, E2, E3, E4. }
  assert (both_ok m (n + 1) w1) as Hok1 by (eapply both_ok_mono, Hok; lia).
  apply runs_bind, runs_lift; [|done]. intros [] Hval. apply Costaker_Validate_Ok in Hval as (_ & Hbaby & Hsat).
  apply runs_bind. unfold GetParams_co. apply runs_bind. eapply runs_eq; [done|]. apply runs_lift; [|done]. intros p Hp.
  rewrite must_Ok in Hp. unfold found in Hp. destruct (co_params (co w1)) as [p'|] eqn:Hpar; [|done]. injection Hp as ->.
  apply runs_bind, runs_lift; [|done]. intros [tr' delta] Hup. apply bind_Ok in Hup as (ratio & Hra & Hup).
  unfold notNil in Hra. destruct (ScoreRatioBtcByBaby p) as [x|] eqn:Hx; [|done]. injection Hra as ->.
  pose proof Hok as (Hs & [Hv _] & _). pose proof (params_ratio p ratio (Hv p Hpar) Hx) as Hr1.
  destruct (UpdateScore_spec tr ratio Hr1 Hbaby Hsat) as (s & Hus & Hs0 & Hsmin). rewrite Hus in Hup. injection Hup as <- <-.
  assert (∀ ratio', params_in (co w1) ratio' →
    scored ratio' (mkCostaker (ct_StartPeriod tr) (ct_ActiveSatoshis tr) (ct_ActiveBaby tr) s)) as Hscored.
  { intros ratio' (p' & Hp' & Hx'). rewrite Hpar in Hp'. injection Hp' as <-. rewrite Hx in Hx'. by injection Hx' as <-. }
  assert (ct_TotalScore tr0 = scoreOf (co w1) a) as Hold.
  { unfold scoreOf, part. by destruct Htr0 as [->|[-> ->]]. }
  destruct (Z.eqb_spec (s - ct_TotalScore tr) 0) as [Hz|Hnz].
  - destruct (both_ok_good m n w1 r Hok Hr) as [Hg Ho]. eapply runs_eq; [done|]. apply (both_ok_mono m n); [lia|].
    rewrite <- (saved_same (co w1) r) by done. apply settled; [done|done|done| | |done|simpl; lia].
    + intros d. assert (due (co w1) r d (mkCostaker (ct_StartPeriod tr) (ct_ActiveSatoshis tr) (ct_ActiveBaby tr) s) = dueOf_co (co w1) r d a) as ->.
      { unfold dueOf_co, part, due. simpl. replace s with (ct_TotalScore tr0) by lia. rewrite Hstart. by destruct Htr0 as [->|[-> ->]]. }
      specialize (Ho d). lia.
    + split_and!; [done..|]. simpl. intros Hne. rewrite Hstart. destruct Htr0 as [Ha|[_ Ha]].
      * apply (bo_trk _ _ _ (pg_base _ _ _ Hg) a tr0 Ha). lia.
      * rewrite Ha in Hscore. simpl in Hscore. lia.
  - apply modifiedScore_save; [done..|]. simpl. lia.
Qed.

(** A withdrawal restarts the costaker with its score unchanged. *)
Lemma withdraw_spec m n w a : both_ok m n w → 1 ≤ n → n + 1 < 2 ^ 64 →
  runs (costakerWithdrawRewards vd a) w (λ w' _, both_ok m (n + 1) w') (both_ok m (n + 1)).
Proof using SL SSL KL KP.
  intros Hok H1 Hn. unfold costakerWithdrawRewards, costakerModifiedScoreWithPreInitalization.
  apply runs_bind. eapply runs_mono; [by apply (increment_good m n)| |done].
  intros w1 e (Hok1 & Ht1 & Hpar1 & r & Hr & Hrw & -> & He). destruct (both_ok_good m (n + 1) w1 r Hok1 Hr) as [Hg Ho].
  pose proof (pg_base _ _ _ Hg) as Hb. pose proof (bo_period _ _ _ Hb) as Hp. pose proof Hok1 as (Hs1 & [Hv1 Hst1] & Ho1).
  apply runs_bind. eapply runs_mono; [by apply (pay_spec m (n + 1) w1 r a)| |by intros w' ->].
  intros w2 u (Hco & Hs2 & Hacc). apply runs_bind. eapply runs_eq; [done|].
  rewrite <- Hco in Hb, Hg, Hr, Hv1. destruct (costakerRewardsTracker (co w2) !! a) as [tr|] eqn:Ha.
  - eapply runs_eq; [by apply (initialize_spec w2 r a tr); [lia|..]|]. destruct (bo_trk _ _ _ Hb a tr Ha) as (? & ? & ? & _).
    apply settled; [done|done|done| | | |].
    + intros d. rewrite restart_due_zero by done. specialize (Ho d). specialize (Hacc d). rewrite Hco. lia.
    + split_and!; [done..|]. intros _. simpl. lia.
    + intros ratio Hra. by apply (pg_scored _ _ _ Hg ratio a tr).
    + unfold scoreOf, part. rewrite Ha. simpl. lia.
  - unfold initializeCoStakerRwdTracker. apply runs_bind. eapply runs_eq; [by apply current_some|]. apply runs_bind.
    unfold GetCostakerRewards. apply runs_bind. eapply runs_eq; [done|]. rewrite Ha. apply runs_lift; [done|]. intros _ _.
    split_and!; [done|split; [done|by rewrite Hr]|]. intros d. unfold state_owed. rewrite Hr. specialize (Ho d). specialize (Hacc d).
    rewrite Hco. assert (dueOf_co (co w1) r d a = 0) as Hz by (unfold dueOf_co, part; rewrite <- Hco, Ha; done). lia.
Qed.

(** *** Fees *)

Lemma both_ok_bank m n w b :
  (∀ d, balance (w_bank w) IncentiveModule d ≤ balance b IncentiveModule d) →
  (∀ d, balance (w_bank w) CostakingModule d ≤ balance b CostakingModule d) → both_ok m n w → both_ok m n (set_bank w b).
Proof using.
  intros Hi Hc ((Hwf & Hp & Hl) & Hst & Ho). pose proof DecimalRewards_pos.
  split_and!; [split_and!; [done|done|]|done|]; intros d; simpl.
  - specialize (Hl d). specialize (Hi d). nia.
  - etrans; [apply Ho|]. unfold account. simpl. specialize (Hc d). nia.
Qed.

Lemma send_fees m n w c to : coins_ok c → to ≠ FeeCollector → both_ok m n w →
  runs (sendModuleToModule FeeCollector to c) w (λ w' _, both_ok m n w' ∧ co w' = co w ∧
    (to = CostakingModule → ∀ d, account w' d = account w d + AmountOf c d * DecimalRewards)) (λ _, True).
Proof using KL.
  intros Hc Hto Hok. unfold runs, sendModuleToModule.
  destruct (SendCoinsFromModuleToModule (w_bank w) FeeCollector to c) as [b|e|e] eqn:Hb; [|done|done].
  pose proof (SendToModule_law _ _ _ _ _ Hc (not_eq_sym Hto) Hb) as Hlaw.
  assert (∀ a d, a ≠ FeeCollector → balance (w_bank w) a d ≤ balance b a d) as Hmono.
  { intros a d Ha. destruct (Hlaw d) as (H1 & _ & H3). destruct (decide (a = to)) as [->|Hne]; [|rewrite H3 by done; lia].
    pose proof (AmountOf_nonneg c d Hc). lia. }
  split_and!; [by apply both_ok_bank; [intros d; by apply Hmono..|]|done|]. intros -> d. unfold account. simpl.
  destruct (Hlaw d) as (-> & _). lia.
Qed.

Lemma initialized_frame m n w w' r : both_ok m n w → GetCurrentRewardsInitialized w = (w', Ok r) →
  w_bank w' = w_bank w ∧ ∀ d, state_owed (co w') d = state_owed (co w) d.
Proof using.
  intros (_ & [_ Hg] & _). destruct (currentRewards (co w)) as [r0|] eqn:Hr.
  - rewrite (initialized_some w r0 Hr). by intros [= <- <-].
  - unfold GetCurrentRewardsInitialized, st_bind, co_get. rewrite Hr. intros [= <- <-]. split; [done|]. intros d.
    unfold state_owed. rewrite Hr. simpl. unfold owed. simpl. by rewrite Hg, sum_map_empty.
Qed.

Lemma AddRewards_spec f c f' : coins_ok (cr_Rewards f) → coins_ok c → AddRewards vd f c = Ok f' →
  coins_ok (cr_Rewards f') ∧ cr_Period f' = cr_Period f ∧ cr_TotalScore f' = cr_TotalScore f ∧
  ∀ d, AmountOf (cr_Rewards f') d = AmountOf (cr_Rewards f) d + AmountOf c d * DecimalRewards.
Proof using SL.
  intros Hf Hc H. unfold AddRewards in H. apply bind_Ok in H as (x & Hx & H). apply CoinsSafeMulInt_spec in Hx as (_ & -> & _).
  destruct (CoinsAdd _ _) as [rwd|e|e] eqn:Ha; [|done|done]. injection H as <-. pose proof DecimalRewards_pos.
  apply CoinsAdd_law in Ha as [Hok Hamt]; [|done|apply coins_ok_fmap; [intros; nia|done]].
  split_and!; [by apply coins_pos_ok|done|done|]. intros d. simpl. rewrite Hamt. by rewrite AmountOf_fmap by lia.
Qed.

(** Rewards that the account received are added to the pool. *)
Lemma addRewards_good m n w c : both_ok m n w → 1 ≤ n → coins_ok c →
  (∀ d, state_owed (co w) d + AmountOf c d * DecimalRewards ≤ account w d) →
  runs (AddRewardsForCostakers vd c) w (λ w' _, both_ok m n w') (λ _, True).
Proof using SL.
  intros Hok Hn Hc Ho. destruct (initialized_spec m n w Hok Hn) as (w1 & r & Hi & Hok1 & Hr & _ & _).
  destruct (initialized_frame m n w w1 r Hok Hi) as [Hbank Howed].
  unfold AddRewardsForCostakers. apply runs_bind. eapply runs_eq; [exact Hi|]. apply runs_bind, runs_lift; [|done]. intros r' Hr'.
  destruct (both_ok_good m n w1 r Hok1 Hr) as [[Hb Htot Hsc] _]. apply AddRewards_spec in Hr' as (Hrok & Hper & Hts & Hamt); [|apply Hb|done].
  eapply runs_eq; [done|]. pose proof Hok1 as (Hs1 & [Hv1 _] & _). split_and!; [done|split; [done|]|].
  - simpl. split; [|by rewrite Hts|done]. destruct Hb as [_ B2 B3 B4 B5 B6 B7].
    split; simpl; rewrite ?Hper, ?Hts; try done. intros a tr Ha. destruct (B7 a tr Ha) as (? & ? & ? & ?). unfold trk_ok. by rewrite Hper.
  - intros d. change (state_owed _ d) with (owed (set_currentRewards (co w1) (Some r')) r' d).
    assert (owed (set_currentRewards (co w1) (Some r')) r' d = owed (co w1) r d + AmountOf c d * DecimalRewards) as ->.
    { unfold owed, due, cum. simpl. rewrite Hamt, Hper. lia. }
    specialize (Howed d). specialize (Ho d). unfold state_owed in Howed at 1. rewrite Hr in Howed. rewrite Howed.
    unfold account in *. simpl. by rewrite Hbank.
Qed.

Lemma allocateVote_good m n tot dc stk v w : both_ok m n w →
  runs (allocateVote (S := S) tot dc stk v) w (λ w' _, both_ok m n w') (λ _, True).
Proof using.
  intros Hok. unfold allocateVote. do 3 (apply runs_bind, runs_lift; [|done]; intros ? _).
  match goal with |- context [match ?x with Some _ => _ | None => _ end] => destruct x end; [|done].
  unfold runs. by destruct (AllocateTokensToValidator _ _ _).
Qed.

Lemma allocate_good m n stk votes c w : coins_ok c → both_ok m n w →
  runs (allocateValidatorsRewards stk votes c) w (λ w' _, both_ok m n w') (λ _, True).
Proof using KL.
  intros Hc Hok. unfold allocateValidatorsRewards. destruct (negb _); [done|].
  destruct (_ =? 0); [done|]. apply runs_bind. eapply runs_mono; [by apply (send_fees m n)| |done].
  intros w1 u (Hok1 & _ & _).
  eapply runs_mono; [apply (runs_forM _ (λ _, both_ok m n) _ 0 votes 0 0); [done| |done|lia]|by intros w2 u2|done].
  intros v n' w' _ Hok'. by apply allocateVote_good.
Qed.

Lemma HandleCoins_good m n stk votes w : both_ok m n w → 1 ≤ n →
  runs (HandleCoinsInFeeCollector_co vd stk votes) w (λ w' _, both_ok m n w') (λ _, True).
Proof using SL KL.
  intros Hok Hn. unfold HandleCoinsInFeeCollector_co, runs.
  pose proof (ModuleBalances_law (w_bank w) FeeCollector) as Hfees. set (fees := ModuleBalances _ _) in *.
  destruct (negb (CoinsIsAllPositive fees)); [done|].
  match goal with |- context [st_bind ?g ?k w] => fold (runs (st_bind g k) w (λ w' _, both_ok m n w') (λ _, True)) end.
  apply runs_bind. unfold GetParams_co. apply runs_bind. eapply runs_eq; [done|]. apply runs_lift; [|done]. intros p Hp.
  rewrite must_Ok in Hp. unfold found in Hp. destruct (co_params (co w)) as [p'|] eqn:Hpar; [|done]. injection Hp as ->.
  pose proof Hok as (_ & [Hv _] & _). specialize (Hv p Hpar).
  assert (∀ x c, x = CostakingPortion p ∨ x = ValidatorsPortion p →
    (y ← notNil x; GetCoinsPortion fees y) = Ok c → coins_ok c) as Hportion.
  { intros x c Hx H. apply bind_Ok in H as (y & Hy & H). unfold notNil in Hy. destruct x as [y'|]; [|done]. injection Hy as ->.
    apply GetCoinsPortion_spec in H as [? _]; [done|done|]. apply (params_portion p y Hv). destruct Hx as [<-|<-]; auto. }
  apply runs_bind, runs_lift; [|done]. intros c1 Hc1. apply Hportion in Hc1; [|by right].
  apply runs_bind. eapply runs_mono; [by apply (allocate_good m n)| |done]. intros w1 u Hok1.
  apply runs_bind, runs_lift; [|done]. intros c2 Hc2. apply Hportion in Hc2; [|by left].
  unfold accumulateCostakingRewards. destruct (negb _); [done|]. apply runs_bind.
  eapply runs_mono; [by apply (send_fees m n)| |done]. intros w2 u2 (Hok2 & Hco2 & Hacc). apply addRewards_good; [done..|].
  intros d. rewrite Hacc by done. rewrite Hco2. destruct Hok1 as (_ & _ & Ho). specialize (Ho d). lia.
Qed.

(** *** A new score ratio *)

(** In the middle of the walk: the costakers in [l] have their old scores, the
    others the new ones; [acc] is the sum of the new scores so far. *)
Record walk_ok (m n ratio : Z) (r : CurrentRewards) (par : option CostakingParams)
    (l : list (bytes * CostakerRewardsTracker)) (acc : Z) w : Prop := {
  wk_solvent : solvent m w;
  wk_base : base_ok n (co w) r;
  wk_owed d : owed (co w) r d ≤ account w d;
  wk_sum : score_sum (co w) = acc + sumZ ((λ e, ct_TotalScore e.2) <$> l);
  wk_left e : e ∈ l → costakerRewardsTracker (co w) !! e.1 = Some e.2;
  wk_done a tr : costakerRewardsTracker (co w) !! a = Some tr → a ∉ l.*1 → scored ratio tr;
  wk_keys : NoDup l.*1;
  wk_params : co_params (co w) = par
}.

Lemma with_total_same r : with_total r (cr_TotalScore r) = r.
Proof using. by destruct r. Qed.

(** The costaker the walk is at, after its payment if there was one. *)
Lemma walk_next m n ratio r par e l acc w w2 tr : walk_ok m n ratio r par (e :: l) acc w →
  co w2 = co w → solvent m w2 → (∀ d, owed (co w) r d - dueOf_co (co w) r d e.1 + due (co w) r d tr ≤ account w2 d) →
  trk_ok r tr → scored ratio tr →
  walk_ok m n ratio r par l (acc + ct_TotalScore tr)
    (set_co w2 (set_costakerRewardsTracker (co w2) (<[e.1 := tr]> (costakerRewardsTracker (co w2))))).
Proof using.
  intros [Hs Hb Ho Hsum Hleft Hdone Hkeys Hpar] Hco Hs2 Ho2 Htr Hsc. pose proof (bo_cur _ _ _ Hb) as Hr.
  rewrite Hco, <- (saved_same (co w) r) by done. rewrite fmap_cons in Hkeys. apply NoDup_cons in Hkeys as [Hnotin Hkeys].
  pose proof (Hleft e (list_elem_of_here _ _)) as He. split; try done.
  - pose proof (restart_base n (co w) r e.1 tr (cr_TotalScore r) Hb (bo_total _ _ _ Hb) Htr) as Hb2.
    by rewrite with_total_same in Hb2.
  - intros d. change (co (set_co w2 ?c)) with c. pose proof (restart_owed (co w) r e.1 tr (cr_TotalScore r) d) as Ho3.
    rewrite with_total_same in Ho3. rewrite Ho3. apply Ho2.
  - change (co (set_co w2 ?c)) with c. rewrite restart_sum, Hsum. unfold part. rewrite He. rewrite fmap_cons, sumZ_cons. simpl. lia.
  - intros e' He'. simpl. rewrite lookup_insert_ne; [apply Hleft; by right|]. intros Heq. apply Hnotin. rewrite Heq.
    by apply list_elem_of_fmap_2.
  - intros a' tr'. simpl. destruct (decide (e.1 = a')) as [<-|Hne].
    + rewrite lookup_insert_eq. by intros [= <-].
    + rewrite lookup_insert_ne by done. intros Ha Hin. apply (Hdone a' tr' Ha). rewrite fmap_cons. by apply not_elem_of_cons.
Qed.

Lemma walk_step m n ratio r par e l acc w : walk_ok m n ratio r par (e :: l) acc w → 1 ≤ ratio → n < 2 ^ 64 →
  runs (updateCostakerScore vd ratio (cr_Period r - 1) acc e) w (λ w' acc', walk_ok m n ratio r par l acc' w') (λ _, True).
Proof using SL SSL KL KP.
  intros Hw Hratio Hn. pose proof (wk_base _ _ _ _ _ _ _ _ Hw) as Hb. pose proof (bo_period _ _ _ Hb) as Hp.
  pose proof (wk_left _ _ _ _ _ _ _ _ Hw e (list_elem_of_here _ _)) as He.
  destruct (bo_trk _ _ _ Hb _ _ He) as (Hsat & Hbaby & Hsc & Hst).
  destruct (UpdateScore_spec e.2 ratio Hratio Hbaby Hsat) as (s & Hus & Hs0 & Hsmin).
  unfold updateCostakerScore. rewrite Hus. apply runs_bind. eapply runs_eq; [done|]. cbn [ct_TotalScore].
  destruct (Z.eqb_spec (s - ct_TotalScore e.2) 0) as [Hz|Hnz].
  - apply runs_bind. eapply runs_eq; [done|]. eapply runs_eq; [done|].
    apply (walk_next m n ratio r par e l acc w w (mkCostaker _ _ _ s)); [done|done|apply Hw| | |done].
    + intros d. assert (due (co w) r d (mkCostaker (ct_StartPeriod e.2) (ct_ActiveSatoshis e.2) (ct_ActiveBaby e.2) s) = dueOf_co (co w) r d e.1) as ->.
      { unfold dueOf_co, part, due. rewrite He. simpl. replace s with (ct_TotalScore e.2) by lia. done. }
      pose proof (wk_owed _ _ _ _ _ _ _ _ Hw d). lia.
    + split_and!; [done..|]. simpl. intros Hne. apply Hst. lia.
  - apply runs_bind. eapply runs_mono; [apply (pay_spec m n w r e.1); [apply Hw|done|apply Hw]| |done].
    intros w2 u (Hco & Hs2 & Hacc). apply runs_bind. eapply runs_eq; [done|]. apply runs_bind.
    eapply runs_eq; [apply (initialize_spec _ r e.1 (mkCostaker (ct_StartPeriod e.2) (ct_ActiveSatoshis e.2) (ct_ActiveBaby e.2) s)); [lia| |by apply lookup_insert_eq]|].
    { simpl. rewrite Hco. apply Hb. }
    cbn [ct_ActiveSatoshis ct_ActiveBaby ct_TotalScore]. rewrite saved_same by (simpl; rewrite Hco; apply Hb).
    eapply runs_eq; [done|]. set (tr := mkCostaker (cr_Period r - 1) _ _ s).
    match goal with |- walk_ok _ _ _ _ _ _ _ ?x => assert (x = set_co w2 (set_costakerRewardsTracker (co w2) (<[e.1 := tr]> (costakerRewardsTracker (co w2))))) as -> end.
    { change (co (set_co w2 ?c)) with c. unfold set_co, set_costakerRewardsTracker. simpl. by rewrite insert_insert_eq. }
    apply (walk_next m n ratio r par e l acc w w2 tr); [done|done|done| | |done].
    + intros d. rewrite (restart_due_zero (co w) r tr d) by done. specialize (Hacc d). pose proof (wk_owed _ _ _ _ _ _ _ _ Hw d). lia.
    + split_and!; [done..|]. intros _. simpl. lia.
Qed.

Lemma walk_all m n ratio r par l acc w : walk_ok m n ratio r par l acc w → 1 ≤ ratio → n < 2 ^ 64 →
  runs (IterateCostakers (updateCostakerScore vd ratio (cr_Period r - 1)) acc l) w
    (λ w' acc', walk_ok m n ratio r par [] acc' w') (λ _, True).
Proof using SL SSL KL KP.
  intros Hw Hratio Hn. revert acc w Hw. induction l as [|e l IH]; intros acc w Hw; [done|]. cbn [IterateCostakers]. apply runs_bind.
  eapply runs_mono; [by apply (walk_step m n ratio r par e l)| |done]. intros w' acc' Hw'. by apply IH.
Qed.

Lemma base_with_total n c r t : base_ok n c r → 0 ≤ t → base_ok n (set_currentRewards c (Some (with_total r t))) (with_total r t).
Proof using. by intros [] Ht; split. Qed.

(** After the walk the pool has the sum of the new scores. *)
Lemma walk_finish m n ratio r par acc w : walk_ok m n ratio r par [] acc w → cr_Rewards r = [] → n + 1 < 2 ^ 64 →
  runs (UpdateCurrentRewardsTotalScore acc) w (λ w' _, solvent m w' ∧ co_params (co w') = par ∧
    ∃ r', base_ok (n + 1) (co w') r' ∧ cr_TotalScore r' = score_sum (co w') ∧ (∀ d, owed (co w') r' d ≤ account w' d) ∧
      ∀ a tr, costakerRewardsTracker (co w') !! a = Some tr → scored ratio tr) (λ _, True).
Proof using SL.
  intros Hw Hrw Hn. pose proof (wk_base _ _ _ _ _ _ _ _ Hw) as Hb. unfold UpdateCurrentRewardsTotalScore. apply runs_bind.
  eapply runs_mono; [by apply (increment_some n)| |done]. intros w' e (-> & h & -> & Hh & Ha). apply runs_bind.
  eapply runs_eq; [by apply current_some|]. eapply runs_eq; [done|]. fold (with_total (ended_rewards r) acc).
  pose proof (wk_sum _ _ _ _ _ _ _ _ Hw) as Hsum. simpl in Hsum. rewrite Z.add_0_r in Hsum.
  pose proof (score_sum_nonneg _ _ _ Hb) as Hnn.
  split_and!; [apply Hw|apply Hw|]. exists (with_total (ended_rewards r) acc). split_and!.
  - apply base_with_total; [by apply period_base|lia].
  - simpl. symmetry. exact Hsum.
  - intros d. change (co (set_co _ ?c)) with c.
    change (owed (ended_state (co w) r h) (ended_rewards r) d ≤ account w d). etrans; [|apply (wk_owed _ _ _ _ _ _ _ _ Hw)].
    apply (period_owed n); [done|done|]. right. by rewrite Hrw, AmountOf_nil.
  - intros a tr Htr. apply (wk_done _ _ _ _ _ _ _ _ Hw a tr Htr). simpl. by intros ?%elem_of_nil.
Qed.

Lemma updateAll_spec m n w ratio : both_ok m n w → 1 ≤ n → n + 2 < 2 ^ 64 → 1 ≤ ratio →
  runs (UpdateAllCostakersScore vd ratio) w (λ w' _, solvent m w' ∧ co_params (co w') = co_params (co w) ∧
    ∃ r', base_ok (n + 2) (co w') r' ∧ cr_TotalScore r' = score_sum (co w') ∧ (∀ d, owed (co w') r' d ≤ account w' d) ∧
      ∀ a tr, costakerRewardsTracker (co w') !! a = Some tr → scored ratio tr) (λ _, True).
Proof using SL SSL KL KP.
  intros Hok H1 Hn Hratio. unfold UpdateAllCostakersScore. apply runs_bind.
  eapply runs_mono; [apply (increment_good m n); [done|done|lia]| |done].
  intros w1 e (Hok1 & Ht1 & Hpar1 & r & Hr & Hrw & -> & He). destruct (both_ok_good m (n + 1) w1 r Hok1 Hr) as [Hg Ho].
  apply runs_bind. eapply runs_eq; [by apply current_some|]. apply runs_bind. eapply runs_eq; [done|]. apply runs_bind.
  set (l := iterB (costakerRewardsTracker (co w1))).
  assert (walk_ok m (n + 1) ratio r (co_params (co w)) l 0 w1) as Hw.
  { split; [apply Hok1|apply Hg|done| | | |apply iterator_NoDup|done].
    - rewrite Z.add_0_l. unfold score_sum. rewrite (sum_map_keys l.*1) by (unfold l, iterB; by rewrite iterator_perm).
      rewrite <- list_fmap_compose. f_equal. apply list_fmap_ext. intros i e Hin%list_elem_of_lookup_2.
      destruct e as [a tr]. apply elem_of_iterB in Hin. unfold compose, part. simpl. by rewrite Hin.
    - intros [a tr] Hin. by apply elem_of_iterB in Hin.
    - intros a tr Ha Hnin. exfalso. apply Hnin. apply list_elem_of_fmap. exists (a, tr). split; [done|]. by apply elem_of_iterB. }
  eapply runs_mono; [apply (walk_all m (n + 1)); [exact Hw|done|lia]| |done]. intros w2 acc Hw2. apply runs_bind, runs_lift; [|done].
  intros [] _. replace (n + 2) with (n + 1 + 1) by lia. apply (walk_finish m (n + 1) ratio r); [done|done|lia].
Qed.

(** A change of parameters that succeeds keeps the invariant: the scores follow
    the new ratio. *)
Lemma UpdateParams_good m n w auth req p : both_ok m n w → 1 ≤ n → n + 2 < 2 ^ 64 →
  runs (UpdateParams_co vd auth req p) w (λ w' _, both_ok m (n + 2) w') (λ _, True).
Proof using SL SSL KL KP.
  intros Hok H1 Hn. unfold UpdateParams_co. destruct (negb _); [done|]. apply runs_bind, runs_lift; [|done].
  intros [] Hval%wrap_as_Ok. apply runs_bind. unfold GetParams_co. apply runs_bind. eapply runs_eq; [done|]. apply runs_lift; [|done].
  intros cur Hcur. rewrite must_Ok in Hcur. unfold found in Hcur. destruct (co_params (co w)) as [p0|] eqn:Hp0; [|done]. injection Hcur as ->.
  apply runs_bind, runs_lift; [|done]. intros nr Hnr. unfold notNil in Hnr. destruct (ScoreRatioBtcByBaby p) as [x|] eqn:Ex; [|done]. injection Hnr as ->.
  apply runs_bind, runs_lift; [|done]. intros orr Hor. unfold notNil in Hor. destruct (ScoreRatioBtcByBaby cur) as [y|] eqn:Ey; [|done]. injection Hor as ->.
  pose proof (params_ratio p nr Hval Ex) as Hr1. apply runs_bind.
  assert (∀ w' , solvent m w' → (∀ d, state_owed (co w') d ≤ account w' d) →
    match currentRewards (co w') with
    | Some r => base_ok (n + 2) (co w') r ∧ cr_TotalScore r = score_sum (co w') ∧
                ∀ a tr, costakerRewardsTracker (co w') !! a = Some tr → scored nr tr
    | None => costakerRewardsTracker (co w') = ∅
    end → runs (st_catch (SetParams_co p) (λ _, st_err ErrInvalidProposalMsg)) w' (λ w2 _, both_ok m (n + 2) w2) (λ _, True)) as Hset.
  { intros w' Hs Ho Hst. apply runs_catch. unfold SetParams_co. rewrite Hval. apply runs_bind. eapply runs_eq; [done|]. eapply runs_eq; [done|].
    split_and!; [done|split|done].
    - simpl. by intros p' [= <-].
    - simpl. destruct (currentRewards (co w')) as [r|]; [|done]. destruct Hst as ([] & Htot & Hsc). split; [by split|done|].
      intros ratio a tr (p' & Hp' & Hx') Ha. simpl in Hp'. injection Hp' as <-. rewrite Ex in Hx'. injection Hx' as <-. by apply (Hsc a). }
  destruct (Z.eqb_spec nr orr) as [->|Hne].
  - eapply runs_eq; [done|]. pose proof Hok as (Hs & [_ Hg] & Ho). apply Hset; [done|done|].
    destruct (currentRewards (co w)) as [r|]; [|done]. destruct Hg as [Hb Htot Hsc]. split_and!; [eapply base_ok_mono, Hb; lia|done|].
    intros a tr Ha. apply (Hsc orr a tr); [|done]. by exists cur.
  - apply runs_catch. eapply runs_mono; [by apply (updateAll_spec m n)| |by intros].
    intros w' u (Hs & _ & r' & Hb & Htot & Ho & Hsc). apply Hset; [done| |].
    + intros d. unfold state_owed. rewrite (bo_cur _ _ _ Hb). apply Ho.
    + by rewrite (bo_cur _ _ _ Hb).
Qed.

(** *** Hooks *)

(** A computation that keeps both invariants and ends at most [k] periods,
    however it returns. *)
Definition keeps (m n k : Z) {A} (c : St CoWorld A) : Prop :=
  ∀ w, both_ok m n w → runs c w (λ w' _, both_ok m (n + k) w') (both_ok m (n + k)).

Lemma keeps_lift m n k {A C} (o : outcome A) (f : A → St CoWorld C) : 0 ≤ k → (∀ a, o = Ok a → keeps m n k (f a)) →
  keeps m n k (st_bind (st_lift o) f).
Proof using.
  intros Hk Hf w Hok. apply runs_bind, runs_lift; [intros a Ha; by apply Hf|]. intros e _. eapply both_ok_mono, Hok. lia.
Qed.

Lemma keeps_ret m n k {A} (a : A) : 0 ≤ k → keeps m n k (st_ret a).
Proof using. intros Hk w Hok. unfold runs. simpl. eapply both_ok_mono, Hok. lia. Qed.

Lemma keeps_get m n k {C} (f : CostakingState → St CoWorld C) : (∀ c, keeps m n k (f c)) → keeps m n k (st_bind co_get f).
Proof using. intros Hf w Hok. apply runs_bind. eapply runs_eq; [done|]. by apply Hf. Qed.

Lemma keeps_seq m n k {A C} (c : St CoWorld A) (f : A → St CoWorld C) : keeps m n 0 c → 0 ≤ k → (∀ a, keeps m n k (f a)) →
  keeps m n k (st_bind c f).
Proof using.
  intros Hc Hk Hf w Hok. apply runs_bind. eapply runs_mono; [by apply Hc| |].
  - intros w' a Hok'. rewrite Z.add_0_r in Hok'. by apply Hf.
  - intros w' Hok'. eapply both_ok_mono, Hok'. lia.
Qed.

Lemma keeps_modified m n a f : amounts_only f → 1 ≤ n → n + 1 < 2 ^ 64 → keeps m n 1 (costakerModified vd a f).
Proof using SL SSL KL KP. intros Hf H1 Hn w Hok. by apply costakerModified_spec. Qed.

Lemma keeps_cache m n f : keeps m n 0 (cache_put f).
Proof using. intros w Hok. eapply runs_eq; [done|]. rewrite Z.add_0_r. by apply both_ok_rest. Qed.

Lemma keeps_active_set m n ctx : keeps m n 0 (GetActiveValidatorSet (buildCurrEpochValSetMap ctx)).
Proof using.
  unfold GetActiveValidatorSet. apply keeps_get. intros c. destruct (activeValSet (stkCache c)); [by apply keeps_ret|].
  apply keeps_seq; [|done|].
  - unfold buildCurrEpochValSetMap. destruct (_ =? 0); [by apply keeps_ret|]. apply keeps_get. intros c'.
    apply keeps_lift; [done|]. intros v _. by apply keeps_ret.
  - intros s. apply keeps_seq; [apply keeps_cache|done|]. intros _. by apply keeps_ret.
Qed.

Lemma keeps_active m n ctx v : keeps m n 0 (isActiveValidator ctx v).
Proof using.
  unfold isActiveValidator. apply keeps_seq; [apply keeps_active_set|done|]. intros s. apply keeps_seq; [|done|].
  - unfold assumeActiveValidatorIfGenesis. destruct (_ =? 0); [|by apply keeps_ret].
    apply keeps_seq; [apply keeps_cache|done|]. intros _. by apply keeps_ret.
  - intros s'. by apply keeps_ret.
Qed.

Lemma keeps_defer m n k a v c : keeps m n k c → keeps m n k (deferDelete a v c).
Proof using.
  intros Hc w Hok. specialize (Hc w Hok). unfold runs, deferDelete in *. destruct (c w) as [w' r].
  destruct r; [by apply both_ok_rest|by apply both_ok_rest|done].
Qed.

Lemma amounts_sats x : amounts_only (addSats x).
Proof using. done. Qed.
Lemma amounts_baby x : amounts_only (addBaby x).
Proof using. done. Qed.
#[local] Hint Resolve amounts_sats amounts_baby : core.

Lemma keeps_delegation_modified m n ctx stk a v : 1 ≤ n → n + 1 < 2 ^ 64 → keeps m n 1 (AfterDelegationModified_co vd (S := S) ctx stk a v).
Proof using SL SSL KL KP.
  intros H1 Hn. apply keeps_defer, keeps_seq; [apply keeps_active|done|]. intros act. destruct (negb act); [by apply keeps_ret|].
  do 2 (apply keeps_lift; [done|]; intros ? _). apply keeps_get. intros c. by apply keeps_modified.
Qed.

Lemma keeps_delegation_removed m n ctx stk a v : 1 ≤ n → n + 1 < 2 ^ 64 → keeps m n 1 (BeforeDelegationRemoved_co vd (S := S) ctx stk a v).
Proof using SL SSL KL KP.
  intros H1 Hn. apply keeps_defer, keeps_seq; [apply keeps_active|done|]. intros act. destruct (negb act); [by apply keeps_ret|].
  do 2 (apply keeps_lift; [done|]; intros ? _). cbv zeta. match goal with |- context [if ?b then _ else _] => destruct b end; [by apply keeps_ret|by apply keeps_modified].
Qed.

Lemma keeps_shares_modified m n ctx stk a v : keeps m n 0 (BeforeDelegationSharesModified_co (S := S) ctx stk a v).
Proof using.
  apply keeps_seq; [apply keeps_active|done|]. intros act. destruct (negb act); [by apply keeps_ret|].
  destruct (GetDelegation stk a v); [|by apply keeps_ret|done]. apply keeps_lift; [done|]. intros tok _. apply keeps_cache.
Qed.

Lemma keeps_forM m n k {A} (f : A → St CoWorld unit) (l : list A) N : 1 ≤ n → 0 ≤ k → N < 2 ^ 64 →
  (∀ x n', 1 ≤ n' → n' + k < 2 ^ 64 → keeps m n' k (f x)) → n + k * Z.of_nat (length l) ≤ N → keeps m n (N - n) (st_forM f l).
Proof using.
  intros H1 Hk HN Hf Hlen w Hok. replace (n + (N - n)) with N by lia.
  eapply runs_mono; [apply (runs_forM f (λ i w', 1 ≤ i ∧ both_ok m i w') (both_ok m N) k l n N); [done| |by split|done]| |done].
  - intros x n' w' Hle [H1' Hok']. eapply runs_mono; [apply (Hf x n'); [done|lia|done]| |].
    + intros w2 u Hok2. split; [lia|done].
    + intros w2 Hok2. eapply both_ok_mono, Hok2. lia.
  - intros w' u [_ Hok']. eapply both_ok_mono, Hok'. lia.
Qed.

Lemma keeps_slashed m n k ctx stk v fraction : 1 ≤ n → n + k < 2 ^ 64 → 0 ≤ k →
  (∀ dels, GetValidatorDelegations stk v = Ok dels → Z.of_nat (length dels) ≤ k) →
  keeps m n k (BeforeValidatorSlashed_co vd (S := S) ctx stk v fraction).
Proof using SL SSL KL KP.
  intros H1 Hn Hk Hlen. apply keeps_seq; [apply keeps_active|done|]. intros act. destruct (negb act); [by apply keeps_ret|].
  apply keeps_lift; [done|]. intros dels Hdels. apply keeps_lift; [done|]. intros val _. specialize (Hlen dels Hdels).
  replace k with (n + k - n) by lia. apply (keeps_forM m n 1); [done|lia|lia| |lia].
  intros del n' Hn1 Hn2. unfold slashDelegator. do 2 (apply keeps_lift; [done|]; intros ? _). by apply keeps_modified.
Qed.

(** *** The end of an epoch *)

Lemma keeps_catch m n k (c : St CoWorld unit) : keeps m n k c → keeps m n k (st_log c).
Proof using. intros Hc w Hok. apply runs_catch. eapply runs_mono; [by apply Hc|done|]. intros w' Hok' e. done. Qed.

Lemma keeps_update_set m n stk vals : keeps m n 0 (updateValidatorSet (S := S) stk vals).
Proof using.
  apply keeps_lift; [done|]. intros vs _ w Hok. eapply runs_eq; [done|]. rewrite Z.add_0_r. by apply both_ok_rest.
Qed.

Lemma keeps_delegators m n k stk val f : 1 ≤ n → n + k < 2 ^ 64 → 0 ≤ k → (∀ x, amounts_only (f x)) →
  (∀ v dels, GetValidatorDelegations stk v = Ok dels → Z.of_nat (length dels) ≤ k) →
  keeps m n k (updateCoStkTrackerForDelegators vd (S := S) stk val f).
Proof using SL SSL KL KP.
  intros H1 Hn Hk Hf Hlen. unfold updateCoStkTrackerForDelegators. destruct (ValFromBech32 _) as [v|].
  2: { intros w Hok. unfold runs. simpl. eapply both_ok_mono, Hok. lia. }
  apply keeps_lift; [done|]. intros dels Hdels. specialize (Hlen v dels Hdels).
  replace k with (n + k - n) by lia. apply (keeps_forM m n 1); [done|lia|lia| |lia].
  intros del n' Hn1 Hn2. unfold updateDelegator. do 2 (apply keeps_lift; [done|]; intros ? _). by apply keeps_modified.
Qed.

(** The bounds: delegations of a validator, validators of the two sets. *)
Definition epoch_bounds ctx (stk : S) w (k : Z) : Prop := ∃ j, 0 ≤ j ∧
  (∀ v dels, GetValidatorDelegations stk v = Ok dels → Z.of_nat (length dels) ≤ j) ∧
  ∀ prev new w1, GetActiveValidatorSet (buildCurrEpochValSetMap ctx) w = (w1, Ok prev) → buildNewActiveValSetMap stk = Ok new →
    j * Z.of_nat (length new.2 + size prev) ≤ k.

Lemma epochEnds_good m n k ctx stk w : 1 ≤ n → n + k < 2 ^ 64 → 0 ≤ k → epoch_bounds ctx stk w k → both_ok m n w →
  runs (AfterEpochEnds_co vd ctx stk) w (λ w' _, both_ok m (n + k) w') (both_ok m (n + k)).
Proof using SL SSL KL KP.
  intros H1 Hn Hk (j & Hj & Hdels & Hsets) Hok. unfold AfterEpochEnds_co. apply runs_catch.
  assert (∀ w', both_ok m (n + k) w' → ∀ e : error, runs (st_ret tt) w' (λ w' _, both_ok m (n + k) w') (both_ok m (n + k))) as Hlog by done.
  apply runs_bind. pose proof (keeps_active_set m n ctx w Hok) as Hset. unfold runs in Hset. unfold runs at 1.
  destruct (GetActiveValidatorSet _ w) as [w1 [prev|e|e]] eqn:Hprev; [| |done]; rewrite Z.add_0_r in Hset.
  2: { intros e'. eapply (Hlog w1), e. eapply both_ok_mono, Hset. lia. }
  apply runs_bind, runs_lift; [|intros e _ e'; eapply (Hlog w1), e; eapply both_ok_mono, Hset; lia].
  intros [newMap newVals] Hnew. specialize (Hsets prev (newMap, newVals) w1 eq_refl Hnew). simpl in Hsets.
  set (n1 := n + j * Z.of_nat (length newVals)). assert (n ≤ n1 ≤ n + k ∧ n1 + j * Z.of_nat (size prev) ≤ n + k) as [Hn1 Hn2] by (unfold n1; nia).
  assert (∀ x n', 1 ≤ n' → n' + j < 2 ^ 64 → keeps m n' j
    (if bool_decide (ValString x ∈ prev) then st_ret tt else addBabyForDelegators vd stk (ValString x))) as Hadd.
  { intros x n' ? ?. case_bool_decide; [by apply keeps_ret|]. unfold addBabyForDelegators.
    do 2 (apply keeps_lift; [done|]; intros ? _). by apply keeps_delegators. }
  assert (∀ x n', 1 ≤ n' → n' + j < 2 ^ 64 → keeps m n' j
    (if bool_decide (x ∈ newMap) then st_ret tt
     else st_bind (st_lift (mustValAddr x)) (λ v, st_log (removeBabyForDelegators vd stk v)))) as Hrem.
  { intros x n' ? ?. case_bool_decide; [by apply keeps_ret|]. apply keeps_lift; [done|]. intros v _. apply keeps_catch.
    unfold removeBabyForDelegators. apply keeps_lift; [done|]. intros val _. by apply keeps_delegators. }
  apply runs_bind. eapply runs_mono; [apply (keeps_forM m n j _ newVals n1 H1 Hj ltac:(lia) Hadd ltac:(unfold n1; lia) w1 Hset)| |].
  2: { intros w' Hok' e. eapply (Hlog w'), e. eapply both_ok_mono, Hok'. lia. }
  intros w2 u Hok2. replace (n + (n1 - n)) with n1 in Hok2 by lia. apply runs_bind.
  assert (length (sort_stable string_less (elements prev)) = size prev) as Hsize by (by rewrite sort_stable_length).
  eapply runs_mono; [apply (keeps_forM m n1 j _ (sort_stable string_less (elements prev)) (n + k) ltac:(lia) Hj ltac:(lia) Hrem ltac:(rewrite Hsize; lia) w2 Hok2)| |].
  2: { intros w' Hok' e. eapply (Hlog w'), e. eapply both_ok_mono, Hok'. lia. }
  intros w3 u3 Hok3. replace (n1 + (n + k - n1)) with (n + k) in Hok3 by lia.
  eapply runs_mono; [apply (keeps_update_set m (n + k)), Hok3| |].
  - intros w' u' Hok'. by rewrite Z.add_0_r in Hok'.
  - intros w' Hok' e. rewrite Z.add_0_r in Hok'. by apply (Hlog w').
Qed.

(** *** Iterations over the delegations of a provider *)

Lemma foldM_count {A T} (P : Z → T → Prop) (f : T → A → outcome T) N l :
  (∀ i s x s', i + 1 ≤ N → P i s → f s x = Ok s' → P (i + 1) s') →
  ∀ i s s', P i s → i + Z.of_nat (length l) ≤ N → foldM f s l = Ok s' → P (i + Z.of_nat (length l)) s'.
Proof using.
  intros Hf. induction l as [|x l IH]; intros i s s' HP HN.
  - intros [= <-]. by rewrite Z.add_0_r.
  - cbn [foldM length] in *. rewrite Nat2Z.inj_succ in *. intros H. apply bind_Ok in H as (s1 & H1 & H).
    replace (i + Z.succ (Z.of_nat (length l))) with (i + 1 + Z.of_nat (length l)) by lia.
    eapply IH; [|lia|exact H]. eapply Hf; [lia|done|done].
Qed.

(** The most callbacks an iteration makes. *)
Definition callbacks ctx (s : IncentiveState) (fp : bytes) : Z :=
  Z.of_nat (length (iterB (default ∅ (delTrackers s !! fp)))) +
  Z.of_nat (size (GetRewardTrackerEventsCompiledByBtcDel s (CtxHeight ctx) (λ fpAddr, bool_decide (fpAddr = AccString fp)))).

Lemma iterate_count {T} (P : Z → T → Prop) ctx s fp (it : T → bytes → Z → outcome T) n N a a' :
  (∀ i a del x a', i + 1 ≤ N → P i a → it a del x = Ok a' → P (i + 1) a') → (∀ i j a, i ≤ j → P i a → P j a) →
  P n a → n + callbacks ctx s fp ≤ N → IterateBTCDelegationSatsUpdated ctx s fp it a = Ok a' → P N a'.
Proof using.
  intros Hit Hmono HP HN H. unfold callbacks in HN. unfold IterateBTCDelegationSatsUpdated in H.
  set (ev := GetRewardTrackerEventsCompiledByBtcDel _ _ _) in *. set (l := iterB _) in *.
  apply bind_Ok in H as ([comp a1] & H1 & H).
  assert ((size comp ≤ size ev)%nat ∧ P (n + Z.of_nat (length l)) a1) as [Hsize HP1].
  { refine (foldM_count (λ i (s : gmap string Z * T), (size s.1 ≤ size ev)%nat ∧ P i s.2) _ N l _ n (ev, a) (comp, a1) _ _ H1);
      [|by split|lia].
    intros i [c b] [del tr] [c' b'] Hi [Hs Hb] Hstep. simpl in *. apply bind_Ok in Hstep as (b1 & Hb1 & Hstep). injection Hstep as <- <-.
    split; [|by eapply Hit]. simpl. rewrite map_size_delete. destruct (c !! AccString del); simpl; lia. }
  set (l2 := sort_stable _ _) in H. assert (length l2 = size comp) as Hlen by (unfold l2; by rewrite sort_stable_length, length_map_to_list).
  eapply (Hmono (n + Z.of_nat (length l) + Z.of_nat (length l2))); [lia|].
  refine (foldM_count P _ N l2 _ (n + Z.of_nat (length l)) a1 a' HP1 _ H); [|lia].
  intros i b [d x] b' Hi Hb Hstep. simpl in Hstep. destruct (AccFromBech32 d); [|done]. by eapply Hit.
Qed.

Lemma iterate_good m n k ctx fp f w w' : 1 ≤ n → n + k < 2 ^ 64 → callbacks ctx (w_inc w) fp ≤ k → (∀ x, amounts_only (f x)) →
  both_ok m n w →
  IterateBTCDelegationSatsUpdated ctx (w_inc w) fp (λ w del x, st_run (costakerModified vd del (f x)) w) w = Ok w' →
  both_ok m (n + k) w'.
Proof using SL SSL KL KP.
  intros H1 Hn Hk Hf Hok H.
  refine (proj2 (iterate_count (λ i w, 1 ≤ i ∧ both_ok m i w) ctx (w_inc w) fp _ n (n + k) w w' _ _ (conj H1 Hok) _ H)); [| |lia].
  - intros i a del x a' Hi [Hi1 Ha] Hrun. split; [lia|]. eapply st_run_Ok; [|exact Hrun]. apply costakerModified_spec; [by apply Hf|done|done|lia].
  - intros i j a Hij [Hi1 Ha]. split; [lia|]. by eapply both_ok_mono.
Qed.

(** *** Steps of the module

    A hook of the staking module that fails is undone, but for the cache, which
    lives in memory. *)
Definition undo {A} w (res : CoWorld * outcome A) : CoWorld :=
  match res.2 with Ok _ => res.1 | _ => set_co w (set_stkCache (co w) (stkCache (co res.1))) end.

Inductive co_step : Z → CoWorld → CoWorld → Prop :=
  | co_begin ctx (stk : S) votes w w' : st_run (BeginBlocker_costaking vd ctx stk votes) w = Ok w' → co_step 0 w w'
  | co_end w w' : st_run EndBlocker_costaking w = Ok w' → co_step 0 w w'
  | co_update_params auth req p w w' : st_run (UpdateParams_co vd auth req p) w = Ok w' → co_step 2 w w'
  | co_unbonded ctx fp del prev cur sats w w' :
      AfterBtcDelegationUnbonded (costaking_finality_hooks vd) ctx w fp del prev cur sats = Ok w' → co_step 1 w w'
  | co_activated ctx fp del prev cur sats w w' :
      AfterBtcDelegationActivated (costaking_finality_hooks vd) ctx w fp del prev cur sats = Ok w' → co_step 1 w w'
  | co_fp_enters k ctx fp w w' : 0 ≤ k → callbacks ctx (w_inc w) fp ≤ k →
      AfterBbnFpEntersActiveSet (costaking_finality_hooks vd) ctx w fp = Ok w' → co_step k w w'
  | co_fp_removed k ctx fp w w' : 0 ≤ k → callbacks ctx (w_inc w) fp ≤ k →
      AfterBbnFpRemovedFromActiveSet (costaking_finality_hooks vd) ctx w fp = Ok w' → co_step k w w'
  | co_shares_modified ctx (stk : S) del val w : co_step 1 w (undo w (BeforeDelegationSharesModified_co ctx stk del val w))
  | co_delegation_modified ctx (stk : S) del val w : co_step 1 w (undo w (AfterDelegationModified_co vd ctx stk del val w))
  | co_delegation_removed ctx (stk : S) del val w : co_step 1 w (undo w (BeforeDelegationRemoved_co vd ctx stk del val w))
  | co_slashed k ctx (stk : S) val fraction w : 0 ≤ k →
      (∀ dels, GetValidatorDelegations stk val = Ok dels → Z.of_nat (length dels) ≤ k) →
      co_step k w (undo w (BeforeValidatorSlashed_co vd ctx stk val fraction w))
  | co_epoch_begins (stk : S) w w' : st_run (AfterEpochBegins_co stk) w = Ok w' → co_step 0 w w'
  | co_before_epoch_ends ctx w w' : st_run (BeforeEpochEnds_co ctx) w = Ok w' → co_step 0 w w'
  | co_epoch_ends k ctx (stk : S) w w' : 0 ≤ k → epoch_bounds ctx stk w k →
      st_run (AfterEpochEnds_co vd ctx stk) w = Ok w' → co_step k w w'.

Lemma undo_good m n k {A} (c : St CoWorld A) w : 0 ≤ k → keeps m n k c → both_ok m n w → both_ok m (n + k) (undo w (c w)).
Proof using.
  intros Hk Hc Hok. specialize (Hc w Hok). unfold runs, undo in *. destruct (c w) as [w' [a|e|e]]; [done| |];
    (apply both_ok_rest; [done..|]; eapply both_ok_mono, Hok; lia).
Qed.

Lemma keeps_run m n k (c : St CoWorld unit) w w' : keeps m n k c → both_ok m n w → st_run c w = Ok w' → both_ok m (n + k) w'.
Proof using. intros Hc Hok. eapply st_run_Ok. by apply Hc. Qed.

Lemma keeps_if m n k (b : bool) (c : St CoWorld unit) : 0 ≤ k → keeps m n k c → keeps m n k (if b then st_ret tt else c).
Proof using. intros Hk Hc. destruct b; [by apply keeps_ret|done]. Qed.

Lemma co_step_cost k w w' : co_step k w w' → 0 ≤ k.
Proof using. by destruct 1. Qed.

Lemma co_step_good m n k w w' : both_ok m n w → 1 ≤ n → n + k < 2 ^ 64 → co_step k w w' → both_ok m (n + k) w'.
Proof using SL SSL KL KP.
  intros Hok H1 Hn Hstep. destruct Hstep.
  - rewrite Z.add_0_r. eapply st_run_Ok; [|exact H]. unfold BeginBlocker_costaking.
    destruct (_ <=? 0); [done|]. by apply HandleCoins_good.
  - eapply keeps_run; [apply keeps_cache|done|exact H].
  - eapply st_run_Ok; [|exact H]. by apply UpdateParams_good.
  - simpl in H. unfold AfterBtcDelegationUnbonded_co in H. eapply keeps_run; [|done|exact H]. apply keeps_if; [done|]. by apply keeps_modified.
  - simpl in H. unfold AfterBtcDelegationActivated_co in H. eapply keeps_run; [|done|exact H]. apply keeps_if; [done|]. by apply keeps_modified.
  - simpl in H2. eapply (iterate_good m n k ctx fp addSats); [done|done|done|done|done|exact H2].
  - simpl in H2. eapply (iterate_good m n k ctx fp (λ x, addSats (- x))); [done|done|done|done|done|exact H2].
  - apply (both_ok_mono m (n + 0)); [lia|]. apply undo_good; [done|apply keeps_shares_modified|done].
  - apply undo_good; [done|by apply keeps_delegation_modified|done].
  - apply undo_good; [done|by apply keeps_delegation_removed|done].
  - apply undo_good; [done|by apply keeps_slashed|done].
  - eapply keeps_run; [|done|exact H]. unfold AfterEpochBegins_co. apply keeps_get. intros c. destruct (validatorSet c); [by apply keeps_ret|].
    apply keeps_catch, keeps_lift; [done|]. intros new _. apply keeps_update_set.
  - eapply keeps_run; [|done|exact H]. apply keeps_catch, keeps_seq; [apply keeps_active_set|done|]. intros s. by apply keeps_ret.
  - eapply st_run_Ok; [|exact H2]. by apply epochEnds_good.
Qed.

(** *** What this module promises to the incentive module *)

Definition co_rest_ok (n : Z) (b : B) (x : CostakingState * D) : Prop :=
  state_ok n x.1 ∧ ∀ d, state_owed x.1 d ≤ balance b CostakingModule d * DecimalRewards.

Lemma co_rest_mono n m b x : n ≤ m → co_rest_ok n b x → co_rest_ok m b x.
Proof using. intros Hle [Hs Ho]. split; [by eapply state_ok_mono|done]. Qed.

Lemma co_rest_bank n b b' x : (∀ a d, a ≠ IncentiveModule → a ≠ FeeCollector → balance b a d ≤ balance b' a d) →
  co_rest_ok n b x → co_rest_ok n b' x.
Proof using.
  intros Hb [Hs Ho]. split; [done|]. intros d. specialize (Ho d). pose proof (Hb CostakingModule d ltac:(done) ltac:(done)).
  pose proof DecimalRewards_pos. nia.
Qed.

Lemma co_hook_good n w t a w' err : solvent n w → co_rest_ok n (w_bank w) (w_rest w) → 1 ≤ n → n + 1 < 2 ^ 64 →
  @BeforeRewardWithdraw B _ (costaking_incentive_hooks vd) w t a = Ok (w', err) →
  solvent n w' ∧ co_rest_ok (n + 1) (w_bank w') (w_rest w').
Proof using SL SSL KL KP.
  intros Hs Hr H1 Hn. simpl. assert (runs (BeforeRewardWithdraw_co vd t a) w (λ w' _, both_ok n (n + 1) w') (both_ok n (n + 1))) as Hrun.
  { assert (both_ok n n w) as Hok by (split; [done|exact Hr]). unfold BeforeRewardWithdraw_co.
    destruct (negb _); [|by apply withdraw_spec]. unfold runs. simpl. eapply both_ok_mono, Hok. lia. }
  unfold runs in Hrun. destruct (BeforeRewardWithdraw_co vd t a w) as [w1 [[]|e|e]]; intros H; simplify_eq; destruct Hrun; by split.
Qed.

Lemma co_step_rest n k w w' : solvent n w → co_rest_ok n (w_bank w) (w_rest w) → 1 ≤ n → n + k < 2 ^ 64 → co_step k w w' →
  solvent n w' ∧ co_rest_ok (n + k) (w_bank w') (w_rest w').
Proof using SL SSL KL KP. intros Hs Hr H1 Hn Hstep. by destruct (co_step_good n n k w w' (conj Hs Hr) H1 Hn Hstep). Qed.

Definition costaking_laws : IncentiveHooksLaws B (CostakingState * D) (costaking_incentive_hooks vd) := {|
  rest_ok := co_rest_ok;
  rest_step := co_step;
  rest_ok_mono := co_rest_mono;
  rest_ok_bank := co_rest_bank;
  BeforeRewardWithdraw_law := co_hook_good;
  rest_step_cost := co_step_cost;
  rest_step_law := co_step_rest
|}.

(** C18: Solvency of the costaking module together with the incentive module.
    Whatever sequence of operations of both modules runs (fees, changes of
    satoshis and of BABY reported by the hooks of the finality, staking and
    epoching modules, also where errors are only logged, changes of the score
    ratio, withdrawals through the incentive module), the costaking account
    holds, in every denomination, what is accumulated for the pool plus what is
    owed to each costaker, and the incentive account everything its gauges and
    trackers owe; the score of the pool is the sum of the scores, and each score
    is the minimum of the satoshis and of the BABY divided by the ratio in force.
    [k] bounds the reward periods that end: the counters are uint64. *)
Theorem costaking_covers_rewards {M : Type} (kind : M → MsgKind) (HashMsg : M → bytes) n k w w' :
  module_ok (HL := costaking_laws) n w → 1 ≤ n → n + k < 2 ^ 64 →
  inc_run (HK := costaking_incentive_hooks vd) (HL := costaking_laws) (kind := kind) (HashMsg := HashMsg) k w w' →
  (∀ d, state_owed (co w') d ≤ balance (w_bank w') CostakingModule d * DecimalRewards) ∧
  (∀ d, liabilities (w_inc w') d ≤ balance (w_bank w') IncentiveModule d * DecimalRewards) ∧
  ∀ r, currentRewards (co w') = Some r →
    cr_TotalScore r = sum_map (λ _ tr, ct_TotalScore tr) (costakerRewardsTracker (co w')) ∧
    ∀ a tr p ratio, costakerRewardsTracker (co w') !! a = Some tr → co_params (co w') = Some p → ScoreRatioBtcByBaby p = Some ratio →
      ct_TotalScore tr = Z.min (ct_ActiveSatoshis tr) (ct_ActiveBaby tr `quot` ratio) ∧ 0 ≤ ct_TotalScore tr.
Proof using SL SSL KL KP.
  intros Hok H1 Hn Hrun. destruct (inc_run_ok (HL := costaking_laws) k w w' Hrun n Hok H1 Hn) as [Hs [[Hv Hst] Ho]].
  split_and!; [exact Ho|apply Hs|]. intros r Hr. unfold co in Hr. rewrite Hr in Hst. destruct Hst as [Hb Htot Hsc].
  split; [exact Htot|]. intros a tr p ratio Ha Hp Hx. split; [|by apply (bo_trk _ _ _ Hb a tr)].
  apply (Hsc ratio a tr); [by exists p|done].
Qed.

(** A payment after the two truncations, against the exact amount; [R] is scaled
    already. *)
Lemma scaled_payout_bounds Dd x R T : 0 ≤ Dd → 0 ≤ x → x ≤ DecimalRewards → 0 ≤ R → 0 < T →
  let p := (Dd + x * (R `quot` T)) `quot` DecimalRewards in
  p * (DecimalRewards * T) ≤ Dd * T + x * R < (p + 2) * (DecimalRewards * T).
Proof using.
  intros HD Hx HxD HR HT. pose proof DecimalRewards_pos as HDR. set (N := DecimalRewards) in *. cbv zeta.
  rewrite (Z.quot_div_nonneg R) by lia. assert (0 ≤ R / T) by (apply Z.div_pos; lia).
  rewrite Z.quot_div_nonneg by nia. set (q := R / T) in *.
  pose proof (Z.div_mod R T ltac:(lia)) as Eq. pose proof (Z.mod_pos_bound R T HT). fold q in Eq. set (s := R mod T) in *.
  set (p := (Dd + x * q) / N). pose proof (Z.div_mod (Dd + x * q) N ltac:(lia)) as Er.
  pose proof (Z.mod_pos_bound (Dd + x * q) N HDR). fold p in Er. set (k := (Dd + x * q) mod N) in *.
  assert (Dd * T + x * R = p * (N * T) + (k * T + x * s)) as -> by nia. nia.
Qed.

(** What a costaker has accrued when a period ends, in units of
    [1 / DecimalRewards] of a coin: from the periods that ended before, and its
    share, by score, of the rewards of the current one. *)
Definition accrued_co (c : CostakingState) (r : CurrentRewards) (tr : CostakerRewardsTracker) (d : string) : Z :=
  due c r d tr + ct_TotalScore tr * (AmountOf (cr_Rewards r) d `quot` cr_TotalScore r).

(** C19: Accuracy of a costaker's payment. When both modules are solvent, the pool
    has a score and the period counter, below [n], stays a uint64, a costaker with
    a score of at most 10^20 whose rewards the incentive module asks for (and gets
    without an error) has accrued, in each coin, what it was owed from ended
    periods plus its share, by score, of the rewards of the current period. The
    whole part of what it has accrued is never above the exact amount and never
    below it by two coins or more. Exactly this whole part moves from the
    costaking to the incentive account in every coin, and is credited to the
    costaker's gauge in every coin, unless it has accrued less than one whole
    coin, but not nothing, in some denomination: then its gauge is not credited
    at all, in any coin. Either way it is then owed nothing, its amounts and its
    score stay, and so do the other costakers. *)
Theorem costaker_payment_accuracy m n w a w' r tr :
  both_ok m n w → 1 ≤ n → n + 1 < 2 ^ 64 → currentRewards (co w) = Some r → costakerRewardsTracker (co w) !! a = Some tr →
  0 < cr_TotalScore r → ct_TotalScore tr ≤ DecimalRewards →
  @BeforeRewardWithdraw B _ (costaking_incentive_hooks vd) w COSTAKER a = Ok (w', None) →
  let earned := accrued_co (co w) r tr in
  (∀ d, let exact := due (co w) r d tr * cr_TotalScore r + ct_TotalScore tr * AmountOf (cr_Rewards r) d in
        let unit := DecimalRewards * cr_TotalScore r in
        earned d `quot` DecimalRewards * unit ≤ exact < (earned d `quot` DecimalRewards + 2) * unit) ∧
  (∀ d, balance (w_bank w') CostakingModule d = balance (w_bank w) CostakingModule d - earned d `quot` DecimalRewards) ∧
  (∀ d, balance (w_bank w') IncentiveModule d = balance (w_bank w) IncentiveModule d + earned d `quot` DecimalRewards) ∧
  ((∀ d, 0 < earned d → DecimalRewards ≤ earned d) →
     ∀ d, gaugeOf (w_inc w') COSTAKER a d = gaugeOf (w_inc w) COSTAKER a d + earned d `quot` DecimalRewards) ∧
  ((∃ d, 0 < earned d < DecimalRewards) → ∀ d, gaugeOf (w_inc w') COSTAKER a d = gaugeOf (w_inc w) COSTAKER a d) ∧
  currentRewards (co w') = Some (mkCurrentRewards [] (cr_Period r + 1) (cr_TotalScore r)) ∧
  costakerRewardsTracker (co w') =
    <[a := mkCostaker (cr_Period r) (ct_ActiveSatoshis tr) (ct_ActiveBaby tr) (ct_TotalScore tr)]> (costakerRewardsTracker (co w)).
Proof using SL SSL KL KP.
  intros Hok H1 Hn Hr Ha HT Hx H earned. destruct (both_ok_good m n w r Hok Hr) as [Hg Ho]. pose proof (pg_base _ _ _ Hg) as Hb.
  pose proof (bo_period _ _ _ Hb) as Hp. destruct (bo_trk _ _ _ Hb a tr Ha) as (Hsat & Hbaby & Hs0 & Hst).
  cbn [BeforeRewardWithdraw costaking_incentive_hooks] in H.
  assert (∀ d, 0 ≤ earned d) as Hnn.
  { intros d. apply Z.add_nonneg_nonneg; [by apply (due_nonneg n _ _ _ a)|]. apply Z.mul_nonneg_nonneg; [done|].
    apply Z.quot_pos; [by apply AmountOf_nonneg, Hb|done]. }
  assert (costakerWithdrawRewards vd a w = (w', Ok tt)) as Hw.
  { unfold BeforeRewardWithdraw_co in H. rewrite bool_decide_eq_true_2 in H by done. simpl in H.
    destruct (costakerWithdrawRewards vd a w) as [x [[]|e|e]]; by simplify_eq. }
  clear H. pattern w'. match goal with |- ?Q w' => refine (runs_Ok _ w w' tt (λ x _, Q x) (λ _, True) _ Hw) end. clear w' Hw. unfold costakerWithdrawRewards, costakerModifiedScoreWithPreInitalization.
  apply runs_bind. eapply runs_mono; [by apply (increment_some n)| |done]. intros w1 e (-> & h & -> & Hh & Hamt).
  set (c1 := ended_state (co w) r h). pose proof (period_base n (co w) r h Hb Hh Hamt) as Hb1. fold c1 in Hb1.
  assert (∀ d, dueOf_co c1 (ended_rewards r) d a = earned d) as Hdue.
  { intros d. unfold dueOf_co, part. change (costakerRewardsTracker c1) with (costakerRewardsTracker (co w)). rewrite Ha. simpl.
    unfold c1. rewrite (period_due n (co w) r h Hb Hamt d a tr Ha). unfold per_score. destruct (Z.eqb_spec (cr_TotalScore r) 0); [lia|done]. }
  apply runs_bind. eapply runs_mono; [| |done].
  { replace (cr_Period r) with (cr_Period (ended_rewards r) - 1) by (simpl; lia).
    apply (pay_exact m (n + 1)); [apply Hok|exact Hb1|]. intros d. change (owed c1 (ended_rewards r) d ≤ account w d).
    etrans; [apply (period_owed n); [done|done|left; apply Hg]|apply Ho]. }
  intros w2 u (Hco & _ & rw & _ & Hrd & Hout & Hin & Hgauge). change (co (set_co w c1)) with c1 in *. apply runs_bind. eapply runs_eq; [done|].
  eapply runs_eq; [apply (initialize_spec w2 (ended_rewards r) a tr); [simpl; lia|by rewrite Hco|by rewrite Hco]|].
  apply (rounded_ext _ _ earned) in Hrd; [|intros d; symmetry; apply Hdue].
  pose proof (rounded_credit _ _ _ DecimalRewards_pos Hnn Hrd) as [Hall Hnone]. pose proof (proj2 (proj2 Hrd)) as Hrw. split_and!.
  - intros d. apply scaled_payout_bounds; [by apply (due_nonneg n _ _ _ a)|done|done|by apply AmountOf_nonneg, Hb|done].
  - intros d. rewrite <- Hrw. apply Hout.
  - intros d. rewrite <- Hrw. apply Hin.
  - intros Hcoins d. rewrite <- (Hall Hcoins d). apply Hgauge.
  - intros Hex d. etrans; [apply Hgauge|]. rewrite (Hnone Hex). apply Z.add_0_r.
  - done.
  - simpl. rewrite Hco. simpl. by replace (cr_Period r + 1 - 1) with (cr_Period r) by lia.
Qed.

End keeper.

(** ** An example *)

Definition sort_coins (c : Coins) : Coins := sort_stable (λ x y, string_less x.1 y.1) c.

Definition simple_safe_coins : SdkSafeCoins := {|
  coinsSafeSub a b := Some (sort_coins (coins_norm (coins_merge Z.sub a b)),
    negb (bool_decide (map_Forall (λ _ z, 0 ≤ z) (coins_merge Z.sub a b))));
  CoinsIsValid c := bool_decide (Forall (λ x : string * Z, 0 < x.2) c)
|}.

Lemma sort_coins_sorted c : NoDup (denoms c) → StronglySorted (λ x y, string_less x y = true) (denoms (sort_coins c)).
Proof.
  intros Hnd. unfold sort_coins.
  pose proof (sort_stable_sorted (λ x y : string * Z, string_less x.1 y.1)) as Hs.
  specialize (Hs (λ x y, string_less_asym x.1 y.1) (λ x y z, string_less_neg_trans x.1 y.1 z.1) c).
  assert (NoDup (denoms (sort_stable (λ x y : string * Z, string_less x.1 y.1) c))) as Hnd2 by (unfold denoms; by rewrite sort_stable_perm).
  revert Hs Hnd2. generalize (sort_stable (λ x y : string * Z, string_less x.1 y.1) c). intros l Hs.
  induction Hs as [|x l Hl IH Hx]; [constructor|]. unfold denoms in *. rewrite fmap_cons. intros [Hnotin Hnd2]%NoDup_cons.
  constructor; [by apply IH|]. apply Forall_forall. intros d (y & -> & Hy)%list_elem_of_fmap.
  pose proof (proj1 (Forall_forall _ _) Hx y Hy) as Hxy. unfold may_precede in Hxy. destruct (string_less x.1 y.1) eqn:E; [done|].
  exfalso. apply Hnotin. rewrite (string_less_total x.1 y.1) by done. by apply list_elem_of_fmap_2.
Qed.

Lemma simple_safe_laws : SdkSafeCoinsLaws simple_safe_coins.
Proof.
  split; [|done]. simpl. intros a b c neg Ha Hb [= <- <-].
  assert (∀ d, default 0 (coins_merge Z.sub a b !! d) = AmountOf a d - AmountOf b d) as Hamt by (intros; by apply coins_merge_amount).
  split.
  - rewrite negb_true_iff, bool_decide_eq_false. split.
    + intros Hn. destruct (decide (Forall (λ d, AmountOf b d ≤ AmountOf a d) (denoms b))) as [Hall|Hex].
      * exfalso. apply Hn, coins_merge_nonneg; [done|]. intros d. destruct (decide (d ∈ denoms b)) as [Hin|Hnin].
        -- rewrite Forall_forall in Hall. specialize (Hall d Hin). lia.
        -- assert (AmountOf b d = 0) as -> by (unfold AmountOf; by rewrite not_elem_of_list_to_map_1).
           pose proof (AmountOf_nonneg a d Ha). lia.
      * apply not_Forall_Exists, Exists_exists in Hex as (d & _ & Hd); [|intros d; apply _]. exists d. simpl in Hd. lia.
    + intros (d & Hd) Hall. specialize (Hamt d). destruct (coins_merge Z.sub a b !! d) as [z|] eqn:E; simpl in Hamt; [|lia].
      pose proof (Hall d z E) as Hz. simpl in Hz. lia.
  - intros Hn. apply negb_false_iff, bool_decide_eq_true in Hn. destruct (coins_norm_pos _ Hn) as [Hnd Hpos].
    assert (sort_coins (coins_norm (coins_merge Z.sub a b)) ≡ₚ coins_norm (coins_merge Z.sub a b)) as Hperm by apply sort_stable_perm.
    split_and!; [split|by apply sort_coins_sorted|].
    + unfold denoms. by rewrite Hperm.
    + by rewrite Hperm.
    + intros d. rewrite <- Hamt, <- coins_norm_amount. unfold AmountOf. f_equal. f_equal. apply list_to_map_proper; [|done].
      unfold denoms in Hnd. by rewrite Hperm.
Qed.

Lemma simple_bank_pays vd : BankPays SimpleBank simple_bank vd.
Proof.
  split. intros b from to c e _ Hle H. revert H. unfold balance in Hle. simpl in *. unfold bank_sub.
  rewrite bool_decide_eq_true_2; [done|]. apply coins_merge_nonneg; [done|]. intros d. specialize (Hle d). lia.
Qed.

Module CostakingExample.
#[local] Existing Instances simple_coins simple_coins_laws simple_safe_coins simple_safe_laws simple_bank simple_bank_laws simple_bank_pays hex_addresses.
#[local] Instance hex_val : ValBech32 := {| ValString := hex_encode; ValFromBech32 := hex_decode |}.

(** One validator with one share per token, where every account has delegated
    20000 tokens. *)
#[local] Instance one_validator : StakingKeeper unit := {|
  GetDelegation _ d _ := Ok (mkSdkDelegation (AccString d) (20000 * DecOne));
  GetValidatorDelegations _ _ := Ok [];
  LastValidatorPowers _ := Ok [];
  ValidatorByConsAddr _ _ := Ok None;
  GetSdkValidator _ a := Ok (mkSdkValidator (ValString a) 20000 (20000 * DecOne) 0);
  SharesToTokens _ x := Ok x
|}.
#[local] Instance no_distribution : DistributionKeeper unit := {|
  DecCoins := Coins;
  NewDecCoinsFromCoins c := c;
  DecCoinsMulDecTruncate c _ := Ok c;
  AllocateTokensToValidator d _ _ := Ok d
|}.

Definition any : string → bool := λ _, true.
Definition del : bytes := replicate 20 x02.
Definition val : bytes := replicate 20 x03.
Definition genesis : Ctx := mkCtx 0 [] 0.
Definition ctx : Ctx := mkCtx 1 [] 0.

Definition w0 : World SimpleBank (CostakingState * unit) :=
  mkWorld empty_incentive DefaultIncentiveParams {[FeeCollector := list_to_map [("ubbn"%string, 1000)]]}
    (set_co_params empty_costaking (Some DefaultCostakingParams), tt).
(** 100 satoshis of an active provider, then 20000 BABY: a score of 100. *)
Definition w1 := get_ok w0 (AfterBtcDelegationActivated (costaking_finality_hooks any) ctx w0 [] del true true 100).
Definition w2 := undo w1 (AfterDelegationModified_co any genesis tt del val w1).
Definition w3 := get_ok w2 (st_run (BeginBlocker_costaking any ctx tt []) w2).
Definition r4 := get_ok (w3, []) (WithdrawReward (HK := costaking_incentive_hooks any) w3 "costaker" (AccString del)).

Definition laws : IncentiveHooksLaws SimpleBank (CostakingState * unit) (costaking_incentive_hooks any) := costaking_laws (S := unit) any.

Lemma co_w0_ok : module_ok (HL := laws) 1 w0.
Proof.
  split; [split_and!|].
  - apply tracker_wf_empty.
  - intros x. simpl. intros [[= <-]|[= <-]]; done.
  - intros d. change (w_inc w0) with empty_incentive. rewrite liabilities_empty.
    pose proof (AmountOf_nonneg _ d (bank_coins_ok (w_bank w0) IncentiveModule)) as Hb. pose proof DecimalRewards_pos.
    apply Z.mul_nonneg_nonneg; [exact Hb|lia].
  - split; [split|].
    + simpl. intros p [= <-]. vm_compute. reflexivity.
    + done.
    + intros d. change (state_owed _ d) with 0.
      pose proof (AmountOf_nonneg _ d (bank_coins_ok (w_bank w0) CostakingModule)) as Hb. pose proof DecimalRewards_pos.
      apply Z.mul_nonneg_nonneg; [exact Hb|lia].
Qed.

Lemma co_example_run : inc_run (HK := costaking_incentive_hooks any) (HL := laws) (kind := λ _ : unit, KindOther) (HashMsg := λ _, [])
  (1 + (1 + (0 + (2 + 0)))) w0 r4.1.
Proof.
  apply (run_step (HL := laws) 1 _ w0 w1).
  { apply (step_rest (HL := laws)). apply (co_activated any ctx [] del true true 100). unfold w1. apply is_ok_get. vm_compute. reflexivity. }
  apply (run_step (HL := laws) 1 _ w1 w2).
  { apply (step_rest (HL := laws)). apply (co_delegation_modified any genesis tt del val w1). }
  apply (run_step (HL := laws) 0 _ w2 w3).
  { apply (step_rest (HL := laws)). apply (co_begin any ctx tt []). unfold w3. apply is_ok_get. vm_compute. reflexivity. }
  apply (run_step (HL := laws) 2 _ w3 r4.1); [|apply run_refl].
  apply (step_withdraw (HL := laws) 2 w3 "costaker" (AccString del) r4.1 r4.2); [done| |].
  - intros a. rewrite AccFromBech32_String. intros [= <-]. apply Z.leb_le. vm_compute. reflexivity.
  - rewrite <- surjective_pairing. unfold r4. apply is_ok_get. vm_compute. reflexivity.
Qed.

(** The state before the withdrawal. *)
Lemma w3_ok : both_ok 3 3 w3.
Proof.
  refine (inc_run_ok (HL := laws) (kind := λ _ : unit, KindOther) (HashMsg := λ _, []) (1 + (1 + (0 + 0))) w0 w3 _ 1 co_w0_ok _ _); [|lia|lia].
  apply (run_step (HL := laws) 1 _ w0 w1).
  { apply (step_rest (HL := laws)). apply (co_activated any ctx [] del true true 100). unfold w1. apply is_ok_get. vm_compute. reflexivity. }
  apply (run_step (HL := laws) 1 _ w1 w2).
  { apply (step_rest (HL := laws)). apply (co_delegation_modified any genesis tt del val w1). }
  apply (run_step (HL := laws) 0 _ w2 w3); [|apply run_refl].
  apply (step_rest (HL := laws)). apply (co_begin any ctx tt []). unfold w3. apply is_ok_get. vm_compute. reflexivity.
Qed.

Definition r5 := get_ok (w3, None) (@BeforeRewardWithdraw _ _ (costaking_incentive_hooks any) w3 COSTAKER del).

Lemma costaker_payment_accuracy_witness :
  (∀ d, balance (w_bank r5.1) CostakingModule d = balance (w_bank w3) CostakingModule d - (if decide (d = "ubbn"%string) then 531 else 0)) ∧
  (∀ d, gaugeOf (w_inc r5.1) COSTAKER del d = gaugeOf (w_inc w3) COSTAKER del d + (if decide (d = "ubbn"%string) then 531 else 0)).
Proof.
  assert (∃ r, currentRewards (co w3) = Some r ∧ cr_TotalScore r = 100 ∧ cr_Rewards r = [("ubbn"%string, 531 * DecimalRewards)] ∧
    ∃ tr, costakerRewardsTracker (co w3) !! del = Some tr ∧ ct_TotalScore tr = 100 ∧ ∀ d, due (co w3) r d tr = 0) as (r & Hr & HT & HR & tr & Htr & Hs & Hd).
  { eexists. split; [vm_compute; reflexivity|]. split; [reflexivity|]. split; [vm_compute; reflexivity|].
    eexists. split; [vm_compute; reflexivity|]. split; [reflexivity|]. intros d. vm_compute. reflexivity. }
  assert (∀ d, accrued_co (co w3) r tr d = if decide (d = "ubbn"%string) then 531 * DecimalRewards else 0) as Hacc.
  { intros d. unfold accrued_co. rewrite Hd, Hs, HT, HR. unfold AmountOf. cbn [list_to_map foldr].
    case_decide as E; [subst d; rewrite lookup_insert_eq|rewrite lookup_insert_ne by (intros E'; exact (E (eq_sym E'))); rewrite lookup_empty]; vm_compute; reflexivity. }
  destruct (costaker_payment_accuracy any 3 3 w3 del r5.1 r tr w3_ok ltac:(lia) ltac:(lia) Hr Htr ltac:(lia) ltac:(rewrite Hs; done)) as (_ & Hout & _ & Hall & _).
  - vm_compute. reflexivity.
  - assert (∀ d, accrued_co (co w3) r tr d `quot` DecimalRewards = if decide (d = "ubbn"%string) then 531 else 0) as Hq
      by (intros d; rewrite Hacc; case_decide; vm_compute; reflexivity).
    split; intros d; rewrite <- Hq; [apply Hout|apply Hall].
    intros d'. rewrite Hacc. case_decide; intros ?; [vm_compute; discriminate|lia].
Defined.

Lemma costaking_covers_rewards_witness :
  r4.2 = [("ubbn"%string, 531)] ∧
  (∀ d, state_owed (co r4.1) d ≤ balance (w_bank r4.1) CostakingModule d * DecimalRewards) ∧
  ct_TotalScore <$> costakerRewardsTracker (co r4.1) !! del = Some 100.
Proof.
  split; [vm_compute; reflexivity|]. split; [|vm_compute; reflexivity].
  exact (proj1 (costaking_covers_rewards (S := unit) any (λ _ : unit, KindOther) (λ _, []) 1 (1 + (1 + (0 + (2 + 0)))) w0 r4.1 co_w0_ok
    ltac:(lia) ltac:(lia) co_example_run)).
Defined.

End CostakingExample.
