(* ===== verification/Checkpoints.v ===== *)
(** * x/checkpointing: checkpoints of epochs

    The validators sign the last block of each epoch with BLS keys; a checkpoint
    aggregates their signatures. The file translates crypto/bls12381/bls.go,
    x/checkpointing/types (types.go, utils.go, checkpoint.go, val_bls_set.go,
    bls_key.go, pop.go) and x/checkpointing/keeper (keeper.go, ckpt_state.go,
    registration_state.go, val_bls_set.go, genesis.go, genesis_bls.go), with
    abci.go.

    The pairing library, the hooks of other modules and the bitmaps enter as
    classes. *)

From S2P Require Import Prelude Bytes Store BbnTypes Coins TxFormatter Epochs.

(** ** crypto/bls12381 *)

(** [github.com/supranational/blst]: compressed points; verification checks the
    subgroups and the key, aggregation fails on a string that is no point. *)
Class Blst := {
  VerifyCompressed : bytes → bytes → bytes → string → bool;      (* sig, pk, msg, dst *)
  AggregateCompressedSigs : list bytes → option bytes;
  AggregateCompressedPks : list bytes → option bytes;
  UncompressPk : bytes → bool
}.

Definition DST : string := "BLS_SIG_BLS12381G1_XMD:SHA-256_SSWU_RO_NUL_".
Definition DST_POP : string := "BLS_POP_BLS12381G1_XMD:SHA-256_SSWU_RO_POP_".
Definition SignatureSize : nat := 48.
Definition PubKeySize : nat := 96.

Section bls.
Context {BL : Blst}.

Definition BlsVerify (sig pk msg : bytes) : outcome bool := Ok (VerifyCompressed sig pk msg DST).
Definition PopVerify (sig pk msg : bytes) : outcome bool := Ok (VerifyCompressed sig pk msg DST_POP).
Definition GetPopSignMsg (blsPk data : bytes) : bytes := blsPk ++ data.
Definition AggrSigList (sigs : list bytes) : outcome bytes :=
  match AggregateCompressedSigs sigs with
  | Some s => Ok s
  | None => Err (Errorf "failed to aggregate bls signatures")
  end.
Definition AggrPKList (pks : list bytes) : outcome bytes :=
  match AggregateCompressedPks pks with
  | Some p => Ok p
  | None => Err (Errorf "failed to aggregate bls public keys")
  end.
(** A nil slice is [None]. *)
Definition AggrSig (existingSig : option bytes) (newSig : bytes) : outcome bytes :=
  match existingSig with None => Ok newSig | Some s => AggrSigList [s; newSig] end.
Definition AggrPK (existingPK : option bytes) (newPK : bytes) : outcome bytes :=
  match existingPK with None => Ok newPK | Some p => AggrPKList [p; newPK] end.
Definition VerifyMultiSig (sig : bytes) (pks : list bytes) (msg : bytes) : outcome bool :=
  aggPk ← AggrPKList pks; BlsVerify sig aggPk msg.

Definition Signature_Unmarshal (data : bytes) : outcome bytes :=
  if negb (length data =? SignatureSize)%nat then Err (Errorf "invalid BLS signature length") else Ok data.
Definition PublicKey_Unmarshal (data : bytes) : outcome bytes :=
  if negb (length data =? PubKeySize)%nat then Err (Errorf "invalid BLS public key length") else Ok data.
Definition PublicKey_ValidateBasic (pk : bytes) : outcome unit :=
  if negb (length pk =? PubKeySize)%nat then Err (Errorf "invalid BLS public key length")
  else if UncompressPk pk then Ok tt else Err (Errorf "invalid BLS public key point on the bls12-381 curve").

End bls.

(** ** Data *)

Inductive CheckpointStatus := Accumulating | Sealed | CkSubmitted | CkConfirmed | CkFinalized.
#[global] Instance CheckpointStatus_eq_dec : EqDecision CheckpointStatus.
Proof. solve_decision. Defined.

Record RawCheckpoint := mkRawCkpt {
  rc_EpochNum : Z;
  rc_BlockHash : option bytes;
  rc_Bitmap : option bytes;
  rc_BlsMultiSig : option bytes
}.
Record CheckpointStateUpdate := mkStateUpdate { csu_State : CheckpointStatus; csu_BlockHeight : Z; csu_BlockTime : Z }.
Record RawCheckpointWithMeta := mkCkptMeta {
  cm_Ckpt : RawCheckpoint;
  cm_Status : CheckpointStatus;
  cm_BlsAggrPk : option bytes;
  cm_PowerSum : Z;
  cm_Lifecycle : list CheckpointStateUpdate
}.
#[global] Instance RawCheckpoint_eq_dec : EqDecision RawCheckpoint.
Proof. solve_decision. Defined.

Definition HashSize : nat := 32.
Definition BitmapBits : nat := 104.

(** The generated [Equal]: a nil pointer on the left of a non-nil one is
    dereferenced; bitmaps are compared as strings of bytes. *)
Definition ptr_Equal (this that : option bytes) : outcome bool :=
  match that, this with
  | None, _ => Ok (bool_decide (this = None))
  | Some b, Some a => Ok (bool_decide (a = b))
  | Some _, None => Panic (Errorf "nil pointer dereference")
  end.
Definition RawCheckpoint_Equal (this that : RawCheckpoint) : outcome bool :=
  if negb (rc_EpochNum this =? rc_EpochNum that) then Ok false
  else
    h ← ptr_Equal (rc_BlockHash this) (rc_BlockHash that);
    if negb h then Ok false
    else if negb (bool_decide (default [] (rc_Bitmap this) = default [] (rc_Bitmap that))) then Ok false
    else ptr_Equal (rc_BlsMultiSig this) (rc_BlsMultiSig that).

Definition GetSignBytes (epoch : Z) (hash : bytes) : bytes := Uint64ToBigEndian epoch ++ hash.

Definition BlockHash_Unmarshal (bz : bytes) : outcome bytes :=
  if negb (length bz =? HashSize)%nat then Err (Errorf "invalid block hash length") else Ok bz.

Definition FromBTCCkptToRawCkpt (btcCkpt : RawBtcCheckpoint) : outcome RawCheckpoint :=
  blockHash ← BlockHash_Unmarshal (rbc_BlockHash btcCkpt);
  blsSig ← Signature_Unmarshal (rbc_BlsSig btcCkpt);
  Ok (mkRawCkpt (rbc_Epoch btcCkpt) (Some blockHash) (Some (rbc_BitMap btcCkpt)) (Some blsSig)).

Definition RawCheckpoint_ValidateBasic (ckpt : RawCheckpoint) : outcome unit :=
  match rc_Bitmap ckpt, rc_BlockHash ckpt with
  | None, _ => Err ErrInvalidRawCheckpoint
  | Some _, None => Err ErrInvalidRawCheckpoint
  | Some _, Some h =>
    if negb (length h =? HashSize)%nat then Err ErrInvalidRawCheckpoint
    else match rc_BlsMultiSig ckpt with
         | None => Err ErrInvalidRawCheckpoint
         | Some sig => if negb (length sig =? SignatureSize)%nat then Err ErrInvalidRawCheckpoint else Ok tt
         end
  end.

(** [(epoch, block hash, multi-signature, bitmap)] before [tmhash.Sum]. *)
Definition RawCheckpoint_HashInput (m : RawCheckpoint) : bytes :=
  Uint64ToBigEndian (rc_EpochNum m) ++ default [] (rc_BlockHash m) ++ default [] (rc_BlsMultiSig m) ++ default [] (rc_Bitmap m).

Definition RecordStateUpdate (ctx : Ctx) (cm : RawCheckpointWithMeta) (status : CheckpointStatus) : RawCheckpointWithMeta :=
  mkCkptMeta (cm_Ckpt cm) (cm_Status cm) (cm_BlsAggrPk cm) (cm_PowerSum cm)
    (cm_Lifecycle cm ++ [mkStateUpdate status (CtxHeight ctx) (HeaderTime ctx)]).
Definition setStatus (cm : RawCheckpointWithMeta) (status : CheckpointStatus) : RawCheckpointWithMeta :=
  mkCkptMeta (cm_Ckpt cm) status (cm_BlsAggrPk cm) (cm_PowerSum cm) (cm_Lifecycle cm).

(** A validator with its key; the set of an epoch. *)
Record ValidatorWithBlsKey := mkValBls { vb_ValidatorAddress : string; vb_BlsPubKey : bytes; vb_VotingPower : Z }.

Section types.
Context {BL : Blst} {BM : GoBitmap}.

Definition NewCheckpoint (epochNum : Z) (blockHash : bytes) : RawCheckpoint :=
  mkRawCkpt epochNum (Some blockHash) (Some (bitmap_New BitmapBits)) None.
Definition NewCheckpointWithMeta (ckpt : RawCheckpoint) (status : CheckpointStatus) : RawCheckpointWithMeta :=
  mkCkptMeta ckpt status None 0 [].

(** An index beyond the bitmap panics. *)
Definition bitmapGet (bm : bytes) (i : Z) : outcome bool :=
  if (0 <=? i) && (i <? Z.of_nat (bitmap_Len bm)) then Ok (bitmap_Get bm (Z.to_nat i)) else Panic (Errorf "index out of range").

(** The checkpoint is updated in place: a failure to aggregate the keys comes after
    the new signature is in. The result is the checkpoint and the error. *)
Definition Accumulate (cm : RawCheckpointWithMeta) (vals : ValidatorSet) (signerAddr signerBlsKey sig : bytes) (totalPower : Z)
    : outcome (RawCheckpointWithMeta * option error) :=
  if negb (bool_decide (cm_Status cm = Accumulating)) then Ok (cm, Some ErrCkptNotAccumulating)
  else match FindValidatorWithIndex vals signerAddr with
  | Panic e => Panic e
  | Err e => Ok (cm, Some e)
  | Ok (val, index) =>
    let bm := default [] (rc_Bitmap (cm_Ckpt cm)) in
    voted ← bitmapGet bm index;
    if (voted : bool) then Ok (cm, Some ErrCkptAlreadyVoted)
    else match AggrSig (rc_BlsMultiSig (cm_Ckpt cm)) sig with
    | Panic e => Panic e
    | Err e => Ok (cm, Some e)
    | Ok aggSig =>
      let withSig bitmap := mkRawCkpt (rc_EpochNum (cm_Ckpt cm)) (rc_BlockHash (cm_Ckpt cm)) bitmap (Some aggSig) in
      match AggrPK (cm_BlsAggrPk cm) signerBlsKey with
      | Panic e => Panic e
      | Err e =>
        Ok (mkCkptMeta (withSig (rc_Bitmap (cm_Ckpt cm))) (cm_Status cm) (cm_BlsAggrPk cm) (cm_PowerSum cm) (cm_Lifecycle cm), Some e)
      | Ok aggPK =>
        let powerSum := u64 (cm_PowerSum cm + u64 (val_Power val)) in
        let status := if i64 (totalPower * 2) <? i64 (i64 powerSum * 3) then Sealed else cm_Status cm in
        Ok (mkCkptMeta (withSig (Some (bitmap_Set bm (Z.to_nat index) true))) status (Some aggPK) powerSum (cm_Lifecycle cm), None)
      end
    end
  end.

Definition FindSubsetWithPowerSum (ks : list ValidatorWithBlsKey) (bm : bytes) : outcome (list ValidatorWithBlsKey * Z) :=
  if (bitmap_Len bm <? length ks)%nat then Err (Errorf "bitmap is not large enough to contain the validator set")
  else
    let sub := omap (λ i, if bitmap_Get bm i then ks !! i else None) (seq 0 (length ks)) in
    Ok (sub, foldl (λ acc v, u64 (acc + vb_VotingPower v)) 0 sub).
Definition BlsSet_GetTotalPower (ks : list ValidatorWithBlsKey) : Z := foldl (λ acc v, u64 (acc + vb_VotingPower v)) 0 ks.

(** [ProofOfPossession.IsValid]: the two signatures; [ed25519] verifies with the
    consensus key. *)
Record ProofOfPossession := mkPop { pop_Ed25519Sig : bytes; pop_BlsSig : bytes }.
Definition Pop_IsValid (ed25519Verify : bytes → bytes → bytes → bool) (pop : ProofOfPossession) (blsPubkey valPubkey : bytes) : bool :=
  if negb (VerifyCompressed (pop_BlsSig pop) blsPubkey (GetPopSignMsg blsPubkey (pop_Ed25519Sig pop)) DST_POP) then false
  else ed25519Verify valPubkey blsPubkey (pop_Ed25519Sig pop).

End types.

(** ** The state *)

Record CkptState := mkCkptState {
  ck_checkpoints : gmap Z RawCheckpointWithMeta;
  ck_addrToBlsKeys : gmap bytes bytes;
  ck_blsKeysToAddr : gmap bytes bytes;
  ck_valBlsSets : gmap Z (list ValidatorWithBlsKey);
  ck_lastFinalized : option Z;
  ck_conflicting : bool
}.
Definition with_ckpts (m : gmap Z RawCheckpointWithMeta) (s : CkptState) : CkptState :=
  mkCkptState m (ck_addrToBlsKeys s) (ck_blsKeysToAddr s) (ck_valBlsSets s) (ck_lastFinalized s) (ck_conflicting s).

(** *** keeper/ckpt_state.go *)

Definition CreateRawCkptWithMeta (s : CkptState) (cm : RawCheckpointWithMeta) : outcome CkptState :=
  let epoch := rc_EpochNum (cm_Ckpt cm) in
  match ck_checkpoints s !! epoch with
  | Some _ => Err ErrCkptAlreadyExist
  | None => Ok (with_ckpts (<[epoch := cm]> (ck_checkpoints s)) s)
  end.
Definition GetRawCheckpoint (s : CkptState) (epoch : Z) : outcome RawCheckpointWithMeta :=
  match ck_checkpoints s !! epoch with Some cm => Ok cm | None => Err ErrCkptDoesNotExist end.
Definition UpdateCheckpoint (s : CkptState) (cm : RawCheckpointWithMeta) : outcome CkptState :=
  _ ← GetRawCheckpoint s (rc_EpochNum (cm_Ckpt cm));
  Ok (with_ckpts (<[rc_EpochNum (cm_Ckpt cm) := cm]> (ck_checkpoints s)) s).

(** *** keeper/registration_state.go *)

Definition GetBlsPubKey (s : CkptState) (addr : bytes) : outcome bytes :=
  match ck_addrToBlsKeys s !! addr with
  | None => Err ErrBlsKeyDoesNotExist
  | Some raw => PublicKey_Unmarshal raw
  end.
Definition GetValAddr (s : CkptState) (key : bytes) : outcome bytes :=
  match ck_blsKeysToAddr s !! key with Some a => Ok a | None => Err ErrValAddrDoesNotExist end.
Definition CreateRegistration (s : CkptState) (key valAddr : bytes) : outcome CkptState :=
  let registered := match GetBlsPubKey s valAddr with Ok k => negb (bool_decide (k = key)) | _ => false end in
  if registered then Err ErrBlsKeyAlreadyExist
  else match ck_blsKeysToAddr s !! key with
       | Some addr =>
         if negb (bool_decide (addr = valAddr)) then Err ErrBlsKeyAlreadyExist
         else Ok (mkCkptState (ck_checkpoints s) (<[valAddr := key]> (ck_addrToBlsKeys s)) (<[key := valAddr]> (ck_blsKeysToAddr s))
                    (ck_valBlsSets s) (ck_lastFinalized s) (ck_conflicting s))
       | None => Ok (mkCkptState (ck_checkpoints s) (<[valAddr := key]> (ck_addrToBlsKeys s)) (<[key := valAddr]> (ck_blsKeysToAddr s))
                    (ck_valBlsSets s) (ck_lastFinalized s) (ck_conflicting s))
       end.

(** *** The last finalised epoch and the flag *)

Definition CkGetLastFinalizedEpoch (s : CkptState) : Z := default 0 (ck_lastFinalized s).
Definition SetLastFinalizedEpoch (s : CkptState) (epoch : Z) : CkptState :=
  mkCkptState (ck_checkpoints s) (ck_addrToBlsKeys s) (ck_blsKeysToAddr s) (ck_valBlsSets s) (Some epoch) (ck_conflicting s).
Definition SetConflictingCheckpointReceived (s : CkptState) (value : bool) : CkptState :=
  mkCkptState (ck_checkpoints s) (ck_addrToBlsKeys s) (ck_blsKeysToAddr s) (ck_valBlsSets s) (ck_lastFinalized s) value.

(** *** keeper/val_bls_set.go *)

Definition CkClearValidatorSet (s : CkptState) (epochNumber : Z) : CkptState :=
  mkCkptState (ck_checkpoints s) (ck_addrToBlsKeys s) (ck_blsKeysToAddr s) (delete epochNumber (ck_valBlsSets s))
    (ck_lastFinalized s) (ck_conflicting s).

(** ** Other modules

    [M] is the state of the other modules, of which the epoching module's is read;
    the hooks are called with it. A hook returns the state it leaves and its error. *)
Class EpochingKeeper (M : Type) := { ek_epoching : M → EpochingState }.
Class CheckpointingHooks (M : Type) := {
  AfterBlsKeyRegistered : Ctx → M → bytes → outcome (M * option error);
  AfterRawCheckpointSealed : Ctx → M → Z → outcome (M * option error);
  AfterRawCheckpointConfirmed : Ctx → M → Z → outcome (M * option error);
  AfterRawCheckpointForgotten : Ctx → M → RawCheckpoint → outcome (M * option error);
  AfterRawCheckpointFinalized : Ctx → M → Z → outcome (M * option error);
  AfterRawCheckpointBlsSigVerified : Ctx → M → RawCheckpoint → outcome (M * option error)
}.

Section keeper.
Context {BL : Blst} {BM : GoBitmap} {VA : ValBech32} {M : Type} {EK : EpochingKeeper M} {CH : CheckpointingHooks M}.

(** A hook whose error is only logged. *)
Definition logged (m : M) (r : outcome (M * option error)) : outcome M :=
  match r with Ok (m', _) => Ok m' | Err _ => Ok m | Panic e => Panic e end.

(** *** keeper/val_bls_set.go, [GetBLSPubKeySet] *)

Definition blsKeysOf (s : CkptState) (vals : ValidatorSet) : outcome (list ValidatorWithBlsKey) :=
  foldM (λ acc v, k ← GetBlsPubKey s (val_Addr v); Ok (acc ++ [mkValBls (ValString (val_Addr v)) k (u64 (val_Power v))])) [] vals.
Definition GetBLSPubKeySet (s : CkptState) (m : M) (epochNumber : Z) : outcome (list ValidatorWithBlsKey) :=
  blsKeysOf s (GetValidatorSet (ek_epoching m) epochNumber).
Definition InitValidatorBLSSet (s : CkptState) (m : M) : outcome CkptState :=
  epoch ← GetEpoch (ek_epoching m);
  valBlsSet ← blsKeysOf s (GetValidatorSet (ek_epoching m) (EpochNumber epoch));
  Ok (mkCkptState (ck_checkpoints s) (ck_addrToBlsKeys s) (ck_blsKeysToAddr s) (<[EpochNumber epoch := valBlsSet]> (ck_valBlsSets s))
        (ck_lastFinalized s) (ck_conflicting s)).
Definition GetValidatorBlsKeySet (s : CkptState) (epochNumber : Z) : list ValidatorWithBlsKey :=
  default [] (ck_valBlsSets s !! epochNumber).

(** *** Verification *)

Record BlsSig := mkBlsSig {
  bs_EpochNum : Z; bs_BlockHash : option bytes; bs_BlsSig : option bytes; bs_SignerAddress : string; bs_ValidatorAddress : string }.
Definition deref (p : option bytes) : outcome bytes :=
  match p with Some b => Ok b | None => Panic (Errorf "nil pointer dereference") end.

Definition VerifyBLSSig (s : CkptState) (sig : BlsSig) : outcome unit :=
  match ValFromBech32 (bs_SignerAddress sig) with
  | None => Err ErrInvalidAddress
  | Some signerAddr =>
    signerBlsKey ← GetBlsPubKey s signerAddr;
    blockHash ← deref (bs_BlockHash sig);
    blsSig ← deref (bs_BlsSig sig);
    ok ← BlsVerify blsSig signerBlsKey (GetSignBytes (bs_EpochNum sig) blockHash);
    if (ok : bool) then Ok tt else Err ErrInvalidBlsSignature
  end.

(** The signers' keys and the sum of their powers. *)
Definition signersOf (s : CkptState) (signerSet : ValidatorSet) : outcome (list bytes * Z) :=
  foldM (λ acc v, k ← GetBlsPubKey s (val_Addr v); Ok (acc.1 ++ [k], i64 (acc.2 + val_Power v))) ([], 0) signerSet.

Definition VerifyRawCheckpoint (s : CkptState) (m : M) (ckpt : RawCheckpoint) : outcome unit :=
  totalPower ← GetTotalVotingPower (ek_epoching m) (rc_EpochNum ckpt);
  signerSet ← FindSubset (GetValidatorSet (ek_epoching m) (rc_EpochNum ckpt)) (default [] (rc_Bitmap ckpt));
  ks ← signersOf s signerSet;
  if i64 (ks.2 * 3) <=? i64 (totalPower * 2) then Err ErrInvalidRawCheckpoint
  else
    blockHash ← deref (rc_BlockHash ckpt);
    multiSig ← deref (rc_BlsMultiSig ckpt);
    ok ← VerifyMultiSig multiSig ks.1 (GetSignBytes (rc_EpochNum ckpt) blockHash);
    if (ok : bool) then Ok tt else Err ErrInvalidRawCheckpoint.

(** *** Sealing *)

Definition BuildRawCheckpoint (ctx : Ctx) (s : CkptState) (epochNum : Z) (blockHash : bytes) : outcome (CkptState * RawCheckpointWithMeta) :=
  let cm := RecordStateUpdate ctx (NewCheckpointWithMeta (NewCheckpoint epochNum blockHash) Accumulating) Accumulating in
  s' ← CreateRawCkptWithMeta s cm; Ok (s', cm).

(** The lifecycle entry of the status is recorded on the argument after it has been
    stored, for the event only. *)
Definition SealCheckpoint (ctx : Ctx) (s : CkptState) (m : M) (cm : RawCheckpointWithMeta) : outcome (CkptState * M) :=
  if negb (bool_decide (cm_Status cm = Sealed)) then Err (Errorf "the checkpoint is not Sealed")
  else
    _ ← VerifyRawCheckpoint s m (cm_Ckpt cm);
    s' ← CreateRawCkptWithMeta s cm;
    m' ← logged m (AfterRawCheckpointSealed ctx m (rc_EpochNum (cm_Ckpt cm)));
    Ok (s', m').

(** *** Checkpoints reported from Bitcoin *)

(** The hook's error is wrapped and returned, with the state it leaves. *)
Definition recordVerified (ctx : Ctx) (m : M) (ckpt : RawCheckpoint) : outcome (M * option error) :=
  match AfterRawCheckpointBlsSigVerified ctx m ckpt with
  | Err e => Ok (m, Some e)
  | r => r
  end.

(** The checks before the hook fail with [Err]; from the hook on, the state of the
    other modules comes with the checkpoint or the error. *)
Definition verifyCkptBytes (ctx : Ctx) (s : CkptState) (m : M) (rawCheckpoint : RawBtcCheckpoint)
    : outcome (M * (RawCheckpointWithMeta + error)) :=
  ckpt ← FromBTCCkptToRawCkpt rawCheckpoint;
  _ ← RawCheckpoint_ValidateBasic ckpt;
  cm ← GetRawCheckpoint s (rc_EpochNum ckpt);
  same ← RawCheckpoint_Equal (cm_Ckpt cm) ckpt;
  if (same : bool) && negb (bool_decide (cm_Status cm = Accumulating))
  then
    r ← recordVerified ctx m ckpt;
    match r with (m', Some e) => Ok (m', inr e) | (m', None) => Ok (m', inl cm) end
  else
    _ ← VerifyRawCheckpoint s m ckpt;
    r ← recordVerified ctx m ckpt;
    match r with
    | (m', Some e) => Ok (m', inr e)
    | (m', None) =>
      mine ← deref (rc_BlockHash (cm_Ckpt cm));
      theirs ← deref (rc_BlockHash ckpt);
      if bool_decide (mine = theirs) then Ok (m', inl cm) else Ok (m', inr ErrConflictingCheckpoint)
    end.

(** [errors.Is(err, types.ErrConflictingCheckpoint)] *)
Definition isConflict (e : error) : bool := match e with ErrConflictingCheckpoint => true | _ => false end.

(** The states after the call, and its error. *)
Definition VerifyCheckpoint (ctx : Ctx) (s : CkptState) (m : M) (checkpoint : RawBtcCheckpoint)
    : outcome (CkptState * M * option error) :=
  match verifyCkptBytes ctx s m checkpoint with
  | Ok (m', inl _) => Ok (s, m', None)
  | Ok (m', inr e) =>
    Ok (if isConflict e then SetConflictingCheckpointReceived s true else s, m', Some e)
  | Err e => Ok (s, m, Some e)
  | Panic e => Panic e
  end.

(** *** Status *)

Definition validateCheckpointStatus (cm : RawCheckpointWithMeta) (allowedStatuses : list CheckpointStatus) : outcome unit :=
  if bool_decide (cm_Status cm ∈ allowedStatuses) then Ok tt else Err ErrInvalidCkptStatus.
Definition setCheckpointStatus (ctx : Ctx) (s : CkptState) (epoch : Z) (expectedStatus : list CheckpointStatus) (to : CheckpointStatus)
    : outcome (CkptState * RawCheckpointWithMeta) :=
  cm ← GetRawCheckpoint s epoch;
  _ ← validateCheckpointStatus cm expectedStatus;
  let cm := RecordStateUpdate ctx (setStatus cm to) to in
  s' ← must (UpdateCheckpoint s cm);
  Ok (s', cm).

(** A failure is logged and changes nothing. *)
Definition SetCheckpointSubmitted (ctx : Ctx) (s : CkptState) (epoch : Z) : outcome CkptState :=
  match setCheckpointStatus ctx s epoch [Sealed] CkSubmitted with
  | Ok (s', _) => Ok s'
  | Err _ => Ok s
  | Panic e => Panic e
  end.
Definition SetCheckpointConfirmed (ctx : Ctx) (s : CkptState) (m : M) (epoch : Z) : outcome (CkptState * M) :=
  match setCheckpointStatus ctx s epoch [CkSubmitted] CkConfirmed with
  | Ok (s', _) => m' ← logged m (AfterRawCheckpointConfirmed ctx m epoch); Ok (s', m')
  | Err _ => Ok (s, m)
  | Panic e => Panic e
  end.
Definition SetCheckpointFinalized (ctx : Ctx) (s : CkptState) (m : M) (epoch : Z) : outcome (CkptState * M) :=
  match setCheckpointStatus ctx s epoch [CkConfirmed] CkFinalized with
  | Ok (s', _) =>
    let s' := SetLastFinalizedEpoch s' epoch in
    m' ← logged m (AfterRawCheckpointFinalized ctx m epoch); Ok (s', m')
  | Err _ => Ok (s, m)
  | Panic e => Panic e
  end.
Definition SetCheckpointForgotten (ctx : Ctx) (s : CkptState) (m : M) (epoch : Z) : outcome (CkptState * M) :=
  match setCheckpointStatus ctx s epoch [CkSubmitted; CkConfirmed] Sealed with
  | Ok (s', cm) => m' ← logged m (AfterRawCheckpointForgotten ctx m (cm_Ckpt cm)); Ok (s', m')
  | Err _ => Ok (s, m)
  | Panic e => Panic e
  end.

(** *** abci.go *)

Definition BeginBlocker_checkpointing (ctx : Ctx) (s : CkptState) (m : M) : outcome CkptState :=
  epoch ← GetEpoch (ek_epoching m);
  if IsFirstBlock epoch ctx then must (InitValidatorBLSSet s m) else Ok s.
Definition EndBlocker_checkpointing (s : CkptState) : outcome unit :=
  if ck_conflicting s then Panic ErrConflictingCheckpoint else Ok tt.

End keeper.

(** ** Genesis (genesis.go, keeper/genesis.go, keeper/genesis_bls.go) *)

Record GenesisKey := mkGenesisKey {
  gk_ValidatorAddress : string; gk_BlsPubkey : bytes; gk_Pop : ProofOfPossession; gk_ValPubkey : bytes }.
Record CkptGenesis := mkCkptGenesis {
  cg_GenesisKeys : list GenesisKey;
  cg_ValidatorSets : list (Z * list ValidatorWithBlsKey);
  cg_Checkpoints : list RawCheckpointWithMeta;
  cg_LastFinalizedEpoch : Z
}.

Section genesis.
Context {BL : Blst} {VA : ValBech32} (ed25519Verify : bytes → bytes → bytes → bool).

Definition Registration_Exists (s : CkptState) (addr : bytes) : bool := bool_decide (is_Some (ck_addrToBlsKeys s !! addr)).
Definition SetGenBlsKeys (s : CkptState) (genKeys : list GenesisKey) : outcome CkptState :=
  foldM (λ s key,
    match ValFromBech32 (gk_ValidatorAddress key) with
    | None => Err ErrInvalidAddress
    | Some addr =>
      if Registration_Exists s addr then Err (Errorf "a validator's BLS key has already been registered")
      else if negb (Pop_IsValid ed25519Verify (gk_Pop key) (gk_BlsPubkey key) (gk_ValPubkey key))
      then Err (Errorf "Proof-of-Possession is not valid")
      else match CreateRegistration s (gk_BlsPubkey key) addr with
           | Ok s' => Ok s'
           | Err _ => Err (Errorf "failed to register a BLS key")
           | Panic e => Panic e
           end
    end) s genKeys.
Definition InitGenesis_checkpointing (s : CkptState) (gs : CkptGenesis) : outcome CkptState :=
  let s := mkCkptState (ck_checkpoints s) (ck_addrToBlsKeys s) (ck_blsKeysToAddr s)
             (foldl (λ m (e : Z * list ValidatorWithBlsKey), <[e.1 := e.2]> m) (ck_valBlsSets s) (cg_ValidatorSets gs))
             (ck_lastFinalized s) (ck_conflicting s) in
  s ← foldM CreateRawCkptWithMeta s (cg_Checkpoints gs);
  SetGenBlsKeys (SetLastFinalizedEpoch s (cg_LastFinalizedEpoch gs)) (cg_GenesisKeys gs).

(** The exported keys have neither the consensus key nor the proof of possession:
    the pairs of address and key. *)
Definition GetBlsKeys (s : CkptState) : outcome (list (string * bytes)) :=
  foldM (λ acc (kv : bytes * bytes), blsKey ← PublicKey_Unmarshal kv.1; Ok (acc ++ [(ValString kv.2, blsKey)])) [] (iterB (ck_blsKeysToAddr s)).
Definition ExportGenesis_checkpointing (s : CkptState)
    : outcome (list (string * bytes) * list (Z * list ValidatorWithBlsKey) * list RawCheckpointWithMeta * Z) :=
  keys ← GetBlsKeys s;
  Ok (keys, iterZ (ck_valBlsSets s), snd <$> iterZ (ck_checkpoints s), CkGetLastFinalizedEpoch s).

End genesis.
