(* ===== verification/Monitor.v ===== *)
(** * x/monitor: Bitcoin heights of epoch ends and checkpoint reports

    The module records the height of the Bitcoin light client when an epoch ends
    and when a checkpoint is first reported, in one KV store with a prefix for
    each table. The file translates x/monitor/keeper (keeper.go, hooks.go,
    genesis.go, grpc_query.go), types (keys.go, genesis.go) and genesis.go, with
    the hash of a checkpoint of x/checkpointing/types/utils.go. The module's
    hooks are an instance of the hooks the checkpointing module calls.

    [tmhash.Sum] of CometBFT is a section variable; all the theorems rely on is
    that a digest has 32 bytes. *)

From S2P Require Import Prelude Bytes Store BbnTypes LightClient Epochs Checkpoints.

(** ** types/keys.go *)

Definition EpochEndLightClientHeightPrefix : bytes := [x01].
Definition CheckpointReportedLightClientHeightPrefix : bytes := [x02].

Definition GetEpochEndLightClientHeightKey (e : Z) : bytes :=
  EpochEndLightClientHeightPrefix ++ Uint64ToBigEndian e.
Definition FromStringToCkptHash (s : string) : outcome bytes :=
  match hex_decode s with Some b => Ok b | None => Err (Errorf "encoding/hex: invalid") end.
Definition GetCheckpointReportedLightClientHeightKey (hashString : string) : outcome bytes :=
  match FromStringToCkptHash hashString with
  | Ok hashBytes => Ok (CheckpointReportedLightClientHeightPrefix ++ hashBytes)
  | Err _ => Err (Errorf "invalid hash string")
  | Panic e => Panic e
  end.

(** ** types/genesis.go *)

Record EpochEndLightClient := mkEpochEnd { ee_Epoch : Z; ee_BtcLightClientHeight : Z }.
Record CheckpointReportedLightClient := mkCkptReported { cr_CkptHash : string; cr_BtcLightClientHeight : Z }.
Record MonitorGenesis := mkMonitorGenesis {
  mg_EpochEndRecords : list EpochEndLightClient;
  mg_CheckpointsReported : list CheckpointReportedLightClient }.

Definition DefaultMonitorGenesis : MonitorGenesis := mkMonitorGenesis [] [].

Definition EpochEndLightClient_Validate (e : EpochEndLightClient) : outcome unit :=
  if ee_BtcLightClientHeight e =? 0 then Err (Errorf "BTC light client height cannot be 0") else Ok tt.
Definition CheckpointReported_Validate (c : CheckpointReportedLightClient) : outcome unit :=
  if cr_BtcLightClientHeight c =? 0 then Err (Errorf "BTC light client height cannot be 0")
  else if (String.length (cr_CkptHash c) =? 0)%nat then Err (Errorf "checkpoint hash cannot be empty")
  else match FromStringToCkptHash (cr_CkptHash c) with
       | Ok _ => Ok tt
       | Err _ => Err (Errorf "invalid hash string")
       | Panic e => Panic e
       end.
Definition MonitorGenesis_Validate (gs : MonitorGenesis) : outcome unit :=
  _ ← (if (0 <? length (mg_EpochEndRecords gs))%nat
       then ValidateEntries ee_Epoch EpochEndLightClient_Validate (mg_EpochEndRecords gs) else Ok tt);
  if (0 <? length (mg_CheckpointsReported gs))%nat
  then ValidateEntries cr_CkptHash CheckpointReported_Validate (mg_CheckpointsReported gs) else Ok tt.

(** ** keeper/keeper.go *)

Definition bytesToBtcHeight (heightBytes : bytes) : outcome Z :=
  if negb (length heightBytes =? 8)%nat then Err (Errorf "height bytes must have exactly 8 bytes")
  else
    let heightUint64 := BigEndianToUint64 heightBytes in
    if 2 ^ 32 - 1 <? heightUint64 then Err (Errorf "height should not be higher than math.MaxUint32")
    else Ok (u32 heightUint64).

(** The module's KV store, with the light client and the epochs it runs beside. *)
Abbreviation MonitorStore := (gmap bytes bytes).
Record MonitorWorld := mkMonitorWorld {
  mw_epoching : EpochingState; mw_headers : headersState; mw_store : MonitorStore }.

(** [GetTipInfo(ctx).Height] and [GetBaseBTCHeader(ctx).Height]: a nil header is
    dereferenced. *)
Definition heightOf (h : option BTCHeaderInfo) : outcome Z :=
  match h with Some h => Ok (hi_Height h) | None => Panic (Errorf "nil pointer dereference") end.

Definition updateBtcLightClientHeightForEpoch (w : MonitorWorld) (epoch : Z) : outcome MonitorWorld :=
  currentTipHeight ← heightOf (GetTip (mw_headers w));
  Ok (mkMonitorWorld (mw_epoching w) (mw_headers w)
        (<[GetEpochEndLightClientHeightKey epoch := Uint64ToBigEndian currentTipHeight]> (mw_store w))).

Definition LightclientHeightAtEpochEnd (w : MonitorWorld) (epoch : Z) : outcome Z :=
  if epoch =? 0 then heightOf (BaseHeader (mw_headers w))
  else match mw_store w !! GetEpochEndLightClientHeightKey epoch with
       | None => Err ErrEpochNotEnded
       | Some btcHeightBytes => must (bytesToBtcHeight btcHeightBytes)
       end.

Definition LightclientHeightAtCheckpointReported (w : MonitorWorld) (hashString : string) : outcome Z :=
  storeKey ← GetCheckpointReportedLightClientHeightKey hashString;
  match mw_store w !! storeKey with
  | None => Err ErrCheckpointNotReported
  | Some btcHeightBytes => must (bytesToBtcHeight btcHeightBytes)
  end.

Section monitor.
Context (tmhash_Sum : bytes → bytes).

(** *** x/checkpointing/types/utils.go *)

Definition RawCheckpoint_Hash (m : RawCheckpoint) : outcome bytes :=
  _ ← deref (rc_BlockHash m);
  _ ← deref (rc_BlsMultiSig m);
  Ok (tmhash_Sum (RawCheckpoint_HashInput m)).
Definition HashStr (m : RawCheckpoint) : outcome string :=
  h ← RawCheckpoint_Hash m; Ok (hex_encode h).

(** *** keeper/keeper.go *)

(** The first report of a checkpoint is kept. *)
Definition updateBtcLightClientHeightForCheckpoint (w : MonitorWorld) (ckpt : RawCheckpoint) : outcome MonitorWorld :=
  ckptHashStr ← HashStr ckpt;
  storeKey ← GetCheckpointReportedLightClientHeightKey ckptHashStr;
  match mw_store w !! storeKey with
  | Some _ => Ok w
  | None =>
    currentTipHeight ← heightOf (GetTip (mw_headers w));
    Ok (mkMonitorWorld (mw_epoching w) (mw_headers w) (<[storeKey := Uint64ToBigEndian currentTipHeight]> (mw_store w)))
  end.

Definition removeCheckpointRecord (w : MonitorWorld) (ckpt : RawCheckpoint) : outcome MonitorWorld :=
  ckptHashStr ← HashStr ckpt;
  storeKey ← GetCheckpointReportedLightClientHeightKey ckptHashStr;
  Ok (mkMonitorWorld (mw_epoching w) (mw_headers w) (delete storeKey (mw_store w))).

(** *** keeper/hooks.go *)

(** The epoching hook that does something; the others are empty. *)
Definition AfterEpochEnds_mon (w : MonitorWorld) (epoch : Z) : outcome MonitorWorld :=
  updateBtcLightClientHeightForEpoch w epoch.

Definition noError (r : outcome MonitorWorld) : outcome (MonitorWorld * option error) :=
  w ← r; Ok (w, None).
Definition monitor_checkpointing_hooks : CheckpointingHooks MonitorWorld := {|
  AfterBlsKeyRegistered _ w _ := Ok (w, None);
  AfterRawCheckpointSealed _ w _ := Ok (w, None);
  AfterRawCheckpointConfirmed _ w _ := Ok (w, None);
  AfterRawCheckpointForgotten _ w ckpt := noError (removeCheckpointRecord w ckpt);
  AfterRawCheckpointFinalized _ w _ := Ok (w, None);
  AfterRawCheckpointBlsSigVerified _ w ckpt := noError (updateBtcLightClientHeightForCheckpoint w ckpt)
|}.

End monitor.

(** *** keeper/genesis.go and genesis.go *)

Definition setEpochEnd (store : MonitorStore) (e : EpochEndLightClient) : outcome MonitorStore :=
  Ok (<[GetEpochEndLightClientHeightKey (ee_Epoch e) := Uint64ToBigEndian (ee_BtcLightClientHeight e)]> store).
Definition setReported (store : MonitorStore) (c : CheckpointReportedLightClient) : outcome MonitorStore :=
  k ← GetCheckpointReportedLightClientHeightKey (cr_CkptHash c);
  Ok (<[k := Uint64ToBigEndian (cr_BtcLightClientHeight c)]> store).
Definition InitGenesis_monitor (store : MonitorStore) (gs : MonitorGenesis) : outcome MonitorStore :=
  _ ← must (MonitorGenesis_Validate gs);
  must (store ← foldM setEpochEnd store (mg_EpochEndRecords gs);
        foldM setReported store (mg_CheckpointsReported gs)).

(** The entries of a [prefix.Store], in the order of its iterator, their keys
    without the prefix. *)
Definition strip (prefix : bytes) (kv : bytes * bytes) : option (bytes * bytes) :=
  if bool_decide (take (length prefix) kv.1 = prefix) then Some (drop (length prefix) kv.1, kv.2) else None.
Definition prefixEntries (prefix : bytes) (store : MonitorStore) : list (bytes * bytes) :=
  omap (strip prefix) (iterB store).

Definition toEpochEnd (kv : bytes * bytes) : EpochEndLightClient :=
  mkEpochEnd (BigEndianToUint64 kv.1) (BigEndianToUint64 kv.2).
Definition toReported (kv : bytes * bytes) : CheckpointReportedLightClient :=
  mkCkptReported (hex_encode kv.1) (BigEndianToUint64 kv.2).
Definition epochEndRecords (store : MonitorStore) : outcome (list EpochEndLightClient) :=
  foldM (λ records kv, _ ← EpochEndLightClient_Validate (toEpochEnd kv); Ok (records ++ [toEpochEnd kv]))
    [] (prefixEntries EpochEndLightClientHeightPrefix store).
Definition checkpointsReported (store : MonitorStore) : outcome (list CheckpointReportedLightClient) :=
  foldM (λ ckpts kv, _ ← CheckpointReported_Validate (toReported kv); Ok (ckpts ++ [toReported kv]))
    [] (prefixEntries CheckpointReportedLightClientHeightPrefix store).
Definition ExportGenesis_monitor (store : MonitorStore) : outcome MonitorGenesis :=
  must (es ← epochEndRecords store;
        cs ← checkpointsReported store;
        Ok (mkMonitorGenesis es cs)).

(** ** Lemmas *)

Lemma epoch_key_inj e e' : in_u64 e → in_u64 e' →
  GetEpochEndLightClientHeightKey e = GetEpochEndLightClientHeightKey e' → e = e'.
Proof.
  intros He He' H. apply app_inj_1 in H as [_ H]; [|done]. by apply Uint64ToBigEndian_inj.
Qed.

Lemma reported_key s h : hex_decode s = Some h →
  GetCheckpointReportedLightClientHeightKey s = Ok (x02 :: h).
Proof.
  intros H. unfold GetCheckpointReportedLightClientHeightKey, FromStringToCkptHash. by rewrite H.
Qed.

Lemma bytesToBtcHeight_roundtrip h : in_u32 h → bytesToBtcHeight (Uint64ToBigEndian h) = Ok h.
Proof.
  intros Hh. unfold bytesToBtcHeight. rewrite (be_bytes_length 8). cbn [Nat.eqb negb].
  rewrite BigEndianToUint64_Uint64ToBigEndian by (unfold in_u32, in_u64 in *; lia).
  unfold in_u32 in Hh. rewrite (proj2 (Z.ltb_ge _ _)) by lia. by rewrite u32_small.
Qed.

Lemma must_height h : in_u32 h → must (bytesToBtcHeight (Uint64ToBigEndian h)) = Ok h.
Proof. intros Hh. by rewrite bytesToBtcHeight_roundtrip. Qed.

(** ** The history of the module *)

(** What happens to the module, each event with the state of the light client
    then. *)
Inductive MonitorEvent :=
  | EpochEnded (epoch : Z)
  | Verified (ckpt : RawCheckpoint)
  | Forgotten (ckpt : RawCheckpoint).

Definition ckpt_set (c : RawCheckpoint) : Prop := is_Some (rc_BlockHash c) ∧ is_Some (rc_BlsMultiSig c).
Definition event_ok (ev : MonitorEvent) : Prop :=
  match ev with EpochEnded e => in_u64 e | Verified c | Forgotten c => ckpt_set c end.
(** The light client has a tip, with the height of a uint32. *)
Definition tip_at (hs : headersState) (h : Z) : Prop :=
  ∃ i, GetTip hs = Some i ∧ hi_Height i = h ∧ in_u32 h.
Definition occurs (x : headersState * MonitorEvent) : Prop := (∃ h, tip_at x.1 h) ∧ event_ok x.2.

Definition tipHeight (hs : headersState) : Z := default 0 (hi_Height <$> GetTip hs).

Section history.
Context (tmhash_Sum : bytes → bytes).
Let H (c : RawCheckpoint) : bytes := tmhash_Sum (RawCheckpoint_HashInput c).

(** A history lists its latest event first. The height of an epoch is the one of
    the last time the epoch ended; the height of a checkpoint is the one of the
    first report since it was last forgotten. *)
Fixpoint lastEnd (tr : list (headersState * MonitorEvent)) (e : Z) : option Z :=
  match tr with
  | [] => None
  | (hs, EpochEnded e') :: tr => if e' =? e then Some (tipHeight hs) else lastEnd tr e
  | _ :: tr => lastEnd tr e
  end.
Fixpoint firstReport (tr : list (headersState * MonitorEvent)) (h : bytes) : option Z :=
  match tr with
  | [] => None
  | (hs, Verified c) :: tr =>
    if bool_decide (H c = h) then Some (default (tipHeight hs) (firstReport tr h)) else firstReport tr h
  | (_, Forgotten c) :: tr => if bool_decide (H c = h) then None else firstReport tr h
  | _ :: tr => firstReport tr h
  end.

(** The hooks, called in the order of the history on an empty store. *)
Definition monitor_step (w : MonitorWorld) (x : headersState * MonitorEvent) : outcome MonitorWorld :=
  let w := mkMonitorWorld (mw_epoching w) x.1 (mw_store w) in
  match x.2 with
  | EpochEnded e => AfterEpochEnds_mon w e
  | Verified c => updateBtcLightClientHeightForCheckpoint tmhash_Sum w c
  | Forgotten c => removeCheckpointRecord tmhash_Sum w c
  end.
Fixpoint monitor_run (w : MonitorWorld) (tr : list (headersState * MonitorEvent)) : outcome MonitorWorld :=
  match tr with
  | [] => Ok w
  | x :: tr => w' ← monitor_run w tr; monitor_step w' x
  end.

(** The store holds what the history determines, and nothing else. *)
Record mon_inv (tr : list (headersState * MonitorEvent)) (store : MonitorStore) : Prop := {
  inv_epoch e : in_u64 e → store !! GetEpochEndLightClientHeightKey e = Uint64ToBigEndian <$> lastEnd tr e;
  inv_report h : store !! (x02 :: h) = Uint64ToBigEndian <$> firstReport tr h;
  inv_keys k : is_Some (store !! k) →
    (∃ e, in_u64 e ∧ k = GetEpochEndLightClientHeightKey e) ∨ (∃ c, k = x02 :: H c)
}.

Lemma mon_inv_empty : mon_inv [] ∅.
Proof. split; [done..|]. intros k [v Hv]. exfalso. by apply (lookup_empty_Some (M:=gmap bytes) k v). Qed.

Lemma tip_height hs h : tip_at hs h → heightOf (GetTip hs) = Ok (tipHeight hs) ∧ in_u32 (tipHeight hs).
Proof. intros (i & Hi & <- & Hu). unfold tipHeight. by rewrite Hi. Qed.

Lemma hash_key c : ckpt_set c →
  HashStr tmhash_Sum c = Ok (hex_encode (H c)) ∧
  GetCheckpointReportedLightClientHeightKey (hex_encode (H c)) = Ok (x02 :: H c).
Proof.
  intros [[b Hb] [g Hg]]. split.
  - unfold HashStr, RawCheckpoint_Hash. by rewrite Hb, Hg.
  - apply reported_key, hex_decode_encode.
Qed.

(** The three writes, as changes of the store. *)
Lemma monitor_step_Ok w hs ev : occurs (hs, ev) →
  monitor_step w (hs, ev) = Ok (mkMonitorWorld (mw_epoching w) hs
    match ev with
    | EpochEnded e => <[GetEpochEndLightClientHeightKey e := Uint64ToBigEndian (tipHeight hs)]> (mw_store w)
    | Verified c => match mw_store w !! (x02 :: H c) with
                    | Some _ => mw_store w
                    | None => <[x02 :: H c := Uint64ToBigEndian (tipHeight hs)]> (mw_store w)
                    end
    | Forgotten c => delete (x02 :: H c) (mw_store w)
    end).
Proof.
  intros [[h Ht] Hev]. apply tip_height in Ht as [Ht _]. cbn [fst snd] in *.
  destruct ev as [e|c|c]; unfold monitor_step; cbn [fst snd].
  - unfold AfterEpochEnds_mon, updateBtcLightClientHeightForEpoch. cbn [mw_headers]. by rewrite Ht.
  - apply hash_key in Hev as [Hs Hk]. unfold updateBtcLightClientHeightForCheckpoint.
    rewrite Hs. cbn [mbind outcome_bind]. rewrite Hk. cbn [mbind outcome_bind mw_store mw_headers].
    destruct (mw_store w !! _); [done|]. by rewrite Ht.
  - apply hash_key in Hev as [Hs Hk]. unfold removeCheckpointRecord.
    rewrite Hs. cbn [mbind outcome_bind]. rewrite Hk. done.
Qed.

Lemma epoch_key_ne e h : GetEpochEndLightClientHeightKey e ≠ x02 :: h.
Proof. done. Qed.

Lemma mon_inv_step tr w hs ev w' : occurs (hs, ev) →
  mon_inv tr (mw_store w) → monitor_step w (hs, ev) = Ok w' → mon_inv ((hs, ev) :: tr) (mw_store w').
Proof.
  intros Hx [He Hr Hk] Hstep. rewrite (monitor_step_Ok w) in Hstep by done.
  assert (Hev : event_ok ev) by apply Hx. injection Hstep as <-. cbn [mw_store].
  destruct ev as [e|c|c]; split; cbn [lastEnd firstReport].
  - intros e' He'. destruct (Z.eqb_spec e e') as [->|Hne]; [by rewrite lookup_insert_eq|].
    rewrite lookup_insert_ne by (intros E; apply Hne; by apply epoch_key_inj). auto.
  - intros h. rewrite lookup_insert_ne by apply epoch_key_ne. auto.
  - intros k. destruct (decide (k = GetEpochEndLightClientHeightKey e)) as [->|Hne]; [eauto|].
    rewrite lookup_insert_ne by congruence. auto.
  - intros e' He'. destruct (mw_store w !! (x02 :: H c)); [by auto|].
    rewrite lookup_insert_ne by (symmetry; apply epoch_key_ne). auto.
  - intros h. case_bool_decide as Hh.
    + subst h. rewrite (Hr (H c)) at 1. destruct (firstReport tr (H c)) as [h0|] eqn:E; cbn [fmap option_fmap option_map default].
      * by rewrite Hr, E.
      * by rewrite lookup_insert_eq.
    + destruct (mw_store w !! (x02 :: H c)); [by auto|]. rewrite lookup_insert_ne by congruence. auto.
  - intros k. destruct (mw_store w !! (x02 :: H c)); [by auto|].
    destruct (decide (k = x02 :: H c)) as [->|Hne]; [eauto|]. rewrite lookup_insert_ne by congruence. auto.
  - intros e' He'. rewrite lookup_delete_ne by (symmetry; apply epoch_key_ne). auto.
  - intros h. case_bool_decide as Hh; [subst h; by rewrite lookup_delete_eq|].
    rewrite lookup_delete_ne by congruence. auto.
  - intros k. destruct (decide (k = x02 :: H c)) as [->|Hne]; [eauto|]. rewrite lookup_delete_ne by congruence. auto.
Qed.

Lemma monitor_run_inv w tr : mw_store w = ∅ → Forall occurs tr →
  ∃ w', monitor_run w tr = Ok w' ∧ mon_inv tr (mw_store w').
Proof.
  intros Hw. induction 1 as [|[hs ev] tr Hx _ (w' & Hrun & Hinv)]; cbn [monitor_run].
  { exists w. rewrite Hw. split; [done|apply mon_inv_empty]. }
  rewrite Hrun. cbn [mbind outcome_bind]. eexists. rewrite monitor_step_Ok by done.
  split; [done|]. eapply mon_inv_step; [done..|]. by apply monitor_step_Ok.
Qed.

Lemma lastEnd_u32 tr e h : Forall occurs tr → lastEnd tr e = Some h → in_u32 h ∧ ∃ x, x ∈ tr ∧ h = tipHeight x.1.
Proof.
  induction 1 as [|[hs ev] tr [[h0 Ht] _] _ IH]; [done|]. apply tip_height in Ht as [_ Hu].
  assert (lastEnd tr e = Some h → in_u32 h ∧ ∃ x, x ∈ (hs, ev) :: tr ∧ h = tipHeight x.1) as Hrest.
  { intros E. destruct (IH E) as (? & x & ? & ?). split; [done|]. exists x. split; [by right|done]. }
  destruct ev as [e'|c|c]; cbn [lastEnd]; [|done..]. destruct (_ =? _); [|done].
  intros [=<-]. split; [done|]. exists (hs, EpochEnded e'). split; [by left|done].
Qed.

Lemma firstReport_u32 tr b h : Forall occurs tr → firstReport tr b = Some h → in_u32 h ∧ ∃ x, x ∈ tr ∧ h = tipHeight x.1.
Proof.
  intros Hf. revert h. induction Hf as [|[hs ev] tr [[h0 Ht] _] _ IH]; intros h; [done|]. apply tip_height in Ht as [_ Hu].
  assert (∀ h, firstReport tr b = Some h → in_u32 h ∧ ∃ x, x ∈ (hs, ev) :: tr ∧ h = tipHeight x.1) as Hrest.
  { intros h1 E. destruct (IH h1 E) as (? & x & ? & ?). split; [done|]. exists x. split; [by right|done]. }
  destruct ev as [e'|c|c]; cbn [firstReport]; [auto| |]; case_bool_decide; auto; [|done].
  intros [=<-]. destruct (firstReport tr b) as [h1|]; [by apply Hrest|].
  split; [done|]. exists (hs, Verified c). split; [by left|done].
Qed.

Lemma query_epoch tr w e : Forall occurs tr → mon_inv tr (mw_store w) → in_u64 e → e ≠ 0 →
  LightclientHeightAtEpochEnd w e = match lastEnd tr e with Some h => Ok h | None => Err ErrEpochNotEnded end.
Proof.
  intros Hf Hi He Hne. unfold LightclientHeightAtEpochEnd. rewrite (proj2 (Z.eqb_neq _ _) Hne), (inv_epoch _ _ Hi) by done.
  destruct (lastEnd tr e) as [h|] eqn:E; cbn [fmap option_fmap option_map]; [|done].
  apply must_height. by apply lastEnd_u32 in E as [? _].
Qed.

Lemma query_report tr w s b : Forall occurs tr → mon_inv tr (mw_store w) → hex_decode s = Some b →
  LightclientHeightAtCheckpointReported w s =
    match firstReport tr b with Some h => Ok h | None => Err ErrCheckpointNotReported end.
Proof.
  intros Hf Hi Hs. unfold LightclientHeightAtCheckpointReported. rewrite (reported_key s b) by done.
  cbn [mbind outcome_bind]. rewrite (inv_report _ _ Hi).
  destruct (firstReport tr b) as [h|] eqn:E; cbn [fmap option_fmap option_map]; [|done].
  apply must_height. by apply firstReport_u32 in E as [? _].
Qed.

(** The lowest header of a light client is the one it was started from. *)
Definition base_at (hs : headersState) (i : BTCHeaderInfo) : Prop :=
  headers hs !! hi_Height i = Some i ∧ 0 ≤ hi_Height i ∧ ∀ k, is_Some (headers hs !! k) → hi_Height i ≤ k.

Lemma base_at_BaseHeader hs i : base_at hs i → BaseHeader hs = Some i.
Proof.
  intros (Hi & H0 & Hmin). unfold BaseHeader, forwardHeaders.
  destruct (iterZ (headers hs)) as [|[k j] l] eqn:El.
  { apply iterZ_nil in El. by rewrite El, lookup_empty in Hi. }
  destruct (iterZ_head (headers hs) k j) as [Hj Hk]; [by rewrite El|].
  assert (k = hi_Height i) as -> by (apply Z.le_antisymm; [apply Hk|apply Hmin]; eauto).
  rewrite Hi in Hj. injection Hj as <-. cbn [fmap list_fmap snd]. by rewrite filter_cons_True.
Qed.

(** What the history makes of an epoch number and of a checkpoint's hash. *)
Definition epoch_answer (tr : list (headersState * MonitorEvent)) (base : BTCHeaderInfo) (e : Z) : outcome Z :=
  if e =? 0 then Ok (hi_Height base)
  else match lastEnd tr e with Some h => Ok h | None => Err ErrEpochNotEnded end.
Definition report_answer (tr : list (headersState * MonitorEvent)) (s : string) : outcome Z :=
  match hex_decode s with
  | None => Err (Errorf "invalid hash string")
  | Some b => match firstReport tr b with Some h => Ok h | None => Err ErrCheckpointNotReported end
  end.

(** C31: Along any sequence of ended epochs, verified and forgotten checkpoints, from
    an empty store and with a light client that has a tip, the module never
    fails, and its two queries, made at any later state [hs] of the light client,
    answer what the history says. For an epoch other than 0 it is the height of
    the light client when the epoch (last) ended, and an error when it has not
    ended; for epoch 0 it is the height of the lowest header of the light client,
    whatever the history, so never the error. For a checkpoint hash in
    hexadecimal it is the height at the first report since it was last
    forgotten, and an error when there is none; any other string is refused. *)
Theorem monitor_refines w tr : mw_store w = ∅ → Forall occurs tr →
  ∃ w', monitor_run w tr = Ok w' ∧
    ∀ hs base, base_at hs base →
      let now := mkMonitorWorld (mw_epoching w') hs (mw_store w') in
      (∀ e, in_u64 e → LightclientHeightAtEpochEnd now e = epoch_answer tr base e) ∧
      (∀ s, LightclientHeightAtCheckpointReported now s = report_answer tr s).
Proof.
  intros Hw Hf. destruct (monitor_run_inv w tr Hw Hf) as (w' & Hrun & Hi). exists w'.
  split; [done|]. intros hs base Hb now. split.
  - intros e He. unfold epoch_answer. destruct (Z.eqb_spec e 0) as [->|Hne].
    + unfold LightclientHeightAtEpochEnd. cbn [Z.eqb mw_headers now]. by rewrite (base_at_BaseHeader hs base Hb).
    + by apply query_epoch.
  - intros s. unfold report_answer. destruct (hex_decode s) as [b|] eqn:Es; [by apply query_report|].
    unfold LightclientHeightAtCheckpointReported, GetCheckpointReportedLightClientHeightKey, FromStringToCkptHash.
    by rewrite Es.
Qed.
End history.

(** ** Genesis *)

Lemma elem_of_prefixEntries p store k v : (k, v) ∈ prefixEntries p store ↔ store !! (p ++ k) = Some v.
Proof.
  unfold prefixEntries. rewrite list_elem_of_omap. setoid_rewrite <- elem_of_iterB. split.
  - intros ([k' v'] & Hin & Hs). unfold strip in Hs. cbn [fst snd] in Hs. case_bool_decide as Hp; [|done].
    injection Hs as <- <-. by rewrite <- Hp at 1; rewrite take_drop.
  - intros Hin. exists (p ++ k, v). split; [done|]. unfold strip. cbn [fst snd].
    rewrite take_app_length, drop_app_length. by rewrite bool_decide_true.
Qed.

Lemma prefixEntries_NoDup p store : NoDup (prefixEntries p store).
Proof.
  unfold prefixEntries. assert (Hnd : NoDup (iterB store)) by (eapply NoDup_fmap_1, iterator_NoDup).
  induction (iterB store) as [|[k v] l IH]; [constructor|]. apply NoDup_cons in Hnd as [Hni Hnd].
  cbn [omap list_omap]. destruct (strip p (k, v)) as [[k' v']|] eqn:E; [|auto]. apply NoDup_cons. split; [|auto].
  rewrite list_elem_of_omap. intros ([k2 v2] & Hin & E2). apply Hni.
  unfold strip in E, E2. cbn [fst snd] in E, E2. do 2 (case_bool_decide; [|done]).
  simplify_eq. assert (k = k2) as ->; [|done]. rewrite <- (take_drop (length p) k), <- (take_drop (length p) k2). congruence.
Qed.

Lemma foldM_collect {A B} (f : A → B) (validate : B → outcome unit) l acc :
  Forall (λ x, validate (f x) = Ok tt) l →
  foldM (λ acc x, _ ← validate (f x); Ok (acc ++ [f x])) acc l = Ok (acc ++ (f <$> l)).
Proof.
  intros Hl. revert acc. induction Hl as [|x l Hx _ IH]; intros acc; cbn [foldM].
  { by rewrite app_nil_r. }
  rewrite Hx. cbn [mbind outcome_bind]. rewrite IH. by rewrite <- app_assoc.
Qed.

(** Writes that agree with a store leave that store on their keys. *)
Lemma foldM_restore {A} (f : MonitorStore → A → outcome MonitorStore) (key : A → bytes) (store : MonitorStore) l m :
  (∀ m x, x ∈ l → ∃ v, store !! key x = Some v ∧ f m x = Ok (<[key x := v]> m)) →
  ∃ m', foldM f m l = Ok m' ∧ ∀ k, m' !! k = if decide (k ∈ key <$> l) then store !! k else m !! k.
Proof.
  revert m. induction l as [|x l IH]; intros m Hl; cbn [foldM].
  { exists m. split; [done|]. intros k. by rewrite decide_False by apply not_elem_of_nil. }
  destruct (Hl m x) as (v & Hv & ->); [by left|]. cbn [mbind outcome_bind].
  destruct (IH (<[key x := v]> m)) as (m' & -> & Hm'). { intros m0 y Hy. apply Hl. by right. }
  exists m'. split; [done|]. intros k. rewrite Hm', fmap_cons.
  destruct (decide (k ∈ key <$> l)) as [Hin|Hni]; [by rewrite decide_True by (by right)|].
  destruct (decide (k = key x)) as [->|Hne].
  - rewrite decide_True by (by left). by rewrite lookup_insert_eq.
  - rewrite lookup_insert_ne by done. rewrite decide_False; [done|]. by intros [?|?]%elem_of_cons.
Qed.

(** A store of positive heights under the two kinds of keys. *)
Definition good_store (store : MonitorStore) : Prop :=
  ∀ k v, store !! k = Some v →
    (∃ h, v = Uint64ToBigEndian h ∧ in_u32 h ∧ h ≠ 0) ∧
    ((∃ e, in_u64 e ∧ k = GetEpochEndLightClientHeightKey e) ∨ (∃ b, b ≠ [] ∧ k = x02 :: b)).

Section roundtrip.
Context (store : MonitorStore) (Hgood : good_store store).

Lemma epoch_entry k v : (k, v) ∈ prefixEntries EpochEndLightClientHeightPrefix store →
  ∃ e h, toEpochEnd (k, v) = mkEpochEnd e h ∧ k = Uint64ToBigEndian e ∧ v = Uint64ToBigEndian h ∧ h ≠ 0.
Proof using Hgood.
  rewrite elem_of_prefixEntries. intros Hk. destruct (Hgood _ _ Hk) as [(h & -> & Hh & Hne) [(e & He & E)|(b & _ & E)]]; [|done].
  apply app_inj_1 in E as [_ ->]; [|done]. exists e, h. unfold toEpochEnd. cbn [fst snd].
  rewrite !BigEndianToUint64_Uint64ToBigEndian by (done || (unfold in_u32, in_u64 in *; lia)). done.
Qed.

Lemma report_entry k v : (k, v) ∈ prefixEntries CheckpointReportedLightClientHeightPrefix store →
  ∃ h, toReported (k, v) = mkCkptReported (hex_encode k) h ∧ k ≠ [] ∧ v = Uint64ToBigEndian h ∧ h ≠ 0.
Proof using Hgood.
  rewrite elem_of_prefixEntries. intros Hk. destruct (Hgood _ _ Hk) as [(h & -> & Hh & Hne) [(e & He & E)|(b & Hb & E)]]; [done|].
  apply (app_inj_1 [x02] [x02]) in E as [_ ->]; [|done]. exists h. unfold toReported. cbn [fst snd].
  rewrite BigEndianToUint64_Uint64ToBigEndian by (unfold in_u32, in_u64 in *; lia). done.
Qed.

Lemma hex_encode_nonempty b : b ≠ [] → (String.length (hex_encode b) =? 0)%nat = false.
Proof. by destruct b. Qed.

Definition exported : MonitorGenesis := mkMonitorGenesis
  (toEpochEnd <$> prefixEntries EpochEndLightClientHeightPrefix store)
  (toReported <$> prefixEntries CheckpointReportedLightClientHeightPrefix store).

Lemma epochs_valid : Forall (λ kv, EpochEndLightClient_Validate (toEpochEnd kv) = Ok tt)
  (prefixEntries EpochEndLightClientHeightPrefix store).
Proof using Hgood.
  apply Forall_forall. intros [k v] (e & h & -> & _ & _ & Hh)%epoch_entry.
  unfold EpochEndLightClient_Validate. cbn [ee_BtcLightClientHeight]. by rewrite (proj2 (Z.eqb_neq _ _) Hh).
Qed.

Lemma reports_valid : Forall (λ kv, CheckpointReported_Validate (toReported kv) = Ok tt)
  (prefixEntries CheckpointReportedLightClientHeightPrefix store).
Proof using Hgood.
  apply Forall_forall. intros [k v] (h & -> & Hk & _ & Hh)%report_entry.
  unfold CheckpointReported_Validate, FromStringToCkptHash. cbn [cr_BtcLightClientHeight cr_CkptHash].
  by rewrite (proj2 (Z.eqb_neq _ _) Hh), hex_encode_nonempty, hex_decode_encode.
Qed.

Lemma export_exported : ExportGenesis_monitor store = Ok exported.
Proof using Hgood.
  unfold ExportGenesis_monitor, epochEndRecords, checkpointsReported.
  rewrite (foldM_collect toEpochEnd) by apply epochs_valid. cbn [mbind outcome_bind].
  rewrite (foldM_collect toReported) by apply reports_valid. done.
Qed.

(** Entries with the same key are the same entry. *)
Lemma entries_keys_NoDup {A} (f : bytes * bytes → A) p :
  (∀ x y, x ∈ prefixEntries p store → y ∈ prefixEntries p store → f x = f y → x.1 = y.1) →
  NoDup (f <$> prefixEntries p store).
Proof using.
  intros Hf. apply NoDup_fmap_2_strong; [|apply prefixEntries_NoDup].
  intros [k v] [k' v'] Hx Hy E. assert (k = k') as -> by exact (Hf _ _ Hx Hy E).
  apply elem_of_prefixEntries in Hx, Hy. congruence.
Qed.

Lemma exported_valid : MonitorGenesis_Validate exported = Ok tt.
Proof using Hgood.
  unfold MonitorGenesis_Validate, exported. cbn [mg_EpochEndRecords mg_CheckpointsReported].
  assert (ValidateEntries ee_Epoch EpochEndLightClient_Validate
    (toEpochEnd <$> prefixEntries EpochEndLightClientHeightPrefix store) = Ok tt) as ->.
  { apply ValidateEntries_Ok. split; [|apply Forall_fmap, epochs_valid]. rewrite <- list_fmap_compose.
    apply entries_keys_NoDup. intros [k v] [k' v'] (e & h & E & -> & _)%epoch_entry (e' & h' & E' & -> & _)%epoch_entry.
    unfold compose. rewrite E, E'. cbn [ee_Epoch fst]. congruence. }
  assert (ValidateEntries cr_CkptHash CheckpointReported_Validate
    (toReported <$> prefixEntries CheckpointReportedLightClientHeightPrefix store) = Ok tt) as ->.
  { apply ValidateEntries_Ok. split; [|apply Forall_fmap, reports_valid]. rewrite <- list_fmap_compose.
    apply entries_keys_NoDup. intros [k v] [k' v'] _ _. apply hex_encode_inj. }
  by repeat case_match.
Qed.

Lemma toEpochEnd_epoch e h :
  (Uint64ToBigEndian e, Uint64ToBigEndian h) ∈ prefixEntries EpochEndLightClientHeightPrefix store →
  GetEpochEndLightClientHeightKey (ee_Epoch (toEpochEnd (Uint64ToBigEndian e, Uint64ToBigEndian h))) =
  GetEpochEndLightClientHeightKey e.
Proof using Hgood.
  intros (e' & h' & -> & E & _)%epoch_entry. unfold GetEpochEndLightClientHeightKey. by rewrite E.
Qed.

Lemma import_exported : InitGenesis_monitor ∅ exported = Ok store.
Proof using Hgood.
  unfold InitGenesis_monitor. rewrite exported_valid. cbn [must mbind outcome_bind exported mg_EpochEndRecords mg_CheckpointsReported].
  destruct (foldM_restore setEpochEnd (λ e, GetEpochEndLightClientHeightKey (ee_Epoch e)) store
    (toEpochEnd <$> prefixEntries EpochEndLightClientHeightPrefix store) ∅) as (m1 & -> & H1).
  { intros m x ([k v] & -> & Hin)%list_elem_of_fmap. destruct (epoch_entry k v Hin) as (e & h & -> & -> & -> & _).
    exists (Uint64ToBigEndian h). split; [by apply elem_of_prefixEntries in Hin|done]. }
  cbn [mbind outcome_bind].
  destruct (foldM_restore setReported (λ c, x02 :: default [] (hex_decode (cr_CkptHash c))) store
    (toReported <$> prefixEntries CheckpointReportedLightClientHeightPrefix store) m1) as (m2 & -> & H2).
  { intros m x ([k v] & -> & Hin)%list_elem_of_fmap. destruct (report_entry k v Hin) as (h & -> & _ & -> & _).
    exists (Uint64ToBigEndian h). unfold setReported. cbn [cr_CkptHash cr_BtcLightClientHeight].
    rewrite (reported_key _ k), hex_decode_encode by apply hex_decode_encode.
    split; [by apply elem_of_prefixEntries in Hin|done]. }
  cbn [must]. f_equal. apply map_eq. intros k. rewrite H2, H1.
  case_decide as Hd2; [done|]. case_decide as Hd1; [done|].
  destruct (store !! k) as [v|] eqn:Hk; [|done]. exfalso.
  destruct (Hgood _ _ Hk) as [(h & -> & _) [(e & _ & ->)|(b & _ & ->)]].
  - assert (Hin : (Uint64ToBigEndian e, Uint64ToBigEndian h) ∈ prefixEntries EpochEndLightClientHeightPrefix store)
      by (by apply elem_of_prefixEntries).
    apply Hd1. rewrite <- (toEpochEnd_epoch e h) by done.
    apply (list_elem_of_fmap_2 (λ e, GetEpochEndLightClientHeightKey (ee_Epoch e))), (list_elem_of_fmap_2 toEpochEnd), Hin.
  - assert (Hin : (b, Uint64ToBigEndian h) ∈ prefixEntries CheckpointReportedLightClientHeightPrefix store)
      by (by apply elem_of_prefixEntries).
    apply Hd2. apply list_elem_of_fmap. exists (toReported (b, Uint64ToBigEndian h)).
    split; [|by apply (list_elem_of_fmap_2 toReported)]. unfold toReported. cbn [cr_CkptHash fst]. by rewrite hex_decode_encode.
Qed.
End roundtrip.

Section genesis.
Context (tmhash_Sum : bytes → bytes) (tmhash_length : ∀ b, length (tmhash_Sum b) = 32%nat).

Lemma mon_inv_good tr store : Forall occurs tr → Forall (λ x, 0 < tipHeight x.1) tr →
  mon_inv tmhash_Sum tr store → good_store store.
Proof using tmhash_length.
  intros Hf Hpos Hi k v Hk. rewrite Forall_forall in Hpos.
  destruct (inv_keys _ _ _ Hi k) as [(e & He & ->)|(c & ->)]; [by eexists| |].
  - split; [|eauto]. rewrite (inv_epoch _ _ _ Hi) in Hk by done. destruct (lastEnd tr e) as [h|] eqn:E; [|done].
    apply lastEnd_u32 in E as (Hu & x & Hx & ->); [|done]. exists (tipHeight x.1).
    cbn [fmap option_fmap option_map] in Hk. apply Hpos in Hx. split; [congruence|]. split; [done|lia].
  - split.
    + rewrite (inv_report _ _ _ Hi) in Hk. destruct (firstReport _ tr _) as [h|] eqn:E; [|done].
      apply firstReport_u32 in E as (Hu & x & Hx & ->); [|done]. exists (tipHeight x.1).
      cbn [fmap option_fmap option_map] in Hk. apply Hpos in Hx. split; [congruence|]. split; [done|lia].
    + right. eexists. split; [|done]. intros E. pose proof (tmhash_length (RawCheckpoint_HashInput c)) as Hl. by rewrite E in Hl.
Qed.

(** Whatever the module recorded while the light client was above height 0 can be
    exported, the exported genesis passes validation, and a chain started from
    it has exactly the same store. *)
Theorem monitor_genesis_roundtrip w tr w' : mw_store w = ∅ → Forall occurs tr →
  Forall (λ x, 0 < tipHeight x.1) tr → monitor_run tmhash_Sum w tr = Ok w' →
  ∃ gs, ExportGenesis_monitor (mw_store w') = Ok gs ∧ MonitorGenesis_Validate gs = Ok tt ∧
        InitGenesis_monitor ∅ gs = Ok (mw_store w').
Proof using tmhash_length.
  intros Hw Hf Hpos Hrun. destruct (monitor_run_inv tmhash_Sum w tr Hw Hf) as (w1 & Hrun1 & Hi).
  assert (w1 = w') as -> by congruence. pose proof (mon_inv_good tr _ Hf Hpos Hi) as Hg.
  exists (exported (mw_store w')). split_and!; [by apply export_exported|by apply exported_valid|by apply import_exported].
Qed.
End genesis.

(** ** With the checkpointing module

    The module behind the hooks of x/checkpointing. *)
Section with_checkpointing.
Context {BL : Blst} {BM : GoBitmap} (tmhash_Sum : bytes → bytes).
#[local] Instance monitor_epoching : EpochingKeeper MonitorWorld := {| ek_epoching := mw_epoching |}.
#[local] Instance monitor_hooks : CheckpointingHooks MonitorWorld := monitor_checkpointing_hooks tmhash_Sum.
Let H (c : RawCheckpoint) : bytes := tmhash_Sum (RawCheckpoint_HashInput c).

(** The answers to a query by hash, from the store. *)
Definition heightAt (store : MonitorStore) (h : bytes) : outcome Z :=
  match store !! (x02 :: h) with None => Err ErrCheckpointNotReported | Some b => must (bytesToBtcHeight b) end.
Lemma reported_heightAt w h : LightclientHeightAtCheckpointReported w (hex_encode h) = heightAt (mw_store w) h.
Proof. unfold LightclientHeightAtCheckpointReported. by rewrite (reported_key _ h) by apply hex_decode_encode. Qed.

Lemma decoded_ckpt_set raw ckpt : FromBTCCkptToRawCkpt raw = Ok ckpt → ckpt_set ckpt.
Proof.
  unfold FromBTCCkptToRawCkpt. intros (b & _ & (g & _ & E)%bind_Ok)%bind_Ok. injection E as <-. split; by eexists.
Qed.

Lemma recordVerified_Ok ctx w h ckpt : tip_at (mw_headers w) h → ckpt_set ckpt →
  ∃ w', recordVerified ctx w ckpt = Ok (w', None) ∧ mw_headers w' = mw_headers w ∧
    (∀ b, b ≠ H ckpt → mw_store w' !! (x02 :: b) = mw_store w !! (x02 :: b)) ∧
    mw_store w' !! (x02 :: H ckpt) = Some (default (Uint64ToBigEndian h) (mw_store w !! (x02 :: H ckpt))).
Proof using.
  intros (i & Hi & Eh & Hu) Hs. apply (hash_key tmhash_Sum) in Hs as [Hs Hk]. fold (H ckpt) in Hs, Hk.
  unfold recordVerified, AfterRawCheckpointBlsSigVerified, monitor_hooks, monitor_checkpointing_hooks,
    noError, updateBtcLightClientHeightForCheckpoint.
  rewrite Hs. cbn [mbind outcome_bind]. rewrite Hk. cbn [mbind outcome_bind].
  destruct (mw_store w !! _) as [v|] eqn:E; cbn [mbind outcome_bind].
  - exists w. split_and!; [done..|]. by rewrite E.
  - rewrite Hi. cbn [heightOf mbind outcome_bind]. eexists. split; [done|]. cbn [mw_store mw_headers default]. split; [done|]. split.
    + intros b Hb. by rewrite lookup_insert_ne by congruence.
    + rewrite lookup_insert_eq. by rewrite Eh.
Qed.

(** A checkpoint found on Bitcoin that passes verification, also one signed by
    other validators or conflicting with the local one, is recorded under its
    own hash: at the current height, or at the height of an earlier report. *)
Theorem verified_is_recorded ctx s w h raw ckpt w' r :
  tip_at (mw_headers w) h → FromBTCCkptToRawCkpt raw = Ok ckpt →
  verifyCkptBytes ctx s w raw = Ok (w', r) →
  LightclientHeightAtCheckpointReported w' (hex_encode (H ckpt)) =
    match LightclientHeightAtCheckpointReported w (hex_encode (H ckpt)) with
    | Err ErrCheckpointNotReported => Ok h
    | r => r
    end.
Proof using.
  intros Ht Hd Hv. pose proof (decoded_ckpt_set raw ckpt Hd) as Hset.
  destruct (recordVerified_Ok ctx w h ckpt Ht Hset) as (w1 & Hrec & _ & _ & Hw1).
  assert (w' = w1) as ->.
  { unfold verifyCkptBytes in Hv. rewrite Hd in Hv. cbn [mbind outcome_bind] in Hv.
    apply bind_Ok in Hv as ([] & _ & Hv). apply bind_Ok in Hv as (cm & _ & Hv). apply bind_Ok in Hv as (same & _ & Hv).
    destruct (_ && _).
    - rewrite Hrec in Hv. cbn [mbind outcome_bind] in Hv. congruence.
    - apply bind_Ok in Hv as ([] & _ & Hv). rewrite Hrec in Hv. cbn [mbind outcome_bind] in Hv.
      apply bind_Ok in Hv as (mine & _ & Hv). apply bind_Ok in Hv as (theirs & _ & Hv). case_bool_decide; congruence. }
  rewrite !reported_heightAt. unfold heightAt. rewrite Hw1. destruct (mw_store w !! (x02 :: H ckpt)) as [v|]; cbn [default].
  - unfold id. by destruct (bytesToBtcHeight v).
  - apply must_height. by destruct Ht as (i & _ & _ & ?).
Qed.

(** When the checkpoint of an epoch is forgotten, the record of its own hash is
    removed and every other one is kept: so also the record of a report of the
    same epoch that carries another signer set. *)
Theorem forgotten_removes_own_report ctx s w epoch cm s' w' :
  GetRawCheckpoint s epoch = Ok cm → cm_Status cm ∈ [CkSubmitted; CkConfirmed] → ckpt_set (cm_Ckpt cm) →
  SetCheckpointForgotten ctx s w epoch = Ok (s', w') →
  LightclientHeightAtCheckpointReported w' (hex_encode (H (cm_Ckpt cm))) = Err ErrCheckpointNotReported ∧
  ∀ b, b ≠ H (cm_Ckpt cm) →
    LightclientHeightAtCheckpointReported w' (hex_encode b) = LightclientHeightAtCheckpointReported w (hex_encode b).
Proof using.
  intros Hg Hst Hs Hf. apply (hash_key tmhash_Sum) in Hs as [Hs Hk]. fold (H (cm_Ckpt cm)) in Hs, Hk.
  unfold SetCheckpointForgotten, setCheckpointStatus, validateCheckpointStatus in Hf. rewrite Hg in Hf. cbn [mbind outcome_bind] in Hf.
  rewrite bool_decide_true in Hf by done. cbn [mbind outcome_bind] in Hf.
  destruct (UpdateCheckpoint s _) as [s1|e|e]; [|done..]. cbn [must mbind outcome_bind] in Hf.
  unfold logged, AfterRawCheckpointForgotten, monitor_hooks, monitor_checkpointing_hooks, noError, removeCheckpointRecord in Hf.
  cbn [cm_Ckpt RecordStateUpdate setStatus] in Hf. rewrite Hs in Hf. cbn [mbind outcome_bind] in Hf. rewrite Hk in Hf.
  cbn [mbind outcome_bind] in Hf. injection Hf as <- <-. setoid_rewrite reported_heightAt. unfold heightAt. cbn [mw_store].
  split; [by rewrite lookup_delete_eq|]. intros b Hb. by rewrite lookup_delete_ne by congruence.
Qed.
End with_checkpointing.

(** Validation lets a height through that no uint32 holds, and the query then
    panics on it. *)
Lemma genesis_height_panics e h : in_u64 e → e ≠ 0 → in_u64 h → 2 ^ 32 ≤ h →
  ∃ store, InitGenesis_monitor ∅ (mkMonitorGenesis [mkEpochEnd e h] []) = Ok store ∧
    ∀ ep hs, LightclientHeightAtEpochEnd (mkMonitorWorld ep hs store) e =
      Panic (Errorf "height should not be higher than math.MaxUint32").
Proof.
  intros He Hne Hh Hbig. eexists. split.
  - unfold InitGenesis_monitor, MonitorGenesis_Validate, ValidateEntries. cbn [mg_EpochEndRecords mg_CheckpointsReported length Nat.ltb Nat.leb ValidateEntries_from ee_Epoch].
    rewrite bool_decide_false by set_solver. unfold EpochEndLightClient_Validate. cbn [ee_BtcLightClientHeight].
    rewrite (proj2 (Z.eqb_neq _ _)) by lia. done.
  - intros ep hs. unfold LightclientHeightAtEpochEnd. rewrite (proj2 (Z.eqb_neq _ _) Hne). cbn [mw_store].
    rewrite lookup_insert_eq. unfold bytesToBtcHeight. rewrite (be_bytes_length 8). cbn [Nat.eqb negb ee_BtcLightClientHeight].
    rewrite BigEndianToUint64_Uint64ToBigEndian by done. by rewrite (proj2 (Z.ltb_lt (2 ^ 32 - 1) h)) by lia.
Qed.

(** ** An example *)

Module MonitorExample.
(** A digest of the right length. *)
Definition digest (b : bytes) : bytes := be_bytes 32 (be_value b).
Definition tipAt (h : Z) : headersState := insertHeader empty_headers (mkHeaderInfo [] [] h 1).
Definition ckpt : RawCheckpoint := mkRawCkpt 1 (Some [x07]) (Some [x01]) (Some [x09]).
Definition start : MonitorWorld :=
  mkMonitorWorld (mkEpoching 10 ∅ ∅ ∅ ∅ ∅ ∅ ∅ ∅ ∅) empty_headers ∅.
(** Latest first: reported at 103, forgotten, reported at 101, epoch 1 ended at 100. *)
Definition trace : list (headersState * MonitorEvent) :=
  [(tipAt 104, Verified ckpt); (tipAt 103, Verified ckpt); (tipAt 102, Forgotten ckpt);
   (tipAt 101, Verified ckpt); (tipAt 100, EpochEnded 1)].

Lemma tip_tipAt h : in_u32 h → tip_at (tipAt h) h ∧ tipHeight (tipAt h) = h.
Proof.
  intros Hu. assert (Hi : GetTip (tipAt h) = Some (mkHeaderInfo [] [] h 1)).
  { unfold GetTip, reverseHeaders, tipAt, insertHeader. cbn [headers hi_Height empty_headers].
    unfold iterZ, iterator. by rewrite insert_empty, map_to_list_singleton. }
  split; [|unfold tipHeight; by rewrite Hi]. exists (mkHeaderInfo [] [] h 1). done.
Qed.

Lemma trace_occurs : Forall occurs trace ∧ Forall (λ x, 0 < tipHeight x.1) trace.
Proof.
  assert (Ht : ∀ h, in_u32 h → ∃ h', tip_at (tipAt h) h') by (intros h Hh; exists h; by apply tip_tipAt).
  split; unfold trace; repeat constructor; cbn [fst snd event_ok];
    try (apply Ht; unfold in_u32; lia); try (by eexists); try (unfold in_u64; lia);
    rewrite (proj2 (tip_tipAt _ ltac:(unfold in_u32; lia))); lia.
Qed.

Lemma base_tipAt h : 0 ≤ h → base_at (tipAt h) (mkHeaderInfo [] [] h 1).
Proof.
  intros Hh. unfold base_at, tipAt, insertHeader. cbn [headers hi_Height empty_headers].
  split; [apply lookup_insert_eq|]. split; [done|]. intros k [i Hi].
  apply lookup_insert_Some in Hi as [[<- _]|[_ Hi]]; [lia|]. by rewrite lookup_empty in Hi.
Qed.

Lemma monitor_refines_witness :
  ∃ w', monitor_run digest start trace = Ok w' ∧
    let now := mkMonitorWorld (mw_epoching w') (tipAt 105) (mw_store w') in
    LightclientHeightAtEpochEnd now 0 = Ok 105 ∧
    LightclientHeightAtEpochEnd now 1 = Ok 100 ∧ LightclientHeightAtEpochEnd now 2 = Err ErrEpochNotEnded ∧
    LightclientHeightAtCheckpointReported now (hex_encode (digest (RawCheckpoint_HashInput ckpt))) = Ok 103.
Proof.
  destruct (monitor_refines digest start trace eq_refl (proj1 trace_occurs)) as (w' & Hrun & Hq).
  exists w'. split; [exact Hrun|].
  destruct (Hq (tipAt 105) _ (base_tipAt 105 ltac:(lia))) as [He Hr]. cbv zeta.
  split_and!; [rewrite He by (unfold in_u64; lia); vm_compute; reflexivity..|].
  rewrite Hr. vm_compute. reflexivity.
Defined.

Lemma digest_length b : length (digest b) = 32%nat.
Proof. apply be_bytes_length. Qed.

Definition final : MonitorWorld := get_ok start (monitor_run digest start trace).
Definition final_genesis : MonitorGenesis := get_ok DefaultMonitorGenesis (ExportGenesis_monitor (mw_store final)).

Lemma run_final : monitor_run digest start trace = Ok final.
Proof. apply is_ok_get. vm_compute. reflexivity. Qed.

Lemma monitor_genesis_roundtrip_witness :
  length (mg_EpochEndRecords final_genesis) = 1%nat ∧ length (mg_CheckpointsReported final_genesis) = 1%nat ∧
  InitGenesis_monitor ∅ final_genesis = Ok (mw_store final).
Proof.
  destruct (monitor_genesis_roundtrip digest digest_length start trace final eq_refl
    (proj1 trace_occurs) (proj2 trace_occurs) run_final) as (gs & Hx & _ & Hi).
  split; [vm_compute; reflexivity|]. split; [vm_compute; reflexivity|].
  unfold final_genesis. rewrite Hx. exact Hi.
Defined.
End MonitorExample.
