(* ===== verification/EpochMsgs.v ===== *)
(** * x/epoching: the message server and the genesis

    The handlers of the wrapped staking messages, which check a message, lock the
    funds it needs and queue it for the end of the epoch
    (x/epoching/keeper/msg_server.go, staking_functions.go, types/params.go and
    types/epoching.go), the handler of x/checkpointing that queues the creation of
    a validator (keeper/msg_server.go), and the genesis of the module
    (keeper/genesis.go, types/genesis.go, genesis.go).

    The queries of the staking module and of the bank and the encoding of its
    messages are classes. The gas charged for the later execution and the events
    are left out, except that an event with an amount above 64 bits panics. *)

From S2P Require Import Prelude Bytes Store BbnTypes BtcStaking Coins Epochs Checkpoints.

(** ** types/params.go *)

Record ExecuteGas := mkExecuteGas {
  eg_Delegate : Z; eg_Undelegate : Z; eg_BeginRedelegate : Z; eg_CancelUnbondingDelegation : Z;
  eg_EditValidator : Z; eg_CreateValidator : Z }.
Record EpochingParams := mkEpochingParams { ep_EpochInterval : Z; ep_ExecuteGas : ExecuteGas; ep_MinAmount : Z }.

Definition DefaultEpochingParams : EpochingParams :=
  mkEpochingParams 10 (mkExecuteGas 130000 88000 220000 20500 61000 60000) 1.

Definition validateExecuteGas (gas : ExecuteGas) : outcome unit :=
  if eg_Delegate gas =? 0 then Err (Errorf "delegate gas fee must be positive")
  else if eg_Undelegate gas =? 0 then Err (Errorf "undelegate gas fee must be positive")
  else if eg_BeginRedelegate gas =? 0 then Err (Errorf "begin redelegate gas fee must be positive")
  else if eg_CancelUnbondingDelegation gas =? 0 then Err (Errorf "cancel unbonding delegation gas fee must be positive")
  else if eg_EditValidator gas =? 0 then Err (Errorf "edit validator gas fee must be positive")
  else if eg_CreateValidator gas =? 0 then Err (Errorf "create validator gas fee must be positive")
  else Ok tt.
Definition validateMinAmount (v : Z) : outcome unit :=
  if v <? 1 then Err (Errorf "min amount must be at least 1") else Ok tt.
Definition EpochingParams_Validate (p : EpochingParams) : outcome unit :=
  _ ← validateEpochInterval (ep_EpochInterval p);
  _ ← validateExecuteGas (ep_ExecuteGas p);
  validateMinAmount (ep_MinAmount p).

(** ** Messages *)

Record Description := mkDescription {
  ds_Moniker : string; ds_Identity : string; ds_Website : string; ds_SecurityContact : string; ds_Details : string }.
#[global] Instance Description_eq_dec : EqDecision Description.
Proof. solve_decision. Defined.
Definition emptyDescription : Description := mkDescription "" "" "" "" "".

(** The fields the handlers read; [raw] is the whole message. Decimals are scaled
    by [DecOne]; the consensus key comes with its address and its type. *)
Record EditValidatorMsg := mkEditValidator {
  ev_ValidatorAddress : string; ev_Description : Description; ev_MinSelfDelegation : option Z;
  ev_CommissionRate : option Z; ev_raw : bytes }.
Record CreateValidatorMsg := mkCreateValidator {
  cv_Description : Description; cv_Rate : Z; cv_MaxRate : Z; cv_MaxChangeRate : Z; cv_ValidatorAddress : string;
  cv_Pubkey : option (bytes * string); cv_Value : string * Z; cv_raw : bytes }.
Record StakingParamsMsg := mkStakingParamsMsg { sp_Authority : string; sp_valid : outcome unit; sp_raw : bytes }.

Definition toStaking (m : CreateValidatorMsg) : StakingMsg :=
  MsgCreateValidator (cv_ValidatorAddress m) (cv_Value m) (cv_raw m).

(** The staking module, queried. *)
Class StakingQueries (S : Type) := {
  stk_GetValidator : S → bytes → outcome unit;
  stk_GetValidatorByConsAddr : S → bytes → outcome unit;
  stk_BondDenom : S → outcome string;
  stk_GetParams : S → outcome (Z * string);                 (* MinCommissionRate, BondDenom *)
  stk_ValidateUnbondAmount : S → bytes → bytes → Z → outcome Z;
  stk_HasMaxUnbondingDelegationEntries : S → bytes → bytes → outcome bool;
  stk_HasReceivingRedelegation : S → bytes → bytes → outcome bool;
  stk_HasMaxRedelegationEntries : S → bytes → bytes → bytes → outcome bool;
  stk_EnsureLength : Description → outcome unit;
  stk_NewValidator : bytes → bytes * string → Description → outcome unit;
  stk_SetInitialCommission : Z → Z → Z → outcome unit;
  bank_GetBalance : S → bytes → string → Z
}.
(** The encoding of the staking messages, and [tmhash.Sum]. *)
Class EpochingCodec := { MarshalStakingMsg : StakingMsg → outcome bytes; ep_tmhash : bytes → bytes }.

(** ** types/epoching.go *)

(** The message that a wrapped message carries is queued; the seven kinds are the
    constructors of [StakingMsg]. *)
Definition NewQueuedMessage {EC : EpochingCodec} (blockHeight blockTime : Z) (txid : bytes) (msg : StakingMsg) : outcome QueuedMessage :=
  msgBytes ← MarshalStakingMsg msg;
  Ok (mkQueued txid (ep_tmhash msgBytes) blockHeight blockTime msg).

Section msg_server.
Context {BA : Bech32} {VA : ValBech32} {EC : EpochingCodec} {S : Type} {ST : Staking S} {SQ : StakingQueries S} {E : Type}.
Context (validDenom : string → bool).

(** The module with its other parameters. *)
Record EpModule := mkEpModule { em_w : EpWorld (S := S) (E := E); em_ExecuteGas : ExecuteGas; em_MinAmount : Z }.
Definition set_w (m : EpModule) (w : EpWorld) : EpModule := mkEpModule w (em_ExecuteGas m) (em_MinAmount m).
Definition em_ep (m : EpModule) : EpochingState := ew_ep (em_w m).
Definition em_stk (m : EpModule) : S := ew_stk (em_w m).

Definition GetParams_epoching (m : EpModule) : EpochingParams :=
  mkEpochingParams (es_Interval (em_ep m)) (em_ExecuteGas m) (em_MinAmount m).
Definition SetParams_epoching (m : EpModule) (p : EpochingParams) : EpModule :=
  let s := em_ep m in
  mkEpModule (mkEpWorld (mkEpoching (ep_EpochInterval p) (es_EpochInfo s) (es_ValSet s) (es_VotingPower s) (es_SlashedPower s)
                (es_SlashedSet s) (es_Queue s) (es_QueueLen s) (es_ValLife s) (es_DelLife s)) (em_stk m) (ew_ext (em_w m)))
    (ep_ExecuteGas p) (ep_MinAmount p).

Definition valAddr (a : string) : outcome bytes :=
  match ValFromBech32 a with Some b => Ok b | None => Err ErrInvalidAddress end.
Definition accAddr (a : string) : outcome bytes :=
  match AccFromBech32 a with Some b => Ok b | None => Err ErrInvalidAddress end.
Definition invalidRequest {A} : outcome A := Err (Errorf "invalid request").

(** The amount of an event. *)
Definition toUint64 (x : Z) : outcome unit :=
  if (0 <=? x) && (x <? 2 ^ 64) then Ok tt else Panic (Errorf "Uint64() out of bounds").

(** The end of every handler: genesis transactions are refused, the message is
    encoded, its funds are locked where it delegates, and it is queued. *)
Definition queueMsg (lock : bool) (ctx : Ctx) (txBytes : bytes) (m : EpModule) (msg : StakingMsg) : outcome EpModule :=
  let blockHeight := CtxHeight ctx in
  if blockHeight =? 0 then Err ErrZeroEpochMsg
  else
    queuedMsg ← NewQueuedMessage blockHeight (HeaderTime ctx) (ep_tmhash txBytes) msg;
    st ← (if lock then LockFundsForDelegateMsgs (em_stk m) queuedMsg else Ok (em_stk m));
    s ← EnqueueMsg (em_ep m) queuedMsg;
    Ok (set_w m (mkEpWorld s st (ew_ext (em_w m)))).

(** ** keeper/msg_server.go

    [None] is a wrapper without a message. *)

Definition WrappedEditValidator (ctx : Ctx) (txBytes : bytes) (m : EpModule) (wrapped : option EditValidatorMsg) : outcome EpModule :=
  match wrapped with
  | None => Err ErrNoWrappedMsg
  | Some msg =>
    val ← valAddr (ev_ValidatorAddress msg);
    if bool_decide (ev_Description msg = emptyDescription) then invalidRequest
    else if match ev_MinSelfDelegation msg with Some x => x <=? 0 | None => false end then invalidRequest
    else
      _ ← match ev_CommissionRate msg with
          | None => Ok tt
          | Some rate =>
            if (DecOne <? rate) || (rate <? 0) then invalidRequest
            else match stk_GetParams (em_stk m) with
                 | Err _ => Err (Errorf "internal logic error")
                 | Panic e => Panic e
                 | Ok stkParams => if rate <? stkParams.1 then invalidRequest else Ok tt
                 end
          end;
      _ ← stk_GetValidator (em_stk m) val;
      queueMsg false ctx txBytes m (MsgEditValidator (ev_raw msg))
  end.

Definition WrappedStakingUpdateParams (authority : string) (ctx : Ctx) (txBytes : bytes) (m : EpModule) (wrapped : option StakingParamsMsg)
    : outcome EpModule :=
  match wrapped with
  | None => Err ErrNoWrappedMsg
  | Some msg =>
    if negb (String.eqb authority (sp_Authority msg)) then Err ErrInvalidSigner
    else
      _ ← sp_valid msg;
      queueMsg false ctx txBytes m (MsgStakingUpdateParams (sp_raw msg))
  end.

Definition checkDenom (m : EpModule) (denom : string) : outcome unit :=
  bondDenom ← stk_BondDenom (em_stk m);
  if negb (String.eqb denom bondDenom) then invalidRequest else Ok tt.
Definition checkMinAmount (m : EpModule) (amount : Z) : outcome unit :=
  if amount <? em_MinAmount m then invalidRequest else Ok tt.

Definition WrappedDelegate (ctx : Ctx) (txBytes : bytes) (m : EpModule) (wrapped : option (string * string * (string * Z))) : outcome EpModule :=
  match wrapped with
  | None => Err ErrNoWrappedMsg
  | Some (delegatorAddress, validatorAddress, amount) =>
    val ← valAddr validatorAddress;
    _ ← stk_GetValidator (em_stk m) val;
    _ ← accAddr delegatorAddress;
    _ ← checkDenom m amount.1;
    _ ← checkMinAmount m amount.2;
    m ← queueMsg true ctx txBytes m (MsgDelegate delegatorAddress validatorAddress amount);
    _ ← toUint64 amount.2;
    Ok m
  end.

Definition WrappedUndelegate (ctx : Ctx) (txBytes : bytes) (m : EpModule) (wrapped : option (string * string * (string * Z))) : outcome EpModule :=
  match wrapped with
  | None => Err ErrNoWrappedMsg
  | Some (delegatorAddress, validatorAddress, amount) =>
    val ← valAddr validatorAddress;
    del ← accAddr delegatorAddress;
    _ ← stk_ValidateUnbondAmount (em_stk m) del val amount.2;
    _ ← checkDenom m amount.1;
    hasMaxEntries ← stk_HasMaxUnbondingDelegationEntries (em_stk m) del val;
    if (hasMaxEntries : bool) then Err (Errorf "too many unbonding delegation entries")
    else
      _ ← checkMinAmount m amount.2;
      m ← queueMsg false ctx txBytes m (MsgUndelegate delegatorAddress validatorAddress amount);
      _ ← toUint64 amount.2;
      Ok m
  end.

Definition WrappedBeginRedelegate (ctx : Ctx) (txBytes : bytes) (m : EpModule) (wrapped : option (string * string * string * (string * Z)))
    : outcome EpModule :=
  match wrapped with
  | None => Err ErrNoWrappedMsg
  | Some (delegatorAddress, validatorSrcAddress, validatorDstAddress, amount) =>
    valSrc ← valAddr validatorSrcAddress;
    valDst ← valAddr validatorDstAddress;
    del ← accAddr delegatorAddress;
    _ ← stk_ValidateUnbondAmount (em_stk m) del valSrc amount.2;
    _ ← checkDenom m amount.1;
    hasRecRedel ← stk_HasReceivingRedelegation (em_stk m) del valSrc;
    if (hasRecRedel : bool) then Err (Errorf "redelegation to this validator already in progress")
    else
      hasMaxRedels ← stk_HasMaxRedelegationEntries (em_stk m) del valSrc valDst;
      if (hasMaxRedels : bool) then Err (Errorf "too many redelegation entries")
      else
        _ ← checkMinAmount m amount.2;
        m ← queueMsg false ctx txBytes m (MsgBeginRedelegate delegatorAddress validatorSrcAddress validatorDstAddress amount);
        _ ← toUint64 amount.2;
        Ok m
  end.

(** [Coin.IsValid]: a valid denomination and no negative amount. *)
Definition WrappedCancelUnbondingDelegation (ctx : Ctx) (txBytes : bytes) (m : EpModule)
    (wrapped : option (string * string * (string * Z) * Z)) : outcome EpModule :=
  match wrapped with
  | None => Err ErrNoWrappedMsg
  | Some (delegatorAddress, validatorAddress, amount, creationHeight) =>
    _ ← accAddr delegatorAddress;
    _ ← valAddr validatorAddress;
    if negb (validDenom amount.1 && (0 <=? amount.2)) || negb (0 <? amount.2) then invalidRequest
    else
      _ ← checkMinAmount m amount.2;
      if creationHeight <=? 0 then invalidRequest
      else
        _ ← checkDenom m amount.1;
        m ← queueMsg false ctx txBytes m (MsgCancelUnbondingDelegation delegatorAddress validatorAddress amount creationHeight);
        _ ← toUint64 amount.2;
        Ok m
  end.

(** All the parameters. *)
Definition UpdateParams_module (authority reqAuthority : string) (m : EpModule) (p : EpochingParams) : outcome EpModule :=
  if negb (String.eqb authority reqAuthority) then Err ErrInvalidSigner
  else match EpochingParams_Validate p with
       | Err _ => Err ErrInvalidProposalMsg
       | Panic e => Panic e
       | Ok _ => Ok (SetParams_epoching m p)
       end.

(** ** keeper/staking_functions.go

    [pubKeyTypes] are the key types of the consensus parameters, if there are any.
    A validator with the operator or the key is found when the query does not
    fail. *)
Definition CheckMsgCreateValidator (m : EpModule) (pubKeyTypes : option (list string)) (msg : CreateValidatorMsg) : outcome Z :=
  val ← valAddr (cv_ValidatorAddress msg);
  '(minCommissionRate, bondDenom) ← stk_GetParams (em_stk m);
  if cv_Rate msg <? minCommissionRate then Err (Errorf "commission cannot be less than min rate")
  else if is_ok (stk_GetValidator (em_stk m) val) then Err (Errorf "validator already exist for this operator address")
  else match cv_Pubkey msg with
       | None => Err (Errorf "invalid type")
       | Some pk =>
         if is_ok (stk_GetValidatorByConsAddr (em_stk m) pk.1) then Err (Errorf "validator already exist for this pubkey")
         else if negb (String.eqb (cv_Value msg).1 bondDenom) then invalidRequest
         else
           _ ← stk_EnsureLength (cv_Description msg);
           if match pubKeyTypes with Some ts => negb (bool_decide (pk.2 ∈ ts)) | None => false end
           then Err (Errorf "validator pubkey type is not supported")
           else
             _ ← stk_NewValidator val pk (cv_Description msg);
             _ ← stk_SetInitialCommission (cv_Rate msg) (cv_MaxRate msg) (cv_MaxChangeRate msg);
             if bank_GetBalance (em_stk m) val (cv_Value msg).1 <=? (cv_Value msg).2 then Err ErrInsufficientBalance
             else
               _ ← checkMinAmount m (cv_Value msg).2;
               Ok (eg_CreateValidator (em_ExecuteGas m))
       end.

(** ** x/checkpointing/keeper/msg_server.go

    [key] is the BLS public key; in the genesis block the validator is created at
    once. *)
Definition WrappedCreateValidator {EH : EpochingHooks E} (ctx : Ctx) (txBytes : bytes) (pubKeyTypes : option (list string)) (ck : CkptState)
    (m : EpModule) (key : bytes) (msg : CreateValidatorMsg) : outcome (CkptState * EpModule) :=
  executeGas ← CheckMsgCreateValidator m pubKeyTypes msg;
  val ← valAddr (cv_ValidatorAddress msg);
  ck ← CreateRegistration ck key val;
  if CtxHeight ctx =? 0 then
    '(st, hooks) ← StkMsgServer (em_stk m) (toStaking msg);
    '(s, e) ← foldM (stakingHook ctx) (em_ep m, ew_ext (em_w m)) hooks;
    Ok (ck, set_w m (mkEpWorld s st e))
  else
    m ← queueMsg true ctx txBytes m (toStaking msg);
    Ok (ck, m).

End msg_server.
Arguments EpModule S E : clear implicits.

(** ** types/genesis.go

    The lifecycles carry the addresses of validators as bytes. *)

Record EpochingGenesis := mkEpochingGenesis {
  gs_Params : EpochingParams;
  gs_Epochs : list Epoch;
  gs_Queues : list (Z * list QueuedMessage);
  gs_ValidatorSets : list (Z * list Validator);
  gs_SlashedValidatorSets : list (Z * list Validator);
  gs_ValidatorsLifecycle : list (string * list ValStateUpdate);
  gs_DelegationsLifecycle : list (string * list DelegationStateUpdate)
}.
Definition DefaultEpochingGenesis : EpochingGenesis := mkEpochingGenesis DefaultEpochingParams [] [] [] [] [] [].

Definition Epoch_ValidateBasic (e : Epoch) : outcome unit :=
  if CurrentEpochInterval e <? 2 then Err ErrInvalidEpoch else Ok tt.

Fixpoint validateEpochs_from (epochNumberSet firstBlockHeightSet : gset Z) (sealerBlockHashSet : gset bytes) (epochs : list Epoch)
    : outcome unit :=
  match epochs with
  | [] => Ok tt
  | e :: epochs =>
    if bool_decide (EpochNumber e ∈ epochNumberSet) then Err (Errorf "duplicate EpochNumber")
    else if bool_decide (FirstBlockHeight e ∈ firstBlockHeightSet) then Err (Errorf "duplicate FirstBlockHeight")
    else
      let hash := SealerBlockHash e in
      if (0 <? length hash)%nat && bool_decide (hash ∈ sealerBlockHashSet) then Err (Errorf "duplicate SealerBlockHash")
      else
        _ ← Epoch_ValidateBasic e;
        validateEpochs_from ({[EpochNumber e]} ∪ epochNumberSet) ({[FirstBlockHeight e]} ∪ firstBlockHeightSet)
          (if (0 <? length hash)%nat then {[hash]} ∪ sealerBlockHashSet else sealerBlockHashSet) epochs
  end.

Fixpoint consecutive (l : list Z) : bool :=
  match l with
  | a :: ((b :: _) as l') => (b =? u64 (a + 1)) && consecutive l'
  | _ => true
  end.
Definition ValidateSequentialEpochs (epochNumbers : list Z) : outcome unit :=
  if (length epochNumbers <=? 1)%nat then Ok tt
  else if consecutive (sort_stable Z.ltb epochNumbers) then Ok tt else Err (Errorf "epoch numbers are not consecutive").
Definition validateEpochs_epoching (epochs : list Epoch) : outcome unit :=
  match epochs with
  | [] => Ok tt
  | _ => _ ← validateEpochs_from ∅ ∅ ∅ epochs; ValidateSequentialEpochs (EpochNumber <$> epochs)
  end.

Definition EpochQueue_Validate (eq : Z * list QueuedMessage) : outcome unit :=
  if (length eq.2 =? 0)%nat then Err (Errorf "empty Msgs in epoch queue") else Ok tt.

Section genesis.
Context {BA : Bech32} {VA : ValBech32} {S : Type} {ST : Staking S} {E : Type}.

Definition Validator_Validate (v : Validator) : outcome unit :=
  if val_Power v <? 0 then Err (Errorf "validator power cannot be negative")
  else _ ← valAddr (ValString (val_Addr v)); Ok tt.
Definition EpochValidatorSet_Validate (ev : Z * list Validator) : outcome unit :=
  if (length ev.2 =? 0)%nat then Err (Errorf "empty validators") else ValidateEntries val_Addr Validator_Validate ev.2.
Definition ValidatorLifecycle_Validate (vl : string * list ValStateUpdate) : outcome unit :=
  if (length vl.2 =? 0)%nat then Err (Errorf "validator lyfecycle is empty") else _ ← valAddr vl.1; Ok tt.
Definition DelegationLifecycle_Validate (dl : string * list DelegationStateUpdate) : outcome unit :=
  if (length dl.2 =? 0)%nat then Err (Errorf "delegation lyfecycle is empty")
  else
    _ ← foldM (λ _ d, _ ← valAddr (ValString (dsu_ValAddr d)); Ok tt) tt dl.2;
    _ ← accAddr dl.1; Ok tt.

Definition EpochingGenesis_Validate (gs : EpochingGenesis) : outcome unit :=
  _ ← validateEpochs_epoching (gs_Epochs gs);
  _ ← ValidateEntries fst EpochQueue_Validate (gs_Queues gs);
  _ ← ValidateEntries fst EpochValidatorSet_Validate (gs_ValidatorSets gs);
  _ ← ValidateEntries fst EpochValidatorSet_Validate (gs_SlashedValidatorSets gs);
  _ ← ValidateEntries fst ValidatorLifecycle_Validate (gs_ValidatorsLifecycle gs);
  _ ← ValidateEntries fst DelegationLifecycle_Validate (gs_DelegationsLifecycle gs);
  EpochingParams_Validate (gs_Params gs).

(** ** keeper/genesis.go, with the parts of epoch_msg_queue.go and
    epoch_slashed_val_set.go it calls *)

Definition setEpochQueue (s : EpochingState) (eq : Z * list QueuedMessage) : EpochingState :=
  let '(q, queueLen) := foldl (λ acc msg, (set2 eq.1 acc.2 msg acc.1, u64 (acc.2 + 1))) (es_Queue s, 0) eq.2 in
  with_Queue q (<[eq.1 := queueLen]> (es_QueueLen s)) s.
Definition InitGenMsgQueue (s : EpochingState) (genEpochsQueue : list (Z * list QueuedMessage)) : outcome EpochingState :=
  match genEpochsQueue with
  | _ :: _ => Ok (foldl setEpochQueue s genEpochsQueue)
  | [] => InitMsgQueue s
  end.

Definition setEpochSlashedValSet (s : EpochingState) (ev : Z * list Validator) : EpochingState :=
  let set := foldl (λ m v, set2 ev.1 (val_Addr v) (val_Power v) m) (es_SlashedSet s) ev.2 in
  let totalSlashedPower := foldl (λ acc v, i64 (acc + val_Power v)) 0 ev.2 in
  with_Slashed (<[ev.1 := totalSlashedPower]> (es_SlashedPower s)) set s.
Definition InitGenSlashedVotingPower (s : EpochingState) (genSlashedValSet : list (Z * list Validator)) : outcome EpochingState :=
  match genSlashedValSet with
  | _ :: _ => Ok (foldl setEpochSlashedValSet s genSlashedValSet)
  | [] => InitSlashedVotingPower s
  end.

Definition InitGenesis_keeper (ctx : Ctx) (m : EpModule S E) (gs : EpochingGenesis) : outcome (EpModule S E) :=
  s ← InitEpoch (em_ep m) ctx (gs_Epochs gs);
  s ← InitGenMsgQueue s (gs_Queues gs);
  s ← InitGenValidatorSet s (gs_ValidatorSets gs) (LastValidatorPowers (em_stk m));
  s ← InitGenSlashedVotingPower s (gs_SlashedValidatorSets gs);
  s ← foldM (λ s vl, a ← valAddr vl.1; Ok (with_Life (<[a := vl.2]> (es_ValLife s)) (es_DelLife s) s)) s (gs_ValidatorsLifecycle gs);
  s ← foldM (λ s dl, a ← must (accAddr dl.1); Ok (with_Life (es_ValLife s) (<[a := dl.2]> (es_DelLife s)) s)) s (gs_DelegationsLifecycle gs);
  Ok (SetParams_epoching (set_w m (mkEpWorld s (em_stk m) (ew_ext (em_w m)))) (gs_Params gs)).

(** genesis.go: both failures panic. *)
Definition InitGenesis_epoching (ctx : Ctx) (m : EpModule S E) (gs : EpochingGenesis) : outcome (EpModule S E) :=
  _ ← must (EpochingGenesis_Validate gs);
  must (InitGenesis_keeper ctx m gs).

(** Epochs with something to export. *)
Definition nonempty {A} (f : Epoch → list A) (es : list Epoch) : list (Z * list A) :=
  filter (λ x, x.2 ≠ []) ((λ e, (EpochNumber e, f e)) <$> es).

Definition ExportGenesis_epoching (m : EpModule S E) : EpochingGenesis :=
  let s := em_ep m in
  let es := (iterZ (es_EpochInfo s)).*2 in
  mkEpochingGenesis (GetParams_epoching m) es
    (nonempty (λ e, GetEpochMsgs s (EpochNumber e)) es)
    (nonempty (λ e, GetValidatorSet s (EpochNumber e)) es)
    (nonempty (λ e, GetSlashedValidators s (EpochNumber e)) es)
    ((λ kv, (ValString kv.1, kv.2)) <$> iterB (es_ValLife s))
    ((λ kv, (AccString kv.1, kv.2)) <$> iterB (es_DelLife s)).
End genesis.
