(* ===== verification/EpochFunds.v ===== *)
(** * x/epoching: queued funds and exported epochs

    The funds of a delegation wait in the module's delegate pool until the end of
    the epoch. Along every history of blocks and messages the pool holds exactly
    the funds of the messages that are still to be executed, so that each of them
    gets its funds back. The second theorem is about the genesis: a chain that was
    started without epochs exports one that cannot be imported. *)

From S2P Require Import Prelude Bytes Store BbnTypes BtcStaking Coins Epochs EpochTiling Checkpoints EpochMsgs.

(** ** What a queue holds *)

Section funds.
Context {BA : Bech32} {VA : ValBech32} {EC : EpochingCodec} {S : Type} {ST : Staking S} {SQ : StakingQueries S}.
Context {E : Type} {EH : EpochingHooks E} (validDenom : string → bool).

Definition locked (msg : QueuedMessage) (d : string) : Z :=
  match extractAddrAndCoinsFromMsg msg with Ok (Some (_, coins)) => AmountOf coins d | _ => 0 end.
Fixpoint owed (l : list QueuedMessage) (d : string) : Z :=
  match l with [] => 0 | msg :: l => locked msg d + owed l d end.

Lemma owed_app l l' d : owed (l ++ l') d = owed l d + owed l' d.
Proof using. induction l as [|msg l IH]; cbn [owed app]; lia. Qed.

(** The bank moves the coins it is asked to move, between the pool and the account
    that is named, and touches no other account; a transfer from the pool to a
    user succeeds when the pool has the coins. Neither executing a message of a
    user nor updating the validators touches the pool: it is a module account of
    the epoching module. [user] holds of the accounts that sign transactions. *)
Class DelegatePool := {
  pool : S → string → Z;
  balanceOf : S → bytes → string → Z;
  user : bytes → Prop;
  lock_law st a c st' : user a → SendCoinsToDelegatePool st a c = Ok st' → ∀ d,
    pool st' d = pool st d + AmountOf c d ∧
    balanceOf st' a d = balanceOf st a d - AmountOf c d ∧
    ∀ b, user b → b ≠ a → balanceOf st' b d = balanceOf st b d;
  unlock_law st a c : user a → (∀ d, 0 ≤ AmountOf c d ≤ pool st d) →
    ∃ st', SendCoinsFromDelegatePool st a c = Ok st' ∧ ∀ d,
      pool st' d = pool st d - AmountOf c d ∧
      balanceOf st' a d = balanceOf st a d + AmountOf c d ∧
      ∀ b, user b → b ≠ a → balanceOf st' b d = balanceOf st b d;
  message_law st msg st' hooks :
    match extractAddrAndCoinsFromMsg msg with Ok (Some (a, _)) => user a | _ => True end →
    StkMsgServer st (qm_Msg msg) = Ok (st', hooks) → ∀ d, pool st' d = pool st d;
  update_law st st' hooks ups : StkApplyAndReturnValidatorSetUpdates st = Ok (st', hooks, ups) → ∀ d, pool st' d = pool st d
}.
Context {DP : DelegatePool}.

(** A message that was checked when it was queued. *)
Definition good_msg (msg : QueuedMessage) : Prop :=
  match extractAddrAndCoinsFromMsg msg with
  | Ok (Some (a, c)) => user a ∧ ∀ d, 0 ≤ AmountOf c d
  | Ok None => True
  | _ => False
  end.

Lemma good_locked msg d : good_msg msg → 0 ≤ locked msg d.
Proof using. unfold good_msg, locked. destruct (extractAddrAndCoinsFromMsg msg) as [[[a c]|]|e|e]; [|lia..]. intros [_ H]. apply H. Qed.
Lemma good_owed l d : Forall good_msg l → 0 ≤ owed l d.
Proof using. induction 1 as [|msg l Hm _ IH]; cbn [owed]; [lia|]. pose proof (good_locked msg d Hm). lia. Qed.

(** The coins a message delegates go from the account of its delegator to the pool,
    or back, and no other account changes. [sign] is 1 for the way in and -1 for
    the way back. *)
Definition moved (sign : Z) (msg : QueuedMessage) (st st' : S) : Prop :=
  (∀ d, pool st' d = pool st d + sign * locked msg d) ∧
  match extractAddrAndCoinsFromMsg msg with
  | Ok (Some (a, c)) => ∀ d, balanceOf st' a d = balanceOf st a d - sign * AmountOf c d ∧
                             ∀ b, user b → b ≠ a → balanceOf st' b d = balanceOf st b d
  | _ => st' = st
  end.
Definition deposited := moved 1.
Definition refunded := moved (-1).

(** Unlocking gives back what the message locked. *)
Lemma unlock_good st msg l : good_msg msg → Forall good_msg l → (∀ d, pool st d = owed (msg :: l) d) →
  ∃ st', UnlockFundsForDelegateMsgs st msg = Ok st' ∧ refunded msg st st' ∧ ∀ d, pool st' d = owed l d.
Proof using.
  intros Hm Hl Hp. unfold UnlockFundsForDelegateMsgs. pose proof Hm as Hm'. unfold good_msg in Hm'.
  assert (Hp' : ∀ d, pool st d = locked msg d + owed l d) by exact Hp. unfold locked in Hp'.
  destruct (extractAddrAndCoinsFromMsg msg) as [[[a c]|]|e|e] eqn:Ex; [| |done..]; cbn [mbind outcome_bind].
  - destruct Hm' as [Hu Hc]. destruct (unlock_law st a c Hu) as (st' & Hs & Hst').
    { intros d. specialize (Hp' d). pose proof (good_owed l d Hl). specialize (Hc d). lia. }
    exists st'. split; [done|]. split; [|intros d; rewrite (proj1 (Hst' d)), Hp'; lia]. unfold refunded, moved, locked. rewrite Ex.
    split; [intros d; rewrite (proj1 (Hst' d)); lia|]. intros d. destruct (Hst' d) as (_ & Ha & Hb). split; [lia|exact Hb].
  - exists st. split; [done|]. split; [|intros d; rewrite Hp'; lia]. unfold refunded, moved, locked. rewrite Ex. split; [lia|done].
Qed.

(** Locking takes the funds of the message from its own account. *)
Lemma lock_good st msg st' : good_msg msg → LockFundsForDelegateMsgs st msg = Ok st' → deposited msg st st'.
Proof using.
  unfold good_msg, LockFundsForDelegateMsgs, deposited, moved, locked.
  destruct (extractAddrAndCoinsFromMsg msg) as [[[a c]|]|e|e]; [| |done..]; cbn [mbind outcome_bind].
  - intros [Hu _] Hs. pose proof (lock_law _ _ _ _ Hu Hs) as Hl. split; intros d; destruct (Hl d) as (Hp & Ha & Hb); [lia|]. split; [lia|exact Hb].
  - intros _ [= <-]. split; [lia|done].
Qed.

Lemma good_message msg : good_msg msg → match extractAddrAndCoinsFromMsg msg with Ok (Some (a, _)) => user a | _ => True end.
Proof using. unfold good_msg. destruct (extractAddrAndCoinsFromMsg msg) as [[[a c]|]|e|e]; naive_solver. Qed.

Lemma runUnwrappedMsg_pool ctx w msg w' err : good_msg msg → runUnwrappedMsg ctx w msg = Ok (w', err) →
  ∀ d, pool (ew_stk w') d = pool (ew_stk w) d.
Proof using.
  intros Hg Hr d. unfold runUnwrappedMsg in Hr. destruct (_ ≫= _) as [w2|er|er] eqn:Hm in Hr; [|by injection Hr as <- _|done].
  apply bind_Ok in Hm as ([st hooks] & Hs & Hm). apply bind_Ok in Hm as ([s e] & _ & Hm). injection Hm as <-.
  cbn [ew_ep ew_stk ew_ext] in Hr. pose proof (message_law _ _ _ _ (good_message msg Hg) Hs d) as Hp.
  destruct (recordAfter ctx s (qm_Msg msg)); [|by injection Hr as <- _|done]. by injection Hr as <- _.
Qed.

(** The execution of a queue: each message gets its own funds back and is then
    handled, in the order of the queue. *)
Inductive executes (ctx : Ctx) : list QueuedMessage → EpWorld (S := S) (E := E) → EpWorld (S := S) (E := E) → Prop :=
  | ex_done w : executes ctx [] w w
  | ex_next msg l w st w1 err w2 :
      refunded msg (ew_stk w) st → HandleQueuedMsg ctx (mkEpWorld (ew_ep w) st (ew_ext w)) msg = Ok (w1, err) →
      executes ctx l w1 w2 → executes ctx (msg :: l) w w2.

(** Executing the queue empties the pool. *)
Lemma runQueued_executes ctx l acc acc' : Forall good_msg l → (∀ d, pool (ew_stk acc.1) d = owed l d) →
  foldM (runQueued ctx) acc l = Ok acc' → executes ctx l acc.1 acc'.1 ∧ ∀ d, pool (ew_stk acc'.1) d = 0.
Proof using.
  intros Hl. revert acc. induction Hl as [|msg l Hm Hl IH]; intros [w evs] Hp Hk; cbn [fst foldM] in *.
  { injection Hk as <-. split; [constructor|done]. }
  apply bind_Ok in Hk as ([w1 evs1] & Hr & Hk).
  destruct (unlock_good (ew_stk w) msg l Hm Hl Hp) as (st & Hst & Href & Hpst). unfold runQueued in Hr. rewrite Hst in Hr.
  apply bind_Ok in Hr as ([w2 err] & Hr & H). injection H as <- _.
  destruct (IH (w2, evs1)) as [Hex Hz]; [|done|].
  { cbn [fst]. intros d. by rewrite (runUnwrappedMsg_pool _ _ _ _ _ Hm Hr d). }
  split; [|exact Hz]. by eapply ex_next.
Qed.

(** ** The handlers *)

(** A transaction in a block: one of the handlers accepts its message. The
    account whose coins are delegated has signed it. *)
Inductive handled (ctx : Ctx) : EpModule S E → EpModule S E → Prop :=
  | h_edit tx m msg m' : WrappedEditValidator ctx tx m msg = Ok m' → handled ctx m m'
  | h_params authority tx m msg m' : WrappedStakingUpdateParams authority ctx tx m msg = Ok m' → handled ctx m m'
  | h_delegate tx m del val amount m' :
      (∀ a, AccFromBech32 del = Some a → user a) → WrappedDelegate ctx tx m (Some (del, val, amount)) = Ok m' → handled ctx m m'
  | h_undelegate tx m msg m' : WrappedUndelegate ctx tx m msg = Ok m' → handled ctx m m'
  | h_redelegate tx m msg m' : WrappedBeginRedelegate ctx tx m msg = Ok m' → handled ctx m m'
  | h_cancel tx m msg m' : WrappedCancelUnbondingDelegation validDenom ctx tx m msg = Ok m' → handled ctx m m'
  | h_create tx types ck m key msg ck' m' :
      (∀ a, ValFromBech32 (cv_ValidatorAddress msg) = Some a → user a) →
      WrappedCreateValidator ctx tx types ck m key msg = Ok (ck', m') → handled ctx m m'.

Lemma queueMsg_Ok lock ctx tx (m : EpModule S E) msg m' : queueMsg lock ctx tx m msg = Ok m' →
  ∃ qm st s', qm_Msg qm = msg ∧ EnqueueMsg (em_ep m) qm = Ok s' ∧ m' = set_w m (mkEpWorld s' st (ew_ext (em_w m))) ∧
    (if lock then LockFundsForDelegateMsgs (em_stk m) qm = Ok st else st = em_stk m).
Proof using.
  unfold queueMsg. destruct (_ =? _); [done|]. intros (qm & Hq & (st & Hst & (s' & Hs & Hm)%bind_Ok)%bind_Ok)%bind_Ok.
  exists qm, st, s'. unfold NewQueuedMessage in Hq. apply bind_Ok in Hq as (bz & _ & Hq). injection Hq as <-.
  injection Hm as <-. split_and!; [done..|]. destruct lock; [done|congruence].
Qed.

Lemma NewCoins1_nonneg (c : string * Z) d : 0 ≤ c.2 → 0 ≤ AmountOf (NewCoins1 c) d.
Proof using.
  intros Hc. apply AmountOf_nonneg. unfold NewCoins1. destruct (_ =? _); [apply coins_ok_nil|].
  split; [apply NoDup_singleton|by constructor].
Qed.

(** A delegated amount is at least the minimum, which is positive. *)
Lemma checkMinAmount_nonneg (m : EpModule S E) x u : 1 ≤ em_MinAmount m → checkMinAmount m x = Ok u → 0 ≤ x.
Proof using. intros Hm. unfold checkMinAmount. destruct (Z.ltb_spec x (em_MinAmount m)); [done|]. lia. Qed.

Lemma CheckMsgCreateValidator_nonneg (m : EpModule S E) types msg gas : 1 ≤ em_MinAmount m →
  CheckMsgCreateValidator m types msg = Ok gas → 0 ≤ (cv_Value msg).2.
Proof using.
  intros Hm H. unfold CheckMsgCreateValidator in H. apply bind_Ok in H as (val & _ & H). apply bind_Ok in H as ([r bd] & _ & H).
  do 2 (destruct (_ : bool); [done|]). destruct (cv_Pubkey msg) as [pk|]; [|done].
  do 2 (destruct (_ : bool); [done|]). apply bind_Ok in H as (? & _ & H). destruct (_ : bool); [done|].
  apply bind_Ok in H as (? & _ & H). apply bind_Ok in H as (? & _ & H). destruct (_ : bool); [done|].
  apply bind_Ok in H as (u & Hc & _). exact (checkMinAmount_nonneg _ _ _ Hm Hc).
Qed.

Definition queues (ctx : Ctx) (m m' : EpModule S E) : Prop :=
  ∃ lock tx msg, queueMsg lock ctx tx m msg = Ok m' ∧
    ∀ qm, qm_Msg qm = msg → if lock then good_msg qm else extractAddrAndCoinsFromMsg qm = Ok None.

(** A message without funds. *)
Lemma queues_plain ctx tx (m : EpModule S E) msg m' : queueMsg false ctx tx m msg = Ok m' →
  (∀ qm, qm_Msg qm = msg → extractAddrAndCoinsFromMsg qm = Ok None) → queues ctx m m'.
Proof using. intros. exists false, tx, msg. auto. Qed.

Ltac peel H := repeat (apply bind_Ok in H as (? & ? & H)).
Ltac plain := intros qm Eqm; unfold extractAddrAndCoinsFromMsg; by rewrite Eqm.

Lemma handled_queues ctx (m m' : EpModule S E) : CtxHeight ctx ≠ 0 → 1 ≤ em_MinAmount m → handled ctx m m' → queues ctx m m'.
Proof using.
  intros Hh Hmin H0. revert Hmin. destruct H0 as [tx m0 msg m1 H|au tx m0 msg m1 H|tx m0 del val amount m1 Hu H|tx m0 msg m1 H|tx m0 msg m1 H|tx m0 msg m1 H
    |tx types ck m0 key msg ck' m1 Hu H]; intros Hmin.
  - destruct msg as [msg|]; [|done]. cbn [WrappedEditValidator] in H. apply bind_Ok in H as (? & _ & H). case_bool_decide; [done|].
    destruct (match ev_MinSelfDelegation msg with Some _ => _ | None => _ end); [done|]. peel H.
    eapply queues_plain; [exact H|plain].
  - destruct msg as [msg|]; [|done]. cbn [WrappedStakingUpdateParams] in H. destruct (negb _); [done|]. peel H.
    eapply queues_plain; [exact H|plain].
  - cbn [WrappedDelegate] in H. apply bind_Ok in H as (? & _ & H). apply bind_Ok in H as (? & _ & H).
    apply bind_Ok in H as (a & Ha & H). apply bind_Ok in H as (? & _ & H). apply bind_Ok in H as (? & Hc & H).
    apply bind_Ok in H as (m2 & Hq & H). apply bind_Ok in H as (? & _ & H). injection H as <-.
    exists true, tx, (MsgDelegate del val amount). split; [done|]. intros qm Eqm. unfold good_msg, extractAddrAndCoinsFromMsg. rewrite Eqm.
    unfold accAddr in Ha. destruct (AccFromBech32 del) as [b|] eqn:Hb; [|done]. split; [by apply Hu|].
    intros d. apply NewCoins1_nonneg. exact (checkMinAmount_nonneg _ _ _ Hmin Hc).
  - destruct msg as [[[del val] amount]|]; [|done]. cbn [WrappedUndelegate] in H. do 5 (apply bind_Ok in H as (? & _ & H)).
    destruct (_ : bool); [done|]. apply bind_Ok in H as (? & _ & H). apply bind_Ok in H as (m2 & Hq & H).
    apply bind_Ok in H as (? & _ & H). injection H as <-. eapply queues_plain; [exact Hq|plain].
  - destruct msg as [[[[del src] dst] amount]|]; [|done]. cbn [WrappedBeginRedelegate] in H. do 6 (apply bind_Ok in H as (? & _ & H)).
    destruct (_ : bool); [done|]. apply bind_Ok in H as (? & _ & H). destruct (_ : bool); [done|].
    apply bind_Ok in H as (? & _ & H). apply bind_Ok in H as (m2 & Hq & H).
    apply bind_Ok in H as (? & _ & H). injection H as <-. eapply queues_plain; [exact Hq|plain].
  - destruct msg as [[[[del val] amount] ch]|]; [|done]. cbn [WrappedCancelUnbondingDelegation] in H. do 2 (apply bind_Ok in H as (? & _ & H)).
    destruct (_ || _); [done|]. apply bind_Ok in H as (? & _ & H). destruct (ch <=? 0); [done|].
    apply bind_Ok in H as (? & _ & H). apply bind_Ok in H as (m2 & Hq & H).
    apply bind_Ok in H as (? & _ & H). injection H as <-. eapply queues_plain; [exact Hq|plain].
  - unfold WrappedCreateValidator in H. apply bind_Ok in H as (gas & Hc & H). apply bind_Ok in H as (a & Ha & H).
    apply bind_Ok in H as (ck1 & _ & H). rewrite (proj2 (Z.eqb_neq _ _) Hh) in H. apply bind_Ok in H as (m2 & Hq & H). injection H as _ <-.
    exists true, tx, (toStaking msg). split; [done|]. intros qm Eqm. unfold good_msg, extractAddrAndCoinsFromMsg. rewrite Eqm. cbn [toStaking].
    unfold valAddr in Ha. destruct (ValFromBech32 (cv_ValidatorAddress msg)) as [b|] eqn:Hb; [|done]. split; [by apply Hu|].
    intros d. apply NewCoins1_nonneg.
    exact (CheckMsgCreateValidator_nonneg _ _ _ _ Hmin Hc).
Qed.

(** ** Histories

    The height of the last block that has begun, and whether it is still open.
    Transactions, and the hooks and effects of other modules, come between the
    beginning and the end of a block; before the first block the validators of
    the genesis are created. *)
Definition FundsState : Type := EpModule S E * Z * bool.

Inductive funds_step : FundsState → FundsState → Prop :=
  | fs_gentx m ctx tx types ck key msg ck' m' :
      HeaderHeight ctx = 0 → (∀ a, ValFromBech32 (cv_ValidatorAddress msg) = Some a → user a) →
      WrappedCreateValidator ctx tx types ck m key msg = Ok (ck', m') → funds_step (m, 0, false) (m', 0, false)
  | fs_begin m h ctx bh w' :
      HeaderHeight ctx = h + 1 → BeginBlocker_epoching ctx bh (em_w m) = Ok w' →
      funds_step (m, h, false) (set_w m w', h + 1, true)
  | fs_end m h ctx w' evs ups :
      HeaderHeight ctx = h → EndBlocker_epoching ctx (em_w m) = Ok (w', evs, ups) →
      funds_step (m, h, true) (set_w m w', h, false)
  | fs_handled m h ctx m' : HeaderHeight ctx = h → handled ctx m m' → funds_step (m, h, true) (m', h, true)
  | fs_hook m h ctx hk s' e' :
      stakingHook ctx (em_ep m, ew_ext (em_w m)) hk = Ok (s', e') →
      funds_step (m, h, true) (set_w m (mkEpWorld s' (em_stk m) e'), h, true)
  | fs_other m h st' : (∀ d, pool st' d = pool (em_stk m) d) →
      funds_step (m, h, true) (set_w m (mkEpWorld (em_ep m) st' (ew_ext (em_w m))), h, true)
  | fs_params m h authority req p m' :
      UpdateParams_module authority req m p = Ok m' → ep_EpochInterval p < 2 ^ 63 → funds_step (m, h, true) (m', h, true).

(** The messages of the current epoch that are still to be executed: at the end
    of the last block they have been. *)
Definition pending (m : EpModule S E) (h : Z) (opened : bool) (e : Epoch) : list QueuedMessage :=
  if negb opened && IsLastBlockByHeight e h then [] else GetEpochMsgs (em_ep m) (EpochNumber e).

(** The queue of the current epoch [n] is indexed by its length, which is at most
    [c], and later queues are empty. *)
Record queue_ok (s : EpochingState) (n c : Z) : Prop := {
  qo_later k : n < k → substore (es_Queue s) k = ∅ ∧ GetQueueLength s k = 0;
  qo_index i : is_Some (substore (es_Queue s) n !! i) → 0 ≤ i < GetQueueLength s n;
  qo_length : 0 ≤ GetQueueLength s n ≤ c;
  qo_good : Forall good_msg (GetEpochMsgs s n)
}.

Record funds_inv (c : Z) (st : FundsState) (n : Z) : Prop := {
  fi_interval : 2 ≤ es_Interval (em_ep st.1.1) < 2 ^ 63;
  fi_min : 1 ≤ em_MinAmount st.1.1;
  fi_tiles : tiles (em_ep st.1.1) st.1.2 n;
  fi_zero : views (em_ep st.1.1) 0 = Some (0, 1, 0);
  fi_open : st.2 = true → 1 ≤ st.1.2;
  fi_queue : queue_ok (em_ep st.1.1) n c;
  fi_pool e : es_EpochInfo (em_ep st.1.1) !! n = Some e → ∀ d, pool (em_stk st.1.1) d = owed (pending st.1.1 st.1.2 st.2 e) d
}.

Definition queue_part (s : EpochingState) : gmap Z (gmap Z QueuedMessage) * gmap Z Z := (es_Queue s, es_QueueLen s).

Lemma queue_ok_part s s' n c c' : queue_part s' = queue_part s → c ≤ c' → queue_ok s n c → queue_ok s' n c'.
Proof using.
  intros Hp Hc [H1 H2 H3 H4]. injection Hp as Hq Hl. unfold GetQueueLength, GetEpochMsgs in *.
  split; unfold GetQueueLength, GetEpochMsgs; rewrite ?Hq, ?Hl; [done|done|lia|done].
Qed.

Lemma GetEpochMsgs_part s s' n : queue_part s' = queue_part s → GetEpochMsgs s' n = GetEpochMsgs s n.
Proof using. intros Hp. injection Hp as Hq _. unfold GetEpochMsgs. by rewrite Hq. Qed.

(** A message goes to the end of the queue. *)
Lemma EnqueueMsg_queue s h n c msg s' : tiles s h n → queue_ok s n c → c + 1 < 2 ^ 64 → good_msg msg → EnqueueMsg s msg = Ok s' →
  GetEpochMsgs s' n = GetEpochMsgs s n ++ [msg] ∧ queue_ok s' n (c + 1) ∧ fixed_part s' = fixed_part s.
Proof using.
  intros Ht [H1 H2 H3 H4] Hc Hg He. destruct (GetEpoch_tiles _ _ _ Ht) as (e & Hge & _ & Hen).
  unfold EnqueueMsg in He. rewrite Hge in He. cbn [mbind outcome_bind] in He. rewrite Hen in He. injection He as <-.
  assert (Hm : GetEpochMsgs (with_Queue (set2 n (GetQueueLength s n) msg (es_Queue s))
    (<[n:=u64 (GetQueueLength s n + 1)]> (es_QueueLen s)) s) n = GetEpochMsgs s n ++ [msg]).
  { unfold GetEpochMsgs, substore, set2. cbn [with_Queue es_Queue]. rewrite lookup_insert_eq. cbn [default]. unfold id.
    rewrite iterZ_insert_last; [by rewrite fmap_app|]. intros k Hk. apply H2 in Hk. lia. }
  assert (Hlen : GetQueueLength (with_Queue (set2 n (GetQueueLength s n) msg (es_Queue s))
    (<[n:=u64 (GetQueueLength s n + 1)]> (es_QueueLen s)) s) n = GetQueueLength s n + 1).
  { unfold GetQueueLength at 1. cbn [with_Queue es_QueueLen]. rewrite lookup_insert_eq. cbn [default]. unfold id.
    rewrite u64_small; [done|]. unfold in_u64. lia. }
  split; [exact Hm|]. split; [|done]. split.
  - intros k Hk. unfold substore, GetQueueLength, set2. cbn [with_Queue es_Queue es_QueueLen]. rewrite !lookup_insert_ne by lia. by apply H1.
  - intros i. rewrite Hlen. unfold substore, set2. cbn [with_Queue es_Queue]. rewrite lookup_insert_eq. cbn [default]. unfold id.
    destruct (decide (i = GetQueueLength s n)) as [->|Hne]; [lia|]. rewrite lookup_insert_ne by done. intros Hi. apply H2 in Hi. lia.
  - rewrite Hlen. lia.
  - rewrite Hm. apply Forall_app. auto.
Qed.

Lemma BeginBlocker_queue ctx bh (w w' : EpWorld (S := S) (E := E)) e : GetEpoch (ew_ep w) = Ok e → BeginBlocker_epoching ctx bh w = Ok w' →
  ew_stk w' = ew_stk w ∧ es_Queue (ew_ep w') = es_Queue (ew_ep w) ∧
  (es_QueueLen (ew_ep w') = es_QueueLen (ew_ep w) ∨
   IsFirstBlockOfNextEpoch e ctx = true ∧ ∃ k, es_QueueLen (ew_ep w') = <[k := 0]> (es_QueueLen (ew_ep w))).
Proof using.
  intros Hge Hk. unfold BeginBlocker_epoching in Hk. rewrite Hge in Hk. cbn [mbind outcome_bind] in Hk.
  apply bind_Ok in Hk as (w1 & H1 & Hk).
  assert (H2 : ew_stk w' = ew_stk w1 ∧ queue_part (ew_ep w') = queue_part (ew_ep w1)).
  { destruct (IsLastBlock e ctx); [|by injection Hk as <-]. apply bind_Ok in Hk as (s1 & Hs & Hk). injection Hk as <-.
    unfold RecordSealerBlockHashForEpoch in Hs. apply bind_Ok in Hs as (e1 & _ & Hs). destruct (negb _); [done|]. by injection Hs as <-. }
  destruct H2 as [-> Hq]. injection Hq as -> ->. destruct (IsFirstBlockOfNextEpoch e ctx); [|injection H1 as <-; auto].
  apply bind_Ok in H1 as ([s1 inc] & Ha & H1). apply bind_Ok in H1 as (s2 & Hb & H1). apply bind_Ok in H1 as (s3 & Hc & H1).
  apply bind_Ok in H1 as (s4 & Hd & H1). apply bind_Ok in H1 as (s5 & He & H1). injection H1 as <-. cbn [ew_stk ew_ep].
  unfold IncEpoch in Ha. rewrite Hge in Ha. injection Ha as <- _.
  unfold RecordSealerAppHashForPrevEpoch in Hb. apply bind_Ok in Hb as (? & _ & Hb). destruct (negb _); [done|].
  apply bind_Ok in Hb as (? & _ & Hb). injection Hb as <-.
  unfold InitMsgQueue in Hc. apply bind_Ok in Hc as (e3 & _ & Hc). injection Hc as <-.
  unfold InitSlashedVotingPower in Hd. apply bind_Ok in Hd as (? & _ & Hd). injection Hd as <-.
  unfold InitValidatorSet in He. apply bind_Ok in He as (? & _ & He). injection He as <-.
  split; [done|]. split; [done|]. right. split; [done|]. by exists (EpochNumber e3).
Qed.

(** Whether a block is the first of the next epoch, and the last of its own. *)
Lemma next_epoch_last s h n e ctx : tiles s h n → es_EpochInfo s !! n = Some e → HeaderHeight ctx = h + 1 → h + 1 < 2 ^ 63 →
  views s 0 = Some (0, 1, 0) → IsFirstBlockOfNextEpoch e ctx = IsLastBlockByHeight e h.
Proof using.
  intros Ht He Hc Hmax Hz. pose proof (ti_n _ _ _ Ht) as Hn. pose proof (CtxHeight_small ctx (h + 1) Hc ltac:(lia)) as Hch.
  assert (Hv : views s n = Some (view e)) by (unfold views; by rewrite He). unfold view in Hv.
  assert (Hen : EpochNumber e = n) by (eapply (ti_num _ _ _ Ht); exact Hv).
  unfold IsFirstBlockOfNextEpoch, IsLastBlockByHeight, GetLastBlockHeight. rewrite Hen, Hch, Hc, (u64_small h) by (unfold in_u64; lia).
  pose proof (ti_current _ _ _ Ht) as Hcur. destruct (Z.eqb_spec n 0) as [->|Hn0]; [subst h; done|].
  destruct Hcur as (m & i & f & Hs & Hf & Hlt). rewrite Hv in Hs. injection Hs as _ <- <-.
  pose proof (ti_interval _ _ _ Ht n _ _ _ ltac:(lia) Hv) as Hi. rewrite !u64_small by (unfold in_u64; lia).
  apply eq_bool_prop_intro. rewrite !Is_true_true, !Z.eqb_eq. lia.
Qed.

Lemma owed_pending_open m h e d : owed (pending m h true e) d = owed (GetEpochMsgs (em_ep m) (EpochNumber e)) d.
Proof using. done. Qed.

Lemma begin_inv c m h n ctx bh w' : funds_inv c (m, h, false) n → h + 1 < 2 ^ 63 → HeaderHeight ctx = h + 1 →
  BeginBlocker_epoching ctx bh (em_w m) = Ok w' → ∃ n', funds_inv c (set_w m w', h + 1, true) n'.
Proof using.
  intros [Hi Hmin Ht Hz _ Hq Hp] Hmax Hc Hb. cbn [fst snd] in *. unfold em_ep, em_stk in *.
  destruct (BeginBlocker_tiles _ _ _ _ _ _ Ht Hi Hmax Hc Hb) as (e & n' & Hge & Hn' & Ht' & Hv & Hi').
  destruct (BeginBlocker_queue _ _ _ _ _ Hge Hb) as (Hs & Hqq & Hl). pose proof (ti_n _ _ _ Ht) as Hn.
  destruct (GetEpoch_tiles _ _ _ Ht) as (e' & Hge' & He & Hen). rewrite Hge in Hge'. injection Hge' as <-.
  rewrite (next_epoch_last _ _ _ _ _ Ht He Hc Hmax Hz) in Hn', Hl. specialize (Hp e He). destruct Hq as [Q1 Q2 Q3 Q4].
  exists n'. assert (Hlater : ∀ k, n < k → GetQueueLength (ew_ep w') k = 0).
  { intros k Hk. unfold GetQueueLength. destruct Hl as [->|[_ [k0 ->]]]; [by apply Q1|].
    destruct (decide (k0 = k)) as [->|]; [by rewrite lookup_insert_eq|]. rewrite lookup_insert_ne by done. by apply Q1. }
  unfold pending in Hp. rewrite Hen in Hp. cbn [negb andb] in Hp.
  destruct (IsLastBlockByHeight e h) eqn:Hlast.
  - destruct (Q1 (n + 1) ltac:(lia)) as [Hempty _].
    assert (Hnil : GetEpochMsgs (ew_ep w') (n + 1) = []).
    { unfold GetEpochMsgs. rewrite Hqq. unfold em_ep in Hempty. by rewrite Hempty. }
    split; cbn [fst snd]; unfold em_ep, em_stk in *; cbn [set_w em_w em_MinAmount]; rewrite ?Hi', ?Hs, ?Hn'; [done|done|by rewrite <- Hn'| | | |].
    + by rewrite Hv by lia.
    + lia.
    + split; [|rewrite Hqq, Hempty; intros i Hx; rewrite lookup_empty in Hx; by destruct Hx|rewrite Hlater by lia; lia|by rewrite Hnil].
      intros k Hk. rewrite Hqq. split; [by apply Q1; lia|by apply Hlater; lia].
    + intros e2 He2 d. rewrite Hp. unfold pending, em_ep. cbn [negb andb set_w em_w].
      assert (EpochNumber e2 = n + 1) as ->. { rewrite Hn' in Ht'. eapply (ti_num _ _ _ Ht' (n + 1)). unfold views. by rewrite He2. }
      by rewrite Hnil.
  - destruct Hl as [Hl|[? _]]; [|done]. assert (Hqp : queue_part (ew_ep w') = queue_part (ew_ep (em_w m))) by (unfold queue_part; congruence).
    split; cbn [fst snd]; unfold em_ep, em_stk in *; cbn [set_w em_w em_MinAmount]; rewrite ?Hi', ?Hs, ?Hn'; [done|done|by rewrite <- Hn'| | | |].
    + by rewrite Hv by lia.
    + lia.
    + eapply queue_ok_part; [exact Hqp|reflexivity|by split].
    + intros e2 He2 d. rewrite Hp. unfold pending, em_ep. cbn [negb andb set_w em_w].
      assert (EpochNumber e2 = n) as ->. { rewrite Hn' in Ht'. eapply (ti_num _ _ _ Ht' n). unfold views. by rewrite He2. }
      by rewrite (GetEpochMsgs_part _ _ _ Hqp).
Qed.

(** The end of a block: the queue of an ended epoch is executed, and nothing else
    changes it. *)
Lemma EndBlocker_funds ctx (w w' : EpWorld (S := S) (E := E)) evs ups e : GetEpoch (ew_ep w) = Ok e →
  Forall good_msg (GetEpochMsgs (ew_ep w) (EpochNumber e)) →
  (∀ d, pool (ew_stk w) d = owed (GetEpochMsgs (ew_ep w) (EpochNumber e)) d) →
  (∀ e', EpochNumber e' = EpochNumber e → GetEpoch (setEpochInfo (ew_ep w) (EpochNumber e) e') = Ok e') →
  EndBlocker_epoching ctx w = Ok (w', evs, ups) →
  queue_part (ew_ep w') = queue_part (ew_ep w) ∧
  (∀ d, pool (ew_stk w') d = if IsLastBlock e ctx then 0 else owed (GetEpochMsgs (ew_ep w) (EpochNumber e)) d) ∧
  (IsLastBlock e ctx = true → ∃ w1 w2 hooks, ew_stk w1 = ew_stk w ∧
     executes ctx (GetEpochMsgs (ew_ep w) (EpochNumber e)) w1 w2 ∧
     StkApplyAndReturnValidatorSetUpdates (ew_stk w2) = Ok (ew_stk w', hooks, ups)).
Proof using.
  intros Hge Hg Hp Hset Hk. unfold EndBlocker_epoching in Hk. rewrite Hge in Hk. cbn [mbind outcome_bind] in Hk.
  destruct (IsLastBlock e ctx) eqn:Hlast; [|by injection Hk as <- _ _].
  apply bind_Ok in Hk as (s1 & Hs1 & Hk). apply bind_Ok in Hk as (msgs & Hms & Hk). apply bind_Ok in Hk as ([w2 evs2] & Hf & Hk).
  apply bind_Ok in Hk as ([[st hooks] upd] & Hu & Hk). apply bind_Ok in Hk as ([s3 e3] & Hh & Hk). injection Hk as <- _ <-.
  unfold RecordLastHeaderTime in Hs1. cbn [ew_ep ew_stk] in *. rewrite Hge in Hs1. cbn [mbind outcome_bind] in Hs1. rewrite Hlast in Hs1.
  cbn [negb] in Hs1. injection Hs1 as <-. unfold GetCurrentEpochMsgs in Hms. rewrite Hset in Hms by done. cbn [mbind outcome_bind EpochNumber] in Hms.
  injection Hms as <-. change (GetEpochMsgs (setEpochInfo _ _ _) (EpochNumber e)) with (GetEpochMsgs (ew_ep w) (EpochNumber e)) in Hf.
  apply (proj1 (must_Ok _ _)) in Hu. apply (proj1 (must_Ok _ _)) in Hh. pose proof (stakingHooks_part queue_part ltac:(done) ltac:(done) _ _ _ _ Hh) as Hq3.
  pose proof (runQueueds_part queue_part ltac:(done) ltac:(done) _ _ _ _ Hf) as Hq2. cbn [fst ew_ep] in Hq2, Hq3.
  apply (runQueued_executes _ _ _ _ Hg) in Hf as [Hex Hzero]; [|done]. cbn [fst] in Hex, Hzero.
  split; [by rewrite Hq3, Hq2|]. split; [intros d; rewrite (update_law _ _ _ _ Hu d); apply Hzero|].
  intros _. eexists _, w2, hooks. split; [|split; [exact Hex|exact Hu]]. reflexivity.
Qed.

Lemma GetEpoch_rewrite s h n e e' : tiles s h n → es_EpochInfo s !! n = Some e → EpochNumber e' = n →
  GetEpoch (setEpochInfo s n e') = Ok e'.
Proof using.
  intros Ht He Hen. unfold GetEpoch, setEpochInfo. cbn [with_EpochInfo es_EpochInfo].
  destruct (last (iterZ (<[n := e']> (es_EpochInfo s)))) as [[k x]|] eqn:Hl.
  - apply iterZ_last in Hl as [Hk Hmax]. specialize (Hmax n ltac:(by rewrite lookup_insert_eq)).
    destruct (decide (k = n)) as [->|Hne]; [by rewrite lookup_insert_eq in Hk; injection Hk as ->|].
    rewrite lookup_insert_ne in Hk by done. assert (Hd : is_Some (views s k)) by (unfold views; by rewrite Hk).
    apply (ti_dom _ _ _ Ht) in Hd. lia.
  - apply iterZ_last_None in Hl. by apply (insert_non_empty (es_EpochInfo s) n e') in Hl.
Qed.

Lemma end_inv c m h n ctx w' evs ups : funds_inv c (m, h, true) n → h < 2 ^ 63 → HeaderHeight ctx = h →
  EndBlocker_epoching ctx (em_w m) = Ok (w', evs, ups) → funds_inv c (set_w m w', h, false) n.
Proof using.
  intros [Hi Hmin Ht Hz _ Hq Hp] Hmax Hc He. cbn [fst snd] in *. unfold em_ep, em_stk in *.
  destruct (EndBlocker_views _ _ _ _ _ _ _ Ht He) as [Hv Hi'].
  destruct (GetEpoch_tiles _ _ _ Ht) as (e & Hge & Hn & Hen). specialize (Hp e Hn).
  assert (Hp' : ∀ d, pool (ew_stk (em_w m)) d = owed (GetEpochMsgs (ew_ep (em_w m)) n) d) by (intros d; rewrite Hp; unfold pending, em_ep; cbn; by rewrite Hen).
  destruct (EndBlocker_funds ctx (em_w m) w' evs ups e Hge) as (Hqp & Hpool & _); [rewrite Hen; apply (qo_good _ _ _ Hq)|by rewrite Hen| |done|].
  { intros e' Hen'. rewrite Hen in *. by eapply GetEpoch_rewrite. }
  assert (Ht' : tiles (ew_ep w') h n) by (by eapply tiles_views).
  split; cbn [fst snd]; unfold em_ep, em_stk; cbn [set_w em_w em_MinAmount]; [by rewrite Hi'|done|done|by rewrite Hv|done| |].
  - eapply queue_ok_part; [exact Hqp|reflexivity|done].
  - intros e2 He2 d. rewrite Hpool. unfold pending, em_ep. cbn [negb andb set_w em_w].
    assert (Hview : view e2 = view e). { specialize (Hv n). unfold views in Hv. rewrite He2, Hn in Hv. exact (inj Some _ _ Hv). }
    injection Hview as Hen2 Hint2 Hfirst2.
    assert (IsLastBlockByHeight e2 h = IsLastBlock e ctx) as ->.
    { unfold IsLastBlockByHeight, IsLastBlock, GetLastBlockHeight, CtxHeight. by rewrite Hen2, Hint2, Hfirst2, Hc. }
    rewrite Hen2. destruct (IsLastBlock e ctx); [done|]. by rewrite (GetEpochMsgs_part _ _ _ Hqp).
Qed.

(** A step that keeps the epochs, the queue and the pool. *)
Lemma inside_inv c m m' h b n : funds_inv c (m, h, b) n → (∀ k, views (em_ep m') k = views (em_ep m) k) →
  queue_part (em_ep m') = queue_part (em_ep m) → 2 ≤ es_Interval (em_ep m') < 2 ^ 63 → 1 ≤ em_MinAmount m' →
  (∀ d, pool (em_stk m') d = pool (em_stk m) d) → funds_inv c (m', h, b) n.
Proof using.
  intros [Hi Hmin Ht Hz Ho Hq Hp] Hv Hqp Hi' Hmin' Hpool. cbn [fst snd] in *.
  assert (Ht' : tiles (em_ep m') h n) by (by eapply tiles_views).
  split; cbn [fst snd]; [done|done|done|by rewrite Hv|done|eapply queue_ok_part; [exact Hqp|reflexivity|done]|].
  intros e2 He2 d. destruct (GetEpoch_tiles _ _ _ Ht) as (e & _ & Hn & Hen). rewrite Hpool, (Hp e Hn d).
  assert (Hview : view e2 = view e). { specialize (Hv n). unfold views in Hv. rewrite He2, Hn in Hv. exact (inj Some _ _ Hv). }
  injection Hview as Hen2 Hint2 Hfirst2. unfold pending.
  assert (IsLastBlockByHeight e2 h = IsLastBlockByHeight e h) as ->.
  { unfold IsLastBlockByHeight, GetLastBlockHeight. by rewrite Hen2, Hint2, Hfirst2. }
  by rewrite Hen2, (GetEpochMsgs_part _ _ _ Hqp).
Qed.

(** A message is queued after its funds, if it has any, are taken from its own
    account. *)
Lemma lock_deposits (lock : bool) qm st st' :
  (if lock then LockFundsForDelegateMsgs st qm = Ok st' else st' = st) →
  (if lock then good_msg qm else extractAddrAndCoinsFromMsg qm = Ok None) → good_msg qm ∧ deposited qm st st'.
Proof using.
  destruct lock; intros Hl Hg; [by eauto using lock_good|]. subst st'. unfold deposited, moved, good_msg, locked. rewrite Hg. split; [done|]. split; [lia|done].
Qed.

Lemma handled_inv c m m' h n ctx : funds_inv c (m, h, true) n → h < 2 ^ 63 → c + 1 < 2 ^ 64 → HeaderHeight ctx = h → handled ctx m m' →
  funds_inv (c + 1) (m', h, true) n.
Proof using.
  intros [Hi Hmin Ht Hz Ho Hq Hp] Hmax Hcnt Hc Hh. cbn [fst snd] in *. specialize (Ho eq_refl).
  apply handled_queues in Hh as (lock & tx & msg & Hqm & Hgood); [|rewrite (CtxHeight_small ctx h) by (done || lia); lia|done].
  apply queueMsg_Ok in Hqm as (qm & st & s' & Emsg & Henq & -> & Hlock). specialize (Hgood qm Emsg).
  destruct (lock_deposits _ _ _ _ Hlock Hgood) as [Hg [Hst _]].
  destruct (EnqueueMsg_queue _ _ _ _ _ _ Ht Hq Hcnt Hg Henq) as (Hms & Hq' & Hfix). injection Hfix as Hint Hinfo.
  assert (Hv : ∀ k, views s' k = views (em_ep m) k) by (intros k; unfold views; by rewrite Hinfo).
  split; cbn [fst snd]; unfold em_ep, em_stk; cbn [set_w em_w em_MinAmount ew_ep ew_stk].
  - by rewrite Hint.
  - done.
  - by eapply tiles_views.
  - by rewrite Hv.
  - done.
  - done.
  - intros e2 He2 d. rewrite Hinfo in He2. destruct (GetEpoch_tiles _ _ _ Ht) as (e & _ & Hn & Hen). rewrite Hn in He2. injection He2 as <-.
    rewrite Hst, (Hp e Hn d). unfold pending, em_ep. cbn [negb andb set_w em_w ew_ep]. rewrite Hen, Hms, owed_app. cbn [owed]. unfold em_ep. lia.
Qed.



(** A validator of the genesis is created at once. *)
Lemma gentx_inv c m n ctx tx types ck key msg ck' m' : funds_inv c (m, 0, false) n → HeaderHeight ctx = 0 →
  (∀ a, ValFromBech32 (cv_ValidatorAddress msg) = Some a → user a) →
  WrappedCreateValidator ctx tx types ck m key msg = Ok (ck', m') → funds_inv c (m', 0, false) n.
Proof using.
  intros Hinv Hc Hu H. unfold WrappedCreateValidator in H. apply bind_Ok in H as (gas & _ & H). apply bind_Ok in H as (a & _ & H).
  apply bind_Ok in H as (ck1 & _ & H). unfold CtxHeight in H. rewrite Hc in H. cbn [u64 Z.eqb] in H.
  change (u64 0 =? 0) with true in H. apply bind_Ok in H as ([st hooks] & Hs & H). apply bind_Ok in H as ([s e] & Hh & H). injection H as _ <-.
  pose proof (stakingHooks_part fixed_part ltac:(done) ltac:(done) _ _ _ _ Hh) as Hfix. injection Hfix as Hint Hinfo.
  pose proof (stakingHooks_part queue_part ltac:(done) ltac:(done) _ _ _ _ Hh) as Hqp. cbn [fst] in *.
  eapply inside_inv; [exact Hinv|..]; unfold em_ep, em_stk in *; cbn [set_w em_w ew_ep ew_stk em_MinAmount].
  - intros k. unfold views. by rewrite Hinfo.
  - exact Hqp.
  - rewrite Hint. apply Hinv.
  - apply Hinv.
  - intros d. eapply (message_law _ (mkQueued [] [] 0 0 (toStaking msg))); [|exact Hs].
    unfold extractAddrAndCoinsFromMsg. cbn [qm_Msg toStaking]. destruct (ValFromBech32 _) as [b|] eqn:Hb; [by apply Hu|done].
Qed.

Lemma funds_inv_mono c c' st n : c ≤ c' → funds_inv c st n → funds_inv c' st n.
Proof using. intros Hc [H1 H2 H3 H4 H5 H6 H7]. split; try done. by eapply queue_ok_part. Qed.

Lemma funds_step_inv c st st' n : funds_inv c st n → st'.1.2 < 2 ^ 63 → c + 1 < 2 ^ 64 → funds_step st st' → ∃ n', funds_inv (c + 1) st' n'.
Proof using.
  intros Hinv Hmax Hc Hs. destruct Hs as [m ctx tx types ck key msg ck' m' Hc0 Hu H|m h ctx bh w' Hh H|m h ctx w' evs ups Hh H|m h ctx m' Hh H
    |m h ctx hk s' e' H|m h st' H|m h au rq p m' H Hp]; cbn [fst snd] in Hmax.
  - exists n. eapply funds_inv_mono; [|by eapply gentx_inv]. lia.
  - destruct (begin_inv _ _ _ _ _ _ _ Hinv Hmax Hh H) as (n' & Hn'). exists n'. eapply funds_inv_mono; [|exact Hn']. lia.
  - exists n. eapply funds_inv_mono; [|by eapply end_inv]. lia.
  - exists n. by eapply handled_inv.
  - exists n. eapply funds_inv_mono; [|eapply inside_inv; [exact Hinv|..]]; [lia|..]; unfold em_ep, em_stk in *; cbn [set_w em_w ew_ep ew_stk em_MinAmount].
    + pose proof (stakingHook_part fixed_part ltac:(done) ltac:(done) _ _ _ _ H) as Hfix. injection Hfix as _ Hinfo. intros k. unfold views. by rewrite Hinfo.
    + exact (stakingHook_part queue_part ltac:(done) ltac:(done) _ _ _ _ H).
    + pose proof (stakingHook_part fixed_part ltac:(done) ltac:(done) _ _ _ _ H) as Hfix. injection Hfix as -> _. apply Hinv.
    + apply Hinv.
    + done.
  - exists n. eapply funds_inv_mono; [|eapply inside_inv; [exact Hinv|..]]; [lia|done|done|apply Hinv|apply Hinv|exact H].
  - exists n. unfold UpdateParams_module in H. destruct (negb _); [done|]. destruct (EpochingParams_Validate p) as [u| |] eqn:Hval; [|done..].
    injection H as <-. unfold EpochingParams_Validate, validateEpochInterval, validateMinAmount in Hval.
    apply bind_Ok in Hval as (? & H1 & Hval). apply bind_Ok in Hval as (? & _ & H2).
    destruct (Z.ltb_spec (ep_EpochInterval p) 2); [done|]. destruct (Z.ltb_spec (ep_MinAmount p) 1); [done|].
    eapply funds_inv_mono; [|eapply inside_inv; [exact Hinv|..]]; [lia|done|done|unfold em_ep, SetParams_epoching; cbn; lia|cbn; lia|done].
Qed.

Lemma funds_step_height st st' : funds_step st st' → st.1.2 ≤ st'.1.2.
Proof using. destruct 1; cbn [fst snd]; lia. Qed.

Lemma funds_run_inv k st st' c n : nsteps funds_step k st st' → funds_inv c st n → st'.1.2 < 2 ^ 63 → c + Z.of_nat k < 2 ^ 64 →
  ∃ n', funds_inv (c + Z.of_nat k) st' n'.
Proof using.
  intros Hr. revert c n. induction Hr as [st|k st st1 st' Hs Hr IH]; intros c n Hinv Hmax Hc.
  { exists n. eapply funds_inv_mono; [|exact Hinv]. lia. }
  assert (Hmono : st1.1.2 ≤ st'.1.2).
  { clear -Hr. induction Hr as [|k a b c Hs _ IH]; [lia|]. apply funds_step_height in Hs. lia. }
  destruct (funds_step_inv c st st1 n Hinv ltac:(lia) ltac:(lia) Hs) as (n1 & H1).
  destruct (IH (c + 1) n1 H1 Hmax ltac:(lia)) as (n' & Hn'). exists n'. eapply funds_inv_mono; [|exact Hn']. lia.
Qed.

(** ** The theorems *)

(** A chain started from a genesis without epochs. *)
Definition started (m0 : EpModule S E) : Prop :=
  ∃ ctx m p, es_EpochInfo (em_ep m) = ∅ ∧ es_Queue (em_ep m) = ∅ ∧ es_QueueLen (em_ep m) = ∅ ∧
    (∀ d, pool (em_stk m) d = 0) ∧ ep_EpochInterval p < 2 ^ 63 ∧
    InitGenesis_epoching ctx m (mkEpochingGenesis p [] [] [] [] [] []) = Ok m0.

Lemma started_inv m0 : started m0 → funds_inv 0 (m0, 0, false) 0.
Proof using.
  intros (ctx & m & p & He & Hq & Hl & Hp & Hi & H). unfold InitGenesis_epoching in H. apply bind_Ok in H as ([] & Hv & H).
  apply (proj1 (must_Ok _ _)) in Hv. apply (proj1 (must_Ok _ _)) in H. unfold EpochingGenesis_Validate in Hv. cbn in Hv.
  unfold EpochingParams_Validate, validateEpochInterval, validateMinAmount in Hv. apply bind_Ok in Hv as (? & H1 & Hv).
  apply bind_Ok in Hv as (? & _ & H2). destruct (Z.ltb_spec (ep_EpochInterval p) 2); [done|]. destruct (Z.ltb_spec (ep_MinAmount p) 1); [done|].
  unfold InitGenesis_keeper in H. cbn [gs_Epochs gs_Queues gs_ValidatorSets gs_SlashedValidatorSets gs_ValidatorsLifecycle gs_DelegationsLifecycle gs_Params] in H.
  apply bind_Ok in H as (s1 & Ha & H). unfold InitEpoch in Ha. destruct (0 <? _); [done|]. injection Ha as <-.
  set (s1 := setEpochInfo _ _ _) in H.
  assert (Hs1 : es_EpochInfo s1 = <[0 := NewEpoch 0 1 0 (Some (HeaderTime ctx))]> ∅) by (unfold s1, setEpochInfo; cbn; by rewrite He).
  destruct (genesis_tiles s1 _ Hs1) as [Ht1 _]. destruct (GetEpoch_tiles _ _ _ Ht1) as (e1 & Hge & _ & Hen).
  cbn [InitGenMsgQueue] in H. unfold InitMsgQueue in H. rewrite Hge in H. cbn [mbind outcome_bind] in H. rewrite Hen in H.
  cbn [InitGenValidatorSet] in H. apply bind_Ok in H as (s2 & Hb & H). unfold InitValidatorSet in Hb. apply bind_Ok in Hb as (? & _ & Hb). injection Hb as <-.
  cbn [InitGenSlashedVotingPower] in H. apply bind_Ok in H as (s3 & Hc & H). unfold InitSlashedVotingPower in Hc.
  apply bind_Ok in Hc as (? & _ & Hc). injection Hc as <-. cbn [foldM mbind outcome_bind] in H. injection H as <-.
  set (m0 := SetParams_epoching _ _).
  assert (Hinfo : es_EpochInfo (em_ep m0) = <[0 := NewEpoch 0 1 0 (Some (HeaderTime ctx))]> ∅) by exact Hs1.
  assert (Hqueue : es_Queue (em_ep m0) = ∅) by exact Hq.
  assert (Hlen : es_QueueLen (em_ep m0) = <[0 := 0]> ∅) by (rewrite <- Hl; done).
  destruct (genesis_tiles (em_ep m0) _ Hinfo) as [Ht Hz].
  assert (Hnil : ∀ k, GetEpochMsgs (em_ep m0) k = []) by (intros k; unfold GetEpochMsgs; by rewrite Hqueue).
  split; cbn [fst snd]; [split; [done|exact Hi]|done|done|done|done| |].
  - assert (Hlen0 : ∀ k, GetQueueLength (em_ep m0) k = 0).
    { intros k. unfold GetQueueLength. rewrite Hlen. destruct (decide (k = 0)) as [->|]; [by rewrite lookup_insert_eq|]. by rewrite lookup_insert_ne. }
    split; [intros k _; by rewrite Hqueue, Hlen0| |by rewrite Hlen0|by rewrite Hnil].
    intros i. rewrite Hqueue. intros [qm Hqm]. by apply (lookup_empty_Some (M := gmap Z) i qm) in Hqm.
  - intros e _ d. unfold pending. rewrite Hnil. destruct (negb false && _); exact (Hp d).
Qed.


(** The epoch of the genesis block has interval 1, and validation requires at
    least 2: whatever has happened since, the genesis that the module exports is
    refused, and the import panics. *)
Theorem exported_genesis_rejected m0 k m h opened ctx (m' : EpModule S E) : started m0 →
  nsteps funds_step k (m0, 0, false) (m, h, opened) → Z.of_nat k < 2 ^ 64 → h < 2 ^ 63 →
  InitGenesis_epoching ctx m' (ExportGenesis_epoching m) = Panic ErrInvalidEpoch.
Proof using.
  intros Hs Hr Hk Hh. destruct (funds_run_inv _ _ _ _ _ Hr (started_inv _ Hs) Hh Hk) as (n & [_ _ Ht Hz _ _ _]). cbn [fst snd] in *.
  apply views_Some in Hz as (e0 & He0 & Hv0). injection Hv0 as Hn0 Hi0 Hf0.
  assert (Hhead : head (iterZ (es_EpochInfo (em_ep m))) = Some (0, e0)).
  { destruct (head (iterZ (es_EpochInfo (em_ep m)))) as [[k0 e]|] eqn:E0.
    - apply iterZ_head in E0 as [Hk0 Hmin]. specialize (Hmin 0 ltac:(by rewrite He0)).
      assert (Hd : is_Some (views (em_ep m) k0)) by (unfold views; by rewrite Hk0). apply (ti_dom _ _ _ Ht) in Hd.
      assert (k0 = 0) as -> by lia. congruence.
    - apply head_None, iterZ_nil in E0. by rewrite E0 in He0. }
  unfold InitGenesis_epoching, EpochingGenesis_Validate, ExportGenesis_epoching. cbn [gs_Epochs].
  destruct (iterZ (es_EpochInfo (em_ep m))) as [|[k0 e] l]; [done|]. cbn in Hhead. injection Hhead as -> ->.
  cbn [fmap list_fmap snd validateEpochs_epoching validateEpochs_from]. rewrite !bool_decide_false by set_solver.
  rewrite andb_false_r. unfold Epoch_ValidateBasic. rewrite Hi0. done.
Qed.
End funds.

(** ** An example

    The pool and the balances of the users, with a staking module that accepts
    everything. A user with 9 delegates 5 in the first block of an epoch of two,
    and the delegation is executed in the second. *)
Module FundsExample.
Abbreviation St0 := (gmap string Z * gmap bytes (gmap string Z))%type.
Definition pool0 (st : gmap string Z) (d : string) : Z := default 0 (st !! d).
Definition add0 (a b : gmap string Z) : gmap string Z := union_with (λ x y, Some (x + y)) a b.
Lemma add0_lookup a b d : pool0 (add0 a b) d = pool0 a d + pool0 b d.
Proof. unfold pool0, add0. rewrite lookup_union_with. destruct (a !! d), (b !! d); simpl; lia. Qed.
Lemma opp0_lookup a d : pool0 (Z.opp <$> a) d = - pool0 a d.
Proof. unfold pool0. rewrite lookup_fmap. destruct (a !! d); simpl; lia. Qed.

Lemma coins0_lookup c d : pool0 (coins_map c) d = AmountOf c d.
Proof. done. Qed.
Definition has0 (b : gmap string Z) (c : Coins) : bool := bool_decide (map_Forall (λ d x, x ≤ pool0 b d) (coins_map c)).
Definition account (st : St0) (a : bytes) : gmap string Z := default ∅ (st.2 !! a).
Lemma account_insert (p : gmap string Z) (acc : gmap bytes (gmap string Z)) a b x :
  account (p, <[a := x]> acc) b = if decide (b = a) then x else default ∅ (acc !! b).
Proof. unfold account. cbn [snd]. destruct (decide (b = a)) as [->|]; [by rewrite lookup_insert_eq|by rewrite lookup_insert_ne]. Qed.

#[local] Instance addresses : Bech32 := hex_addresses.
#[local] Instance valAddresses : ValBech32 := {| ValString := hex_encode; ValFromBech32 := hex_decode |}.
#[local] Instance codec : EpochingCodec := {| MarshalStakingMsg _ := Ok []; ep_tmhash b := b |}.
#[local] Instance staking : Staking St0 := {|
  LastValidatorPowers _ := [];
  StkMsgServer st _ := Ok (st, []);
  StkApplyAndReturnValidatorSetUpdates st := Ok (st, [], []);
  SendCoinsToDelegatePool st a c :=
    if has0 (account st a) c then Ok (add0 st.1 (coins_map c), <[a := add0 (account st a) (Z.opp <$> coins_map c)]> st.2)
    else Err ErrInsufficientBalance;
  SendCoinsFromDelegatePool st a c :=
    if has0 st.1 c then Ok (add0 st.1 (Z.opp <$> coins_map c), <[a := add0 (account st a) (coins_map c)]> st.2)
    else Err ErrInsufficientBalance |}.
#[local] Instance queries : StakingQueries St0 := {|
  stk_GetValidator _ _ := Ok tt; stk_GetValidatorByConsAddr _ _ := Ok tt; stk_BondDenom _ := Ok "ubbn"%string;
  stk_GetParams _ := Ok (0, "ubbn"%string); stk_ValidateUnbondAmount _ _ _ x := Ok x;
  stk_HasMaxUnbondingDelegationEntries _ _ _ := Ok false; stk_HasReceivingRedelegation _ _ _ := Ok false;
  stk_HasMaxRedelegationEntries _ _ _ _ := Ok false; stk_EnsureLength _ := Ok tt; stk_NewValidator _ _ _ := Ok tt;
  stk_SetInitialCommission _ _ _ := Ok tt; bank_GetBalance _ _ _ := 0 |}.
#[local] Instance hooks : EpochingHooks unit := {|
  AfterEpochBegins _ e _ := e; BeforeEpochEnds _ e _ := e; AfterEpochEnds _ e _ := e; BeforeSlashThreshold _ e _ := e |}.

#[local] Instance delegatePool : DelegatePool (S := St0).
Proof.
  refine {| pool st := pool0 st.1; balanceOf st a := pool0 (account st a); user _ := True |}.
  - intros st a c st' _ Hs d. cbn in Hs. destruct (has0 _ _); [|done]. injection Hs as <-. cbn [fst].
    rewrite !account_insert, decide_True, !add0_lookup, opp0_lookup, coins0_lookup by done. split_and!; [lia|lia|].
    intros b _ Hb. by rewrite account_insert, decide_False.
  - intros st a c _ Hc. eexists. split.
    + cbn. unfold has0. rewrite bool_decide_true; [reflexivity|]. intros d x Hx. specialize (Hc d). unfold AmountOf, coins_map in *.
      rewrite Hx in Hc. simpl in Hc. lia.
    + intros d. cbn [fst]. rewrite !account_insert, decide_True, !add0_lookup, opp0_lookup, coins0_lookup by done. split_and!; [lia|lia|].
      intros b _ Hb. by rewrite account_insert, decide_False.
  - intros st msg st' hs _ [= <- _] d. done.
  - intros st st' hs ups [= <- _ _] d. done.
Defined.

Definition at_height (h : Z) : Ctx := mkCtx h [] (h * 1000).
Definition blank : EpModule St0 unit :=
  mkEpModule (mkEpWorld (mkEpoching 0 ∅ ∅ ∅ ∅ ∅ ∅ ∅ ∅ ∅) (∅, {[ [x01] := {[ "ubbn"%string := 9 ]} ]}) tt) (ep_ExecuteGas DefaultEpochingParams) 1.
Definition params : EpochingParams := mkEpochingParams 2 (ep_ExecuteGas DefaultEpochingParams) 1.
Definition m0 : EpModule St0 unit := get_ok blank (InitGenesis_epoching (at_height 0) blank (mkEpochingGenesis params [] [] [] [] [] [])).
Definition m1 := set_w m0 (get_ok (em_w blank) (BeginBlocker_epoching (at_height 1) [] (em_w m0))).
Definition m2 := get_ok blank (WrappedDelegate (at_height 1) [] m1 (Some (hex_encode [x01], hex_encode [x02], ("ubbn"%string, 5)))).
Definition end_of (h : Z) (m : EpModule St0 unit) := get_ok (em_w blank, [], []) (EndBlocker_epoching (at_height h) (em_w m)).
Definition m3 := set_w m2 (end_of 1 m2).1.1.
Definition m4 := set_w m3 (get_ok (em_w blank) (BeginBlocker_epoching (at_height 2) [] (em_w m3))).
Definition m5 := set_w m4 (end_of 2 m4).1.1.

Lemma m0_started : started m0.
Proof.
  exists (at_height 0), blank, params. split_and!; [done..|]. apply is_ok_get. by vm_compute.
Qed.

Lemma run_to_delegated : nsteps (funds_step (λ _, true)) 3 (m0, 0, false) (m3, 1, false).
Proof.
  eapply nsteps_l; [apply (fs_begin _ m0 0 (at_height 1) [] (em_w m1)); [done|apply is_ok_get; by vm_compute]|].
  eapply nsteps_l; [eapply (fs_handled _ _ 1 (at_height 1) m2); [done|eapply h_delegate; [done|apply is_ok_get; by vm_compute]]|].
  eapply nsteps_l; [|apply nsteps_O].
  apply (fs_end _ m2 1 (at_height 1) _ (end_of 1 m2).1.2 (end_of 1 m2).2); [done|].
  rewrite <- !surjective_pairing. apply is_ok_get. by vm_compute.
Qed.

Lemma run_to_last : nsteps (funds_step (λ _, true)) 4 (m0, 0, false) (m4, 2, true).
Proof.
  apply (nsteps_trans 3 1 _ (m3, 1, false)); [exact run_to_delegated|].
  eapply nsteps_l; [|apply nsteps_O].
  apply (fs_begin _ m3 1 (at_height 2) [] (em_w m4)); [done|apply is_ok_get; by vm_compute].
Qed.

Lemma run_to_executed : nsteps (funds_step (λ _, true)) 5 (m0, 0, false) (m5, 2, false).
Proof.
  apply (nsteps_trans 4 1 _ (m4, 2, true)); [exact run_to_last|].
  eapply nsteps_l; [|apply nsteps_O].
  apply (fs_end _ m4 2 (at_height 2) _ (end_of 2 m4).1.2 (end_of 2 m4).2); [done|].
  rewrite <- !surjective_pairing. apply is_ok_get. by vm_compute.
Qed.


Lemma exported_genesis_rejected_witness :
  InitGenesis_epoching (at_height 0) blank (ExportGenesis_epoching m5) = Panic ErrInvalidEpoch.
Proof.
  exact (exported_genesis_rejected (λ _, true) m0 5 m5 2 false (at_height 0) blank m0_started run_to_executed ltac:(lia) ltac:(lia)).
Defined.
End FundsExample.
