(* ===== verification/BlsLaws.v ===== *)
(** * What the checkpointing module relies on of its libraries

    The laws of BLS aggregation and of bitmaps, as classes, and a model that has
    them: signatures and keys are numbers modulo a power of two, a signature is the
    product of the key and the message, aggregation is addition. *)

From S2P Require Import Prelude Bytes Store BbnTypes Coins TxFormatter Epochs Checkpoints.

(** Aggregation of what verifies does not fail, does not depend on the order and can
    be done one element at a time; compressed points have a fixed length; signatures of one message that verify aggregate to
    one that verifies under the aggregate key, unless that key is the point at
    infinity, which verification refuses. *)
Class BlsLaws (BL : Blst) := {
  bls_infinity : bytes;
  agg_sigs_one sig pk msg d : VerifyCompressed sig pk msg d = true → AggregateCompressedSigs [sig] = Some sig;
  agg_pks_one sig pk msg d : VerifyCompressed sig pk msg d = true → AggregateCompressedPks [pk] = Some pk;
  agg_sigs_snoc l a x : l ≠ [] → AggregateCompressedSigs l = Some a →
    AggregateCompressedSigs [a; x] = AggregateCompressedSigs (l ++ [x]);
  agg_pks_snoc l a x : l ≠ [] → AggregateCompressedPks l = Some a →
    AggregateCompressedPks [a; x] = AggregateCompressedPks (l ++ [x]);
  agg_pks_perm l l' : l ≡ₚ l' → AggregateCompressedPks l = AggregateCompressedPks l';
  agg_pks_total l a sig pk msg d : AggregateCompressedPks l = Some a → VerifyCompressed sig pk msg d = true →
    is_Some (AggregateCompressedPks (l ++ [pk]));
  agg_sigs_length l a : AggregateCompressedSigs l = Some a → length a = SignatureSize;
  agg_pks_length l a : AggregateCompressedPks l = Some a → length a = PubKeySize;
  agg_verify sigs pks msg d s p : Forall2 (λ s p, VerifyCompressed s p msg d = true) sigs pks →
    AggregateCompressedSigs sigs = Some s → AggregateCompressedPks pks = Some p → p ≠ bls_infinity →
    VerifyCompressed s p msg d = true
}.

(** [github.com/boljen/go-bitmap]. *)
Class GoBitmapLaws (BM : GoBitmap) := {
  bitmap_New_length n : length (bitmap_New n) = ((n + 7) / 8)%nat;
  bitmap_New_Get n i : bitmap_Get (bitmap_New n) i = false;
  bitmap_Set_length b i v : length (bitmap_Set b i v) = length b;
  bitmap_Get_Set b i j v : (i < bitmap_Len b)%nat → bitmap_Get (bitmap_Set b i v) j = if bool_decide (i = j) then v else bitmap_Get b j
}.

(** ** A model *)

Module ToyBls.

Definition N : Z := 256 ^ 48.
Definition sig_ok (b : bytes) : bool := (length b =? 48)%nat.
Definition pk_ok (b : bytes) : bool := (length b =? 96)%nat && (be_value b <? N).
Definition total (l : list bytes) : Z := sumZ (be_value <$> l) `mod` N.
Definition aggregate (ok : bytes → bool) (width : nat) (l : list bytes) : option bytes :=
  match l with [] => None | _ => if forallb ok l then Some (be_bytes width (total l)) else None end.
#[export] Instance toy_blst : Blst :=
  {| VerifyCompressed s p msg _ := sig_ok s && pk_ok p && (be_value s =? (be_value p * be_value msg) `mod` N);
     AggregateCompressedSigs := aggregate sig_ok 48; AggregateCompressedPks := aggregate pk_ok 96; UncompressPk := pk_ok |}.

Lemma N_pos : 0 < N.
Proof. done. Qed.
Lemma total_range l : 0 ≤ total l < N.
Proof. apply Z.mod_pos_bound, N_pos. Qed.
Lemma total_app l1 l2 : total (l1 ++ l2) = (total l1 + total l2) `mod` N.
Proof. unfold total. rewrite fmap_app, sumZ_app, <- Zplus_mod. done. Qed.
Lemma be_value_small n z : 0 ≤ z < 256 ^ Z.of_nat n → be_value (be_bytes n z) = z.
Proof. intros H. rewrite be_value_be_bytes. by apply Z.mod_small. Qed.
Lemma width_value w z : (w = 48 ∨ w = 96)%nat → 0 ≤ z < N → be_value (be_bytes w z) = z.
Proof.
  intros Hw Hz. apply be_value_small. destruct Hw as [-> | ->]; [done|]. unfold N in Hz.
  assert (256 ^ 48 < 256 ^ Z.of_nat 96) by (apply Z.pow_lt_mono_r; lia). lia.
Qed.

(** The two kinds of points, uniformly. *)
Record kind (ok : bytes → bool) (w : nat) : Prop := mkKind {
  kind_width : (w = 48 ∨ w = 96)%nat;
  kind_length b : ok b = true → length b = w ∧ be_value b < N;
  kind_ok z : 0 ≤ z < N → ok (be_bytes w z) = true
}.
Lemma sig_kind : kind sig_ok 48.
Proof.
  split; [by left| |].
  - intros b Hb. apply Nat.eqb_eq in Hb. split; [done|]. pose proof (be_value_range b). rewrite Hb in *. unfold N. lia.
  - intros z _. unfold sig_ok. by rewrite be_bytes_length.
Qed.
Lemma pk_kind : kind pk_ok 96.
Proof.
  split; [by right| |].
  - intros b Hb. apply andb_true_iff in Hb as [H1 H2]. apply Nat.eqb_eq in H1. split; [done|lia].
  - intros z Hz. unfold pk_ok. rewrite be_bytes_length, width_value by (by right || done). cbn. lia.
Qed.

Lemma total_one ok w l : kind ok w → total [be_bytes w (total l)] = total l.
Proof.
  intros Hk. unfold total at 1. cbn [fmap list_fmap sumZ foldr].
  rewrite width_value by (apply Hk || apply total_range). rewrite Z.add_0_r. apply Z.mod_small, total_range.
Qed.
Lemma aggregate_cons ok w l : l ≠ [] → aggregate ok w l = if forallb ok l then Some (be_bytes w (total l)) else None.
Proof. by destruct l. Qed.
Lemma aggregate_one ok w b : kind ok w → ok b = true → aggregate ok w [b] = Some b.
Proof.
  intros Hk Hb. destruct (kind_length _ _ Hk b Hb) as [Hl Hv]. rewrite aggregate_cons by done.
  cbn [forallb]. rewrite Hb. cbn [andb]. f_equal.
  unfold total. cbn. rewrite Z.add_0_r, Z.mod_small by (pose proof (be_value_nonneg b); lia). rewrite <- Hl. apply be_bytes_be_value.
Qed.
Lemma aggregate_Some ok w l a : aggregate ok w l = Some a → l ≠ [] ∧ forallb ok l = true ∧ a = be_bytes w (total l).
Proof.
  unfold aggregate. destruct l as [|x l]; [done|]. destruct (forallb ok (x :: l)) eqn:E; [|done]. intros [= <-]. done.
Qed.
Lemma aggregate_snoc ok w l a x : kind ok w → l ≠ [] → aggregate ok w l = Some a →
  aggregate ok w [a; x] = aggregate ok w (l ++ [x]).
Proof.
  intros Hk Hne Ha. apply aggregate_Some in Ha as (_ & Hok & ->).
  rewrite !aggregate_cons by (done || by destruct l). rewrite forallb_app, Hok. cbn [forallb andb].
  rewrite (kind_ok _ _ Hk) by apply total_range. cbn [andb]. destruct (ok x && true); [|done]. do 2 f_equal.
  change [be_bytes w (total l); x] with ([be_bytes w (total l)] ++ [x]). rewrite !total_app.
  by rewrite (total_one _ _ _ Hk).
Qed.

#[export] Instance toy_bls_laws : BlsLaws toy_blst.
Proof.
  refine {| bls_infinity := [] |}; cbn [VerifyCompressed AggregateCompressedSigs AggregateCompressedPks toy_blst].
  - intros s p msg _ H. apply aggregate_one; [apply sig_kind|]. by destruct (sig_ok s).
  - intros s p msg _ H. apply aggregate_one; [apply pk_kind|]. destruct (pk_ok p); [done|]. by rewrite andb_false_r in H.
  - intros. by apply aggregate_snoc; [apply sig_kind| |].
  - intros. by apply aggregate_snoc; [apply pk_kind| |].
  - intros l l' Hp. unfold aggregate.
    assert (Hf : forallb pk_ok l = forallb pk_ok l').
    { apply eq_true_iff_eq. rewrite !forallb_forall. split; intros Hall x Hx; apply Hall.
      - by eapply Permutation_in; [symmetry|]. - by eapply Permutation_in. }
    assert (Ht : total l = total l') by (unfold total; f_equal; apply sumZ_perm; by rewrite Hp).
    rewrite <- Hf, <- Ht. destruct l, l'; try done; [by apply Permutation_nil_cons in Hp|by symmetry in Hp; apply Permutation_nil_cons in Hp].
  - intros l a s p msg _ Ha Hv. apply aggregate_Some in Ha as (Hne & Hok & _).
    assert (Hp : pk_ok p = true) by (destruct (pk_ok p); [done|]; by rewrite andb_false_r in Hv).
    rewrite aggregate_cons by (by destruct l). rewrite forallb_app, Hok. cbn [forallb andb]. by rewrite Hp.
  - intros l a (_ & _ & ->)%aggregate_Some. apply be_bytes_length.
  - intros l a (_ & _ & ->)%aggregate_Some. apply be_bytes_length.
  - intros sigs pks msg _ s p Hall Hs Hp _. apply aggregate_Some in Hs as (_ & Hsok & ->), Hp as (_ & Hpok & ->).
    rewrite (kind_ok _ _ sig_kind), (kind_ok _ _ pk_kind) by apply total_range. cbn [andb].
    rewrite !width_value by first [apply total_range | by left | by right]. apply Z.eqb_eq.
    clear Hsok Hpok. induction Hall as [|s p sigs pks Hsp Hall IH]; [done|].
    change (s :: sigs) with ([s] ++ sigs). change (p :: pks) with ([p] ++ pks). rewrite !total_app, IH.
    apply andb_true_iff in Hsp as [_ Hsp]. apply Z.eqb_eq in Hsp. unfold total at 1 3. cbn. rewrite !Z.add_0_r, Hsp, Zmod_mod.
    rewrite Zmult_mod_idemp_l, Z.mul_add_distr_r, <- Zplus_mod. rewrite (Zplus_mod (be_value p `mod` N * _)), Zmult_mod_idemp_l, <- Zplus_mod. done.
Defined.

(** ** Bitmaps: bit [i] of byte [i / 8]. *)

Definition byte_get (x : byte) (k : nat) : bool := Z.testbit (byte_code x) (Z.of_nat k).
Definition byte_set (x : byte) (k : nat) (v : bool) : byte :=
  byte_of_Z (if v then Z.setbit (byte_code x) (Z.of_nat k) else Z.clearbit (byte_code x) (Z.of_nat k)).
#[export] Instance toy_bitmap : GoBitmap :=
  {| bitmap_New n := replicate ((n + 7) / 8) x00;
     bitmap_Get b i := match b !! (i / 8)%nat with Some x => byte_get x (i mod 8) | None => false end;
     bitmap_Set b i v := match b !! (i / 8)%nat with Some x => <[(i / 8)%nat := byte_set x (i mod 8) v]> b | None => b end |}.

Definition byte_laws (x : byte) : bool :=
  forallb (λ k, forallb (λ j, forallb (λ v, Bool.eqb (byte_get (byte_set x k v) j) (if (k =? j)%nat then v else byte_get x j)) [true; false])
    (seq 0 8)) (seq 0 8).
Lemma byte_laws_hold x : byte_laws x = true.
Proof. destruct x; vm_compute; reflexivity. Qed.
Lemma byte_get_set x k j v : (k < 8)%nat → (j < 8)%nat → byte_get (byte_set x k v) j = if bool_decide (k = j) then v else byte_get x j.
Proof.
  intros Hk Hj. pose proof (byte_laws_hold x) as H. unfold byte_laws in H. rewrite forallb_forall in H.
  specialize (H k ltac:(apply in_seq; lia)). rewrite forallb_forall in H. specialize (H j ltac:(apply in_seq; lia)).
  rewrite forallb_forall in H. specialize (H v ltac:(destruct v; cbn; tauto)). apply eqb_prop in H. rewrite H.
  destruct (Nat.eqb_spec k j); by case_bool_decide.
Qed.

#[export] Instance toy_bitmap_laws : GoBitmapLaws toy_bitmap.
Proof.
  split.
  - intros n. apply length_replicate.
  - intros n i. cbn [bitmap_New bitmap_Get toy_bitmap]. destruct (replicate _ _ !! _) as [x|] eqn:E; [|done].
    apply lookup_replicate in E as [-> _]. unfold byte_get. change (byte_code x00) with 0. apply Z.testbit_0_l.
  - intros b i v. cbn [bitmap_Set toy_bitmap]. destruct (b !! (i / 8)%nat); [apply length_insert|done].
  - intros b i j v Hi. cbn [bitmap_Set bitmap_Get toy_bitmap]. unfold bitmap_Len in Hi.
    assert (Hlt : (i / 8 < length b)%nat) by (apply Nat.div_lt_upper_bound; lia).
    destruct (lookup_lt_is_Some_2 _ _ Hlt) as [x Hx]. rewrite Hx.
    destruct (decide (i / 8 = j / 8)%nat) as [Hq|Hq].
    + rewrite <- Hq, list_lookup_insert_eq, Hx by done. rewrite byte_get_set by (apply Nat.mod_upper_bound; lia).
      pose proof (Nat.div_mod_eq i 8). pose proof (Nat.div_mod_eq j 8).
      repeat case_bool_decide; try done; exfalso; [subst; lia|congruence].
    + rewrite list_lookup_insert_ne by done. case_bool_decide; [congruence|done].
Qed.

End ToyBls.
