(* ===== verification/BtcCheckpoint.v ===== *)
(** * x/btccheckpoint: checkpoints on Bitcoin

    The submissions of an epoch's checkpoint to Bitcoin, and the status that the
    depth of the best of them gives to the epoch. The file translates
    x/btccheckpoint/keeper (keeper.go, submissions.go, msg_server.go, hooks.go,
    params.go, genesis.go), types/types.go, types/params.go, types/genesis.go and
    abci.go.

    The module calls the checkpointing module and reads the light client; both enter
    through the interfaces of types/expected_keepers.go, as classes over the state
    [W] of the other modules. *)

From S2P Require Import Prelude Bytes Store BbnTypes Coins TxFormatter LightClient Spv.

(** ** Data *)

Abbreviation SubmissionKey := (list TransactionKey).

Inductive BtcStatus := Submitted | Confirmed | Finalized.
#[global] Instance BtcStatus_eq_dec : EqDecision BtcStatus.
Proof. solve_decision. Defined.
(** The numbers of the enumeration, by which statuses are compared. *)
Definition status_rank (s : BtcStatus) : Z := match s with Submitted => 0 | Confirmed => 1 | Finalized => 2 end.

#[global] Instance TransactionKey_eq_dec : EqDecision TransactionKey.
Proof. solve_decision. Defined.
#[global] Instance TransactionKey_countable : Countable TransactionKey.
Proof.
  refine (inj_countable' (λ k, (tk_Index k, tk_Hash k)) (λ p, mkTxKey p.1 p.2) _). by intros [].
Defined.

Record EpochData := mkEpochData { ed_Keys : list SubmissionKey; ed_Status : BtcStatus }.
(** Byte strings that may be nil are options. *)
Record TransactionInfo := mkTxInfo { ti_Key : TransactionKey; ti_Transaction : option bytes; ti_Proof : option bytes }.
Record SubmissionData := mkSubData {
  sd_Reporter : bytes; sd_Submitter : bytes; sd_TxsInfo : list TransactionInfo; sd_Epoch : Z }.
Record SubmissionBtcInfo := mkSubInfo {
  si_SubmissionKey : SubmissionKey;
  OldestBlockDepth : Z;
  YoungestBlockDepth : Z;
  YoungestBlockHash : bytes;
  YoungestBlockLowestTxIdx : Z
}.

(** *** types/params.go *)

Record BtcCkptParams := mkBcParams { BtcConfirmationDepth : Z; CheckpointFinalizationTimeout : Z; CheckpointTag : string }.
Definition validateCheckpointTag (t : string) : outcome unit :=
  match hex_decode t with
  | None => Err (Errorf "checkpoint tag should be in valid hex format")
  | Some decoded => if negb (length decoded =? TagLength)%nat then Err (Errorf "checkpoint tag should have exactly 4 bytes") else Ok tt
  end.
Definition BcParams_Validate (p : BtcCkptParams) : outcome unit :=
  if BtcConfirmationDepth p <=? 0 then Err (Errorf "BtcConfirmationDepth must be positive")
  else if CheckpointFinalizationTimeout p <=? 0 then Err (Errorf "CheckpointFinalizationTimeout must be positive")
  else
    _ ← validateCheckpointTag (CheckpointTag p);
    if CheckpointFinalizationTimeout p <=? BtcConfirmationDepth p
    then Err (Errorf "BtcConfirmationDepth should be smaller than CheckpointFinalizationTimeout")
    else Ok tt.

(** *** The state

    The flag is in the transient store, emptied after each block. *)
Record BtcCkptState := mkBtcCkpt {
  bc_epochs : gmap Z EpochData;
  bc_submissions : gmap SubmissionKey SubmissionData;
  bc_lastFinalized : option Z;
  bc_params : BtcCkptParams;
  bc_updated : bool
}.
Definition with_epochs (m : gmap Z EpochData) (s : BtcCkptState) : BtcCkptState :=
  mkBtcCkpt m (bc_submissions s) (bc_lastFinalized s) (bc_params s) (bc_updated s).
Definition with_submissions (m : gmap SubmissionKey SubmissionData) (s : BtcCkptState) : BtcCkptState :=
  mkBtcCkpt (bc_epochs s) m (bc_lastFinalized s) (bc_params s) (bc_updated s).

Definition HasSubmission (s : BtcCkptState) (sk : SubmissionKey) : bool := bool_decide (is_Some (bc_submissions s !! sk)).
Definition saveSubmission (s : BtcCkptState) (sk : SubmissionKey) (sd : SubmissionData) : BtcCkptState :=
  with_submissions (<[sk := sd]> (bc_submissions s)) s.
Definition deleteSubmission (s : BtcCkptState) (sk : SubmissionKey) : BtcCkptState :=
  with_submissions (delete sk (bc_submissions s)) s.
Definition GetSubmissionData (s : BtcCkptState) (sk : SubmissionKey) : option SubmissionData := bc_submissions s !! sk.
Definition GetEpochData (s : BtcCkptState) (e : Z) : option EpochData := bc_epochs s !! e.
Definition saveEpochData (s : BtcCkptState) (e : Z) (ed : EpochData) : BtcCkptState := with_epochs (<[e := ed]> (bc_epochs s)) s.
Definition clearEpochData (s : BtcCkptState) (epoch : Z) (currentEpoch : EpochData) : BtcCkptState :=
  saveEpochData (foldl deleteSubmission s (ed_Keys currentEpoch)) epoch (mkEpochData [] (ed_Status currentEpoch)).
Definition getLastFinalizedEpochNumber (s : BtcCkptState) : Z := default 0 (bc_lastFinalized s).
Definition setLastFinalizedEpochNumber (s : BtcCkptState) (epoch : Z) : BtcCkptState :=
  mkBtcCkpt (bc_epochs s) (bc_submissions s) (Some epoch) (bc_params s) (bc_updated s).
Definition SetParams_btccheckpoint (s : BtcCkptState) (p : BtcCkptParams) : outcome BtcCkptState :=
  _ ← BcParams_Validate p; Ok (mkBtcCkpt (bc_epochs s) (bc_submissions s) (bc_lastFinalized s) p (bc_updated s)).
Definition setBtcLightClientUpdated (s : BtcCkptState) : BtcCkptState :=
  mkBtcCkpt (bc_epochs s) (bc_submissions s) (bc_lastFinalized s) (bc_params s) true.
Definition GetExpectedTag (s : BtcCkptState) : outcome bytes :=
  match hex_decode (CheckpointTag (bc_params s)) with Some t => Ok t | None => Panic (Errorf "Tag should always be valid") end.

Definition NewEmptyEpochData : EpochData := mkEpochData [] Submitted.
Definition AppendKey (ed : EpochData) (k : SubmissionKey) : EpochData := mkEpochData (ed_Keys ed ++ [k]) (ed_Status ed).

(** *** Submissions on the chain *)

Definition HappenedAfter (submission parentEpochSubmission : SubmissionBtcInfo) : bool :=
  OldestBlockDepth submission <? YoungestBlockDepth parentEpochSubmission.
Definition SubmissionDepth (submission : SubmissionBtcInfo) : Z := YoungestBlockDepth submission.
Definition IsBetterThan (newSubmission currentBestSubmission : SubmissionBtcInfo) : bool :=
  if SubmissionDepth currentBestSubmission <? SubmissionDepth newSubmission then true
  else if SubmissionDepth newSubmission <? SubmissionDepth currentBestSubmission then false
  else YoungestBlockLowestTxIdx newSubmission <? YoungestBlockLowestTxIdx currentBestSubmission.

(** A block the light client does not know. *)
Definition headerDepth (hs : headersState) (headerHash : bytes) : outcome Z :=
  match MainChainDepth hs (Some headerHash) with
  | Ok d => Ok d
  | Err _ => Err (Errorf "One of submission blocks is not known to btclightclient")
  | Panic e => Panic e
  end.

(** [GetSubmissionBtcInfo]: the accumulator is (youngest depth, its hash, lowest
    index, oldest depth). *)
Definition subInfoStep (hs : headersState) (acc : Z * option bytes * Z * Z) (tk : TransactionKey) : outcome (Z * option bytes * Z * Z) :=
  let '(youngest, hash, lowest, oldest) := acc in
  d ← headerDepth hs (tk_Hash tk);
  let '(youngest, hash, lowest) :=
    if d <? youngest then (d, Some (tk_Hash tk), tk_Index tk) else (youngest, hash, lowest) in
  let lowest := if (d =? youngest) && (tk_Index tk <? lowest) then tk_Index tk else lowest in
  Ok (youngest, hash, lowest, if oldest <? d then d else oldest).
Definition MaxUint32 : Z := 2 ^ 32 - 1.
Definition GetSubmissionBtcInfo (hs : headersState) (sk : SubmissionKey) : outcome SubmissionBtcInfo :=
  r ← foldM (subInfoStep hs) (MaxUint32, None, MaxUint32, 0) sk;
  let '(youngest, hash, lowest, oldest) := r in
  match hash with
  | Some h => Ok (mkSubInfo sk oldest youngest h lowest)
  | None => Panic (Errorf "nil pointer dereference")
  end.

(** [getEpochChanges]: the accumulator is (index, to delete, to keep, best, index
    of the best). The index of the best is set only when a later submission beats
    an earlier one. *)
Record epochChangesSummary := mkChanges {
  SubmissionsToDelete : list SubmissionKey;
  SubmissionsToKeep : list SubmissionKey;
  EpochBestSubmission : option SubmissionBtcInfo;
  BestSubmissionIdx : nat
}.
Definition changesStep (hs : headersState) (parent : option SubmissionBtcInfo) (acc : nat * epochChangesSummary) (sk : SubmissionKey)
    : outcome (nat * epochChangesSummary) :=
  let '(i, c) := acc in
  if (length sk <? 2)%nat then Panic (Errorf "Submission key composed of less than 2 transactions keys in database")
  else
    let del := Ok (Datatypes.S i, mkChanges (SubmissionsToDelete c ++ [sk]) (SubmissionsToKeep c) (EpochBestSubmission c) (BestSubmissionIdx c)) in
    match GetSubmissionBtcInfo hs sk with
    | Panic e => Panic e
    | Err _ => del
    | Ok info =>
      if match parent with Some p => negb (HappenedAfter info p) | None => false end then del
      else
        let keep best idx := Ok (Datatypes.S i, mkChanges (SubmissionsToDelete c) (SubmissionsToKeep c ++ [sk]) (Some best) idx) in
        match EpochBestSubmission c with
        | None => keep info (BestSubmissionIdx c)
        | Some best => if IsBetterThan info best then keep info i else keep best (BestSubmissionIdx c)
        end
    end.
Definition getEpochChanges (hs : headersState) (parent : option SubmissionBtcInfo) (ed : EpochData) : outcome epochChangesSummary :=
  r ← foldM (changesStep hs parent) (0%nat, mkChanges [] [] None 0) (ed_Keys ed); Ok r.2.

Definition checkSubmissionStatus (p : BtcCkptParams) (info : SubmissionBtcInfo) : BtcStatus :=
  if CheckpointFinalizationTimeout p <=? SubmissionDepth info then Finalized
  else if BtcConfirmationDepth p <=? SubmissionDepth info then Confirmed
  else Submitted.

Definition GetEpochBestSubmissionBtcInfo (hs : headersState) (ed : option EpochData) : outcome (option SubmissionBtcInfo) :=
  match ed with
  | None => Ok None
  | Some d =>
    match ed_Keys d with
    | [] => Ok None
    | [sk] =>
      match GetSubmissionBtcInfo hs sk with Ok info => Ok (Some info) | Err _ => Ok None | Panic e => Panic e end
    | _ => c ← getEpochChanges hs None d; Ok (EpochBestSubmission c)
    end
  end.

(** The ancestor of a new submission: the first one of the previous epoch that it
    happened after. *)
Fixpoint haveDescendant (hs : headersState) (new : SubmissionBtcInfo) (keys : list SubmissionKey) : outcome bool :=
  match keys with
  | [] => Ok false
  | sk :: keys =>
    if (length sk <? 2)%nat then Panic (Errorf "Submission key composed of less than 2 transactions keys in database")
    else match GetSubmissionBtcInfo hs sk with
         | Panic e => Panic e
         | Err _ => haveDescendant hs new keys
         | Ok parent => if HappenedAfter new parent then Ok true else haveDescendant hs new keys
         end
  end.
Definition checkAncestors (s : BtcCkptState) (hs : headersState) (submissionEpoch : Z) (new : SubmissionBtcInfo) : outcome unit :=
  if submissionEpoch <=? 1 then Ok tt
  else match GetEpochData s (submissionEpoch - 1) with
       | None => Err ErrNoCheckpointsForPreviousEpoch
       | Some prev =>
         if (length (ed_Keys prev) =? 0)%nat then Err ErrNoCheckpointsForPreviousEpoch
         else b ← haveDescendant hs new (ed_Keys prev);
              if (b : bool) then Ok tt else Err ErrProvidedHeaderDoesNotHaveAncestor
       end.

(** ** Interfaces (types/expected_keepers.go) *)

Class BTCLightClientKeeper (W : Type) := { lck_headers : W → headersState }.
Class CheckpointingKeeper (W : Type) := {
  ckp_VerifyCheckpoint : Ctx → W → RawBtcCheckpoint → outcome (W * option error);
  ckp_SetCheckpointSubmitted : Ctx → W → Z → outcome W;
  ckp_SetCheckpointConfirmed : Ctx → W → Z → outcome W;
  ckp_SetCheckpointFinalized : Ctx → W → Z → outcome W;
  ckp_SetCheckpointForgotten : Ctx → W → Z → outcome W
}.
Class SpvIncentives (W : Type) := { IndexRefundableSpv : W → MsgInsertBTCSpvProof → W }.

(** ** The keeper *)

Section keeper.
Context {W : Type} {LK : BTCLightClientKeeper W} {CK : CheckpointingKeeper W}.

(** *** keeper/keeper.go: [checkCheckpoints] *)

Definition applyFinalized (s : BtcCkptState) (ed : EpochData) (c : epochChangesSummary) (best : SubmissionBtcInfo) : BtcCkptState * EpochData :=
  (foldl (λ s (isk : nat * SubmissionKey), if (isk.1 =? BestSubmissionIdx c)%nat then s else deleteSubmission s isk.2)
     s (zip (seq 0 (length (ed_Keys ed))) (ed_Keys ed)),
   mkEpochData [si_SubmissionKey best] (ed_Status ed)).
Definition applyChanges (s : BtcCkptState) (ed : EpochData) (c : epochChangesSummary) : BtcCkptState * EpochData :=
  (foldl deleteSubmission s (SubmissionsToDelete c), mkEpochData (SubmissionsToKeep c) (ed_Status ed)).

(** An epoch that has lost all its submissions. *)
Definition forgetEpoch (ctx : Ctx) (s : BtcCkptState) (w : W) (epoch : Z) (ed : EpochData) : outcome (BtcCkptState * W) :=
  let s := clearEpochData s epoch ed in
  w' ← ckp_SetCheckpointForgotten ctx w epoch; Ok (s, w').

(** The status of an epoch moves by the depth of its best submission. *)
Definition moveStatus (ctx : Ctx) (s : BtcCkptState) (w : W) (epoch : Z) (status best : BtcStatus) : outcome (BtcCkptState * W * BtcStatus) :=
  r ← (if (status_rank status <? status_rank best) && bool_decide (status = Submitted)
       then w' ← ckp_SetCheckpointConfirmed ctx w epoch; Ok (w', Confirmed) else Ok (w, status));
  let '(w, status) := r in
  if (status_rank status <? status_rank best) && bool_decide (status = Confirmed)
  then w' ← ckp_SetCheckpointFinalized ctx w epoch; Ok (setLastFinalizedEpochNumber s epoch, w', Finalized)
  else Ok (s, w, status).

(** One turn of the loop: [None] for the break, otherwise the states and the best
    submission of the epoch, [Some None] when it has lost all. *)
Definition checkEpoch (ctx : Ctx) (s : BtcCkptState) (w : W) (parent : option (option SubmissionBtcInfo)) (epoch : Z) (ed : EpochData)
    : outcome (option (BtcCkptState * W * option (option SubmissionBtcInfo))) :=
  if (length (ed_Keys ed) =? 0)%nat then Ok None
  else if bool_decide (ed_Status ed = Finalized) then
    match ed_Keys ed with
    | [sk] =>
      match GetSubmissionBtcInfo (lck_headers w) sk with
      | Ok info => Ok (Some (s, w, Some (Some info)))
      | Err _ => Panic (Errorf "Finalized epoch submission must be on main chain")
      | Panic e => Panic e
      end
    | _ => Panic (Errorf "Finalized epoch must have only one valid submission")
    end
  else match parent with
  | Some None => sw ← forgetEpoch ctx s w epoch ed; Ok (Some (sw.1, sw.2, Some None))
  | _ =>
    c ← getEpochChanges (lck_headers w) (default None parent) ed;
    match SubmissionsToKeep c, EpochBestSubmission c with
    | [], _ => sw ← forgetEpoch ctx s w epoch ed; Ok (Some (sw.1, sw.2, Some None))
    | _, None => Panic (Errorf "nil pointer dereference")
    | _, Some best =>
      r ← moveStatus ctx s w epoch (ed_Status ed) (checkSubmissionStatus (bc_params s) best);
      let '(s, w, status) := r in
      let ed := mkEpochData (ed_Keys ed) status in
      let '(s, ed) := if bool_decide (status = Finalized) then applyFinalized s ed c best else applyChanges s ed c in
      Ok (Some (saveEpochData s epoch ed, w, Some (Some best)))
    end
  end.
Fixpoint checkLoop (ctx : Ctx) (s : BtcCkptState) (w : W) (parent : option (option SubmissionBtcInfo)) (l : list (Z * EpochData))
    : outcome (BtcCkptState * W) :=
  match l with
  | [] => Ok (s, w)
  | (epoch, ed) :: l =>
    r ← checkEpoch ctx s w parent epoch ed;
    match r with
    | None => Ok (s, w)
    | Some (s, w, parent) => checkLoop ctx s w parent l
    end
  end.
(** The iterator walks the epochs as they were when it was opened. *)
Definition epochsFrom (s : BtcCkptState) (start : Z) : list (Z * EpochData) := filter (λ kv, start ≤ kv.1) (iterZ (bc_epochs s)).
Definition checkCheckpoints (ctx : Ctx) (s : BtcCkptState) (w : W) : outcome (BtcCkptState * W) :=
  checkLoop ctx s w None (epochsFrom s (getLastFinalizedEpochNumber s)).

(** *** abci.go; the transient store is emptied with the block *)

Definition EndBlocker_btccheckpoint (ctx : Ctx) (s : BtcCkptState) (w : W) : outcome (BtcCkptState * W) :=
  r ← (if bc_updated s then checkCheckpoints ctx s w else Ok (s, w));
  Ok (mkBtcCkpt (bc_epochs r.1) (bc_submissions r.1) (bc_lastFinalized r.1) (bc_params r.1) false, r.2).

(** *** keeper/submissions.go *)

Definition addEpochSubmission (ctx : Ctx) (s : BtcCkptState) (w : W) (epochNum : Z) (ed : EpochData) (sk : SubmissionKey) (sd : SubmissionData)
    : outcome (BtcCkptState * W) :=
  w' ← (if (length (ed_Keys ed) =? 0)%nat then ckp_SetCheckpointSubmitted ctx w epochNum else Ok w);
  Ok (saveSubmission (saveEpochData s epochNum (AppendKey ed sk)) sk sd, w').
Definition GetBestSubmission (s : BtcCkptState) (epochNumber : Z) : outcome (BtcStatus * SubmissionKey) :=
  match GetEpochData s epochNumber with
  | None => Err ErrNoCheckpointsForPreviousEpoch
  | Some ed =>
    if negb (bool_decide (ed_Status ed = Finalized)) then Err (Errorf "epoch has not been finalized yet")
    else match ed_Keys ed with
         | [] => Err ErrNoCheckpointsForPreviousEpoch
         | sk :: _ => Ok (ed_Status ed, sk)
         end
  end.

End keeper.

(** ** Messages (keeper/msg_server.go) *)

Section msg_server.
Context {T : Type} {BT : BtcTx T} {H : Type} {BW : BtcWire H} {BP : BtcPow H} {DH : DoubleHash} {BA : Bech32}.
Context {W : Type} {LK : BTCLightClientKeeper W} {CK : CheckpointingKeeper W} {SI : SpvIncentives W}.

Definition txsInfo (req : MsgInsertBTCSpvProof) (sk : SubmissionKey) : list TransactionInfo :=
  zip_with (λ k p, mkTxInfo k (Some (BtcTransaction p)) (Some (MerkleNodes p))) sk (spv_Proofs req).
Definition GetSubmissionDataOf (sub : RawCheckpointSubmission (T:=T)) (epochNum : Z) (infos : list TransactionInfo) : SubmissionData :=
  mkSubData (rs_Reporter sub) (rbc_SubmitterAddress (rs_CheckpointData sub)) infos epochNum.

(** A conflicting checkpoint ends the message with success, so that the flag it has
    set stays. *)
Definition InsertBTCSpvProof (powLimit : Z) (ctx : Ctx) (s : BtcCkptState) (w : W) (req : MsgInsertBTCSpvProof) : outcome (BtcCkptState * W) :=
  tag ← GetExpectedTag s;
  match ParseSubmission (Some req) powLimit tag with
  | Panic e => Panic e
  | Err _ => Err ErrInvalidCheckpointProof
  | Ok sub =>
    let sk := GetSubmissionKey sub in
    if HasSubmission s sk then Err ErrDuplicatedSubmission
    else match GetSubmissionBtcInfo (lck_headers w) sk with
    | Panic e => Panic e
    | Err _ => Err ErrInvalidHeader
    | Ok info =>
      let epochNum := rbc_Epoch (rs_CheckpointData sub) in
      let ed := default NewEmptyEpochData (GetEpochData s epochNum) in
      if bool_decide (ed_Status ed = Finalized) then Err ErrEpochAlreadyFinalized
      else
        r ← ckp_VerifyCheckpoint ctx w (rs_CheckpointData sub);
        match r with
        | (w, Some ErrConflictingCheckpoint) => Ok (s, w)
        | (_, Some e) => Err e
        | (w, None) =>
          _ ← checkAncestors s (lck_headers w) epochNum info;
          sw ← addEpochSubmission ctx s w epochNum ed sk (GetSubmissionDataOf sub epochNum (txsInfo req sk));
          Ok (sw.1, IndexRefundableSpv sw.2 req)
        end
    end
  end.

Definition UpdateParams_btccheckpoint (authority : string) (s : BtcCkptState) (reqAuthority : string) (params : BtcCkptParams)
    : outcome BtcCkptState :=
  if negb (bool_decide (authority = reqAuthority)) then Err ErrInvalidSigner
  else match BcParams_Validate params with
  | Panic e => Panic e
  | Err _ => Err ErrInvalidProposalMsg
  | Ok _ =>
    if negb (CheckpointFinalizationTimeout params =? CheckpointFinalizationTimeout (bc_params s)) then Err ErrInvalidProposalMsg
    else SetParams_btccheckpoint s params
  end.

End msg_server.

(** ** Genesis *)

(** The keys of an epoch may be nil in a genesis state. *)
Record BtcCkptGenesis := mkBcGenesis {
  bg_Params : BtcCkptParams;
  bg_LastFinalizedEpochNumber : Z;
  bg_Epochs : list (Z * (option (list SubmissionKey) * BtcStatus));
  bg_Submissions : list (SubmissionKey * SubmissionData)
}.

Definition TxKey_Validate (k : TransactionKey) : outcome unit :=
  if negb (length (tk_Hash k) =? BTCHeaderHashLen)%nat then Err (Errorf "invalid transaction hash length") else Ok tt.
Definition SubmissionKey_Validate (sk : SubmissionKey) : outcome unit := foldM (λ _ k, TxKey_Validate k) tt sk.
Definition EpochData_Validate (keys : option (list SubmissionKey)) : outcome unit :=
  match keys with
  | None => Err (Errorf "keys cannot be nil")
  | Some keys => foldM (λ _ k, SubmissionKey_Validate k) tt keys
  end.
Definition TxInfo_ValidateBasic (ti : TransactionInfo) : outcome unit :=
  match ti_Transaction ti, ti_Proof ti with
  | None, _ => Err (Errorf "transaction in TransactionInfo is nil")
  | Some _, None => Err (Errorf "proof in TransactionInfo is nil")
  | Some _, Some _ => Ok tt
  end.
Definition SubmissionData_Validate (sd : SubmissionData) : outcome unit :=
  if negb (length (sd_Submitter sd) =? AddressLength)%nat then Err (Errorf "invalid submitter address length")
  else if negb (length (sd_Reporter sd) =? AddressLength)%nat then Err (Errorf "invalid reporter address length")
  else foldM (λ _ ti, TxInfo_ValidateBasic ti) tt (sd_TxsInfo sd).

Definition validateEpochs (epochs : list (Z * (option (list SubmissionKey) * BtcStatus))) : outcome (gset Z) :=
  foldM (λ seen (e : Z * (option (list SubmissionKey) * BtcStatus)),
    if bool_decide (e.1 ∈ (seen : gset Z)) then Err (Errorf "duplicate entry for key")
    else _ ← EpochData_Validate e.2.1; Ok ({[ e.1 ]} ∪ seen)) ∅ epochs.
Definition validateSubmissions (submissions : list (SubmissionKey * SubmissionData)) (epochs : gset Z) : outcome (gset SubmissionKey) :=
  foldM (λ seen (e : SubmissionKey * SubmissionData),
    _ ← SubmissionKey_Validate e.1;
    _ ← SubmissionData_Validate e.2;
    if bool_decide (e.1 ∈ (seen : gset SubmissionKey)) then Err (Errorf "duplicate entry for key")
    else if negb (bool_decide (sd_Epoch e.2 ∈ epochs)) then Err (Errorf "epoch not found in genesis")
    else Ok ({[ e.1 ]} ∪ seen)) ∅ submissions.
Definition BcGenesis_Validate (gs : BtcCkptGenesis) : outcome unit :=
  epochs ← validateEpochs (bg_Epochs gs);
  _ ← validateSubmissions (bg_Submissions gs) epochs;
  let maxEpochNumber := foldl (λ a e, if a <? e then e else a) 0 (bg_Epochs gs).*1 in
  if maxEpochNumber <? bg_LastFinalizedEpochNumber gs
  then Err (Errorf "last finalized epoch number cannot be greater than the highest epoch number")
  else BcParams_Validate (bg_Params gs).

Definition InitGenesis_btccheckpoint (s : BtcCkptState) (gs : BtcCkptGenesis) : outcome BtcCkptState :=
  _ ← must (BcGenesis_Validate gs);
  let s := setLastFinalizedEpochNumber s (bg_LastFinalizedEpochNumber gs) in
  let s := foldl (λ s (e : Z * (option (list SubmissionKey) * BtcStatus)), saveEpochData s e.1 (mkEpochData (default [] e.2.1) e.2.2)) s (bg_Epochs gs) in
  let s := foldl (λ s (e : SubmissionKey * SubmissionData), saveSubmission s e.1 e.2) s (bg_Submissions gs) in
  must (SetParams_btccheckpoint s (bg_Params gs)).

(** What decoding makes of stored data: an empty list or byte string is nil. *)
Definition nilEmpty {A} (l : list A) : option (list A) := match l with [] => None | _ => Some l end.
Definition storedTxInfo (ti : TransactionInfo) : TransactionInfo :=
  mkTxInfo (ti_Key ti) (ti_Transaction ti ≫= nilEmpty) (ti_Proof ti ≫= nilEmpty).
Definition storedSubmission (sd : SubmissionData) : SubmissionData :=
  mkSubData (sd_Reporter sd) (sd_Submitter sd) (storedTxInfo <$> sd_TxsInfo sd) (sd_Epoch sd).

(** [keeper.epochs] and [keeper.submissions] check each entry. *)
Definition exportEpochs (s : BtcCkptState) : outcome (list (Z * (option (list SubmissionKey) * BtcStatus))) :=
  foldM (λ acc (e : Z * EpochData),
    _ ← EpochData_Validate (nilEmpty (ed_Keys e.2)); Ok (acc ++ [(e.1, (nilEmpty (ed_Keys e.2), ed_Status e.2))])) [] (iterZ (bc_epochs s)).
Definition exportSubmissions (s : BtcCkptState) : outcome (list (SubmissionKey * SubmissionData)) :=
  foldM (λ acc (e : SubmissionKey * SubmissionData),
    _ ← SubmissionKey_Validate e.1; _ ← SubmissionData_Validate (storedSubmission e.2); Ok (acc ++ [(e.1, storedSubmission e.2)])) []
    (map_to_list (bc_submissions s)).
(** The order of the submissions, that of their encoded keys in the code, does not
    matter to [InitGenesis]. *)
Definition ExportGenesis_btccheckpoint (s : BtcCkptState) : outcome BtcCkptGenesis :=
  must (e ← exportEpochs s; sub ← exportSubmissions s;
        Ok (mkBcGenesis (bc_params s) (getLastFinalizedEpochNumber s) e sub)).
