(* ===== verification/BtcCheckpointProofs.v ===== *)
(** * x/btccheckpoint: correctness

    What [getEpochChanges] computes; that epochs are finalised in their order over
    every history of the module; the loss of the best submission's data when an
    epoch is finalised whose first submission has left the chain; the export that
    fails after an epoch has lost its submissions. *)

From S2P Require Import Prelude Bytes Store BbnTypes Coins TxFormatter LightClient Spv SpvProofs BtcCheckpoint.

(** ** Submissions *)

Lemma subInfoStep_order hs acc tk acc' :
  subInfoStep hs acc tk = Ok acc' →
  (acc.1.1.2 = None ∨ acc.1.1.1 ≤ acc.2) → (acc'.1.1.2 = None ∨ acc'.1.1.1 ≤ acc'.2).
Proof.
  destruct acc as [[[y h] l] o]. unfold subInfoStep. intros H Hi. apply bind_Ok in H as (d & _ & H).
  cbn in Hi. destruct (d <? y) eqn:E1; injection H as <-; cbn; destruct (o <? d) eqn:E2; try (right; lia).
  all: destruct Hi as [->|Hi]; [by left|right; lia].
Qed.

(** The key of the information is the key asked for, and the youngest block is not
    deeper than the oldest. *)
Lemma GetSubmissionBtcInfo_spec hs sk info :
  GetSubmissionBtcInfo hs sk = Ok info →
  si_SubmissionKey info = sk ∧ YoungestBlockDepth info ≤ OldestBlockDepth info.
Proof.
  intros H. apply bind_Ok in H as ([[[y h] l] o] & Hf & H).
  destruct h as [h|]; [|done]. injection H as <-. split; [done|]. cbn.
  pose proof (foldM_invariant (λ acc : Z * option bytes * Z * Z, acc.1.1.2 = None ∨ acc.1.1.1 ≤ acc.2) (subInfoStep hs) sk
    (MaxUint32, None, MaxUint32, 0) (y, Some h, l, o)) as Hinv.
  destruct Hinv as [Hn|Hn]; cbn in *; [|by left|done|done|done].
  intros a x a' _ Ha Hs. by eapply subInfoStep_order.
Qed.

Lemma IsBetterThan_trans a b c : IsBetterThan a b = false → IsBetterThan c b = true → IsBetterThan a c = false.
Proof. unfold IsBetterThan. repeat case_match; try done; lia. Qed.
Lemma IsBetterThan_irrefl a : IsBetterThan a a = false.
Proof. unfold IsBetterThan. repeat case_match; try done; lia. Qed.

(** A submission on the chain, after the parent epoch's best one. *)
Definition viable (hs : headersState) (parent : option SubmissionBtcInfo) (sk : SubmissionKey) : bool :=
  match GetSubmissionBtcInfo hs sk with
  | Ok info => match parent with Some p => HappenedAfter info p | None => true end
  | _ => false
  end.
(** The best of a list: one of them, and none is better. *)
Definition is_best (hs : headersState) (best : option SubmissionBtcInfo) (keys : list SubmissionKey) : Prop :=
  match best with
  | None => keys = []
  | Some b =>
    si_SubmissionKey b ∈ keys ∧ GetSubmissionBtcInfo hs (si_SubmissionKey b) = Ok b ∧
    ∀ sk info, sk ∈ keys → GetSubmissionBtcInfo hs sk = Ok info → IsBetterThan info b = false
  end.
Definition changes_of (hs : headersState) (parent : option SubmissionBtcInfo) (keys : list SubmissionKey) (c : epochChangesSummary) : Prop :=
  SubmissionsToKeep c = filter (λ sk, viable hs parent sk = true) keys ∧
  SubmissionsToDelete c = filter (λ sk, viable hs parent sk = false) keys ∧
  is_best hs (EpochBestSubmission c) (SubmissionsToKeep c).

Lemma filter_keys_snoc (f : SubmissionKey → bool) b keys sk :
  filter (λ k, f k = b) (keys ++ [sk]) = filter (λ k, f k = b) keys ++ (if decide (f sk = b) then [sk] else []).
Proof. by rewrite filter_app. Qed.

Lemma changes_delete hs parent keys c i sk :
  changes_of hs parent keys c → viable hs parent sk = false →
  changes_of hs parent (keys ++ [sk])
    (mkChanges (SubmissionsToDelete c ++ [sk]) (SubmissionsToKeep c) (EpochBestSubmission c) i).
Proof.
  intros (Hk & Hd & Hb) Hv. unfold changes_of. cbn. rewrite !filter_keys_snoc, Hv, <- Hd, <- Hk. cbn. by rewrite app_nil_r.
Qed.
Lemma changes_keep hs parent keys c i sk best :
  changes_of hs parent keys c → viable hs parent sk = true →
  is_best hs (Some best) (SubmissionsToKeep c ++ [sk]) →
  changes_of hs parent (keys ++ [sk])
    (mkChanges (SubmissionsToDelete c) (SubmissionsToKeep c ++ [sk]) (Some best) i).
Proof.
  intros (Hk & Hd & _) Hv Hb. unfold changes_of. cbn [SubmissionsToKeep SubmissionsToDelete EpochBestSubmission].
  rewrite !filter_keys_snoc, Hv, <- Hd, <- Hk. cbn. by rewrite app_nil_r.
Qed.

Lemma is_best_new hs best keys sk info :
  is_best hs best keys → GetSubmissionBtcInfo hs sk = Ok info →
  match best with Some b => IsBetterThan info b = true | None => True end →
  is_best hs (Some info) (keys ++ [sk]).
Proof.
  intros Hb Hi Hbetter. pose proof (GetSubmissionBtcInfo_spec _ _ _ Hi) as [Hkey _]. rewrite <- Hkey in *.
  split; [set_solver|]. split; [done|]. intros sk' i' [Hin| ->%list_elem_of_singleton]%elem_of_app Hi'.
  - destruct best as [b|]; cbn in Hb; [|subst; set_solver].
    eapply IsBetterThan_trans, Hbetter. by eapply Hb.
  - rewrite Hi in Hi'. injection Hi' as <-. apply IsBetterThan_irrefl.
Qed.
Lemma is_best_old hs b keys sk info :
  is_best hs (Some b) keys → GetSubmissionBtcInfo hs sk = Ok info → IsBetterThan info b = false →
  is_best hs (Some b) (keys ++ [sk]).
Proof.
  intros (Hin & Hb & Hall) Hi Hw. split; [set_solver|]. split; [done|].
  intros sk' i' [Hin'| ->%list_elem_of_singleton]%elem_of_app Hi'; [by eapply Hall|]. by rewrite Hi in Hi'; injection Hi' as <-.
Qed.

Lemma changesStep_spec hs parent keys i c sk r :
  changes_of hs parent keys c → changesStep hs parent (i, c) sk = Ok r → changes_of hs parent (keys ++ [sk]) r.2.
Proof.
  intros Hc H. unfold changesStep in H. destruct (length sk <? 2)%nat; [done|].
  destruct (GetSubmissionBtcInfo hs sk) as [info|e|e] eqn:Ei; [|injection H as <-; apply changes_delete; [done|unfold viable; by rewrite Ei]|done].
  assert (Hv : viable hs parent sk = match parent with Some p => HappenedAfter info p | None => true end)
    by (unfold viable; by rewrite Ei).
  destruct (match parent with Some p => negb (HappenedAfter info p) | None => false end) eqn:Ep.
  { injection H as <-. apply changes_delete; [done|]. rewrite Hv. destruct parent; [|done]. by apply negb_true_iff in Ep. }
  assert (Hv' : viable hs parent sk = true) by (rewrite Hv; destruct parent; [by apply negb_false_iff in Ep|done]).
  destruct (EpochBestSubmission c) as [b|] eqn:Eb; [destruct (IsBetterThan info b) eqn:E|]; injection H as <-;
    apply changes_keep; try done; destruct Hc as (_ & _ & Hb); rewrite Eb in Hb.
  - by eapply is_best_new.
  - by eapply is_best_old.
  - by eapply is_best_new.
Qed.

Lemma getEpochChanges_of hs parent ed c : getEpochChanges hs parent ed = Ok c → changes_of hs parent (ed_Keys ed) c.
Proof.
  intros H. apply bind_Ok in H as ([i c'] & H & Hc). injection Hc as <-.
  assert (Hgen : ∀ l keys i0 c0 r, changes_of hs parent keys c0 → foldM (changesStep hs parent) (i0, c0) l = Ok r →
    changes_of hs parent (keys ++ l) r.2).
  { intros l. induction l as [|sk l IH]; intros keys i0 c0 r H0 Hf.
    - injection Hf as <-. by rewrite app_nil_r.
    - apply bind_Ok in Hf as ([i1 c1] & Hs & Hf). apply changesStep_spec with (keys := keys) in Hs; [|done].
      change (sk :: l) with ([sk] ++ l). rewrite app_assoc. by eapply IH. }
  exact (Hgen (ed_Keys ed) [] 0%nat (mkChanges [] [] None 0) (i, c') ltac:(done) H).
Qed.

(** ** Epochs are finalised in order *)

Definition finalised (s : BtcCkptState) (e : Z) : Prop := ∃ ed, bc_epochs s !! e = Some ed ∧ ed_Status ed = Finalized.
Definition submitted (s : BtcCkptState) (e : Z) : Prop := is_Some (bc_epochs s !! e).

(** A finalised epoch has one submission and is not after the last finalised one,
    which is finalised; an epoch has data only if the previous one has; the epochs
    before a finalised one are finalised. *)
Record ordered (s : BtcCkptState) : Prop := mkOrdered {
  ord_single e ed : bc_epochs s !! e = Some ed → ed_Status ed = Finalized →
    length (ed_Keys ed) = 1%nat ∧ e ≤ getLastFinalizedEpochNumber s;
  ord_last : 0 < getLastFinalizedEpochNumber s → finalised s (getLastFinalizedEpochNumber s);
  ord_contiguous e : 2 ≤ e → submitted s e → submitted s (e - 1);
  ord_prefix e e' : 1 ≤ e → e < e' → submitted s e → finalised s e' → finalised s e
}.

Lemma ordered_empty s : bc_epochs s = ∅ → bc_lastFinalized s = None → ordered s.
Proof.
  intros He Hl. split; unfold finalised, submitted, getLastFinalizedEpochNumber; rewrite He, ?Hl.
  - intros e ed. by rewrite lookup_empty.
  - cbn. lia.
  - intros e _ [? H]. by rewrite lookup_empty in H.
  - intros e e' _ _ [? H]. by rewrite lookup_empty in H.
Qed.

(** Only the epochs and the last finalised one matter. *)
Lemma ordered_ext s s' : bc_epochs s' = bc_epochs s → bc_lastFinalized s' = bc_lastFinalized s → ordered s → ordered s'.
Proof.
  intros He Hl [H1 H2 H3 H4].
  split; unfold finalised, submitted, getLastFinalizedEpochNumber in *; rewrite He, ?Hl; done.
Qed.

Lemma foldl_delete_views keys s :
  bc_epochs (foldl deleteSubmission s keys) = bc_epochs s ∧
  bc_lastFinalized (foldl deleteSubmission s keys) = bc_lastFinalized s.
Proof. revert s. induction keys as [|k keys IH]; intros s; [done|]. cbn. by rewrite !(proj1 (IH _)), !(proj2 (IH _)). Qed.
Lemma applyFinalized_views s ed c best :
  bc_epochs (applyFinalized s ed c best).1 = bc_epochs s ∧
  bc_lastFinalized (applyFinalized s ed c best).1 = bc_lastFinalized s.
Proof.
  cbn. generalize (zip (seq 0 (length (ed_Keys ed))) (ed_Keys ed)) as l.
  intros l. revert s. induction l as [|[i k] l IH]; intros s; [done|]. cbn.
  destruct (i =? BestSubmissionIdx c)%nat; by rewrite !(proj1 (IH _)), !(proj2 (IH _)).
Qed.

(** Epoch data that is replaced without becoming or ceasing to be finalised. *)
Lemma finalised_save s e ed e' :
  ed_Status ed ≠ Finalized → ¬ finalised s e → finalised (saveEpochData s e ed) e' ↔ finalised s e'.
Proof.
  intros Hs Hn. unfold finalised. cbn. destruct (decide (e = e')) as [<-|Hne].
  - rewrite lookup_insert_eq. split; [intros (? & [= <-] & ?); done|done].
  - by rewrite lookup_insert_ne.
Qed.
Lemma submitted_save s e ed e' : submitted (saveEpochData s e ed) e' ↔ e = e' ∨ submitted s e'.
Proof. unfold submitted. cbn. rewrite lookup_insert_is_Some'. done. Qed.

Lemma contiguous_down s e e' :
  (∀ e, 2 ≤ e → submitted s e → submitted s (e - 1)) → 1 ≤ e ≤ e' → submitted s e' → submitted s e.
Proof.
  intros Hc He. replace e' with (e + Z.of_nat (Z.to_nat (e' - e))) by lia.
  induction (Z.to_nat (e' - e)) as [|n IH]; [by rewrite Z.add_0_r|].
  intros Hs. apply IH. replace (e + Z.of_nat n) with (e + Z.of_nat (S n) - 1) by lia. apply Hc; [lia|done].
Qed.

Lemma ordered_save s e ed :
  ordered s → ed_Status ed ≠ Finalized → ¬ finalised s e → (2 ≤ e → submitted s (e - 1)) →
  ordered (saveEpochData s e ed).
Proof.
  intros [H1 H2 H3 H4] Hs Hn Hc. split.
  - intros e' ed' He' Hf. cbn in He'. destruct (decide (e = e')) as [<-|Hne].
    + rewrite lookup_insert_eq in He'. by injection He' as <-.
    + rewrite lookup_insert_ne in He' by done. by apply H1.
  - intros Hl. apply finalised_save; [done|done|by apply H2].
  - intros e' He'. rewrite !submitted_save. intros [<-|Hd]; [right; by apply Hc|right; by apply H3].
  - intros e1 e2 H12 Hlt Hd Hf. rewrite finalised_save in * by done. rewrite submitted_save in Hd.
    destruct Hd as [<-|Hd]; [|by eapply H4]. eapply H4; [done|exact Hlt| |done].
    eapply contiguous_down; [done| |]; [split; [done|]|destruct Hf as (? & Hf & _); by eexists]. lia.
Qed.

(** An epoch that becomes finalised after all the epochs before it. *)
Lemma ordered_finalise s e ed :
  ordered s → submitted s e → ¬ finalised s e → getLastFinalizedEpochNumber s ≤ e →
  (∀ e', 1 ≤ e' → e' < e → submitted s e' → finalised s e') →
  ed_Status ed = Finalized → length (ed_Keys ed) = 1%nat →
  ordered (saveEpochData (setLastFinalizedEpochNumber s e) e ed).
Proof.
  intros [H1 H2 H3 H4] Hd Hn Hle Hall Hs Hk.
  assert (Hfin : ∀ e', finalised (saveEpochData (setLastFinalizedEpochNumber s e) e ed) e' ↔ e = e' ∨ finalised s e').
  { intros e'. unfold finalised. cbn. destruct (decide (e = e')) as [<-|Hne].
    - rewrite lookup_insert_eq. split; [by left|]. intros _. by eexists.
    - rewrite lookup_insert_ne by done. split; [by right|by intros [?|?]]. }
  split.
  - intros e' ed' He' Hf. cbn in He'. cbn. destruct (decide (e = e')) as [<-|Hne].
    + rewrite lookup_insert_eq in He'. injection He' as <-. cbn. lia.
    + rewrite lookup_insert_ne in He' by done. destruct (H1 _ _ He' Hf). cbn. lia.
  - intros _. apply Hfin. by left.
  - intros e' He'. rewrite !submitted_save. intros [<-|Hd']; right; [by apply (H3 e)|by apply (H3 e')].
  - intros e1 e2 H12 Hlt Hd1 Hf. rewrite Hfin in *. rewrite submitted_save in Hd1.
    destruct Hd1 as [<-|Hd1]; [by left|]. right. destruct Hf as [<-|Hf]; [by apply Hall|by eapply H4].
Qed.

(** The operations of the checkpointing module do not touch the light client. *)
Class CheckpointingKeeperLaws (W : Type) `{BTCLightClientKeeper W} `{CheckpointingKeeper W} := {
  confirmed_headers ctx w e w' : ckp_SetCheckpointConfirmed ctx w e = Ok w' → lck_headers w' = lck_headers w;
  finalized_headers ctx w e w' : ckp_SetCheckpointFinalized ctx w e = Ok w' → lck_headers w' = lck_headers w;
  forgotten_headers ctx w e w' : ckp_SetCheckpointForgotten ctx w e = Ok w' → lck_headers w' = lck_headers w
}.

Section loop.
Context {W : Type} {LK : BTCLightClientKeeper W} {CK : CheckpointingKeeper W} {CL : CheckpointingKeeperLaws W}.

(** An epoch that is not finalised moves to the status of its best submission, and
    never back. *)
Lemma moveStatus_spec ctx s w epoch status best s' w' status' :
  moveStatus ctx s w epoch status best = Ok (s', w', status') → status ≠ Finalized →
  lck_headers w' = lck_headers w ∧
  status' = (if status_rank status <? status_rank best then best else status) ∧
  s' = (if bool_decide (best = Finalized) then setLastFinalizedEpochNumber s epoch else s).
Proof using CL.
  unfold moveStatus. intros H Hs. apply bind_Ok in H as ([w1 st1] & H1 & H).
  destruct status, best; try done; cbn in H1; inv_ok H1; cbn in H; inv_ok H; simplify_eq; (split; [|done]);
    repeat match goal with
    | Hc : ckp_SetCheckpointConfirmed _ _ _ = Ok _ |- _ => apply confirmed_headers in Hc
    | Hc : ckp_SetCheckpointFinalized _ _ _ = Ok _ |- _ => apply finalized_headers in Hc
    end; congruence.
Qed.

(** What the loop knows of the epochs it has passed, by the best submission of the
    last of them: when that one is deep enough to finalise, all are finalised. *)
Definition passed (s : BtcCkptState) (hs : headersState) (parent : option (option SubmissionBtcInfo)) (rest : list Z) : Prop :=
  match parent with
  | None => ∀ e, 1 ≤ e → submitted s e → e ∉ rest → finalised s e
  | Some (Some b) => CheckpointFinalizationTimeout (bc_params s) ≤ YoungestBlockDepth b →
                     ∀ e, 1 ≤ e → submitted s e → e ∉ rest → finalised s e
  | Some None => True
  end.
Record loop_inv (s : BtcCkptState) (hs : headersState) (parent : option (option SubmissionBtcInfo)) (l : list (Z * EpochData)) : Prop := mkLoop {
  li_ordered : ordered s;
  li_stored e ed : (e, ed) ∈ l → bc_epochs s !! e = Some ed;
  li_sorted : StronglySorted Z.lt l.*1;
  li_covers e : submitted s e → e ∉ l.*1 → Forall (Z.lt e) l.*1;
  li_start : Forall (Z.le (getLastFinalizedEpochNumber s)) l.*1;
  li_passed : passed s hs parent l.*1
}.

Lemma loop_head s hs parent e ed l :
  loop_inv s hs parent ((e, ed) :: l) →
  bc_epochs s !! e = Some ed ∧ StronglySorted Z.lt l.*1 ∧ Forall (Z.lt e) l.*1 ∧ getLastFinalizedEpochNumber s ≤ e ∧
  (∀ e', submitted s e' → e' ∉ l.*1 → e' ≤ e) ∧ e ∉ l.*1.
Proof.
  intros [_ Hst Hso Hc Hs _]. cbn in *. apply StronglySorted_inv in Hso as [Hso Hlt]. apply Forall_cons in Hs as [Hs _].
  split; [apply Hst; set_solver|]. split; [done|]. split; [done|]. split; [done|].
  assert (Hni : e ∉ l.*1) by (intros Hin; rewrite Forall_forall in Hlt; specialize (Hlt e Hin); lia).
  split; [|done]. intros e' Hd Hn. destruct (decide (e' = e)) as [->|Hne]; [done|].
  assert (Hn' : e' ∉ e :: l.*1) by set_solver. specialize (Hc e' Hd Hn'). apply Forall_cons in Hc as [Hc _]. lia.
Qed.

(** The loop goes on after the data of the current epoch have been replaced. *)
Lemma loop_next s hs parent e ed l s' ed' parent' :
  loop_inv s hs parent ((e, ed) :: l) → ordered s' →
  bc_epochs s' = <[e := ed']> (bc_epochs s) →
  getLastFinalizedEpochNumber s' ≤ e → passed s' hs parent' l.*1 →
  loop_inv s' hs parent' l.
Proof.
  intros Hl Ho He Hle Hp. pose proof (loop_head _ _ _ _ _ _ Hl) as (Hst & Hso & Hlt & Hs & Hbefore & Hni).
  split; [done| |done| | |done].
  - intros e1 ed1 Hin. rewrite He, lookup_insert_ne; [apply (li_stored _ _ _ _ Hl); set_solver|].
    intros ->. apply Hni. apply list_elem_of_fmap. by exists (e1, ed1).
  - intros e1 Hd Hn. assert (e1 ≤ e).
    { destruct (decide (e = e1)) as [->|Hne]; [done|]. apply Hbefore; [|done].
      unfold submitted in *. rewrite He in Hd. by rewrite lookup_insert_ne in Hd. }
    eapply Forall_impl; [done|]. cbn. intros. lia.
  - eapply Forall_impl; [done|]. cbn. intros. lia.
Qed.

Lemma passed_submitted_ext s s' hs parent rest :
  bc_params s' = bc_params s → (∀ e, submitted s' e ↔ submitted s e) → (∀ e, finalised s' e ↔ finalised s e) →
  passed s hs parent rest → passed s' hs parent rest.
Proof.
  intros Hp Hsub Hfin. unfold passed. rewrite Hp. destruct parent as [[b|]|]; [|done|].
  - intros H Hw e He. rewrite Hsub, Hfin. by apply H.
  - intros H e He. rewrite Hsub, Hfin. by apply H.
Qed.

(** Replacing the data of the current epoch, which is not finalised, by other data
    that is not. *)
Lemma loop_unfinalised s hs parent e ed l s1 ed' parent' :
  loop_inv s hs parent ((e, ed) :: l) → ed_Status ed ≠ Finalized → ed_Status ed' ≠ Finalized →
  bc_epochs s1 = bc_epochs s → bc_lastFinalized s1 = bc_lastFinalized s →
  passed (saveEpochData s1 e ed') hs parent' l.*1 →
  loop_inv (saveEpochData s1 e ed') hs parent' l.
Proof.
  intros Hl Hn Hn' He Hlast Hp. pose proof (loop_head _ _ _ _ _ _ Hl) as (Hst & _ & _ & Hs & _ & _).
  assert (Ho : ordered s1) by (eapply ordered_ext; [done|done|apply Hl]).
  eapply loop_next; [done| |cbn; by rewrite He| |done].
  - apply ordered_save; [done|done| |].
    + unfold finalised. rewrite He, Hst. by intros (? & [= <-] & ?).
    + intros H2. apply ord_contiguous; [done|done|]. unfold submitted. rewrite He, Hst. done.
  - unfold getLastFinalizedEpochNumber in *. cbn. by rewrite Hlast.
Qed.

Lemma loop_finalised s hs parent e ed l info :
  loop_inv s hs parent ((e, ed) :: l) → ed_Status ed = Finalized → loop_inv s hs (Some (Some info)) l.
Proof.
  intros Hl Hf. pose proof (loop_head _ _ _ _ _ _ Hl) as (Hst & _ & _ & Hs & Hb & _).
  assert (Hfin : finalised s e) by by eexists.
  eapply (loop_next _ _ _ _ _ _ _ ed); [done|apply Hl|symmetry; by apply insert_id|done|].
  cbn. intros _ e1 H1 Hd Hn. specialize (Hb _ Hd Hn). destruct (decide (e1 = e)) as [->|Hne]; [done|].
  eapply ord_prefix; [apply Hl|done| |done|exact Hfin]. lia.
Qed.

(** The epochs before one whose best submission is deep enough are finalised. *)
Lemma passed_before s hs parent e ed l c best :
  loop_inv s hs parent ((e, ed) :: l) → parent ≠ Some None →
  changes_of hs (default None parent) (ed_Keys ed) c → EpochBestSubmission c = Some best →
  CheckpointFinalizationTimeout (bc_params s) ≤ YoungestBlockDepth best →
  ∀ e', 1 ≤ e' → e' < e → submitted s e' → finalised s e'.
Proof.
  intros Hl Hp (Hk & _ & Hb) Hbest Hw e' H1 Hlt Hd. pose proof (loop_head _ _ _ _ _ _ Hl) as (_ & _ & Hall & _).
  assert (Hn : e' ∉ ((e, ed) :: l).*1).
  { cbn. intros [->|Hin]%elem_of_cons; [lia|]. rewrite Forall_forall in Hall. specialize (Hall _ Hin). lia. }
  pose proof (li_passed _ _ _ _ Hl) as Hpa. destruct parent as [[b|]|]; [|done|by apply Hpa].
  apply Hpa; [|done|done|done]. rewrite Hbest in Hb. destruct Hb as (Hin & Hi & _). rewrite Hk in Hin.
  apply list_elem_of_filter in Hin as [Hv _]. unfold viable in Hv. rewrite Hi in Hv. cbn in Hv.
  pose proof (proj2 (GetSubmissionBtcInfo_spec _ _ _ Hi)). unfold HappenedAfter in Hv. lia.
Qed.

Lemma loop_becomes_final s hs parent e ed l s1 ed' best :
  loop_inv s hs parent ((e, ed) :: l) → ed_Status ed ≠ Finalized → ed_Status ed' = Finalized → length (ed_Keys ed') = 1%nat →
  (∀ e', 1 ≤ e' → e' < e → submitted s e' → finalised s e') →
  bc_epochs s1 = bc_epochs s → bc_lastFinalized s1 = Some e →
  loop_inv (saveEpochData s1 e ed') hs (Some (Some best)) l.
Proof.
  intros Hl Hn Hf Hk Hall He Hlast. pose proof (loop_head _ _ _ _ _ _ Hl) as (Hst & _ & _ & Hs & Hb & _).
  assert (Hd : submitted s e) by (unfold submitted; by rewrite Hst).
  assert (Hnf : ¬ finalised s e) by (unfold finalised; rewrite Hst; by intros (? & [= <-] & ?)).
  assert (Ho : ordered (saveEpochData s1 e ed')).
  { eapply (ordered_ext (saveEpochData (setLastFinalizedEpochNumber s e) e ed')); [cbn; by rewrite He|done|].
    apply ordered_finalise; try done. apply Hl. }
  eapply loop_next; [done|done|cbn; by rewrite He|unfold getLastFinalizedEpochNumber; cbn; by rewrite Hlast|].
  cbn. intros _ e1 H1 Hd1 Hn1. destruct (decide (e1 = e)) as [->|Hne].
  - eexists. cbn. by rewrite lookup_insert_eq.
  - assert (Hd1' : submitted s e1) by (unfold submitted in *; cbn in Hd1; rewrite He in Hd1; by rewrite lookup_insert_ne in Hd1).
    specialize (Hb _ Hd1' Hn1). destruct (Hall e1 H1 ltac:(lia) Hd1') as (ed1 & He1 & Hf1).
    exists ed1. cbn. rewrite He. by rewrite lookup_insert_ne.
Qed.

Lemma forget_loop ctx s w parent e ed l sw :
  loop_inv s (lck_headers w) parent ((e, ed) :: l) → ed_Status ed ≠ Finalized →
  forgetEpoch ctx s w e ed = Ok sw →
  loop_inv sw.1 (lck_headers sw.2) (Some None) l ∧ lck_headers sw.2 = lck_headers w.
Proof using CL.
  intros Hl Hn H. apply bind_Ok in H as (w' & Hw & H). injection H as <-. cbn [fst snd].
  apply forgotten_headers in Hw. rewrite Hw. split; [|done]. unfold clearEpochData.
  pose proof (foldl_delete_views (ed_Keys ed) s) as [Hv1 Hv2].
  by eapply loop_unfinalised.
Qed.

(** An epoch with a best submission. *)
Lemma process_loop ctx s w parent e ed l c best s1 w1 status :
  loop_inv s (lck_headers w) parent ((e, ed) :: l) → ed_Status ed ≠ Finalized → parent ≠ Some None →
  changes_of (lck_headers w) (default None parent) (ed_Keys ed) c → EpochBestSubmission c = Some best →
  moveStatus ctx s w e (ed_Status ed) (checkSubmissionStatus (bc_params s) best) = Ok (s1, w1, status) →
  let ed1 := mkEpochData (ed_Keys ed) status in
  let r := if bool_decide (status = Finalized) then applyFinalized s1 ed1 c best else applyChanges s1 ed1 c in
  loop_inv (saveEpochData r.1 e r.2) (lck_headers w1) (Some (Some best)) l ∧ lck_headers w1 = lck_headers w.
Proof using CL.
  intros Hl Hn Hp Hc Hbest Hm. apply moveStatus_spec in Hm as (Hw & Hst & Hs1); [|done]. cbn zeta.
  rewrite Hw. split; [|done]. unfold checkSubmissionStatus, SubmissionDepth in *.
  destruct (CheckpointFinalizationTimeout (bc_params s) <=? YoungestBlockDepth best) eqn:Ew.
  - assert (status = Finalized) as -> by (rewrite Hst; by destruct (ed_Status ed)).
    rewrite bool_decide_eq_true_2 by done. rewrite bool_decide_eq_true_2 in Hs1 by done. subst s1.
    pose proof (applyFinalized_views (setLastFinalizedEpochNumber s e) (mkEpochData (ed_Keys ed) Finalized) c best) as [Hv1 Hv2].
    eapply loop_becomes_final; [done|done|done|done| |by rewrite Hv1|by rewrite Hv2].
    eapply passed_before; [done|done|done|done|lia].
  - assert (Hnf : status ≠ Finalized) by (rewrite Hst; destruct (BtcConfirmationDepth (bc_params s) <=? YoungestBlockDepth best), (ed_Status ed); done).
    rewrite bool_decide_eq_false_2 by done.
    assert (s1 = s) as -> by (rewrite Hs1; by destruct (BtcConfirmationDepth (bc_params s) <=? YoungestBlockDepth best)).
    pose proof (foldl_delete_views (SubmissionsToDelete c) s) as [Hv1 Hv2].
    eapply loop_unfinalised; [done|done|done|done|done|].
    cbn. intros Hbad. exfalso.
    assert (Hpar : bc_params (foldl deleteSubmission s (SubmissionsToDelete c)) = bc_params s).
    { clear. generalize (SubmissionsToDelete c) as k. intros k. revert s. induction k as [|x k IH]; intros s; [done|]. cbn. by rewrite IH. }
    rewrite Hpar in Hbad. lia.
Qed.

Lemma checkEpoch_loop ctx s w parent e ed l s' w' parent' :
  loop_inv s (lck_headers w) parent ((e, ed) :: l) →
  checkEpoch ctx s w parent e ed = Ok (Some (s', w', parent')) →
  loop_inv s' (lck_headers w') parent' l ∧ lck_headers w' = lck_headers w.
Proof using CL.
  intros Hl H. unfold checkEpoch in H. destruct (length (ed_Keys ed) =? 0)%nat; [done|].
  destruct (bool_decide (ed_Status ed = Finalized)) eqn:Ef.
  { apply bool_decide_eq_true in Ef. destruct (ed_Keys ed) as [|sk [|]]; try done.
    destruct (GetSubmissionBtcInfo (lck_headers w) sk) eqn:Ei; try done. injection H as <- <- <-.
    split; [|done]. by eapply loop_finalised. }
  apply bool_decide_eq_false in Ef.
  assert (Hcase : parent = Some None ∨ parent ≠ Some None) by (destruct parent as [[]|]; [right|left|right]; done).
  destruct Hcase as [->|Hp].
  { apply bind_Ok in H as (sw & Hf & H). injection H as <- <- <-. by eapply forget_loop. }
  assert (H' : (c ← getEpochChanges (lck_headers w) (default None parent) ed;
    match SubmissionsToKeep c, EpochBestSubmission c with
    | [], _ => sw ← forgetEpoch ctx s w e ed; Ok (Some (sw.1, sw.2, Some None))
    | _, None => Panic (Errorf "nil pointer dereference")
    | _, Some best =>
      r ← moveStatus ctx s w e (ed_Status ed) (checkSubmissionStatus (bc_params s) best);
      let '(s, w, status) := r in
      let ed := mkEpochData (ed_Keys ed) status in
      let '(s, ed) := if bool_decide (status = Finalized) then applyFinalized s ed c best else applyChanges s ed c in
      Ok (Some (saveEpochData s e ed, w, Some (Some best)))
    end) = Ok (Some (s', w', parent'))) by (destruct parent as [[]|]; [done|done|done]).
  clear H. apply bind_Ok in H' as (c & Hc & H). apply getEpochChanges_of in Hc.
  destruct (SubmissionsToKeep c) as [|k0 ks] eqn:Ek.
  { apply bind_Ok in H as (sw & Hf & H). injection H as <- <- <-. by eapply forget_loop. }
  destruct (EpochBestSubmission c) as [best|] eqn:Eb; [|done].
  apply bind_Ok in H as ([[s1 w1] status] & Hm & H).
  pose proof (process_loop ctx s w parent e ed l c best s1 w1 status Hl Ef Hp Hc Eb Hm) as Hr. cbn zeta in Hr.
  destruct (bool_decide (status = Finalized)); by injection H as <- <- <-.
Qed.

Lemma checkLoop_ordered ctx l : ∀ s w parent s' w',
  loop_inv s (lck_headers w) parent l → checkLoop ctx s w parent l = Ok (s', w') → ordered s'.
Proof using CL.
  induction l as [|[e ed] l IH]; intros s w parent s' w' Hl H.
  - injection H as <- <-. apply Hl.
  - apply bind_Ok in H as ([[[s1 w1] p1]|] & Hs & H).
    + apply checkEpoch_loop with (l := l) in Hs as [Hs _]; [|done]. by eapply IH.
    + injection H as <- <-. apply Hl.
Qed.

Lemma epochsFrom_loop s hs : ordered s → loop_inv s hs None (epochsFrom s (getLastFinalizedEpochNumber s)).
Proof.
  intros Ho. assert (Hin : ∀ e ed, (e, ed) ∈ epochsFrom s (getLastFinalizedEpochNumber s) ↔
    getLastFinalizedEpochNumber s ≤ e ∧ bc_epochs s !! e = Some ed).
  { intros e ed. unfold epochsFrom. rewrite list_elem_of_filter, elem_of_iterZ. done. }
  assert (Hin1 : ∀ e, e ∈ (epochsFrom s (getLastFinalizedEpochNumber s)).*1 ↔ getLastFinalizedEpochNumber s ≤ e ∧ submitted s e).
  { intros e. rewrite list_elem_of_fmap. split.
    - intros ([e1 ed] & -> & H%Hin). cbn. destruct H. split; [done|by eexists].
    - intros (Hle & ed & Hd). exists (e, ed). split; [done|]. by apply Hin. }
  split; [done| | | | |].
  - intros e ed H%Hin. apply H.
  - unfold epochsFrom. assert (Hso := iterZ_sorted (bc_epochs s)). revert Hso.
    generalize (iterZ (bc_epochs s)) as l. clear. intros l. induction l as [|[k v] l IH]; intros Hso; [constructor|].
    apply StronglySorted_inv in Hso as [Hso Hk]. rewrite filter_cons. case_decide; [|by apply IH].
    cbn. constructor; [by apply IH|]. apply Forall_forall. intros x ([k' v'] & -> & [_ Hx]%list_elem_of_filter)%list_elem_of_fmap.
    rewrite Forall_forall in Hk. apply Hk. apply list_elem_of_fmap. by exists (k', v').
  - intros e Hd Hn. assert (e < getLastFinalizedEpochNumber s) by (rewrite Hin1 in Hn; destruct (Z_lt_le_dec e (getLastFinalizedEpochNumber s)); [done|exfalso; by apply Hn]).
    apply Forall_forall. intros x Hx%Hin1. lia.
  - apply Forall_forall. intros x Hx%Hin1. apply Hx.
  - cbn. intros e He Hd Hn. assert (Hlt : e < getLastFinalizedEpochNumber s) by (rewrite Hin1 in Hn; destruct (Z_lt_le_dec e (getLastFinalizedEpochNumber s)); [done|exfalso; by apply Hn]).
    eapply ord_prefix; [done|done|exact Hlt|done|]. apply ord_last; [done|lia].
Qed.

Lemma checkCheckpoints_ordered ctx s w s' w' : ordered s → checkCheckpoints ctx s w = Ok (s', w') → ordered s'.
Proof using CL. intros Ho H. eapply checkLoop_ordered; [|exact H]. by apply epochsFrom_loop. Qed.

End loop.

(** ** Histories *)

Section machine.
Context {T : Type} {BT : BtcTx T} {H : Type} {BW : BtcWire H} {BP : BtcPow H} {DH : DoubleHash} {BA : Bech32}.
Context {W : Type} {LK : BTCLightClientKeeper W} {CK : CheckpointingKeeper W} {CL : CheckpointingKeeperLaws W} {SI : SpvIncentives W}.

Lemma checkAncestors_previous s hs e info : checkAncestors s hs e info = Ok tt → 2 ≤ e → submitted s (e - 1).
Proof.
  unfold checkAncestors, GetEpochData, submitted. destruct (e <=? 1) eqn:E; [lia|].
  destruct (bc_epochs s !! (e - 1)); [done|discriminate].
Qed.

Lemma InsertBTCSpvProof_ordered powLimit ctx s w req s' w' :
  ordered s → InsertBTCSpvProof powLimit ctx s w req = Ok (s', w') → ordered s'.
Proof.
  intros Ho Hi. unfold InsertBTCSpvProof in Hi. apply bind_Ok in Hi as (tag & _ & Hi).
  destruct (ParseSubmission _ _ _) as [sub| |]; [|done|done]. cbn zeta in Hi.
  destruct (HasSubmission _ _); [done|]. destruct (GetSubmissionBtcInfo _ _) as [info| |]; [|done|done].
  set (e := rbc_Epoch (rs_CheckpointData sub)) in *. set (ed := default NewEmptyEpochData (GetEpochData s e)) in *.
  destruct (bool_decide (ed_Status ed = Finalized)) eqn:Ef; [done|]. apply bool_decide_eq_false in Ef.
  apply bind_Ok in Hi as ([w1 [err|]] & _ & Hi). { destruct err; try done. by injection Hi as <- <-. }
  apply bind_Ok in Hi as ([] & Ha & Hi). apply bind_Ok in Hi as ([s2 w2] & Hadd & Hi). injection Hi as <- <-.
  apply bind_Ok in Hadd as (w3 & _ & Hadd). injection Hadd as <- <-.
  apply (ordered_ext (saveEpochData s e (AppendKey ed (GetSubmissionKey sub)))); [done|done|].
  apply ordered_save; [done|done| |by eapply checkAncestors_previous].
  intros (ed' & He & Hs). apply Ef. unfold ed, GetEpochData. by rewrite He.
Qed.

(** Messages, the end of a block, the light client's hooks, and anything the other
    modules do. *)
Inductive bc_step : BtcCkptState * W → BtcCkptState * W → Prop :=
  | bs_insert powLimit ctx s w req s' w' : InsertBTCSpvProof powLimit ctx s w req = Ok (s', w') → bc_step (s, w) (s', w')
  | bs_params authority a p s w s' : UpdateParams_btccheckpoint authority s a p = Ok s' → bc_step (s, w) (s', w)
  | bs_tip s w : bc_step (s, w) (setBtcLightClientUpdated s, w)
  | bs_end ctx s w s' w' : EndBlocker_btccheckpoint ctx s w = Ok (s', w') → bc_step (s, w) (s', w')
  | bs_others s w w' : bc_step (s, w) (s, w').

Lemma bc_step_ordered sw sw' : bc_step sw sw' → ordered sw.1 → ordered sw'.1.
Proof using CL.
  intros [powLimit ctx s w req s' w' Hi|authority a p s w s' Hp|s w|ctx s w s' w' He|s w w'] Ho; cbn [fst] in *.
  - by eapply InsertBTCSpvProof_ordered.
  - unfold UpdateParams_btccheckpoint in Hp. inv_ok Hp. unfold SetParams_btccheckpoint in Hp. inv_ok Hp.
    injection Hp as <-. by eapply ordered_ext; [| |exact Ho].
  - by eapply ordered_ext; [| |exact Ho].
  - apply bind_Ok in He as ([s1 w1] & Hc & He). injection He as <- <-. apply (ordered_ext s1); [done|done|].
    destruct (bc_updated s); [by eapply checkCheckpoints_ordered|]. by injection Hc as <- <-.
  - done.
Qed.

(** C26: Epochs are finalised in order. From a state in which the finalised epochs are
    a prefix of those with submissions (in particular an empty one), after any
    sequence of submissions, changes of parameters, changes of the light client's
    chain and ends of blocks: every epoch from 1 on with data before a finalised one
    is finalised (epoch 0 has no checkpoint), a finalised epoch has exactly one submission left, and the last
    finalised epoch that the module remembers is finalised and not before any
    finalised one. *)
Theorem epochs_finalised_in_order s0 w0 s w :
  ordered s0 → rtc bc_step (s0, w0) (s, w) →
  (∀ e e', 1 ≤ e → e < e' → submitted s e → finalised s e' → finalised s e) ∧
  (∀ e ed, GetEpochData s e = Some ed → ed_Status ed = Finalized →
     (∃ sk, ed_Keys ed = [sk]) ∧ e ≤ getLastFinalizedEpochNumber s) ∧
  (0 < getLastFinalizedEpochNumber s → finalised s (getLastFinalizedEpochNumber s)).
Proof using CL.
  intros Ho Hr. assert (Hs : ordered s).
  { assert (Hgen : ∀ a b, rtc bc_step a b → ordered a.1 → ordered b.1)
      by (intros a b Hab; induction Hab as [|x y z Hxy _ IH]; [done|]; intros Hx; by eapply IH, bc_step_ordered).
    exact (Hgen _ _ Hr Ho). }
  destruct Hs as [H1 H2 H3 H4]. split; [done|]. split; [|done].
  intros e ed He Hf. destruct (H1 e ed He Hf) as [Hk Hle]. split; [|done].
  destruct (ed_Keys ed) as [|sk [|]]; try discriminate. by exists sk.
Qed.

End machine.

(** [getEpochChanges] splits the submissions of an epoch into those that are on
    the main chain after the parent epoch's best submission, which it keeps, and the
    others, which it deletes, each in order; its best submission is a kept one such
    that no kept one is deeper, or as deep with a lower transaction index. *)
Theorem getEpochChanges_spec hs parent ed c :
  getEpochChanges hs parent ed = Ok c →
  SubmissionsToKeep c = filter (λ sk, viable hs parent sk = true) (ed_Keys ed) ∧
  SubmissionsToDelete c = filter (λ sk, viable hs parent sk = false) (ed_Keys ed) ∧
  match EpochBestSubmission c with
  | None => SubmissionsToKeep c = []
  | Some b =>
    si_SubmissionKey b ∈ SubmissionsToKeep c ∧ GetSubmissionBtcInfo hs (si_SubmissionKey b) = Ok b ∧
    ∀ sk info, sk ∈ SubmissionsToKeep c → GetSubmissionBtcInfo hs sk = Ok info →
      SubmissionDepth info < SubmissionDepth b ∨
      SubmissionDepth info = SubmissionDepth b ∧ YoungestBlockLowestTxIdx b ≤ YoungestBlockLowestTxIdx info
  end.
Proof.
  intros (Hk & Hd & Hb)%getEpochChanges_of. split; [done|]. split; [done|].
  destruct (EpochBestSubmission c) as [b|]; [|done]. destruct Hb as (Hin & Hi & Hall). split; [done|]. split; [done|].
  intros sk info Hsk Hinfo. specialize (Hall sk info Hsk Hinfo). unfold IsBetterThan in Hall.
  destruct (SubmissionDepth b <? SubmissionDepth info) eqn:E1; [done|].
  destruct (SubmissionDepth info <? SubmissionDepth b) eqn:E2; [left; lia|]. right. lia.
Qed.

(** ** Where the code loses data *)

Lemma moveStatus_confirmed {W : Type} {CK : CheckpointingKeeper W} ctx s (w : W) e :
  moveStatus ctx s w e Confirmed Finalized =
  (w' ← ckp_SetCheckpointFinalized ctx w e; Ok (setLastFinalizedEpochNumber s e, w', Finalized)).
Proof. reflexivity. Qed.

(** C37: When the first submission of an epoch has left the chain and the second one
    finalises the epoch, the data of the best submission are deleted and those of
    the abandoned one kept: the key that [GetBestSubmission] then returns has no
    data. The index of the best submission is not set when the first viable
    submission is found, so it stays at 0. *)
Theorem best_submission_data_lost {W : Type} {LK : BTCLightClientKeeper W} {CK : CheckpointingKeeper W}
    ctx s (w w' : W) e A B errA infoB s' :
  bc_epochs s = {[ e := mkEpochData [A; B] Confirmed ]} → bc_lastFinalized s = None → 0 ≤ e →
  A ≠ B → (2 ≤ length A)%nat → (2 ≤ length B)%nat →
  GetSubmissionBtcInfo (lck_headers w) A = Err errA →
  GetSubmissionBtcInfo (lck_headers w) B = Ok infoB →
  CheckpointFinalizationTimeout (bc_params s) ≤ SubmissionDepth infoB →
  checkCheckpoints ctx s w = Ok (s', w') →
  GetBestSubmission s' e = Ok (Finalized, B) ∧ GetSubmissionData s' B = None ∧
  GetSubmissionData s' A = GetSubmissionData s A.
Proof.
  intros He Hl He0 Hne HA HB HiA HiB Hw H. pose proof (proj1 (GetSubmissionBtcInfo_spec _ _ _ HiB)) as Hkey.
  unfold checkCheckpoints, epochsFrom, iterZ, Store.iterator, getLastFinalizedEpochNumber in H.
  rewrite He, Hl, map_to_list_singleton in H.
  change (sort_stable _ [(e, mkEpochData [A; B] Confirmed)]) with [(e, mkEpochData [A; B] Confirmed)] in H.
  rewrite filter_cons, decide_True in H by (cbn; lia). cbn [filter list_filter checkLoop] in H.
  apply bind_Ok in H as (r & Hr & H). unfold checkEpoch in Hr. cbn [length ed_Keys ed_Status Nat.eqb] in Hr.
  rewrite bool_decide_eq_false_2 in Hr by done.
  assert (Hc : getEpochChanges (lck_headers w) None (mkEpochData [A; B] Confirmed) = Ok (mkChanges [A] [B] (Some infoB) 0)).
  { unfold getEpochChanges. cbn [foldM ed_Keys]. unfold changesStep.
    rewrite (proj2 (Nat.ltb_ge _ _) HA), HiA. cbn [mbind outcome_bind].
    by rewrite (proj2 (Nat.ltb_ge _ _) HB), HiB. }
  cbn [default from_option id] in Hr. rewrite Hc in Hr. cbn [mbind outcome_bind SubmissionsToKeep EpochBestSubmission] in Hr.
  unfold checkSubmissionStatus in Hr. rewrite (proj2 (Z.leb_le _ _) Hw) in Hr.
  cbn [ed_Status] in Hr. rewrite moveStatus_confirmed in Hr.
  destruct (ckp_SetCheckpointFinalized ctx w e) as [w1| |]; [|done|done]. cbn in Hr. injection Hr as <-.
  injection H as <- <-. cbn. rewrite Hkey. unfold GetBestSubmission, GetEpochData, GetSubmissionData. cbn.
  rewrite lookup_insert_eq. split; [done|]. rewrite lookup_delete_eq. split; [done|]. by rewrite lookup_delete_ne.
Qed.

(** After an epoch has lost all its submissions the state cannot be exported: the
    stored empty list of keys is decoded as nil, which the validation of the entry
    refuses, and the export panics. *)
Theorem export_fails_after_clear s e ed : ∃ err, ExportGenesis_btccheckpoint (clearEpochData s e ed) = Panic err.
Proof.
  unfold ExportGenesis_btccheckpoint.
  assert (Hf : is_ok (exportEpochs (clearEpochData s e ed)) = false).
  { apply (foldM_fails _ _ (e, mkEpochData [] (ed_Status ed))); [|done].
    apply elem_of_iterZ. cbn. by rewrite lookup_insert_eq. }
  destruct (exportEpochs _); [done|by eexists|by eexists].
Qed.

(** ** A checkpoint in two blocks *)

Module SubmissionExample.
#[local] Existing Instances SpvExample.toy_hash SpvExample.toy_tx SpvExample.toy_pow SpvExample.toy_header hex_addresses.

(** The other modules are the light client; the checkpointing module accepts. *)
#[local] Instance headers_only : BTCLightClientKeeper headersState := {| lck_headers w := w |}.
#[local] Instance accepting : CheckpointingKeeper headersState :=
  {| ckp_VerifyCheckpoint _ w _ := Ok (w, None); ckp_SetCheckpointSubmitted _ w _ := Ok w; ckp_SetCheckpointConfirmed _ w _ := Ok w;
     ckp_SetCheckpointFinalized _ w _ := Ok w; ckp_SetCheckpointForgotten _ w _ := Ok w |}.
#[local] Instance accepting_laws : CheckpointingKeeperLaws headersState.
Proof. split; cbn; congruence. Qed.
#[local] Instance no_refunds : SpvIncentives headersState := {| IndexRefundableSpv w _ := w |}.

Definition ctx : Ctx := mkCtx 20 [] 200.
Definition raw : RawBtcCheckpoint :=
  mkRawBtcCheckpoint 1 (replicate 32 x01) (replicate 13 xff) (replicate 20 x02) (replicate 48 x03).
(** The two halves in scripts, each the only transaction of its block. *)
Definition halves : bytes * bytes := get_ok ([], []) (EncodeCheckpointData example_tag CurrentVersion raw).
Definition tx1 : bytes := [x6a; x4c; x4e] ++ halves.1.
Definition tx2 : bytes := [x6a; x3f] ++ halves.2.
Definition proof_of (tx : bytes) : BTCSpvProof := get_ok (mkSpvProof [] 0 [] None) (SpvProofFromHeaderAndTransactions (TxHash tx) [tx] 0).
Definition msg : MsgInsertBTCSpvProof := mkMsgSpv (hex_encode (replicate 20 x05)) [proof_of tx1; proof_of tx2].
Definition block_of (tx : bytes) : bytes := BlockHash (TxHash tx).
Definition chain (tip : Z) : headersState :=
  InsertHeaderInfos empty_headers
    [mkHeaderInfo [] (block_of tx1) 0 1; mkHeaderInfo [] (block_of tx2) 1 2; mkHeaderInfo [] (replicate 32 x09) tip 3].
Definition params : BtcCkptParams := mkBcParams 2 4 (hex_encode example_tag).

Definition st0 : BtcCkptState := mkBtcCkpt ∅ ∅ None params false.
Definition r1 : BtcCkptState * headersState := get_ok (st0, chain 2) (InsertBTCSpvProof 0 ctx st0 (chain 2) msg).
Definition r2 : BtcCkptState * headersState :=
  get_ok (st0, chain 2) (EndBlocker_btccheckpoint ctx (setBtcLightClientUpdated r1.1) (chain 5)).

Lemma epochs_finalised_in_order_witness :
  (∀ e e', 1 ≤ e → e < e' → submitted r2.1 e → finalised r2.1 e' → finalised r2.1 e) ∧
  (∀ e ed, GetEpochData r2.1 e = Some ed → ed_Status ed = Finalized →
     (∃ sk, ed_Keys ed = [sk]) ∧ e ≤ getLastFinalizedEpochNumber r2.1) ∧
  (0 < getLastFinalizedEpochNumber r2.1 → finalised r2.1 (getLastFinalizedEpochNumber r2.1)).
Proof.
  apply (epochs_finalised_in_order st0 (chain 2) r2.1 r2.2); [by apply ordered_empty|].
  eapply rtc_l; [apply (bs_insert 0 ctx st0 (chain 2) msg r1.1 r1.2); rewrite <- surjective_pairing; unfold r1; apply is_ok_get; vm_compute; reflexivity|].
  eapply rtc_l; [apply bs_tip|]. eapply rtc_l; [apply (bs_others _ r1.2 (chain 5))|].
  eapply rtc_l; [|apply rtc_refl]. apply (bs_end ctx). rewrite <- surjective_pairing. unfold r2. apply is_ok_get. vm_compute. reflexivity.
Defined.
(** The epoch has indeed been finalised. *)
Lemma example_finalised : getLastFinalizedEpochNumber r2.1 = 1.
Proof. vm_compute. reflexivity. Qed.

(** Two submissions of the epoch: one whose blocks have left the chain, one on it. *)
Definition keyA : SubmissionKey := [mkTxKey 0 (replicate 32 x0a); mkTxKey 0 (replicate 32 x0b)].
Definition keyB : SubmissionKey := [mkTxKey 0 (block_of tx1); mkTxKey 0 (block_of tx2)].
Definition infoB : SubmissionBtcInfo := get_ok (mkSubInfo [] 0 0 [] 0) (GetSubmissionBtcInfo (chain 5) keyB).
Definition two_keys : EpochData := mkEpochData [keyA; keyB] Confirmed.
Definition changes : epochChangesSummary := get_ok (mkChanges [] [] None 0) (getEpochChanges (chain 5) None two_keys).

Lemma getEpochChanges_spec_witness :
  SubmissionsToKeep changes = filter (λ sk, viable (chain 5) None sk = true) (ed_Keys two_keys) ∧
  SubmissionsToDelete changes = filter (λ sk, viable (chain 5) None sk = false) (ed_Keys two_keys) ∧
  match EpochBestSubmission changes with
  | None => SubmissionsToKeep changes = []
  | Some b =>
    si_SubmissionKey b ∈ SubmissionsToKeep changes ∧ GetSubmissionBtcInfo (chain 5) (si_SubmissionKey b) = Ok b ∧
    ∀ sk info, sk ∈ SubmissionsToKeep changes → GetSubmissionBtcInfo (chain 5) sk = Ok info →
      SubmissionDepth info < SubmissionDepth b ∨
      SubmissionDepth info = SubmissionDepth b ∧ YoungestBlockLowestTxIdx b ≤ YoungestBlockLowestTxIdx info
  end.
Proof. apply getEpochChanges_spec. unfold changes. apply is_ok_get. vm_compute. reflexivity. Defined.

Definition st3 : BtcCkptState :=
  mkBtcCkpt {[ 1 := two_keys ]} {[ keyA := mkSubData [] [] [] 1; keyB := mkSubData [] [] [] 1 ]} None params false.
Definition r4 : BtcCkptState * headersState := get_ok (st3, chain 5) (checkCheckpoints ctx st3 (chain 5)).

Lemma best_submission_data_lost_witness :
  GetBestSubmission r4.1 1 = Ok (Finalized, keyB) ∧ GetSubmissionData r4.1 keyB = None ∧
  GetSubmissionData r4.1 keyA = GetSubmissionData st3 keyA.
Proof.
  apply (best_submission_data_lost ctx st3 (chain 5) r4.2 1 keyA keyB (Errorf "One of submission blocks is not known to btclightclient") infoB r4.1).
  - reflexivity.
  - reflexivity.
  - lia.
  - apply (bool_decide_unpack (keyA ≠ keyB)). vm_compute. exact I.
  - cbn. lia.
  - cbn. lia.
  - vm_compute. reflexivity.
  - unfold infoB. apply is_ok_get. vm_compute. reflexivity.
  - vm_compute. discriminate.
  - rewrite <- surjective_pairing. unfold r4. apply is_ok_get. vm_compute. reflexivity.
Defined.

End SubmissionExample.
