(* ===== verification/Proposal.v ===== *)
(** * x/checkpointing: proposals and vote extensions

    The last block of an epoch is signed in vote extensions; the proposer of the
    next block accumulates them into a checkpoint and injects it as the first
    transaction, the other validators rebuild and compare it, and the pre-blocker
    seals it. The file translates x/checkpointing/prepare (proposal.go,
    transactions.go) and vote_extensions/vote_ext.go.

    The codecs, baseapp's checks of a commit and its default handlers enter as a
    class. Go visits the entries of a map in an unspecified order: [map_order]
    gives that order. *)

From S2P Require Import Prelude Bytes Store BbnTypes Coins TxFormatter Epochs Checkpoints.

(** ** transactions.go *)

Record PrepareProposalTxs := mkPrepareTxs { CheckpointTx : bytes; OtherTxs : list bytes; MaxBytes : Z; UsedBytes : Z }.

Definition NewPrepareProposalTxs (MaxTxBytes : Z) : outcome PrepareProposalTxs :=
  if MaxTxBytes <=? 0 then Err (Errorf "MaxTxBytes must be positive") else Ok (mkPrepareTxs [] [] (u64 MaxTxBytes) 0).
Definition updateUsedBytes (t : PrepareProposalTxs) (bytesToRemove bytesToAdd : Z) : outcome PrepareProposalTxs :=
  if UsedBytes t <? bytesToRemove then Err (Errorf "result cannot be negative")
  else
    let finalBytes := u64 (UsedBytes t - bytesToRemove + bytesToAdd) in
    if MaxBytes t <? finalBytes then Err (Errorf "exceeds max")
    else Ok (mkPrepareTxs (CheckpointTx t) (OtherTxs t) (MaxBytes t) finalBytes).
Definition SetOrReplaceCheckpointTx (t : PrepareProposalTxs) (tx : bytes) : outcome PrepareProposalTxs :=
  t ← updateUsedBytes t (Z.of_nat (length (CheckpointTx t))) (Z.of_nat (length tx));
  Ok (mkPrepareTxs tx (OtherTxs t) (MaxBytes t) (UsedBytes t)).
(** The transactions that fit, up to the first that does not. *)
Fixpoint fitTxs (t : PrepareProposalTxs) (bytesToAdd : Z) (allTxs : list bytes) : list bytes * Z :=
  match allTxs with
  | [] => ([], bytesToAdd)
  | tx :: allTxs =>
    let txSize := Z.of_nat (length tx) in
    if MaxBytes t <? u64 (UsedBytes t + bytesToAdd + txSize) then ([], bytesToAdd)
    else let r := fitTxs t (u64 (bytesToAdd + txSize)) allTxs in (tx :: r.1, r.2)
  end.
Definition ReplaceOtherTxs (t : PrepareProposalTxs) (allTxs : list bytes) : outcome PrepareProposalTxs :=
  let r := fitTxs t 0 allTxs in
  updateUsedBytes (mkPrepareTxs (CheckpointTx t) r.1 (MaxBytes t) (UsedBytes t)) 0 r.2.
Definition GetTxsInOrder (t : PrepareProposalTxs) : list bytes :=
  (if (length (CheckpointTx t) =? 0)%nat then [] else [CheckpointTx t]) ++ OtherTxs t.

(** ** Vote extensions *)

Record VoteExtension := mkVoteExt {
  ve_Signer : string; ve_ValidatorAddress : string; ve_BlockHash : option bytes; ve_EpochNum : Z; ve_Height : Z; ve_BlsSig : option bytes }.
Definition VoteExtension_Validate (ve : VoteExtension) : outcome unit :=
  if bool_decide (ve_Signer ve = EmptyString) then Err (Errorf "empty signer address")
  else if bool_decide (ve_ValidatorAddress ve = EmptyString) then Err (Errorf "empty validator address")
  else match ve_BlockHash ve, ve_BlsSig ve with
       | None, _ => Err (Errorf "empty block hash")
       | Some _, None => Err (Errorf "empty BLS signature")
       | Some _, Some _ => Ok tt
       end.
Definition ToBLSSig (ve : VoteExtension) : BlsSig :=
  mkBlsSig (ve_EpochNum ve) (ve_BlockHash ve) (ve_BlsSig ve) (ve_Signer ve) (ve_ValidatorAddress ve).

(** The fields of CometBFT's [ExtendedVoteInfo] that are read or written. *)
Record ExtendedVoteInfo := mkExtVote {
  ev_Address : bytes; ev_Power : Z; ev_VoteExtension : bytes; ev_ExtensionSignature : bytes; ev_Absent : bool }.
Record MsgInjectedCheckpoint := mkInjected { inj_Ckpt : RawCheckpointWithMeta; inj_Votes : list ExtendedVoteInfo }.

(** The codecs ([Marshal], [Unmarshal], [RejectUnknownFieldsStrict], the encoder and
    decoder of transactions: of each message, whether it is an injected checkpoint);
    baseapp's [ValidateVoteExtensions] and default handlers. *)
Class ProposalEnv := {
  ve_Marshal : VoteExtension → bytes;
  ve_Unmarshal : bytes → option VoteExtension;
  ve_NoUnknownFields : bytes → bool;
  encodeInjected : MsgInjectedCheckpoint → outcome bytes;
  decodeMsgs : bytes → outcome (list (option MsgInjectedCheckpoint));
  ValidateVoteExtensions : Ctx → list ExtendedVoteInfo → outcome unit;
  defaultPrepareProposal : Ctx → list bytes → outcome (list bytes);
  defaultProcessProposal : Ctx → list bytes → outcome bool
}.

Section proposal.
Context {PE : ProposalEnv} {BL : Blst} {BM : GoBitmap} {VA : ValBech32} {M : Type} {EK : EpochingKeeper M} {CH : CheckpointingHooks M}.
Context (map_order : list (string * Z) → list (string * Z)).

Definition MaxVoteExtensionSize : nat := 1024.

(** *** [findLastBlockHash] *)

(** The hash of a vote whose extension has one. *)
Definition votedHash (vote : ExtendedVoteInfo) : option bytes :=
  if (length (ev_VoteExtension vote) =? 0)%nat then None else ve_Unmarshal (ev_VoteExtension vote) ≫= ve_BlockHash.
Definition tallyHashes (votes : list ExtendedVoteInfo) : gmap string Z * Z :=
  foldl (λ acc vote,
    let totalPower := i64 (acc.2 + ev_Power vote) in
    match votedHash vote with
    | None => (acc.1, totalPower)
    | Some h => (<[hex_encode h := i64 (default 0 (acc.1 !! hex_encode h) + ev_Power vote)]> acc.1, totalPower)
    end) (∅, 0) votes.
Definition maxHash (l : list (string * Z)) : string * Z :=
  foldl (λ acc hp, if acc.2 <? hp.2 then hp else acc) (EmptyString, 0) l.
Definition findLastBlockHash (votes : list ExtendedVoteInfo) : outcome bytes :=
  let '(blockHashes, totalPower) := tallyHashes votes in
  let '(resBlockHash, maxPower) := maxHash (map_order (map_to_list blockHashes)) in
  if (String.length resBlockHash =? 0)%nat then Err (Errorf "could not find the block hash")
  else if maxPower <? i64 (Z.quot (i64 (totalPower * 2)) 3 + 1)
  then Err (Errorf "insufficient cumulative voting power received to verify vote extensions")
  else match hex_decode resBlockHash with Some b => Ok b | None => Err (Errorf "encoding/hex") end.

(** *** [VerifyVoteExtension] *)

Definition ProposalVerifyVoteExtension (s : CkptState) (expectedEpoch : Z) (veBytes expectedBlockHash : bytes) : outcome BlsSig :=
  if (length veBytes =? 0)%nat then Err (Errorf "vote extension is empty")
  else if (MaxVoteExtensionSize <? length veBytes)%nat then Err ErrVoteExt
  else if negb (ve_NoUnknownFields veBytes) then Err (Errorf "vote extension contains unknown or extra bytes")
  else match ve_Unmarshal veBytes with
  | None => Err (Errorf "failed to unmarshal vote extension")
  | Some ve =>
    if negb (bool_decide (veBytes = ve_Marshal ve)) then Err ErrVoteExt
    else
      _ ← wrapf "invalid vote extension" (VoteExtension_Validate ve);
      if negb (ve_EpochNum ve =? expectedEpoch) then Err (Errorf "vote extension epoch mismatch")
      else match ValFromBech32 (ve_Signer ve), ValFromBech32 (ve_ValidatorAddress ve) with
      | None, _ => Err (Errorf "invalid signer address in vote extension")
      | Some _, None => Err (Errorf "invalid validator address in vote extension")
      | Some _, Some _ =>
        hash ← deref (ve_BlockHash ve);
        if negb (bool_decide (hash = expectedBlockHash)) then Err (Errorf "the BLS sig is signed over unexpected block hash")
        else _ ← wrapf "invalid BLS signature" (VerifyBLSSig s (ToBLSSig ve)); Ok (ToBLSSig ve)
      end
  end.

Definition getValidBlsSigs (s : CkptState) (epoch : Z) (votes : list ExtendedVoteInfo) (blockHash : bytes) : outcome (list BlsSig) :=
  foldM (λ acc vote,
    match ProposalVerifyVoteExtension s epoch (ev_VoteExtension vote) blockHash with
    | Ok sig => Ok (acc ++ [sig])
    | Err _ => Ok acc
    | Panic e => Panic e
    end) [] votes.
(** The proposer marks the votes it drops as absent. *)
Definition pruned (vote : ExtendedVoteInfo) : ExtendedVoteInfo := mkExtVote (ev_Address vote) (ev_Power vote) [] [] true.
Definition pruneCommitInfo (s : CkptState) (epoch : Z) (votes : list ExtendedVoteInfo) (blockHash : bytes) : list ExtendedVoteInfo :=
  (λ vote, if is_ok (ProposalVerifyVoteExtension s epoch (ev_VoteExtension vote) blockHash) then vote else pruned vote) <$> votes.

(** *** [buildCheckpointFromVoteExtensions] *)

(** The signatures in turn, until the checkpoint is sealed; what fails is skipped. *)
Fixpoint accumulateSigs (s : CkptState) (vals : ValidatorSet) (totalPower : Z) (ckpt : RawCheckpointWithMeta) (sigs : list BlsSig)
    : outcome RawCheckpointWithMeta :=
  match sigs with
  | [] => Ok ckpt
  | sig :: sigs =>
    match ValFromBech32 (bs_SignerAddress sig) with
    | None => accumulateSigs s vals totalPower ckpt sigs
    | Some signerAddress =>
      match GetBlsPubKey s signerAddress with
      | Panic e => Panic e
      | Err _ => accumulateSigs s vals totalPower ckpt sigs
      | Ok signerBlsKey =>
        blsSig ← deref (bs_BlsSig sig);
        r ← Accumulate ckpt vals signerAddress signerBlsKey blsSig totalPower;
        match r with
        | (ckpt, Some _) => accumulateSigs s vals totalPower ckpt sigs
        | (ckpt, None) =>
          if bool_decide (cm_Status ckpt = Sealed) then Ok ckpt else accumulateSigs s vals totalPower ckpt sigs
        end
      end
    end
  end.
Definition buildCheckpointFromVoteExtensions (s : CkptState) (m : M) (epoch : Z) (votes : list ExtendedVoteInfo)
    : outcome RawCheckpointWithMeta :=
  prevBlockID ← findLastBlockHash votes;
  let ckpt := NewCheckpointWithMeta (NewCheckpoint epoch prevBlockID) Accumulating in
  sigs ← getValidBlsSigs s epoch votes prevBlockID;
  let vals := GetValidatorSet (ek_epoching m) epoch in
  totalPower ← GetTotalVotingPower (ek_epoching m) epoch;
  ckpt ← accumulateSigs s vals totalPower ckpt sigs;
  if negb (bool_decide (cm_Status ckpt = Sealed)) then Err (Errorf "insufficient voting power to build the checkpoint")
  else Ok ckpt.

(** *** The handlers *)

Definition ExtractInjectedCheckpoint (txs : list bytes) : outcome MsgInjectedCheckpoint :=
  match txs with
  | [] => Err (Errorf "the tx set does not contain the injected tx")
  | injectedTxBytes :: _ =>
    if (length injectedTxBytes =? 0)%nat then Err (Errorf "the injected vote extensions tx is empty")
    else
      msgs ← wrapf "failed to decode injected vote extension tx" (decodeMsgs injectedTxBytes);
      match msgs with
      | [Some msg] => Ok msg
      | [None] => Err (Errorf "injected tx must contain MsgInjectedCheckpoint")
      | _ => Err (Errorf "injected tx must have exact one message")
      end
  end.
Definition removeInjectedTx (txs : list bytes) : outcome (list bytes) :=
  match txs with [] => Err (Errorf "the tx set does not contain the injected tx") | _ :: txs => Ok txs end.

Definition PrepareProposal (ctx : Ctx) (s : CkptState) (m : M) (reqTxs : list bytes) (MaxTxBytes : Z) (votes : list ExtendedVoteInfo)
    : outcome (list bytes) :=
  resTxs ← wrapf "failed in default PrepareProposal handler" (defaultPrepareProposal ctx reqTxs);
  epoch ← GetEpoch (ek_epoching m);
  if negb (IsVoteExtensionProposal epoch ctx) then Ok resTxs
  else
    proposalTxs ← wrapf "NewPrepareProposalTxs error" (NewPrepareProposalTxs MaxTxBytes);
    if (length votes =? 0)%nat then Err (Errorf "no extended votes received from the last block")
    else
      _ ← wrapf "invalid vote extensions" (ValidateVoteExtensions ctx votes);
      ckpt ← wrapf "failed to build checkpoint from vote extensions"
               (buildCheckpointFromVoteExtensions s m (EpochNumber epoch) votes);
      blockHash ← deref (rc_BlockHash (cm_Ckpt ckpt));
      injectedVoteExtTx ← wrapf "failed to encode vote extensions into a special tx"
                            (encodeInjected (mkInjected ckpt (pruneCommitInfo s (EpochNumber epoch) votes blockHash)));
      proposalTxs ← wrapf "failed to inject checkpoint tx into the proposal" (SetOrReplaceCheckpointTx proposalTxs injectedVoteExtTx);
      proposalTxs ← wrapf "failed to add other txs into the proposal" (ReplaceOtherTxs proposalTxs resTxs);
      Ok (GetTxsInOrder proposalTxs).

(** The generated [Equal] of checkpoints with metadata. *)
Definition CheckpointStateUpdate_Equal (a b : CheckpointStateUpdate) : bool :=
  bool_decide (csu_State a = csu_State b) && (csu_BlockHeight a =? csu_BlockHeight b) && (csu_BlockTime a =? csu_BlockTime b).
Definition RawCheckpointWithMeta_Equal (this that : RawCheckpointWithMeta) : outcome bool :=
  same ← RawCheckpoint_Equal (cm_Ckpt this) (cm_Ckpt that);
  if negb same then Ok false
  else if negb (bool_decide (cm_Status this = cm_Status that)) then Ok false
  else
    pk ← ptr_Equal (cm_BlsAggrPk this) (cm_BlsAggrPk that);
    if negb pk then Ok false
    else if negb (cm_PowerSum this =? cm_PowerSum that) then Ok false
    else if negb (length (cm_Lifecycle this) =? length (cm_Lifecycle that))%nat then Ok false
    else Ok (forallb (λ p : CheckpointStateUpdate * CheckpointStateUpdate, CheckpointStateUpdate_Equal p.1 p.2)
               (zip (cm_Lifecycle this) (cm_Lifecycle that))).

(** The checkpoint part of [ProcessProposal]: [Ok None] rejects, otherwise the
    transactions for the default handler. *)
Definition rejectOnErr {A B} (r : outcome A) (k : A → outcome (option B)) : outcome (option B) :=
  match r with Ok a => k a | Err _ => Ok None | Panic e => Panic e end.
Definition checkInjected (ctx : Ctx) (s : CkptState) (m : M) (epoch : Epoch) (reqTxs : list bytes) : outcome (option (list bytes)) :=
  rejectOnErr (ExtractInjectedCheckpoint reqTxs) (λ injectedCkpt,
  rejectOnErr (removeInjectedTx reqTxs) (λ txs,
  rejectOnErr (ValidateVoteExtensions ctx (inj_Votes injectedCkpt)) (λ _,
  rejectOnErr (buildCheckpointFromVoteExtensions s m (EpochNumber epoch) (inj_Votes injectedCkpt)) (λ ckpt,
    same ← RawCheckpointWithMeta_Equal ckpt (inj_Ckpt injectedCkpt);
    if (same : bool) then Ok (Some txs) else Ok None)))).
Definition ProcessProposal (ctx : Ctx) (s : CkptState) (m : M) (reqTxs : list bytes) : outcome bool :=
  epoch ← GetEpoch (ek_epoching m);
  r ← (if IsVoteExtensionProposal epoch ctx then checkInjected ctx s m epoch reqTxs else Ok (Some reqTxs));
  match r with
  | None => Ok false
  | Some txs => wrapf "failed in default ProcessProposal handler" (defaultProcessProposal ctx txs)
  end.

Definition PreBlocker (ctx : Ctx) (s : CkptState) (m : M) (reqTxs : list bytes) : outcome (CkptState * M) :=
  epoch ← GetEpoch (ek_epoching m);
  if negb (IsVoteExtensionProposal epoch ctx) then Ok (s, m)
  else
    injectedCkpt ← wrapf "preblocker: failed to extract injected checkpoint from the tx set" (ExtractInjectedCheckpoint reqTxs);
    wrapf "failed to update checkpoint" (SealCheckpoint ctx s m (inj_Ckpt injectedCkpt)).

End proposal.

(** ** vote_extensions/vote_ext.go *)

Class BlsSigner := { SignMsgWithBls : bytes → outcome bytes; SignerPubKey : outcome bytes }.

Section vote_ext.
Context {PE : ProposalEnv} {BL : Blst} {VA : ValBech32} {BS : BlsSigner} {M : Type} {EK : EpochingKeeper M}.
(** The consensus address of a validator of the staking module. *)
Context (consAddress : M → bytes → outcome bytes).

Definition SignBLS (epochNum : Z) (blockHash : bytes) : outcome bytes := SignMsgWithBls (GetSignBytes epochNum blockHash).
Definition GetValidatorAddress (s : CkptState) : outcome bytes := key ← SignerPubKey; GetValAddr s key.

(** Any error is a panic: an empty extension must not be sent. *)
Definition ExtendVote (s : CkptState) (m : M) (reqHeight : Z) (reqHash : bytes) : outcome bytes :=
  epoch ← GetEpoch (ek_epoching m);
  if negb (IsLastBlockByHeight epoch reqHeight) then Ok []
  else
    valOperAddr ← must (GetValidatorAddress s);
    consAddr ← must (consAddress m valOperAddr);
    blsSig ← must (SignBLS (EpochNumber epoch) reqHash);
    bhash ← must (BlockHash_Unmarshal reqHash);
    Ok (ve_Marshal (mkVoteExt (ValString valOperAddr) (ValString consAddr) (Some bhash) (EpochNumber epoch) (u64 reqHeight) (Some blsSig))).

(** Whether the vote extension is accepted. *)
Definition VerifyVoteExtension (s : CkptState) (m : M) (reqHeight : Z) (reqHash reqValidatorAddress reqVoteExtension : bytes) : outcome bool :=
  epoch ← GetEpoch (ek_epoching m);
  if negb (IsLastBlockByHeight epoch reqHeight) then Ok true
  else if (length reqVoteExtension =? 0)%nat then Ok false
  else match ve_Unmarshal reqVoteExtension with
  | None => Ok false
  | Some ve =>
    if negb (is_ok (VoteExtension_Validate ve)) then Ok false
    else if negb (EpochNumber epoch =? ve_EpochNum ve) then Ok false
    else if negb (bool_decide (ValString reqValidatorAddress = ve_ValidatorAddress ve)) then Ok false
    else
      hash ← deref (ve_BlockHash ve);
      if negb (bool_decide (hash = reqHash)) then Ok false
      else match VerifyBLSSig s (ToBLSSig ve) with
           | Ok _ => Ok true
           | Err _ => Ok false
           | Panic e => Panic e
           end
  end.

End vote_ext.
