(* ===== verification/CheckpointSafety.v ===== *)
(** * x/checkpointing: safety of checkpoints

    The registration of BLS keys is a bijection that only grows; every checkpoint the
    module stores past accumulation has a quorum and a valid multi-signature; a
    conflicting checkpoint shows more than a third of the epoch's voting power
    signing two blocks; what the proposer builds from vote extensions verifies. *)

From S2P Require Import Prelude Bytes Store BbnTypes Coins TxFormatter Epochs EpochTiling Checkpoints BlsLaws.

(** ** Registration *)

(** The two stores mirror each other, and keys have their length. *)
Record registered_ok (s : CkptState) : Prop := mkRegOk {
  reg_mirror a k : ck_addrToBlsKeys s !! a = Some k ↔ ck_blsKeysToAddr s !! k = Some a;
  reg_length a k : ck_addrToBlsKeys s !! a = Some k → length k = PubKeySize
}.

Lemma GetBlsPubKey_spec s a : registered_ok s →
  GetBlsPubKey s a = match ck_addrToBlsKeys s !! a with Some k => Ok k | None => Err ErrBlsKeyDoesNotExist end.
Proof.
  intros Hr. unfold GetBlsPubKey. destruct (ck_addrToBlsKeys s !! a) as [k|] eqn:E; [|done].
  unfold PublicKey_Unmarshal. rewrite (reg_length _ Hr _ _ E). done.
Qed.

(** A registration either repeats one that is there or adds a new pair. *)
Lemma CreateRegistration_spec s key a s' : registered_ok s → length key = PubKeySize →
  CreateRegistration s key a = Ok s' →
  ck_addrToBlsKeys s' = <[a := key]> (ck_addrToBlsKeys s) ∧ ck_blsKeysToAddr s' = <[key := a]> (ck_blsKeysToAddr s) ∧
  ck_checkpoints s' = ck_checkpoints s ∧
  (ck_addrToBlsKeys s !! a = None ∨ ck_addrToBlsKeys s !! a = Some key) ∧
  (ck_blsKeysToAddr s !! key = None ∨ ck_blsKeysToAddr s !! key = Some a).
Proof.
  intros Hr Hk H. unfold CreateRegistration in H. rewrite (GetBlsPubKey_spec _ _ Hr) in H.
  assert (Ha : ck_addrToBlsKeys s !! a = None ∨ ck_addrToBlsKeys s !! a = Some key).
  { destruct (ck_addrToBlsKeys s !! a) as [k|]; [right|by left]. cbn in H.
    destruct (bool_decide (k = key)) eqn:E; [by apply bool_decide_eq_true in E as ->|done]. }
  destruct (match _ with Ok k => negb (bool_decide (k = key)) | _ => false end); [done|].
  destruct (ck_blsKeysToAddr s !! key) as [a'|] eqn:Ek.
  - destruct (bool_decide (a' = a)) eqn:E; [|done]. apply bool_decide_eq_true in E as ->. injection H as <-.
    repeat split; [done|by right].
  - injection H as <-. repeat split; [done|by left].
Qed.

Lemma CreateRegistration_ok s key a s' : registered_ok s → length key = PubKeySize →
  CreateRegistration s key a = Ok s' →
  registered_ok s' ∧ ∀ b k, ck_addrToBlsKeys s !! b = Some k → ck_addrToBlsKeys s' !! b = Some k.
Proof.
  intros Hr Hk H. destruct (CreateRegistration_spec _ _ _ _ Hr Hk H) as (E1 & E2 & _ & Ha & Hkey). split; [split|].
  - intros b k. rewrite E1, E2. destruct (decide (a = b)) as [<-|Hab], (decide (key = k)) as [<-|Hkk].
    + by rewrite !lookup_insert_eq.
    + rewrite lookup_insert_eq, lookup_insert_ne by done. split; [congruence|]. intros Hb. apply (reg_mirror _ Hr) in Hb.
      destruct Ha; congruence.
    + rewrite lookup_insert_eq, lookup_insert_ne by done. split; [|congruence]. intros Hb. apply (reg_mirror _ Hr) in Hb.
      destruct Hkey; congruence.
    + rewrite !lookup_insert_ne by done. apply Hr.
  - intros b k. rewrite E1. destruct (decide (a = b)) as [<-|Hab].
    + rewrite lookup_insert_eq. congruence.
    + rewrite lookup_insert_ne by done. apply Hr.
  - intros b k Hb. rewrite E1. destruct (decide (a = b)) as [<-|Hab]; [|by rewrite lookup_insert_ne].
    rewrite lookup_insert_eq. destruct Ha; congruence.
Qed.

(** ** Quorums *)

Definition power (vs : list Validator) : Z := sumZ (val_Power <$> vs).
(** The validators at the positions where [f] holds. *)
Definition selected (f : nat → bool) (vs : ValidatorSet) (l : list nat) : ValidatorSet :=
  omap (λ i, if f i then vs !! i else None) l.

Lemma selected_cons f vs i l : selected f vs (i :: l) = option_list (if f i then vs !! i else None) ++ selected f vs l.
Proof. unfold selected. cbn. by destruct (if f i then vs !! i else None). Qed.

Lemma quorum_overlap f g vs l : Forall (λ v, 0 ≤ val_Power v) vs →
  power (selected f vs l) + power (selected g vs l) ≤
  power (selected (λ _, true) vs l) + power (selected (λ i, f i && g i) vs l).
Proof.
  intros Hp. induction l as [|i l IH]; [done|]. rewrite !selected_cons. unfold power in *. rewrite !fmap_app, !sumZ_app.
  destruct (vs !! i) as [v|] eqn:E.
  - assert (0 ≤ val_Power v) by by eapply (Forall_lookup_1 _ _ _ _ Hp). destruct (f i), (g i); cbn; lia.
  - destruct (f i), (g i); cbn; lia.
Qed.

Lemma selected_seq vs n : ∀ k, selected (λ _, true) vs (seq k n) = take n (drop k vs).
Proof.
  induction n as [|n IH]; intros k; [done|]. cbn [seq]. rewrite selected_cons, IH.
  destruct (vs !! k) as [v|] eqn:E; cbn.
  - by rewrite (drop_S vs v k E).
  - apply lookup_ge_None in E. rewrite !drop_ge by lia. by destruct n.
Qed.
Lemma selected_all vs : selected (λ _, true) vs (seq 0 (length vs)) = vs.
Proof. rewrite selected_seq. cbn. by rewrite firstn_all. Qed.

Lemma selected_incl f vs l : selected f vs l ⊆ vs.
Proof.
  intros v (i & _ & Hi)%list_elem_of_omap. destruct (f i); [|done]. by eapply list_elem_of_lookup_2.
Qed.
Lemma power_nonneg f vs l : Forall (λ v, 0 ≤ val_Power v) vs → 0 ≤ power (selected f vs l).
Proof.
  intros Hp. apply sumZ_nonneg. apply Forall_fmap, Forall_forall. intros v Hv%selected_incl.
  rewrite Forall_forall in Hp. by apply Hp.
Qed.
Lemma power_selected_le f vs l : Forall (λ v, 0 ≤ val_Power v) vs → power (selected f vs l) ≤ power (selected (λ _, true) vs l).
Proof.
  intros Hp. induction l as [|i l IH]; [done|]. rewrite !selected_cons. unfold power in *. rewrite !fmap_app, !sumZ_app.
  destruct (vs !! i) as [v|] eqn:E; [|destruct (f i); cbn; lia].
  assert (0 ≤ val_Power v) by by eapply (Forall_lookup_1 _ _ _ _ Hp). destruct (f i); cbn; lia.
Qed.

(** ** Verification *)

Section verification.
Context {BL : Blst} {BM : GoBitmap} {VA : ValBech32} {M : Type} {EK : EpochingKeeper M} {CH : CheckpointingHooks M}.

(** The validators of an epoch whose bit is set. *)
Definition signers (m : M) (epoch : Z) (bm : bytes) : ValidatorSet :=
  let vs := GetValidatorSet (ek_epoching m) epoch in selected (bitmap_Get bm) vs (seq 0 (length vs)).
Definition epoch_power (m : M) (epoch : Z) : Z := power (GetValidatorSet (ek_epoching m) epoch).

(** The stored total is that of the set, powers are not negative and three times the
    total fits an [int64] (CometBFT bounds the total by an eighth of its range). *)
Definition powers_ok (m : M) (epoch : Z) : Prop :=
  GetTotalVotingPower (ek_epoching m) epoch = Ok (epoch_power m epoch) ∧
  Forall (λ v, 0 ≤ val_Power v) (GetValidatorSet (ek_epoching m) epoch) ∧ epoch_power m epoch * 3 < 2 ^ 63.

Lemma signersOf_spec s vs ks sum : Forall (λ v, 0 ≤ val_Power v) vs → power vs < 2 ^ 63 →
  signersOf s vs = Ok (ks, sum) → sum = power vs ∧ Forall2 (λ v k, GetBlsPubKey s (val_Addr v) = Ok k) vs ks.
Proof.
  intros Hp Hb. unfold signersOf.
  assert (Hgen : ∀ vs1 vs2 ks2 ks1, Forall (λ v, 0 ≤ val_Power v) (vs1 ++ vs2) → power (vs1 ++ vs2) < 2 ^ 63 →
    Forall2 (λ v k, GetBlsPubKey s (val_Addr v) = Ok k) vs1 ks1 →
    foldM (λ acc v, k ← GetBlsPubKey s (val_Addr v); Ok (acc.1 ++ [k], i64 (acc.2 + val_Power v))) (ks1, power vs1) vs2 = Ok (ks2, sum) →
    sum = power (vs1 ++ vs2) ∧ Forall2 (λ v k, GetBlsPubKey s (val_Addr v) = Ok k) (vs1 ++ vs2) ks2);
    [|intros H; by apply (Hgen [] vs ks [])].
  intros vs1 vs2. revert vs1. induction vs2 as [|v vs2 IH]; intros vs1 ks2 ks1 Hnn Hbd Hf H.
  - injection H as <- <-. by rewrite app_nil_r.
  - apply bind_Ok in H as (acc & Hk & H). apply bind_Ok in Hk as (k & Hk & Hacc). injection Hacc as <-. cbn [fst snd] in H.
    change (v :: vs2) with ([v] ++ vs2) in *. rewrite app_assoc in *.
    assert (Hpow : power (vs1 ++ [v]) = power vs1 + val_Power v) by (unfold power; rewrite fmap_app, sumZ_app; cbn; lia).
    assert (Hsplit : 0 ≤ power vs2 ∧ 0 ≤ power (vs1 ++ [v])).
    { apply Forall_app in Hnn as [H1 H2]. split; apply sumZ_nonneg; by apply Forall_fmap. }
    assert (power ((vs1 ++ [v]) ++ vs2) = power (vs1 ++ [v]) + power vs2) by (unfold power; by rewrite fmap_app, sumZ_app).
    rewrite i64_small, <- Hpow in H by (unfold in_i64; lia).
    eapply IH; [done|done| |exact H]. apply Forall2_app; [done|]. by constructor.
Qed.

(** What a verified checkpoint is: its signers hold more than two thirds of the
    power and its multi-signature verifies under their keys. *)
Definition quorum_signed (s : CkptState) (m : M) (ckpt : RawCheckpoint) : Prop :=
  ∃ hash multiSig ks, rc_BlockHash ckpt = Some hash ∧ rc_BlsMultiSig ckpt = Some multiSig ∧
  Forall2 (λ v k, GetBlsPubKey s (val_Addr v) = Ok k) (signers m (rc_EpochNum ckpt) (default [] (rc_Bitmap ckpt))) ks ∧
  2 * epoch_power m (rc_EpochNum ckpt) < 3 * power (signers m (rc_EpochNum ckpt) (default [] (rc_Bitmap ckpt))) ∧
  VerifyMultiSig multiSig ks (GetSignBytes (rc_EpochNum ckpt) hash) = Ok true.

Lemma VerifyRawCheckpoint_quorum s m ckpt :
  powers_ok m (rc_EpochNum ckpt) → VerifyRawCheckpoint s m ckpt = Ok tt → quorum_signed s m ckpt.
Proof.
  intros (Ht & Hp & Hb) H. unfold VerifyRawCheckpoint in H. rewrite Ht in H. cbn [mbind outcome_bind] in H.
  set (vs := GetValidatorSet (ek_epoching m) (rc_EpochNum ckpt)) in *. set (bm := default [] (rc_Bitmap ckpt)) in *.
  apply bind_Ok in H as (sub & Hsub & H). unfold FindSubset in Hsub. destruct (_ <? _)%nat; [done|]. injection Hsub as <-.
  change (omap _ _) with (signers m (rc_EpochNum ckpt) bm) in H.
  apply bind_Ok in H as ([ks sum] & Hks & H). cbn [fst snd] in H.
  assert (Hle : 0 ≤ power (signers m (rc_EpochNum ckpt) bm) ≤ epoch_power m (rc_EpochNum ckpt)).
  { split; [by apply power_nonneg|]. unfold signers, epoch_power. fold vs. rewrite <- (selected_all vs) at 3. by apply power_selected_le. }
  apply signersOf_spec in Hks as [-> Hks]; [| |lia].
  2: { apply Forall_forall. intros v Hv%selected_incl. rewrite Forall_forall in Hp. by apply Hp. }
  rewrite !i64_small in H by (unfold in_i64; lia). destruct (_ <=? _) eqn:Eq; [done|].
  apply bind_Ok in H as (hash & Hh & H). apply bind_Ok in H as (ms & Hms & H). apply bind_Ok in H as (ok & Hv & H).
  destruct ok; [|done]. unfold deref in Hh, Hms.
  destruct (rc_BlockHash ckpt) as [h|] eqn:Ebh; [injection Hh as ->|done]. destruct (rc_BlsMultiSig ckpt) as [x|] eqn:Ems; [injection Hms as ->|done].
  exists hash, ms, ks. split; [done|]. split; [done|]. split; [done|]. split; [|done]. fold bm. lia.
Qed.

(** *** Stability *)

Lemma signersOf_mono s s' vs acc r :
  (∀ a k, GetBlsPubKey s a = Ok k → GetBlsPubKey s' a = Ok k) →
  foldM (λ acc v, k ← GetBlsPubKey s (val_Addr v); Ok (acc.1 ++ [k], i64 (acc.2 + val_Power v))) acc vs = Ok r →
  foldM (λ acc v, k ← GetBlsPubKey s' (val_Addr v); Ok (acc.1 ++ [k], i64 (acc.2 + val_Power v))) acc vs = Ok r.
Proof.
  intros Hm. revert acc. induction vs as [|v vs IH]; intros acc H; [done|].
  apply bind_Ok in H as (acc1 & Hk & H). apply bind_Ok in Hk as (k & Hk & Hacc). injection Hacc as <-.
  cbn [foldM]. rewrite (Hm _ _ Hk). cbn [mbind outcome_bind]. by apply IH.
Qed.

(** Verification depends on the set and the total of the epoch and on the keys of
    its signers. *)
Definition same_set (m m' : M) (epoch : Z) : Prop :=
  GetValidatorSet (ek_epoching m') epoch = GetValidatorSet (ek_epoching m) epoch ∧
  GetTotalVotingPower (ek_epoching m') epoch = GetTotalVotingPower (ek_epoching m) epoch.
Lemma VerifyRawCheckpoint_mono s s' m m' ckpt :
  (∀ a k, GetBlsPubKey s a = Ok k → GetBlsPubKey s' a = Ok k) → same_set m m' (rc_EpochNum ckpt) →
  VerifyRawCheckpoint s m ckpt = Ok tt → VerifyRawCheckpoint s' m' ckpt = Ok tt.
Proof.
  intros Hm [Hs Ht] H. unfold VerifyRawCheckpoint in *. rewrite Hs, Ht.
  apply bind_Ok in H as (tot & -> & H). apply bind_Ok in H as (sub & -> & H). apply bind_Ok in H as (ks & Hks & H).
  cbn [mbind outcome_bind]. unfold signersOf in *. by rewrite (signersOf_mono _ _ _ _ _ Hm Hks).
Qed.

End verification.

(** ** Histories *)

(** The hooks leave the validator sets and their totals alone and do not report
    conflicts. *)
Class CheckpointingHooksLaws (M : Type) `{EpochingKeeper M} `{CheckpointingHooks M} := {
  sealed_same ctx m e m' r : AfterRawCheckpointSealed ctx m e = Ok (m', r) → ∀ n, same_set m m' n;
  confirmed_same ctx m e m' r : AfterRawCheckpointConfirmed ctx m e = Ok (m', r) → ∀ n, same_set m m' n;
  forgotten_same ctx m c m' r : AfterRawCheckpointForgotten ctx m c = Ok (m', r) → ∀ n, same_set m m' n;
  finalized_same ctx m e m' r : AfterRawCheckpointFinalized ctx m e = Ok (m', r) → ∀ n, same_set m m' n;
  verified_same ctx m c m' r : AfterRawCheckpointBlsSigVerified ctx m c = Ok (m', r) →
    (∀ n, same_set m m' n) ∧ r ≠ Some ErrConflictingCheckpoint;
  verified_error ctx m c e : AfterRawCheckpointBlsSigVerified ctx m c = Err e → e ≠ ErrConflictingCheckpoint
}.

Section histories.
Context {BL : Blst} {BM : GoBitmap} {VA : ValBech32} {M : Type} {EK : EpochingKeeper M} {CH : CheckpointingHooks M} {HL : CheckpointingHooksLaws M}.

(** The operations of the module, and what the other modules do between them, which
    leaves alone the validator sets of the epochs that have a checkpoint. *)
Inductive ck_step : CkptState * M → CkptState * M → Prop :=
  | ck_seal ctx s m cm s' m' : SealCheckpoint ctx s m cm = Ok (s', m') → ck_step (s, m) (s', m')
  | ck_register s m key a s' : length key = PubKeySize → CreateRegistration s key a = Ok s' → ck_step (s, m) (s', m)
  | ck_verify ctx s m raw s' m' r : VerifyCheckpoint ctx s m raw = Ok (s', m', r) → ck_step (s, m) (s', m')
  | ck_submitted ctx s m e s' : SetCheckpointSubmitted ctx s e = Ok s' → ck_step (s, m) (s', m)
  | ck_confirmed ctx s m e s' m' : SetCheckpointConfirmed ctx s m e = Ok (s', m') → ck_step (s, m) (s', m')
  | ck_finalized ctx s m e s' m' : SetCheckpointFinalized ctx s m e = Ok (s', m') → ck_step (s, m) (s', m')
  | ck_forgotten ctx s m e s' m' : SetCheckpointForgotten ctx s m e = Ok (s', m') → ck_step (s, m) (s', m')
  | ck_begin ctx s m s' : BeginBlocker_checkpointing ctx s m = Ok s' → ck_step (s, m) (s', m)
  | ck_others s m m' : (∀ e, is_Some (ck_checkpoints s !! e) → same_set m m' e) → ck_step (s, m) (s, m').

(** Every stored checkpoint is under its epoch and verifies. *)
Record ck_inv (s : CkptState) (m : M) : Prop := mkCkInv {
  cki_registered : registered_ok s;
  cki_verified e cm : ck_checkpoints s !! e = Some cm →
    rc_EpochNum (cm_Ckpt cm) = e ∧ VerifyRawCheckpoint s m (cm_Ckpt cm) = Ok tt
}.

(** A step that keeps the registered keys, the contents of the checkpoints and the
    sets of their epochs. *)
Lemma ck_inv_keep s m s' m' : ck_inv s m → registered_ok s' →
  (∀ a k, ck_addrToBlsKeys s !! a = Some k → ck_addrToBlsKeys s' !! a = Some k) →
  (∀ e cm', ck_checkpoints s' !! e = Some cm' → ∃ cm, ck_checkpoints s !! e = Some cm ∧ cm_Ckpt cm' = cm_Ckpt cm) →
  (∀ e, is_Some (ck_checkpoints s !! e) → same_set m m' e) →
  ck_inv s' m'.
Proof.
  intros [Hr Hv] Hr' Hk Hc Hs. split; [done|]. intros e cm' He. destruct (Hc _ _ He) as (cm & Hcm & ->).
  destruct (Hv _ _ Hcm) as [<- Hver]. split; [done|].
  eapply VerifyRawCheckpoint_mono; [|by apply Hs; rewrite Hcm|done].
  intros a k. rewrite !GetBlsPubKey_spec by done. destruct (ck_addrToBlsKeys s !! a) as [k'|] eqn:E; [|done].
  by rewrite (Hk _ _ E).
Qed.

Lemma logged_same m r m' : logged m r = Ok m' → (∀ m1 x, r = Ok (m1, x) → ∀ n, same_set m m1 n) → ∀ n, same_set m m' n.
Proof.
  intros H Hs. destruct r as [[m1 x]|e|e]; [|injection H as <-; by split|done]. injection H as <-. by eapply Hs.
Qed.


(** A change of status keeps the content of every checkpoint. *)
Definition same_contents (s s' : CkptState) : Prop :=
  ck_addrToBlsKeys s' = ck_addrToBlsKeys s ∧ ck_blsKeysToAddr s' = ck_blsKeysToAddr s ∧
  ∀ e cm', ck_checkpoints s' !! e = Some cm' → ∃ cm, ck_checkpoints s !! e = Some cm ∧ cm_Ckpt cm' = cm_Ckpt cm.
Lemma same_contents_refl s : same_contents s s.
Proof. split; [done|]. split; [done|]. intros e cm ?. by exists cm. Qed.

Lemma setCheckpointStatus_contents ctx s m e from to s' cm :
  ck_inv s m → setCheckpointStatus ctx s e from to = Ok (s', cm) → same_contents s s'.
Proof.
  intros Hi H. unfold setCheckpointStatus, GetRawCheckpoint in H.
  destruct (ck_checkpoints s !! e) as [cm0|] eqn:Ec; [|done]. cbn [mbind outcome_bind] in H.
  apply bind_Ok in H as ([] & _ & H). apply bind_Ok in H as (s1 & Hu & H). injection H as <- <-.
  autorewrite with outcome in Hu. unfold UpdateCheckpoint in Hu. apply bind_Ok in Hu as (? & _ & Hu). injection Hu as <-.
  split; [done|]. split; [done|]. intros e' cm'. cbn. rewrite (proj1 (cki_verified _ _ Hi _ _ Ec)).
  destruct (decide (e = e')) as [<-|Hne].
  - rewrite lookup_insert_eq. intros [= <-]. by exists cm0.
  - rewrite lookup_insert_ne by done. intros ?. by exists cm'.
Qed.

Lemma ck_inv_contents s m s' m' : ck_inv s m → same_contents s s' → (∀ n, same_set m m' n) → ck_inv s' m'.
Proof.
  intros Hi (Ha & Hk & Hc) Hs. eapply ck_inv_keep; [done| | |done|by intros].
  - destruct (cki_registered _ _ Hi) as [H1 H2]. split; rewrite Ha, ?Hk; done.
  - intros a k. by rewrite Ha.
Qed.

Lemma SealCheckpoint_inv ctx s m cm s' m' : ck_inv s m → SealCheckpoint ctx s m cm = Ok (s', m') → ck_inv s' m'.
Proof using HL.
  intros Hi H. unfold SealCheckpoint in H. destruct (negb _); [done|]. apply bind_Ok in H as ([] & Hv & H).
  apply bind_Ok in H as (s1 & Hc & H). apply bind_Ok in H as (m1 & Hl & H). injection H as <- <-.
  assert (Hs : ∀ n, same_set m m1 n) by (eapply logged_same; [done|]; intros; by eapply sealed_same).
  unfold CreateRawCkptWithMeta in Hc. destruct (ck_checkpoints s !! _) eqn:Ee; [done|]. injection Hc as <-.
  split; [destruct (cki_registered _ _ Hi) as [H1 H2]; by split|]. cbn. intros e cm1.
  assert (Hm : ∀ c, VerifyRawCheckpoint s m c = Ok tt → VerifyRawCheckpoint (with_ckpts (<[rc_EpochNum (cm_Ckpt cm):=cm]> (ck_checkpoints s)) s) m1 c = Ok tt)
    by (intros c; apply VerifyRawCheckpoint_mono; [done|by apply Hs]).
  destruct (decide (rc_EpochNum (cm_Ckpt cm) = e)) as [<-|Hne].
  - rewrite lookup_insert_eq. intros [= <-]. split; [done|by apply Hm].
  - rewrite lookup_insert_ne by done. intros Hcm. destruct (cki_verified _ _ Hi _ _ Hcm). split; [done|by apply Hm].
Qed.

Lemma recordVerified_same ctx m c m' r : recordVerified ctx m c = Ok (m', r) →
  (∀ n, same_set m m' n) ∧ r ≠ Some ErrConflictingCheckpoint.
Proof using HL.
  unfold recordVerified. destruct (AfterRawCheckpointBlsSigVerified ctx m c) as [[m1 x]|e|e] eqn:E; [| |done].
  - intros [= <- <-]. by eapply verified_same.
  - intros [= <- <-]. split; [by split|]. intros [= ->]. by apply verified_error in E.
Qed.

(** The outcomes of [verifyCkptBytes] past the first checks. *)
Lemma verifyCkptBytes_spec ctx s m raw m' res : verifyCkptBytes ctx s m raw = Ok (m', res) →
  (∀ n, same_set m m' n) ∧
  (res = inr ErrConflictingCheckpoint →
   ∃ ckpt cm mine theirs, FromBTCCkptToRawCkpt raw = Ok ckpt ∧ ck_checkpoints s !! rc_EpochNum ckpt = Some cm ∧
     VerifyRawCheckpoint s m ckpt = Ok tt ∧ rc_BlockHash (cm_Ckpt cm) = Some mine ∧ rc_BlockHash ckpt = Some theirs ∧ mine ≠ theirs).
Proof using HL.
  intros H. unfold verifyCkptBytes in H. apply bind_Ok in H as (ckpt & Hck & H). apply bind_Ok in H as ([] & _ & H).
  apply bind_Ok in H as (cm & Hcm & H). apply bind_Ok in H as (same & _ & H). destruct (_ && _).
  - apply bind_Ok in H as ([m1 [e|]] & Hr & H); apply recordVerified_same in Hr as [Hs Hne]; injection H as <- <-.
    + split; [done|]. congruence.
    + done.
  - apply bind_Ok in H as ([] & Hv & H). apply bind_Ok in H as ([m1 [e|]] & Hr & H); apply recordVerified_same in Hr as [Hs Hne].
    + injection H as <- <-. split; [done|]. congruence.
    + apply bind_Ok in H as (mine & Hm & H). apply bind_Ok in H as (theirs & Ht & H).
      destruct (bool_decide (mine = theirs)) eqn:E; injection H as <- <-; [done|]. split; [done|]. intros _.
      apply bool_decide_eq_false in E. exists ckpt, cm, mine, theirs. unfold GetRawCheckpoint in Hcm.
      destruct (ck_checkpoints s !! rc_EpochNum ckpt); [injection Hcm as ->|done]. unfold deref in Hm, Ht.
      destruct (rc_BlockHash (cm_Ckpt cm)); [injection Hm as ->|done]. destruct (rc_BlockHash ckpt); [injection Ht as ->|done].
      repeat split; done.
Qed.

(** No check before the hook fails with a conflict. *)
Lemma GetBlsPubKey_no_conflict s a : GetBlsPubKey s a ≠ Err ErrConflictingCheckpoint.
Proof. unfold GetBlsPubKey, PublicKey_Unmarshal. by repeat case_match. Qed.
Lemma signersOf_no_conflict s vs acc :
  foldM (λ acc v, k ← GetBlsPubKey s (val_Addr v); Ok (acc.1 ++ [k], i64 (acc.2 + val_Power v))) acc vs ≠ Err ErrConflictingCheckpoint.
Proof.
  revert acc. induction vs as [|v vs IH]; intros acc; [done|]. cbn [foldM].
  intros [H|(a & _ & H)]%bind_Err; [|by apply IH in H].
  apply bind_Err in H as [H|(? & _ & H)]; [by apply GetBlsPubKey_no_conflict in H|done].
Qed.
Lemma VerifyRawCheckpoint_no_conflict s m ckpt : VerifyRawCheckpoint s m ckpt ≠ Err ErrConflictingCheckpoint.
Proof.
  unfold VerifyRawCheckpoint, GetTotalVotingPower, FindSubset, deref, VerifyMultiSig, AggrPKList, BlsVerify.
  intros [H|(tot & _ & H)]%bind_Err; [by case_match|]. apply bind_Err in H as [H|(sub & _ & H)]; [by case_match|].
  apply bind_Err in H as [H|(ks & _ & H)]; [by apply signersOf_no_conflict in H|]. case_match; [done|].
  apply bind_Err in H as [H|(h & _ & H)]; [by case_match|]. apply bind_Err in H as [H|(ms & _ & H)]; [by case_match|].
  apply bind_Err in H as [H|(ok & _ & H)]; [|by case_match].
  apply bind_Err in H as [H|(pk & _ & H)]; [by case_match|done].
Qed.
Lemma verifyCkptBytes_Err ctx s m raw : verifyCkptBytes ctx s m raw ≠ Err ErrConflictingCheckpoint.
Proof.
  unfold verifyCkptBytes. intros [H|(ckpt & _ & H)]%bind_Err.
  { unfold FromBTCCkptToRawCkpt, BlockHash_Unmarshal, Signature_Unmarshal in H.
    apply bind_Err in H as [H|(? & _ & H)]; [by case_match|]. apply bind_Err in H as [H|(? & _ & H)]; [by case_match|done]. }
  apply bind_Err in H as [H|([] & _ & H)]; [unfold RawCheckpoint_ValidateBasic in H; by repeat case_match|].
  apply bind_Err in H as [H|(cm & _ & H)]; [unfold GetRawCheckpoint in H; by case_match|].
  apply bind_Err in H as [H|(same & _ & H)].
  { unfold RawCheckpoint_Equal, ptr_Equal in H. case_match; [done|].
    apply bind_Err in H as [H|(? & _ & H)]; by repeat case_match. }
  assert (Hrec : recordVerified ctx m ckpt ≠ Err ErrConflictingCheckpoint) by (unfold recordVerified; by destruct (AfterRawCheckpointBlsSigVerified ctx m ckpt)).
  case_match.
  - by apply bind_Err in H as [H|([? []] & _ & H)].
  - apply bind_Err in H as [H|([] & _ & H)]; [by apply VerifyRawCheckpoint_no_conflict in H|].
    apply bind_Err in H as [H|([? []] & _ & H)]; [done|done|]. unfold deref in H.
    apply bind_Err in H as [H|(? & _ & H)]; [by case_match|]. apply bind_Err in H as [H|(? & _ & H)]; by repeat case_match.
Qed.

(** Each step keeps the invariant and the registered keys. *)
Definition step_keeps (s : CkptState) (s' : CkptState) (m' : M) : Prop :=
  ck_inv s' m' ∧ ∀ a k, ck_addrToBlsKeys s !! a = Some k → ck_addrToBlsKeys s' !! a = Some k.
Lemma keeps_contents s m s' m' : ck_inv s m → same_contents s s' → (∀ n, same_set m m' n) → step_keeps s s' m'.
Proof. intros Hi Hc Hs. split; [by eapply ck_inv_contents|]. intros a k. by rewrite (proj1 Hc). Qed.
Lemma keeps_refl s m : ck_inv s m → step_keeps s s m.
Proof. intros Hi. eapply keeps_contents; [done|apply same_contents_refl|by split]. Qed.

(** The setters of a status, whose hook (if any) leaves the sets alone. *)
Lemma keeps_status ctx s m e from to (hook : RawCheckpointWithMeta → outcome (M * option error)) (upd : CkptState → CkptState) s' m' :
  ck_inv s m → (∀ cm m1 x, hook cm = Ok (m1, x) → ∀ n, same_set m m1 n) → (∀ s1, same_contents s s1 → same_contents s (upd s1)) →
  match setCheckpointStatus ctx s e from to with
  | Ok (s1, cm) => m1 ← logged m (hook cm); Ok (upd s1, m1)
  | Err _ => Ok (s, m)
  | Panic x => Panic x
  end = Ok (s', m') → step_keeps s s' m'.
Proof.
  intros Hi Hh Hu H. destruct (setCheckpointStatus _ _ _ _ _) as [[s1 cm]|x|x] eqn:E; [| |done].
  - apply bind_Ok in H as (m1 & Hl & H). injection H as <- <-. apply (setCheckpointStatus_contents _ _ m) in E; [|done].
    eapply keeps_contents; [done|by apply Hu|]. eapply logged_same; [done|]. intros. by eapply Hh.
  - injection H as <- <-. by apply keeps_refl.
Qed.

Lemma VerifyCheckpoint_keeps ctx s m raw s' m' r : ck_inv s m → VerifyCheckpoint ctx s m raw = Ok (s', m', r) → step_keeps s s' m'.
Proof using HL.
  intros Hi H. unfold VerifyCheckpoint in H. destruct (verifyCkptBytes ctx s m raw) as [[m1 res]|e|e] eqn:E; [| |done].
  - apply verifyCkptBytes_spec in E as [Hs _].
    assert (same_contents s s' ∧ m' = m1) as [Hc ->]; [|by eapply keeps_contents].
    destruct res as [cm|e]; [|destruct (isConflict e)]; injection H as <- <- _; (split; [|done]);
      (split; [done|]); (split; [done|]); intros e1 cm1 ?; by exists cm1.
  - injection H as <- <- _. by apply keeps_refl.
Qed.

Lemma BeginBlocker_keeps ctx s m s' : ck_inv s m → BeginBlocker_checkpointing ctx s m = Ok s' → step_keeps s s' m.
Proof.
  intros Hi H. eapply keeps_contents; [done| |by split].
  unfold BeginBlocker_checkpointing in H. apply bind_Ok in H as (ep & _ & H).
  destruct (IsFirstBlock ep ctx); [|injection H as <-; apply same_contents_refl].
  autorewrite with outcome in H. unfold InitValidatorBLSSet in H. inv_ok H. injection H as <-.
  split; [done|]. split; [done|]. intros e cm ?. by exists cm.
Qed.

Lemma ck_step_inv sm sm' : ck_step sm sm' → ck_inv sm.1 sm.2 → step_keeps sm.1 sm'.1 sm'.2.
Proof using HL.
  intros [ctx s m cm s' m' H|s m key a s' Hk H|ctx s m raw s' m' r H|ctx s m e s' H|ctx s m e s' m' H|ctx s m e s' m' H|ctx s m e s' m' H|ctx s m s' H|s m m' H] Hi;
    cbn [fst snd] in *.
  - split; [by eapply SealCheckpoint_inv|]. unfold SealCheckpoint in H. inv_ok H.
    unfold CreateRawCkptWithMeta in *. repeat case_match; simplify_eq; done.
  - destruct (CreateRegistration_ok _ _ _ _ (cki_registered _ _ Hi) Hk H) as [Hr Hg]. split; [|done].
    eapply ck_inv_keep; [done|done|done| |by split].
    pose proof (CreateRegistration_spec _ _ _ _ (cki_registered _ _ Hi) Hk H) as (_ & _ & -> & _). intros e cm ?. by exists cm.
  - by eapply VerifyCheckpoint_keeps.
  - eapply (keeps_status ctx s m e [Sealed] CkSubmitted (λ _, Ok (m, None)) id); [done|by intros ? ? ? [= <- _]; split|done|].
    unfold SetCheckpointSubmitted in H. destruct (setCheckpointStatus _ _ _ _ _) as [[]| |]; [|by injection H as <-|done]. by injection H as <-.
  - eapply (keeps_status ctx s m e _ _ (λ _, AfterRawCheckpointConfirmed ctx m e) id); [done|intros; by eapply confirmed_same|done|exact H].
  - eapply (keeps_status ctx s m e _ _ (λ _, AfterRawCheckpointFinalized ctx m e) (λ s1, SetLastFinalizedEpoch s1 e));
      [done|intros; by eapply finalized_same|done|exact H].
  - eapply (keeps_status ctx s m e _ _ (λ cm, AfterRawCheckpointForgotten ctx m (cm_Ckpt cm)) id); [done|intros; by eapply forgotten_same|done|exact H].
  - by eapply BeginBlocker_keeps.
  - split; [|done]. eapply ck_inv_keep; [done|apply Hi|done| |done]. intros e cm ?. by exists cm.
Qed.

Lemma ck_steps_inv sm sm' : rtc ck_step sm sm' → ck_inv sm.1 sm.2 → step_keeps sm.1 sm'.1 sm'.2.
Proof using HL.
  induction 1 as [x|x y z Hxy _ IH]; intros Hi; [by apply keeps_refl|].
  destruct (ck_step_inv _ _ Hxy Hi) as [Hy Hg]. destruct (IH Hy) as [Hz Hg']. split; [done|]. auto.
Qed.

(** A module without checkpoints and registrations. *)
Lemma ck_inv_start s m : ck_checkpoints s = ∅ → ck_addrToBlsKeys s = ∅ → ck_blsKeysToAddr s = ∅ → ck_inv s m.
Proof.
  intros Hc Ha Hk. split; [split|].
  - intros a k. by rewrite Ha, Hk, !lookup_empty.
  - intros a k. by rewrite Ha, lookup_empty.
  - intros e cm. by rewrite Hc, lookup_empty.
Qed.

(** C25: A conflict shows a third of the power signing twice. After any history of the
    module, when a checkpoint reported from Bitcoin conflicts with the stored one of
    its epoch, the chain halts at the end of the block, the two checkpoints are for
    different blocks, and the validators in the bitmaps of both hold more than a third
    of the epoch's voting power; both multi-signatures verify under the registered
    keys of their signers. *)
Theorem conflict_is_accountable ctx s0 m0 s m raw s' m' :
  ck_inv s0 m0 → rtc ck_step (s0, m0) (s, m) →
  VerifyCheckpoint ctx s m raw = Ok (s', m', Some ErrConflictingCheckpoint) →
  powers_ok m (rbc_Epoch raw) →
  EndBlocker_checkpointing s' = Panic ErrConflictingCheckpoint ∧
  ∃ ckpt cm, FromBTCCkptToRawCkpt raw = Ok ckpt ∧ ck_checkpoints s !! rbc_Epoch raw = Some cm ∧
    rc_BlockHash (cm_Ckpt cm) ≠ rc_BlockHash ckpt ∧
    quorum_signed s m ckpt ∧ quorum_signed s m (cm_Ckpt cm) ∧
    let vs := GetValidatorSet (ek_epoching m) (rbc_Epoch raw) in
    let both := selected (λ i, bitmap_Get (default [] (rc_Bitmap ckpt)) i && bitmap_Get (default [] (rc_Bitmap (cm_Ckpt cm))) i)
                  vs (seq 0 (length vs)) in
    power vs < 3 * power both.
Proof using HL.
  intros Hi0 Hr H Hp. apply ck_steps_inv in Hr as [Hi _]; [|done]. cbn [fst snd] in Hi.
  unfold VerifyCheckpoint in H. destruct (verifyCkptBytes ctx s m raw) as [[m1 [cm|e]]|e|e] eqn:E; [done| | |done].
  2: { exfalso. injection H as _ _ ->. by apply verifyCkptBytes_Err in E. }
  pose proof E as Hf. apply verifyCkptBytes_spec in E as [Hs Hc]. injection H as <- <- ->. split; [done|].
  destruct (Hc eq_refl) as (ckpt & cm & mine & theirs & Hck & Hcm & Hv & Hm & Ht & Hne).
  assert (He : rc_EpochNum ckpt = rbc_Epoch raw).
  { unfold FromBTCCkptToRawCkpt in Hck. inv_ok Hck. by injection Hck as <-. }
  rewrite He in Hcm. destruct (cki_verified _ _ Hi _ _ Hcm) as [He' Hv'].
  exists ckpt, cm. split; [done|]. split; [done|]. split; [rewrite Hm, Ht; congruence|].
  assert (Hq : quorum_signed s m ckpt) by (apply VerifyRawCheckpoint_quorum; [by rewrite He|done]).
  assert (Hq' : quorum_signed s m (cm_Ckpt cm)) by (apply VerifyRawCheckpoint_quorum; [by rewrite He'|done]).
  split; [done|]. split; [done|]. destruct Hp as (_ & Hnn & _).
  destruct Hq as (? & ? & ? & _ & _ & _ & Hq & _), Hq' as (? & ? & ? & _ & _ & _ & Hq' & _).
  rewrite He in Hq. rewrite He' in Hq'. unfold signers, epoch_power in Hq, Hq'. cbn zeta in *.
  set (vs := GetValidatorSet (ek_epoching m) (rbc_Epoch raw)) in *.
  pose proof (quorum_overlap (bitmap_Get (default [] (rc_Bitmap ckpt))) (bitmap_Get (default [] (rc_Bitmap (cm_Ckpt cm)))) vs
    (seq 0 (length vs)) Hnn) as Ho.
  rewrite selected_all in Ho. lia.
Qed.

(** BLS keys are registered for good and for one validator. Over any history from
    an empty module, an address has a key exactly when the key has that address, so
    no two validators share a key and none has two; a pair that has been registered
    stays. *)
Theorem registration_bijection s0 m0 s m s' m' :
  ck_checkpoints s0 = ∅ → ck_addrToBlsKeys s0 = ∅ → ck_blsKeysToAddr s0 = ∅ →
  rtc ck_step (s0, m0) (s, m) → rtc ck_step (s, m) (s', m') →
  (∀ a k, GetBlsPubKey s a = Ok k ↔ GetValAddr s k = Ok a) ∧
  (∀ a k, GetBlsPubKey s a = Ok k → GetBlsPubKey s' a = Ok k).
Proof using HL.
  intros Hc Ha Hk Hr Hr'. apply ck_steps_inv in Hr as [Hi _]; [|by apply ck_inv_start]. cbn [fst snd] in Hi.
  apply ck_steps_inv in Hr' as [Hi' Hg]; [|done]. cbn [fst snd] in Hi', Hg.
  pose proof (cki_registered _ _ Hi) as Hreg. pose proof (cki_registered _ _ Hi') as Hreg'. split; intros a k.
  - rewrite GetBlsPubKey_spec by done. unfold GetValAddr. pose proof (reg_mirror _ Hreg a k) as Hmir.
    destruct (ck_addrToBlsKeys s !! a) as [k1|], (ck_blsKeysToAddr s !! k) as [a1|]; split; intros [= ->];
      naive_solver.
  - rewrite !GetBlsPubKey_spec by done. destruct (ck_addrToBlsKeys s !! a) as [k1|] eqn:E; [|done].
    by rewrite (Hg _ _ E).
Qed.

End histories.

(** ** An epoch of one validator, two checkpoints *)

Module ConflictExample.
Import ToyBls.

#[local] Instance plain_val : ValBech32 := {| ValString := hex_encode; ValFromBech32 := hex_decode |}.
#[local] Instance just_epoching : EpochingKeeper EpochingState := {| ek_epoching m := m |}.
#[local] Instance silent_hooks : CheckpointingHooks EpochingState :=
  {| AfterBlsKeyRegistered _ m _ := Ok (m, None); AfterRawCheckpointSealed _ m _ := Ok (m, None);
     AfterRawCheckpointConfirmed _ m _ := Ok (m, None); AfterRawCheckpointForgotten _ m _ := Ok (m, None);
     AfterRawCheckpointFinalized _ m _ := Ok (m, None); AfterRawCheckpointBlsSigVerified _ m _ := Ok (m, None) |}.
#[local] Instance silent_hooks_laws : CheckpointingHooksLaws EpochingState.
Proof.
  split; cbn; intros; simplify_eq; done.
Qed.

Definition ctx : Ctx := mkCtx 11 [] 110.
Definition addr : bytes := [x07].
Definition key : bytes := be_bytes 96 3.
Definition m1 : EpochingState := mkEpoching 10 ∅ {[ 1 := {[ addr := 10 ]} ]} {[ 1 := 10 ]} ∅ ∅ ∅ ∅ ∅ ∅.
Definition bits : bytes := bitmap_Set (bitmap_New BitmapBits) 0 true.
Definition sign (hash : bytes) : bytes := be_bytes 48 ((3 * be_value (GetSignBytes 1 hash)) `mod` N).
Definition hashA : bytes := replicate 32 x01.
Definition hashB : bytes := replicate 32 x02.
Definition ckptA : RawCheckpointWithMeta :=
  mkCkptMeta (mkRawCkpt 1 (Some hashA) (Some bits) (Some (sign hashA))) Sealed (Some key) 10 [].
Definition rawB : RawBtcCheckpoint := mkRawBtcCheckpoint 1 hashB bits (replicate 20 x00) (sign hashB).

Definition s0 : CkptState := mkCkptState ∅ ∅ ∅ ∅ None false.
Definition s1 : CkptState := get_ok s0 (CreateRegistration s0 key addr).
Definition sm2 : CkptState * EpochingState := get_ok (s0, m1) (SealCheckpoint ctx s1 m1 ckptA).
Definition sm3 : CkptState * EpochingState * option error := get_ok (s0, m1, None) (VerifyCheckpoint ctx sm2.1 sm2.2 rawB).

Lemma history : rtc ck_step (s0, m1) sm2.
Proof.
  eapply rtc_l; [apply (ck_register s0 m1 key addr s1); [reflexivity|unfold s1; apply is_ok_get; vm_compute; reflexivity]|].
  eapply rtc_l; [|apply rtc_refl].
  rewrite (surjective_pairing sm2). apply (ck_seal ctx s1 m1 ckptA). rewrite <- surjective_pairing.
  unfold sm2. apply is_ok_get. vm_compute. reflexivity.
Qed.

Lemma conflict_is_accountable_witness :
  EndBlocker_checkpointing sm3.1.1 = Panic ErrConflictingCheckpoint ∧
  ∃ ckpt cm, FromBTCCkptToRawCkpt rawB = Ok ckpt ∧ ck_checkpoints sm2.1 !! rbc_Epoch rawB = Some cm ∧
    rc_BlockHash (cm_Ckpt cm) ≠ rc_BlockHash ckpt ∧
    quorum_signed sm2.1 sm2.2 ckpt ∧ quorum_signed sm2.1 sm2.2 (cm_Ckpt cm) ∧
    let vs := GetValidatorSet (ek_epoching sm2.2) (rbc_Epoch rawB) in
    let both := selected (λ i, bitmap_Get (default [] (rc_Bitmap ckpt)) i && bitmap_Get (default [] (rc_Bitmap (cm_Ckpt cm))) i)
                  vs (seq 0 (length vs)) in
    power vs < 3 * power both.
Proof.
  apply (conflict_is_accountable ctx s0 m1 sm2.1 sm2.2 rawB sm3.1.1 sm3.1.2).
  - apply ck_inv_start; reflexivity.
  - rewrite <- surjective_pairing. exact history.
  - replace (Some ErrConflictingCheckpoint) with sm3.2 by (vm_compute; reflexivity).
    rewrite <- !surjective_pairing. unfold sm3. apply is_ok_get. vm_compute. reflexivity.
  - split; [vm_compute; reflexivity|]. split; [vm_compute; repeat constructor; discriminate|vm_compute; reflexivity].
Defined.

Lemma registration_bijection_witness :
  (∀ a k, GetBlsPubKey sm2.1 a = Ok k ↔ GetValAddr sm2.1 k = Ok a) ∧
  (∀ a k, GetBlsPubKey sm2.1 a = Ok k → GetBlsPubKey sm2.1 a = Ok k).
Proof.
  apply (registration_bijection s0 m1 sm2.1 sm2.2 sm2.1 sm2.2); [reflexivity|reflexivity|reflexivity| |apply rtc_refl].
  rewrite <- surjective_pairing. exact history.
Defined.

End ConflictExample.
