(* ===== verification/ProposalProofs.v ===== *)
(** * x/checkpointing: proposals are sealed

    A proposal that the validators accept carries a checkpoint that the pre-blocker
    seals: accumulating verified signatures one by one gives a multi-signature that
    verifies against the bitmap. The block hash that the extensions agree on does not
    depend on the order in which Go visits a map. *)

From S2P Require Import Prelude Bytes Store BbnTypes Coins TxFormatter Epochs EpochTiling Checkpoints BlsLaws Proposal CheckpointSafety.

(** ** Positions and validators *)

Lemma selected_filter f vs l : selected f vs l = omap (λ i, vs !! i) (filter (λ i, f i = true) l).
Proof.
  induction l as [|i l IH]; [done|]. rewrite selected_cons, filter_cons, IH. case_decide as D.
  - rewrite D. cbn. by destruct (vs !! i).
  - by destruct (f i).
Qed.
Lemma selected_ext f g vs l : (∀ i, i ∈ l → f i = g i) → selected f vs l = selected g vs l.
Proof.
  induction l as [|i l IH]; intros H; [done|]. rewrite !selected_cons, IH by (intros; apply H; by right).
  by rewrite (H i) by left.
Qed.
Lemma selected_positions vs idxs : NoDup idxs → Forall (λ i, i < length vs)%nat idxs →
  selected (λ j, bool_decide (j ∈ idxs)) vs (seq 0 (length vs)) ≡ₚ omap (λ i, vs !! i) idxs.
Proof.
  intros Hnd Hlt. rewrite selected_filter. apply omap_Permutation. apply NoDup_Permutation; [|done|].
  - apply NoDup_filter, NoDup_seq.
  - intros i. rewrite list_elem_of_filter, bool_decide_eq_true, elem_of_seq. split; [tauto|].
    intros Hi. rewrite Forall_forall in Hlt. specialize (Hlt i Hi). split; [done|lia].
Qed.

Lemma bool_decide_snoc (i j : nat) l :
  (if bool_decide (i = j) then true else bool_decide (j ∈ l)) = bool_decide (j ∈ l ++ [i]).
Proof.
  apply eq_true_iff_eq. rewrite (bool_decide_eq_true (j ∈ l ++ [i])), elem_of_app, list_elem_of_singleton.
  case_bool_decide as E; [by split; [right|]|]. rewrite bool_decide_eq_true. split; [by left|]. by intros [?| ->].
Qed.

Section accumulation.
Context {BL : Blst} {LL : BlsLaws BL} {BM : GoBitmap} {ML : GoBitmapLaws BM} {VA : ValBech32}.
Context (s : CkptState) (vals : ValidatorSet) (epoch : Z) (hash : bytes).
Context (vals_sorted : sorted_set vals) (vals_nonneg : Forall (λ v, 0 ≤ val_Power v) vals).
Context (vals_bounded : power vals * 3 < 2 ^ 63).

(** The key of a validator; a signature it made of the block. *)
Definition key_of (v : Validator) : bytes := get_ok [] (GetBlsPubKey s (val_Addr v)).
Definition signed_by (v : Validator) (sig : bytes) : Prop :=
  is_ok (GetBlsPubKey s (val_Addr v)) = true ∧ VerifyCompressed sig (key_of v) (GetSignBytes epoch hash) DST = true.

(** [acc]: the positions, validators and signatures accumulated so far. *)
Definition keys_of (acc : list (nat * (Validator * bytes))) : list bytes := key_of <$> acc.*2.*1.
Record accumulated (cm : RawCheckpointWithMeta) (acc : list (nat * (Validator * bytes))) : Prop := mkAccumulated {
  acc_epoch : rc_EpochNum (cm_Ckpt cm) = epoch;
  acc_hash : rc_BlockHash (cm_Ckpt cm) = Some hash;
  acc_bits : length (default [] (rc_Bitmap (cm_Ckpt cm))) = 13%nat ∧
    ∀ j, (j < BitmapBits)%nat → bitmap_Get (default [] (rc_Bitmap (cm_Ckpt cm))) j = bool_decide (j ∈ acc.*1);
  acc_nodup : NoDup acc.*1;
  acc_signed i v sig : (i, (v, sig)) ∈ acc → vals !! i = Some v ∧ signed_by v sig;
  acc_sig : match acc with [] => rc_BlsMultiSig (cm_Ckpt cm) = None
            | _ => ∃ a, rc_BlsMultiSig (cm_Ckpt cm) = Some a ∧ AggregateCompressedSigs acc.*2.*2 = Some a end;
  acc_pk : match acc with [] => cm_BlsAggrPk cm = None
           | _ => ∃ a, cm_BlsAggrPk cm = Some a ∧ AggregateCompressedPks (keys_of acc) = Some a end;
  acc_power : cm_PowerSum cm = power acc.*2.*1;
  acc_status : cm_Status cm = Accumulating ∨ cm_Status cm = Sealed ∧ 2 * power vals < 3 * power acc.*2.*1
}.

(** The validators accumulated are some of the set. *)
Lemma acc_selected acc : NoDup acc.*1 → (∀ i v sig, (i, (v, sig)) ∈ acc → vals !! i = Some v ∧ signed_by v sig) →
  selected (λ j, bool_decide (j ∈ acc.*1)) vals (seq 0 (length vals)) ≡ₚ acc.*2.*1.
Proof.
  intros Hnd Hs. rewrite selected_positions; [|done|].
  - clear Hnd. induction acc as [|[i [v sig]] acc IH]; [done|]. cbn. rewrite (proj1 (Hs i v sig ltac:(left))).
    f_equiv. apply IH. intros j w t Hj. apply Hs. by right.
  - apply Forall_forall. intros i ([j [v sig]] & -> & Hj)%list_elem_of_fmap. apply Hs in Hj as [Hj _]. by eapply lookup_lt_Some.
Qed.
Lemma acc_power_bound acc : NoDup acc.*1 → (∀ i v sig, (i, (v, sig)) ∈ acc → vals !! i = Some v ∧ signed_by v sig) →
  0 ≤ power acc.*2.*1 ≤ power vals.
Proof using vals_nonneg.
  intros Hnd Hs. assert (Hp : power acc.*2.*1 = power (selected (λ j, bool_decide (j ∈ acc.*1)) vals (seq 0 (length vals)))).
  { unfold power. apply sumZ_perm. by rewrite (acc_selected acc). }
  rewrite Hp. split; [by apply power_nonneg|]. rewrite <- (selected_all vals) at 3. by apply power_selected_le.
Qed.

Lemma accumulated_start : accumulated (NewCheckpointWithMeta (NewCheckpoint epoch hash) Accumulating) [].
Proof using ML.
  clear vals_sorted vals_nonneg vals_bounded. split; try done; cbn.
  - split; [by rewrite bitmap_New_length|]. intros j _. rewrite bitmap_New_Get. symmetry. apply bool_decide_eq_false_2. set_solver.
  - constructor.
  - set_solver.
  - by left.
Qed.

(** Aggregating one more signature and key. *)
Lemma AggrSig_next (acc : list (nat * (Validator * bytes))) old sig r :
  match acc with [] => old = None | _ => ∃ a, old = Some a ∧ AggregateCompressedSigs acc.*2.*2 = Some a end →
  (∃ v, signed_by v sig) → AggrSig old sig = Ok r → AggregateCompressedSigs (acc.*2.*2 ++ [sig]) = Some r.
Proof using LL.
  intros Ho (v & _ & Hv) H. destruct acc as [|x acc].
  - subst old. injection H as <-. by eapply agg_sigs_one.
  - destruct Ho as (a & -> & Ha). cbn [AggrSig] in H. unfold AggrSigList in H. rewrite (agg_sigs_snoc _ _ sig) with (2 := Ha) in H by (by destruct x as [? []]).
    destruct (AggregateCompressedSigs _) as [q|] eqn:E in H; [|done]. injection H as <-. exact E.
Qed.
Lemma AggrPK_next (acc : list (nat * (Validator * bytes))) old v sig :
  match acc with [] => old = None | _ => ∃ a, old = Some a ∧ AggregateCompressedPks (keys_of acc) = Some a end →
  signed_by v sig → ∃ r, AggrPK old (key_of v) = Ok r ∧ AggregateCompressedPks (keys_of acc ++ [key_of v]) = Some r.
Proof using LL.
  intros Ho (_ & Hv). destruct acc as [|x acc].
  - subst old. exists (key_of v). split; [done|]. by eapply agg_pks_one.
  - destruct Ho as (a & -> & Ha). cbn [AggrPK]. unfold AggrPKList. rewrite (agg_pks_snoc _ _ (key_of v)) with (2 := Ha) by (by destruct x as [? []]).
    destruct (agg_pks_total _ _ _ _ _ _ Ha Hv) as [r Hr]. exists r. by rewrite Hr.
Qed.

(** One step of the accumulation. *)
Lemma Accumulate_step cm acc addr key sig cm' r :
  accumulated cm acc → cm_Status cm = Accumulating →
  GetBlsPubKey s addr = Ok key → VerifyCompressed sig key (GetSignBytes epoch hash) DST = true →
  Accumulate cm vals addr key sig (power vals) = Ok (cm', r) →
  ∃ acc', accumulated cm' acc' ∧ (cm' = cm ∨ r = None).
Proof using LL ML vals_sorted vals_nonneg vals_bounded.
  intros Ha Hst Hk Hv H. unfold Accumulate in H. rewrite Hst in H. cbn [negb bool_decide] in H.
  change (bool_decide (Accumulating = Accumulating)) with true in H. cbn [negb] in H.
  destruct (FindValidatorWithIndex_spec vals addr vals_sorted) as [(v & i & Hf & Hi0 & Hi & Hva)|[Hf _]]; rewrite Hf in H.
  2: { injection H as <- <-. exists acc. split; [done|by left]. }
  apply bind_Ok in H as (voted & Hg & H). unfold bitmapGet, bitmap_Len in Hg.
  destruct (acc_bits _ _ Ha) as [Hl Hbits]. rewrite Hl in Hg.
  destruct ((0 <=? i) && (i <? Z.of_nat (8 * 13))) eqn:Eb; [|done]. injection Hg as <-.
  apply andb_true_iff in Eb as [_ Eb%Z.ltb_lt]. change (Z.of_nat (8 * 13)) with 104 in Eb.
  assert (Hlt : (Z.to_nat i < BitmapBits)%nat) by (unfold BitmapBits; clear -Eb Hi0; lia).
  rewrite (Hbits _ Hlt) in H. case_bool_decide as Hin.
  { injection H as <- <-. exists acc. split; [done|by left]. }
  assert (Hkey : key = key_of v) by (unfold key_of; by rewrite Hva, Hk). subst key.
  assert (Hsb : signed_by v sig) by (split; [by rewrite Hva, Hk|done]).
  destruct (AggrSig (rc_BlsMultiSig (cm_Ckpt cm)) sig) as [aggSig|e|e] eqn:Es; [|injection H as <- <-; exists acc; split; [done|by left]|done].
  destruct (AggrPK_next acc (cm_BlsAggrPk cm) v sig) as (aggPK & Hpk & Hagg); [by apply Ha|done|]. rewrite Hpk in H.
  injection H as <- <-. exists (acc ++ [(Z.to_nat i, (v, sig))]). split; [|by right].
  assert (Hsig : AggregateCompressedSigs (acc.*2.*2 ++ [sig]) = Some aggSig)
    by (eapply AggrSig_next; [by apply Ha|by exists v|done]).
  assert (Hnd : NoDup (acc ++ [(Z.to_nat i, (v, sig))]).*1).
  { rewrite fmap_app. apply NoDup_app. split; [by apply Ha|]. split; [cbn; set_solver|apply NoDup_singleton]. }
  assert (Hall : ∀ j w t, (j, (w, t)) ∈ acc ++ [(Z.to_nat i, (v, sig))] → vals !! j = Some w ∧ signed_by w t).
  { intros j w t [Hj|[= -> -> ->]%list_elem_of_singleton]%elem_of_app; [by apply Ha|done]. }
  pose proof (acc_power_bound _ Hnd Hall) as Hpb.
  assert (Hpow : power (acc ++ [(Z.to_nat i, (v, sig))]).*2.*1 = cm_PowerSum cm + val_Power v).
  { rewrite (acc_power _ _ Ha), !fmap_app. unfold power. rewrite !fmap_app, sumZ_app. cbn. lia. }
  assert (Hvn : 0 ≤ val_Power v) by by eapply (Forall_lookup_1 _ _ _ _ vals_nonneg).
  assert (Hacc : 0 ≤ cm_PowerSum cm ≤ power vals) by (rewrite (acc_power _ _ Ha); apply acc_power_bound; apply Ha).
  assert (Hsum : u64 (cm_PowerSum cm + u64 (val_Power v)) = power (acc ++ [(Z.to_nat i, (v, sig))]).*2.*1).
  { rewrite (u64_small (val_Power v)), u64_small by (unfold in_u64; lia). by rewrite Hpow. }
  split; cbn [cm_Ckpt rc_EpochNum rc_BlockHash rc_Bitmap rc_BlsMultiSig cm_BlsAggrPk cm_PowerSum cm_Status default from_option id].
  - apply Ha.
  - apply Ha.
  - split; [by rewrite bitmap_Set_length|]. intros j Hj. rewrite bitmap_Get_Set by (unfold bitmap_Len; lia).
    rewrite (Hbits j Hj), fmap_app. clear. cbn. apply bool_decide_snoc.
  - done.
  - done.
  - rewrite !fmap_app. destruct acc; by exists aggSig.
  - unfold keys_of in *. rewrite !fmap_app. destruct acc; by exists aggPK.
  - done.
  - rewrite Hsum. set (P := power (acc ++ _).*2.*1) in *. clearbody P.
    rewrite (i64_small P), !i64_small by (unfold in_i64; lia).
    destruct (power vals * 2 <? P * 3) eqn:Eq; [right; split; [done|lia]|by left].
Qed.

(** All signatures in turn. *)
Definition valid_sig (b : BlsSig) : Prop :=
  ∃ addr key sig, ValFromBech32 (bs_SignerAddress b) = Some addr ∧ GetBlsPubKey s addr = Ok key ∧ bs_BlsSig b = Some sig ∧
    VerifyCompressed sig key (GetSignBytes epoch hash) DST = true.
Lemma accumulateSigs_ok sigs : ∀ cm acc cm', accumulated cm acc → cm_Status cm = Accumulating → Forall valid_sig sigs →
  accumulateSigs s vals (power vals) cm sigs = Ok cm' → ∃ acc', accumulated cm' acc'.
Proof using LL ML vals_sorted vals_nonneg vals_bounded.
  induction sigs as [|b sigs IH]; intros cm acc cm' Ha Hst Hv H.
  - injection H as <-. by exists acc.
  - apply Forall_cons in Hv as [(addr & key & sig & Hb & Hk & Hs & Hsig) Hv].
    cbn [accumulateSigs] in H. rewrite Hb, Hk, Hs in H. cbn [deref mbind outcome_bind] in H.
    apply bind_Ok in H as ([cm1 r] & Hacc & H).
    destruct (Accumulate_step cm acc addr key sig cm1 r Ha Hst Hk Hsig Hacc) as (acc1 & Ha1 & Hr).
    destruct r as [e|].
    + destruct Hr as [-> |]; [|done]. by eapply IH.
    + destruct (bool_decide (cm_Status cm1 = Sealed)) eqn:E; [injection H as <-; by exists acc1|].
      apply bool_decide_eq_false in E. destruct (acc_status _ _ Ha1) as [Hst1|[? _]]; [|done]. by eapply IH.
Qed.

(** The keys and powers of validators that have signed. *)
Lemma signersOf_Ok vs : ∀ ks0 p0, (∀ v, v ∈ vs → ∃ sig, signed_by v sig) → 0 ≤ p0 → Forall (λ v, 0 ≤ val_Power v) vs → p0 + power vs < 2 ^ 63 →
  foldM (λ acc v, k ← GetBlsPubKey s (val_Addr v); Ok (acc.1 ++ [k], i64 (acc.2 + val_Power v))) (ks0, p0) vs =
  Ok (ks0 ++ (key_of <$> vs), p0 + power vs).
Proof.
  clear vals_sorted vals_nonneg vals_bounded.
  induction vs as [|v vs IH]; intros ks0 p0 Hs H0 Hp Hb.
  - cbn. by rewrite app_nil_r, Z.add_0_r.
  - apply Forall_cons in Hp as [Hv Hp]. destruct (Hs v) as (sig & Hok & _); [left|].
    assert (Hpow : power (v :: vs) = val_Power v + power vs) by done.
    assert (0 ≤ power vs) by (apply sumZ_nonneg; by apply Forall_fmap).
    assert (Hk : GetBlsPubKey s (val_Addr v) = Ok (key_of v)) by (unfold key_of; by destruct (GetBlsPubKey s (val_Addr v))).
    cbn [foldM]. rewrite Hk. cbn [mbind outcome_bind fst snd]. rewrite i64_small by (unfold in_i64; lia).
    rewrite IH; [|intros; apply Hs; by right|lia|done|lia]. cbn [fmap list_fmap]. by rewrite <- app_assoc, Hpow, Z.add_assoc.
Qed.

Lemma signatures_verify acc : (∀ i v sig, (i, (v, sig)) ∈ acc → vals !! i = Some v ∧ signed_by v sig) →
  Forall2 (λ sig k, VerifyCompressed sig k (GetSignBytes epoch hash) DST = true) acc.*2.*2 (keys_of acc).
Proof.
  clear. induction acc as [|[i [v sig]] acc IH]; intros H; constructor; [by eapply (H i); left|].
  apply IH. intros. by apply (H i0); right.
Qed.

End accumulation.

(** ** Sealing *)

Section sealing.
Context {BL : Blst} {LL : BlsLaws BL} {BM : GoBitmap} {ML : GoBitmapLaws BM} {VA : ValBech32}.
Context {M : Type} {EK : EpochingKeeper M} {CH : CheckpointingHooks M}.

(** A checkpoint accumulated to a quorum verifies. *)
Lemma sealed_verifies s m epoch hash cm acc :
  let vals := GetValidatorSet (ek_epoching m) epoch in
  powers_ok m epoch → (length vals ≤ BitmapBits)%nat →
  accumulated s vals epoch hash cm acc → cm_Status cm = Sealed → cm_BlsAggrPk cm ≠ Some bls_infinity →
  VerifyRawCheckpoint s m (cm_Ckpt cm) = Ok tt.
Proof using LL ML.
  intros vals (Ht & Hp & Hb) Hlen Ha Hst Hinf. destruct (acc_status _ _ _ _ _ _ Ha) as [?|[_ Hq]]; [congruence|].
  destruct (acc_bits _ _ _ _ _ _ Ha) as [Hl Hbits]. unfold VerifyRawCheckpoint.
  rewrite (acc_epoch _ _ _ _ _ _ Ha), Ht. cbn [mbind outcome_bind]. fold vals.
  unfold FindSubset, bitmap_Len. rewrite Hl. rewrite (proj2 (Nat.ltb_ge (8 * 13) (length vals))) by exact Hlen. cbn [mbind outcome_bind].
  change (omap _ _) with (selected (bitmap_Get (default [] (rc_Bitmap (cm_Ckpt cm)))) vals (seq 0 (length vals))).
  rewrite (selected_ext _ (λ j, bool_decide (j ∈ acc.*1))).
  2: { intros j [_ Hj]%elem_of_seq. apply Hbits. cbn in Hj. lia. }
  pose proof (acc_selected s vals epoch hash acc (acc_nodup _ _ _ _ _ _ Ha) (acc_signed _ _ _ _ _ _ Ha)) as Hsel.
  set (sub := selected _ vals _) in *.
  assert (Hpow : power sub = power acc.*2.*1) by (unfold power; apply sumZ_perm; by rewrite Hsel).
  pose proof (acc_power_bound s vals epoch hash Hp acc (acc_nodup _ _ _ _ _ _ Ha) (acc_signed _ _ _ _ _ _ Ha)) as Hbd.
  unfold epoch_power in Hb. fold vals in Hb.
  assert (Hsigned : ∀ v, v ∈ sub → ∃ sig, signed_by s epoch hash v sig).
  { intros v Hv. rewrite Hsel in Hv. apply list_elem_of_fmap in Hv as ([v' sig] & -> & Hv).
    apply list_elem_of_fmap in Hv as ([i [v0 sig0]] & [= -> ->] & Hv). exists sig0. by eapply (acc_signed _ _ _ _ _ _ Ha). }
  unfold signersOf. rewrite (signersOf_Ok s epoch hash sub [] 0 Hsigned); [|lia| |lia].
  2: { apply Forall_forall. intros v Hv%selected_incl. rewrite Forall_forall in Hp. by apply Hp. }
  cbn [mbind outcome_bind fst snd app]. rewrite Hpow, Z.add_0_l, !i64_small by (unfold in_i64; unfold epoch_power; fold vals; lia).
  unfold epoch_power. fold vals. rewrite (proj2 (Z.leb_gt (power acc.*2.*1 * 3) (power vals * 2))) by lia.
  rewrite (acc_hash _ _ _ _ _ _ Ha). destruct acc as [|x acc]; [cbn in Hq; lia|].
  destruct (acc_sig _ _ _ _ _ _ Ha) as (ms & Hms & Hams). destruct (acc_pk _ _ _ _ _ _ Ha) as (pk & Hpk & Hapk).
  rewrite Hms. cbn [deref mbind outcome_bind]. unfold VerifyMultiSig, AggrPKList, BlsVerify.
  assert (Hperm : key_of s <$> sub ≡ₚ keys_of s (x :: acc)) by (unfold keys_of; by apply fmap_Permutation).
  rewrite (agg_pks_perm _ _ Hperm), Hapk. cbn [mbind outcome_bind].
  rewrite (agg_verify (x :: acc).*2.*2 (keys_of s (x :: acc)) _ _ ms pk); [done| |done|done|congruence].
  eapply signatures_verify. apply Ha.
Qed.

End sealing.

(** ** The hash the votes agree on *)

Section last_hash.
Context {PE : ProposalEnv} (map_order : list (string * Z) → list (string * Z)).

Definition votes_power (votes : list ExtendedVoteInfo) : Z := sumZ (ev_Power <$> votes).
Definition hash_power (h : bytes) (votes : list ExtendedVoteInfo) : Z :=
  sumZ ((λ v, if bool_decide (votedHash v = Some h) then ev_Power v else 0) <$> votes).
Definition votes_ok (votes : list ExtendedVoteInfo) : Prop := Forall (λ v, 0 ≤ ev_Power v) votes ∧ votes_power votes * 2 < 2 ^ 63.
(** More than two thirds of the power of the votes, as the code rounds it. *)
Definition hash_quorum (h : bytes) (votes : list ExtendedVoteInfo) : Prop :=
  h ≠ [] ∧ votes_power votes * 2 / 3 + 1 ≤ hash_power h votes.

Lemma votes_power_snoc votes v : votes_power (votes ++ [v]) = votes_power votes + ev_Power v.
Proof. unfold votes_power. rewrite fmap_app, sumZ_app. cbn. lia. Qed.
Lemma hash_power_snoc h votes v :
  hash_power h (votes ++ [v]) = hash_power h votes + if bool_decide (votedHash v = Some h) then ev_Power v else 0.
Proof. unfold hash_power. rewrite fmap_app, sumZ_app. cbn. lia. Qed.
Lemma hash_power_disjoint h h' votes : h ≠ h' → Forall (λ v, 0 ≤ ev_Power v) votes →
  hash_power h votes + hash_power h' votes ≤ votes_power votes.
Proof.
  intros Hne. induction 1 as [|v votes Hv _ IH]; [done|]. unfold hash_power, votes_power, sumZ in *. cbn in *.
  repeat case_bool_decide; first [lia|congruence].
Qed.
Lemma hash_power_bounds h votes : Forall (λ v, 0 ≤ ev_Power v) votes → 0 ≤ hash_power h votes ≤ votes_power votes.
Proof.
  induction 1 as [|v votes Hv _ IH]; [done|]. unfold hash_power, votes_power, sumZ in *. cbn in *. case_bool_decide; lia.
Qed.

Lemma tallyHashes_spec votes : votes_ok votes →
  (tallyHashes votes).2 = votes_power votes ∧
  (∀ h, default 0 ((tallyHashes votes).1 !! hex_encode h) = hash_power h votes) ∧
  (∀ k, is_Some ((tallyHashes votes).1 !! k) → ∃ h, k = hex_encode h).
Proof.
  induction votes as [|v votes IH] using rev_ind; intros [Hp Hb].
  { split; [done|]. change (tallyHashes []) with (∅ : gmap string Z, 0). cbn [fst].
    split; [intros; by rewrite lookup_empty|]. intros k [? Hk]. by rewrite lookup_empty in Hk. }
  apply Forall_app in Hp as [Hp [Hv _]%Forall_cons]. rewrite votes_power_snoc in Hb.
  assert (0 ≤ votes_power votes) by (apply (hash_power_bounds [] votes) in Hp; lia).
  destruct IH as (H2 & H1 & Hk); [split; [done|lia]|]. unfold tallyHashes in *. rewrite foldl_snoc.
  set (t := foldl _ _ votes) in *. rewrite votes_power_snoc, H2, i64_small by (unfold in_i64; lia).
  destruct (votedHash v) as [h0|] eqn:E; cbn [fst snd].
  - split; [done|]. split.
    + intros h. rewrite hash_power_snoc, E, H1. pose proof (hash_power_bounds h0 _ Hp). destruct (decide (h0 = h)) as [->|Hne].
      * rewrite lookup_insert_eq, bool_decide_eq_true_2 by done. cbn. apply i64_small. unfold in_i64. lia.
      * rewrite lookup_insert_ne by (intros ?%hex_encode_inj; done). rewrite bool_decide_eq_false_2 by congruence. rewrite H1. lia.
    + intros k [<-|[_ Hks]]%lookup_insert_is_Some; [by exists h0|by apply Hk].
  - split; [done|]. split; [|done]. intros h. rewrite hash_power_snoc, E, H1. rewrite bool_decide_eq_false_2 by done. lia.
Qed.

Lemma maxHash_in l : ∀ a, foldl (λ acc hp, if acc.2 <? hp.2 then hp else acc) a l = a ∨
  foldl (λ acc hp : string * Z, if acc.2 <? hp.2 then hp else acc) a l ∈ l.
Proof.
  induction l as [|x l IH]; intros a; [by left|]. cbn [foldl].
  destruct (IH (if a.2 <? x.2 then x else a)) as [->|H]; [|right; by right]. destruct (a.2 <? x.2); [right; left|by left].
Qed.
Lemma maxHash_max k p l : ∀ a : string * Z, (k, p) ∈ l ∧ a.2 < p ∨ a = (k, p) →
  (∀ k' p', (k', p') ∈ l → (k', p') = (k, p) ∨ p' < p) →
  foldl (λ acc hp : string * Z, if acc.2 <? hp.2 then hp else acc) a l = (k, p).
Proof.
  induction l as [|[k1 p1] l IH]; intros a Ha Hl; [destruct Ha as [[?%elem_of_nil _]| ->]; done|].
  cbn [foldl]. apply IH; [|intros; apply Hl; by right]. cbn [snd].
  destruct (Hl k1 p1) as [[= -> ->]|Hlt]; [left| |].
  - right. destruct Ha as [[_ Ha]| ->]; [by rewrite (proj2 (Z.ltb_lt _ _))|]. by destruct (_ <? _).
  - destruct Ha as [[[[= -> ->]|Hin]%elem_of_cons Ha]| ->]; [lia| |].
    + left. split; [done|]. by destruct (_ <? _).
    + right. cbn. by rewrite (proj2 (Z.ltb_ge _ _)) by lia.
Qed.

Context (map_order_perm : ∀ l, map_order l ≡ₚ l).

Lemma findLastBlockHash_spec votes h : votes_ok votes → findLastBlockHash map_order votes = Ok h ↔ hash_quorum h votes.
Proof using map_order_perm.
  intros Hok. destruct (tallyHashes_spec votes Hok) as (H2 & H1 & Hk). destruct Hok as [Hp Hb].
  pose proof (hash_power_bounds [] votes Hp) as H0. unfold findLastBlockHash, hash_quorum.
  destruct (tallyHashes votes) as [t total]. cbn [fst snd] in *. subst total.
  assert (Hq : i64 (Z.quot (i64 (votes_power votes * 2)) 3 + 1) = votes_power votes * 2 / 3 + 1).
  { rewrite (i64_small (votes_power votes * 2)), Z.quot_div_nonneg by (unfold in_i64; lia). apply i64_small.
    pose proof (Z.div_pos (votes_power votes * 2) 3). pose proof (Z.div_le_upper_bound (votes_power votes * 2) 3 (votes_power votes)).
    unfold in_i64. lia. }
  assert (Hin : ∀ k p, (k, p) ∈ map_order (map_to_list t) ↔ t !! k = Some p) by (intros; by rewrite map_order_perm, elem_of_map_to_list).
  rewrite Hq. unfold maxHash. split.
  - intros H. destruct (foldl _ _ _) as [k p] eqn:E. destruct (maxHash_in (map_order (map_to_list t)) (EmptyString, 0)) as [Hm|Hm];
      rewrite E in Hm; [injection Hm as -> ->; done|]. apply Hin in Hm. destruct (Hk k) as [h0 ->]; [done|].
    rewrite hex_decode_encode in H. destruct (_ =? 0)%nat eqn:El; [done|]. destruct (p <? _) eqn:Ep; [done|]. injection H as ->.
    split; [by intros ->|]. rewrite <- H1, Hm. cbn. lia.
  - intros [Hne Hw].
    assert (Hpos : 0 ≤ votes_power votes * 2 / 3) by (apply Z.div_pos; lia).
    assert (Hm : t !! hex_encode h = Some (hash_power h votes)).
    { specialize (H1 h). destruct (t !! hex_encode h); cbn in H1; [congruence|lia]. }
    rewrite (maxHash_max (hex_encode h) (hash_power h votes)).
    + destruct (_ =? 0)%nat eqn:El; [destruct h; done|]. rewrite (proj2 (Z.ltb_ge _ _)) by done. by rewrite hex_decode_encode.
    + left. split; [by apply Hin|]. cbn. lia.
    + intros k' p' Hk'%Hin. destruct (Hk k') as [h' ->]; [done|]. destruct (decide (h' = h)) as [->|Hne'].
      * left. congruence.
      * right. pose proof (hash_power_disjoint h' h votes Hne' Hp). specialize (H1 h'). rewrite Hk' in H1. cbn in H1. subst p'.
        pose proof (Z.div_mod (votes_power votes * 2) 3). pose proof (Z.mod_pos_bound (votes_power votes * 2) 3). lia.
Qed.

End last_hash.

(** ** Proposals *)

(** What the handlers rely on of the codecs: the block hash of a decoded vote extension
    has its length, and an injected checkpoint whose hash, multi-signature and
    aggregate key have theirs is decoded as it was encoded. *)
Definition sized (cm : RawCheckpointWithMeta) : Prop :=
  ∃ hash sig pk, rc_BlockHash (cm_Ckpt cm) = Some hash ∧ length hash = HashSize ∧
  rc_BlsMultiSig (cm_Ckpt cm) = Some sig ∧ length sig = SignatureSize ∧ cm_BlsAggrPk cm = Some pk ∧ length pk = PubKeySize.
Class ProposalLaws (PE : ProposalEnv) := {
  ve_hash_length b ve h : ve_Unmarshal b = Some ve → ve_BlockHash ve = Some h → length h = HashSize;
  injected_roundtrip inj tx : sized (inj_Ckpt inj) → encodeInjected inj = Ok tx → tx ≠ [] ∧ decodeMsgs tx = Ok [Some inj]
}.

Section proposals.
Context {PE : ProposalEnv} {PL : ProposalLaws PE} {BL : Blst} {LL : BlsLaws BL} {BM : GoBitmap} {ML : GoBitmapLaws BM} {VA : ValBech32}.
Context {M : Type} {EK : EpochingKeeper M} {CH : CheckpointingHooks M}.

(** A vote extension that is accepted has the expected hash and a valid signature. *)
Lemma ProposalVerifyVoteExtension_ok s epoch v hash b :
  ProposalVerifyVoteExtension s epoch (ev_VoteExtension v) hash = Ok b →
  valid_sig s epoch hash b ∧ votedHash v = Some hash.
Proof.
  intros H. unfold ProposalVerifyVoteExtension in H. unfold votedHash.
  destruct (length (ev_VoteExtension v) =? 0)%nat; [done|]. destruct (_ <? _)%nat; [done|]. destruct (negb _); [done|].
  destruct (ve_Unmarshal (ev_VoteExtension v)) as [ve|]; [|done]. destruct (negb _); [done|].
  apply bind_Ok in H as ([] & _ & H). destruct (ve_EpochNum ve =? epoch) eqn:Ee; [|done]. cbn [negb] in H.
  destruct (ValFromBech32 (ve_Signer ve)) as [addr|] eqn:Ea; [|done]. destruct (ValFromBech32 (ve_ValidatorAddress ve)); [|done].
  apply bind_Ok in H as (h & Hh & H). destruct (ve_BlockHash ve) as [h0|] eqn:Eh; [|done]. injection Hh as ->.
  destruct (bool_decide (h = hash)) eqn:Ed; [|done]. apply bool_decide_eq_true in Ed as ->. cbn [negb] in H.
  apply bind_Ok in H as ([] & Hv & H). injection H as <-. autorewrite with outcome in Hv. unfold VerifyBLSSig in Hv. cbn in Hv. rewrite Ea in Hv.
  apply bind_Ok in Hv as (key & Hk & Hv). apply bind_Ok in Hv as (h1 & Hh1 & Hv). rewrite Eh in Hh1. injection Hh1 as <-.
  apply bind_Ok in Hv as (sig & Hs & Hv). cbn in Hv. destruct (ve_BlsSig ve) as [sig'|] eqn:Es; [|done]. injection Hs as ->.
  apply Z.eqb_eq in Ee as <-. split; [|exact Eh].
  exists addr, key, sig. cbn. split; [done|]. split; [done|]. split; [done|]. by destruct (VerifyCompressed _ _ _ _).
Qed.

Lemma getValidBlsSigs_valid s epoch votes hash sigs :
  getValidBlsSigs s epoch votes hash = Ok sigs → Forall (valid_sig s epoch hash) sigs.
Proof.
  intros H. eapply (foldM_invariant (Forall (valid_sig s epoch hash))); [|by constructor|exact H].
  intros acc v acc' _ Ha Hf. cbn beta in Hf. destruct (ProposalVerifyVoteExtension _ _ _ _) as [b|e|e] eqn:E; [|by injection Hf as <-|done].
  injection Hf as <-. apply Forall_app. split; [done|]. apply Forall_singleton. by eapply ProposalVerifyVoteExtension_ok.
Qed.

(** What is built from votes: a sealed checkpoint over the hash they agree on. *)
Lemma build_ok o s m epoch votes cm : powers_ok m epoch →
  buildCheckpointFromVoteExtensions o s m epoch votes = Ok cm →
  cm_Status cm = Sealed ∧ ∃ hash acc, findLastBlockHash o votes = Ok hash ∧
    accumulated s (GetValidatorSet (ek_epoching m) epoch) epoch hash cm acc.
Proof using LL ML.
  intros (Ht & Hp & Hb) H. unfold buildCheckpointFromVoteExtensions in H.
  apply bind_Ok in H as (hash & Hh & H). apply bind_Ok in H as (sigs & Hsigs & H).
  rewrite Ht in H. cbn [mbind outcome_bind] in H. apply bind_Ok in H as (cm1 & Hacc & H).
  destruct (bool_decide (cm_Status cm1 = Sealed)) eqn:E; [|done]. injection H as ->. split; [by apply bool_decide_eq_true in E|].
  exists hash. unfold epoch_power in *.
  destruct (accumulateSigs_ok s _ epoch hash (GetValidatorSet_sorted _ _) Hp Hb sigs _ [] cm
    (accumulated_start s _ epoch hash) eq_refl (getValidBlsSigs_valid _ _ _ _ _ Hsigs) Hacc) as [acc Ha]. by exists acc.
Qed.

(** *** An accepted proposal is sealed *)

Lemma rejectOnErr_Some {A B} (r : outcome A) (k : A → outcome (option B)) b :
  rejectOnErr r k = Ok (Some b) → ∃ a, r = Ok a ∧ k a = Ok (Some b).
Proof. destruct r as [a|e|e]; [|done..]. intros H. by exists a. Qed.

(** The part of a checkpoint that verification reads is compared. *)
Lemma ptr_Equal_true a b : ptr_Equal a b = Ok true → a = b.
Proof.
  destruct b as [b|]; cbn; [destruct a as [a|]; [|done]|]; intros [= H%bool_decide_eq_true]; congruence.
Qed.
Lemma RawCheckpointWithMeta_Equal_spec a b : RawCheckpointWithMeta_Equal a b = Ok true →
  rc_EpochNum (cm_Ckpt a) = rc_EpochNum (cm_Ckpt b) ∧ rc_BlockHash (cm_Ckpt a) = rc_BlockHash (cm_Ckpt b) ∧
  default [] (rc_Bitmap (cm_Ckpt a)) = default [] (rc_Bitmap (cm_Ckpt b)) ∧
  rc_BlsMultiSig (cm_Ckpt a) = rc_BlsMultiSig (cm_Ckpt b) ∧ cm_Status a = cm_Status b ∧ cm_BlsAggrPk a = cm_BlsAggrPk b.
Proof.
  intros H. unfold RawCheckpointWithMeta_Equal in H. apply bind_Ok in H as (same & Hs & H). destruct same; [|done]. cbn [negb] in H.
  destruct (bool_decide (cm_Status a = cm_Status b)) eqn:Est; [|done]. apply bool_decide_eq_true in Est. cbn [negb] in H.
  apply bind_Ok in H as (pk & Hpk & H). destruct pk; [|done]. apply ptr_Equal_true in Hpk.
  unfold RawCheckpoint_Equal in Hs. destruct (_ =? _) eqn:Ee in Hs; [|done]. apply Z.eqb_eq in Ee. cbn [negb] in Hs.
  apply bind_Ok in Hs as (h & Hh & Hs). destruct h; [|done]. apply ptr_Equal_true in Hh. cbn [negb] in Hs.
  destruct (bool_decide _) eqn:Eb in Hs; [|done]. apply bool_decide_eq_true in Eb. apply ptr_Equal_true in Hs. done.
Qed.
Lemma VerifyRawCheckpoint_ext s m a b :
  rc_EpochNum a = rc_EpochNum b → rc_BlockHash a = rc_BlockHash b → default [] (rc_Bitmap a) = default [] (rc_Bitmap b) →
  rc_BlsMultiSig a = rc_BlsMultiSig b → VerifyRawCheckpoint s m a = VerifyRawCheckpoint s m b.
Proof. intros H1 H2 H3 H4. unfold VerifyRawCheckpoint. by rewrite H1, H2, H3, H4. Qed.

(** The checkpoint of an accepted proposal verifies. *)
Lemma checkInjected_ok o ctx s m epoch txs rest :
  powers_ok m (EpochNumber epoch) → (length (GetValidatorSet (ek_epoching m) (EpochNumber epoch)) ≤ BitmapBits)%nat →
  checkInjected o ctx s m epoch txs = Ok (Some rest) →
  ∃ inj, ExtractInjectedCheckpoint txs = Ok inj ∧ cm_Status (inj_Ckpt inj) = Sealed ∧
    rc_EpochNum (cm_Ckpt (inj_Ckpt inj)) = EpochNumber epoch ∧
    (cm_BlsAggrPk (inj_Ckpt inj) ≠ Some bls_infinity → VerifyRawCheckpoint s m (cm_Ckpt (inj_Ckpt inj)) = Ok tt).
Proof using LL ML.
  intros Hp Hlen H. unfold checkInjected in H.
  apply rejectOnErr_Some in H as (inj & Hinj & H). apply rejectOnErr_Some in H as (txs' & _ & H).
  apply rejectOnErr_Some in H as ([] & _ & H). apply rejectOnErr_Some in H as (cm & Hcm & H).
  apply bind_Ok in H as (same & Hsame & H). destruct same; [|done].
  apply RawCheckpointWithMeta_Equal_spec in Hsame as (E1 & E2 & E3 & E4 & E5 & E6).
  destruct (build_ok _ _ _ _ _ _ Hp Hcm) as (Hst & hash & acc & _ & Ha).
  exists inj. split; [done|]. split; [congruence|]. split; [by rewrite <- E1, (acc_epoch _ _ _ _ _ _ Ha)|].
  intros Hinf. rewrite <- (VerifyRawCheckpoint_ext s m (cm_Ckpt cm)) by done.
  eapply sealed_verifies; [exact Hp|exact Hlen|exact Ha|done|congruence].
Qed.

(** C27: what the validators accept, the chain seals: when ProcessProposal accepts the
    first block after an epoch, the PreBlocker does not fail on it, however Go orders
    its maps. It stores a sealed checkpoint for the epoch that more than two thirds of
    the voting power signed. The epoch must not have a checkpoint yet, the hook must
    not panic, the set must fit the bitmap, and the aggregate key must not be the point
    at infinity. *)
Theorem accepted_proposal_seals o ctx s m epoch txs :
  GetEpoch (ek_epoching m) = Ok epoch → IsVoteExtensionProposal epoch ctx = true →
  powers_ok m (EpochNumber epoch) → (length (GetValidatorSet (ek_epoching m) (EpochNumber epoch)) ≤ BitmapBits)%nat →
  ck_checkpoints s !! EpochNumber epoch = None →
  (∀ e, AfterRawCheckpointSealed ctx m (EpochNumber epoch) ≠ Panic e) →
  (∀ inj, ExtractInjectedCheckpoint txs = Ok inj → cm_BlsAggrPk (inj_Ckpt inj) ≠ Some bls_infinity) →
  ProcessProposal o ctx s m txs = Ok true →
  ∃ cm m', PreBlocker ctx s m txs = Ok (with_ckpts (<[EpochNumber epoch := cm]> (ck_checkpoints s)) s, m') ∧
    cm_Status cm = Sealed ∧ quorum_signed s m (cm_Ckpt cm) ∧ rc_EpochNum (cm_Ckpt cm) = EpochNumber epoch.
Proof using LL ML.
  intros He Hve Hp Hlen Hnone Hhook Hinf H. unfold ProcessProposal in H. rewrite He in H. cbn [mbind outcome_bind] in H. rewrite Hve in H.
  apply bind_Ok in H as ([rest|] & Hc & H); [|done].
  destruct (checkInjected_ok _ _ _ _ _ _ _ Hp Hlen Hc) as (inj & Hinj & Hst & Hen & Hv).
  specialize (Hv (Hinf _ Hinj)). unfold PreBlocker. rewrite He. cbn [mbind outcome_bind]. rewrite Hve, Hinj. cbn [negb wrapf mbind outcome_bind].
  unfold SealCheckpoint, CreateRawCkptWithMeta. rewrite bool_decide_eq_true_2 by done. cbn [negb]. rewrite Hv, Hen, Hnone. cbn [mbind outcome_bind].
  exists (inj_Ckpt inj).
  destruct (AfterRawCheckpointSealed ctx m (EpochNumber epoch)) as [[m' r]|e|e] eqn:Eh; [exists m'|exists m|by destruct (Hhook e)];
    (split; [done|]; split; [done|]; split; [|done]; apply VerifyRawCheckpoint_quorum; [by rewrite Hen|done]).
Qed.

(** *** A proposal of an honest proposer is accepted *)

(** The power of the votes whose extension is valid. *)
Definition valid_power (s : CkptState) (epoch : Z) (hash : bytes) (votes : list ExtendedVoteInfo) : Z :=
  sumZ ((λ v, if is_ok (ProposalVerifyVoteExtension s epoch (ev_VoteExtension v) hash) then ev_Power v else 0) <$> votes).

Lemma pruned_power s epoch hash votes : votes_power (pruneCommitInfo s epoch votes hash) = votes_power votes.
Proof.
  unfold votes_power, pruneCommitInfo. rewrite <- list_fmap_compose. f_equal. apply list_fmap_ext. intros _ v _. cbn. by destruct (is_ok _).
Qed.
Lemma pruned_hash_power s epoch hash votes :
  hash_power hash (pruneCommitInfo s epoch votes hash) = valid_power s epoch hash votes.
Proof.
  unfold hash_power, valid_power, pruneCommitInfo. rewrite <- list_fmap_compose. f_equal. apply list_fmap_ext. intros _ v _. cbn.
  destruct (ProposalVerifyVoteExtension s epoch (ev_VoteExtension v) hash) as [b|e|e] eqn:E; cbn [is_ok].
  - apply ProposalVerifyVoteExtension_ok in E as [_ ->]. by rewrite bool_decide_eq_true_2.
  - by rewrite bool_decide_eq_false_2.
  - by rewrite bool_decide_eq_false_2.
Qed.
Lemma pruned_ok s epoch hash votes : votes_ok votes → votes_ok (pruneCommitInfo s epoch votes hash).
Proof.
  intros [Hp Hb]. split; [|by rewrite pruned_power]. apply Forall_fmap. eapply Forall_impl; [exact Hp|]. intros v Hv. cbn. by destruct (is_ok _).
Qed.
Lemma pruned_sigs s epoch hash votes sigs :
  getValidBlsSigs s epoch votes hash = Ok sigs → getValidBlsSigs s epoch (pruneCommitInfo s epoch votes hash) hash = Ok sigs.
Proof.
  unfold getValidBlsSigs. match goal with |- foldM ?f _ _ = _ → _ => set (step := f) end.
  generalize (@nil BlsSig). induction votes as [|v votes IH]; intros acc H; [done|].
  change (pruneCommitInfo s epoch (v :: votes) hash) with
    ((if is_ok (ProposalVerifyVoteExtension s epoch (ev_VoteExtension v) hash) then v else pruned v) :: pruneCommitInfo s epoch votes hash).
  apply bind_Ok in H as (acc1 & H1 & H).
  assert (Hs : step acc (if is_ok (ProposalVerifyVoteExtension s epoch (ev_VoteExtension v) hash) then v else pruned v) = Ok acc1).
  { unfold step in *. destruct (ProposalVerifyVoteExtension s epoch (ev_VoteExtension v) hash) eqn:E; cbn [is_ok]; [by rewrite E|done..]. }
  cbn [foldM]. rewrite Hs. by apply IH.
Qed.

Lemma build_pruned o1 o2 s m epoch votes cm hash : (∀ l, o1 l ≡ₚ l) → (∀ l, o2 l ≡ₚ l) → votes_ok votes →
  findLastBlockHash o1 votes = Ok hash → votes_power votes * 2 / 3 + 1 ≤ valid_power s epoch hash votes →
  buildCheckpointFromVoteExtensions o1 s m epoch votes = Ok cm →
  buildCheckpointFromVoteExtensions o2 s m epoch (pruneCommitInfo s epoch votes hash) = Ok cm.
Proof.
  intros Ho1 Ho2 Hv Hh Hq H. unfold buildCheckpointFromVoteExtensions in *. rewrite Hh in H. cbn [mbind outcome_bind] in H.
  apply (findLastBlockHash_spec o1 Ho1) in Hh as [Hne _]; [|done].
  assert (Hh2 : findLastBlockHash o2 (pruneCommitInfo s epoch votes hash) = Ok hash).
  { apply (findLastBlockHash_spec o2 Ho2); [by apply pruned_ok|]. split; [done|]. by rewrite pruned_power, pruned_hash_power. }
  rewrite Hh2. cbn [mbind outcome_bind]. apply bind_Ok in H as (sigs & Hs & H). by rewrite (pruned_sigs _ _ _ _ _ Hs).
Qed.

Lemma accumulated_sized s vals epoch hash cm acc : length hash = HashSize →
  accumulated s vals epoch hash cm acc → acc ≠ [] → sized cm.
Proof using LL.
  intros Hl Ha Hne. destruct acc as [|x acc]; [done|].
  destruct (acc_sig _ _ _ _ _ _ Ha) as (ms & Hms & Hams). destruct (acc_pk _ _ _ _ _ _ Ha) as (pk & Hpk & Hapk).
  exists hash, ms, pk. split; [apply Ha|]. split; [done|]. split; [done|]. split; [by eapply agg_sigs_length|].
  split; [done|]. by eapply agg_pks_length.
Qed.
Lemma sized_Equal cm : sized cm → RawCheckpointWithMeta_Equal cm cm = Ok true.
Proof.
  intros (hash & sig & pk & Hh & _ & Hs & _ & Hp & _). unfold RawCheckpointWithMeta_Equal, RawCheckpoint_Equal.
  rewrite Hh, Hs, Hp, !Z.eqb_refl, Nat.eqb_refl. repeat (cbn; rewrite ?bool_decide_eq_true_2 by done).
  f_equal. induction (cm_Lifecycle cm) as [|u l IH]; [done|]. cbn. rewrite IH. unfold CheckpointStateUpdate_Equal.
  by rewrite bool_decide_eq_true_2, !Z.eqb_refl.
Qed.
Lemma findLastBlockHash_length o votes hash : (∀ l, o l ≡ₚ l) → votes_ok votes →
  findLastBlockHash o votes = Ok hash → length hash = HashSize.
Proof using PL.
  intros Ho Hv H. apply (findLastBlockHash_spec o Ho) in H as [_ Hq]; [|done]. destruct Hv as [Hp _].
  pose proof (hash_power_bounds [] votes Hp). pose proof (Z.div_pos (votes_power votes * 2) 3).
  assert (Hex : ∃ v, v ∈ votes ∧ votedHash v = Some hash).
  { assert (Hpos : hash_power hash votes ≠ 0) by lia. clear -Hpos. unfold hash_power in Hpos.
    induction votes as [|v votes IH]; [done|]. cbn in Hpos. case_bool_decide as E.
    - exists v. split; [left|done]. - destruct IH as (w & ? & ?); [done|]. exists w. split; [by right|done]. }
  destruct Hex as (v & _ & Hvh). unfold votedHash in Hvh. destruct (_ =? 0)%nat; [done|].
  apply bind_Some in Hvh as (ve & Hu & Hvh). by eapply ve_hash_length.
Qed.

(** What the proposer puts first is the encoded checkpoint with the pruned votes. *)
Lemma proposal_txs t tx others t1 t2 : tx ≠ [] →
  SetOrReplaceCheckpointTx t tx = Ok t1 → ReplaceOtherTxs t1 others = Ok t2 → ∃ rest, GetTxsInOrder t2 = tx :: rest.
Proof.
  intros Hne H1 H2. unfold SetOrReplaceCheckpointTx in H1. apply bind_Ok in H1 as (t0 & _ & H1). injection H1 as <-.
  unfold ReplaceOtherTxs, updateUsedBytes in H2. cbn [CheckpointTx MaxBytes UsedBytes OtherTxs] in H2.
  destruct (_ <? _) in H2; [done|]. destruct (_ <? _) in H2; [done|]. injection H2 as <-. unfold GetTxsInOrder. cbn [CheckpointTx OtherTxs].
  destruct tx as [|b tx]; [done|]. by eexists.
Qed.
Lemma PrepareProposal_ok o ctx s m epoch reqTxs maxTxBytes votes txs :
  GetEpoch (ek_epoching m) = Ok epoch → IsVoteExtensionProposal epoch ctx = true →
  PrepareProposal o ctx s m reqTxs maxTxBytes votes = Ok txs →
  ∃ cm hash tx, buildCheckpointFromVoteExtensions o s m (EpochNumber epoch) votes = Ok cm ∧ rc_BlockHash (cm_Ckpt cm) = Some hash ∧
    encodeInjected (mkInjected cm (pruneCommitInfo s (EpochNumber epoch) votes hash)) = Ok tx ∧
    (tx ≠ [] → ∃ rest, txs = tx :: rest).
Proof.
  intros He Hve H. unfold PrepareProposal in H. apply bind_Ok in H as (resTxs & _ & H). rewrite He in H. cbn [mbind outcome_bind] in H.
  rewrite Hve in H. cbn [negb] in H. apply bind_Ok in H as (t0 & _ & H). destruct (_ =? 0)%nat in H; [done|].
  apply bind_Ok in H as ([] & _ & H). apply bind_Ok in H as (cm & Hcm & H). apply bind_Ok in H as (hash & Hh & H).
  apply bind_Ok in H as (tx & Htx & H). apply bind_Ok in H as (t1 & H1 & H). apply bind_Ok in H as (t2 & H2 & H). injection H as <-.
  autorewrite with outcome in Hcm, Htx, H1, H2. exists cm, hash, tx. split; [done|].
  destruct (rc_BlockHash (cm_Ckpt cm)) as [h|]; [injection Hh as ->|done]. split; [done|]. split; [done|].
  intros Hne. by eapply proposal_txs.
Qed.

(** C28: a proposal that an honest proposer prepares for the first block after an epoch
    is accepted by every validator with the same state, although the validators see
    only the votes the proposer has not pruned and Go may order the maps of each
    differently. The votes whose extension is valid must have the two thirds that the
    block hash needs, what is left of the commit must pass baseapp's validation, and
    the default handler must accept the other transactions. *)
Theorem honest_proposal_accepted o1 o2 ctx s m epoch reqTxs maxTxBytes votes txs :
  (∀ l, o1 l ≡ₚ l) → (∀ l, o2 l ≡ₚ l) →
  GetEpoch (ek_epoching m) = Ok epoch → IsVoteExtensionProposal epoch ctx = true → powers_ok m (EpochNumber epoch) → votes_ok votes →
  (∀ hash, findLastBlockHash o1 votes = Ok hash →
    votes_power votes * 2 / 3 + 1 ≤ valid_power s (EpochNumber epoch) hash votes ∧
    ValidateVoteExtensions ctx (pruneCommitInfo s (EpochNumber epoch) votes hash) = Ok tt) →
  PrepareProposal o1 ctx s m reqTxs maxTxBytes votes = Ok txs → defaultProcessProposal ctx (tail txs) = Ok true →
  ProcessProposal o2 ctx s m txs = Ok true.
Proof using PL LL ML.
  intros Ho1 Ho2 He Hve Hp Hv Hq H Hd. destruct (PrepareProposal_ok _ _ _ _ _ _ _ _ _ He Hve H) as (cm & hash & tx & Hcm & Hh & Htx & Htxs).
  destruct (build_ok _ _ _ _ _ _ Hp Hcm) as (Hst & hash' & acc & Hlast & Ha).
  assert (hash' = hash) as -> by (rewrite (acc_hash _ _ _ _ _ _ Ha) in Hh; congruence). destruct (Hq _ Hlast) as [Hvp Hval].
  assert (Hsz : sized cm).
  { eapply accumulated_sized; [exact (findLastBlockHash_length o1 votes hash Ho1 Hv Hlast)|exact Ha|]. intros ->.
    destruct (acc_status _ _ _ _ _ _ Ha) as [?|[_ Hq']]; [congruence|]. destruct Hp as (_ & Hnn & _).
    assert (0 ≤ power (GetValidatorSet (ek_epoching m) (EpochNumber epoch))) by (apply sumZ_nonneg; by apply Forall_fmap). cbn in Hq'. lia. }
  destruct (injected_roundtrip (mkInjected cm _) tx Hsz Htx) as [Hne Hdec]. destruct (Htxs Hne) as [rest ->]. cbn [tail] in Hd.
  unfold ProcessProposal. rewrite He. cbn [mbind outcome_bind]. rewrite Hve. unfold checkInjected.
  unfold ExtractInjectedCheckpoint. destruct tx as [|b tx]; [done|]. cbn [length Nat.eqb]. rewrite Hdec.
  cbn [wrapf mbind outcome_bind rejectOnErr removeInjectedTx inj_Votes inj_Ckpt]. rewrite Hval. cbn [rejectOnErr].
  rewrite (build_pruned o1 o2 s m (EpochNumber epoch) votes cm hash Ho1 Ho2 Hv Hlast Hvp Hcm). cbn [rejectOnErr].
  rewrite (sized_Equal _ Hsz). cbn [mbind outcome_bind]. by rewrite Hd.
Qed.

End proposals.

(** ** Examples *)

Module ProposalExample.
Import ToyBls.

#[local] Instance plain_val : ValBech32 := {| ValString := hex_encode; ValFromBech32 := hex_decode |}.
#[local] Instance just_epoching : EpochingKeeper EpochingState := {| ek_epoching m := m |}.
#[local] Instance silent_hooks : CheckpointingHooks EpochingState :=
  {| AfterBlsKeyRegistered _ m _ := Ok (m, None); AfterRawCheckpointSealed _ m _ := Ok (m, None);
     AfterRawCheckpointConfirmed _ m _ := Ok (m, None); AfterRawCheckpointForgotten _ m _ := Ok (m, None);
     AfterRawCheckpointFinalized _ m _ := Ok (m, None); AfterRawCheckpointBlsSigVerified _ m _ := Ok (m, None) |}.

(** One validator whose extension is valid, another vote without one. *)
Definition ctx : Ctx := mkCtx 11 [] 110.
Definition addr : bytes := [x07].
Definition key : bytes := be_bytes 96 3.
Definition epoch1 : Epoch := mkEpoch 1 10 1 None [] [].
Definition m1 : EpochingState := mkEpoching 10 {[ 1 := epoch1 ]} {[ 1 := {[ addr := 10 ]} ]} {[ 1 := 10 ]} ∅ ∅ ∅ ∅ ∅ ∅.
Definition hashA : bytes := replicate 32 x01.
Definition ve1 : VoteExtension := mkVoteExt (hex_encode addr) (hex_encode addr) (Some hashA) 1 10
  (Some (be_bytes 48 ((3 * be_value (GetSignBytes 1 hashA)) `mod` N))).
Definition votes : list ExtendedVoteInfo := [mkExtVote [x08] 1 [x05] [x06] false; mkExtVote addr 10 [x01] [x02] false].
Definition s0 : CkptState := mkCkptState ∅ ∅ ∅ ∅ None false.
Definition s1 : CkptState := get_ok s0 (CreateRegistration s0 key addr).

(** A codec of one vote extension and one injected checkpoint. *)
#[local] Instance update_eq_dec : EqDecision CheckpointStateUpdate.
Proof. solve_decision. Defined.
#[local] Instance meta_eq_dec : EqDecision RawCheckpointWithMeta.
Proof. solve_decision. Defined.
#[local] Instance vote_eq_dec : EqDecision ExtendedVoteInfo.
Proof. solve_decision. Defined.
#[local] Instance injected_eq_dec : EqDecision MsgInjectedCheckpoint.
Proof. solve_decision. Defined.
Definition env (inj : MsgInjectedCheckpoint) : ProposalEnv :=
  {| ve_Marshal _ := [x01]; ve_Unmarshal b := if bool_decide (b = [x01]) then Some ve1 else None; ve_NoUnknownFields _ := true;
     encodeInjected i := if decide (i = inj) then Ok [x03] else Err (Errorf "marshal");
     decodeMsgs b := if bool_decide (b = [x03]) then Ok [Some inj] else Err (Errorf "unmarshal");
     ValidateVoteExtensions _ _ := Ok tt; defaultPrepareProposal _ txs := Ok txs; defaultProcessProposal _ _ := Ok true |}.
Definition empty_ckpt : RawCheckpointWithMeta := NewCheckpointWithMeta (NewCheckpoint 1 hashA) Accumulating.
Definition inj1 : MsgInjectedCheckpoint :=
  mkInjected (get_ok empty_ckpt (buildCheckpointFromVoteExtensions (PE := env (mkInjected empty_ckpt [])) id s1 m1 1 votes))
    (pruneCommitInfo (PE := env (mkInjected empty_ckpt [])) s1 1 votes hashA).
#[local] Instance env1 : ProposalEnv := env inj1.
#[local] Instance env1_laws : ProposalLaws env1.
Proof.
  split; cbn.
  - intros b ve h. case_bool_decide; [|done]. intros [= <-] [= <-]. reflexivity.
  - intros inj tx _. destruct (decide (inj = inj1)) as [->|]; [|done]. intros [= <-]. split; [done|]. by rewrite bool_decide_eq_true_2.
Qed.

Lemma powers1 : powers_ok m1 1.
Proof. split; [vm_compute; reflexivity|]. split; [vm_compute; repeat constructor; discriminate|vm_compute; reflexivity]. Qed.

Definition prepared : list bytes := [[x03]; [x0a]].
Lemma prepared_ok : PrepareProposal id ctx s1 m1 [[x0a]] 1000 votes = Ok prepared.
Proof. vm_compute. reflexivity. Qed.

Lemma honest_proposal_accepted_witness : ProcessProposal (@reverse _) ctx s1 m1 prepared = Ok true.
Proof.
  apply (honest_proposal_accepted id (@reverse _) ctx s1 m1 epoch1 [[x0a]] 1000 votes prepared).
  - done.
  - apply reverse_Permutation.
  - vm_compute. reflexivity.
  - vm_compute. reflexivity.
  - apply powers1.
  - split; [repeat constructor; discriminate|vm_compute; reflexivity].
  - intros hash H. split; [|reflexivity]. assert (hash = hashA) as -> by (vm_compute in H; injection H as <-; reflexivity).
    vm_compute. discriminate.
  - exact prepared_ok.
  - reflexivity.
Defined.

Lemma accepted_proposal_seals_witness :
  ∃ cm m', PreBlocker ctx s1 m1 prepared = Ok (with_ckpts (<[1 := cm]> (ck_checkpoints s1)) s1, m') ∧
    cm_Status cm = Sealed ∧ quorum_signed s1 m1 (cm_Ckpt cm) ∧ rc_EpochNum (cm_Ckpt cm) = 1.
Proof.
  apply (accepted_proposal_seals id ctx s1 m1 epoch1 prepared).
  - vm_compute. reflexivity.
  - vm_compute. reflexivity.
  - apply powers1.
  - vm_compute. repeat constructor.
  - vm_compute. reflexivity.
  - intros e. vm_compute. discriminate.
  - intros inj H. assert (Hi : inj = inj1) by (vm_compute in H; injection H as <-; reflexivity). rewrite Hi. vm_compute. discriminate.
  - vm_compute. reflexivity.
Defined.

End ProposalExample.
